(* ===== verification/_CoqProject ===== *)
-Q . S2P
Prelude.v
Regex.v
Digits.v
Decimal.v
Base64.v
Schemas.v
Rules.v
Assessment.v
Support.v
EvidenceLedger.v
KeyLifecycle.v
Projector.v
Session.v
AuditLedger.v
Storage.v
Journal.v
Json.v
Hex.v
Signatures.v
Protection.v
KeyOperations.v
Bundle.v
BundleService.v
BundleSafety.v
BundleSample.v
BundleProperties.v
EcmaRegExp.v
Text.v
SemanticTokens.v
SemanticNumbers.v
SemanticRelations.v
SemanticSupport.v
AssistantTypes.v
AssistantTools.v
AssistantDecisions.v
AssistantProse.v
AssistantValidation.v
AssistantService.v
AssistantRelease.v
AssistantRuns.v
AssistantSample.v
Formal.v
FormalProperties.v
Conditions.v
ConditionsProperties.v
Complementary.v
ComplementaryProperties.v
Live.v
Gateway.v
HttpControls.v
Recovery.v
InterfaceCases.v
InterfaceAssessment.v
Observability.v
Zod.v
BundleSchemas.v
BundleRecords.v
IdentityPolicy.v
DomainRecords.v
DomainPayloads.v
RecordSchemas.v
Preparation.v
RecordModels.v
EvaluationRecords.v
EvidenceManifest.v
JsNumber.v
HttpRoutes.v
HttpProperties.v
FileStore.v
FinalIntegrity.v
