(* ===== verification/Prelude.v ===== *)
(** * Verification of the second-life EV battery decision-support system (evllm)

    The program is a TypeScript service that keeps encrypted evidence about used vehicle
    batteries, compares what can be done with one, lets a language model explain records
    without letting it decide, and submits marketplace commands; a set of evaluation modules
    measures the assistant. This development models the modules under [src/src] that carry
    that logic and proves what makes each correct. File names below are relative to
    [src/src].

    ** The program and how its parts interact

    A request reaches a router ([app.ts] and the five [http.ts]), which authorizes it and
    calls one component. Evidence is prepared, finalized, granted and read by the bundle
    service ([evidence/evidence-bundle-service.ts]), which seals content
    ([protected-bundles/crypto]), checks EIP-712 proofs ([protected-bundles/signatures]),
    consumes key-operation authorizations ([evidence/key-operation-authorization-repository.ts]),
    follows the life of keys and grants ([protected-bundles/keys]) and stores objects through a
    coordinator ([protected-bundles/repository], [protected-bundles/storage]). Claims live in the
    evidence ledger ([evidence/evidence-ledger.ts]); the dated rules ([decision/rules.ts]) and the
    route assessment ([decision/assessment.ts]), over exact decimals ([decision/decimal.ts]), give
    recommendations with their support ([decision/support.ts]). The assistant
    ([assistant]) serves wallet sessions, runs tools, asks the model, validates what it says
    against the records and audits every answer; the research interface ([interface]) asks it about
    five controlled cases. The gateway ([marketplace/gateway.ts]) executes signed commands once.
    The evaluation ([evaluation]) scores answers of the same assistant.

    ** Files

    - The language and its library: Prelude.v (errors as values, [Map], [Set], sorting),
      Regex.v and EcmaRegExp.v (the two kinds of regular expressions the program uses: schema
      patterns by derivatives, searching with captures by backtracking), Digits.v, Hex.v,
      Base64.v, Text.v, Json.v (values called [unknown], canonical JSON, strict schemas),
      JsNumber.v ([Number(text)]), EvaluationRecords.v ([Date.parse]).
    - Schemas ([schemas]): Schemas.v (records whose schema is a boolean), Zod.v (schemas as
      values), BundleSchemas.v, BundleRecords.v, IdentityPolicy.v, DomainRecords.v,
      DomainPayloads.v, EvaluationRecords.v (the files of [schemas], schema by schema),
      RecordSchemas.v and RecordModels.v (what holds of all of them; documents and records),
      Preparation.v ([schemas/preparation.ts]).
    - Decisions: Decimal.v, Rules.v, Assessment.v, Support.v ([support.ts], [queries.ts]).
    - Evidence and bundles: EvidenceLedger.v; KeyLifecycle.v; Storage.v; FileStore.v
      ([protected-bundles/storage/filesystem.ts]); Signatures.v
      ([signatures/eip712.ts], [schemas/eip712.ts]); Protection.v ([crypto], [schemas/crypto.ts]);
      KeyOperations.v; Bundle.v (state and messages of the bundle service), BundleService.v (its
      operations), BundleSafety.v (the step relation and the invariant), BundleProperties.v (the
      theorems), BundleSample.v (a concrete bundle), EvidenceManifest.v ([evidenceManifest]).
    - The chain: Projector.v ([indexer/canonical-projector.ts]).
    - The assistant: Session.v, AuditLedger.v, AssistantTypes.v, AssistantTools.v,
      SemanticTokens.v, SemanticNumbers.v, SemanticRelations.v, SemanticSupport.v
      ([semantic-support.ts]), AssistantDecisions.v, AssistantProse.v, AssistantValidation.v,
      AssistantService.v ([service.ts]), AssistantRelease.v and AssistantRuns.v (the theorems),
      AssistantSample.v (concrete runs).
    - The research interface: InterfaceCases.v ([cases.ts], [runtime.ts], [runAssistant]),
      InterfaceAssessment.v ([runAssessment]).
    - Marketplace, operations, HTTP: Gateway.v, HttpControls.v, Recovery.v, Observability.v
      ([observability], [health], [db/migration-policy.ts]), HttpRoutes.v and HttpProperties.v.
    - The evaluation: Formal.v and FormalProperties.v ([formal.ts]), Conditions.v and
      ConditionsProperties.v, Complementary.v and ComplementaryProperties.v, Live.v,
      Journal.v ([transport-attempt-journal.ts]), FinalIntegrity.v (the freezes, and the integrity
      of the files of a final evaluation).

    A component is a [Record] of its state and one definition per method, handler or
    uninterrupted segment, with the names of the source; a name that Rocq or another file
    already uses ends in an underscore or has the component's prefix. Files that are used in
    several places are interfaces: [CanonicalJson], [Sha256], [Jose], [TypedData] and
    [ZodFormats] are classes of what a package promises; [ObjectStore] (Recovery.v) and the
    programs over a store (Storage.v) are what the code asks of any object store, with the
    in-memory store as the instance.

    ** Conventions

    - An error that is thrown is [Throw e] of [result]; an operation that throws after it has
      changed something returns the changed state next to its result.
    - Methods that await are split at their awaits. The segments are steps of a state (or of a
      thread over it, in BundleService.v) and theorems quantify over every interleaving of them
      and every answer of what was awaited; clocks, random bytes, identifiers, the outcomes of
      file writes and what stores, models, tools and callbacks answer are arguments.
    - Objects that the code mutates while others hold them live in a heap and maps hold
      addresses (KeyLifecycle.v, Bundle.v, Observability.v); structured clones are values.
    - [Map] is an association list in insertion order, [Set] a list without repetition, [sort] a
      stable insertion sort; lookups in object literals find the inherited [constructor].
    - Numbers are integers: the schemas only let safe integers through where the modelled code
      computes with them. Decimals are exact coefficients with their 80-digit limit. Rates that
      the code rounds are kept as fractions where it only compares them with 0 and 1.
    - Strings are lists of code units below 256; [localeCompare] is the class [LocaleCompare].
    - Packages are parameters with the laws their documentation states: [canonicalize] (RFC
      8785), SHA-256 and keccak (functions, with the length of their results), [jose] (what is
      sealed opens), [ethers] (recovery of a signer), the uuid, url and datetime formats of zod.
      No law says that hashes do not collide. Since collisions exist, a theorem that needs their
      absence does not say "or there is a collision": it names the two byte strings that the code
      hashed at two places ([collides], Signatures.v), or the two events at one place of a chain,
      and its other case is that these very two have one hash.
    - A property is stated in its own words, not in the definitions that compute it: what a request
      means, which records an answer needs, what is committed to, where a block is in a path.
    - A file of JSON lines is its ended lines and what follows the last newline (Journal.v).

    ** What is proved

    - Evidence bundles: however calls interleave and stores fail, finalized objects are in their
      stores, no authorization or nonce is consumed twice, a grant reads exactly what was prepared,
      proofs are consumed all or none, and the manifest of a finalized bundle tells what was
      prepared. The coordinator's lock admits the calls of a key one at a time, in the order they
      came, and one that waits gets in once those before it have worked. Signatures, sealed content, stored objects and
      revoked grants have their own theorems. The file store is one map under any interleaving and
      fault of its calls, and alone answers as the in-memory store does.
    - The assistant: no text of a model is released unvalidated and no answer is given unaudited;
      the model is asked exactly when no deterministic control decides; a key answers once; runs
      end; a session is only ever earned; the audit chain is tamper-evident; a support commitment
      binds its content.
    - Decisions: a recommended route is warranted; active rules cite active sources; claims are
      numbered with at most the last active; arithmetic is exact or fails.
    - HTTP: a server drives its components only by their own operations and for authorized callers,
      so that the theorems on the components are theorems on the server; nothing is disclosed to
      others; no key passes the rate limit; logs show no secrets.
    - Schemas: a document has one type and survives storage in canonical form; a prepared
      payload is about the bundle it is prepared for.
    - Marketplace and chain: commands are executed only when verified and allowed, and once while
      their calls do not overlap; a claim's projected status is that of its last confirmed event.
    - Evaluation and recovery: the governed condition refines its reference; scores say what they
      count; backups read back as what was written, and so do files of observations and attempts
      that end with a newline (without it an append makes them unreadable); the files of an
      accepted final evaluation belong together, and its analyses pin them.

    ** Bounds

    Recursion follows the data where it can. A schema pattern consumes its text by derivatives. A
    repetition in the backtracking matcher has as fuel the iterations it requires and the length
    of the text that is left, which [repeat_enough] (EcmaRegExp.v) shows to be enough. Redaction has
    the nine levels and a retry the attempts that the code allows. The other loops have as fuel a
    bound on their turns, given where they are defined: the blocks for the path to the genesis, the
    tokens for the scanners of SemanticTokens.v and SemanticRelations.v, the tickets of a lock, the
    objects in a chain of causes, the characters of a pattern that is parsed. Runs of the assistant
    are proved to end, not only to be right if they do; a call of the bundle service is a finite
    sequence of segments by its type.

    ** Not modelled

    Express (paths, parsing of bodies and queries, headers), [interface/page.ts] (markup),
    [config] and [server.ts] (environment and wiring), PostgreSQL and S3 (I/O; the coordinator and
    the bundle service are proved for any answers of a store), [withTimeout] and [withLock] inside
    the threads of the bundle service (its invariant allows objects put at any time, as an operation
    that was given up may do; the lock has its own theorem),
    [assistant/model.ts] (a network call; its answers are arguments), statistics over floating
    point numbers, the command-line scripts, the Solidity contracts, and the overwriting of key
    bytes with zeros. *)

From Stdlib Require Export ZArith Lia Permutation Sorted.
From Stdlib Require Export Ascii String.
From stdpp Require Export base list gmap strings sorting.

#[export] Set Warnings "-clear-no-such-hyp".

#[global] Open Scope Z_scope.

(** ** Errors as values

    A method that can [throw] is a function into [result E A]: [Throw e] is the
    thrown error object (its [code]), [Ok a] the returned value. *)

Inductive result (E A : Type) : Type :=
| Ok (a : A)
| Throw (e : E).
Arguments Ok {E A} a.
Arguments Throw {E A} e.

#[global] Instance result_ret {E} : MRet (result E) := fun A a => Ok a.
#[global] Instance result_bind {E} : MBind (result E) :=
  fun A B f m => match m with Ok a => f a | Throw e => Throw e end.
#[global] Instance result_fmap {E} : FMap (result E) :=
  fun A B f m => match m with Ok a => Ok (f a) | Throw e => Throw e end.

(** [if (!b) throw e;] *)
Definition require {E} (b : bool) (e : E) : result E unit :=
  if b then Ok tt else Throw e.

(** [if (x === undefined) throw e;] *)
Definition defined {E A} (x : option A) (e : E) : result E A :=
  match x with Some a => Ok a | None => Throw e end.

(** An operation of one class run inside another: its error is kept under the
    caller's constructor. *)
Definition lift_err {E F A} (inj : E -> F) (m : result E A) : result F A :=
  match m with Ok a => Ok a | Throw e => Throw (inj e) end.

(** [for (const a of l) f(a);], where [f] may throw. *)
Fixpoint for_each {E A} (f : A -> result E unit) (l : list A) : result E unit :=
  match l with
  | [] => Ok tt
  | a :: l => f a ≫= fun _ => for_each f l
  end.

(** [l.map(f)], where [f] may throw; the first error wins. *)
Fixpoint map_result {E A B} (f : A -> result E B) (l : list A) : result E (list B) :=
  match l with
  | [] => Ok []
  | a :: l => b ← f a; bs ← map_result f l; Ok (b :: bs)
  end.

(** [for (const a of l) acc = f(acc, a);], where [f] may throw. *)
Fixpoint fold_result {E A S} (f : S -> A -> result E S) (s : S) (l : list A) : result E S :=
  match l with
  | [] => Ok s
  | a :: l => s' ← f s a; fold_result f s' l
  end.

Definition is_ok {E A} (r : result E A) : bool :=
  match r with Ok _ => true | Throw _ => false end.

Lemma bind_Ok {E A B} (m : result E A) (f : A -> result E B) b :
  (m ≫= f) = Ok b <-> exists a, m = Ok a /\ f a = Ok b.
Proof. destruct m; simpl; split; [eauto|by intros (? & [= <-] & ?)|done|by intros (? & ? & ?)]. Qed.

Lemma bind_Throw {E A B} (m : result E A) (f : A -> result E B) e :
  (m ≫= f) = Throw e <-> m = Throw e \/ exists a, m = Ok a /\ f a = Throw e.
Proof.
  destruct m; simpl; split; eauto.
  - by intros [?|(? & [= <-] & ?)].
  - intros [= ->]. by left.
  - by intros [[= ->]|(? & ? & ?)].
Qed.

Lemma require_Ok {E} (b : bool) (e : E) u : require b e = Ok u <-> b = true.
Proof. by destruct b, u. Qed.

Lemma require_Throw {E} (b : bool) (e e' : E) : require b e = Throw e' <-> b = false /\ e = e'.
Proof. destruct b; simpl; split; intros; destruct_and?; simplify_eq/=; auto. Qed.

Lemma defined_Ok {E A} (x : option A) (e : E) a : defined x e = Ok a <-> x = Some a.
Proof. destruct x; simpl; split; intros; by simplify_eq/=. Qed.

Lemma defined_Throw {E A} (x : option A) (e e' : E) :
  defined x e = Throw e' <-> x = None /\ e = e'.
Proof. destruct x; simpl; split; intros; destruct_and?; simplify_eq/=; auto. Qed.

Lemma for_each_Ok {E A} (f : A -> result E unit) l u :
  for_each f l = Ok u <-> Forall (fun a => f a = Ok tt) l.
Proof.
  destruct u. induction l as [|a l IH]; simpl; [by split|].
  rewrite Forall_cons. destruct (f a) as [[]|] eqn:?; simpl; rewrite ?IH; split.
  all: try by intros [??]. all: done.
Qed.

Lemma map_result_Ok {E A B} (f : A -> result E B) l l' :
  map_result f l = Ok l' <-> Forall2 (fun a b => f a = Ok b) l l'.
Proof.
  revert l'; induction l as [|a l IH]; intros l'; simpl.
  - split; [intros [= <-]; constructor | by intros ->%Forall2_nil_inv_l].
  - rewrite bind_Ok. split.
    + intros (b & Hb & (bs & Hbs & [= <-])%bind_Ok). constructor; [done|]. by apply IH.
    + intros (b & bs & Hb & Hbs & ->)%Forall2_cons_inv_l.
      exists b. split; [done|]. apply bind_Ok. exists bs. split; [by apply IH|done].
Qed.

Lemma map_result_length {E A B} (f : A -> result E B) l l' :
  map_result f l = Ok l' -> length l' = length l.
Proof. intros H%map_result_Ok. symmetry. by eapply Forall2_length. Qed.

Lemma map_result_total {E A B} (f : A -> result E B) l :
  Forall (fun a => exists b, f a = Ok b) l -> exists l', map_result f l = Ok l'.
Proof.
  induction 1 as [|a l [b Hb] _ [bs IH]]; simpl; [eauto|].
  rewrite Hb. simpl. rewrite IH. simpl. eauto.
Qed.

(** Splits hypotheses [m ≫= f = Ok _] and the guards in them. *)
Ltac inv_result :=
  repeat match goal with
  | H : (_ ≫= _) = Ok _ |- _ =>
      let a := fresh "a" in let Ha := fresh "Ha" in
      apply bind_Ok in H; destruct H as (a & Ha & H)
  | H : require _ _ = Ok _ |- _ => apply require_Ok in H
  | H : defined _ _ = Ok _ |- _ => apply defined_Ok in H
  | H : Ok _ = Ok _ |- _ => injection H as H; try subst
  | H : Throw _ = Ok _ |- _ => discriminate H
  | H : Ok _ = Throw _ |- _ => discriminate H
  | H : Throw _ = Throw _ |- _ => injection H as H; try subst
  | H : andb _ _ = true |- _ => apply andb_true_iff in H; destruct H
  | H : negb _ = true |- _ => apply negb_true_iff in H
  | H : orb _ _ = false |- _ => apply orb_false_iff in H; destruct H
  | H : bool_decide _ = true |- _ => apply bool_decide_eq_true in H
  | H : bool_decide _ = false |- _ => apply bool_decide_eq_false in H
  end.

(** A loop invariant of [fold_result]. *)
Lemma fold_result_inv {Er X S} (f : S -> X -> result Er S) (P : list X -> S -> Prop) s l s' :
  P [] s -> (forall done_ s x s', P done_ s -> f s x = Ok s' -> P (done_ ++ [x]) s') ->
  fold_result f s l = Ok s' -> P l s'.
Proof.
  intros H0 Hstep. assert (forall l d s s', P d s -> fold_result f s l = Ok s' -> P (d ++ l) s') as H.
  { clear - Hstep. induction l as [|x l IH]; intros d s s' Hd Hf; simpl in Hf.
    - injection Hf as <-. by rewrite app_nil_r.
    - apply bind_Ok in Hf as (s1 & H1 & H2). rewrite (app_assoc d [x] l : d ++ x :: l = _).
      eapply IH; [|done]. by eapply Hstep. }
  apply (H l []). done.
Qed.

Lemma fold_result_ind {E A S} (P : S -> Prop) (f : S -> A -> result E S) s l s' :
  (forall s a s', P s -> f s a = Ok s' -> P s') -> P s -> fold_result f s l = Ok s' -> P s'.
Proof. intros Hf Hs. apply (fold_result_inv f (fun _ => P)); [done|]. intros _. apply Hf. Qed.

(** A reasonable case split on the scrutinee of the first [match] or [if]. *)
Ltac case_all :=
  repeat match goal with
  | |- context [match ?x with _ => _ end] => destruct x eqn:?; simplify_eq/=
  | H : context [match ?x with _ => _ end] |- _ => destruct x eqn:?; simplify_eq/=
  end.

(** ** Numbers

    JavaScript numbers that the program checks with [Number.isSafeInteger] are
    integers here; the check keeps its bound. *)

Definition MAX_SAFE_INTEGER : Z := 2 ^ 53 - 1.
Definition isSafeInteger (z : Z) : bool := Z.abs z <=? MAX_SAFE_INTEGER.

(** ** Insertion-ordered maps ([Map])

    A JavaScript [Map] iterates in insertion order; [set] on a present key keeps
    its place, on a new key appends. *)

Section JsMap.
Context {K : Type} `{EqDecision K} {V : Type}.
Implicit Types (k : K) (v : V) (m : list (K * V)).

Fixpoint map_get k m : option V :=
  match m with
  | [] => None
  | (k', v) :: m => if decide (k = k') then Some v else map_get k m
  end.

Fixpoint map_set k v m : list (K * V) :=
  match m with
  | [] => [(k, v)]
  | (k', v') :: m => if decide (k = k') then (k, v) :: m else (k', v') :: map_set k v m
  end.

Definition map_delete k m : list (K * V) := filter (fun p => p.1 <> k) m.
Definition map_has k m : bool := bool_decide (is_Some (map_get k m)).
Definition map_keys m : list K := m.*1.
Definition map_values m : list V := m.*2.
Definition map_size m : Z := Z.of_nat (length m).

(** No key twice: what every [Map] satisfies. *)
Definition map_ok m : Prop := NoDup m.*1.

Lemma map_get_set k k' v m :
  map_get k' (map_set k v m) = if decide (k' = k) then Some v else map_get k' m.
Proof.
  induction m as [|[k0 v0] m IH]; simpl; repeat (case_decide || simpl); naive_solver.
Qed.

Lemma map_get_set_eq k v m : map_get k (map_set k v m) = Some v.
Proof. rewrite map_get_set. by case_decide. Qed.

Lemma map_get_set_ne k k' v m : k' <> k -> map_get k' (map_set k v m) = map_get k' m.
Proof. intros. rewrite map_get_set. by case_decide. Qed.

Lemma map_get_elem_of k v m : map_get k m = Some v -> (k, v) ∈ m.
Proof.
  induction m as [|[k0 v0] m IH]; simpl; [done|].
  case_decide; intros; simplify_eq; constructor; auto.
Qed.

Lemma map_get_None k m : map_get k m = None <-> k ∉ m.*1.
Proof.
  induction m as [|[k0 v0] m IH]; simpl; [split; [intros _; apply not_elem_of_nil|done]|].
  rewrite not_elem_of_cons. case_decide; naive_solver.
Qed.

Lemma elem_of_map_get k v m : map_ok m -> (k, v) ∈ m -> map_get k m = Some v.
Proof.
  unfold map_ok. induction m as [|[k0 v0] m IH]; simpl; intros Hnd Hin;
    [by apply not_elem_of_nil in Hin|].
  apply NoDup_cons in Hnd as [Hk Hnd]. apply elem_of_cons in Hin as [[= <- <-]|Hin].
  - by case_decide.
  - case_decide as Heq; [|by auto]. subst. exfalso. apply Hk.
    apply list_elem_of_fmap. by exists (k0, v).
Qed.

Lemma map_set_elem k v m p : p ∈ map_set k v m -> p ∈ m \/ p = (k, v).
Proof.
  induction m as [|[k0 v0] m IH]; simpl.
  - intros ->%list_elem_of_singleton. by right.
  - case_decide; rewrite !elem_of_cons; naive_solver.
Qed.

Lemma map_set_fresh k v m : map_get k m = None -> map_set k v m = m ++ [(k, v)].
Proof.
  induction m as [|[k0 v0] m IH]; simpl; [done|]. case_decide; [done|]. intros. by rewrite IH.
Qed.

Lemma map_has_true k m : map_has k m = true <-> exists v, map_get k m = Some v.
Proof. unfold map_has. by rewrite bool_decide_eq_true. Qed.

Lemma map_has_false k m : map_has k m = false <-> map_get k m = None.
Proof.
  unfold map_has. rewrite bool_decide_eq_false, eq_None_not_Some. done.
Qed.

Lemma map_set_keys k v m :
  (map_set k v m).*1 = if decide (k ∈ m.*1) then m.*1 else m.*1 ++ [k].
Proof.
  induction m as [|[k0 v0] m IH]; csimpl.
  - done.
  - destruct (decide (k = k0)) as [->|Hne]; csimpl.
    + by rewrite decide_True by (by apply elem_of_cons; left).
    + rewrite IH. destruct (decide (k ∈ m.*1)) as [Hin|Hin].
      * by rewrite decide_True by (by apply elem_of_cons; right).
      * by rewrite decide_False by (by intros [?|?]%elem_of_cons).
Qed.

Lemma map_set_ok k v m : map_ok m -> map_ok (map_set k v m).
Proof.
  unfold map_ok. rewrite map_set_keys. case_decide as H; [done|]. intros Hnd.
  apply NoDup_app. repeat split; [done| |by apply NoDup_singleton].
  intros x Hx ->%list_elem_of_singleton. done.
Qed.

Lemma map_delete_get k k' m :
  map_get k' (map_delete k m) = if decide (k' = k) then None else map_get k' m.
Proof.
  induction m as [|[k0 v0] m IH]; csimpl; [by case_decide|].
  unfold map_delete in *. rewrite filter_cons. csimpl.
  repeat (case_decide || csimpl); naive_solver.
Qed.

Lemma map_delete_ok k m : map_ok m -> map_ok (map_delete k m).
Proof.
  unfold map_ok, map_delete. induction m as [|[k0 v0] m IH]; csimpl; [done|].
  intros [Hk Hnd]%NoDup_cons. rewrite filter_cons. case_decide; csimpl; [|by auto].
  apply NoDup_cons. split; [|by auto]. intros Hin. apply Hk.
  apply list_elem_of_fmap in Hin as ([k1 v1] & Heq & Hin). csimpl in Heq. subst.
  apply list_elem_of_filter in Hin as [_ Hin]. apply list_elem_of_fmap. by exists (k1, v1).
Qed.

Lemma map_set_size k v m :
  map_size (map_set k v m) = if map_has k m then map_size m else map_size m + 1.
Proof.
  unfold map_size. rewrite <- (length_fmap fst (map_set k v m)), map_set_keys.
  destruct (map_has k m) eqn:Hh.
  - apply map_has_true in Hh as [v' Hv]. rewrite decide_True, length_fmap; [done|].
    destruct (decide (k ∈ m.*1)) as [|H]; [done|]. apply map_get_None in H. congruence.
  - apply map_has_false, map_get_None in Hh. rewrite decide_False by done.
    rewrite length_app, length_fmap. simpl. lia.
Qed.

Lemma map_delete_size k m : map_size (map_delete k m) <= map_size m.
Proof. unfold map_size, map_delete. pose proof (length_filter (fun p => p.1 <> k) m). lia. Qed.
End JsMap.

(** The map as a finite partial function: the operations above are the ones of
    [gmap] once the order of insertion is forgotten. *)
Section MapAbstraction.
Context {K : Type} `{Countable K} {V : Type}.
Implicit Types (k : K) (v : V) (m : list (K * V)).

Definition map_abs m : gmap K V := list_to_map m.

Lemma map_abs_lookup k m : map_abs m !! k = map_get k m.
Proof.
  unfold map_abs. induction m as [|[k0 v0] m IH]; simpl; [apply lookup_empty|].
  rewrite lookup_insert. repeat case_decide; naive_solver.
Qed.

Lemma map_abs_set k v m : map_abs (map_set k v m) = <[k:=v]> (map_abs m).
Proof.
  apply map_eq. intros i. rewrite map_abs_lookup, map_get_set, lookup_insert, map_abs_lookup.
  repeat case_decide; naive_solver.
Qed.

Lemma map_abs_delete k m : map_abs (map_delete k m) = delete k (map_abs m).
Proof.
  apply map_eq. intros i. rewrite map_abs_lookup, map_delete_get, lookup_delete, map_abs_lookup.
  repeat case_decide; naive_solver.
Qed.
End MapAbstraction.

Lemma filter_all {A} (P : A -> Prop) `{!forall x, Decision (P x)} (l : list A) :
  Forall P l -> filter P l = l.
Proof.
  induction 1 as [|x l Hx _ IH]; [done|]. by rewrite filter_cons_True, IH.
Qed.

(** ** Sets built from arrays ([new Set(l)]), in order of first occurrence *)

Section JsSet.
Context {A : Type} `{EqDecision A}.
Implicit Types (x : A) (l : list A).

Fixpoint set_of l : list A :=
  match l with
  | [] => []
  | x :: l => x :: filter (fun y => y <> x) (set_of l)
  end.

Definition set_size l : Z := Z.of_nat (length (set_of l)).
Definition includes x l : bool := bool_decide (x ∈ l).

Lemma elem_of_set_of x l : x ∈ set_of l <-> x ∈ l.
Proof.
  induction l as [|y l IH]; simpl; [done|].
  rewrite !elem_of_cons, list_elem_of_filter, IH.
  destruct (decide (x = y)); naive_solver.
Qed.

Lemma set_of_NoDup l : NoDup (set_of l).
Proof.
  induction l as [|y l IH]; simpl; constructor.
  - rewrite list_elem_of_filter. naive_solver.
  - by apply NoDup_filter.
Qed.

Lemma set_of_length l : (length (set_of l) <= length l)%nat.
Proof.
  induction l as [|y l IH]; simpl; [lia|].
  pose proof (length_filter (fun z => z <> y) (set_of l)). lia.
Qed.

Lemma set_of_id l : NoDup l -> set_of l = l.
Proof.
  induction 1 as [|y l Hy _ IH]; simpl; [done|]. rewrite IH. f_equal.
  apply filter_all, Forall_forall. intros z Hz ->. done.
Qed.

(** [new Set(l).size === l.length] is the test for distinct elements. *)
Lemma set_size_NoDup l : set_size l = Z.of_nat (length l) <-> NoDup l.
Proof.
  unfold set_size. split; intros H.
  - apply Nat2Z.inj in H. revert H. induction l as [|y l IH]; simpl; [constructor|].
    intros [= H]. pose proof (length_filter (fun z => z <> y) (set_of l)) as Hf.
    pose proof (set_of_length l). constructor; [|apply IH; lia].
    rewrite <- elem_of_set_of. intros Hy.
    pose proof (length_filter_lt (fun z => z <> y) (set_of l) y Hy ltac:(auto)). lia.
  - by rewrite set_of_id.
Qed.

Lemma includes_true x l : includes x l = true <-> x ∈ l.
Proof. apply bool_decide_eq_true. Qed.

Lemma includes_false x l : includes x l = false <-> x ∉ l.
Proof. apply bool_decide_eq_false. Qed.
End JsSet.

(** ** Sorting ([Array.prototype.sort])

    The sort is stable (ECMAScript 2019): insertion sort from the right, an
    element stops before the first one it does not exceed. *)

Section JsSort.
Context {A : Type} (cmp : A -> A -> Z).

Fixpoint sort_insert (x : A) (l : list A) : list A :=
  match l with
  | [] => [x]
  | y :: l' => if cmp x y <=? 0 then x :: l else y :: sort_insert x l'
  end.

Fixpoint js_sort (l : list A) : list A :=
  match l with
  | [] => []
  | x :: l => sort_insert x (js_sort l)
  end.

Lemma sort_insert_perm x l : sort_insert x l ≡ₚ x :: l.
Proof.
  induction l as [|y l IH]; simpl; [done|]. destruct (cmp x y <=? 0); [done|].
  rewrite IH. constructor.
Qed.

Lemma js_sort_perm l : js_sort l ≡ₚ l.
Proof. induction l as [|x l IH]; simpl; [done|]. by rewrite sort_insert_perm, IH. Qed.

Lemma js_sort_elem_of x l : x ∈ js_sort l <-> x ∈ l.
Proof. by rewrite js_sort_perm. Qed.

Lemma js_sort_length l : length (js_sort l) = length l.
Proof. by rewrite js_sort_perm. Qed.

(** What a comparator promises. *)
Class Comparator : Prop := {
  cmp_flip x y : 0 < cmp x y -> cmp y x < 0;
  cmp_trans x y z : cmp x y <= 0 -> cmp y z <= 0 -> cmp x z <= 0
}.

Definition cmp_le (x y : A) : Prop := cmp x y <= 0.

Lemma sort_insert_sorted `{!Comparator} x l :
  StronglySorted cmp_le l -> StronglySorted cmp_le (sort_insert x l).
Proof.
  induction 1 as [|y l Hl IH Hy]; simpl; [by repeat constructor|].
  destruct (Z.leb_spec (cmp x y) 0) as [Hc|Hc].
  - constructor; [by constructor|]. constructor; [done|].
    eapply Forall_impl; [exact Hy|]. intros z Hz. by eapply cmp_trans.
  - constructor; [done|]. rewrite sort_insert_perm. constructor; [|done].
    apply Z.lt_le_incl. by apply cmp_flip.
Qed.

Lemma js_sort_sorted `{!Comparator} l : StronglySorted cmp_le (js_sort l).
Proof. induction l; simpl; [constructor|]. by apply sort_insert_sorted. Qed.

Lemma js_sort_id l : StronglySorted cmp_le l -> js_sort l = l.
Proof.
  induction 1 as [|x l _ IH Hx]; simpl; [done|]. rewrite IH. destruct Hx as [|y l Hy _]; [done|].
  simpl. by rewrite (proj2 (Z.leb_le _ _) Hy).
Qed.

(** With an antisymmetric comparator the result depends only on the elements. *)
Lemma js_sort_unique `{!Comparator} l l' :
  (forall x y, cmp x y <= 0 -> cmp y x <= 0 -> x = y) ->
  l ≡ₚ l' -> js_sort l = js_sort l'.
Proof.
  intros Hanti Hp.
  eapply (StronglySorted_unique_strong cmp_le).
  - intros x y _ _ Hxy Hyx. by apply Hanti.
  - apply js_sort_sorted.
  - apply js_sort_sorted.
  - by rewrite !js_sort_perm.
Qed.
End JsSort.

(** The default order of [sort()] on strings: by code units. *)
Definition string_cmp (a b : string) : Z :=
  match String.compare a b with Lt => -1 | Eq => 0 | Gt => 1 end.

Lemma string_cmp_le a b : string_cmp a b <= 0 <-> String.le a b.
Proof.
  unfold string_cmp, String.le, String.leb. destruct (String.compare a b); simpl; split; try done; lia.
Qed.

#[global] Instance string_cmp_comparator : Comparator string_cmp.
Proof.
  constructor.
  - intros x y. unfold string_cmp. rewrite (String.compare_antisym y x).
    destruct (String.compare x y); simpl; lia.
  - intros x y z. rewrite !string_cmp_le. intros. by trans y.
Qed.

Lemma string_cmp_antisym a b : string_cmp a b <= 0 -> string_cmp b a <= 0 -> a = b.
Proof. rewrite !string_cmp_le. intros. by apply (anti_symm String.le). Qed.

(** [[...l].sort()] on strings. *)
Definition sort_strings : list string -> list string := js_sort string_cmp.

Lemma sort_strings_unique l l' : l ≡ₚ l' -> sort_strings l = sort_strings l'.
Proof. apply js_sort_unique; [apply _|exact string_cmp_antisym]. Qed.

(** [left - right] on numbers. *)
Definition number_cmp (a b : Z) : Z := a - b.

#[global] Instance number_cmp_comparator : Comparator number_cmp.
Proof. constructor; unfold number_cmp; intros; lia. Qed.

(** A comparator on a field of a record. *)
#[global] Instance on_comparator {A B} (f : A -> B) (cmp : B -> B -> Z) `{!Comparator cmp} :
  Comparator (fun x y => cmp (f x) (f y)).
Proof.
  constructor; intros; [by apply (cmp_flip cmp)|by eapply (cmp_trans cmp)].
Qed.

(** [String.prototype.localeCompare] depends on the locale of the host: what the
    program relies on is that it is a consistent comparator (ECMA-402). *)
Class LocaleCompare := {
  localeCompare : string -> string -> Z;
  localeCompare_comparator :: Comparator localeCompare;
  localeCompare_flip s t : localeCompare s t < 0 -> 0 < localeCompare t s
}.

(** The order of code units is one such order. *)
Lemma string_cmp_flip s t : string_cmp s t < 0 -> 0 < string_cmp t s.
Proof.
  unfold string_cmp. rewrite (String.compare_antisym s t).
  destruct (String.compare t s); simpl; lia.
Qed.

Definition code_unit_locale : LocaleCompare :=
  {| localeCompare := string_cmp; localeCompare_flip := string_cmp_flip |}.

(** [l.join(separator)] *)
Definition join (separator : string) (l : list string) : string :=
  match l with
  | [] => ""
  | s :: l => fold_left (fun acc t => acc +:+ separator +:+ t)%string l s
  end.

Definition NUL : string := String "000"%char EmptyString.
