(* ===== verification/Regex.v ===== *)
(** * Regular expressions

    The program validates its identifiers and numbers with regular-expression
    literals. This file gives the pattern language they use: the syntax tree, its
    meaning as a relation ([rmatch]), a matcher by derivatives proved equivalent
    to it ([rtest_spec]), and a parser ([rx]) for the concrete syntax, so that
    the other files quote the patterns as the source writes them. *)

From S2P Require Import Prelude.

Local Open Scope nat_scope.

Inductive regex : Type :=
| RVoid
| REps
| RCls (negated : bool) (ranges : list (ascii * ascii))
| RSeq (r s : regex)
| RAlt (r s : regex)
| RStar (r : regex).

Definition in_range (c : ascii) (p : ascii * ascii) : bool :=
  (nat_of_ascii p.1 <=? nat_of_ascii c) && (nat_of_ascii c <=? nat_of_ascii p.2).

Definition cls_test (negated : bool) (ranges : list (ascii * ascii)) (c : ascii) : bool :=
  xorb negated (existsb (in_range c) ranges).

(** ** Meaning *)

Inductive rmatch : regex -> list ascii -> Prop :=
| rmatch_eps : rmatch REps []
| rmatch_cls n rs c : cls_test n rs c = true -> rmatch (RCls n rs) [c]
| rmatch_seq r s l l' : rmatch r l -> rmatch s l' -> rmatch (RSeq r s) (l ++ l')
| rmatch_alt_l r s l : rmatch r l -> rmatch (RAlt r s) l
| rmatch_alt_r r s l : rmatch s l -> rmatch (RAlt r s) l
| rmatch_star_nil r : rmatch (RStar r) []
| rmatch_star_cons r l l' : rmatch r l -> rmatch (RStar r) l' -> rmatch (RStar r) (l ++ l').

Create HintDb regex.
#[export] Hint Constructors rmatch : regex.

(** Inversion of a match, constructor by constructor. *)
Lemma rmatch_void_iff l : rmatch RVoid l <-> False.
Proof. split; [inversion 1|done]. Qed.

Lemma rmatch_eps_iff l : rmatch REps l <-> l = [].
Proof. split; [by inversion 1|intros ->; constructor]. Qed.

Lemma rmatch_cls_iff n rs l : rmatch (RCls n rs) l <-> exists c, l = [c] /\ cls_test n rs c = true.
Proof. split; [inversion 1; eauto|intros (c & -> & ?); by constructor]. Qed.

Lemma rmatch_seq_iff r s l :
  rmatch (RSeq r s) l <-> exists l1 l2, l = l1 ++ l2 /\ rmatch r l1 /\ rmatch s l2.
Proof. split; [inversion 1; eauto 6|intros (? & ? & -> & ? & ?); by constructor]. Qed.

Lemma rmatch_alt_iff r s l : rmatch (RAlt r s) l <-> rmatch r l \/ rmatch s l.
Proof. split; [inversion 1; eauto|intros []; eauto with regex]. Qed.

Lemma rmatch_star_cls_iff n rs l :
  rmatch (RStar (RCls n rs)) l <-> Forall (fun c => cls_test n rs c = true) l.
Proof.
  split.
  - remember (RStar (RCls n rs)) as r eqn:Hr. induction 1; simplify_eq; [constructor|].
    apply rmatch_cls_iff in H as (c & -> & Hc). constructor; auto.
  - induction 1 as [|c l Hc _ IH]; [constructor|].
    apply (rmatch_star_cons _ [c] l); [by constructor|done].
Qed.

Create Rewrite HintDb regex_iff.
#[export] Hint Rewrite rmatch_void_iff rmatch_eps_iff rmatch_cls_iff rmatch_seq_iff
  rmatch_alt_iff rmatch_star_cls_iff : regex_iff.

(** ** Derivatives *)

(** Constructors that keep the derivatives small. *)
Definition seq (r s : regex) : regex :=
  match r, s with
  | RVoid, _ | _, RVoid => RVoid
  | REps, _ => s
  | _, _ => RSeq r s
  end.

Definition alt (r s : regex) : regex :=
  match r, s with
  | RVoid, _ => s
  | _, RVoid => r
  | _, _ => RAlt r s
  end.

Fixpoint nullable (r : regex) : bool :=
  match r with
  | RVoid | RCls _ _ => false
  | REps | RStar _ => true
  | RSeq r s => nullable r && nullable s
  | RAlt r s => nullable r || nullable s
  end.

Fixpoint deriv (c : ascii) (r : regex) : regex :=
  match r with
  | RVoid | REps => RVoid
  | RCls n rs => if cls_test n rs c then REps else RVoid
  | RSeq r s =>
      if nullable r then alt (seq (deriv c r) s) (deriv c s) else seq (deriv c r) s
  | RAlt r s => alt (deriv c r) (deriv c s)
  | RStar r' => seq (deriv c r') r
  end.

Fixpoint rtest_list (r : regex) (l : list ascii) : bool :=
  match l with
  | [] => nullable r
  | c :: l => rtest_list (deriv c r) l
  end.

Lemma rmatch_seq_void_l s l : rmatch (RSeq RVoid s) l <-> False.
Proof. rewrite rmatch_seq_iff. split; [|done]. intros (? & ? & _ & H & _). inversion H. Qed.

Lemma rmatch_seq_void_r r l : rmatch (RSeq r RVoid) l <-> False.
Proof. rewrite rmatch_seq_iff. split; [|done]. intros (? & ? & _ & _ & H). inversion H. Qed.

Lemma rmatch_seq_eps_l s l : rmatch (RSeq REps s) l <-> rmatch s l.
Proof.
  rewrite rmatch_seq_iff. split; [|intros; exists [], l; eauto with regex].
  intros (? & ? & -> & H & ?). by inversion H.
Qed.

Lemma seq_iff r s l : rmatch (seq r s) l <-> rmatch (RSeq r s) l.
Proof.
  destruct r, s; simpl; rewrite ?rmatch_seq_void_l, ?rmatch_seq_void_r, ?rmatch_seq_eps_l,
    ?rmatch_void_iff; done.
Qed.

Lemma alt_iff r s l : rmatch (alt r s) l <-> rmatch (RAlt r s) l.
Proof. destruct r, s; simpl; autorewrite with regex_iff; tauto. Qed.

Lemma nullable_iff r : nullable r = true <-> rmatch r [].
Proof.
  induction r; simpl; autorewrite with regex_iff; try done.
  - split; [done|]. by intros (? & ? & ?).
  - rewrite andb_true_iff, IHr1, IHr2. split; [intros []; by exists [], []|].
    by intros ([] & [] & ? & ? & ?).
  - by rewrite orb_true_iff, IHr1, IHr2.
  - split; [constructor|done].
Qed.

Lemma deriv_iff c r l : rmatch (deriv c r) l <-> rmatch r (c :: l).
Proof.
  revert l; induction r; intros l; simpl; autorewrite with regex_iff; try done.
  - destruct (cls_test negated ranges c) eqn:Hc; autorewrite with regex_iff; split.
    + intros ->. eauto.
    + by intros (c' & [= -> ->] & ?).
    + done.
    + intros (c' & [= -> ->] & ?). congruence.
  - assert (rmatch (RSeq (deriv c r1) r2) l <->
      exists l1 l2, l = l1 ++ l2 /\ rmatch r1 (c :: l1) /\ rmatch r2 l2) as Hl.
    { rewrite rmatch_seq_iff. setoid_rewrite IHr1. done. }
    destruct (nullable r1) eqn:Hn; [rewrite alt_iff, rmatch_alt_iff|]; rewrite seq_iff, Hl;
      [rewrite IHr2|]; split.
    + intros [(l1 & l2 & -> & ? & ?)|?]; [by exists (c :: l1), l2|].
      apply nullable_iff in Hn. by exists [], (c :: l).
    + intros ([|c' l1] & l2 & ? & ? & ?); simplify_eq/=; eauto 7.
    + intros (l1 & l2 & -> & ? & ?). by exists (c :: l1), l2.
    + intros ([|c' l1] & l2 & ? & H & ?); simplify_eq/=; eauto 7.
      apply nullable_iff in H. congruence.
  - by rewrite alt_iff, rmatch_alt_iff, IHr1, IHr2.
  - rewrite seq_iff, rmatch_seq_iff. split.
    + intros (l1 & l2 & -> & H%IHr & ?). by apply (rmatch_star_cons r (c :: l1) l2).
    + remember (RStar r) as r' eqn:Hr. remember (c :: l) as cl eqn:Hl.
      induction 1; simplify_eq. destruct l0 as [|c0 l0]; simplify_eq/=; [by auto|].
      exists l0, l'. split; [done|]. by rewrite IHr.
Qed.

Lemma rtest_list_spec r l : rtest_list r l = true <-> rmatch r l.
Proof.
  revert r; induction l as [|c l IH]; intros r; simpl; [apply nullable_iff|].
  by rewrite IH, deriv_iff.
Qed.

(** [pattern.test(s)], the pattern anchored at both ends. *)
Definition rtest (r : regex) (s : string) : bool := rtest_list r (list_ascii_of_string s).

Lemma rtest_spec r s : rtest r s = true <-> rmatch r (list_ascii_of_string s).
Proof. apply rtest_list_spec. Qed.

(** ** Concrete syntax *)

Definition any : regex := RCls true [("010"%char, "010"%char); ("013"%char, "013"%char)].
Definition anything : regex := RStar (RCls true []).
Definition lit (c : ascii) : regex := RCls false [(c, c)].

Fixpoint rep (n : nat) (r : regex) : regex :=
  match n with 0 => REps | 1 => r | S n => RSeq r (rep n r) end.

Fixpoint upto (n : nat) (r : regex) : regex :=
  match n with 0 => REps | S n => RAlt REps (RSeq r (upto n r)) end.

Definition escape (c : ascii) : bool * list (ascii * ascii) :=
  match c with
  | "d" => (false, [("0", "9")])
  | "s" => (false, [(" ", " "); ("009", "013")])
  | "n" => (false, [("010", "010")])
  | "w" => (false, [("0", "9"); ("A", "Z"); ("a", "z"); ("_", "_")])
  | c => (false, [(c, c)])
  end%char.

(** The inside of [[...]], after a possible [^]. *)
Fixpoint parse_class (l : list ascii) (acc : list (ascii * ascii)) :
    option (list (ascii * ascii) * list ascii) :=
  match l with
  | "]" :: l => Some (acc, l)
  | "\" :: c :: l => parse_class l (acc ++ (escape c).2)
  | a :: "-" :: "]" :: l => Some (acc ++ [(a, a); ("-", "-")], l)
  | a :: "-" :: b :: l => parse_class l (acc ++ [(a, b)])
  | a :: l => parse_class l (acc ++ [(a, a)])
  | [] => None
  end%char.

Definition digit_value (c : ascii) : option nat :=
  let n := nat_of_ascii c in if (48 <=? n) && (n <=? 57) then Some (n - 48) else None.

Fixpoint parse_count (l : list ascii) (acc : nat) : nat * list ascii :=
  match l with
  | c :: l' => match digit_value c with Some d => parse_count l' (10 * acc + d) | None => (acc, l) end
  | [] => (acc, [])
  end.

(** A quantifier after an atom; [{] always opens one in the patterns used. *)
Definition parse_quantifier (r : regex) (l : list ascii) : option (regex * list ascii) :=
  match l with
  | "*" :: l => Some (RStar r, l)
  | "+" :: l => Some (RSeq r (RStar r), l)
  | "?" :: l => Some (RAlt REps r, l)
  | "{" :: l =>
      match parse_count l 0 with
      | (n, "}" :: l) => Some (rep n r, l)
      | (n, "," :: "}" :: l) => Some (RSeq (rep n r) (RStar r), l)
      | (n, "," :: l) =>
          match parse_count l 0 with
          | (m, "}" :: l) => Some (RSeq (rep n r) (upto (m - n) r), l)
          | _ => None
          end
      | _ => None
      end
  | _ => Some (r, l)
  end%char.

(** [parse_alt] reads alternatives up to [)] or the end; [cur] is the sequence
    read so far in the current alternative. *)
Fixpoint parse_alt (fuel : nat) (l : list ascii) (cur : regex) : option (regex * list ascii) :=
  match fuel with
  | 0 => None
  | S fuel =>
      let atom r l :=
        match parse_quantifier r l with
        | Some (r, l) => parse_alt fuel l (match cur with REps => r | _ => RSeq cur r end)
        | None => None
        end in
      match l with
      | [] => Some (cur, [])
      | ")" :: _ => Some (cur, l)
      | "|" :: l =>
          match parse_alt fuel l REps with
          | Some (r, l) => Some (RAlt cur r, l)
          | None => None
          end
      | "(" :: "?" :: ":" :: l | "(" :: l =>
          match parse_alt fuel l REps with
          | Some (r, ")" :: l) => atom r l
          | _ => None
          end
      | "[" :: "^" :: l =>
          match parse_class l [] with Some (rs, l) => atom (RCls true rs) l | None => None end
      | "[" :: l =>
          match parse_class l [] with Some (rs, l) => atom (RCls false rs) l | None => None end
      | "." :: l => atom any l
      | "\" :: c :: l => let '(n, rs) := escape c in atom (RCls n rs) l
      | c :: l => atom (lit c) l
      end%char
  end.

Definition parse_body (l : list ascii) : option regex :=
  match parse_alt (S (length l)) l REps with
  | Some (r, []) => Some r
  | _ => None
  end.

(** A whole literal: [^] and [$] may stand at its ends only. *)
Definition parse_regex (s : string) : option regex :=
  let l := list_ascii_of_string s in
  let '(start, l) := match l with "^"%char :: l => (REps, l) | _ => (anything, l) end in
  let '(stop, l) :=
    match rev l with "$"%char :: l' => (REps, rev l') | _ => (anything, l) end in
  match parse_body l with
  | Some r => Some (seq start (match stop with REps => r | _ => RSeq r stop end))
  | None => None
  end.

Definition rx (s : string) : regex := default RVoid (parse_regex s).

Example rx_urn : rtest (rx "^[a-z]{2,3}:(?:x|y[^0-9])+\.$") "ab:xya." = true.
Proof. vm_compute. reflexivity. Qed.

Example rx_unanchored : rtest (rx "b+c") "aabbcd" = true /\ rtest (rx "b+c") "aabd" = false.
Proof. vm_compute. split; reflexivity. Qed.
