(* ===== verification/Digits.v ===== *)
(** * Decimal numerals

    [BigInt.prototype.toString], [BigInt(string)] and the string helpers
    ([split], [padStart], stripping zeros) over lists of characters: what the
    exact-decimal code computes with. *)

From S2P Require Import Prelude.

Definition digit_char (d : Z) : ascii := ascii_of_nat (48 + Z.to_nat d).
Definition digit_val (c : ascii) : Z := Z.of_nat (nat_of_ascii c) - 48.
Definition is_digit (c : ascii) : Prop := 0 <= digit_val c <= 9.

#[global] Instance is_digit_dec c : Decision (is_digit c).
Proof. unfold is_digit. apply _. Defined.

(** [BigInt(l)] for a string of digits; [BigInt(empty)] is [0n]. *)
Definition digits_value (l : list ascii) : Z := fold_left (fun v c => 10 * v + digit_val c) l 0.

Fixpoint print_aux (fuel : nat) (n : Z) (acc : list ascii) : list ascii :=
  match fuel with
  | O => acc
  | S fuel =>
      let acc := digit_char (n mod 10) :: acc in
      if n <? 10 then acc else print_aux fuel (n / 10) acc
  end.

(** [n.toString()] for [0 <= n]; the fuel exceeds the number of digits. *)
Definition print_digits (n : Z) : list ascii := print_aux (S (Z.to_nat (Z.log2 n))) n [].

(** A numeral: digits, without a superfluous leading zero. *)
Definition numeral (l : list ascii) : Prop :=
  Forall is_digit l /\ l <> [] /\ (head l = Some "0"%char -> l = ["0"%char]).

Lemma digit_char_val c : is_digit c -> digit_char (digit_val c) = c.
Proof.
  unfold is_digit, digit_char, digit_val. intros H.
  replace (48 + Z.to_nat (Z.of_nat (nat_of_ascii c) - 48))%nat with (nat_of_ascii c) by lia.
  apply ascii_nat_embedding.
Qed.

Lemma digit_val_char d : 0 <= d <= 9 -> digit_val (digit_char d) = d.
Proof.
  intros H. unfold digit_val, digit_char. rewrite nat_ascii_embedding by lia. lia.
Qed.

Lemma digit_char_is_digit d : 0 <= d <= 9 -> is_digit (digit_char d).
Proof. intros. unfold is_digit. by rewrite digit_val_char. Qed.

Lemma digit_val_inj c c' : digit_val c = digit_val c' -> c = c'.
Proof.
  unfold digit_val. intros H. rewrite <- (ascii_nat_embedding c), <- (ascii_nat_embedding c').
  f_equal. lia.
Qed.

Lemma digit_val_zero c : digit_val c = 0 <-> c = "0"%char.
Proof. split; [|by intros ->]. intros. by apply digit_val_inj. Qed.

(** ** The value of a numeral *)

Lemma fold_digits l v :
  fold_left (fun v c => 10 * v + digit_val c) l v = v * 10 ^ Z.of_nat (length l) + digits_value l.
Proof.
  unfold digits_value. revert v; induction l as [|c l IH]; intros v; simpl fold_left.
  - simpl. lia.
  - rewrite IH, (IH (_ + _)). simpl length. rewrite Nat2Z.inj_succ, Z.pow_succ_r by lia. ring.
Qed.

Lemma digits_value_app l l' :
  digits_value (l ++ l') = digits_value l * 10 ^ Z.of_nat (length l') + digits_value l'.
Proof. unfold digits_value at 1. by rewrite fold_left_app, fold_digits. Qed.

Lemma digits_value_snoc l c : digits_value (l ++ [c]) = 10 * digits_value l + digit_val c.
Proof.
  rewrite digits_value_app. change (digits_value [c]) with (digit_val c).
  change (10 ^ Z.of_nat (length [c])) with 10. lia.
Qed.

Lemma digits_value_cons c l :
  digits_value (c :: l) = digit_val c * 10 ^ Z.of_nat (length l) + digits_value l.
Proof. change (c :: l) with ([c] ++ l). apply digits_value_app. Qed.

Lemma digits_value_bounds l :
  Forall is_digit l -> 0 <= digits_value l < 10 ^ Z.of_nat (length l).
Proof.
  induction 1 as [|c l Hc _ IH]; [done|]. rewrite digits_value_cons. simpl length.
  rewrite Nat2Z.inj_succ, Z.pow_succ_r by lia. unfold is_digit in Hc. nia.
Qed.

Lemma digits_value_zeros k : digits_value (replicate k "0"%char) = 0.
Proof.
  induction k as [|k IH]; [done|]. simpl replicate. rewrite digits_value_cons, IH.
  change (digit_val "0"%char) with 0. lia.
Qed.

Lemma digits_value_pad k l : digits_value (replicate k "0"%char ++ l) = digits_value l.
Proof. rewrite digits_value_app, digits_value_zeros. lia. Qed.

Lemma digits_value_zero l :
  Forall is_digit l -> digits_value l = 0 <-> Forall (fun c => c = "0"%char) l.
Proof.
  induction 1 as [|c l Hc Hl IH]; [done|]. rewrite Forall_cons, <- IH, digits_value_cons.
  pose proof (digits_value_bounds l Hl). unfold is_digit in Hc. rewrite <- digit_val_zero. nia.
Qed.

(** ** Printing *)

Lemma print_aux_app fuel n acc : print_aux fuel n acc = print_aux fuel n [] ++ acc.
Proof.
  revert n acc; induction fuel as [|fuel IH]; intros n acc; simpl; [done|].
  destruct (n <? 10); [done|]. rewrite IH, (IH _ [_]). by rewrite <- app_assoc.
Qed.

Lemma print_aux_fuel f f' n acc :
  0 <= n -> n < 2 ^ Z.of_nat f -> n < 2 ^ Z.of_nat f' -> (0 < f)%nat -> (0 < f')%nat ->
  print_aux f n acc = print_aux f' n acc.
Proof.
  revert f' n acc; induction f as [|f IH]; intros [|f'] n acc Hn Hf Hf' H0 H0'; [lia..|].
  simpl. destruct (Z.ltb_spec n 10); [done|].
  rewrite Nat2Z.inj_succ, Z.pow_succ_r in Hf by lia.
  rewrite Nat2Z.inj_succ, Z.pow_succ_r in Hf' by lia.
  assert (0 <= n / 10 /\ 2 * (n / 10) < n) as [] by (split; [apply Z.div_pos|]; Z.div_mod_to_equations; lia).
  destruct f; [simpl in Hf; lia|]. destruct f'; [simpl in Hf'; lia|].
  apply IH; lia.
Qed.

Lemma print_digits_unfold n :
  0 <= n ->
  print_digits n =
  if n <? 10 then [digit_char n] else print_digits (n / 10) ++ [digit_char (n mod 10)].
Proof.
  intros Hn. unfold print_digits at 1. simpl. destruct (Z.ltb_spec n 10).
  - by rewrite Z.mod_small.
  - rewrite print_aux_app. f_equal. unfold print_digits.
    assert (1 <= n / 10 /\ 2 * (n / 10) < n) as [] by (Z.div_mod_to_equations; lia).
    pose proof (Z.log2_spec n ltac:(lia)). pose proof (Z.log2_spec (n / 10) ltac:(lia)).
    pose proof (Z.log2_pos n ltac:(lia)). pose proof (Z.log2_nonneg (n / 10)).
    rewrite Z.pow_succ_r in * by lia.
    apply print_aux_fuel; rewrite ?Nat2Z.inj_succ, ?Z2Nat.id, ?Z.pow_succ_r; lia.
Qed.

(** Induction on the printed number, digit by digit. *)
Lemma digits_ind (P : Z -> Prop) :
  (forall n, 0 <= n < 10 -> P n) ->
  (forall n, 10 <= n -> P (n / 10) -> P n) ->
  forall n, 0 <= n -> P n.
Proof.
  intros H1 H2 n. induction n as [n IH] using (well_founded_induction (Z.lt_wf 0)). intros Hn.
  destruct (Z.lt_ge_cases n 10); [by apply H1|]. apply H2; [done|].
  apply IH; Z.div_mod_to_equations; lia.
Qed.

Lemma print_digits_small n : 0 <= n < 10 -> print_digits n = [digit_char n].
Proof. intros. rewrite print_digits_unfold by lia. by destruct (Z.ltb_spec n 10); [|lia]. Qed.

Lemma print_digits_large n :
  10 <= n -> print_digits n = print_digits (n / 10) ++ [digit_char (n mod 10)].
Proof. intros. rewrite print_digits_unfold by lia. by destruct (Z.ltb_spec n 10); [lia|]. Qed.

Lemma print_digits_value n : 0 <= n -> digits_value (print_digits n) = n.
Proof.
  revert n. apply digits_ind; intros n Hn.
  - rewrite print_digits_small by done. unfold digits_value. simpl. rewrite digit_val_char; lia.
  - intros IH. rewrite print_digits_large, digits_value_snoc, IH by done.
    rewrite digit_val_char; Z.div_mod_to_equations; lia.
Qed.

Lemma print_digits_digits n : 0 <= n -> Forall is_digit (print_digits n).
Proof.
  revert n. apply digits_ind; intros n Hn.
  - rewrite print_digits_small by done. constructor; [apply digit_char_is_digit; lia|done].
  - intros IH. rewrite print_digits_large by done. apply Forall_app. split; [done|].
    constructor; [|done]. apply digit_char_is_digit. Z.div_mod_to_equations; lia.
Qed.

Lemma print_digits_nonempty n : 0 <= n -> print_digits n <> [].
Proof.
  intros Hn. rewrite print_digits_unfold by done. destruct (n <? 10); [done|].
  by intros [_ ?]%app_eq_nil.
Qed.

Lemma print_digits_numeral n : 0 <= n -> numeral (print_digits n).
Proof.
  intros Hn. split; [by apply print_digits_digits|]. split; [by apply print_digits_nonempty|].
  revert n Hn.
  apply (digits_ind (fun n => head (print_digits n) = Some _ -> print_digits n = _)); intros n Hn.
  - rewrite print_digits_small by done. simpl. by intros [= ->].
  - intros IH. rewrite print_digits_large by done.
    assert (0 <= n / 10) as Hn' by (Z.div_mod_to_equations; lia).
    pose proof (print_digits_nonempty _ Hn') as Hne.
    pose proof (print_digits_value _ Hn') as Hv.
    destruct (print_digits (n / 10)) as [|c l]; [done|]. simpl in *. intros [= ->].
    specialize (IH eq_refl) as [= ->]. change (0 = n / 10) in Hv. Z.div_mod_to_equations; lia.
Qed.

Lemma print_digits_of_value l : numeral l -> print_digits (digits_value l) = l.
Proof.
  intros (Hd & Hne & Hz). induction l as [|c l IH] using rev_ind; [done|].
  apply Forall_app in Hd as [Hl Hc]. apply Forall_cons in Hc as [Hc _].
  pose proof (digits_value_bounds l Hl). rewrite digits_value_snoc.
  destruct l as [|c0 l].
  - change (digits_value []) with 0. rewrite Z.mul_0_r, Z.add_0_l.
    rewrite print_digits_small by (unfold is_digit in Hc; lia). simpl. by rewrite digit_char_val.
  - assert (0 < digits_value (c0 :: l)).
    { destruct (decide (digits_value (c0 :: l) = 0)) as [H0|]; [|lia].
      apply digits_value_zero in H0; [|done]. apply Forall_cons in H0 as [-> _].
      specialize (Hz eq_refl). simplify_list_eq. by destruct l. }
    unfold is_digit in Hc. rewrite print_digits_large by lia.
    rewrite (Z.mul_comm 10), Z.div_add_l, (Z.div_small (digit_val c)), Z.add_0_r by lia.
    rewrite IH; [|done..|].
    + rewrite Z.add_comm, Z.mod_add, Z.mod_small by lia. by rewrite digit_char_val.
    + simpl. intros [= ->]. specialize (Hz eq_refl). simplify_list_eq. by destruct l.
Qed.

(** [n.toString().length <= k] is [n < 10^k]. *)
Lemma print_digits_length n k :
  0 <= n -> (0 < k)%nat -> (length (print_digits n) <= k)%nat <-> n < 10 ^ Z.of_nat k.
Proof.
  intros Hn. revert n Hn k. apply (digits_ind (fun n => forall k, _ -> _)); intros n Hn.
  - intros k Hk. rewrite print_digits_small by done. simpl. split; [|lia]. intros _.
    assert (10 ^ 1 <= 10 ^ Z.of_nat k) by (apply Z.pow_le_mono_r; lia). lia.
  - intros IH k Hk. rewrite print_digits_large by done. rewrite length_app. simpl.
    destruct k as [|k]; [lia|]. destruct k as [|k].
    + simpl. pose proof (print_digits_nonempty (n / 10) ltac:(apply Z.div_pos; lia)).
      destruct (print_digits (n / 10)); [done|]. simpl. lia.
    + specialize (IH (S k) ltac:(lia)).
      rewrite (Nat2Z.inj_succ (S k)), Z.pow_succ_r by lia.
      transitivity (n / 10 < 10 ^ Z.of_nat (S k)); [rewrite <- IH; lia|].
      split; intros; Z.div_mod_to_equations; lia.
Qed.

(** ** String helpers *)

(** [s.split(c)] *)
Fixpoint split_char (c : ascii) (l : list ascii) : list (list ascii) :=
  match l with
  | [] => [[]]
  | a :: l =>
      if decide (a = c) then [] :: split_char c l
      else match split_char c l with
           | w :: ws => (a :: w) :: ws
           | [] => [[a]]
           end
  end.

Lemma split_char_none c l : c ∉ l -> split_char c l = [l].
Proof.
  induction l as [|a l IH]; simpl; [done|]. intros H. apply not_elem_of_cons in H as [? H].
  rewrite decide_False by done. by rewrite IH.
Qed.

Lemma split_char_app c l l' : c ∉ l -> split_char c (l ++ c :: l') = l :: split_char c l'.
Proof.
  induction l as [|a l IH]; simpl; [by rewrite decide_True by done|].
  intros H. apply not_elem_of_cons in H as [? H]. rewrite decide_False by done. by rewrite IH.
Qed.

(** [s.replace(/^0+/u, empty)] and [s.replace(/0+$/u, empty)] *)
Fixpoint strip_leading_zeros (l : list ascii) : list ascii :=
  match l with
  | "0"%char :: l => strip_leading_zeros l
  | l => l
  end.

Definition strip_trailing_zeros (l : list ascii) : list ascii :=
  reverse (strip_leading_zeros (reverse l)).

(** [s.padStart(n, zero)] *)
Definition pad_start (n : nat) (l : list ascii) : list ascii :=
  replicate (n - length l) "0"%char ++ l.

Lemma strip_leading_zeros_spec l :
  exists k, l = replicate k "0"%char ++ strip_leading_zeros l /\
    head (strip_leading_zeros l) <> Some "0"%char.
Proof.
  induction l as [|c l (k & IH & Hh)]; [by exists 0%nat|].
  destruct (decide (c = "0"%char)) as [->|Hc].
  - exists (S k). simpl. by rewrite <- IH.
  - exists 0%nat. simpl.
    assert (match c with "0"%char => strip_leading_zeros l | _ => c :: l end = c :: l) as ->.
    { by destruct c as [[] [] [] [] [] [] [] []]. }
    simpl. split; [done|]. by intros [= ->].
Qed.

Lemma strip_leading_zeros_value l : digits_value (strip_leading_zeros l) = digits_value l.
Proof.
  destruct (strip_leading_zeros_spec l) as (k & Hk & _). rewrite Hk at 2.
  by rewrite digits_value_pad.
Qed.

Lemma strip_trailing_zeros_spec l :
  exists k, l = strip_trailing_zeros l ++ replicate k "0"%char /\
    last (strip_trailing_zeros l) <> Some "0"%char.
Proof.
  unfold strip_trailing_zeros. destruct (strip_leading_zeros_spec (reverse l)) as (k & Hk & Hh).
  exists k. split.
  - rewrite <- (reverse_involutive l) at 1. rewrite Hk at 1. rewrite reverse_app. f_equal.
    apply reverse_replicate.
  - by rewrite last_reverse.
Qed.

Lemma strip_trailing_zeros_id l : last l <> Some "0"%char -> strip_trailing_zeros l = l.
Proof.
  intros H. destruct (strip_trailing_zeros_spec l) as (k & Hk & _).
  destruct k as [|k]; [simpl in Hk; by rewrite app_nil_r in Hk|].
  exfalso. apply H. rewrite Hk, replicate_S_end, app_assoc. apply last_snoc.
Qed.

Lemma strip_leading_zeros_digits l : Forall is_digit l -> Forall is_digit (strip_leading_zeros l).
Proof.
  destruct (strip_leading_zeros_spec l) as (k & Hk & _). rewrite Hk at 1.
  by intros [_ ?]%Forall_app.
Qed.

(** The significant digits of a positive number are its numeral. *)
Lemma strip_leading_zeros_print l :
  Forall is_digit l -> 0 < digits_value l -> strip_leading_zeros l = print_digits (digits_value l).
Proof.
  intros Hl Hv. rewrite <- strip_leading_zeros_value, print_digits_of_value; [done|].
  destruct (strip_leading_zeros_spec l) as (k & Hk & Hh).
  split; [by apply strip_leading_zeros_digits|]. split; [|done].
  intros H0. rewrite <- strip_leading_zeros_value, H0 in Hv. by change (0 < 0) in Hv.
Qed.

Lemma is_digit_not_dot l : Forall is_digit l -> ("."%char ∉ l) /\ ("-"%char ∉ l).
Proof.
  intros H. rewrite Forall_forall in H.
  split; intros Hin; destruct (H _ Hin) as [Hlo _]; by apply Hlo.
Qed.

(** Digit strings of the same length with the same value are equal. *)
Lemma digits_value_inj l l' :
  Forall is_digit l -> Forall is_digit l' -> length l = length l' ->
  digits_value l = digits_value l' -> l = l'.
Proof.
  intros Hl. revert l'; induction Hl as [|c l Hc Hl IH]; intros [|c' l'] Hl' Hlen; try done.
  apply Forall_cons in Hl' as [Hc' Hl']. injection Hlen as Hlen. rewrite !digits_value_cons, Hlen.
  pose proof (digits_value_bounds _ Hl) as Hb. pose proof (digits_value_bounds _ Hl') as Hb'.
  rewrite Hlen in Hb. intros Hv. assert (digit_val c = digit_val c') as Hcc by nia.
  f_equal; [by apply digit_val_inj|]. apply IH; [done..|]. rewrite Hcc in Hv. lia.
Qed.

(** ** [String(n)] on integers *)

Definition number_chars (z : Z) : list ascii :=
  if z <? 0 then "-"%char :: print_digits (- z) else print_digits z.

Definition number_to_string (z : Z) : string := string_of_list_ascii (number_chars z).

Lemma print_digits_inj n m : 0 <= n -> 0 <= m -> print_digits n = print_digits m -> n = m.
Proof.
  intros Hn Hm H. by rewrite <- (print_digits_value n), <- (print_digits_value m), H.
Qed.

Lemma print_digits_no_minus n l : 0 <= n -> print_digits n <> "-"%char :: l.
Proof.
  intros Hn H. pose proof (print_digits_digits n Hn) as Hd. rewrite H in Hd.
  apply Forall_cons in Hd as [[] _]. done.
Qed.

Lemma number_chars_inj n m : number_chars n = number_chars m -> n = m.
Proof.
  unfold number_chars. destruct (Z.ltb_spec n 0), (Z.ltb_spec m 0); intros He.
  - injection He as He. apply print_digits_inj in He; lia.
  - symmetry in He. apply print_digits_no_minus in He; [done|lia].
  - apply print_digits_no_minus in He; [done|lia].
  - by apply print_digits_inj in He.
Qed.

Lemma number_chars_colon n : ":"%char ∉ number_chars n.
Proof.
  unfold number_chars. assert (forall k, 0 <= k -> ":"%char ∉ print_digits k) as Hcolon.
  { intros k Hk Hin. pose proof (print_digits_digits k Hk) as Hd. rewrite Forall_forall in Hd.
    destruct (Hd _ Hin) as [_ Hb]. by apply Hb. }
  destruct (Z.ltb_spec n 0); [|by apply Hcolon].
  rewrite not_elem_of_cons. split; [done|]. apply Hcolon. lia.
Qed.

(** [`${id}:${version}`]: the key of a versioned record. *)
Definition versionKey (id : string) (version : Z) : string :=
  (id +:+ ":" +:+ number_to_string version)%string.

Lemma list_ascii_of_string_app s s' :
  list_ascii_of_string (s +:+ s') = list_ascii_of_string s ++ list_ascii_of_string s'.
Proof. induction s as [|c s IH]; simpl; [done|]. by f_equal. Qed.

Lemma list_ascii_of_string_inj s s' : list_ascii_of_string s = list_ascii_of_string s' -> s = s'.
Proof.
  intros H. by rewrite <- (string_of_list_ascii_of_string s), H, string_of_list_ascii_of_string.
Qed.

Lemma last_separator_inj {A} (x : A) l1 l2 r1 r2 :
  x ∉ r1 -> x ∉ r2 -> l1 ++ x :: r1 = l2 ++ x :: r2 -> l1 = l2 /\ r1 = r2.
Proof.
  intros H1 H2. revert l2; induction l1 as [|a l1 IH]; intros [|b l2]; simpl; intros H;
    pose proof (f_equal head H) as Ha; pose proof (f_equal tail H) as Ht; simpl in Ha, Ht; clear H;
    try subst r1; try subst r2; try injection Ha as ->.
  - done.
  - exfalso. apply H1. apply elem_of_app. right. by left.
  - exfalso. apply H2. apply elem_of_app. right. by left.
  - by destruct (IH _ Ht) as [-> ->].
Qed.

(** Distinct versioned records have distinct keys. *)
Lemma versionKey_inj id version id' version' :
  versionKey id version = versionKey id' version' -> id = id' /\ version = version'.
Proof.
  intros H%(f_equal list_ascii_of_string). revert H. unfold versionKey.
  rewrite !list_ascii_of_string_app. unfold number_to_string.
  rewrite !list_ascii_of_string_of_list_ascii. simpl.
  intros [Hi Hv]%last_separator_inj; [|apply number_chars_colon..].
  split; [by apply list_ascii_of_string_inj|by apply number_chars_inj].
Qed.

(** [s.trim()] keeps something: the white space of ECMAScript among the code units
    modelled. *)
Definition is_white_space (c : ascii) : bool :=
  let n := Z.of_nat (nat_of_ascii c) in
  ((9 <=? n) && (n <=? 13)) || (n =? 32) || (n =? 160).

Definition blank (s : string) : bool := forallb is_white_space (list_ascii_of_string s).
