(* ===== verification/Decimal.v ===== *)
(** * Exact decimals

    [src/src/decision/decimal.ts] ([ExactDecimal]) and the decimal schemas of
    [src/src/schemas/common.ts] and [src/src/schemas/numeric.ts]. A decimal is a
    [bigint] coefficient and a count of fraction digits; its value is the rational
    [to_Q]. *)

From Stdlib Require Import QArith Qabs Lqa.
From S2P Require Import Prelude Regex Digits.

#[local] Open Scope Z_scope.

(** ** The class [ExactDecimal] *)

Inductive DecimalError := divide_by_zero | invalid | overflow.

#[global] Instance DecimalError_eq_dec : EqDecision DecimalError.
Proof. solve_decision. Defined.

Definition DECIMAL_PATTERN : regex :=
  rx "^(?:0|-?(?:[1-9][0-9]*)(?:\.[0-9]*[1-9])?|-?0\.[0-9]*[1-9])$".

Record ExactDecimal := mkDecimal { coefficient : Z; scale : nat }.

#[global] Instance ExactDecimal_eq_dec : EqDecision ExactDecimal.
Proof. solve_decision. Defined.

(** [10n ** BigInt(exponent)] *)
Definition power10 (exponent : Z) : Z := 10 ^ exponent.

(** The loop of [create]: drop trailing zeros of the fraction. *)
Fixpoint normalize (normalized : Z) (normalizedScale : nat) : Z * nat :=
  match normalizedScale with
  | O => (normalized, O)
  | S s =>
      if Z.rem normalized 10 =? 0 then normalize (Z.quot normalized 10) s
      else (normalized, normalizedScale)
  end.

Definition create (c : Z) (s : nat) : result DecimalError ExactDecimal :=
  let '(normalized, normalizedScale) := normalize c s in
  let digits := length (print_digits (Z.abs normalized)) in
  if (80 <? digits)%nat then Throw overflow else Ok (mkDecimal normalized normalizedScale).

Definition parse (value : string) : result DecimalError ExactDecimal :=
  if negb (rtest DECIMAL_PATTERN value) then Throw invalid else
  let chars := list_ascii_of_string value in
  let negative := bool_decide (head chars = Some "-"%char) in
  let unsigned := if negative then tail chars else chars in
  let parts := split_char "."%char unsigned in
  let integer := default ["0"%char] (parts !! 0%nat) in
  let fraction := default [] (parts !! 1%nat) in
  if (38 <? length (strip_leading_zeros (integer ++ fraction)))%nat || (18 <? length fraction)%nat
  then Throw overflow
  else create (digits_value (integer ++ fraction) * (if negative then -1 else 1)) (length fraction).

(** [bigint | number] *)
Inductive IntegerValue := bigint (z : Z) | number (z : Z).

Definition fromInteger (value : IntegerValue) : result DecimalError ExactDecimal :=
  match value with
  | number z => if negb (isSafeInteger z) then Throw invalid else create z 0
  | bigint z => create z 0
  end.

Definition add (this other : ExactDecimal) : result DecimalError ExactDecimal :=
  let s := Nat.max (scale this) (scale other) in
  create (coefficient this * power10 (Z.of_nat s - Z.of_nat (scale this)) +
          coefficient other * power10 (Z.of_nat s - Z.of_nat (scale other))) s.

Definition subtract (this other : ExactDecimal) : result DecimalError ExactDecimal :=
  opposite ← create (- coefficient other) (scale other);
  add this opposite.

Definition multiply (this other : ExactDecimal) : result DecimalError ExactDecimal :=
  create (coefficient this * coefficient other) (scale this + scale other).

Definition roundHalfEven (numerator denominator : Z) : Z :=
  let denominatorMagnitude := if denominator <? 0 then - denominator else denominator in
  let signedNumerator := if denominator <? 0 then - numerator else numerator in
  let quotient := Z.quot signedNumerator denominatorMagnitude in
  let remainder := Z.rem signedNumerator denominatorMagnitude in
  let remainderMagnitude := if remainder <? 0 then - remainder else remainder in
  let doubled := remainderMagnitude * 2 in
  if doubled <? denominatorMagnitude then quotient else
  let direction := if signedNumerator <? 0 then -1 else 1 in
  if denominatorMagnitude <? doubled then quotient + direction else
  if Z.rem quotient 2 =? 0 then quotient else quotient + direction.

Definition valid_output_scale (outputScale : Z) : bool :=
  isSafeInteger outputScale && (0 <=? outputScale) && (outputScale <=? 18).

Definition divide (this other : ExactDecimal) (outputScale : Z) :
    result DecimalError ExactDecimal :=
  if coefficient other =? 0 then Throw divide_by_zero else
  if negb (valid_output_scale outputScale) then Throw invalid else
  let exponent := outputScale + Z.of_nat (scale other) - Z.of_nat (scale this) in
  let numerator := if 0 <=? exponent then coefficient this * power10 exponent else coefficient this in
  let denominator :=
    if 0 <=? exponent then coefficient other else coefficient other * power10 (- exponent) in
  create (roundHalfEven numerator denominator) (Z.to_nat outputScale).

Definition round (this : ExactDecimal) (outputScale : Z) : result DecimalError ExactDecimal :=
  if negb (valid_output_scale outputScale) then Throw invalid else
  if Z.of_nat (scale this) <=? outputScale then Ok this else
  create (roundHalfEven (coefficient this) (power10 (Z.of_nat (scale this) - outputScale)))
    (Z.to_nat outputScale).

Definition compare (this other : ExactDecimal) : result DecimalError Z :=
  difference ← subtract this other;
  Ok (if coefficient difference <? 0 then -1 else if 0 <? coefficient difference then 1 else 0).

Definition toCanonical_chars (this : ExactDecimal) : list ascii :=
  if coefficient this =? 0 then ["0"%char] else
  let negative := coefficient this <? 0 in
  let digits :=
    pad_start (scale this + 1)
      (print_digits (if negative then - coefficient this else coefficient this)) in
  let integer := if (scale this =? 0)%nat then digits else take (length digits - scale this) digits in
  let fraction :=
    if (scale this =? 0)%nat then []
    else strip_trailing_zeros (drop (length digits - scale this) digits) in
  (if negative then ["-"%char] else []) ++ integer ++
  (if (length fraction =? 0)%nat then [] else "."%char :: fraction).

Definition toCanonical (this : ExactDecimal) : string :=
  string_of_list_ascii (toCanonical_chars this).

(** ** The schemas *)

(** [canonicalDecimal] of schemas/common.ts. *)
Definition canonicalDecimal (value : string) : bool :=
  rtest DECIMAL_PATTERN value &&
  let chars := list_ascii_of_string value in
  let digits := filter (fun c => c <> "-"%char /\ c <> "."%char) chars in
  let fraction := default [] (split_char "."%char chars !! 1%nat) in
  negb ((38 <? length digits)%nat || (18 <? length fraction)%nat).

(** [BigInt(s)] for the integer part of a canonical decimal. *)
Definition big_int (l : list ascii) : Z :=
  match l with
  | "-"%char :: l => - digits_value l
  | l => digits_value l
  end.

(** [compareCanonicalDecimals] of schemas/numeric.ts. *)
Definition compareCanonicalDecimals (left right : string) : Z :=
  let part s i d := default d (split_char "."%char (list_ascii_of_string s) !! i) in
  let leftInteger := part left 0%nat ["0"%char] in
  let leftFraction := part left 1%nat [] in
  let rightInteger := part right 0%nat ["0"%char] in
  let rightFraction := part right 1%nat [] in
  let s := Nat.max (length leftFraction) (length rightFraction) in
  let scaleFactor := 10 ^ Z.of_nat s in
  let normalize integer fraction :=
    big_int integer * scaleFactor +
    digits_value (fraction ++ replicate (s - length fraction) "0"%char) *
    (if bool_decide (head integer = Some "-"%char) then -1 else 1) in
  let leftValue := normalize leftInteger leftFraction in
  let rightValue := normalize rightInteger rightFraction in
  if leftValue <? rightValue then -1 else if rightValue <? leftValue then 1 else 0.

(** [decimalRange] of schemas/numeric.ts. *)
Definition decimalRange (lower upper : string) : bool :=
  canonicalDecimal lower && canonicalDecimal upper &&
  negb (0 <? compareCanonicalDecimals lower upper).

(** [percentilePoint] of schemas/numeric.ts. *)
Definition percentilePoint (probability value : string) : bool :=
  canonicalDecimal probability &&
  (0 <=? compareCanonicalDecimals probability "0") &&
  (compareCanonicalDecimals probability "1" <=? 0) &&
  canonicalDecimal value.

Example parse_ex : parse "-12.50" = Throw invalid /\ parse "-12.5" = Ok (mkDecimal (-125) 1).
Proof. vm_compute. split; reflexivity. Qed.

Example divide_ex :
  (a ← parse "1"; b ← parse "8"; divide a b 2) = Ok (mkDecimal 12 2) /\
  (a ← parse "3"; b ← parse "8"; divide a b 2) = Ok (mkDecimal 38 2).
Proof. vm_compute. split; reflexivity. Qed.

(** ** Values *)

#[local] Instance Q_default_relation : DefaultRelation Qeq := {}.

(** The rational a decimal denotes. *)
Definition to_Q (d : ExactDecimal) : Q :=
  (inject_Z (coefficient d) / inject_Z (10 ^ Z.of_nat (scale d)))%Q.

(** Lowest terms, at most 80 digits: what [create] establishes. *)
Definition canonical (d : ExactDecimal) : Prop :=
  (scale d = O \/ coefficient d mod 10 <> 0) /\ Z.abs (coefficient d) < 10 ^ 80.

Lemma pow10_pos n : 0 <= n -> 0 < 10 ^ n.
Proof. intros. apply Z.pow_pos_nonneg; lia. Qed.

Lemma pow10_nonzero_Q n : ~ (inject_Z (10 ^ Z.of_nat n) == 0)%Q.
Proof.
  pose proof (pow10_pos (Z.of_nat n) ltac:(lia)). unfold Qeq, inject_Z. simpl. lia.
Qed.

#[export] Hint Resolve pow10_pos pow10_nonzero_Q : core.

Lemma to_Q_eq_iff d c s :
  (to_Q d == inject_Z c / inject_Z (10 ^ Z.of_nat s))%Q <->
  coefficient d * 10 ^ Z.of_nat s = c * 10 ^ Z.of_nat (scale d).
Proof.
  unfold to_Q. rewrite <- (inject_Z_injective (_ * _)), !inject_Z_mult. split; intros H.
  - transitivity (inject_Z (coefficient d) / inject_Z (10 ^ Z.of_nat (scale d)) *
      (inject_Z (10 ^ Z.of_nat (scale d)) * inject_Z (10 ^ Z.of_nat s)))%Q; [field; auto|].
    rewrite H. field. auto.
  - transitivity (inject_Z (coefficient d) * inject_Z (10 ^ Z.of_nat s) /
      (inject_Z (10 ^ Z.of_nat (scale d)) * inject_Z (10 ^ Z.of_nat s)))%Q; [field; auto|].
    rewrite H. field. auto.
Qed.

Lemma to_Q_compare a b :
  (to_Q a ?= to_Q b)%Q =
  (coefficient a * 10 ^ Z.of_nat (scale b) ?= coefficient b * 10 ^ Z.of_nat (scale a))%Z.
Proof.
  unfold to_Q, Qdiv, Qinv, inject_Z, Qmult, Qcompare.
  pose proof (pow10_pos (Z.of_nat (scale a)) ltac:(lia)).
  pose proof (pow10_pos (Z.of_nat (scale b)) ltac:(lia)).
  destruct (10 ^ Z.of_nat (scale a)) as [|p|p]; try lia.
  destruct (10 ^ Z.of_nat (scale b)) as [|q|q]; try lia. simpl. by rewrite !Z.mul_1_r.
Qed.

Lemma mod10_abs c : Z.rem c 10 = 0 <-> c mod 10 = 0.
Proof. rewrite Z.rem_divide, Z.mod_divide by lia. done. Qed.

Lemma normalize_spec c s :
  let '(n, ns) := normalize c s in
  c * 10 ^ Z.of_nat ns = n * 10 ^ Z.of_nat s /\ (ns = O \/ n mod 10 <> 0) /\ (ns <= s)%nat.
Proof.
  revert c; induction s as [|s IH]; intros c; simpl normalize.
  { split; [done|]. split; [by left|lia]. }
  destruct (Z.eqb_spec (Z.rem c 10) 0) as [H|H].
  - specialize (IH (Z.quot c 10)). destruct (normalize (Z.quot c 10) s) as [n ns].
    destruct IH as (IH1 & IH2 & IH3). split; [|split; [done|lia]].
    rewrite Nat2Z.inj_succ, Z.pow_succ_r by lia.
    pose proof (Z.quot_rem' c 10) as Hc. rewrite H in Hc. nia.
  - split; [done|]. rewrite mod10_abs in H. auto.
Qed.

(** A canonical decimal is determined by its value. *)
Lemma canonical_form_unique c1 s1 c2 s2 :
  (s1 = O \/ c1 mod 10 <> 0) -> (s2 = O \/ c2 mod 10 <> 0) ->
  c1 * 10 ^ Z.of_nat s2 = c2 * 10 ^ Z.of_nat s1 -> c1 = c2 /\ s1 = s2.
Proof.
  assert (forall c1 s1 c2 s2, (s2 = O \/ c2 mod 10 <> 0) ->
    c1 * 10 ^ Z.of_nat s2 = c2 * 10 ^ Z.of_nat s1 -> (s2 <= s1)%nat) as Hle.
  { clear. intros c1 s1 c2 s2 H2 Heq.
    destruct (decide (s2 <= s1)%nat) as [|Hlt]; [done|]. exfalso.
    destruct H2 as [->|H2]; [lia|]. apply H2.
    replace (Z.of_nat s2) with (Z.succ (Z.of_nat (s2 - s1 - 1)) + Z.of_nat s1) in Heq by lia.
    rewrite Z.pow_add_r, Z.pow_succ_r, Z.mul_assoc in Heq by lia.
    apply Z.mul_cancel_r in Heq; [|pose proof (pow10_pos (Z.of_nat s1)); lia].
    apply Z.mod_divide; [lia|]. exists (c1 * 10 ^ Z.of_nat (s2 - s1 - 1)). lia. }
  intros H1 H2 Heq. assert (s1 = s2) as ->.
  { pose proof (Hle c1 s1 c2 s2 H2 Heq). pose proof (Hle c2 s2 c1 s1 H1 (eq_sym Heq)). lia. }
  split; [|done]. apply Z.mul_cancel_r in Heq; [done|]. pose proof (pow10_pos (Z.of_nat s2)). lia.
Qed.

Lemma canonical_unique d e : canonical d -> canonical e -> (to_Q d == to_Q e)%Q -> d = e.
Proof.
  intros [Hd _] [He _] H. unfold to_Q at 2 in H. apply to_Q_eq_iff in H.
  destruct (canonical_form_unique _ _ _ _ Hd He H). destruct d, e; naive_solver.
Qed.

Lemma create_digits n :
  (80 <? length (print_digits (Z.abs n)))%nat = false <-> Z.abs n < 10 ^ 80.
Proof.
  rewrite Nat.ltb_ge, print_digits_length by lia. done.
Qed.

(** [create c s] is the canonical decimal of value [c / 10^s] when there is one,
    and the overflow error otherwise. *)
Lemma create_spec c s :
  match create c s with
  | Ok d => canonical d /\ (to_Q d == inject_Z c / inject_Z (10 ^ Z.of_nat s))%Q
  | Throw e => e = overflow /\
      forall d, canonical d -> ~ (to_Q d == inject_Z c / inject_Z (10 ^ Z.of_nat s))%Q
  end.
Proof.
  unfold create. pose proof (normalize_spec c s) as H.
  destruct (normalize c s) as [n ns]. destruct H as (Hv & Hn & _).
  destruct (80 <? _)%nat eqn:Hd.
  - split; [done|]. intros d [Hc Hl] Hq. apply to_Q_eq_iff in Hq.
    assert (coefficient d = n /\ scale d = ns) as [<- _].
    { apply canonical_form_unique; [done|done|].
      apply (Z.mul_cancel_r _ _ (10 ^ Z.of_nat s)); [pose proof (pow10_pos (Z.of_nat s)); lia|].
      rewrite <- Z.mul_assoc, (Z.mul_comm (10 ^ Z.of_nat ns)), Z.mul_assoc, Hq.
      rewrite <- Z.mul_assoc, (Z.mul_comm (10 ^ _) (10 ^ Z.of_nat ns)), Z.mul_assoc, Hv. ring. }
    apply create_digits in Hl. congruence.
  - apply create_digits in Hd. split; [by split|]. by apply to_Q_eq_iff.
Qed.

Lemma create_Ok c s d :
  create c s = Ok d ->
  canonical d /\ (to_Q d == inject_Z c / inject_Z (10 ^ Z.of_nat s))%Q.
Proof. intros H. pose proof (create_spec c s) as Hc. by rewrite H in Hc. Qed.

Lemma create_small c s : Z.abs c < 10 ^ 80 -> exists d, create c s = Ok d.
Proof.
  intros Hc. unfold create. pose proof (normalize_spec c s) as H.
  destruct (normalize c s) as [n ns]. destruct H as (Hv & _ & Hle).
  destruct (80 <? _)%nat eqn:Hd; [|eauto]. exfalso.
  assert (Z.abs n <= Z.abs c).
  { replace (Z.of_nat s) with (Z.of_nat ns + Z.of_nat (s - ns)) in Hv by lia.
    rewrite Z.pow_add_r, (Z.mul_comm (10 ^ Z.of_nat ns)), Z.mul_assoc in Hv by lia.
    pose proof (pow10_pos (Z.of_nat ns) ltac:(lia)) as Hp.
    apply Z.mul_cancel_r in Hv; [|lia]. rewrite Hv, Z.abs_mul.
    pose proof (pow10_pos (Z.of_nat (s - ns)) ltac:(lia)). nia. }
  assert (Z.abs n < 10 ^ 80) as H0 by lia. apply create_digits in H0. congruence.
Qed.

(** A coefficient already in lowest terms is kept. *)
Lemma create_canonical c s :
  (s = O \/ c mod 10 <> 0) -> Z.abs c < 10 ^ 80 -> create c s = Ok (mkDecimal c s).
Proof.
  intros Hs Hc. destruct (create_small c s Hc) as [d Hd]. rewrite Hd. f_equal.
  apply create_Ok in Hd as [Hcan Hv]. apply canonical_unique; [done|by split|].
  rewrite Hv. done.
Qed.

(** ** Arithmetic is exact *)

(** [r] is the exact value [q] when 80 digits suffice, the overflow error otherwise. *)
Definition exact (r : result DecimalError ExactDecimal) (q : Q) : Prop :=
  match r with
  | Ok d => canonical d /\ (to_Q d == q)%Q
  | Throw e => e = overflow /\ forall d, canonical d -> ~ (to_Q d == q)%Q
  end.

#[global] Instance exact_proper : Proper (eq ==> Qeq ==> iff) exact.
Proof.
  intros r ? <- q q' Hq. destruct r as [d|e]; simpl; [by rewrite Hq|].
  split; intros [-> H]; (split; [done|]); intros d Hd; [rewrite <- Hq|rewrite Hq]; auto.
Qed.

Lemma create_exact c s : exact (create c s) (inject_Z c / inject_Z (10 ^ Z.of_nat s)).
Proof. apply create_spec. Qed.

Lemma inject_Z_pow10_sub s t :
  (t <= s)%nat ->
  (inject_Z (10 ^ (Z.of_nat s - Z.of_nat t)) == inject_Z (10 ^ Z.of_nat s) / inject_Z (10 ^ Z.of_nat t))%Q.
Proof.
  intros H. replace (Z.of_nat s) with ((Z.of_nat s - Z.of_nat t) + Z.of_nat t) at 2 by lia.
  rewrite Z.pow_add_r, inject_Z_mult by lia. field. auto.
Qed.

Lemma add_exact_spec a b : exact (add a b) (to_Q a + to_Q b).
Proof.
  unfold add, power10. set (s := Nat.max (scale a) (scale b)).
  eapply (exact_proper _ _ eq_refl); [|apply create_exact].
  rewrite inject_Z_plus, !inject_Z_mult, !inject_Z_pow10_sub by lia. unfold to_Q. field. auto.
Qed.

Lemma opposite_canonical d : canonical d ->
  create (- coefficient d) (scale d) = Ok (mkDecimal (- coefficient d) (scale d)).
Proof.
  intros [Hd Hl]. apply create_canonical; [|by rewrite Z.abs_opp].
  destruct Hd as [|Hd]; [by left|right]. intros H. apply Hd.
  apply Z.mod_divide in H as [k Hk]; [|lia]. apply Z.mod_divide; [lia|]. exists (- k). lia.
Qed.

Lemma to_Q_opposite d : (to_Q (mkDecimal (- coefficient d) (scale d)) == - to_Q d)%Q.
Proof. unfold to_Q. simpl. rewrite inject_Z_opp. field. auto. Qed.

Lemma subtract_exact_spec a b : canonical b -> exact (subtract a b) (to_Q a - to_Q b).
Proof.
  intros Hb. unfold subtract. rewrite opposite_canonical by done. simpl.
  eapply (exact_proper _ _ eq_refl); [|apply add_exact_spec]. by rewrite to_Q_opposite.
Qed.

Lemma multiply_exact_spec a b : exact (multiply a b) (to_Q a * to_Q b).
Proof.
  unfold multiply. eapply (exact_proper _ _ eq_refl); [|apply create_exact].
  rewrite Nat2Z.inj_add, Z.pow_add_r, !inject_Z_mult by lia. unfold to_Q. field. auto.
Qed.

Lemma fromInteger_exact z : isSafeInteger z = true -> fromInteger (number z) = Ok (mkDecimal z 0).
Proof.
  intros H. simpl. rewrite H. simpl. apply create_canonical; [by left|].
  unfold isSafeInteger, MAX_SAFE_INTEGER in H. lia.
Qed.

(** ** Rounding half to even *)

(** [n] is the integer nearest to [q], the even one of two. *)
Definition nearest_even (n : Z) (q : Q) : Prop :=
  (Qabs (inject_Z n - q) <= 1 # 2)%Q /\ ((Qabs (inject_Z n - q) == 1 # 2)%Q -> Z.even n = true).

#[global] Instance nearest_even_proper : Proper (eq ==> Qeq ==> iff) nearest_even.
Proof. intros n ? <- q q' Hq. unfold nearest_even. by rewrite Hq. Qed.

Lemma nearest_even_unique n m q : nearest_even n q -> nearest_even m q -> n = m.
Proof.
  intros [Hn Hn'] [Hm Hm']. rewrite Qabs_Qle_condition in Hn, Hm.
  assert (- (1) <= inject_Z (n - m) <= 1)%Q as [H1 H2].
  { unfold Z.sub. rewrite inject_Z_plus, inject_Z_opp. lra. }
  change (- (1))%Q with (inject_Z (-1)) in H1. change 1%Q with (inject_Z 1) in H2.
  rewrite <- Zle_Qle in H1, H2.
  assert (n - m = 0 \/ n = m + 1 \/ m = n + 1) as [|[->| ->]] by lia; [lia|exfalso..].
  - rewrite inject_Z_plus in *. change (inject_Z 1) with 1%Q in *.
    assert (inject_Z m - q == - (1 # 2))%Q as E by lra.
    assert (inject_Z m + 1 - q == 1 # 2)%Q as E' by lra.
    rewrite E in Hm'. rewrite E' in Hn'. specialize (Hm' ltac:(done)). specialize (Hn' ltac:(done)).
    rewrite Z.even_add in Hn'. by rewrite Hm' in Hn'.
  - rewrite inject_Z_plus in *. change (inject_Z 1) with 1%Q in *.
    assert (inject_Z n - q == - (1 # 2))%Q as E by lra.
    assert (inject_Z n + 1 - q == 1 # 2)%Q as E' by lra.
    rewrite E in Hn'. rewrite E' in Hm'. specialize (Hm' ltac:(done)). specialize (Hn' ltac:(done)).
    rewrite Z.even_add in Hm'. by rewrite Hn' in Hm'.
Qed.

Lemma nearest_even_ratio n c d :
  0 < d -> 2 * Z.abs (n * d - c) <= d -> (2 * Z.abs (n * d - c) = d -> Z.even n = true) ->
  nearest_even n (inject_Z c / inject_Z d).
Proof.
  intros Hd Hle Heven.
  assert (~ inject_Z d == 0)%Q as Hd0 by (unfold Qeq, inject_Z; simpl; lia).
  assert (Qabs (inject_Z n - inject_Z c / inject_Z d) ==
          inject_Z (Z.abs (n * d - c)) / inject_Z d)%Q as HE.
  { setoid_replace (inject_Z n - inject_Z c / inject_Z d)%Q
      with (inject_Z (n * d - c) * / inject_Z d)%Q.
    - rewrite Qabs_Qmult. unfold Qdiv. f_equiv; [done|]. apply Qabs_pos, Qlt_le_weak, Qinv_lt_0_compat.
      change 0%Q with (inject_Z 0). by rewrite <- Zlt_Qlt.
    - unfold Z.sub. rewrite inject_Z_plus, inject_Z_opp, inject_Z_mult. field. done. }
  assert (0 < inject_Z d)%Q by (change 0%Q with (inject_Z 0); by rewrite <- Zlt_Qlt).
  split; rewrite HE.
  - apply Qle_shift_div_r; [done|]. unfold Qle, inject_Z, Qmult. simpl. lia.
  - intros Heq. apply Heven. assert (inject_Z (Z.abs (n * d - c)) == (1 # 2) * inject_Z d)%Q as Hq.
    { rewrite <- Heq. field. done. }
    unfold Qeq, inject_Z, Qmult in Hq. simpl in Hq. lia.
Qed.

Lemma rem_even z : (Z.rem z 2 =? 0) = Z.even z.
Proof.
  apply eq_true_iff_eq. rewrite Z.eqb_eq, Z.rem_divide, Z.even_spec by lia. unfold Z.Even.
  split; intros [k Hk]; exists k; lia.
Qed.

Lemma roundHalfEven_pos n d :
  0 < d ->
  2 * Z.abs (roundHalfEven n d * d - n) <= d /\
  (2 * Z.abs (roundHalfEven n d * d - n) = d -> Z.even (roundHalfEven n d) = true).
Proof.
  intros Hd. unfold roundHalfEven. rewrite rem_even.
  destruct (Z.ltb_spec d 0); [lia|].
  pose proof (Z.quot_rem' n d) as Hqr. pose proof (Z.rem_bound_abs n d ltac:(lia)) as Hb.
  pose proof (Z.rem_sign_nz n d ltac:(lia)) as Hs.
  set (q := Z.quot n d) in *. set (r := Z.rem n d) in *.
  assert (r = 0 \/ (0 < r /\ 0 < n) \/ (r < 0 /\ n < 0)) as Hsign.
  { destruct (Z.eq_dec r 0) as [|Hr]; [by left|right]. specialize (Hs Hr).
    destruct (Z.sgn_spec r) as [[]|[[]|[]]], (Z.sgn_spec n) as [[]|[[]|[]]]; lia. }
  assert (forall k, (q + k) * d - n = k * d - r) as Hk by (intros; lia).
  assert (q * d - n = - r) as Hk0 by lia.
  assert ((if r <? 0 then - r else r) = Z.abs r) as -> by (destruct (Z.ltb_spec r 0); lia).
  destruct (Z.ltb_spec (Z.abs r * 2) d); [rewrite Hk0; split; [lia|]; lia|].
  destruct (Z.ltb_spec n 0) as [Hn|Hn]; (destruct (Z.ltb_spec d (Z.abs r * 2));
    [rewrite Hk; split; lia|]); destruct (Z.even q) eqn:He;
    rewrite ?Hk, ?Hk0; (split; [lia|intros _; rewrite ?Z.even_add, ?He; done]).
Qed.

Lemma roundHalfEven_spec n d :
  d <> 0 -> nearest_even (roundHalfEven n d) (inject_Z n / inject_Z d).
Proof.
  intros Hd. destruct (Z.lt_ge_cases 0 d) as [Hp|Hp].
  - destruct (roundHalfEven_pos n d Hp). by apply nearest_even_ratio.
  - assert (roundHalfEven n d = roundHalfEven (- n) (- d)) as ->.
    { unfold roundHalfEven. destruct (Z.ltb_spec d 0), (Z.ltb_spec (- d) 0); by try lia. }
    destruct (roundHalfEven_pos (- n) (- d) ltac:(lia)).
    eapply nearest_even_proper; [done| |apply nearest_even_ratio; [|done..]; lia].
    rewrite !inject_Z_opp. field. unfold Qeq, inject_Z. simpl. lia.
Qed.

Lemma valid_output_scale_range n : valid_output_scale n = true <-> 0 <= n <= 18.
Proof. unfold valid_output_scale, isSafeInteger, MAX_SAFE_INTEGER. lia. Qed.

Lemma create_exact_Z c k :
  0 <= k -> exact (create c (Z.to_nat k)) (inject_Z c / inject_Z (10 ^ k)).
Proof. intros Hk. rewrite <- (Z2Nat.id k Hk) at 2. apply create_exact. Qed.

Lemma divide_spec a b k :
  coefficient b <> 0 -> 0 <= k <= 18 ->
  exists n, nearest_even n (to_Q a / to_Q b * inject_Z (10 ^ k)) /\
    exact (divide a b k) (inject_Z n / inject_Z (10 ^ k)).
Proof.
  intros Hb Hk. unfold divide, power10.
  destruct (Z.eqb_spec (coefficient b) 0); [done|].
  replace (valid_output_scale k) with true by (symmetry; by apply valid_output_scale_range).
  set (e := k + Z.of_nat (scale b) - Z.of_nat (scale a)). simpl negb.
  assert (~ inject_Z (coefficient b) == 0)%Q by (unfold Qeq, inject_Z; simpl; lia).
  eexists. split; [|apply create_exact_Z; lia].
  destruct (Z.leb_spec 0 e).
  - eapply nearest_even_proper; [done| |by apply roundHalfEven_spec]. unfold to_Q.
    assert (inject_Z (10 ^ e) * inject_Z (10 ^ Z.of_nat (scale a)) ==
            inject_Z (10 ^ k) * inject_Z (10 ^ Z.of_nat (scale b)))%Q as He.
    { rewrite <- !inject_Z_mult, <- !Z.pow_add_r by lia. f_equiv. f_equal. lia. }
    rewrite inject_Z_mult. setoid_replace (inject_Z (10 ^ e))%Q
      with (inject_Z (10 ^ k) * inject_Z (10 ^ Z.of_nat (scale b)) / inject_Z (10 ^ Z.of_nat (scale a)))%Q;
      [|rewrite <- He]; field; auto.
  - assert (~ inject_Z (10 ^ (- e)) == 0)%Q.
    { rewrite <- (Z2Nat.id (- e)) by lia. auto. }
    eapply nearest_even_proper; [done| |apply roundHalfEven_spec;
      pose proof (pow10_pos (- e) ltac:(lia)); lia]. unfold to_Q.
    assert (inject_Z (10 ^ (- e)) * inject_Z (10 ^ k) * inject_Z (10 ^ Z.of_nat (scale b)) ==
            inject_Z (10 ^ Z.of_nat (scale a)))%Q as He.
    { rewrite <- !inject_Z_mult, <- !Z.pow_add_r by lia. f_equiv. f_equal. lia. }
    rewrite inject_Z_mult, <- He.
    assert (~ inject_Z (10 ^ k) == 0)%Q by (rewrite <- (Z2Nat.id k) by lia; auto).
    field. auto.
Qed.

Lemma round_spec d k :
  canonical d -> 0 <= k <= 18 ->
  exists n, nearest_even n (to_Q d * inject_Z (10 ^ k)) /\
    exact (round d k) (inject_Z n / inject_Z (10 ^ k)).
Proof.
  intros Hd Hk. unfold round, power10.
  replace (valid_output_scale k) with true by (symmetry; by apply valid_output_scale_range).
  assert (~ inject_Z (10 ^ k) == 0)%Q by (rewrite <- (Z2Nat.id k) by lia; auto).
  simpl negb. destruct (Z.leb_spec (Z.of_nat (scale d)) k) as [Hs|Hs].
  - exists (coefficient d * 10 ^ (k - Z.of_nat (scale d))).
    assert (inject_Z (coefficient d * 10 ^ (k - Z.of_nat (scale d))) ==
            to_Q d * inject_Z (10 ^ k))%Q as Hn.
    { replace k with (k - Z.of_nat (scale d) + Z.of_nat (scale d)) at 2 by lia.
      rewrite Z.pow_add_r, !inject_Z_mult by lia. unfold to_Q. field. auto. }
    split; [|split; [done|rewrite Hn; field; done]]. split; rewrite Hn.
    + setoid_replace (to_Q d * inject_Z (10 ^ k) - to_Q d * inject_Z (10 ^ k))%Q with 0%Q by ring.
      done.
    + setoid_replace (to_Q d * inject_Z (10 ^ k) - to_Q d * inject_Z (10 ^ k))%Q with 0%Q by ring.
      done.
  - eexists. split; [|apply create_exact_Z; lia].
    pose proof (pow10_pos (Z.of_nat (scale d) - k) ltac:(lia)).
    eapply nearest_even_proper; [done| |apply roundHalfEven_spec; lia]. unfold to_Q.
    assert (inject_Z (10 ^ (Z.of_nat (scale d) - k)) * inject_Z (10 ^ k) ==
            inject_Z (10 ^ Z.of_nat (scale d)))%Q as He.
    { rewrite <- inject_Z_mult, <- Z.pow_add_r by lia. f_equiv. f_equal. lia. }
    rewrite <- He. field. unfold Qeq, inject_Z. simpl. lia.
Qed.

(** ** The decimal syntax *)

(** The text of sign [neg], integer digits [int] and fraction digits [frac]. *)
Definition decimal_text (neg : bool) (int frac : list ascii) : list ascii :=
  (if neg then ["-"%char] else []) ++ int ++
  (if (length frac =? 0)%nat then [] else "."%char :: frac).

Definition well_formed (neg : bool) (int frac : list ascii) : Prop :=
  numeral int /\ Forall is_digit frac /\ last frac <> Some "0"%char /\
  (neg = true -> ~ (int = ["0"%char] /\ frac = [])).

Lemma cls_range c lo hi :
  cls_test false [(lo, hi)] c = true <-> (nat_of_ascii lo <= nat_of_ascii c <= nat_of_ascii hi)%nat.
Proof.
  unfold cls_test, existsb, in_range, fst, snd, xorb.
  rewrite orb_false_r, andb_true_iff, !Nat.leb_le. done.
Qed.

Lemma cls_digit c : cls_test false [("0"%char, "9"%char)] c = true <-> is_digit c.
Proof.
  rewrite cls_range. unfold is_digit, digit_val.
  change (nat_of_ascii "0") with 48%nat. change (nat_of_ascii "9") with 57%nat. lia.
Qed.

Lemma cls_nonzero c :
  cls_test false [("1"%char, "9"%char)] c = true <-> is_digit c /\ c <> "0"%char.
Proof.
  rewrite <- digit_val_zero, cls_range. unfold is_digit, digit_val.
  change (nat_of_ascii "1") with 49%nat. change (nat_of_ascii "9") with 57%nat. lia.
Qed.

Lemma cls_char c c' : cls_test false [(c', c')] c = true <-> c = c'.
Proof.
  rewrite cls_range. split; [|intros ->; lia]. intros [].
  rewrite <- (ascii_nat_embedding c), <- (ascii_nat_embedding c'). f_equal. lia.
Qed.

Lemma Forall_cls_digit l :
  Forall (fun c => cls_test false [("0"%char, "9"%char)] c = true) l <-> Forall is_digit l.
Proof. apply Forall_iff. intros c. apply cls_digit. Qed.

(** [-?] and [(?:\.[0-9]*[1-9])] *)
Lemma sign_iff l :
  rmatch (RAlt REps (RCls false [("-"%char, "-"%char)])) l <->
  exists neg : bool, l = if neg then ["-"%char] else [].
Proof.
  autorewrite with regex_iff. split.
  - intros [->|(c & -> & ->%cls_char)]; [by exists false|by exists true].
  - intros [[] ->]; [right|by left]. eexists. by rewrite cls_char.
Qed.

Definition fraction_re : regex :=
  RSeq (RSeq (RCls false [("."%char, "."%char)]) (RStar (RCls false [("0"%char, "9"%char)])))
    (RCls false [("1"%char, "9"%char)]).

Lemma fraction_iff l :
  rmatch fraction_re l <->
  exists frac, l = "."%char :: frac /\ Forall is_digit frac /\ frac <> [] /\
    last frac <> Some "0"%char.
Proof.
  unfold fraction_re. rewrite rmatch_seq_iff. split.
  - intros (? & ? & -> & (? & ? & -> & (c & -> & ->%cls_char)%rmatch_cls_iff &
      Hl%rmatch_star_cls_iff%Forall_cls_digit)%rmatch_seq_iff & (d & -> & Hd)%rmatch_cls_iff).
    apply cls_nonzero in Hd as [Hd Hd0]. eexists. split; [by rewrite <- app_assoc; simpl|].
    rewrite Forall_app, last_snoc. split; [split; [done|by apply Forall_singleton]|].
    split; [by intros [_ ?]%app_eq_nil|]. by intros [= ->].
  - intros (frac & -> & Hf & Hne & Hl). destruct frac as [|d f _] using rev_ind; [done|].
    rewrite last_snoc in Hl. apply Forall_app in Hf as [Hf Hd]. apply Forall_cons in Hd as [Hd _].
    exists ("."%char :: f), [d]. split; [done|]. rewrite rmatch_seq_iff, rmatch_cls_iff. split.
    + exists ["."%char], f. split; [done|]. rewrite rmatch_cls_iff, rmatch_star_cls_iff.
      split; [eexists; by rewrite cls_char|]. by apply Forall_cls_digit.
    + exists d. rewrite cls_nonzero. split; [done|]. split; [done|]. by intros ->.
Qed.

Lemma DECIMAL_PATTERN_eq :
  DECIMAL_PATTERN =
  RAlt (RCls false [("0"%char, "0"%char)])
    (RAlt
      (RSeq (RSeq (RAlt REps (RCls false [("-"%char, "-"%char)]))
              (RSeq (RCls false [("1"%char, "9"%char)]) (RStar (RCls false [("0"%char, "9"%char)]))))
            (RAlt REps fraction_re))
      (RSeq (RSeq (RSeq (RSeq (RAlt REps (RCls false [("-"%char, "-"%char)]))
              (RCls false [("0"%char, "0"%char)])) (RCls false [("."%char, "."%char)]))
              (RStar (RCls false [("0"%char, "9"%char)]))) (RCls false [("1"%char, "9"%char)]))).
Proof. vm_compute. reflexivity. Qed.

Lemma numeral_nonzero c l :
  is_digit c /\ c <> "0"%char -> Forall is_digit l -> numeral (c :: l).
Proof.
  intros [Hc Hc0] Hl. split; [by constructor|]. split; [done|]. by intros [= ->].
Qed.

Lemma numeral_inv l :
  numeral l -> l = ["0"%char] \/
  exists c l', l = c :: l' /\ is_digit c /\ c <> "0"%char /\ Forall is_digit l'.
Proof.
  intros (Hd & Hne & Hz). destruct l as [|c l]; [done|].
  destruct (decide (c = "0"%char)) as [->|Hc]; [left; by apply Hz|right].
  apply Forall_cons in Hd as []. eauto 6.
Qed.

Lemma decimal_pattern_sound l :
  rmatch DECIMAL_PATTERN l ->
  exists neg int frac, l = decimal_text neg int frac /\ well_formed neg int frac.
Proof.
  rewrite DECIMAL_PATTERN_eq, !rmatch_alt_iff. intros [H|[H|H]].
  - apply rmatch_cls_iff in H as (c & -> & ->%cls_char). exists false, ["0"%char], [].
    split; [done|]. repeat split; [by repeat constructor|done..].
  - apply rmatch_seq_iff in H as (? & fr & -> & (s & ? & -> & [neg ->]%sign_iff &
      (? & ds & -> & (c & -> & Hc%cls_nonzero)%rmatch_cls_iff &
       Hds%rmatch_star_cls_iff%Forall_cls_digit)%rmatch_seq_iff)%rmatch_seq_iff & Hfr).
    assert (forall frac, fr = (if (length frac =? 0)%nat then [] else "."%char :: frac) ->
      ((if neg then ["-"%char] else []) ++ [c] ++ ds) ++ fr = decimal_text neg (c :: ds) frac) as Ht.
    { intros frac ->. unfold decimal_text. by rewrite <- app_assoc. }
    assert (forall frac, ~ (c :: ds = ["0"%char] /\ frac = @nil ascii)) as Hn.
    { intros frac [[= -> ->] _]. by destruct Hc. }
    pose proof (numeral_nonzero c ds Hc Hds). apply rmatch_alt_iff in Hfr as [->%rmatch_eps_iff|Hfr].
    + exists neg, (c :: ds), []. split; [by apply Ht|]. split; [done|]. repeat split; auto.
    + apply fraction_iff in Hfr as (frac & -> & Hf & Hne & Hl).
      exists neg, (c :: ds), frac. split; [apply Ht; by destruct frac|]. split; [done|]. repeat split; auto.
  - apply rmatch_seq_iff in H as (? & ld & -> & (? & fs & -> & (? & dot & -> & (s & z & -> &
      [neg ->]%sign_iff & (? & -> & ->%cls_char)%rmatch_cls_iff)%rmatch_seq_iff & Hdot)%rmatch_seq_iff
      & Hfs)%rmatch_seq_iff & Hld).
    assert (rmatch fraction_re (dot ++ fs ++ ld)) as Hfr.
    { rewrite app_assoc. constructor; [by constructor|done]. }
    apply fraction_iff in Hfr as (frac & Heq & Hf & Hne & Hl). exists neg, ["0"%char], frac.
    split; [unfold decimal_text; rewrite <- !app_assoc, Heq; by destruct frac|].
    repeat split; auto; [by repeat constructor|by intros _ [_ ?]].
Qed.

Lemma decimal_pattern_complete neg int frac :
  well_formed neg int frac -> rmatch DECIMAL_PATTERN (decimal_text neg int frac).
Proof.
  intros (Hi & Hf & Hl & Hn). rewrite DECIMAL_PATTERN_eq, !rmatch_alt_iff. unfold decimal_text.
  assert (rmatch (RAlt REps (RCls false [("-"%char, "-"%char)])) (if neg then ["-"%char] else []))
    as Hs by (apply sign_iff; by exists neg).
  assert (frac <> [] -> rmatch fraction_re ("."%char :: frac)) as Hfr.
  { intros. apply fraction_iff. by exists frac. }
  apply numeral_inv in Hi as [->|(c & ds & -> & Hc & Hc0 & Hds)].
  - destruct frac as [|f frac].
    { left. destruct neg; [by destruct Hn|]. rewrite rmatch_cls_iff. by exists "0"%char. }
    right. right. specialize (Hfr ltac:(done)).
    apply rmatch_seq_iff in Hfr as (? & l2 & Heq & (d & l1 & -> & Hd & Hl1)%rmatch_seq_iff & Hl2).
    simpl Nat.eqb. cbv iota. rewrite Heq, !app_assoc.
    by repeat (constructor; try done).
  - right. left. rewrite app_assoc. constructor.
    + constructor; [done|]. apply (rmatch_seq _ _ [c] ds).
      * constructor. by apply cls_nonzero.
      * by apply rmatch_star_cls_iff, Forall_cls_digit.
    + apply rmatch_alt_iff. destruct frac; [by left; constructor|right; by apply Hfr].
Qed.

Lemma decimal_pattern_iff s :
  rtest DECIMAL_PATTERN s = true <->
  exists neg int frac, list_ascii_of_string s = decimal_text neg int frac /\
    well_formed neg int frac.
Proof.
  rewrite rtest_spec. split; [apply decimal_pattern_sound|].
  intros (neg & int & frac & -> & H). by apply decimal_pattern_complete.
Qed.

(** ** What [parse] computes on a text *)

Definition bounded (d : ExactDecimal) : Prop :=
  canonical d /\ Z.abs (coefficient d) < 10 ^ 38 /\ (scale d <= 18)%nat.

Definition signed (neg : bool) (n : Z) : Z := if neg then - n else n.

Lemma head_sign neg int frac :
  well_formed neg int frac ->
  bool_decide (head (decimal_text neg int frac) = Some "-"%char) = neg.
Proof.
  intros ((Hd & Hne & _) & _). destruct neg; [done|]. apply bool_decide_eq_false.
  destruct int as [|c int]; [done|]. simpl. intros [= ->].
  apply Forall_cons in Hd as [[? _] _]. done.
Qed.

Lemma split_unsigned int frac :
  Forall is_digit int -> Forall is_digit frac ->
  let parts := split_char "."%char
    (int ++ (if (length frac =? 0)%nat then [] else "."%char :: frac)) in
  parts !! 0%nat = Some int /\ default [] (parts !! 1%nat) = frac.
Proof.
  intros [Hi _]%is_digit_not_dot [Hf _]%is_digit_not_dot. destruct frac as [|f frac]; simpl Nat.eqb.
  - cbv iota. by rewrite app_nil_r, split_char_none.
  - cbv iota. by rewrite split_char_app, (split_char_none _ (f :: frac)).
Qed.

(** [parse] on a well-formed text: the value, or overflow past 38 significant or 18
    fraction digits. *)
Lemma parse_text s neg int frac :
  list_ascii_of_string s = decimal_text neg int frac -> well_formed neg int frac ->
  let n := digits_value (int ++ frac) in
  parse s =
    if decide (n < 10 ^ 38 /\ (length frac <= 18)%nat)
    then Ok (mkDecimal (signed neg n) (length frac)) else Throw overflow.
Proof.
  intros Hs Hw n. assert (rtest DECIMAL_PATTERN s = true) as Ht.
  { apply decimal_pattern_iff. eauto. }
  unfold parse. rewrite Ht, Hs, head_sign by done. simpl negb. cbv iota zeta.
  assert ((if neg then tail (decimal_text neg int frac) else decimal_text neg int frac) =
    int ++ (if (length frac =? 0)%nat then [] else "."%char :: frac)) as -> by by destruct neg.
  destruct Hw as ((Hi & Hine & Hi0) & Hf & Hl & Hneg).
  destruct (split_unsigned int frac Hi Hf) as [-> ->]. simpl default.
  assert (Forall is_digit (int ++ frac)) as Hif by by apply Forall_app.
  pose proof (digits_value_bounds _ Hif) as Hb. fold n in Hb.
  assert ((38 <? length (strip_leading_zeros (int ++ frac)))%nat = false <-> n < 10 ^ 38) as H38.
  { rewrite Nat.ltb_ge. destruct (decide (0 < n)) as [Hn|Hn].
    - rewrite strip_leading_zeros_print by done. apply (print_digits_length n 38); lia.
    - assert (n = 0) as Hn0 by lia. split; [lia|]. intros _.
      destruct (strip_leading_zeros_spec (int ++ frac)) as (k & Hk & Hh).
      assert (digits_value (strip_leading_zeros (int ++ frac)) = 0) as Hz
        by by rewrite strip_leading_zeros_value.
      apply digits_value_zero in Hz; [|by apply strip_leading_zeros_digits].
      revert Hz Hh. destruct (strip_leading_zeros _) as [|c w]; [simpl; lia|].
      intros [-> _]%Forall_cons Hh. done. }
  case_decide as Hd.
  - destruct Hd as [Hd1 Hd2]. rewrite (proj2 H38 Hd1).
    destruct (Nat.ltb_spec 18 (length frac)); [lia|]. simpl orb. cbv iota.
    replace (n * _) with (signed neg n) by (destruct neg; simpl; lia). apply create_canonical.
    + destruct frac as [|f fr _] using rev_ind; [by left|right].
      rewrite last_snoc in Hl. apply Forall_app in Hf as [_ Hf].
      apply Forall_cons in Hf as [Hf _]. unfold is_digit in Hf.
      assert (digit_val f <> 0) by (rewrite digit_val_zero; by intros ->).
      unfold n. rewrite app_assoc, digits_value_snoc. destruct neg; simpl;
      Z.div_mod_to_equations; lia.
    + destruct neg; simpl; lia.
  - destruct (Nat.ltb_spec 18 (length frac)) as [|Hle]; [by rewrite orb_true_r|].
    destruct (38 <? _)%nat; [done|]. exfalso. apply Hd. split; [by apply H38|done].
Qed.

Lemma well_formed_positive neg int frac :
  well_formed neg int frac -> neg = true -> 0 < digits_value (int ++ frac).
Proof.
  intros ((Hi & Hine & Hi0) & Hf & Hl & Hneg) Hn.
  assert (Forall is_digit (int ++ frac)) as Hif by by apply Forall_app.
  pose proof (digits_value_bounds _ Hif). destruct (decide (digits_value (int ++ frac) = 0)) as [H0|]; [|lia].
  exfalso. apply (Hneg Hn). apply digits_value_zero, Forall_app in H0 as [H0 H0']; [|done]. split.
  - destruct int as [|c int]; [done|]. apply Forall_cons in H0 as [-> _]. by apply Hi0.
  - destruct frac as [|f fr _] using rev_ind; [done|]. apply Forall_app in H0' as [_ H0'].
    apply Forall_cons in H0' as [-> _]. by rewrite last_snoc in Hl.
Qed.

(** A sign, a value and a number of fraction digits fix the text. *)
Lemma well_formed_unique neg int frac neg' int' frac' :
  well_formed neg int frac -> well_formed neg' int' frac' -> length frac = length frac' ->
  signed neg (digits_value (int ++ frac)) = signed neg' (digits_value (int' ++ frac')) ->
  neg = neg' /\ int = int' /\ frac = frac'.
Proof.
  intros Hw Hw' Hlen Hv. pose proof (well_formed_positive _ _ _ Hw) as Hp.
  pose proof (well_formed_positive _ _ _ Hw') as Hp'.
  destruct Hw as (Hi & Hf & _), Hw' as (Hi' & Hf' & _).
  assert (Forall is_digit (int ++ frac)) as H1 by (apply Forall_app; split; [apply Hi|done]).
  assert (Forall is_digit (int' ++ frac')) as H2 by (apply Forall_app; split; [apply Hi'|done]).
  apply digits_value_bounds in H1, H2.
  assert (neg = neg') as ->.
  { destruct neg, neg'; simpl in *; try done; [specialize (Hp eq_refl)|specialize (Hp' eq_refl)]; lia. }
  assert (digits_value (int ++ frac) = digits_value (int' ++ frac')) as He by (destruct neg'; simpl in *; lia).
  rewrite !digits_value_app, Hlen in He.
  pose proof (digits_value_bounds _ Hf) as Hb. pose proof (digits_value_bounds _ Hf') as Hb'.
  rewrite Hlen in Hb. set (p := 10 ^ Z.of_nat (length frac')) in *.
  assert (digits_value int = digits_value int') as Hint by nia.
  split; [done|]. split.
  - rewrite <- (print_digits_of_value int), <- (print_digits_of_value int') by done. by rewrite Hint.
  - apply digits_value_inj; [done..|]. nia.
Qed.

Lemma numeral_prefix l l' : numeral (l ++ l') -> l <> [] -> l' = [] \/ head l <> Some "0"%char ->
  numeral l.
Proof.
  intros (Hd & _ & H0) Hne Hl. apply Forall_app in Hd as [Hd _]. split; [done|]. split; [done|].
  intros Hh. destruct Hl as [->|?]; [|done]. rewrite app_nil_r in H0. by apply H0.
Qed.

(** [padStart] and the two slices of [toCanonical]. *)
Lemma pad_split s n :
  0 < n ->
  let p := pad_start (s + 1) (print_digits n) in
  let int := take (length p - s) p in
  let frac := drop (length p - s) p in
  p = int ++ frac /\ numeral int /\ Forall is_digit frac /\ length frac = s /\
  digits_value (int ++ frac) = n.
Proof.
  intros Hn p. set (l := print_digits n) in *.
  pose proof (print_digits_numeral n ltac:(lia)) as Hnum. fold l in Hnum.
  assert (digits_value p = n) as Hv.
  { unfold p, pad_start. rewrite digits_value_pad. apply print_digits_value. lia. }
  assert (Forall is_digit p) as Hp.
  { apply Forall_app. split; [apply Forall_replicate; done|apply Hnum]. }
  assert (s < length p)%nat as Hlen.
  { unfold p, pad_start. rewrite length_app, length_replicate. lia. }
  cbv zeta. rewrite take_drop. split; [done|]. split; [|split; [by apply Forall_drop|split; [|done]]].
  2:{ rewrite length_drop. lia. }
  destruct (decide (s < length l)%nat) as [Hs|Hs].
  - assert (p = l) as -> by (unfold p, pad_start; by replace (s + 1 - length l)%nat with 0%nat by lia).
    apply (numeral_prefix _ (drop (length l - s) l)).
    + by rewrite take_drop.
    + intros Ht. apply (f_equal length) in Ht. rewrite length_take in Ht. simpl in Ht. lia.
    + right. destruct Hnum as (_ & _ & H0). intros Hh. destruct l as [|c l'] eqn:Hl; [done|].
      destruct (length (c :: l') - s)%nat; [done|]. injection Hh as ->. specialize (H0 eq_refl).
      unfold l in Hl. rewrite <- (print_digits_value n), Hl, H0 in Hn by lia. done.
  - assert (length p = S s) as ->.
    { unfold p, pad_start. rewrite length_app, length_replicate. lia. }
    replace (S s - s)%nat with 1%nat by lia. unfold p, pad_start.
    replace (s + 1 - length l)%nat with (S (s - length l)) by lia. simpl.
    split; [by repeat constructor|done].
Qed.

(** The text [toCanonical] prints. *)
Lemma toCanonical_spec d :
  canonical d ->
  exists neg int frac, toCanonical_chars d = decimal_text neg int frac /\ well_formed neg int frac /\
    length frac = scale d /\ signed neg (digits_value (int ++ frac)) = coefficient d.
Proof.
  intros [Hcan _]. destruct d as [c s]; simpl in *. unfold toCanonical_chars; simpl.
  destruct (Z.eqb_spec c 0) as [->|Hc].
  { destruct Hcan as [->|[]]; [|done]. exists false, ["0"%char], [].
    repeat split; try done. by repeat constructor. }
  assert ((if c <? 0 then - c else c) = Z.abs c) as -> by (destruct (Z.ltb_spec c 0); lia).
  destruct (pad_split s (Z.abs c) ltac:(lia)) as (Hp & Hint & Hfrac & Hlen & Hval).
  set (p := pad_start _ _) in *. set (int := take _ _) in *. set (frac := drop _ _) in *.
  assert (signed (c <? 0) (Z.abs c) = c) as Hsig by (unfold signed; destruct (Z.ltb_spec c 0); lia).
  assert (last frac <> Some "0"%char) as Hlast.
  { clearbody frac. destruct frac as [|f fr _] using rev_ind; [done|].
    rewrite length_app in Hlen. simpl in Hlen. destruct Hcan as [|Hcan]; [lia|].
    rewrite last_snoc. intros [= ->]. apply Hcan, mod10_abs, Z.rem_divide; [lia|].
    apply Z.divide_abs_r. rewrite <- Hval, app_assoc, digits_value_snoc.
    exists (digits_value (int ++ fr)). change (digit_val "0") with 0. lia. }
  exists (c <? 0), int, frac. split; [|split].
  - unfold decimal_text. destruct (Nat.eqb_spec s 0) as [->|Hs].
    + destruct frac; [|done]. by rewrite Hp, app_nil_r.
    + by rewrite strip_trailing_zeros_id.
  - split; [done|]. split; [done|]. split; [done|]. intros _ [Hi Hf].
    rewrite Hi, Hf in Hval. change (0 = Z.abs c) in Hval. lia.
  - by rewrite Hval.
Qed.

Lemma parse_toCanonical_lemma d : bounded d -> parse (toCanonical d) = Ok d.
Proof.
  intros (Hcan & Hb & Hs). destruct (toCanonical_spec d Hcan) as (neg & int & frac & Ht & Hw & Hl & Hv).
  rewrite (parse_text _ neg int frac); [|by unfold toCanonical; rewrite list_ascii_of_string_of_list_ascii|done].
  rewrite decide_True; [by rewrite Hv, Hl; destruct d|].
  split; [|by rewrite Hl]. revert Hb. rewrite <- Hv. destruct neg; simpl; lia.
Qed.

Lemma parse_inv s d :
  parse s = Ok d -> exists neg int frac, list_ascii_of_string s = decimal_text neg int frac /\
    well_formed neg int frac /\ digits_value (int ++ frac) < 10 ^ 38 /\ (length frac <= 18)%nat /\
    d = mkDecimal (signed neg (digits_value (int ++ frac))) (length frac).
Proof.
  intros H. destruct (rtest DECIMAL_PATTERN s) eqn:Ht.
  - apply decimal_pattern_iff in Ht as (neg & int & frac & Hs & Hw).
    rewrite (parse_text s neg int frac Hs Hw) in H. case_decide as Hd; [|done].
    destruct Hd. injection H as <-. exists neg, int, frac. done.
  - unfold parse in H. by rewrite Ht in H.
Qed.

Lemma parse_bounded s d : parse s = Ok d -> bounded d.
Proof.
  intros (neg & int & frac & _ & Hw & Hv & Hl & ->)%parse_inv.
  pose proof Hw as (Hi & Hf & Hlast & _).
  assert (Forall is_digit (int ++ frac)) as Hif by (apply Forall_app; split; [apply Hi|done]).
  pose proof (digits_value_bounds _ Hif) as Hb. split; [split|split]; simpl; [|destruct neg; simpl; lia..|done].
  destruct frac as [|f fr _] using rev_ind; [by left|right].
  rewrite last_snoc in Hlast. apply Forall_app in Hf as [_ Hf]. apply Forall_cons in Hf as [Hf _].
  unfold is_digit in Hf. assert (digit_val f <> 0) by (rewrite digit_val_zero; by intros ->).
  rewrite app_assoc, digits_value_snoc. destruct neg; simpl; Z.div_mod_to_equations; lia.
Qed.

Lemma toCanonical_parse_lemma s d : parse s = Ok d -> toCanonical d = s.
Proof.
  intros H. pose proof (parse_bounded s d H) as (Hcan & _).
  apply parse_inv in H as (neg & int & frac & Hs & Hw & _ & _ & ->).
  destruct (toCanonical_spec _ Hcan) as (neg' & int' & frac' & Ht & Hw' & Hl & Hv). simpl in Hl, Hv.
  destruct (well_formed_unique _ _ _ _ _ _ Hw' Hw Hl Hv) as (-> & -> & ->).
  unfold toCanonical. rewrite Ht, <- Hs. apply string_of_list_ascii_of_string.
Qed.

(** ** Order *)

Lemma to_Q_sign d : (to_Q d ?= 0)%Q = (coefficient d ?= 0)%Z.
Proof.
  transitivity (to_Q d ?= to_Q (mkDecimal 0 0))%Q; [done|]. rewrite to_Q_compare. simpl.
  by rewrite Z.mul_1_r.
Qed.

(** The sign of a comparison. *)
Definition sign_of (c : comparison) : Z := match c with Lt => -1 | Eq => 0 | Gt => 1 end.

Lemma bounded_scaled d (s : nat) :
  bounded d -> (s <= 18)%nat -> Z.abs (coefficient d * power10 (Z.of_nat s - Z.of_nat (scale d))) < 10 ^ 56.
Proof.
  intros (_ & Hc & _) Hs. unfold power10.
  destruct (Z.lt_ge_cases (Z.of_nat s) (Z.of_nat (scale d))) as [Hlt|Hge].
  { rewrite Z.pow_neg_r by lia. rewrite Z.mul_0_r. done. }
  rewrite Z.abs_mul, (Z.abs_eq (10 ^ _)) by (apply Z.pow_nonneg; lia).
  assert (10 ^ (Z.of_nat s - Z.of_nat (scale d)) <= 10 ^ 18) by (apply Z.pow_le_mono_r; lia).
  pose proof (pow10_pos (Z.of_nat s - Z.of_nat (scale d)) ltac:(lia)).
  change (10 ^ 56) with (10 ^ 38 * 10 ^ 18). nia.
Qed.

Lemma subtract_bounded a b :
  bounded a -> bounded b -> exists d, subtract a b = Ok d /\ (to_Q d == to_Q a - to_Q b)%Q.
Proof.
  intros Ha Hb. pose proof Hb as (Hcb & Hbb & Hsb). pose proof Ha as (_ & _ & Hsa).
  pose proof (subtract_exact_spec a b Hcb) as He. revert He. unfold subtract.
  rewrite opposite_canonical by done. simpl. unfold add. simpl scale. simpl coefficient.
  set (s := Nat.max _ _). intros He.
  destruct (create_small (coefficient a * power10 (Z.of_nat s - Z.of_nat (scale a)) +
    - coefficient b * power10 (Z.of_nat s - Z.of_nat (scale b))) s) as [d Hd].
  - pose proof (bounded_scaled a s Ha ltac:(lia)). pose proof (bounded_scaled b s Hb ltac:(lia)). lia.
  - rewrite Hd in He |- *. exists d. split; [done|apply He].
Qed.

Lemma compare_bounded a b :
  bounded a -> bounded b -> compare a b = Ok (sign_of (to_Q a ?= to_Q b)%Q).
Proof.
  intros Ha Hb. unfold compare. destruct (subtract_bounded a b Ha Hb) as (d & -> & Hd). simpl. f_equal.
  assert ((to_Q a ?= to_Q b)%Q = (coefficient d ?= 0)%Z) as ->.
  { rewrite <- to_Q_sign, Hd. generalize (to_Q a) (to_Q b). clear. intros qa qb. destruct (Qcompare_spec qa qb) as [H|H|H]; symmetry.
    - rewrite <- Qeq_alt, H. ring.
    - rewrite <- Qlt_alt. lra.
    - rewrite <- Qgt_alt. lra. }
  destruct (Z.compare_spec (coefficient d) 0); simpl; destruct (Z.ltb_spec (coefficient d) 0),
    (Z.ltb_spec 0 (coefficient d)); lia.
Qed.

Lemma scaled_compare a b (s : nat) :
  (scale a <= s)%nat -> (scale b <= s)%nat ->
  (coefficient a * 10 ^ (Z.of_nat s - Z.of_nat (scale a)) ?=
   coefficient b * 10 ^ (Z.of_nat s - Z.of_nat (scale b)))%Z = (to_Q a ?= to_Q b)%Q.
Proof.
  intros Ha Hb. rewrite to_Q_compare. pose proof (pow10_pos (Z.of_nat (scale a)) ltac:(lia)) as Hpa.
  pose proof (pow10_pos (Z.of_nat (scale b)) ltac:(lia)) as Hpb.
  pose proof (pow10_pos (Z.of_nat s) ltac:(lia)) as Hps.
  rewrite (Zmult_compare_compat_r (coefficient a * _) (coefficient b * _)
    (10 ^ Z.of_nat (scale a) * 10 ^ Z.of_nat (scale b))) by lia.
  rewrite (Zmult_compare_compat_r (coefficient a * 10 ^ Z.of_nat (scale b))
    (coefficient b * 10 ^ Z.of_nat (scale a)) (10 ^ Z.of_nat s)) by lia.
  assert (10 ^ Z.of_nat s = 10 ^ (Z.of_nat s - Z.of_nat (scale a)) * 10 ^ Z.of_nat (scale a)) as E1.
  { rewrite <- Z.pow_add_r by lia. f_equal. lia. }
  assert (10 ^ Z.of_nat s = 10 ^ (Z.of_nat s - Z.of_nat (scale b)) * 10 ^ Z.of_nat (scale b)) as E2.
  { rewrite <- Z.pow_add_r by lia. f_equal. lia. }
  f_equal; [rewrite E1|rewrite E2]; ring.
Qed.

(** The two parts [compareCanonicalDecimals] splits a text into. *)
Lemma split_signed neg int frac :
  well_formed neg int frac ->
  let parts := split_char "."%char (decimal_text neg int frac) in
  let integer := (if neg then ["-"%char] else []) ++ int in
  parts !! 0%nat = Some integer /\ default [] (parts !! 1%nat) = frac /\
  big_int integer = signed neg (digits_value int) /\
  bool_decide (head integer = Some "-"%char) = neg.
Proof.
  intros Hw. pose proof (head_sign _ _ _ Hw) as Hh.
  destruct Hw as ((Hi & Hne & _) & Hf & _).
  pose proof (is_digit_not_dot _ Hi) as [Hid Him]. pose proof (is_digit_not_dot _ Hf) as [Hfd _].
  assert ("."%char ∉ (if neg then ["-"%char] else []) ++ int) as Hd.
  { rewrite not_elem_of_app. split; [|done]. destruct neg; [|apply not_elem_of_nil].
    by intros H%list_elem_of_singleton. }
  assert (big_int ((if neg then ["-"%char] else []) ++ int) = signed neg (digits_value int)) as Hb.
  { destruct neg; [done|]. simpl. destruct int as [|c int]; [done|]. unfold big_int.
    by destruct c as [[] [] [] [] [] [] [] []]. }
  unfold decimal_text in Hh |- *. rewrite app_assoc in Hh |- *. cbv zeta.
  assert (bool_decide (head ((if neg then ["-"%char] else []) ++ int) = Some "-"%char) = neg) as Hh'.
  { destruct neg; [done|]. by destruct int. }
  destruct frac as [|f frac]; simpl Nat.eqb; cbv iota.
  - rewrite app_nil_r, split_char_none by done. done.
  - rewrite split_char_app, (split_char_none _ (f :: frac)) by done. done.
Qed.

Lemma compareCanonicalDecimals_parse l r a b :
  parse l = Ok a -> parse r = Ok b ->
  compareCanonicalDecimals l r = sign_of (to_Q a ?= to_Q b)%Q.
Proof.
  intros (n1 & i1 & f1 & H1 & Hw1 & _ & _ & ->)%parse_inv (n2 & i2 & f2 & H2 & Hw2 & _ & _ & ->)%parse_inv.
  unfold compareCanonicalDecimals. rewrite H1, H2.
  destruct (split_signed _ _ _ Hw1) as (-> & -> & Hb1 & Hh1).
  destruct (split_signed _ _ _ Hw2) as (-> & -> & Hb2 & Hh2).
  simpl default. cbv zeta. rewrite Hb1, Hb2, Hh1, Hh2.
  set (s := Nat.max (length f1) (length f2)).
  assert (forall (n : bool) i f, (length f <= s)%nat ->
    signed n (digits_value i) * 10 ^ Z.of_nat s +
      digits_value (f ++ replicate (s - length f) "0"%char) * (if n then -1 else 1) =
    signed n (digits_value (i ++ f)) * 10 ^ (Z.of_nat s - Z.of_nat (length f))) as HE.
  { intros n i f Hf. rewrite !digits_value_app, digits_value_zeros, length_replicate.
    replace (Z.of_nat (s - length f)) with (Z.of_nat s - Z.of_nat (length f)) by lia.
    assert (10 ^ Z.of_nat s = 10 ^ Z.of_nat (length f) * 10 ^ (Z.of_nat s - Z.of_nat (length f))) as ->.
    { rewrite <- Z.pow_add_r by lia. f_equal. lia. }
    destruct n; simpl; ring. }
  rewrite !HE by lia.
  rewrite <- (scaled_compare (mkDecimal (signed n1 (digits_value (i1 ++ f1))) (length f1))
    (mkDecimal (signed n2 (digits_value (i2 ++ f2))) (length f2)) s) by (simpl; lia). simpl.
  set (x := _ * _). set (y := _ * _).
  destruct (Z.compare_spec x y); simpl; destruct (Z.ltb_spec x y), (Z.ltb_spec y x); lia.
Qed.

Lemma filter_sign_point neg int frac :
  well_formed neg int frac ->
  filter (fun c => c <> "-"%char /\ c <> "."%char) (decimal_text neg int frac) = int ++ frac.
Proof.
  intros ((Hi & _) & Hf & _).
  assert (forall l, Forall is_digit l ->
    filter (fun c => c <> "-"%char /\ c <> "."%char) l = l) as Hid.
  { intros l [Hd Hm]%is_digit_not_dot. apply filter_all, Forall_forall.
    intros c Hc. split; intros ->; done. }
  unfold decimal_text. rewrite !filter_app, (Hid int) by done.
  replace (filter _ (if neg then ["-"%char] else [])) with (@nil ascii) by by destruct neg.
  simpl. f_equal. destruct frac as [|f frac]; [done|]. simpl Nat.eqb. cbv iota.
  rewrite filter_cons_False by naive_solver. by apply Hid.
Qed.

Lemma well_formed_length neg int frac :
  well_formed neg int frac -> (length frac <= 18)%nat ->
  (length (int ++ frac) <= 38)%nat <-> digits_value (int ++ frac) < 10 ^ 38.
Proof.
  intros ((Hi & Hne & H0) & Hf & _) H18.
  assert (Forall is_digit (int ++ frac)) as Hif by by apply Forall_app.
  pose proof (digits_value_bounds _ Hif) as Hb.
  destruct (numeral_inv int) as [->|(c & int' & -> & Hc & Hc0 & Hi')]; [done| |].
  - split; [intros _|simpl; lia]. change (["0"%char] ++ frac) with (replicate 1 "0"%char ++ frac) in *.
    rewrite digits_value_pad. pose proof (digits_value_bounds _ Hf).
    assert (10 ^ Z.of_nat (length frac) <= 10 ^ 38) by (apply Z.pow_le_mono_r; lia). lia.
  - rewrite <- (print_digits_length _ 38) by lia. rewrite print_digits_of_value; [done|].
    apply numeral_nonzero; [done|]. by apply Forall_app.
Qed.

(** The schema and the parser accept the same texts. *)
Lemma canonicalDecimal_parse s : canonicalDecimal s = true <-> exists d, parse s = Ok d.
Proof.
  unfold canonicalDecimal. rewrite andb_true_iff, negb_true_iff, orb_false_iff, !Nat.ltb_ge.
  rewrite decimal_pattern_iff. split.
  - intros [(neg & int & frac & Hs & Hw) [H38 H18]]. rewrite Hs in H38, H18.
    destruct (split_signed _ _ _ Hw) as (_ & Hf & _). rewrite Hf in H18.
    rewrite filter_sign_point in H38 by done.
    rewrite (parse_text s neg int frac Hs Hw). rewrite decide_True; [by eexists|]. split; [|done].
    by eapply well_formed_length.
  - intros (d & (neg & int & frac & Hs & Hw & H38 & H18 & _)%parse_inv). split; [by exists neg, int, frac|].
    rewrite Hs, filter_sign_point by done.
    destruct (split_signed _ _ _ Hw) as (_ & -> & _). split; [|done].
    by eapply well_formed_length.
Qed.

(** * Properties *)

(** [parse] and [toCanonical] are inverse: a text is accepted with result [d]
    exactly when [d] is a decimal in lowest terms of fewer than 38 digits and 18
    fraction digits at most and the text is the one [toCanonical] prints for it. *)
Theorem parse_toCanonical (s : string) (d : ExactDecimal) :
  parse s = Ok d <-> bounded d /\ toCanonical d = s.
Proof.
  split.
  - intros H. split; [by eapply parse_bounded|by apply toCanonical_parse_lemma].
  - intros [Hd <-]. by apply parse_toCanonical_lemma.
Qed.

(** C39. Addition, subtraction and multiplication of [ExactDecimal] return the exact
    rational result in lowest terms; they throw [overflow] exactly when that result
    has no representation of 80 digits. *)
Theorem arithmetic_exact (a b : ExactDecimal) :
  canonical b ->
  exact (add a b) (to_Q a + to_Q b) /\ exact (subtract a b) (to_Q a - to_Q b) /\
  exact (multiply a b) (to_Q a * to_Q b).
Proof.
  intros Hb. split; [apply add_exact_spec|].
  split; [by apply subtract_exact_spec|apply multiply_exact_spec].
Qed.

Lemma arithmetic_exact_witness :
  exact (subtract (mkDecimal 15 1) (mkDecimal (-7) 0)) (to_Q (mkDecimal 15 1) - to_Q (mkDecimal (-7) 0)).
Proof.
  apply (arithmetic_exact (mkDecimal 15 1) (mkDecimal (-7) 0)). split; [by left|reflexivity].
Defined.

(** [divide] throws on a zero divisor and on a scale that is not an integer of
    [0..18]; otherwise its result is the quotient rounded to that scale, halves to
    the even digit, for every sign of the operands. *)
Theorem divide_correct (a b : ExactDecimal) (k : Z) :
  (coefficient b = 0 -> divide a b k = Throw divide_by_zero) /\
  (coefficient b <> 0 -> ~ 0 <= k <= 18 -> divide a b k = Throw invalid) /\
  (coefficient b <> 0 -> 0 <= k <= 18 ->
     exists n, nearest_even n (to_Q a / to_Q b * inject_Z (10 ^ k)) /\
       exact (divide a b k) (inject_Z n / inject_Z (10 ^ k))).
Proof.
  split; [|split]; [..|apply divide_spec]; intros Hb; unfold divide.
  - by rewrite Hb.
  - intros Hk. destruct (Z.eqb_spec (coefficient b) 0); [done|].
    rewrite <- valid_output_scale_range in Hk. by apply not_true_is_false in Hk as ->.
Qed.

Lemma divide_correct_witness :
  divide (mkDecimal 1 0) (mkDecimal 0 0) 2 = Throw divide_by_zero /\
  divide (mkDecimal 1 0) (mkDecimal 3 0) 19 = Throw invalid /\
  exists n, nearest_even n (to_Q (mkDecimal (-5) 0) / to_Q (mkDecimal 8 0) * inject_Z (10 ^ 2)) /\
    exact (divide (mkDecimal (-5) 0) (mkDecimal 8 0) 2) (inject_Z n / inject_Z (10 ^ 2)).
Proof.
  split; [|split].
  - apply (divide_correct (mkDecimal 1 0) (mkDecimal 0 0) 2). reflexivity.
  - apply (divide_correct (mkDecimal 1 0) (mkDecimal 3 0) 19); simpl; lia.
  - apply (divide_correct (mkDecimal (-5) 0) (mkDecimal 8 0) 2); simpl; lia.
Defined.

(** The two comparisons of the program agree: on canonical texts,
    [compareCanonicalDecimals] of the schemas and [ExactDecimal.compare] of the
    parsed values both return the sign of the difference of the values, and
    [compare] never overflows there. *)
Theorem comparisons_agree (l r : string) (a b : ExactDecimal) :
  parse l = Ok a -> parse r = Ok b ->
  compare a b = Ok (sign_of (to_Q a ?= to_Q b)%Q) /\
  compareCanonicalDecimals l r = sign_of (to_Q a ?= to_Q b)%Q.
Proof.
  intros Ha Hb. split; [|by apply compareCanonicalDecimals_parse].
  apply compare_bounded; by eapply parse_bounded.
Qed.

Lemma comparisons_agree_witness :
  compare (mkDecimal (-5) 1) (mkDecimal (-25) 2) = Ok (-1) /\
  compareCanonicalDecimals "-0.5" "-0.25" = -1.
Proof.
  apply (comparisons_agree "-0.5" "-0.25" (mkDecimal (-5) 1) (mkDecimal (-25) 2));
  vm_compute; reflexivity.
Defined.

(** The [canonicalDecimal] schema accepts exactly the texts [ExactDecimal.parse]
    accepts, so parsing a validated decimal never throws. *)
Theorem schema_accepts_parse (s : string) :
  canonicalDecimal s = true <-> exists d, parse s = Ok d.
Proof. apply canonicalDecimal_parse. Qed.
