(* ===== verification/Base64.v ===== *)
(** * Base64url

    [Buffer.from(s, encoding)] and [buffer.toString(encoding)] of Node.js with
    the base64url encoding, and the canonical-encoding schemas [base64Url],
    [base64Url32] of [src/src/schemas/common.ts]. *)

From S2P Require Import Prelude Regex.

Definition is_byte (b : Z) : Prop := 0 <= b < 256.

Definition base64_alphabet : list ascii :=
  list_ascii_of_string "ABCDEFGHIJKLMNOPQRSTUVWXYZabcdefghijklmnopqrstuvwxyz0123456789-_".

Definition sextet_char (n : Z) : ascii := nth (Z.to_nat n) base64_alphabet "A"%char.

Fixpoint index_of (c : ascii) (l : list ascii) (i : Z) : Z :=
  match l with
  | [] => 0
  | c' :: l => if decide (c = c') then i else index_of c l (i + 1)
  end.

Definition char_sextet (c : ascii) : Z := index_of c base64_alphabet 0.

(** [buffer.toString] *)
Fixpoint base64_encode (l : list Z) : list ascii :=
  match l with
  | [] => []
  | [a] => [sextet_char (a / 4); sextet_char (a mod 4 * 16)]
  | [a; b] =>
      [sextet_char (a / 4); sextet_char (a mod 4 * 16 + b / 16); sextet_char (b mod 16 * 4)]
  | a :: b :: c :: l =>
      sextet_char (a / 4) :: sextet_char (a mod 4 * 16 + b / 16) ::
      sextet_char (b mod 16 * 4 + c / 64) :: sextet_char (c mod 64) :: base64_encode l
  end.

(** [Buffer.from] on characters of the alphabet; a dangling character is dropped. *)
Fixpoint base64_decode (l : list ascii) : list Z :=
  match l with
  | [] | [_] => []
  | [p; q] => [char_sextet p * 4 + char_sextet q / 16]
  | [p; q; r] =>
      [char_sextet p * 4 + char_sextet q / 16; char_sextet q mod 16 * 16 + char_sextet r / 4]
  | p :: q :: r :: s :: l =>
      (char_sextet p * 4 + char_sextet q / 16) ::
      (char_sextet q mod 16 * 16 + char_sextet r / 4) ::
      (char_sextet r mod 4 * 64 + char_sextet s) :: base64_decode l
  end.

Definition recode (value : string) : string :=
  string_of_list_ascii (base64_encode (base64_decode (list_ascii_of_string value))).

Definition base64Url (value : string) : bool :=
  rtest (rx "^(?:[A-Za-z0-9_-]{4})*(?:[A-Za-z0-9_-]{2}|[A-Za-z0-9_-]{3})?$") value &&
  String.eqb (recode value) value.

Definition base64Url32 (value : string) : bool :=
  rtest (rx "^[A-Za-z0-9_-]{43}$") value && String.eqb (recode value) value.

Example base64Url_ex : base64Url "AQI" = true /\ base64Url "AQJ" = false /\ base64Url "A" = false.
Proof. vm_compute. repeat split. Qed.

(** ** Round trips *)


Lemma sextet_range (P : Z -> Prop) :
  Forall P (Z.of_nat <$> List.seq 0 64) -> forall n, 0 <= n < 64 -> P n.
Proof.
  intros H n Hn. rewrite Forall_forall in H. apply H. rewrite <- (Z2Nat.id n) by lia.
  apply list_elem_of_fmap_2, elem_of_seq. lia.
Qed.

Lemma char_sextet_char n : 0 <= n < 64 -> char_sextet (sextet_char n) = n.
Proof. revert n. apply sextet_range. repeat (constructor; [reflexivity|]). constructor. Qed.

Lemma char_sextet_bounds c : 0 <= char_sextet c < 64.
Proof.
  assert (forall l i, 0 <= i -> 0 <= index_of c l i < Z.max 1 (i + Z.of_nat (length l))) as H.
  { induction l as [|c' l IH]; intros i Hi; simpl; [lia|]. case_decide; [lia|].
    specialize (IH (i + 1) ltac:(lia)). lia. }
  apply (H base64_alphabet 0). done.
Qed.

(** Induction three bytes at a time. *)
Lemma list_ind3 {A} (P : list A -> Prop) :
  P [] -> (forall a, P [a]) -> (forall a b, P [a; b]) ->
  (forall a b c l, P l -> P (a :: b :: c :: l)) -> forall l, P l.
Proof.
  intros H0 H1 H2 H3. fix IH 1. intros [|a [|b [|c l]]]; [done|apply H1|apply H2|apply H3, IH].
Qed.

Lemma base64_decode_encode l : Forall is_byte l -> base64_decode (base64_encode l) = l.
Proof.
  assert (forall n, 0 <= n / 4 < 64 <-> 0 <= n < 256) as Hq by (intros; Z.div_mod_to_equations; lia).
  induction l as [|a|a b|a b c l IH] using list_ind3; intros H; [done|..]; rewrite ?Forall_cons in H;
    unfold is_byte in H; destruct_and?; simpl; rewrite ?IH by done;
    rewrite !char_sextet_char by (Z.div_mod_to_equations; lia);
    repeat (f_equal; try (Z.div_mod_to_equations; lia)).
Qed.

Lemma base64_decode_bytes l : Forall is_byte (base64_decode l).
Proof.
  assert (forall n (l : list ascii), (length l <= n)%nat -> Forall is_byte (base64_decode l)) as H.
  { induction n as [|n IH]; intros l' Hl; [destruct l'; [constructor|simpl in Hl; lia]|].
    destruct l' as [|p [|q [|r [|s l']]]]; simpl in *; try by constructor.
    all: pose proof (char_sextet_bounds p); pose proof (char_sextet_bounds q).
    all: try pose proof (char_sextet_bounds r); try pose proof (char_sextet_bounds s).
    all: repeat constructor; try (apply IH; lia); Z.div_mod_to_equations; lia. }
  by apply (H (length l)).
Qed.

(** ** The schemas accept exactly the encodings *)

Definition alphabet_re : regex :=
  RCls false [("A"%char, "Z"%char); ("a"%char, "z"%char); ("0"%char, "9"%char);
              ("_"%char, "_"%char); ("-"%char, "-"%char)].

(** [r{n+1}] as the parser expands it. *)
Fixpoint times (n : nat) (r : regex) : regex :=
  match n with O => r | S n => RSeq r (times n r) end.

Definition in_alphabet (c : ascii) : Prop :=
  cls_test false [("A"%char, "Z"%char); ("a"%char, "z"%char); ("0"%char, "9"%char);
                  ("_"%char, "_"%char); ("-"%char, "-"%char)] c = true.

Lemma rmatch_times n l :
  rmatch (times n alphabet_re) l <-> length l = S n /\ Forall in_alphabet l.
Proof.
  revert l; induction n as [|n IH]; intros l; simpl times; unfold alphabet_re at 1;
    [|rewrite rmatch_seq_iff]; rewrite ?rmatch_cls_iff; split.
  - intros (c & -> & H). split; [done|]. by apply Forall_singleton.
  - intros [Hl H]. destruct l as [|c [|]]; try done. exists c. by apply Forall_cons in H as [].
  - intros (l1 & l2 & -> & (c & -> & H)%rmatch_cls_iff & [Hl H']%IH). simpl. split; [lia|].
    by constructor.
  - intros [Hl H]. destruct l as [|c l]; [done|]. apply Forall_cons in H as [Hc H].
    exists [c], l. split; [done|]. split; [by constructor|]. apply IH. split; [simpl in Hl; lia|done].
Qed.

Lemma sextet_in_alphabet n : 0 <= n < 64 -> in_alphabet (sextet_char n).
Proof. revert n. apply sextet_range. repeat (constructor; [reflexivity|]). constructor. Qed.

Lemma encode_in_alphabet l : Forall is_byte l -> Forall in_alphabet (base64_encode l).
Proof.
  induction l as [|a|a b|a b c l IH] using list_ind3; intros H; [constructor|..];
    rewrite ?Forall_cons in H; unfold is_byte in H; destruct_and?; simpl;
    repeat (constructor; [apply sextet_in_alphabet; Z.div_mod_to_equations; lia|]);
    [constructor..|by apply IH].
Qed.

Lemma base64Url_re_eq :
  rx "^(?:[A-Za-z0-9_-]{4})*(?:[A-Za-z0-9_-]{2}|[A-Za-z0-9_-]{3})?$" =
  RSeq (RStar (times 3 alphabet_re)) (RAlt REps (RAlt (times 1 alphabet_re) (times 2 alphabet_re))).
Proof. vm_compute. reflexivity. Qed.

Lemma base64Url32_re_eq : rx "^[A-Za-z0-9_-]{43}$" = times 42 alphabet_re.
Proof. vm_compute. reflexivity. Qed.

Lemma base64_encode_match l :
  Forall is_byte l ->
  rmatch (RSeq (RStar (times 3 alphabet_re))
    (RAlt REps (RAlt (times 1 alphabet_re) (times 2 alphabet_re)))) (base64_encode l).
Proof.
  intros Hl. pose proof (encode_in_alphabet l Hl) as Ha. revert Hl Ha.
  induction l as [|a|a b|a b c l IH] using list_ind3; intros Hl Ha.
  - apply (rmatch_seq _ _ [] []); [constructor|]. apply rmatch_alt_l. constructor.
  - apply (rmatch_seq _ _ []); [constructor|]. apply rmatch_alt_r, rmatch_alt_l.
    by apply rmatch_times.
  - apply (rmatch_seq _ _ []); [constructor|]. apply rmatch_alt_r, rmatch_alt_r.
    by apply rmatch_times.
  - simpl in Ha. rewrite !Forall_cons in Ha. destruct Ha as (Hp & Hq & Hr & Hs & Ha).
    rewrite !Forall_cons in Hl. destruct Hl as (_ & _ & _ & Hl).
    apply rmatch_seq_iff in IH as (l1 & l2 & Heq & H1 & H2); [|done..]. simpl base64_encode. rewrite Heq.
    match goal with |- rmatch _ (?p :: ?q :: ?r :: ?s :: _) =>
      apply (rmatch_seq _ _ ([p; q; r; s] ++ l1)) end; [|done].
    constructor; [|done]. apply rmatch_times. split; [done|]. by repeat constructor.
Qed.

Lemma recode_encode l : Forall is_byte l ->
  recode (string_of_list_ascii (base64_encode l)) = string_of_list_ascii (base64_encode l).
Proof.
  intros H. unfold recode. by rewrite list_ascii_of_string_of_list_ascii, base64_decode_encode.
Qed.

Lemma base64_encode_length l :
  Z.of_nat (length (base64_encode l)) = (4 * Z.of_nat (length l) + 2) / 3.
Proof.
  induction l as [|a|a b|a b c l IH] using list_ind3; [done..|]. simpl length.
  rewrite !Nat2Z.inj_succ, IH. Z.div_mod_to_equations. lia.
Qed.

(** The text [s] is the encoding of the bytes [l]. *)
Definition encodes (s : string) (l : list Z) : Prop :=
  Forall is_byte l /\ s = string_of_list_ascii (base64_encode l).

Lemma base64Url_spec s : base64Url s = true <-> exists l, encodes s l.
Proof.
  unfold base64Url, encodes. rewrite andb_true_iff, String.eqb_eq, rtest_spec, base64Url_re_eq. split.
  - intros [_ Hr]. exists (base64_decode (list_ascii_of_string s)).
    split; [apply base64_decode_bytes|]. by rewrite <- Hr at 1.
  - intros (l & Hl & ->). rewrite list_ascii_of_string_of_list_ascii.
    split; [by apply base64_encode_match|by apply recode_encode].
Qed.

Lemma base64Url32_spec s : base64Url32 s = true <-> exists l, encodes s l /\ length l = 32%nat.
Proof.
  unfold base64Url32, encodes.
  rewrite andb_true_iff, String.eqb_eq, rtest_spec, base64Url32_re_eq, rmatch_times. split.
  - intros [[Hlen _] Hr]. exists (base64_decode (list_ascii_of_string s)).
    split; [split; [apply base64_decode_bytes|by rewrite <- Hr at 1]|].
    apply (f_equal list_ascii_of_string) in Hr. unfold recode in Hr.
    rewrite list_ascii_of_string_of_list_ascii in Hr. rewrite <- Hr in Hlen.
    apply (f_equal Z.of_nat) in Hlen. rewrite base64_encode_length in Hlen.
    Z.div_mod_to_equations. lia.
  - intros (l & [Hl ->] & Hlen). rewrite list_ascii_of_string_of_list_ascii.
    split; [split; [|by apply encode_in_alphabet]|by apply recode_encode].
    pose proof (base64_encode_length l) as He. rewrite Hlen in He.
    change ((4 * Z.of_nat 32 + 2) / 3) with 43 in He. lia.
Qed.

(** The [base64Url] schema accepts exactly the canonical encodings of byte
    strings, [base64Url32] those of 32 bytes, and an accepted text determines its
    bytes: two distinct accepted texts never decode to the same bytes. *)
Theorem base64Url_canonical (s s' : string) :
  (base64Url s = true <-> exists l, encodes s l) /\
  (base64Url32 s = true <-> exists l, encodes s l /\ length l = 32%nat) /\
  (forall l, encodes s l -> encodes s' l -> s = s') /\
  (forall l l', encodes s l -> encodes s l' -> l = l').
Proof.
  split; [apply base64Url_spec|]. split; [apply base64Url32_spec|]. split.
  - by intros l [_ ->] [_ ->].
  - intros l l' [Hl ->] [Hl' He]. apply (f_equal list_ascii_of_string) in He.
    rewrite !list_ascii_of_string_of_list_ascii in He.
    by rewrite <- (base64_decode_encode l), <- (base64_decode_encode l'), He.
Qed.

Lemma base64Url_canonical_witness : "AQI" = "AQI".
Proof.
  apply (base64Url_canonical "AQI" "AQI") with (l := [1; 2]);
  split; [repeat constructor; lia|reflexivity|repeat constructor; lia|reflexivity].
Defined.
