(* ===== verification/Schemas.v ===== *)
(** * Record schemas

    The schemas of [src/src/schemas] that the modelled components parse their input
    with. A record schema is a [Record] of its fields and the boolean the schema
    computes on them: [parse] returns the record unchanged when it is [true] and
    throws otherwise. Unknown and missing fields and values of another type, which
    the strict object schemas reject, are excluded by the record's type; a number
    is an integer here, the [int()] checks are part of the type. *)

From S2P Require Import Prelude Regex Digits Decimal Base64.

(** ** [common.ts] *)

Definition UUID_PATTERN : string :=
  "[0-9a-f]{8}-[0-9a-f]{4}-[0-9a-f]{4}-[0-9a-f]{4}-[0-9a-f]{12}".

Definition urn (kind : string) (value : string) : bool :=
  rtest (rx ("^urn:evllm:" +:+ kind +:+ ":" +:+ UUID_PATTERN +:+ "$")) value.

Definition positiveSafeInteger (n : Z) : bool := (0 <? n) && (n <=? MAX_SAFE_INTEGER).

Definition canonicalAddress : string -> bool := rtest (rx "^0x[0-9a-f]{40}$").
Definition bytes32Hex : string -> bool := rtest (rx "^0x[0-9a-f]{64}$").
Definition semver : string -> bool :=
  rtest (rx "^(0|[1-9][0-9]*)\.(0|[1-9][0-9]*)\.(0|[1-9][0-9]*)$").

Record Digest := mkDigest { alg : string; value : string }.

#[global] Instance Digest_eq_dec : EqDecision Digest.
Proof. solve_decision. Defined.

Definition digest (d : Digest) : bool := String.eqb (alg d) "SHA-256" && base64Url32 (value d).

(** Number and text bounds of domain-records.ts and domain-payloads.ts. *)
Definition timestamp (n : Z) : bool := (0 <=? n) && (n <=? MAX_SAFE_INTEGER).
Definition bounded_text (limit : Z) (s : string) : bool :=
  (1 <=? Z.of_nat (String.length s)) && (Z.of_nat (String.length s) <=? limit).
Definition shortText : string -> bool := bounded_text 256.
Definition text : string -> bool := bounded_text 16384.

(** [z.array(item).min(lower).max(upper)] *)
Definition array {A} (item : A -> bool) (lower upper : Z) (l : list A) : bool :=
  forallb item l && (lower <=? Z.of_nat (length l)) && (Z.of_nat (length l) <=? upper).

(** [item.optional()] *)
Definition optional {A} (item : A -> bool) (o : option A) : bool :=
  match o with Some a => item a | None => true end.

Record Reference := mkReference { ref_id : string; ref_version : Z }.

#[global] Instance Reference_eq_dec : EqDecision Reference.
Proof. solve_decision. Defined.

Definition reference (r : Reference) : bool :=
  (1 <=? String.length (ref_id r))%nat && positiveSafeInteger (ref_version r).

(** ** [protected-bundle.ts] *)

Inductive BundleType :=
| bt_evidence | bt_verification | bt_assessment | bt_assistant_support | bt_listing
| bt_agreement | bt_dispute | bt_logistics | bt_audit | bt_authoritative_source.

#[global] Instance BundleType_eq_dec : EqDecision BundleType.
Proof. solve_decision. Defined.

Definition domainKindByBundleType (t : BundleType) : string :=
  match t with
  | bt_evidence => "evidence"
  | bt_verification => "verification"
  | bt_assessment => "assessment"
  | bt_assistant_support => "assistant"
  | bt_listing => "listing"
  | bt_agreement => "agreement"
  | bt_dispute => "dispute"
  | bt_logistics => "delivery"
  | bt_audit => "audit"
  | bt_authoritative_source => "source"
  end.

Record ProtectedBundleRef := mkProtectedBundleRef {
  pb_schema : string;
  pb_bundle_id : string;
  pb_bundle_version : Z;
  pb_domain_resource_version : Z;
  pb_custody_controller_org_id : string;
  pb_content_schema_id : string;
  pb_content_schema_version : string;
  pb_initial_criticality_class : string;
  pb_criticality_profile_id : string;
  pb_criticality_profile_version : Z;
  pb_bundle_type : BundleType;
  pb_domain_resource_id : string
}.

#[global] Instance ProtectedBundleRef_eq_dec : EqDecision ProtectedBundleRef.
Proof. solve_decision. Defined.

Definition one_of (l : list string) (s : string) : bool := includes s l.

Definition protectedBundleRef (r : ProtectedBundleRef) : bool :=
  String.eqb (pb_schema r) "EVLLM_PROTECTED_BUNDLE_REF_V1" &&
  urn "bundle" (pb_bundle_id r) &&
  positiveSafeInteger (pb_bundle_version r) &&
  positiveSafeInteger (pb_domain_resource_version r) &&
  urn "org" (pb_custody_controller_org_id r) &&
  urn "schema" (pb_content_schema_id r) &&
  semver (pb_content_schema_version r) &&
  one_of ["decision-critical"; "supplementary"] (pb_initial_criticality_class r) &&
  urn "profile" (pb_criticality_profile_id r) &&
  positiveSafeInteger (pb_criticality_profile_version r) &&
  urn (domainKindByBundleType (pb_bundle_type r)) (pb_domain_resource_id r).

(** [bindReference] of domain-payloads.ts: a payload names its own protected bundle. *)
Definition bindReference (r : ProtectedBundleRef) (bundleType : BundleType) (resourceId : string) : bool :=
  protectedBundleRef r &&
  negb (negb (bool_decide (pb_bundle_type r = bundleType)) ||
        negb (String.eqb (pb_domain_resource_id r) resourceId)).

(** ** [numeric.ts] *)

Record DecimalQuantity := mkDecimalQuantity { dq_value : string; dq_unit_id : string; dq_unit_version : Z }.

#[global] Instance DecimalQuantity_eq_dec : EqDecision DecimalQuantity.
Proof. solve_decision. Defined.

Definition decimalQuantity (q : DecimalQuantity) : bool :=
  canonicalDecimal (dq_value q) && urn "unit" (dq_unit_id q) && positiveSafeInteger (dq_unit_version q).

Record DecimalRange := mkDecimalRange { dr_lower : string; dr_upper : string }.

#[global] Instance DecimalRange_eq_dec : EqDecision DecimalRange.
Proof. solve_decision. Defined.

Record MoneyValue := mkMoneyValue {
  mv_amount : string; mv_currency : string; mv_currency_profile_id : string;
  mv_currency_profile_version : Z
}.

#[global] Instance MoneyValue_eq_dec : EqDecision MoneyValue.
Proof. solve_decision. Defined.

Definition moneyValue (m : MoneyValue) : bool :=
  canonicalDecimal (mv_amount m) && rtest (rx "^[A-Z]{3}$") (mv_currency m) &&
  urn "profile" (mv_currency_profile_id m) && positiveSafeInteger (mv_currency_profile_version m).

Record PercentilePoint := mkPercentilePoint { pp_probability : string; pp_value : string }.

#[global] Instance PercentilePoint_eq_dec : EqDecision PercentilePoint.
Proof. solve_decision. Defined.

(** ** [domain-records.ts] *)

Inductive SourceLifecycle :=
| src_pending | src_active | src_unavailable | src_superseded | src_withdrawn | src_expired.

#[global] Instance SourceLifecycle_eq_dec : EqDecision SourceLifecycle.
Proof. solve_decision. Defined.

Record SourceRecord := mkSourceRecord {
  schema : string;
  source_id : string;
  source_version : Z;
  predecessor_source_version : option Z;
  successor_source_version : option Z;
  public_metadata_ref : option Reference;
  licensed_payload_ref : option Reference;
  domain_signature_record_id : option string;
  source_class : string;
  access_state : string;
  licence_state : string;
  review_due_at : Z;
  lifecycle : SourceLifecycle;
  transition_actor_id : string;
  transition_reason : string;
  effective_at : Z;
  reviewed_at : Z;
  permitted_rule_ids : list string;
  dependent_rule_ids : list string
}.

#[global] Instance SourceRecord_eq_dec : EqDecision SourceRecord.
Proof. solve_decision. Defined.

Definition authoritativeSource (r : SourceRecord) : bool :=
  String.eqb (schema r) "EVLLM_AUTHORITATIVE_SOURCE_V1" &&
  urn "source" (source_id r) &&
  positiveSafeInteger (source_version r) &&
  optional positiveSafeInteger (predecessor_source_version r) &&
  optional positiveSafeInteger (successor_source_version r) &&
  optional reference (public_metadata_ref r) &&
  optional reference (licensed_payload_ref r) &&
  optional (urn "assertion") (domain_signature_record_id r) &&
  one_of ["legal"; "technical"] (source_class r) &&
  one_of ["public"; "licensed"; "metadata-only"] (access_state r) &&
  one_of ["permitted"; "restricted"; "unavailable"] (licence_state r) &&
  timestamp (review_due_at r) &&
  urn "actor" (transition_actor_id r) &&
  shortText (transition_reason r) &&
  timestamp (effective_at r) &&
  timestamp (reviewed_at r) &&
  array (urn "rule") 0 256 (permitted_rule_ids r) &&
  array (urn "rule") 0 256 (dependent_rule_ids r).

Inductive RuleStatus := rule_pending | rule_active | rule_disabled | rule_superseded | rule_retired.

#[global] Instance RuleStatus_eq_dec : EqDecision RuleStatus.
Proof. solve_decision. Defined.

Record RuleRecord := mkRuleRecord {
  rule_schema : string;
  rule_id : string;
  rule_version : Z;
  source_clauses : list Reference;
  jurisdiction : string;
  effective_from : Z;
  effective_until : option Z;
  subject_scope : list string;
  rule_predicates : list string;
  required_evidence : list string;
  outcomes : list string;
  reason_codes : list string;
  status : RuleStatus;
  rule_review_due_at : Z
}.

#[global] Instance RuleRecord_eq_dec : EqDecision RuleRecord.
Proof. solve_decision. Defined.

Definition ruleProfile (r : RuleRecord) : bool :=
  String.eqb (rule_schema r) "EVLLM_RULE_PROFILE_V1" &&
  urn "rule" (rule_id r) &&
  positiveSafeInteger (rule_version r) &&
  array reference 1 256 (source_clauses r) &&
  shortText (jurisdiction r) &&
  timestamp (effective_from r) &&
  optional timestamp (effective_until r) &&
  array shortText 1 128 (subject_scope r) &&
  array shortText 1 256 (rule_predicates r) &&
  array shortText 0 256 (required_evidence r) &&
  array shortText 1 128 (outcomes r) &&
  array shortText 1 128 (reason_codes r) &&
  timestamp (rule_review_due_at r).

(** ** [domain-payloads.ts] *)

(** The discriminated unions [typedValue] and [uncertainty]. *)
Inductive TypedValue :=
| tv_quantity (quantity : DecimalQuantity)
| tv_text (v : string)
| tv_boolean (v : bool).

Inductive Uncertainty := un_none | un_range (range : DecimalRange).

#[global] Instance TypedValue_eq_dec : EqDecision TypedValue.
Proof. solve_decision. Defined.
#[global] Instance Uncertainty_eq_dec : EqDecision Uncertainty.
Proof. solve_decision. Defined.

Definition typedValue (v : TypedValue) : bool :=
  match v with
  | tv_quantity q => decimalQuantity q
  | tv_text s => text s
  | tv_boolean _ => true
  end.

Definition decimal_range (r : DecimalRange) : bool := decimalRange (dr_lower r) (dr_upper r).

Definition uncertainty (u : Uncertainty) : bool :=
  match u with un_none => true | un_range r => decimal_range r end.

Record EvidencePayload := mkEvidencePayload {
  ep_schema : string;
  ep_evidence_id : string;
  ep_evidence_version : Z;
  ep_claim_id : string;
  ep_claim_version : Z;
  ep_claim_type : string;
  ep_subject_id : string;
  ep_subject_granularity : string;
  ep_issuer_organization_id : string;
  ep_issuer_role_id : string;
  ep_observed_at : Z;
  ep_submitted_at : Z;
  ep_capture_method : Reference;
  ep_value : TypedValue;
  ep_uncertainty : Uncertainty;
  ep_source_class : string;
  ep_provenance : list Reference;
  ep_protected_bundle_ref : ProtectedBundleRef
}.

#[global] Instance EvidencePayload_eq_dec : EqDecision EvidencePayload.
Proof. solve_decision. Defined.

Definition evidenceClaimPayload (p : EvidencePayload) : bool :=
  String.eqb (ep_schema p) "EVLLM_EVIDENCE_CLAIM_PAYLOAD_V1" &&
  urn "evidence" (ep_evidence_id p) &&
  positiveSafeInteger (ep_evidence_version p) &&
  urn "claim" (ep_claim_id p) &&
  positiveSafeInteger (ep_claim_version p) &&
  shortText (ep_claim_type p) &&
  (urn "battery" (ep_subject_id p) || urn "claim" (ep_subject_id p)) &&
  one_of ["pack"; "module"; "cell"] (ep_subject_granularity p) &&
  urn "org" (ep_issuer_organization_id p) &&
  urn "role" (ep_issuer_role_id p) &&
  timestamp (ep_observed_at p) &&
  timestamp (ep_submitted_at p) &&
  reference (ep_capture_method p) &&
  typedValue (ep_value p) &&
  uncertainty (ep_uncertainty p) &&
  one_of ["primary"; "secondary"; "derived"] (ep_source_class p) &&
  array reference 0 256 (ep_provenance p) &&
  bindReference (ep_protected_bundle_ref p) bt_evidence (ep_evidence_id p).

Record VerificationPayload := mkVerificationPayload {
  vp_schema : string;
  vp_verification_id : string;
  vp_verification_version : Z;
  vp_assertion_type : string;
  vp_claim_id : string;
  vp_claim_version : Z;
  vp_verifier_organization_id : string;
  vp_verifier_role_id : string;
  vp_verifier_credential_id : string;
  vp_basis_evidence : list Reference;
  vp_method : Reference;
  vp_reason : string;
  vp_verified_at : Z;
  vp_valid_until : option Z;
  vp_protected_bundle_ref : ProtectedBundleRef
}.

#[global] Instance VerificationPayload_eq_dec : EqDecision VerificationPayload.
Proof. solve_decision. Defined.

Definition verificationPayload (p : VerificationPayload) : bool :=
  String.eqb (vp_schema p) "EVLLM_VERIFICATION_PAYLOAD_V1" &&
  urn "verification" (vp_verification_id p) &&
  positiveSafeInteger (vp_verification_version p) &&
  one_of ["corroboration"; "certification"] (vp_assertion_type p) &&
  urn "claim" (vp_claim_id p) &&
  positiveSafeInteger (vp_claim_version p) &&
  urn "org" (vp_verifier_organization_id p) &&
  urn "role" (vp_verifier_role_id p) &&
  urn "credential" (vp_verifier_credential_id p) &&
  array reference 1 256 (vp_basis_evidence p) &&
  reference (vp_method p) &&
  text (vp_reason p) &&
  timestamp (vp_verified_at p) &&
  optional timestamp (vp_valid_until p) &&
  bindReference (vp_protected_bundle_ref p) bt_verification (vp_verification_id p).

Record RouteContext := mkRouteContext {
  rc_route_id : string;
  rc_application : string;
  rc_location : string;
  rc_functional_unit : DecimalQuantity;
  rc_duty_context : string;
  rc_service_life : DecimalRange;
  rc_transport_burden : DecimalQuantity;
  rc_testing_burden : DecimalQuantity;
  rc_energy_context : string;
  rc_displaced_alternative : string;
  rc_recovery_process : string;
  rc_inventories : list DecimalQuantity;
  rc_factors : list DecimalQuantity;
  rc_economic_assumptions : list MoneyValue;
  rc_uncertainty : list PercentilePoint
}.

#[global] Instance RouteContext_eq_dec : EqDecision RouteContext.
Proof. solve_decision. Defined.

Definition percentile_point (p : PercentilePoint) : bool :=
  percentilePoint (pp_probability p) (pp_value p).

Definition routeContext (routeId : string) (c : RouteContext) : bool :=
  String.eqb (rc_route_id c) routeId &&
  shortText (rc_application c) &&
  shortText (rc_location c) &&
  decimalQuantity (rc_functional_unit c) &&
  text (rc_duty_context c) &&
  decimal_range (rc_service_life c) &&
  decimalQuantity (rc_transport_burden c) &&
  decimalQuantity (rc_testing_burden c) &&
  text (rc_energy_context c) &&
  text (rc_displaced_alternative c) &&
  text (rc_recovery_process c) &&
  array decimalQuantity 0 512 (rc_inventories c) &&
  array decimalQuantity 0 512 (rc_factors c) &&
  array moneyValue 0 128 (rc_economic_assumptions c) &&
  array percentile_point 0 101 (rc_uncertainty c).

Record AssessmentInputPayload := mkAssessmentInputPayload {
  ai_schema : string;
  assessment_input_id : string;
  assessment_input_version : Z;
  ai_battery_id : string;
  ai_jurisdiction : string;
  ai_as_of : Z;
  ai_evidence : list Reference;
  ai_rules : list Reference;
  ai_method : Reference;
  calculation_inputs_digest : Digest;
  candidate_routes : RouteContext * RouteContext * RouteContext;
  ai_issuer_organization_id : string;
  ai_issuer_role_id : string;
  ai_issued_at : Z;
  ai_protected_bundle_ref : ProtectedBundleRef
}.

#[global] Instance AssessmentInputPayload_eq_dec : EqDecision AssessmentInputPayload.
Proof. solve_decision. Defined.

Definition assessmentInputPayload (p : AssessmentInputPayload) : bool :=
  let '(c1, c2, c3) := candidate_routes p in
  String.eqb (ai_schema p) "EVLLM_ASSESSMENT_INPUT_PAYLOAD_V1" &&
  urn "assessment" (assessment_input_id p) &&
  positiveSafeInteger (assessment_input_version p) &&
  urn "battery" (ai_battery_id p) &&
  shortText (ai_jurisdiction p) &&
  timestamp (ai_as_of p) &&
  array reference 1 512 (ai_evidence p) &&
  array reference 0 256 (ai_rules p) &&
  reference (ai_method p) &&
  digest (calculation_inputs_digest p) &&
  routeContext "continued-compatible-ev-use" c1 &&
  routeContext "stationary-storage-repurposing" c2 &&
  routeContext "recycling" c3 &&
  urn "org" (ai_issuer_organization_id p) &&
  urn "role" (ai_issuer_role_id p) &&
  timestamp (ai_issued_at p) &&
  bindReference (ai_protected_bundle_ref p) bt_assessment (assessment_input_id p).

(** A number within the bounds of [positiveSafeInteger]. *)
Lemma positiveSafeInteger_spec n : positiveSafeInteger n = true <-> 0 < n <= MAX_SAFE_INTEGER.
Proof. unfold positiveSafeInteger. lia. Qed.

Lemma canonicalDecimal_parsed s : canonicalDecimal s = true -> exists d, parse s = Ok d /\ bounded d.
Proof. intros [d Hd]%canonicalDecimal_parse. exists d. split; [done|]. by eapply parse_bounded. Qed.

(** ** Hashes

    [sha256(canonicalJsonBytes(v))]: SHA-256 over the RFC 8785 form that the package
    [canonicalize] computes. The model takes the composition as a parameter per type
    of hashed value; where the program relies on it, the hypothesis is that distinct
    values have distinct digests. *)
Class CanonicalHash (V : Type) := canonical_hash : V -> Digest.

Class CollisionFree {V : Type} (H : CanonicalHash V) : Prop :=
  canonical_hash_inj : forall v v', canonical_hash v = canonical_hash v' -> v = v'.

(** ** Sample values, for the concrete inputs of the other files *)

Definition sample_urn (kind : string) : string :=
  ("urn:evllm:" +:+ kind +:+ ":00000000-0000-4000-8000-000000000000")%string.

Definition sample_bundle_ref (t : BundleType) : ProtectedBundleRef :=
  mkProtectedBundleRef "EVLLM_PROTECTED_BUNDLE_REF_V1" (sample_urn "bundle") 1 1 (sample_urn "org")
    (sample_urn "schema") "1.0.0" "supplementary" (sample_urn "profile") 1 t
    (sample_urn (domainKindByBundleType t)).

Definition sample_evidence (version : Z) : EvidencePayload :=
  mkEvidencePayload "EVLLM_EVIDENCE_CLAIM_PAYLOAD_V1" (sample_urn "evidence") version (sample_urn "claim") version
    "soh" (sample_urn "battery") "pack" (sample_urn "org") (sample_urn "role") 0 0 (mkReference "m" 1)
    (tv_boolean true) un_none "primary" [] (sample_bundle_ref bt_evidence).

Lemma sample_evidence_valid : evidenceClaimPayload (sample_evidence 1) = true.
Proof. vm_compute. reflexivity. Qed.
