(* ===== verification/Rules.v ===== *)
(** * Dated rules and authoritative sources

    [src/src/decision/rules.ts]: [DatedRuleRegistry] keeps versioned sources and
    executable rule profiles. The two [Map]s are insertion-ordered association
    lists; [structuredClone] is the identity on these immutable values. *)

From S2P Require Import Prelude Regex Digits Decimal Schemas.

Record RegisteredSource := mkRegisteredSource {
  authority : string;
  source_jurisdiction : string;
  officialUrl : string;
  source_record : SourceRecord;
  title : string
}.

Inductive PredicateOperator := op_eq | op_gte | op_lte | op_present.

(** [string | boolean] *)
Inductive FactValue := fact_string (s : string) | fact_boolean (b : bool).

#[global] Instance FactValue_eq_dec : EqDecision FactValue.
Proof. solve_decision. Defined.

Record ExecutablePredicate := mkExecutablePredicate {
  predicate_field : string;
  predicate_id : string;
  operator : PredicateOperator;
  threshold : option FactValue;
  predicate_critical : bool
}.

Record ExecutableRuleProfile := mkExecutableRuleProfile {
  rule_record : RuleRecord;
  predicates : list ExecutablePredicate
}.

Inductive Outcome := FAIL | PASS | UNKNOWN.

#[global] Instance Outcome_eq_dec : EqDecision Outcome.
Proof. solve_decision. Defined.

Definition outcome_text (o : Outcome) : string :=
  match o with FAIL => "FAIL" | PASS => "PASS" | UNKNOWN => "UNKNOWN" end.

Record RuleEvaluation := mkRuleEvaluation {
  outcome : Outcome;
  predicateResults : list (string * Outcome);
  reasonCodes : list string;
  rule : Reference;
  sources_used : list Reference
}.

(** [RuleRegistryError] codes, and the errors of the schemas and decimals it calls. *)
Inductive RuleError :=
| conflict | inactive_source | invalid_transition | not_found | out_of_scope
| schema_error
| decimal_error (e : DecimalError).

Record DatedRuleRegistry := mkRegistry {
  rules : list (string * ExecutableRuleProfile);
  sources : list (string * RegisteredSource)
}.

Definition empty_registry : DatedRuleRegistry := mkRegistry [] [].

Definition allowedSourceTransition (from to : SourceLifecycle) : bool :=
  match from with
  | src_pending => bool_decide (to = src_active \/ to = src_withdrawn \/ to = src_expired)
  | src_active => includes to [src_unavailable; src_superseded; src_withdrawn; src_expired]
  | src_unavailable => bool_decide (to = src_active \/ to = src_withdrawn \/ to = src_expired)
  | _ => false
  end.

Definition source (reg : DatedRuleRegistry) (sourceId : string) (version : Z) :
    result RuleError RegisteredSource :=
  defined (map_get (versionKey sourceId version) (sources reg)) not_found.

Definition parse_source (r : SourceRecord) : result RuleError SourceRecord :=
  if authoritativeSource r then Ok r else Throw schema_error.

Definition parse_rule (r : RuleRecord) : result RuleError RuleRecord :=
  if ruleProfile r then Ok r else Throw schema_error.

Definition registerSource (reg : DatedRuleRegistry) (input : RegisteredSource) :
    result RuleError (DatedRuleRegistry * SourceRecord) :=
  record ← parse_source (source_record input);
  let key := versionKey (source_id record) (source_version record) in
  _ ← require (negb (map_has key (sources reg))) conflict;
  _ ← require (negb (negb (rtest (rx "^https:\/\/") (officialUrl input)) || blank (authority input)))
        out_of_scope;
  Ok (mkRegistry (rules reg) (map_set key input (sources reg)), record).

Definition with_status (s : RuleStatus) (r : RuleRecord) : RuleRecord :=
  mkRuleRecord (rule_schema r) (rule_id r) (rule_version r) (source_clauses r) (jurisdiction r)
    (effective_from r) (effective_until r) (subject_scope r) (rule_predicates r)
    (required_evidence r) (outcomes r) (reason_codes r) s (rule_review_due_at r).

(** The changed source record of [transitionSource]. *)
Definition with_transition (to : SourceLifecycle) (actorId reason : string) (at_ : Z)
    (r : SourceRecord) : SourceRecord :=
  mkSourceRecord (schema r) (source_id r) (source_version r) (predecessor_source_version r)
    (successor_source_version r) (public_metadata_ref r) (licensed_payload_ref r)
    (domain_signature_record_id r) (source_class r) (access_state r) (licence_state r)
    (review_due_at r) to actorId reason at_ at_ (permitted_rule_ids r) (dependent_rule_ids r).

Definition with_record (r : SourceRecord) (s : RegisteredSource) : RegisteredSource :=
  mkRegisteredSource (authority s) (source_jurisdiction s) (officialUrl s) r (title s).

Definition uses_source (sourceId : string) (version : Z) (candidate : ExecutableRuleProfile) : bool :=
  existsb (fun clause => String.eqb (ref_id clause) sourceId && (ref_version clause =? version))
    (source_clauses (rule_record candidate)).

(** The loop over [this.#rules]: [entries] are the entries still to visit, [acc] the
    map under update; setting a present key does not change the entries visited. *)
Fixpoint disable_rules (sourceId : string) (version : Z)
    (entries acc : list (string * ExecutableRuleProfile)) :
    list (string * ExecutableRuleProfile) * result RuleError unit :=
  match entries with
  | [] => (acc, Ok tt)
  | (key, candidate) :: entries =>
      if uses_source sourceId version candidate &&
         bool_decide (status (rule_record candidate) = rule_active)
      then
        match parse_rule (with_status rule_disabled (rule_record candidate)) with
        | Ok record =>
            disable_rules sourceId version entries
              (map_set key (mkExecutableRuleProfile record (predicates candidate)) acc)
        | Throw e => (acc, Throw e)
        end
      else disable_rules sourceId version entries acc
  end.

Definition closing_lifecycle (to : SourceLifecycle) : bool :=
  includes to [src_unavailable; src_superseded; src_withdrawn; src_expired].

(** The source is stored before the rules are visited, so the state is returned with
    the error too. *)
Definition transitionSource (reg : DatedRuleRegistry) (sourceId : string) (version : Z)
    (to : SourceLifecycle) (actorId reason : string) (at_ : Z) :
    DatedRuleRegistry * result RuleError SourceRecord :=
  match source reg sourceId version with
  | Throw e => (reg, Throw e)
  | Ok src =>
      if negb (allowedSourceTransition (lifecycle (source_record src)) to)
      then (reg, Throw invalid_transition)
      else
        match parse_source (with_transition to actorId reason at_ (source_record src)) with
        | Throw e => (reg, Throw e)
        | Ok changed =>
            let sources' := map_set (versionKey sourceId version) (with_record changed src) (sources reg) in
            if closing_lifecycle to then
              let '(rules', r) := disable_rules sourceId version (rules reg) (rules reg) in
              (mkRegistry rules' sources', _ ← r; Ok changed)
            else (mkRegistry (rules reg) sources', Ok changed)
        end
  end.

Definition registerRule (reg : DatedRuleRegistry) (input : ExecutableRuleProfile) (at_ : Z) :
    result RuleError (DatedRuleRegistry * RuleRecord) :=
  record ← parse_rule (rule_record input);
  let key := versionKey (rule_id record) (rule_version record) in
  _ ← require (negb (map_has key (rules reg))) conflict;
  let ids := predicate_id <$> predicates input in
  _ ← require (negb (((length (predicates input) =? 0)%nat) ||
                     negb (set_size ids =? Z.of_nat (length (predicates input))))) conflict;
  _ ← for_each (fun sourceRef =>
        src ← source reg (ref_id sourceRef) (ref_version sourceRef);
        require (negb (negb (bool_decide (lifecycle (source_record src) = src_active)) ||
                       (review_due_at (source_record src) <? at_) ||
                       negb (includes (rule_id record) (permitted_rule_ids (source_record src)))))
          inactive_source) (source_clauses record);
  Ok (mkRegistry (map_set key input (rules reg)) (sources reg), record).

Definition rule_applies (asOf : Z) (where_ ruleId subjectScope : string)
    (profile : ExecutableRuleProfile) : bool :=
  let record := rule_record profile in
  String.eqb (rule_id record) ruleId &&
  bool_decide (status record = rule_active) &&
  String.eqb (jurisdiction record) where_ &&
  includes subjectScope (subject_scope record) &&
  (effective_from record <=? asOf) &&
  match effective_until record with None => true | Some until => asOf <? until end.

Definition by_version_descending (left right : ExecutableRuleProfile) : Z :=
  rule_version (rule_record right) - rule_version (rule_record left).

Definition selectRule (reg : DatedRuleRegistry) (asOf : Z) (where_ ruleId subjectScope : string) :
    result RuleError ExecutableRuleProfile :=
  let candidates :=
    js_sort by_version_descending
      (filter (fun p => rule_applies asOf where_ ruleId subjectScope p = true) (map_values (rules reg))) in
  selected ← defined (head candidates) out_of_scope;
  _ ← for_each (fun sourceRef =>
        src ← source reg (ref_id sourceRef) (ref_version sourceRef);
        require (negb (negb (bool_decide (lifecycle (source_record src) = src_active)) ||
                       (review_due_at (source_record src) <? asOf))) inactive_source)
      (source_clauses (rule_record selected));
  Ok selected.

Definition evaluatePredicate (predicate : ExecutablePredicate) (v : option FactValue) :
    result RuleError Outcome :=
  match v with
  | None => Ok UNKNOWN
  | Some v =>
      match operator predicate with
      | op_present => Ok (if bool_decide (v = fact_boolean false) then FAIL else PASS)
      | op =>
          match threshold predicate with
          | None => Ok UNKNOWN
          | Some t =>
              match op with
              | op_eq => Ok (if bool_decide (v = t) then PASS else FAIL)
              | _ =>
                  match v, t with
                  | fact_string v, fact_string t =>
                      comparison ← lift_err decimal_error
                        (a ← parse v; b ← parse t; compare a b);
                      Ok (match op with
                          | op_gte => if 0 <=? comparison then PASS else FAIL
                          | _ => if comparison <=? 0 then PASS else FAIL
                          end)
                  | _, _ => Ok UNKNOWN
                  end
              end
          end
      end
  end.

(** [facts[field]]: the own properties of the facts object. *)
Definition Facts := list (string * FactValue).

Definition reason_code (r : string * Outcome) : string :=
  ("RULE_" +:+ outcome_text r.2 +:+ "_" +:+ r.1)%string.

(** The outcome of the critical predicates. *)
Definition gate (critical : list (bool * Outcome)) : Outcome :=
  if existsb (fun c => c.1 && bool_decide (c.2 = FAIL)) critical then FAIL
  else if existsb (fun c => c.1 && bool_decide (c.2 = UNKNOWN)) critical then UNKNOWN
  else PASS.

Definition evaluate (profile : ExecutableRuleProfile) (facts : Facts) : result RuleError RuleEvaluation :=
  predicateResults ← map_result (fun predicate =>
      state ← evaluatePredicate predicate (map_get (predicate_field predicate) facts);
      Ok (predicate_id predicate, state)) (predicates profile);
  let critical := zip (predicate_critical <$> predicates profile) predicateResults.*2 in
  Ok (mkRuleEvaluation (gate critical) predicateResults
        (reason_code <$> filter (fun r => r.2 <> PASS) predicateResults)
        (mkReference (rule_id (rule_record profile)) (rule_version (rule_record profile)))
        (source_clauses (rule_record profile))).

(** ** The registry invariant *)

Definition source_key (r : SourceRecord) : string := versionKey (source_id r) (source_version r).
Definition rule_key (r : RuleRecord) : string := versionKey (rule_id r) (rule_version r).
Definition clause_key (c : Reference) : string := versionKey (ref_id c) (ref_version c).

Definition source_stored (k : string) (s : RegisteredSource) : Prop :=
  authoritativeSource (source_record s) = true /\ k = source_key (source_record s).

Definition rule_stored (k : string) (p : ExecutableRuleProfile) : Prop :=
  ruleProfile (rule_record p) = true /\ k = rule_key (rule_record p) /\
  predicates p <> [] /\ NoDup (predicate_id <$> predicates p).

(** Every source an active rule cites is registered and active. *)
Definition backed (srcs : list (string * RegisteredSource)) (p : ExecutableRuleProfile) : Prop :=
  status (rule_record p) = rule_active ->
  Forall (fun c => exists s, map_get (clause_key c) srcs = Some s /\
                   lifecycle (source_record s) = src_active) (source_clauses (rule_record p)).

Record registry_ok (reg : DatedRuleRegistry) : Prop := {
  rules_map : map_ok (rules reg);
  sources_map : map_ok (sources reg);
  rules_stored k p : map_get k (rules reg) = Some p -> rule_stored k p;
  sources_stored k s : map_get k (sources reg) = Some s -> source_stored k s;
  rules_backed k p : map_get k (rules reg) = Some p -> backed (sources reg) p
}.

Lemma empty_registry_ok : registry_ok empty_registry.
Proof. by constructor; [constructor..| | |]. Qed.

Lemma source_Ok reg id v s :
  source reg id v = Ok s <-> map_get (versionKey id v) (sources reg) = Some s.
Proof. apply defined_Ok. Qed.

Lemma parse_source_Ok r r' : parse_source r = Ok r' <-> authoritativeSource r = true /\ r = r'.
Proof. unfold parse_source. destruct (authoritativeSource r); split; [by intros [= ->]|by intros [_ ->]|done|by intros []]. Qed.

Lemma parse_rule_Ok r r' : parse_rule r = Ok r' <-> ruleProfile r = true /\ r = r'.
Proof. unfold parse_rule. destruct (ruleProfile r); split; [by intros [= ->]|by intros [_ ->]|done|by intros []]. Qed.

Lemma registerSource_ok reg input reg' r :
  registry_ok reg -> registerSource reg input = Ok (reg', r) -> registry_ok reg'.
Proof.
  intros Hok. unfold registerSource. intros H. inv_result. apply parse_source_Ok in Ha as [Hv <-].
  apply map_has_false in Ha0.
  destruct Hok as [H1 H2 H3 H4 H5]. constructor; simpl; [done|by apply map_set_ok|done|..].
  - intros k s. rewrite map_get_set. case_decide as Hk; [|apply H4]. intros [= <-]. by split.
  - intros k p Hp Hact. eapply Forall_impl; [exact (H5 k p Hp Hact)|].
    intros c (s & Hs & Hl). exists s. split; [|done]. rewrite map_get_set_ne; [done|].
    intros Hc. rewrite Hc in Hs. unfold source_key in *. congruence.
Qed.

Lemma registerRule_ok reg input at_ reg' r :
  registry_ok reg -> registerRule reg input at_ = Ok (reg', r) -> registry_ok reg'.
Proof.
  intros Hok. unfold registerRule. intros H. inv_result. apply parse_rule_Ok in Ha as [Hv <-].
  destruct Hok as [H1 H2 H3 H4 H5].
  assert (backed (sources reg) input) as Hb.
  { intros _. apply for_each_Ok in Ha2. eapply Forall_impl; [exact Ha2|].
    intros c (s & Hs & Hc%require_Ok)%bind_Ok. exists s. apply source_Ok in Hs. split; [done|].
    rewrite negb_true_iff, !orb_false_iff, negb_false_iff, bool_decide_eq_true in Hc. by destruct Hc as [[]]. }
  constructor; simpl; [by apply map_set_ok|done| |done|].
  - intros k p. rewrite map_get_set. case_decide as Hk; [|apply H3]. intros [= <-].
    repeat split; [done|done|intros He; by rewrite He in H|].
    apply set_size_NoDup. rewrite length_fmap. apply negb_false_iff, Z.eqb_eq in H0. done.
  - intros k p. rewrite map_get_set. case_decide as Hk; [|apply H5]. by intros [= <-].
Qed.

Definition disable_profile (sourceId : string) (version : Z) (p : ExecutableRuleProfile) :
    ExecutableRuleProfile :=
  if uses_source sourceId version p && bool_decide (status (rule_record p) = rule_active)
  then mkExecutableRuleProfile (with_status rule_disabled (rule_record p)) (predicates p) else p.

Lemma disable_rules_spec sourceId version entries acc :
  map_ok entries -> map_ok acc ->
  (forall k p, (k, p) ∈ entries -> ruleProfile (rule_record p) = true) ->
  exists acc', disable_rules sourceId version entries acc = (acc', Ok tt) /\ map_ok acc' /\
    forall k, map_get k acc' =
      match map_get k entries with
      | Some p => if uses_source sourceId version p && bool_decide (status (rule_record p) = rule_active)
                  then Some (disable_profile sourceId version p) else map_get k acc
      | None => map_get k acc
      end.
Proof.
  revert acc; induction entries as [|[k p] entries IH]; intros acc Hnd Hacc Hv; simpl.
  { exists acc. done. }
  apply NoDup_cons in Hnd as [Hk Hnd]. apply map_get_None in Hk. simpl in Hk.
  assert (forall k' p', (k', p') ∈ entries -> ruleProfile (rule_record p') = true) as Hv'.
  { intros k' p' Hin. apply (Hv k' p'). by right. }
  destruct (uses_source sourceId version p && _) eqn:Hu.
  - assert (ruleProfile (with_status rule_disabled (rule_record p)) = true) as Hp.
    { apply (Hv k p). by left. }
    unfold parse_rule. rewrite Hp.
    edestruct (IH (map_set k (mkExecutableRuleProfile (with_status rule_disabled (rule_record p))
      (predicates p)) acc)) as (acc' & -> & Hok & Hget); [done|by apply map_set_ok|done|].
    exists acc'. split; [done|]. split; [done|]. intros k'. rewrite Hget, map_get_set. destruct (decide (k' = k)) as [->|]; [|done].
    rewrite Hk, Hu. unfold disable_profile. by rewrite Hu.
  - destruct (IH acc Hnd Hacc Hv') as (acc' & -> & Hok & Hget).
    exists acc'. split; [done|]. split; [done|]. intros k'. rewrite Hget.
    destruct (decide (k' = k)) as [->|]; [|done]. by rewrite Hk, Hu.
Qed.

Lemma uses_source_spec sourceId version p :
  uses_source sourceId version p = true <-> mkReference sourceId version ∈ source_clauses (rule_record p).
Proof.
  unfold uses_source. rewrite existsb_exists. split.
  - intros ([i v] & Hin & Hc). simpl in Hc. rewrite andb_true_iff, String.eqb_eq, Z.eqb_eq in Hc.
    destruct Hc as [-> ->]. by apply list_elem_of_In.
  - intros Hin. exists (mkReference sourceId version). split; [by apply list_elem_of_In|].
    simpl. by rewrite String.eqb_refl, Z.eqb_refl.
Qed.

(** What [transitionSource] leaves behind: the source in its new state and, when the
    state closes it, every active rule that cites it disabled. *)
Lemma transitionSource_spec reg id v to actor reason at_ src :
  registry_ok reg -> source reg id v = Ok src ->
  allowedSourceTransition (lifecycle (source_record src)) to = true ->
  let changed := with_transition to actor reason at_ (source_record src) in
  authoritativeSource changed = true ->
  exists rules', transitionSource reg id v to actor reason at_ =
      (mkRegistry rules' (map_set (versionKey id v) (with_record changed src) (sources reg)), Ok changed) /\
    map_ok rules' /\
    forall k, map_get k rules' =
      (if closing_lifecycle to then disable_profile id v <$> map_get k (rules reg)
       else map_get k (rules reg)).
Proof.
  intros Hok Hs Ht changed Hc. unfold transitionSource. rewrite Hs, Ht. simpl negb. cbv iota.
  unfold parse_source. fold changed. rewrite Hc. destruct (closing_lifecycle to).
  - destruct (disable_rules_spec id v (rules reg) (rules reg)) as (rules' & -> & Hm & Hget).
    + apply Hok.
    + apply Hok.
    + intros k p Hin%elem_of_map_get; [|apply Hok]. by apply (rules_stored _ Hok) in Hin as [].
    + exists rules'. split; [done|]. split; [done|]. intros k. rewrite Hget.
      destruct (map_get k (rules reg)) as [p|]; [|done]. simpl. unfold disable_profile.
      by destruct (uses_source id v p && _).
  - exists (rules reg). split; [done|]. split; [apply Hok|done].
Qed.

Lemma transitionSource_ok reg id v to actor reason at_ :
  registry_ok reg -> registry_ok (transitionSource reg id v to actor reason at_).1.
Proof.
  intros Hok. destruct (source reg id v) as [src|e] eqn:Hs.
  2: { unfold transitionSource. by rewrite Hs. }
  destruct (allowedSourceTransition (lifecycle (source_record src)) to) eqn:Ht.
  2: { unfold transitionSource. by rewrite Hs, Ht. }
  destruct (authoritativeSource (with_transition to actor reason at_ (source_record src))) eqn:Hc.
  2: { unfold transitionSource, parse_source. by rewrite Hs, Ht, Hc. }
  destruct (transitionSource_spec reg id v to actor reason at_ src Hok Hs Ht Hc)
    as (rules' & -> & Hm & Hget). simpl. apply source_Ok in Hs.
  destruct (sources_stored _ Hok _ _ Hs) as [_ Hkey].
  assert (forall k p, map_get k rules' = Some p -> exists p0, map_get k (rules reg) = Some p0 /\
    (p = p0 \/ p = mkExecutableRuleProfile (with_status rule_disabled (rule_record p0)) (predicates p0)) /\
    (status (rule_record p) = rule_active -> p = p0 /\
      (closing_lifecycle to = true -> mkReference id v ∉ source_clauses (rule_record p)))) as Hold.
  { intros k p. rewrite Hget. destruct (closing_lifecycle to);
      [|intros Hp; exists p; split; [done|]; split; [by left|]; by split].
    destruct (map_get k (rules reg)) as [p0|]; [|done]. intros [= <-]. exists p0. split; [done|].
    unfold disable_profile. destruct (uses_source id v p0 && _) eqn:Hu; [by split; [right|]|].
    split; [by left|]. intros Hact. split; [done|]. intros _. rewrite <- uses_source_spec.
    rewrite (bool_decide_eq_true_2 _ Hact), andb_true_r in Hu. by rewrite Hu. }
  constructor; simpl; [done|apply map_set_ok, Hok|..].
  - intros k p (p0 & Hp & [->| ->] & _)%Hold; by apply (rules_stored _ Hok) in Hp.
  - intros k s. rewrite map_get_set. case_decide as Hk; [|apply Hok]. intros [= <-].
    split; [done|]. by rewrite Hk, Hkey.
  - intros k p (p0 & Hp & _ & Hact)%Hold Ha. destruct (Hact Ha) as [-> Hno].
    pose proof (rules_backed _ Hok _ _ Hp Ha) as Hb. rewrite Forall_forall in Hb |- *.
    intros c Hin. destruct (Hb c Hin) as (s & Hcs & Hl). rewrite map_get_set.
    case_decide as Hk; [|by exists s]. exfalso.
    rewrite Hk, Hs in Hcs. injection Hcs as <-. rewrite Hl in Ht.
    apply versionKey_inj in Hk as [Hi Hv]. apply Hno; [exact Ht|].
    by rewrite <- Hi, <- Hv; destruct c.
Qed.

(** An operation of the registry, as its clients call it. *)
Inductive RegistryOp :=
| call_registerSource (input : RegisteredSource)
| call_transitionSource (id : string) (version : Z) (to : SourceLifecycle) (actor reason : string) (at_ : Z)
| call_registerRule (input : ExecutableRuleProfile) (at_ : Z).

Definition run_registry (reg : DatedRuleRegistry) (op : RegistryOp) : DatedRuleRegistry :=
  match op with
  | call_registerSource input =>
      match registerSource reg input with Ok (reg', _) => reg' | Throw _ => reg end
  | call_transitionSource id v to actor reason at_ => (transitionSource reg id v to actor reason at_).1
  | call_registerRule input at_ =>
      match registerRule reg input at_ with Ok (reg', _) => reg' | Throw _ => reg end
  end.

Lemma run_registry_ok reg op : registry_ok reg -> registry_ok (run_registry reg op).
Proof.
  intros H. destruct op; simpl.
  - destruct (registerSource reg input) as [[reg' r]|] eqn:He; [by eapply registerSource_ok|done].
  - by apply transitionSource_ok.
  - destruct (registerRule reg input at_) as [[reg' r]|] eqn:He; [by eapply registerRule_ok|done].
Qed.

(** The registries a history of calls reaches. *)
Definition after (ops : list RegistryOp) : DatedRuleRegistry := fold_left run_registry ops empty_registry.

Lemma after_ok ops : registry_ok (after ops).
Proof.
  unfold after. assert (forall reg, registry_ok reg -> registry_ok (fold_left run_registry ops reg)) as H.
  { induction ops as [|op ops IH]; intros reg H; simpl; [done|]. by apply IH, run_registry_ok. }
  apply H, empty_registry_ok.
Qed.

(** ** Selection *)

#[global] Instance by_version_comparator : Comparator by_version_descending.
Proof. constructor; unfold by_version_descending; intros; lia. Qed.

Lemma js_sort_head {A} (cmp : A -> A -> Z) `{!Comparator cmp} l x :
  head (js_sort cmp l) = Some x -> x ∈ l /\ forall y, y ∈ l -> cmp x y <= 0.
Proof.
  intros H. pose proof (js_sort_sorted cmp l) as Hs.
  assert (forall y, y ∈ js_sort cmp l <-> y ∈ l) as Hin by (intros; apply js_sort_elem_of).
  destruct (js_sort cmp l) as [|x' l']; [done|]. injection H as ->. split.
  - apply Hin. by left.
  - intros y [->|Hy]%Hin%elem_of_cons.
    + destruct (Z.le_gt_cases (cmp x x) 0) as [|Hlt]; [done|].
      apply cmp_flip in Hlt; [lia|apply _].
    + apply StronglySorted_inv in Hs as [_ Hs]. rewrite Forall_forall in Hs. by apply Hs.
Qed.

Lemma js_sort_head_None {A} (cmp : A -> A -> Z) l : head (js_sort cmp l) = None <-> l = [].
Proof.
  split; [|by intros ->]. intros H. destruct (js_sort cmp l) eqn:E; [|done].
  apply (f_equal length) in E. rewrite js_sort_length in E. by destruct l.
Qed.

(** The stored rules that apply. *)
Definition applicable reg asOf where_ ruleId scope (p : ExecutableRuleProfile) : Prop :=
  rule_applies asOf where_ ruleId scope p = true /\ exists k, map_get k (rules reg) = Some p.

Lemma elem_of_map_values {K V} `{EqDecision K} (m : list (K * V)) v :
  map_ok m -> v ∈ map_values m <-> exists k, map_get k m = Some v.
Proof.
  intros Hm. unfold map_values. rewrite list_elem_of_fmap. split.
  - intros ([k v'] & -> & Hin). exists k. by apply elem_of_map_get.
  - intros [k Hk]. exists (k, v). split; [done|]. by apply map_get_elem_of.
Qed.

Definition due (srcs : list (string * RegisteredSource)) (asOf : Z) (c : Reference) : Prop :=
  forall s, map_get (clause_key c) srcs = Some s -> asOf <= review_due_at (source_record s).

Lemma clauses_checked reg asOf clauses :
  Forall (fun c => exists s, map_get (clause_key c) (sources reg) = Some s /\
            lifecycle (source_record s) = src_active) clauses ->
  match for_each (fun sourceRef =>
        src ← source reg (ref_id sourceRef) (ref_version sourceRef);
        require (negb (negb (bool_decide (lifecycle (source_record src) = src_active)) ||
                       (review_due_at (source_record src) <? asOf))) inactive_source) clauses with
  | Ok _ => Forall (due (sources reg) asOf) clauses
  | Throw e => e = inactive_source /\ Exists (fun c => ~ due (sources reg) asOf c) clauses
  end.
Proof.
  induction 1 as [|c clauses (s & Hs & Hl) _ IH]; simpl; [constructor|].
  rewrite (proj2 (source_Ok reg (ref_id c) (ref_version c) s) Hs). simpl.
  rewrite (bool_decide_eq_true_2 _ Hl). simpl.
  destruct (Z.ltb_spec (review_due_at (source_record s)) asOf) as [Hd|Hd]; simpl.
  - split; [done|]. left. intros Hdue. specialize (Hdue s Hs). lia.
  - destruct (for_each _ clauses); [|by destruct IH; split; [|right]].
    constructor; [|done]. intros s' Hs'. rewrite Hs in Hs'. by injection Hs' as <-.
Qed.

(** ** Evaluation *)

Lemma evaluate_inv p facts e :
  evaluate p facts = Ok e ->
  exists rs, Forall2 (fun pr r => evaluatePredicate pr (map_get (predicate_field pr) facts) = Ok r.2 /\
                     r.1 = predicate_id pr) (predicates p) rs /\
    predicateResults e = rs /\ outcome e = gate (zip (predicate_critical <$> predicates p) rs.*2).
Proof.
  unfold evaluate. intros (rs & Hrs & [= <-])%bind_Ok. exists rs. simpl. split; [|done].
  apply map_result_Ok in Hrs. eapply Forall2_impl; [exact Hrs|].
  intros pr r. simpl. by intros (o & Ho & [= <-])%bind_Ok.
Qed.

Lemma gate_FAIL l : gate l = FAIL <-> (true, FAIL) ∈ l.
Proof.
  unfold gate. destruct (existsb _ l) eqn:E; [|destruct (existsb (fun c => c.1 && bool_decide (c.2 = UNKNOWN)) l)].
  - split; [intros _|done]. apply existsb_exists in E as ([b o] & Hin & Hc). simpl in Hc.
    rewrite andb_true_iff, bool_decide_eq_true in Hc. destruct Hc as [-> ->]. by apply list_elem_of_In.
  - split; [done|]. intros Hin. rewrite (proj2 (existsb_exists _ _)) in E; [done|].
    exists (true, FAIL). by rewrite <- list_elem_of_In.
  - split; [done|]. intros Hin. rewrite (proj2 (existsb_exists _ _)) in E; [done|].
    exists (true, FAIL). by rewrite <- list_elem_of_In.
Qed.

Lemma gate_PASS l : gate l = PASS <-> forall o, (true, o) ∈ l -> o = PASS.
Proof.
  split.
  - unfold gate. intros H. destruct (existsb _ l) eqn:E; [done|].
    destruct (existsb (fun c => c.1 && bool_decide (c.2 = UNKNOWN)) l) eqn:E'; [done|].
    intros [| |] Hin; [exfalso|done|exfalso].
    + rewrite (proj2 (existsb_exists _ _)) in E; [done|]. exists (true, FAIL). by rewrite <- list_elem_of_In.
    + rewrite (proj2 (existsb_exists _ _)) in E'; [done|]. exists (true, UNKNOWN).
      by rewrite <- list_elem_of_In.
  - intros H. unfold gate. destruct (existsb _ l) eqn:E; [|destruct (existsb (fun c => c.1 && bool_decide (c.2 = UNKNOWN)) l) eqn:E'; [|done]].
    all: match goal with E : existsb _ _ = true |- _ => apply existsb_exists in E as ([b o] & Hin & Hc) end;
      simpl in Hc; rewrite andb_true_iff, bool_decide_eq_true in Hc; destruct Hc as [-> ->];
      apply list_elem_of_In, H in Hin; done.
Qed.

Lemma evaluatePredicate_mono pr v v' o o' :
  (forall x, v = Some x -> v' = Some x) ->
  evaluatePredicate pr v = Ok o -> evaluatePredicate pr v' = Ok o' -> o <> UNKNOWN -> o' = o.
Proof.
  intros Hv H H' Ho. destruct v as [x|]; [|simpl in H; congruence].
  rewrite (Hv x eq_refl) in H'. congruence.
Qed.

(** Texts a comparison of the predicate may read are decimals. *)
Definition comparable (facts : Facts) (pr : ExecutablePredicate) : Prop :=
  (operator pr = op_gte \/ operator pr = op_lte) ->
  forall v t, map_get (predicate_field pr) facts = Some (fact_string v) ->
    threshold pr = Some (fact_string t) -> canonicalDecimal v = true /\ canonicalDecimal t = true.

Lemma evaluatePredicate_total facts pr :
  comparable facts pr -> exists o, evaluatePredicate pr (map_get (predicate_field pr) facts) = Ok o.
Proof.
  intros Hc. unfold evaluatePredicate, comparable in *.
  destruct (map_get _ facts) as [v|]; [|eauto]. destruct (operator pr); [|..|eauto];
    (destruct (threshold pr) as [t|]; [|eauto]); [by eauto|..]; (destruct v, t; [|by eauto..]);
    (destruct (Hc ltac:(auto) _ _ eq_refl eq_refl) as [H1 H2]);
    apply canonicalDecimal_parsed in H1 as (a & -> & Ha); apply canonicalDecimal_parsed in H2 as (b & -> & Hb);
    simpl; rewrite compare_bounded by done; simpl; eauto.
Qed.

(** What the gate sees of a predicate. *)
Definition state_of (profile : ExecutableRuleProfile) (facts : Facts) (pr : ExecutablePredicate)
    (o : Outcome) : Prop :=
  pr ∈ predicates profile /\ predicate_critical pr = true /\
  evaluatePredicate pr (map_get (predicate_field pr) facts) = Ok o.

Lemma critical_states facts prs rs o :
  Forall2 (fun pr (r : string * Outcome) =>
    evaluatePredicate pr (map_get (predicate_field pr) facts) = Ok r.2 /\ r.1 = predicate_id pr) prs rs ->
  (true, o) ∈ zip (predicate_critical <$> prs) rs.*2 <->
  exists pr, pr ∈ prs /\ predicate_critical pr = true /\
    evaluatePredicate pr (map_get (predicate_field pr) facts) = Ok o.
Proof.
  induction 1 as [|pr [i o'] prs rs [He _] _ IH]; csimpl.
  - split; [by intros ?%not_elem_of_nil|by intros (? & ?%not_elem_of_nil & _)].
  - rewrite elem_of_cons, IH. simpl in He. split.
    + intros [[= Hc ->]|(pr' & Hin & Hpr)].
      * exists pr. split; [by left|done].
      * exists pr'. split; [by right|done].
    + intros (pr' & [->|Hin]%elem_of_cons & Hc & Ho); [left|right; eauto]. rewrite Ho in He. congruence.
Qed.

Lemma evaluate_outcome profile facts e :
  evaluate profile facts = Ok e ->
  (outcome e = FAIL <-> exists pr, state_of profile facts pr FAIL) /\
  (outcome e = PASS <-> forall pr o, state_of profile facts pr o -> o = PASS).
Proof.
  intros (rs & Hrs & _ & ->)%evaluate_inv. rewrite gate_FAIL, gate_PASS. split.
  - by apply critical_states.
  - split.
    + intros H pr o Hs. apply H. apply (critical_states _ _ _ _ Hrs). by exists pr.
    + intros H o Ho. apply (critical_states _ _ _ _ Hrs) in Ho as [pr Hpr]. by apply (H pr).
Qed.

Lemma evaluate_total_on profile facts e pr :
  evaluate profile facts = Ok e -> pr ∈ predicates profile ->
  exists o, evaluatePredicate pr (map_get (predicate_field pr) facts) = Ok o.
Proof.
  intros (rs & Hrs & _)%evaluate_inv Hin. apply list_elem_of_lookup in Hin as [i Hi].
  destruct (Forall2_lookup_l _ _ _ _ _ Hrs Hi) as (r & _ & Hr & _). eauto.
Qed.

Lemma state_of_mono profile facts facts' e' pr o :
  (forall f v, map_get f facts = Some v -> map_get f facts' = Some v) ->
  evaluate profile facts' = Ok e' -> state_of profile facts pr o -> o <> UNKNOWN ->
  state_of profile facts' pr o.
Proof.
  intros Hsub He (Hin & Hc & Ho) Hne. split; [done|]. split; [done|].
  destruct (evaluate_total_on _ _ _ _ He Hin) as [o' Ho']. rewrite Ho'. f_equal.
  exact (evaluatePredicate_mono pr _ _ o o' (fun x => Hsub _ x) Ho Ho' Hne).
Qed.

Lemma evaluate_total profile facts :
  Forall (comparable facts) (predicates profile) -> exists e, evaluate profile facts = Ok e.
Proof.
  intros H. unfold evaluate.
  destruct (map_result_total (fun predicate =>
      state ← evaluatePredicate predicate (map_get (predicate_field predicate) facts);
      Ok (predicate_id predicate, state)) (predicates profile)) as [rs ->]; [|simpl; eauto].
  eapply Forall_impl; [exact H|]. intros pr [o Ho]%evaluatePredicate_total. rewrite Ho. simpl. eauto.
Qed.

Lemma evaluate_mono profile facts facts' e e' :
  evaluate profile facts = Ok e -> evaluate profile facts' = Ok e' ->
  (forall f v, map_get f facts = Some v -> map_get f facts' = Some v) ->
  outcome e <> UNKNOWN -> outcome e' = outcome e.
Proof.
  intros He He' Hsub Hne. pose proof (evaluate_outcome _ _ _ He) as [HF HP].
  pose proof (evaluate_outcome _ _ _ He') as [HF' HP'].
  destruct (outcome e) eqn:Ho; [|clear HF|congruence].
  - apply HF'. destruct (proj1 HF eq_refl) as [pr Hpr]. exists pr. by eapply state_of_mono.
  - apply HP'. intros pr o' Hs. pose proof Hs as (Hin & Hc & Ho').
    destruct (evaluate_total_on _ _ _ _ He Hin) as [o1 Ho1].
    assert (state_of profile facts pr o1) as Hs1 by done.
    pose proof (proj1 HP eq_refl _ _ Hs1) as ->.
    destruct (state_of_mono _ _ _ _ _ _ Hsub He' Hs1 ltac:(done)) as (_ & _ & Hx). congruence.
Qed.

(** * Properties *)

(** C12. Whatever the history of registrations and transitions, every rule that is
    still active cites only registered sources that are still active, every stored
    record satisfies its schema and is filed under its own id and version, and the
    ids of a rule's predicates are distinct. *)
Theorem registry_invariant (ops : list RegistryOp) :
  registry_ok (after ops).
Proof. apply after_ok. Qed.

(** After any history, [selectRule] returns an applicable rule of the highest
    version whose sources are active and not overdue, throws [out-of-scope] exactly
    when no stored rule applies, and throws [inactive-source] only because a source
    of the chosen rule is overdue; it never fails to find a cited source. *)
Theorem selectRule_correct (ops : list RegistryOp) (asOf : Z) (where_ ruleId scope : string) :
  let reg := after ops in
  let best p := applicable reg asOf where_ ruleId scope p /\
    forall q, applicable reg asOf where_ ruleId scope q ->
      rule_version (rule_record q) <= rule_version (rule_record p) in
  match selectRule reg asOf where_ ruleId scope with
  | Ok p => best p /\ Forall (due (sources reg) asOf) (source_clauses (rule_record p))
  | Throw out_of_scope => forall p, ~ applicable reg asOf where_ ruleId scope p
  | Throw inactive_source =>
      exists p, best p /\ Exists (fun c => ~ due (sources reg) asOf c) (source_clauses (rule_record p))
  | Throw _ => False
  end.
Proof.
  intros reg best. pose proof (after_ok ops) as Hok. fold reg in Hok. unfold selectRule.
  set (l := filter _ _). assert (forall p, p ∈ l <-> applicable reg asOf where_ ruleId scope p) as Hl.
  { intros p. unfold l, applicable. rewrite list_elem_of_filter, elem_of_map_values by apply Hok. done. }
  destruct (head (js_sort by_version_descending l)) as [p|] eqn:Hh; simpl.
  - apply js_sort_head in Hh as [Hp Hmax]; [|apply _].
    assert (best p) as Hb.
    { split; [by apply Hl|]. intros q Hq%Hl. specialize (Hmax q Hq). unfold by_version_descending in Hmax. lia. }
    apply Hl in Hp as [Happ [k Hk]]. pose proof (rules_backed _ Hok _ _ Hk) as Hback.
    assert (status (rule_record p) = rule_active) as Hact.
    { unfold rule_applies in Happ. rewrite !andb_true_iff, bool_decide_eq_true in Happ. by destruct_and!. }
    pose proof (clauses_checked reg asOf _ (Hback Hact)) as Hc.
    destruct (for_each _ _) as [|e]; simpl; [by split|]. destruct Hc as [-> Hc]. by exists p.
  - apply js_sort_head_None in Hh. intros p Hp. apply Hl in Hp. rewrite Hh in Hp.
    by apply not_elem_of_nil in Hp.
Qed.

(** [evaluate] is a three-valued gate on the critical predicates: it fails when
    one of them fails, passes when all of them pass and is unknown otherwise; it
    does not throw on canonical decimals, and learning further facts never
    overturns a decided outcome. *)
Theorem evaluate_gate (profile : ExecutableRuleProfile) (facts facts' : Facts) :
  (Forall (comparable facts) (predicates profile) -> exists e, evaluate profile facts = Ok e) /\
  (forall e, evaluate profile facts = Ok e ->
     (outcome e = FAIL <-> exists pr, state_of profile facts pr FAIL) /\
     (outcome e = PASS <-> forall pr o, state_of profile facts pr o -> o = PASS)) /\
  (forall e e', evaluate profile facts = Ok e -> evaluate profile facts' = Ok e' ->
     (forall f v, map_get f facts = Some v -> map_get f facts' = Some v) ->
     outcome e <> UNKNOWN -> outcome e' = outcome e).
Proof.
  split; [apply evaluate_total|]. split; [by intros; apply evaluate_outcome|].
  intros e e'. apply evaluate_mono.
Qed.

(** A rule with a critical comparison and a critical presence test. *)
Definition sample_profile : ExecutableRuleProfile :=
  mkExecutableRuleProfile
    (mkRuleRecord "EVLLM_RULE_PROFILE_V1" "urn:evllm:rule:00000000-0000-0000-0000-000000000000" 1
      [] "EU" 0 None ["pack"] ["p"] [] ["PASS"] ["R"] rule_active 10)
    [mkExecutablePredicate "soh" "P1" op_gte (Some (fact_string "0.7")) true;
     mkExecutablePredicate "tested" "P2" op_present None true].

Lemma evaluate_gate_witness :
  (exists e, evaluate sample_profile [("soh", fact_string "0.65")] = Ok e /\ outcome e = FAIL) /\
  forall e', evaluate sample_profile [("soh", fact_string "0.65"); ("tested", fact_boolean true)] = Ok e' ->
    outcome e' = FAIL.
Proof.
  split; [by eexists; split; [vm_compute; reflexivity|]|]. intros e' He'.
  match eval vm_compute in (evaluate sample_profile [("soh", fact_string "0.65")]) with
  | Ok ?e => refine (proj2 (proj2 (evaluate_gate sample_profile [("soh", fact_string "0.65")]
      [("soh", fact_string "0.65"); ("tested", fact_boolean true)])) e e' _ He' _ _)
  end.
  - vm_compute. reflexivity.
  - intros f v. simpl. case_decide; [done|discriminate].
  - discriminate.
Defined.
