(* ===== verification/Assessment.v ===== *)
(** * Route assessment

    [src/src/decision/assessment.ts]: the deterministic comparison of the three
    second-life routes of a battery. The six dimensions of a route are its gate [G],
    circularity [C], environmental indicators [I], economics [E], evidence adequacy
    [A] and uncertainty [U]. *)

From Stdlib Require Import QArith Qabs Lqa.
From S2P Require Import Prelude Regex Digits Decimal Schemas Rules.

#[local] Open Scope Z_scope.

Inductive FormalRoute := continued_use | stationary_storage | recycling.

#[global] Instance FormalRoute_eq_dec : EqDecision FormalRoute.
Proof. solve_decision. Defined.

Definition FORMAL_ROUTES : list FormalRoute := [continued_use; stationary_storage; recycling].

Definition route_text (r : FormalRoute) : string :=
  match r with
  | continued_use => "continued-compatible-ev-use"
  | stationary_storage => "stationary-storage-repurposing"
  | recycling => "recycling"
  end.

Record CircularityCriterion := mkCriterion {
  criterion_id : string;
  rating : option Z;
  weight : string
}.

Record EnvironmentalTerm := mkTerm {
  category : string;
  factor : string;
  flow : string;
  recovered : bool;
  quantity : string;
  resultUnit : string
}.

Record CashFlow := mkCashFlow { amount : string; period : Z }.

Record EconomicScenario := mkEconomicScenario {
  cashFlows : list CashFlow;
  currency : string;
  discountRate : string;
  initialInvestment : string
}.

Record EvidenceFieldState := mkEvidenceFieldState {
  authorized : bool;
  conflicting : bool;
  critical : bool;
  current : bool;
  field : string;
  present : bool;
  revoked : bool;
  verified : bool
}.

Record UncertaintyScenario := mkScenario {
  scenario_gate : Outcome;
  scenario_id : string;
  routeRank : option Z
}.

Record RouteAssessmentInput := mkRouteAssessmentInput {
  circularity : list CircularityCriterion;
  economics : EconomicScenario;
  environmental : list EnvironmentalTerm;
  evidence : list EvidenceFieldState;
  functionalUnit : string;
  routeId : FormalRoute;
  ruleEvaluation : RuleEvaluation;
  uncertaintyScenarios : list UncertaintyScenario;
  uncertaintyPercentiles : option (list PercentilePoint)
}.

Record CircularityResult := mkCircularityResult {
  lower : string;
  upper : string;
  complete_value : option string
}.

Record Indicator := mkIndicator { ind_category : string; ind_unit : string; ind_value : string }.

Record EconomicResult := mkEconomicResult {
  result_currency : string;
  netPresentValue : string;
  paybackPeriod : option Z
}.

Inductive Verification := v_missing | v_unverified | v_verified.

Record AdequacyResult := mkAdequacyResult {
  coverage : string;
  verifiedFraction : string;
  freshnessFraction : string;
  conflictCount : Z;
  missingCritical : list string;
  weakestCriticalVerification : Verification
}.

Record UncertaintyResult := mkUncertaintyResult {
  gatePassFrequency : string;
  rankStable : bool;
  scenarioCount : Z;
  percentiles : list PercentilePoint
}.

Record RouteAssessmentResult := mkRouteAssessmentResult {
  result_routeId : FormalRoute;
  G : Outcome;
  C : CircularityResult;
  I : list Indicator;
  E : EconomicResult;
  A : AdequacyResult;
  U : UncertaintyResult;
  result_reasonCodes : list string
}.

Inductive DecisionState := answer | abstain | requires_external_decision.

#[global] Instance DecisionState_eq_dec : EqDecision DecisionState.
Proof. solve_decision. Defined.

Record Dominance := mkDominance { dominant : FormalRoute; dominated : FormalRoute }.

#[global] Instance Dominance_eq_dec : EqDecision Dominance.
Proof. solve_decision. Defined.

(** The result before it is hashed. *)
Record UnsignedResult := mkUnsignedResult {
  assessmentInputId : string;
  assessmentInputVersion : Z;
  decisionState : DecisionState;
  preferredRoute : option FormalRoute;
  dominance : list Dominance;
  routes : list RouteAssessmentResult;
  warnings : list string
}.

Record AssessmentResult := mkAssessmentResult {
  unsigned : UnsignedResult;
  reproductionHash : Digest
}.

(** [AssessmentError] codes; [decimal] is an [ExactDecimalError], [schema_mismatch] the
    schema's and [type_error] a property read on [undefined]. *)
Inductive AssessmentError :=
| currency_mismatch | calculation_input_mismatch | duplicate | functional_unit_mismatch
| invalid_input | route_mismatch | scenario_mismatch | unit_mismatch | weight_sum
| decimal (e : DecimalError) | schema_mismatch | type_error.

Notation "'exact!' m" := (lift_err decimal m) (at level 10, m at level 9).

Definition fromNumber (z : Z) : result AssessmentError ExactDecimal := exact! (fromInteger (number z)).

(** [parse(left).compare(parse(right))] *)
Definition compare_texts (left right : string) : result AssessmentError Z :=
  l ← exact! (parse left); r ← exact! (parse right); exact! (compare l r).

Definition compare_number (d : ExactDecimal) (z : Z) : result AssessmentError Z :=
  n ← fromNumber z; exact! (compare d n).

(** ** One route *)

Definition fraction (numerator denominator : Z) : result AssessmentError string :=
  if denominator =? 0 then Ok "0" else
  n ← fromNumber numerator;
  d ← fromNumber denominator;
  q ← exact! (divide n d 6);
  Ok (toCanonical q).

Definition total_weight (criteria : list CircularityCriterion) : result AssessmentError ExactDecimal :=
  zero ← fromNumber 0;
  fold_result (fun total criterion =>
    w ← exact! (parse (weight criterion)); exact! (add total w)) zero criteria.

(** [total.add(weight.multiply(fromInteger(rating)))] *)
Definition add_weighted (total w : ExactDecimal) (r : Z) : result AssessmentError ExactDecimal :=
  n ← fromNumber r;
  product ← exact! (multiply w n);
  exact! (add total product).

Definition score_step (acc : ExactDecimal * ExactDecimal * bool) (criterion : CircularityCriterion) :
    result AssessmentError (ExactDecimal * ExactDecimal * bool) :=
  let '(lo, up, complete) := acc in
  w ← exact! (parse (weight criterion));
  lo' ← add_weighted lo w (default 1 (rating criterion));
  up' ← add_weighted up w (default 5 (rating criterion));
  Ok (lo', up', complete && bool_decide (is_Some (rating criterion))).

Definition normalize_score (weighted : ExactDecimal) : result AssessmentError ExactDecimal :=
  one ← fromNumber 1;
  d ← exact! (subtract weighted one);
  hundred ← fromNumber 100;
  p ← exact! (multiply d hundred);
  four ← fromNumber 4;
  exact! (divide p four 6).

Definition circularityScore (criteria : list CircularityCriterion) :
    result AssessmentError CircularityResult :=
  _ ← require (negb ((length criteria =? 0)%nat ||
         negb (set_size (criterion_id <$> criteria) =? Z.of_nat (length criteria)))) duplicate;
  totalWeight ← total_weight criteria;
  c ← compare_number totalWeight 1;
  _ ← require (c =? 0) weight_sum;
  zero ← fromNumber 0;
  scores ← fold_result score_step (zero, zero, true) criteria;
  let '(lo, up, complete) := (scores : ExactDecimal * ExactDecimal * bool) in
  nlo ← normalize_score lo;
  nup ← normalize_score up;
  let l := toCanonical nlo in
  Ok (mkCircularityResult l (toCanonical nup) (if complete then Some l else None)).

Section Locale.
Context `{LocaleCompare}.

Definition CategoryTotal := (ExactDecimal * string)%type.

Definition add_term (categories : list (string * CategoryTotal)) (term : EnvironmentalTerm) :
    result AssessmentError (list (string * CategoryTotal)) :=
  q ← exact! (parse (quantity term));
  f ← exact! (parse (factor term));
  contribution ← exact! (multiply q f);
  let prior := map_get (category term) categories in
  _ ← require (match prior with Some p => String.eqb p.2 (resultUnit term) | None => true end)
        unit_mismatch;
  zero ← fromNumber 0;
  signed ← (if recovered term then exact! (subtract zero contribution) else Ok contribution);
  total ← exact! (add (match prior with Some p => p.1 | None => zero end) signed);
  Ok (map_set (category term) (total, resultUnit term) categories).

Definition environmentalIndicators (terms : list EnvironmentalTerm) (unit_ : string) :
    result AssessmentError (list Indicator) :=
  divisor ← exact! (parse unit_);
  c ← compare_number divisor 0;
  _ ← require (negb (c <=? 0)) invalid_input;
  categories ← fold_result add_term [] terms;
  map_result (fun entry =>
      let '(cat, (total, u)) := entry in
      v ← exact! (divide total divisor 6);
      Ok (mkIndicator cat u (toCanonical v)))
    (js_sort (fun l r => localeCompare l.1 r.1) categories).

(** The loop that multiplies the discount factor [period] times. *)
Fixpoint discount (periods : nat) (denominator f : ExactDecimal) : result AssessmentError ExactDecimal :=
  match periods with
  | O => Ok denominator
  | S n => d ← exact! (multiply denominator f); discount n d f
  end.

Record EconomicLoop := mkEconomicLoop {
  npv : ExactDecimal;
  cumulative : ExactDecimal;
  payback : option Z
}.

Definition flow_step (rate : ExactDecimal) (st : EconomicLoop) (f : CashFlow) :
    result AssessmentError EconomicLoop :=
  _ ← require (negb (negb (isSafeInteger (period f)) || (period f <? 1))) invalid_input;
  one ← fromNumber 1;
  fac ← exact! (add one rate);
  denominator ← discount (Z.to_nat (period f)) one fac;
  a ← exact! (parse (amount f));
  q ← exact! (divide a denominator 18);
  npv' ← exact! (add (npv st) q);
  cumulative' ← exact! (add (cumulative st) a);
  payback' ← match payback st with
             | Some p => Ok (Some p)
             | None => c ← compare_number cumulative' 0;
                       Ok (if 0 <=? c then Some (period f) else None)
             end;
  Ok (mkEconomicLoop npv' cumulative' payback').

Definition economicResult (scenario : EconomicScenario) : result AssessmentError EconomicResult :=
  _ ← require (rtest (rx "^[A-Z]{3}$") (currency scenario)) currency_mismatch;
  rate ← exact! (parse (discountRate scenario));
  c ← compare_number rate (-1);
  _ ← require (negb (c <=? 0)) invalid_input;
  initial ← exact! (parse (initialInvestment scenario));
  let flows := js_sort (fun l r => number_cmp (period l) (period r)) (cashFlows scenario) in
  _ ← require (set_size (period <$> flows) =? Z.of_nat (length flows)) duplicate;
  st ← fold_result (flow_step rate) (mkEconomicLoop initial initial None) flows;
  n ← exact! (round (npv st) 2);
  Ok (mkEconomicResult (currency scenario) (toCanonical n) (payback st)).

Definition usable (item : EvidenceFieldState) : bool :=
  present item && authorized item && current item && negb (revoked item) && negb (conflicting item).

Definition count {X} (f : X -> bool) (l : list X) : Z := Z.of_nat (length (filter (fun x => f x = true) l)).

(** [usable.includes(item)] compares references; an item is among the usable ones
    exactly when it passes their filter. *)
Definition evidenceAdequacy (items : list EvidenceFieldState) : result AssessmentError AdequacyResult :=
  _ ← require (negb ((length items =? 0)%nat ||
         negb (set_size (field <$> items) =? Z.of_nat (length items)))) duplicate;
  let missing := sort_strings (field <$> filter (fun i => critical i && negb (usable i) = true) items) in
  let criticals := filter (fun i => critical i = true) items in
  let weakest :=
    if existsb (fun i => negb (usable i)) criticals then v_missing
    else if existsb (fun i => negb (verified i)) criticals then v_unverified else v_verified in
  let total := Z.of_nat (length items) in
  cov ← fraction (count usable items) total;
  ver ← fraction (count (fun i => usable i && verified i) items) total;
  fresh ← fraction (count current items) total;
  Ok (mkAdequacyResult cov ver fresh (count conflicting items) missing weakest).

(** The closure of [points.map] keeps the prior probability. *)
Fixpoint validate_points (prior : option ExactDecimal) (points : list PercentilePoint) :
    result AssessmentError (list PercentilePoint) :=
  match points with
  | [] => Ok []
  | point :: points =>
      probability ← exact! (parse (pp_probability point));
      c0 ← compare_number probability 0;
      _ ← require (negb (c0 <? 0)) invalid_input;
      c1 ← compare_number probability 1;
      _ ← require (negb (0 <? c1)) invalid_input;
      _ ← match prior with
          | Some p => c ← exact! (compare probability p); require (negb (c <=? 0)) invalid_input
          | None => Ok tt
          end;
      v ← exact! (parse (pp_value point));
      rest ← validate_points (Some probability) points;
      Ok (mkPercentilePoint (toCanonical probability) (toCanonical v) :: rest)
  end.

Definition validatePercentiles (points : list PercentilePoint) :
    result AssessmentError (list PercentilePoint) := validate_points None points.

Definition ranks_of (scenarios : list UncertaintyScenario) : list Z := omap routeRank scenarios.

Definition rank_stable (scenarios : list UncertaintyScenario) : bool :=
  let ranks := ranks_of scenarios in
  (count (fun s => bool_decide (scenario_gate s = PASS)) scenarios =? Z.of_nat (length scenarios)) &&
  (0 <? Z.of_nat (length ranks)) &&
  (length ranks =? length scenarios)%nat &&
  forallb (fun rank => bool_decide (Some rank = head ranks)) ranks.

Definition route_gate (input : RouteAssessmentInput) (adequacy : AdequacyResult) : Outcome :=
  match outcome (ruleEvaluation input) with
  | FAIL => FAIL
  | o => if bool_decide (o = UNKNOWN) || (0 <? Z.of_nat (length (missingCritical adequacy)))
         then UNKNOWN else PASS
  end.

Definition assessRoute (input : RouteAssessmentInput) : result AssessmentError RouteAssessmentResult :=
  adequacy ← evidenceAdequacy (evidence input);
  let criticalEvidenceUnknown := 0 <? Z.of_nat (length (missingCritical adequacy)) in
  let g := route_gate input adequacy in
  circ ← circularityScore (circularity input);
  env ← environmentalIndicators (environmental input) (functionalUnit input);
  econ ← economicResult (economics input);
  let scenarios := uncertaintyScenarios input in
  let passCount := count (fun s => bool_decide (scenario_gate s = PASS)) scenarios in
  frequency ← fraction passCount (Z.of_nat (length scenarios));
  pts ← validatePercentiles (default [] (uncertaintyPercentiles input));
  let stable := rank_stable scenarios in
  Ok (mkRouteAssessmentResult (routeId input) g circ env econ adequacy
        (mkUncertaintyResult frequency stable (Z.of_nat (length scenarios)) pts)
        (reasonCodes (ruleEvaluation input) ++
         (if criticalEvidenceUnknown then ["CRITICAL_EVIDENCE_UNKNOWN"] else []) ++
         (if bool_decide (g = FAIL) then ["TECHNICAL_GATE_FAILED"] else []) ++
         (if passCount <? Z.of_nat (length scenarios) then ["SCENARIO_GATE_NOT_PASSED"] else []) ++
         (if negb stable then ["RANK_UNSTABLE"] else []))).
End Locale.

(** ** Checks across routes *)

(** The units seen so far, by category. *)
Definition unit_step (units : list (string * string)) (indicator : Indicator) :
    result AssessmentError (list (string * string)) :=
  _ ← require (match map_get (ind_category indicator) units with
               | Some prior => String.eqb prior (ind_unit indicator)
               | None => true
               end) unit_mismatch;
  Ok (map_set (ind_category indicator) (ind_unit indicator) units).

Definition validateEnvironmentalResultUnits (results : list RouteAssessmentResult) :
    result AssessmentError unit :=
  _ ← fold_result (fold_result unit_step) [] (I <$> results); Ok tt.

Definition scenario_set (input : RouteAssessmentInput) : result AssessmentError (list string) :=
  let ids := scenario_id <$> uncertaintyScenarios input in
  _ ← require (set_size ids =? Z.of_nat (length ids)) duplicate;
  Ok (sort_strings ids).

(** The rank a route gives a scenario, [undefined] when it has none. *)
Definition rank_in (scenarioId : string) (input : RouteAssessmentInput) : option Z :=
  s ← List.find (fun s => String.eqb (scenario_id s) scenarioId) (uncertaintyScenarios input);
  routeRank s.

(** [ordered.some((rank, index) => rank !== index + 1)] *)
Fixpoint consecutive (next : Z) (ordered : list Z) : bool :=
  match ordered with
  | [] => true
  | rank :: ordered => (rank =? next) && consecutive (next + 1) ordered
  end.

Definition check_scenario (inputs : list RouteAssessmentInput) (scenarioId : string) :
    result AssessmentError unit :=
  match mapM (rank_in scenarioId) inputs with
  | None => Ok tt
  | Some ranks => require (consecutive 1 (js_sort number_cmp ranks)) invalid_input
  end.

Definition validateUncertaintyScenarioComparability (inputs : list RouteAssessmentInput) :
    result AssessmentError unit :=
  sets ← map_result scenario_set inputs;
  let reference := default [] (head sets) in
  _ ← require (forallb (fun ids => bool_decide (ids = reference)) sets) scenario_mismatch;
  for_each (check_scenario inputs) reference.

Definition check_rank (s : UncertaintyScenario) : result AssessmentError unit :=
  match routeRank s with
  | None => Ok tt
  | Some rank =>
      _ ← require (negb (negb (isSafeInteger rank) || (rank <=? 0))) invalid_input;
      require (bool_decide (scenario_gate s = PASS)) invalid_input
  end.

Definition validateUncertaintyScenarioRankValues (inputs : list RouteAssessmentInput) :
    result AssessmentError unit :=
  for_each (fun input => for_each check_rank (uncertaintyScenarios input)) inputs.

Definition categories_of (r : RouteAssessmentResult) : list string := ind_category <$> I r.

Definition environmentalCategoriesSharedBy (results : list RouteAssessmentResult) : list string :=
  match results with
  | [] => []
  | first :: rest =>
      sort_strings (fold_left (fun shared route => filter (fun c => c ∈ categories_of route) shared)
        rest (set_of (categories_of first)))
  end.

Definition hasNonSharedEnvironmentalCategories (results : list RouteAssessmentResult)
    (shared : list string) : bool :=
  Z.of_nat (length shared) <? set_size (results ≫= categories_of).

(** [new Map(I.filter(shared).map(...))] *)
Definition impact_step (shared : list string) (m : list (string * ExactDecimal)) (i : Indicator) :
    result AssessmentError (list (string * ExactDecimal)) :=
  if includes (ind_category i) shared then
    v ← exact! (parse (ind_value i)); Ok (map_set (ind_category i) v m)
  else Ok m.

Definition impacts (shared : list string) (r : RouteAssessmentResult) :
    result AssessmentError (list (string * ExactDecimal)) :=
  fold_result (impact_step shared) [] (I r).

Definition comparisons (shared : list string) (left right : RouteAssessmentResult) :
    result AssessmentError (list Z) :=
  leftImpacts ← impacts shared left;
  rightImpacts ← impacts shared right;
  c ← compare_texts (lower (C left)) (lower (C right));
  a ← compare_texts (coverage (A left)) (coverage (A right));
  e ← compare_texts (netPresentValue (E left)) (netPresentValue (E right));
  is_ ← map_result (fun category =>
      l ← defined (map_get category leftImpacts) type_error;
      r ← defined (map_get category rightImpacts) type_error;
      d ← exact! (compare l r);
      Ok (- d)) shared;
  Ok (c :: a :: e :: is_).

Definition dominates (values : list Z) : bool :=
  forallb (fun value => 0 <=? value) values && existsb (fun value => 0 <? value) values.

Definition dominance_step (shared : list string) (left : RouteAssessmentResult)
    (pairs : list Dominance) (right : RouteAssessmentResult) : result AssessmentError (list Dominance) :=
  if bool_decide (result_routeId left = result_routeId right) ||
     negb (bool_decide (G left = PASS)) || negb (bool_decide (G right = PASS))
  then Ok pairs else
  values ← comparisons shared left right;
  Ok (if dominates values
      then pairs ++ [mkDominance (result_routeId left) (result_routeId right)] else pairs).

Definition paretoDominance (results : list RouteAssessmentResult) (shared : list string) :
    result AssessmentError (list Dominance) :=
  fold_result (fun pairs left => fold_result (dominance_step shared left) pairs results) [] results.

(** ** [assess] *)

(** What [routeCalculationInputsDigest] and the reproduction hash are computed from. *)
Record Reproduction := mkReproduction {
  rp_basis : AssessmentInputPayload;
  rp_routeInputs : list RouteAssessmentInput;
  rp_unsigned : UnsignedResult
}.

Section Assess.
Context `{LocaleCompare} {HI : CanonicalHash (list RouteAssessmentInput)} {HR : CanonicalHash Reproduction}.

Definition routeCalculationInputsDigest (inputs : list RouteAssessmentInput) : Digest :=
  canonical_hash inputs.

Definition route_list (basis : AssessmentInputPayload) : list RouteContext :=
  let '(c1, c2, c3) := candidate_routes basis in [c1; c2; c3].

Definition check_unit (reference : DecimalQuantity) (p : RouteContext * RouteAssessmentInput) :
    result AssessmentError unit :=
  let '(context, input) := p in
  let declared := rc_functional_unit context in
  c1 ← compare_texts (dq_value declared) (functionalUnit input);
  differs ← (if negb (c1 =? 0) then Ok true else
             c2 ← compare_texts (dq_value declared) (dq_value reference); Ok (negb (c2 =? 0)));
  _ ← require (negb differs) functional_unit_mismatch;
  require (negb (negb (String.eqb (dq_unit_id declared) (dq_unit_id reference)) ||
                 negb (dq_unit_version declared =? dq_unit_version reference))) unit_mismatch.

(** The checks that precede the evaluation of the routes. *)
Definition check_basis (basis : AssessmentInputPayload) (inputs : list RouteAssessmentInput) :
    result AssessmentError unit :=
  _ ← require (assessmentInputPayload basis) schema_mismatch;
  _ ← require (bool_decide (routeId <$> inputs = FORMAL_ROUTES) &&
               bool_decide (rc_route_id <$> route_list basis = route_text <$> FORMAL_ROUTES))
        route_mismatch;
  let reference := rc_functional_unit (candidate_routes basis).1.1 in
  _ ← for_each (check_unit reference) (zip (route_list basis) inputs);
  _ ← require (bool_decide (calculation_inputs_digest basis = routeCalculationInputsDigest inputs))
        calculation_input_mismatch;
  _ ← require (set_size ((fun i => currency (economics i)) <$> inputs) =? 1) currency_mismatch;
  validateUncertaintyScenarioRankValues inputs.

(** The routes whose result passes, in their order. *)
Definition passing (results : list RouteAssessmentResult) : list RouteAssessmentResult :=
  filter (fun r => G r = PASS) results.

Definition passing_inputs (inputs : list RouteAssessmentInput) (results : list RouteAssessmentResult) :
    list RouteAssessmentInput :=
  (filter (fun p => G p.2 = PASS) (zip inputs results)).*1.

Definition always_first (p : RouteAssessmentInput * RouteAssessmentResult) : bool :=
  let ranks := ranks_of (uncertaintyScenarios p.1) in
  bool_decide (G p.2 = PASS) && (0 <? Z.of_nat (length ranks)) && forallb (fun rank => rank =? 1) ranks.

(** The only route ranked first in every scenario, when there is exactly one. *)
Definition stableWinner (inputs : list RouteAssessmentInput) (results : list RouteAssessmentResult) :
    option FormalRoute :=
  match filter (fun p => always_first p = true) (zip inputs results) with
  | [p] => Some (result_routeId p.2)
  | _ => None
  end.

Definition undominated (dominance : list Dominance) (results : list RouteAssessmentResult) :
    list RouteAssessmentResult :=
  filter (fun r => result_routeId r ∉ dominated <$> dominance) (passing results).

Definition uniquelySupportedWinner (shared_basis : bool) (winner : option FormalRoute)
    (undominatedPassRoutes : list RouteAssessmentResult) : option FormalRoute :=
  match winner, undominatedPassRoutes with
  | Some w, [r] => if shared_basis && bool_decide (result_routeId r = w) then Some w else None
  | _, _ => None
  end.

Definition critical_conflict (inputs : list RouteAssessmentInput) : bool :=
  existsb (fun i => existsb (fun e => conflicting e && critical e) (evidence i)) inputs.

(** From the results to the decision. *)
Definition decide_routes (basis : AssessmentInputPayload) (inputs : list RouteAssessmentInput)
    (results : list RouteAssessmentResult) : result AssessmentError UnsignedResult :=
  let passResults := passing results in
  _ ← validateUncertaintyScenarioComparability (passing_inputs inputs results);
  let shared := environmentalCategoriesSharedBy passResults in
  let hasSharedBasis := (length passResults <=? 1)%nat || (0 <? Z.of_nat (length shared)) in
  let excludes := hasNonSharedEnvironmentalCategories passResults shared in
  let allRanksStable := forallb (fun r => rankStable (U r)) passResults in
  let winner := stableWinner inputs results in
  pairs ← (if hasSharedBasis then paretoDominance results shared else Ok []);
  let supported := uniquelySupportedWinner hasSharedBasis winner (undominated pairs results) in
  let hasUnknown := existsb (fun r => bool_decide (G r = UNKNOWN)) results in
  let conflict := critical_conflict inputs in
  let state :=
    if conflict then requires_external_decision
    else if hasUnknown || negb allRanksStable || bool_decide (supported = None) then abstain
    else answer in
  Ok (mkUnsignedResult (assessment_input_id basis) (assessment_input_version basis) state
        (if bool_decide (state = answer) then supported else None) pairs results
        ((if hasUnknown then ["MISSING_OR_INSUFFICIENT_CRITICAL_EVIDENCE"] else []) ++
         (if negb allRanksStable || bool_decide (winner = None) then ["ROUTE_RANK_UNSTABLE"] else []) ++
         (if bool_decide (is_Some winner) && bool_decide (supported = None)
          then ["ROUTE_NOT_UNIQUELY_PARETO_SUPPORTED"] else []) ++
         (if negb hasSharedBasis then ["NO_SHARED_ENVIRONMENTAL_CATEGORY"] else []) ++
         (if excludes then ["NON_SHARED_ENVIRONMENTAL_CATEGORIES_EXCLUDED"] else []) ++
         (if conflict then ["CRITICAL_EVIDENCE_CONFLICT"] else []))).

Definition assess (basis : AssessmentInputPayload) (inputs : list RouteAssessmentInput) :
    result AssessmentError AssessmentResult :=
  _ ← check_basis basis inputs;
  results ← map_result assessRoute inputs;
  _ ← validateEnvironmentalResultUnits results;
  u ← decide_routes basis inputs results;
  Ok (mkAssessmentResult u (canonical_hash (mkReproduction basis inputs u))).
End Assess.

(** ** Values of texts *)

#[local] Instance Q_rewriting : DefaultRelation Qeq := {}.

Lemma exact_lift {X} (m : result DecimalError X) x : exact! m = Ok x <-> m = Ok x.
Proof. destruct m; simpl; split; congruence. Qed.

(** The value of a canonical text. *)
Definition text_Q (s : string) : Q := match parse s with Ok d => to_Q d | Throw _ => 0%Q end.

Lemma text_Q_parse s d : parse s = Ok d -> text_Q s = to_Q d.
Proof. unfold text_Q. by intros ->. Qed.

(** [s] prints [q] rounded half to even to [k] fraction digits. *)
Definition rounds_to (s : string) (k : Z) (q : Q) : Prop :=
  exists d n, canonical d /\ s = toCanonical d /\
    nearest_even n (q * inject_Z (10 ^ k)) /\ (to_Q d == inject_Z n / inject_Z (10 ^ k))%Q.

#[global] Instance rounds_to_proper s k : Proper (Qeq ==> iff) (rounds_to s k).
Proof.
  intros q q' Hq. unfold rounds_to. split; intros (d & n & H1 & H2 & H3 & H4); exists d, n;
    (split; [done|split; [done|split; [|done]]]); by rewrite ?Hq, <- ?Hq in *.
Qed.

Lemma fromNumber_small z : Z.abs z <= MAX_SAFE_INTEGER -> fromNumber z = Ok (mkDecimal z 0).
Proof. intros H. unfold fromNumber. rewrite fromInteger_exact; [done|]. unfold isSafeInteger. lia. Qed.

Lemma fromNumber_Ok z d : fromNumber z = Ok d -> d = mkDecimal z 0 /\ canonical d.
Proof.
  intros H. unfold fromNumber in H. apply exact_lift in H. destruct (isSafeInteger z) eqn:Hz.
  - rewrite fromInteger_exact in H by done. injection H as <-. split; [done|].
    split; [by left|]. unfold isSafeInteger, MAX_SAFE_INTEGER in Hz. simpl. lia.
  - unfold fromInteger in H. by rewrite Hz in H.
Qed.

Lemma to_Q_integer z : (to_Q (mkDecimal z 0) == inject_Z z)%Q.
Proof. unfold to_Q. cbn [coefficient scale]. change (inject_Z (10 ^ Z.of_nat 0)) with 1%Q. field. Qed.

Lemma parse_canonical s d : parse s = Ok d -> canonical d.
Proof. intros H%parse_bounded. apply H. Qed.

Lemma exact_Ok r q d : exact r q -> r = Ok d -> canonical d /\ (to_Q d == q)%Q.
Proof. by intros H ->. Qed.

Lemma add_Ok a b d : exact! (add a b) = Ok d -> canonical d /\ (to_Q d == to_Q a + to_Q b)%Q.
Proof. intros H%exact_lift. eapply exact_Ok; [apply add_exact_spec|done]. Qed.

Lemma subtract_Ok a b d :
  canonical b -> exact! (subtract a b) = Ok d -> canonical d /\ (to_Q d == to_Q a - to_Q b)%Q.
Proof. intros Hb H%exact_lift. eapply exact_Ok; [by apply subtract_exact_spec|done]. Qed.

Lemma multiply_Ok a b d :
  exact! (multiply a b) = Ok d -> canonical d /\ (to_Q d == to_Q a * to_Q b)%Q.
Proof. intros H%exact_lift. eapply exact_Ok; [apply multiply_exact_spec|done]. Qed.

Lemma divide_Ok a b k d :
  exact! (divide a b k) = Ok d ->
  ~ (to_Q b == 0)%Q /\ rounds_to (toCanonical d) k (to_Q a / to_Q b).
Proof.
  intros H%exact_lift. destruct (divide_correct a b k) as (H0 & H1 & H2).
  destruct (Z.eq_dec (coefficient b) 0) as [Hb|Hb]; [rewrite H0 in H by done; done|].
  destruct (decide (0 <= k <= 18)) as [Hk|Hk]; [|rewrite H1 in H by done; done].
  destruct (H2 Hb Hk) as (n & Hn & He). rewrite H in He. destruct He as [Hd He]. split.
  - rewrite Qeq_alt. rewrite to_Q_sign. by destruct (Z.compare_spec (coefficient b) 0).
  - by exists d, n.
Qed.

(** [compare] succeeds or overflows; its result is the sign of the difference. *)
Lemma compare_Ok a b z :
  canonical b -> exact! (compare a b) = Ok z -> z = sign_of (to_Q a ?= to_Q b)%Q.
Proof.
  intros Hb H%exact_lift. unfold compare in H. apply bind_Ok in H as (d & Hd & [= <-]).
  pose proof (subtract_exact_spec a b Hb) as He. rewrite Hd in He. destruct He as [_ He].
  assert ((to_Q a ?= to_Q b)%Q = (coefficient d ?= 0)%Z) as ->.
  { rewrite <- to_Q_sign, He. generalize (to_Q a) (to_Q b). clear. intros qa qb.
    destruct (Qcompare_spec qa qb) as [H|H|H]; symmetry.
    - rewrite <- Qeq_alt, H. ring.
    - rewrite <- Qlt_alt. rewrite Qlt_minus_iff in H |- *. by setoid_replace (0 + - (qa - qb))%Q with (qb + - qa)%Q by ring.
    - rewrite <- Qgt_alt. rewrite Qlt_minus_iff in H |- *. by setoid_replace (qa - qb + - 0)%Q with (qa + - qb)%Q by ring. }
  destruct (Z.compare_spec (coefficient d) 0); simpl; destruct (Z.ltb_spec (coefficient d) 0),
    (Z.ltb_spec 0 (coefficient d)); lia.
Qed.

Lemma sign_of_nonneg c : 0 <= sign_of c <-> c <> Lt.
Proof. destruct c; simpl; split; done || lia. Qed.

Lemma sign_le x y : sign_of (x ?= y)%Q <= 0 <-> (x <= y)%Q.
Proof. rewrite Qle_alt. destruct (x ?= y)%Q; simpl; split; (done || lia). Qed.

Lemma sign_ge x y : 0 <= sign_of (x ?= y)%Q <-> (y <= x)%Q.
Proof. rewrite Qge_alt. destruct (x ?= y)%Q; simpl; split; (done || lia). Qed.

Lemma sign_lt x y : sign_of (x ?= y)%Q < 0 <-> (x < y)%Q.
Proof. rewrite Qlt_alt. destruct (x ?= y)%Q; simpl; split; (done || lia). Qed.

Lemma sign_gt x y : 0 < sign_of (x ?= y)%Q <-> (y < x)%Q.
Proof. rewrite Qgt_alt. destruct (x ?= y)%Q; simpl; split; (done || lia). Qed.

Lemma compare_number_Ok d z c :
  compare_number d z = Ok c -> c = sign_of (to_Q d ?= inject_Z z)%Q.
Proof.
  unfold compare_number. intros (n & [-> Hn]%fromNumber_Ok & H)%bind_Ok.
  apply compare_Ok in H; [|done]. by rewrite to_Q_integer in H.
Qed.

Lemma compare_texts_Ok l r c :
  compare_texts l r = Ok c -> c = sign_of (text_Q l ?= text_Q r)%Q.
Proof.
  unfold compare_texts. intros (a & Ha%exact_lift & (b & Hb%exact_lift & H)%bind_Ok)%bind_Ok.
  apply compare_Ok in H; [|by eapply parse_canonical].
  by rewrite (text_Q_parse l a Ha), (text_Q_parse r b Hb).
Qed.

Definition sum_Q (l : list Q) : Q := fold_right Qplus 0%Q l.

Lemma sum_Q_snoc l x : (sum_Q (l ++ [x]) == sum_Q l + x)%Q.
Proof. induction l as [|y l IH]; simpl; [ring|]. rewrite IH. ring. Qed.

Lemma sum_Q_map_snoc {X} (f : X -> Q) l x : (sum_Q (f <$> l ++ [x]) == sum_Q (f <$> l) + f x)%Q.
Proof. rewrite fmap_app. apply sum_Q_snoc. Qed.

Lemma sum_Q_le {X} (f g : X -> Q) l :
  (forall x, x ∈ l -> f x <= g x)%Q -> (sum_Q (f <$> l) <= sum_Q (g <$> l))%Q.
Proof.
  induction l as [|x l IH]; intros H; csimpl; [done|].
  apply Qplus_le_compat; [apply H; by left|]. apply IH. intros y Hy. apply H. by right.
Qed.

Lemma sum_Q_scale {X} (f : X -> Q) c l : (sum_Q ((fun x => f x * c)%Q <$> l) == sum_Q (f <$> l) * c)%Q.
Proof. induction l as [|x l IH]; csimpl; [ring|]. rewrite IH. ring. Qed.

(** ** Rounding is monotone *)

Lemma nearest_even_mono n m x y : nearest_even n x -> nearest_even m y -> (x <= y)%Q -> n <= m.
Proof.
  intros Hn Hm Hxy. destruct (Z.le_gt_cases n m) as [|Hlt]; [done|].
  pose proof Hn as [Hn1 _]. pose proof Hm as [Hm1 _]. rewrite Qabs_Qle_condition in Hn1, Hm1.
  assert (inject_Z m + 1 <= inject_Z n)%Q as Hz.
  { change 1%Q with (inject_Z 1). rewrite <- inject_Z_plus, <- Zle_Qle. lia. }
  assert (x == y)%Q as Hq by (apply Qle_antisym; [done|lra]).
  rewrite Hq in Hn. assert (n = m) by (eapply nearest_even_unique; done). lia.
Qed.

Lemma nearest_even_integer n : nearest_even n (inject_Z n).
Proof.
  unfold nearest_even. setoid_replace (inject_Z n - inject_Z n)%Q with 0%Q by ring.
  split; [done|]. intros H. done.
Qed.

(** [create] never lengthens its operands. *)
Lemma create_shrinks c s d :
  create c s = Ok d -> (scale d <= s)%nat /\ Z.abs (coefficient d) <= Z.abs c.
Proof.
  unfold create. pose proof (normalize_spec c s) as H. destruct (normalize c s) as [n ns].
  destruct H as (Hv & _ & Hle). destruct (80 <? _)%nat; [done|]. intros [= <-]. simpl. split; [done|].
  replace (Z.of_nat s) with (Z.of_nat ns + Z.of_nat (s - ns)) in Hv by lia.
  rewrite Z.pow_add_r, (Z.mul_comm (10 ^ Z.of_nat ns)), Z.mul_assoc in Hv by lia.
  pose proof (pow10_pos (Z.of_nat ns) ltac:(lia)) as Hp. apply Z.mul_cancel_r in Hv; [|lia].
  pose proof (pow10_pos (Z.of_nat (s - ns)) ltac:(lia)). nia.
Qed.

Lemma rounds_to_text s k q :
  0 <= k <= 18 -> (Qabs q <= inject_Z (10 ^ 19))%Q -> rounds_to s k q ->
  exists n, nearest_even n (q * inject_Z (10 ^ k)) /\ (text_Q s == inject_Z n / inject_Z (10 ^ k))%Q.
Proof.
  intros Hk Hq (d & n & Hd & -> & Hn & Hv). exists n. split; [done|]. rewrite <- Hv.
  assert (Z.abs n < 10 ^ 38) as Hsmall.
  { pose proof (pow10_pos k ltac:(lia)) as Hp. assert (10 ^ k <= 10 ^ 18) by (apply Z.pow_le_mono_r; lia).
    apply Qabs_Qle_condition in Hq as [Hq1 Hq2].
    assert (forall b, (q <= inject_Z b)%Q -> n <= b * 10 ^ k) as Hup.
    { intros b Hb. eapply (nearest_even_mono _ _ _ _ Hn); [apply nearest_even_integer|].
      rewrite inject_Z_mult. apply Qmult_le_compat_r; [done|].
      change 0%Q with (inject_Z 0). rewrite <- Zle_Qle. lia. }
    assert (forall b, (inject_Z b <= q)%Q -> b * 10 ^ k <= n) as Hlo.
    { intros b Hb. eapply (nearest_even_mono _ _ _ _ (nearest_even_integer _) Hn).
      rewrite inject_Z_mult. apply Qmult_le_compat_r; [done|].
      change 0%Q with (inject_Z 0). rewrite <- Zle_Qle. lia. }
    specialize (Hup _ Hq2). rewrite <- inject_Z_opp in Hq1. specialize (Hlo _ Hq1). nia. }
  destruct (create_small n (Z.to_nat k)) as [d' Hd']; [lia|].
  destruct (create_shrinks _ _ _ Hd') as [Hs Hc]. pose proof (create_exact_Z n k ltac:(lia)) as He.
  rewrite Hd' in He. destruct He as [Hcan He].
  assert (d = d') as -> by (apply canonical_unique; [done..|by rewrite Hv, He]).
  rewrite (text_Q_parse _ d'); [done|]. apply parse_toCanonical. split; [|done].
  split; [done|]. split; lia.
Qed.

(** ** Circularity *)

Definition weight_Q (c : CircularityCriterion) : Q := text_Q (weight c).

(** The weighted rating, an absent rating counting as [d]. *)
Definition rated (d : Z) (c : CircularityCriterion) : Q :=
  (weight_Q c * inject_Z (default d (rating c)))%Q.

Lemma total_weight_Ok criteria d :
  total_weight criteria = Ok d -> (to_Q d == sum_Q (weight_Q <$> criteria))%Q.
Proof.
  unfold total_weight. intros (zero & [-> _]%fromNumber_Ok & H)%bind_Ok.
  apply (fold_result_inv _ (fun done_ t => (to_Q t == sum_Q (weight_Q <$> done_))%Q)) in H; [done|done|].
  intros done_ t c t' Ht (w & Hw%exact_lift & Ha)%bind_Ok. apply add_Ok in Ha as [_ Ha].
  rewrite sum_Q_map_snoc, Ha, Ht. unfold weight_Q at 3. by rewrite (text_Q_parse _ _ Hw).
Qed.

Lemma add_weighted_Ok t w r t' :
  add_weighted t w r = Ok t' -> canonical t' /\ (to_Q t' == to_Q t + to_Q w * inject_Z r)%Q.
Proof.
  unfold add_weighted. intros (n & [-> _]%fromNumber_Ok & (p & [_ Hp]%multiply_Ok & [Hc Ha]%add_Ok)%bind_Ok)%bind_Ok.
  split; [done|]. by rewrite Ha, Hp, to_Q_integer.
Qed.

Definition scored (done_ : list CircularityCriterion) (acc : ExactDecimal * ExactDecimal * bool) : Prop :=
  canonical acc.1.1 /\ canonical acc.1.2 /\
  (to_Q acc.1.1 == sum_Q (rated 1 <$> done_))%Q /\ (to_Q acc.1.2 == sum_Q (rated 5 <$> done_))%Q /\
  (acc.2 = true <-> Forall (fun c => is_Some (rating c)) done_).

Lemma score_step_inv done_ acc c acc' :
  scored done_ acc -> score_step acc c = Ok acc' -> scored (done_ ++ [c]) acc'.
Proof.
  destruct acc as [[lo up] b]. intros (_ & _ & Hlo & Hup & Hb). unfold score_step.
  intros (w & Hw%exact_lift & (lo' & [Hc1 H1]%add_weighted_Ok & (up' & [Hc2 H2]%add_weighted_Ok & [= <-])%bind_Ok)%bind_Ok)%bind_Ok.
  simpl in *. split; [done|]. split; [done|]. rewrite !sum_Q_map_snoc, H1, H2, Hlo, Hup.
  assert (weight_Q c = to_Q w) as Hwq by by apply text_Q_parse.
  split; [unfold rated at 3; by rewrite Hwq|]. split; [unfold rated at 3; by rewrite Hwq|].
  cbn [snd]. rewrite andb_true_iff, bool_decide_eq_true, Forall_app, Forall_singleton, Hb. done.
Qed.

Lemma normalize_score_Ok w d :
  normalize_score w = Ok d -> rounds_to (toCanonical d) 6 ((to_Q w - 1) * 25).
Proof.
  unfold normalize_score.
  intros (one & [-> Hone]%fromNumber_Ok & (d1 & H1 & (h & [-> _]%fromNumber_Ok & (p & [_ Hp]%multiply_Ok &
    (four & [-> _]%fromNumber_Ok & [_ H]%divide_Ok)%bind_Ok)%bind_Ok)%bind_Ok)%bind_Ok)%bind_Ok.
  apply subtract_Ok in H1 as [_ H1]; [|done]. eapply rounds_to_proper; [|exact H].
  rewrite Hp, H1, !to_Q_integer. unfold inject_Z. field.
Qed.

Lemma circularityScore_Ok criteria r :
  circularityScore criteria = Ok r ->
  NoDup (criterion_id <$> criteria) /\ criteria <> [] /\
  (sum_Q (weight_Q <$> criteria) == 1)%Q /\
  rounds_to (lower r) 6 ((sum_Q (rated 1 <$> criteria) - 1) * 25) /\
  rounds_to (upper r) 6 ((sum_Q (rated 5 <$> criteria) - 1) * 25) /\
  complete_value r = (if decide (Forall (fun c => is_Some (rating c)) criteria) then Some (lower r) else None).
Proof.
  unfold circularityScore. intros H. apply bind_Ok in H as (u & Hreq%require_Ok & H).
  apply bind_Ok in H as (t & Ht%total_weight_Ok & H). apply bind_Ok in H as (c & Hc%compare_number_Ok & H).
  apply bind_Ok in H as (u' & Hz%require_Ok & H). apply bind_Ok in H as (zero & [-> Hcz]%fromNumber_Ok & H).
  apply bind_Ok in H as ([[lo up] b] & Hs & H).
  apply (fold_result_inv _ scored) in Hs;
    [|split; [done|split; [done|]]; by repeat split|apply score_step_inv].
  destruct Hs as (_ & _ & Hlo & Hup & Hb). simpl in *.
  apply bind_Ok in H as (nlo & Hnlo%normalize_score_Ok & H).
  apply bind_Ok in H as (nup & Hnup%normalize_score_Ok & [= <-]). simpl.
  rewrite negb_true_iff, orb_false_iff, negb_false_iff, Nat.eqb_neq, Z.eqb_eq in Hreq.
  destruct Hreq as [Hne Hnd]. rewrite <- (length_fmap criterion_id) in Hnd. apply set_size_NoDup in Hnd.
  split; [done|]. split; [by intros ->|]. split.
  { rewrite <- Ht. apply Z.eqb_eq in Hz. rewrite Hz in Hc. apply Qeq_alt.
    change 1%Q with (inject_Z 1). by destruct (to_Q t ?= inject_Z 1)%Q. }
  rewrite <- Hlo, <- Hup. split; [done|]. split; [done|].
  destruct b; case_decide as Hd; first [done|by destruct Hd; apply Hb|by apply Hb in Hd].
Qed.

(** Ratings between 1 and 5 and nonnegative weights. *)
Definition well_rated (c : CircularityCriterion) : Prop :=
  (0 <= weight_Q c)%Q /\ match rating c with Some r => 1 <= r <= 5 | None => True end.

Lemma rated_bounds (d : Z) c :
  well_rated c -> 1 <= d <= 5 -> (weight_Q c <= rated d c)%Q /\ (rated d c <= weight_Q c * 5)%Q.
Proof.
  intros [Hw Hr] Hd. unfold rated. assert (1 <= default d (rating c) <= 5) as [H1 H2] by by destruct (rating c).
  rewrite Zle_Qle in H1, H2. change (inject_Z 1) with 1%Q in H1. change (inject_Z 5) with 5%Q in H2.
  split; rewrite !(Qmult_comm (weight_Q c)).
  - rewrite <- (Qmult_1_l (weight_Q c)) at 1. by apply Qmult_le_compat_r.
  - by apply Qmult_le_compat_r.
Qed.

Lemma rated_mono c : well_rated c -> (rated 1 c <= rated 5 c)%Q.
Proof.
  intros [Hw Hr]. unfold rated. rewrite !(Qmult_comm (weight_Q c)). apply Qmult_le_compat_r; [|done].
  rewrite <- Zle_Qle. destruct (rating c); simpl; lia.
Qed.

Lemma score_bounds criteria (d : Z) :
  Forall well_rated criteria -> (sum_Q (weight_Q <$> criteria) == 1)%Q -> 1 <= d <= 5 ->
  (0 <= (sum_Q (rated d <$> criteria) - 1) * 25 <= 100)%Q.
Proof.
  intros Hw Hs Hd. rewrite Forall_forall in Hw.
  assert (sum_Q (weight_Q <$> criteria) <= sum_Q (rated d <$> criteria))%Q as H1.
  { apply sum_Q_le. intros c Hc. by apply rated_bounds; [apply Hw|]. }
  assert (sum_Q (rated d <$> criteria) <= sum_Q ((fun c => weight_Q c * 5)%Q <$> criteria))%Q as H2.
  { apply sum_Q_le. intros c Hc. by apply rated_bounds; [apply Hw|]. }
  rewrite sum_Q_scale, Hs in H2. rewrite Hs in H1. split; lra.
Qed.

(** ** Evidence adequacy *)

Lemma fraction_Ok n d s :
  0 < d -> fraction n d = Ok s -> rounds_to s 6 (inject_Z n / inject_Z d).
Proof.
  intros Hd. unfold fraction. destruct (Z.eqb_spec d 0); [lia|].
  intros (a & [-> _]%fromNumber_Ok & (b & [-> _]%fromNumber_Ok & (q & [_ Hq]%divide_Ok & [= <-])%bind_Ok)%bind_Ok)%bind_Ok.
  by rewrite !to_Q_integer in Hq.
Qed.

(** The critical items that are not usable. *)
Definition lacking (items : list EvidenceFieldState) (i : EvidenceFieldState) : Prop :=
  i ∈ items /\ critical i = true /\ usable i = false.

Lemma missing_critical_spec items f :
  f ∈ sort_strings (field <$> filter (fun i => critical i && negb (usable i) = true) items) <->
  exists i, lacking items i /\ field i = f.
Proof.
  unfold sort_strings. rewrite js_sort_elem_of, list_elem_of_fmap. unfold lacking. split.
  - intros (i & -> & Hi). apply list_elem_of_filter in Hi as [Hc Hi].
    rewrite andb_true_iff, negb_true_iff in Hc. exists i. by destruct Hc.
  - intros (i & (Hi & Hc & Hu) & <-). exists i. split; [done|]. apply list_elem_of_filter.
    by rewrite Hc, Hu.
Qed.

Lemma evidenceAdequacy_Ok items r :
  evidenceAdequacy items = Ok r ->
  items <> [] /\ NoDup (field <$> items) /\
  rounds_to (coverage r) 6 (inject_Z (count usable items) / inject_Z (Z.of_nat (length items))) /\
  (forall f, f ∈ missingCritical r <-> exists i, lacking items i /\ field i = f) /\
  (weakestCriticalVerification r = v_missing <-> exists i, lacking items i) /\
  (weakestCriticalVerification r = v_verified <->
     forall i, i ∈ items -> critical i = true -> usable i = true /\ verified i = true).
Proof.
  unfold evidenceAdequacy. intros (u & Hreq%require_Ok & H)%bind_Ok.
  apply bind_Ok in H as (cov & Hcov & (ver & _ & (fr & _ & [= <-])%bind_Ok)%bind_Ok). simpl.
  rewrite negb_true_iff, orb_false_iff, negb_false_iff, Nat.eqb_neq, Z.eqb_eq in Hreq.
  destruct Hreq as [Hne Hnd]. rewrite <- (length_fmap field) in Hnd. apply set_size_NoDup in Hnd.
  split; [by intros ->|]. split; [done|]. split; [apply fraction_Ok; [lia|done]|].
  split; [apply missing_critical_spec|].
  set (crit := filter (fun i => critical i = true) items).
  assert (forall i, i ∈ crit <-> critical i = true /\ i ∈ items) as Hcrit 
    by (intros i; unfold crit; by rewrite list_elem_of_filter).
  assert (existsb (fun i => negb (usable i)) crit = true <-> exists i, lacking items i) as Hl.
  { rewrite existsb_exists. unfold lacking. setoid_rewrite <- list_elem_of_In. setoid_rewrite Hcrit.
    setoid_rewrite negb_true_iff. split; intros (i & Hi); exists i; tauto. }
  assert (existsb (fun i => negb (verified i)) crit = true <->
          exists i, i ∈ items /\ critical i = true /\ verified i = false) as Hv.
  { rewrite existsb_exists. setoid_rewrite <- list_elem_of_In. setoid_rewrite Hcrit.
    setoid_rewrite negb_true_iff. split; intros (i & Hi); exists i; tauto. }
  destruct (existsb (fun i => negb (usable i)) crit).
  - split; [tauto|]. split; [done|]. destruct (proj1 Hl eq_refl) as (i & Hi & Hc & Hu).
    intros Hall. destruct (Hall i Hi Hc). congruence.
  - assert (forall i, i ∈ items -> critical i = true -> usable i = true) as Hus.
    { intros i Hi Hc. destruct (usable i) eqn:Hu; [done|]. destruct (proj2 Hl); [by exists i|done]. }
    destruct (existsb (fun i => negb (verified i)) crit); (split; [split; [done|]; intros He; by apply Hl in He|]).
    + split; [done|]. destruct (proj1 Hv eq_refl) as (i & Hi & Hc & Hu). intros Hall.
      destruct (Hall i Hi Hc). congruence.
    + split; [|done]. intros _ i Hi Hc. split; [by apply Hus|].
      destruct (verified i) eqn:Hu; [done|]. destruct (proj2 Hv); [by exists i|done].
Qed.

(** ** Percentiles *)

(** Increasing from [prior] on, within [0,1]. *)
Fixpoint increasing (prior : option Q) (points : list PercentilePoint) : Prop :=
  match points with
  | [] => True
  | p :: points =>
      let x := text_Q (pp_probability p) in
      (0 <= x <= 1)%Q /\ match prior with Some y => (y < x)%Q | None => True end /\ increasing (Some x) points
  end.

Lemma validate_points_Ok prior points out :
  (forall p, prior = Some p -> canonical p) ->
  validate_points prior points = Ok out -> increasing (to_Q <$> prior) points /\ out = points.
Proof.
  revert prior out; induction points as [|p points IH]; intros prior out Hp; simpl.
  { by intros [= <-]. }
  intros (pr & Hpr%exact_lift & H)%bind_Ok.
  apply bind_Ok in H as (c0 & Hc0%compare_number_Ok & H).
  apply bind_Ok in H as (? & H0%require_Ok & H).
  apply bind_Ok in H as (c1 & Hc1%compare_number_Ok & H).
  apply bind_Ok in H as (? & H1%require_Ok & H).
  apply bind_Ok in H as (? & H2 & H). apply bind_Ok in H as (v & Hv%exact_lift & H).
  apply bind_Ok in H as (rest & Hrest & [= <-]). apply IH in Hrest as [Hinc ->].
  2: { intros ? [= <-]. by eapply parse_canonical. }
  rewrite (text_Q_parse _ _ Hpr). split.
  - apply negb_true_iff, Z.ltb_ge in H0, H1. rewrite Hc0 in H0. apply sign_ge in H0.
    rewrite Hc1 in H1. apply sign_le in H1. split; [done|]. split; [|done].
    destruct prior as [y|]; [|done]. simpl. apply bind_Ok in H2 as (c & Hc & Hr%require_Ok).
    apply compare_Ok in Hc; [|by apply Hp]. apply negb_true_iff, Z.leb_gt in Hr. rewrite Hc in Hr.
    by apply sign_gt.
  - f_equal. destruct p as [a b]. simpl in *. f_equal; by eapply parse_toCanonical.
Qed.

(** ** Environmental indicators *)

Definition contribution_Q (t : EnvironmentalTerm) : Q :=
  let q := (text_Q (quantity t) * text_Q (factor t))%Q in if recovered t then (- q)%Q else q.

Definition terms_of (c : string) (terms : list EnvironmentalTerm) : list EnvironmentalTerm :=
  filter (fun t => category t = c) terms.

Lemma terms_of_snoc c terms t :
  terms_of c (terms ++ [t]) = terms_of c terms ++ (if decide (category t = c) then [t] else []).
Proof. unfold terms_of. rewrite filter_app. f_equal. Qed.

(** What the map of categories holds after some terms. *)
Record totals (done_ : list EnvironmentalTerm) (m : list (string * CategoryTotal)) : Prop := {
  totals_map : map_ok m;
  totals_keys c : is_Some (map_get c m) <-> c ∈ category <$> done_;
  totals_entry c total u : map_get c m = Some (total, u) ->
    canonical total /\ (to_Q total == sum_Q (contribution_Q <$> terms_of c done_))%Q /\
    Forall (fun t => resultUnit t = u) (terms_of c done_)
}.

Lemma add_term_inv done_ m t m' : totals done_ m -> add_term m t = Ok m' -> totals (done_ ++ [t]) m'.
Proof.
  intros [Hm Hk He]. unfold add_term. intros H.
  apply bind_Ok in H as (q & Hq%exact_lift & H). apply bind_Ok in H as (f & Hf%exact_lift & H).
  apply bind_Ok in H as (k & [Hkc Hkv]%multiply_Ok & H). apply bind_Ok in H as (? & Hu%require_Ok & H).
  apply bind_Ok in H as (zero & [-> Hz]%fromNumber_Ok & H). apply bind_Ok in H as (s & Hs & H).
  apply bind_Ok in H as (total & [Htc Htv]%add_Ok & [= <-]).
  assert ((to_Q s == contribution_Q t)%Q) as Hsv.
  { unfold contribution_Q. rewrite (text_Q_parse _ _ Hq), (text_Q_parse _ _ Hf). destruct (recovered t).
    - apply subtract_Ok in Hs as [_ Hs]; [|done]. rewrite Hs, Hkv, to_Q_integer.
      change (inject_Z 0) with 0%Q. ring.
    - injection Hs as <-. done. }
  constructor.
  - by apply map_set_ok.
  - intros c. rewrite map_get_set, fmap_app, elem_of_app. csimpl. rewrite list_elem_of_singleton.
    case_decide as Hc; [split; [by right|done]|]. rewrite Hk. tauto.
  - intros c total' u. rewrite map_get_set, terms_of_snoc, fmap_app, Forall_app. case_decide as Hc.
    + intros [= <- <-]. subst c. rewrite decide_True by done. csimpl.
      split; [done|]. rewrite sum_Q_snoc, Htv, Hsv. destruct (map_get (category t) m) as [[pt pu]|] eqn:Hp.
      * destruct (He _ _ _ Hp) as (_ & Hpt & Hpu). simpl in Hu. apply String.eqb_eq in Hu as ->.
        simpl. rewrite Hpt. split; [done|]. split; [done|]. by apply Forall_singleton.
      * assert (terms_of (category t) done_ = []) as Hnil.
        { unfold terms_of. destruct (filter _ done_) as [|t' l] eqn:Hl; [done|]. exfalso.
          assert (t' ∈ filter (fun x => category x = category t) done_) as Hin by (rewrite Hl; by left).
          apply list_elem_of_filter in Hin as [Ht' Hin].
          assert (is_Some (map_get (category t) m)) as [? Hx]; [|congruence].
          apply Hk, list_elem_of_fmap. by exists t'. }
        rewrite Hnil, to_Q_integer. change (inject_Z 0) with 0%Q. simpl.
        split; [ring|]. split; [constructor|by apply Forall_singleton].
    + intros Hg. rewrite decide_False by congruence. csimpl. rewrite app_nil_r.
      destruct (He _ _ _ Hg) as (? & ? & ?). done.
Qed.

(** A category's indicator. *)
Definition indicator_of (terms : list EnvironmentalTerm) (unit_ : Q) (i : Indicator) : Prop :=
  Forall (fun t => resultUnit t = ind_unit i) (terms_of (ind_category i) terms) /\
  rounds_to (ind_value i) 6 (sum_Q (contribution_Q <$> terms_of (ind_category i) terms) / unit_).

Section EnvironmentalSpec.
Context `{LocaleCompare}.

Lemma environmentalIndicators_Ok terms unit_ inds :
  environmentalIndicators terms unit_ = Ok inds ->
  (0 < text_Q unit_)%Q /\ NoDup (ind_category <$> inds) /\
  StronglySorted (fun a b => localeCompare a b <= 0) (ind_category <$> inds) /\
  (forall c, c ∈ ind_category <$> inds <-> c ∈ category <$> terms) /\
  Forall (indicator_of terms (text_Q unit_)) inds.
Proof.
  unfold environmentalIndicators. intros H0.
  apply bind_Ok in H0 as (dv & Hdv%exact_lift & H0). apply bind_Ok in H0 as (c & Hc%compare_number_Ok & H0).
  apply bind_Ok in H0 as (? & Hr%require_Ok & H0). apply bind_Ok in H0 as (m & Hm & H0).
  rewrite (text_Q_parse _ _ Hdv). apply negb_true_iff, Z.leb_gt in Hr. rewrite Hc in Hr. apply sign_gt in Hr.
  apply (fold_result_inv _ totals) in Hm; [| |apply add_term_inv].
  2: { constructor; [constructor| |done]. intros k. simpl. split; [by intros []|by intros ?%not_elem_of_nil]. }
  apply map_result_Ok in H0. set (es := js_sort _ m) in H0.
  assert (ind_category <$> inds = es.*1) as Hcat.
  { clearbody es. induction H0 as [|[k [t u]] i es' inds' He _ IH]; csimpl; [done|].
    apply bind_Ok in He as (v & _ & [= <-]). simpl. by f_equal. }
  assert (es ≡ₚ m) as Hp by apply js_sort_perm. rewrite Hcat.
  split; [done|]. split; [|split; [|split]].
  - unfold es. rewrite js_sort_perm. apply (totals_map _ _ Hm).
  - assert (StronglySorted (cmp_le (fun l r : string * CategoryTotal => localeCompare l.1 r.1)) es) as Hs
      by apply js_sort_sorted, (on_comparator fst localeCompare). clearbody es. clear -Hs. induction Hs as [|e es' Hs IH He]; csimpl; [constructor|].
    constructor; [done|]. apply Forall_fmap. done.
  - intros k. rewrite <- (totals_keys _ _ Hm), Hp.
    pose proof (map_get_None k m) as HN. destruct (decide (k ∈ m.*1)) as [Hk|Hk].
    + split; [intros _|done]. apply not_eq_None_Some. intros Hx. by apply HN in Hx.
    + split; [done|]. intros Hx%not_eq_None_Some. by apply HN in Hk.
  - apply Forall_forall. intros i Hi. apply list_elem_of_lookup in Hi as [n Hn].
    destruct (Forall2_lookup_r _ _ _ _ _ H0 Hn) as ([k [t u]] & Hk & He).
    apply bind_Ok in He as (v & [_ Hv]%divide_Ok & [= <-]). unfold indicator_of. simpl.
    apply list_elem_of_lookup_2 in Hk. rewrite Hp in Hk. apply elem_of_map_get in Hk; [|apply Hm].
    destruct (totals_entry _ _ Hm _ _ _ Hk) as (_ & Ht & Hu). split; [done|]. by rewrite <- Ht.
Qed.
End EnvironmentalSpec.

(** ** Economics *)

Fixpoint pow_Q (x : Q) (n : nat) : Q := match n with O => 1%Q | S n => (x * pow_Q x n)%Q end.

#[global] Instance pow_Q_proper : Proper (Qeq ==> eq ==> Qeq) pow_Q.
Proof. intros x y Hxy n ? <-. induction n as [|n IH]; simpl; [done|]. by apply Qmult_comp. Qed.

Lemma discount_Ok n d f r :
  canonical d -> discount n d f = Ok r -> canonical r /\ (to_Q r == to_Q d * pow_Q (to_Q f) n)%Q.
Proof.
  revert d; induction n as [|n IH]; intros d Hd; simpl discount.
  - intros [= <-]. split; [done|]. simpl. ring.
  - intros (d' & [Hc Hv]%multiply_Ok & H)%bind_Ok. apply IH in H as [Hr Hrv]; [|done]. split; [done|].
    rewrite Hrv, Hv. simpl. ring.
Qed.

Definition flow_Q (f : CashFlow) : Q := text_Q (amount f).

(** [q] is the flow's present value, rounded half to even to 18 digits. *)
Definition discounted (rate : Q) (f : CashFlow) (q : Q) : Prop :=
  exists n, nearest_even n (flow_Q f / pow_Q (1 + rate) (Z.to_nat (period f)) * inject_Z (10 ^ 18)) /\
    (q == inject_Z n / inject_Z (10 ^ 18))%Q.

(** The first period at which the accumulated flows repay the investment. *)
Definition repaid (initial : Q) (flows : list CashFlow) : Prop :=
  (0 <= initial + sum_Q (flow_Q <$> flows))%Q.

Definition first_repaid (initial : Q) (flows : list CashFlow) (p : option Z) : Prop :=
  match p with
  | Some p => exists before f after, flows = before ++ f :: after /\ period f = p /\
      repaid initial (before ++ [f]) /\
      forall d g, (d ++ [g]) `prefix_of` before -> ~ repaid initial (d ++ [g])
  | None => forall d g, (d ++ [g]) `prefix_of` flows -> ~ repaid initial (d ++ [g])
  end.

(** After the flows [done_]. *)
Record economic_state (rate initial : Q) (done_ : list CashFlow) (st : EconomicLoop) : Prop := {
  es_npv : exists qs, Forall2 (discounted rate) done_ qs /\ (to_Q (npv st) == initial + sum_Q qs)%Q;
  es_cumulative : (to_Q (cumulative st) == initial + sum_Q (flow_Q <$> done_))%Q;
  es_canonical : canonical (npv st);
  es_payback : first_repaid initial done_ (payback st);
  es_periods : Forall (fun f => 1 <= period f) done_
}.

Lemma prefix_snoc {X} (l l' : list X) x : l `prefix_of` l' ++ [x] -> l `prefix_of` l' \/ l = l' ++ [x].
Proof.
  intros [k Hk]. destruct k as [|y k _] using rev_ind; [right; by rewrite app_nil_r in Hk|left].
  rewrite app_assoc in Hk. apply app_inj_tail in Hk as [-> _]. by exists k.
Qed.

Lemma first_repaid_snoc initial done_ f p p' :
  first_repaid initial done_ p ->
  match p with
  | Some _ => p' = p
  | None => (repaid initial (done_ ++ [f]) /\ p' = Some (period f)) \/
            (~ repaid initial (done_ ++ [f]) /\ p' = None)
  end -> first_repaid initial (done_ ++ [f]) p'.
Proof.
  destruct p as [p|]; simpl.
  - intros (before & g & after & -> & Hp & Hr & Hb) ->. simpl.
    exists before, g, (after ++ [f]). split; [by rewrite <- app_assoc|]. done.
  - intros Hb [[Hr ->]|[Hr ->]]; simpl.
    + by exists done_, f, [].
    + intros d g [Hp|Heq]%prefix_snoc; [by apply Hb|]. by rewrite Heq.
Qed.

Lemma divide_rounds a b k d :
  exact! (divide a b k) = Ok d ->
  canonical d /\ exists n, nearest_even n (to_Q a / to_Q b * inject_Z (10 ^ k)) /\
    (to_Q d == inject_Z n / inject_Z (10 ^ k))%Q.
Proof.
  intros H%exact_lift. destruct (divide_correct a b k) as (H0 & H1 & H2).
  destruct (Z.eq_dec (coefficient b) 0) as [Hb|Hb]; [rewrite H0 in H by done; done|].
  destruct (decide (0 <= k <= 18)) as [Hk|Hk]; [|rewrite H1 in H by done; done].
  destruct (H2 Hb Hk) as (n & Hn & He). rewrite H in He. destruct He. split; [done|]. by exists n.
Qed.

Lemma flow_step_inv rate initial done_ st f st' :
  economic_state (to_Q rate) initial done_ st -> flow_step rate st f = Ok st' ->
  economic_state (to_Q rate) initial (done_ ++ [f]) st'.
Proof.
  intros [(qs & Hqs & Hnpv) Hcum Hcan Hpay Hper]. unfold flow_step. intros H.
  apply bind_Ok in H as (? & Hreq%require_Ok & H). apply bind_Ok in H as (one & [-> Hone]%fromNumber_Ok & H).
  apply bind_Ok in H as (fac & [Hfc Hfv]%add_Ok & H). apply bind_Ok in H as (den & Hden & H).
  apply discount_Ok in Hden as [Hdc Hdv]; [|done].
  apply bind_Ok in H as (a & Ha%exact_lift & H). apply bind_Ok in H as (q & [Hqc Hq]%divide_rounds & H).
  apply bind_Ok in H as (npv' & [Hnc Hnv]%add_Ok & H). apply bind_Ok in H as (cum' & [Hcc Hcv]%add_Ok & H).
  apply bind_Ok in H as (pay' & Hpay' & [= <-]).
  assert (to_Q cum' == initial + sum_Q (flow_Q <$> done_ ++ [f]))%Q as Hcum'.
  { rewrite sum_Q_map_snoc, Hcv, Hcum. unfold flow_Q at 3. rewrite (text_Q_parse _ _ Ha). ring. }
  constructor; simpl; [|done|done| |].
  - destruct Hq as (n & Hn & Hqv). exists (qs ++ [to_Q q]). split.
    + apply Forall2_app; [done|]. constructor; [|done]. exists n. split; [|done].
      eapply nearest_even_proper; [done| |exact Hn]. unfold flow_Q.
      rewrite (text_Q_parse _ _ Ha), Hdv, Hfv, !to_Q_integer. change (inject_Z 1) with 1%Q.
      by rewrite Qmult_1_l.
    + rewrite sum_Q_snoc, Hnv, Hnpv. ring.
  - eapply first_repaid_snoc; [exact Hpay|]. destruct (payback st) as [p|]; [by injection Hpay' as <-|].
    apply bind_Ok in Hpay' as (c & Hc%compare_number_Ok & [= <-]). unfold repaid. rewrite <- Hcum'.
    pose proof (sign_ge (to_Q cum') (inject_Z 0)) as Hs. rewrite <- Hc in Hs.
    change (inject_Z 0) with 0%Q in Hs. destruct (Z.leb_spec 0 c); [left|right]; (split; [|done]).
    + by apply Hs.
    + intros Hle%Hs. lia.
  - apply Forall_app. split; [done|]. apply Forall_singleton.
    apply negb_true_iff, orb_false_iff in Hreq as [_ Hp]. lia.
Qed.

Definition by_period (flows : list CashFlow) : list CashFlow :=
  js_sort (fun l r => number_cmp (period l) (period r)) flows.

Lemma economicResult_Ok sc r :
  economicResult sc = Ok r ->
  let rate := text_Q (discountRate sc) in
  let initial := text_Q (initialInvestment sc) in
  let flows := by_period (cashFlows sc) in
  (-1 < rate)%Q /\ NoDup (period <$> cashFlows sc) /\ Forall (fun f => 1 <= period f) (cashFlows sc) /\
  result_currency r = currency sc /\
  first_repaid initial flows (paybackPeriod r) /\
  exists qs, Forall2 (discounted rate) flows qs /\
    rounds_to (netPresentValue r) 2 (initial + sum_Q qs).
Proof.
  unfold economicResult. intros H. apply bind_Ok in H as (? & _ & H).
  apply bind_Ok in H as (rate & Hrate%exact_lift & H). apply bind_Ok in H as (c & Hc%compare_number_Ok & H).
  apply bind_Ok in H as (? & Hr%require_Ok & H). apply bind_Ok in H as (ini & Hini%exact_lift & H).
  apply bind_Ok in H as (? & Hnd%require_Ok & H). apply bind_Ok in H as (st & Hst & H).
  apply bind_Ok in H as (n & Hn%exact_lift & [= <-]). fold (by_period (cashFlows sc)) in Hst, Hnd.
  rewrite (text_Q_parse _ _ Hrate), (text_Q_parse _ _ Hini). cbv zeta.
  assert (by_period (cashFlows sc) ≡ₚ cashFlows sc) as Hp by apply js_sort_perm.
  apply Z.eqb_eq in Hnd. rewrite <- (length_fmap period) in Hnd. apply set_size_NoDup in Hnd.
  rewrite Hp in Hnd. apply (fold_result_inv _ (economic_state (to_Q rate) (to_Q ini))) in Hst.
  2: { constructor; simpl; [exists []; split; [constructor|simpl; ring]|simpl; ring|by eapply parse_canonical| |constructor].
       intros d g [k Hk]. by destruct d. }
  2: { intros. by eapply flow_step_inv. }
  destruct Hst as [(qs & Hqs & Hnpv) _ Hcan Hpay Hper]. rewrite Hp in Hper.
  split; [|split; [done|split; [done|split; [done|split; [done|]]]]].
  { apply negb_true_iff, Z.leb_gt in Hr. rewrite Hc in Hr. by apply sign_gt in Hr. }
  exists qs. split; [done|]. destruct (round_spec (npv st) 2 Hcan ltac:(lia)) as (m & Hm & He).
  rewrite Hn in He. destruct He as [Hnc Hnv]. exists n, m. simpl. split; [done|]. split; [done|].
  split; [|done]. by rewrite <- Hnpv.
Qed.

(** ** Pareto dominance *)

Definition has (r : RouteAssessmentResult) (c v : string) : Prop := exists u, mkIndicator c u v ∈ I r.

(** [l] is at least as good as [r] on every criterion and better on one: higher
    circularity, coverage and net present value, lower shared impacts. *)
Definition pareto (shared : list string) (l r : RouteAssessmentResult) : Prop :=
  (text_Q (lower (C r)) <= text_Q (lower (C l)))%Q /\
  (text_Q (coverage (A r)) <= text_Q (coverage (A l)))%Q /\
  (text_Q (netPresentValue (E r)) <= text_Q (netPresentValue (E l)))%Q /\
  (forall c, c ∈ shared -> exists v w, has l c v /\ has r c w /\ (text_Q v <= text_Q w)%Q) /\
  ((text_Q (lower (C r)) < text_Q (lower (C l)))%Q \/
   (text_Q (coverage (A r)) < text_Q (coverage (A l)))%Q \/
   (text_Q (netPresentValue (E r)) < text_Q (netPresentValue (E l)))%Q \/
   exists c v w, c ∈ shared /\ has l c v /\ has r c w /\ (text_Q v < text_Q w)%Q).

Lemma impacts_fold shared l m m' :
  fold_result (impact_step shared) m l = Ok m' -> NoDup (ind_category <$> l) ->
  forall c d, c ∈ shared -> map_get c m' = Some d ->
    (exists u v, mkIndicator c u v ∈ l /\ parse v = Ok d) \/
    (map_get c m = Some d /\ c ∉ ind_category <$> l).
Proof.
  revert m; induction l as [|[k u v] l IH]; intros m; simpl.
  { intros [= <-] _ c d _ H. right. split; [done|apply not_elem_of_nil]. }
  intros (m1 & H1 & H2)%bind_Ok [Hk Hnd]%NoDup_cons c d Hc Hd.
  destruct (IH m1 H2 Hnd c d Hc Hd) as [(u' & v' & Hin & Hv)|[Hm1 Hnin]].
  { left. exists u', v'. split; [by right|done]. }
  unfold impact_step in H1. simpl in H1. csimpl. rewrite not_elem_of_cons.
  destruct (includes k shared) eqn:Hks.
  - apply bind_Ok in H1 as (dv & Hdv%exact_lift & [= <-]). rewrite map_get_set in Hm1.
    case_decide as Hck; [|right; done]. subst k. injection Hm1 as ->. left. exists u, v.
    split; [by left|done].
  - injection H1 as <-. apply includes_false in Hks. right. split; [done|]. split; [by intros ->|done].
Qed.

Lemma impacts_has shared r m c d :
  impacts shared r = Ok m -> NoDup (categories_of r) -> c ∈ shared -> map_get c m = Some d ->
  exists v, has r c v /\ parse v = Ok d.
Proof.
  intros Hm Hnd Hc Hd. destruct (impacts_fold _ _ _ _ Hm Hnd c d Hc Hd) as [(u & v & Hin & Hv)|[H _]].
  - exists v. split; [by exists u|done].
  - done.
Qed.

(** A category has one value. *)
Lemma has_unique r c v w : NoDup (categories_of r) -> has r c v -> has r c w -> v = w.
Proof.
  unfold categories_of. intros Hnd [u Hv] [u' Hw].
  apply list_elem_of_lookup in Hv as [i Hi], Hw as [j Hj].
  assert (i = j) as ->.
  { eapply NoDup_lookup; [exact Hnd| |]; rewrite list_lookup_fmap; [by rewrite Hi|by rewrite Hj]. }
  rewrite Hi in Hj. by injection Hj.
Qed.

Lemma dominates_cons3 c a e is_ :
  dominates (c :: a :: e :: is_) = true <->
  (0 <= c /\ 0 <= a /\ 0 <= e /\ Forall (fun z => 0 <= z) is_) /\
  (0 < c \/ 0 < a \/ 0 < e \/ Exists (fun z => 0 < z) is_).
Proof.
  unfold dominates. rewrite andb_true_iff. simpl. rewrite !andb_true_iff, !orb_true_iff, !Z.leb_le, !Z.ltb_lt.
  assert (forallb (fun value => 0 <=? value) is_ = true <-> Forall (fun z => 0 <= z) is_) as ->.
  { rewrite forallb_forall, Forall_forall. setoid_rewrite list_elem_of_In. by setoid_rewrite Z.leb_le. }
  assert (existsb (fun value => 0 <? value) is_ = true <-> Exists (fun z => 0 < z) is_) as ->; [|tauto].
  rewrite existsb_exists, Exists_exists. setoid_rewrite list_elem_of_In. by setoid_rewrite Z.ltb_lt.
Qed.

Lemma comparisons_spec shared l r vs :
  comparisons shared l r = Ok vs -> NoDup (categories_of l) -> NoDup (categories_of r) ->
  dominates vs = true <-> pareto shared l r.
Proof.
  intros H Hl Hr. unfold comparisons in H.
  apply bind_Ok in H as (ml & Hml & H). apply bind_Ok in H as (mr & Hmr & H).
  apply bind_Ok in H as (c & Hc%compare_texts_Ok & H). apply bind_Ok in H as (a & Ha%compare_texts_Ok & H).
  apply bind_Ok in H as (e & He%compare_texts_Ok & H). apply bind_Ok in H as (is_ & His & [= <-]).
  apply map_result_Ok in His.
  assert (Forall2 (fun k z => exists v w, has l k v /\ has r k w /\
            z = - sign_of (text_Q v ?= text_Q w)%Q) shared is_) as Hz.
  { apply Forall2_same_length_lookup_2; [by eapply Forall2_length|].
    intros i k z Hk Hzi. pose proof (Forall2_lookup_lr _ _ _ _ _ _ His Hk Hzi) as Hd.
    apply list_elem_of_lookup_2 in Hk.
    apply bind_Ok in Hd as (dl & Hdl%defined_Ok & Hd). apply bind_Ok in Hd as (dr & Hdr%defined_Ok & Hd).
    apply bind_Ok in Hd as (s & Hs & [= <-]).
    destruct (impacts_has _ _ _ _ _ Hml Hl Hk Hdl) as (v & Hv & Hpv).
    destruct (impacts_has _ _ _ _ _ Hmr Hr Hk Hdr) as (w & Hw & Hpw).
    exists v, w. split; [done|]. split; [done|]. apply compare_Ok in Hs; [|by eapply parse_canonical].
    by rewrite Hs, (text_Q_parse _ _ Hpv), (text_Q_parse _ _ Hpw). }
  clear His. rewrite dominates_cons3, Hc, Ha, He, !sign_ge, !sign_gt. unfold pareto.
  assert (Forall (fun z => 0 <= z) is_ <->
    forall k, k ∈ shared -> exists v w, has l k v /\ has r k w /\ (text_Q v <= text_Q w)%Q) as ->.
  { rewrite Forall_lookup. split.
    - intros Hall k [i Hi]%list_elem_of_lookup. destruct (Forall2_lookup_l _ _ _ _ _ Hz Hi) as (z & Hzi & v & w & Hv & Hw & ->).
      exists v, w. split; [done|]. split; [done|]. apply sign_le. specialize (Hall _ _ Hzi). lia.
    - intros Hall i z Hzi. destruct (Forall2_lookup_r _ _ _ _ _ Hz Hzi) as (k & Hk & v & w & Hv & Hw & ->).
      apply list_elem_of_lookup_2 in Hk. destruct (Hall k Hk) as (v' & w' & Hv' & Hw' & Hle).
      rewrite (has_unique _ _ _ _ Hl Hv Hv'), (has_unique _ _ _ _ Hr Hw Hw'). apply sign_le in Hle. lia. }
  assert (Exists (fun z => 0 < z) is_ <->
    exists k v w, k ∈ shared /\ has l k v /\ has r k w /\ (text_Q v < text_Q w)%Q) as ->; [|tauto].
  rewrite Exists_exists. split.
  - intros (z & [i Hzi]%list_elem_of_lookup & Hpos).
    destruct (Forall2_lookup_r _ _ _ _ _ Hz Hzi) as (k & Hk & v & w & Hv & Hw & ->).
    exists k, v, w. apply list_elem_of_lookup_2 in Hk. repeat (split; [done|]). apply sign_lt. lia.
  - intros (k & v & w & [i Hi]%list_elem_of_lookup & Hv & Hw & Hlt).
    destruct (Forall2_lookup_l _ _ _ _ _ Hz Hi) as (z & Hzi & v' & w' & Hv' & Hw' & ->).
    eexists. split; [by eapply list_elem_of_lookup_2|].
    rewrite (has_unique _ _ _ _ Hl Hv' Hv), (has_unique _ _ _ _ Hr Hw' Hw). apply sign_lt in Hlt. lia.
Qed.

(** ** The relation over all routes *)

Definition related (shared : list string) (l r : RouteAssessmentResult) : Prop :=
  result_routeId l <> result_routeId r /\ G l = PASS /\ G r = PASS /\ pareto shared l r.

Definition pair_of (l r : RouteAssessmentResult) : Dominance :=
  mkDominance (result_routeId l) (result_routeId r).

Lemma dominance_step_spec shared l pairs r pairs' :
  dominance_step shared l pairs r = Ok pairs' -> NoDup (categories_of l) -> NoDup (categories_of r) ->
  forall p, p ∈ pairs' <-> p ∈ pairs \/ (p = pair_of l r /\ related shared l r).
Proof.
  unfold dominance_step, related. intros H Hl Hr p.
  destruct (bool_decide_reflect (result_routeId l = result_routeId r)) as [|H1];
    [injection H as <-; tauto|].
  destruct (bool_decide_reflect (G l = PASS)) as [H2|H2]; [|injection H as <-; tauto].
  destruct (bool_decide_reflect (G r = PASS)) as [H3|H3]; [|injection H as <-; tauto]. simpl in H.
  apply bind_Ok in H as (vs & Hvs & [= <-]). pose proof (comparisons_spec _ _ _ _ Hvs Hl Hr) as Hs.
  destruct (dominates vs).
  - rewrite elem_of_app, list_elem_of_singleton. unfold pair_of. intuition.
  - intuition congruence.
Qed.

Lemma dominance_row shared l rs pairs pairs' :
  fold_result (dominance_step shared l) pairs rs = Ok pairs' -> NoDup (categories_of l) ->
  Forall (fun r => NoDup (categories_of r)) rs ->
  forall p, p ∈ pairs' <-> p ∈ pairs \/ exists r, r ∈ rs /\ p = pair_of l r /\ related shared l r.
Proof.
  intros H Hl Hrs. revert pairs H; induction Hrs as [|r rs Hr _ IH]; intros pairs H p; simpl in H.
  - injection H as <-. split; [by left|]. intros [|(r & ?%not_elem_of_nil & _)]; done.
  - apply bind_Ok in H as (p1 & H1 & H2). rewrite (IH _ H2), (dominance_step_spec _ _ _ _ _ H1 Hl Hr).
    setoid_rewrite elem_of_cons. split; [intros [[|]|(r' & ? & ?)]|intros [|(r' & [->|] & ?)]]; eauto 7.
Qed.

Lemma paretoDominance_spec shared rs pairs :
  paretoDominance rs shared = Ok pairs -> Forall (fun r => NoDup (categories_of r)) rs ->
  forall p, p ∈ pairs <-> exists l r, l ∈ rs /\ r ∈ rs /\ p = pair_of l r /\ related shared l r.
Proof.
  unfold paretoDominance. intros H Hrs.
  assert (forall ls acc pairs, Forall (fun l => NoDup (categories_of l)) ls ->
    fold_result (fun pairs left => fold_result (dominance_step shared left) pairs rs) acc ls = Ok pairs ->
    forall p, p ∈ pairs <-> p ∈ acc \/
      exists l r, l ∈ ls /\ r ∈ rs /\ p = pair_of l r /\ related shared l r) as Hgen.
  { clear H pairs. intros ls acc pairs Hls. revert acc pairs; induction Hls as [|l ls Hl _ IH]; intros acc pairs Hf p; simpl in Hf.
    - injection Hf as <-. split; [by left|]. intros [|(l & r & ?%not_elem_of_nil & _)]; done.
    - apply bind_Ok in Hf as (p1 & H1 & H2). rewrite (IH _ _ H2), (dominance_row _ _ _ _ _ H1 Hl Hrs).
      setoid_rewrite elem_of_cons.
      split; [intros [[|(r & ? & ?)]|(l' & r & ? & ?)]|intros [|(l' & r & [->|] & ? & ?)]]; eauto 9. }
  intros p. rewrite (Hgen _ _ _ Hrs H). split; [intros [?%not_elem_of_nil|]; done|by right].
Qed.

Lemma pareto_trans shared x y z :
  NoDup (categories_of y) -> pareto shared x y -> pareto shared y z -> pareto shared x z.
Proof.
  intros Hy (A1 & A2 & A3 & A4 & A5) (B1 & B2 & B3 & B4 & B5).
  assert (forall c, c ∈ shared -> exists v w t, has x c v /\ has y c w /\ has z c t /\
            (text_Q v <= text_Q w)%Q /\ (text_Q w <= text_Q t)%Q) as Hc.
  { intros c Hc. destruct (A4 c Hc) as (v & w & Hv & Hw & H1), (B4 c Hc) as (w' & t & Hw' & Ht & H2).
    rewrite (has_unique _ _ _ _ Hy Hw' Hw) in H2. by exists v, w, t. }
  split; [by eapply Qle_trans|]. split; [by eapply Qle_trans|]. split; [by eapply Qle_trans|]. split.
  - intros c Hin. destruct (Hc c Hin) as (v & w & t & Hv & _ & Ht & H1 & H2). exists v, t.
    split; [done|]. split; [done|]. by eapply Qle_trans.
  - destruct A5 as [H|[H|[H|(c & v & w & Hin & Hv & Hw & H)]]].
    + left. by eapply Qle_lt_trans.
    + right; left. by eapply Qle_lt_trans.
    + right; right; left. by eapply Qle_lt_trans.
    + right; right; right. destruct (B4 c Hin) as (w' & t & Hw' & Ht & H2).
      rewrite (has_unique _ _ _ _ Hy Hw' Hw) in H2. exists c, v, t.
      split; [done|]. split; [done|]. split; [done|]. by eapply Qlt_le_trans.
Qed.

Lemma pareto_irrefl shared x : NoDup (categories_of x) -> ~ pareto shared x x.
Proof.
  intros Hx (_ & _ & _ & _ & [H|[H|[H|(c & v & w & _ & Hv & Hw & H)]]]); [by apply Qlt_irrefl in H..|].
  rewrite (has_unique _ _ _ _ Hx Hv Hw) in H. by apply Qlt_irrefl in H.
Qed.

(** ** Assessed routes *)

Section AssessSpec.
Context `{LocaleCompare} {HI : CanonicalHash (list RouteAssessmentInput)} {HR : CanonicalHash Reproduction}.

Lemma assessRoute_Ok input r :
  assessRoute input = Ok r ->
  result_routeId r = routeId input /\
  evidenceAdequacy (evidence input) = Ok (A r) /\
  G r = route_gate input (A r) /\
  circularityScore (circularity input) = Ok (C r) /\
  environmentalIndicators (environmental input) (functionalUnit input) = Ok (I r) /\
  economicResult (economics input) = Ok (E r) /\
  rankStable (U r) = rank_stable (uncertaintyScenarios input) /\
  validatePercentiles (default [] (uncertaintyPercentiles input)) = Ok (percentiles (U r)).
Proof.
  unfold assessRoute. intros Hr.
  apply bind_Ok in Hr as (a & Ha & Hr). apply bind_Ok in Hr as (c & Hc & Hr).
  apply bind_Ok in Hr as (i & Hi & Hr). apply bind_Ok in Hr as (e & He & Hr).
  apply bind_Ok in Hr as (fr & _ & Hr). apply bind_Ok in Hr as (pts & Hp & [= <-]). done.
Qed.

Lemma assessRoute_categories input r : assessRoute input = Ok r -> NoDup (categories_of r).
Proof.
  intros (_ & _ & _ & _ & Hi & _)%assessRoute_Ok. apply environmentalIndicators_Ok in Hi. apply Hi.
Qed.

Lemma usable_spec i :
  usable i = true <->
  present i = true /\ authorized i = true /\ current i = true /\ revoked i = false /\ conflicting i = false.
Proof. unfold usable. rewrite !andb_true_iff, !negb_true_iff. tauto. Qed.

(** The gate of a route: the rule must pass and every critical item be usable. *)
Lemma route_gate_spec input r :
  assessRoute input = Ok r ->
  (G r = PASS <-> outcome (ruleEvaluation input) = PASS /\
     forall i, i ∈ evidence input -> critical i = true -> usable i = true) /\
  (G r = FAIL <-> outcome (ruleEvaluation input) = FAIL).
Proof.
  intros (_ & Ha & Hg & _)%assessRoute_Ok. rewrite Hg.
  apply evidenceAdequacy_Ok in Ha as (_ & _ & _ & Hm & _ & _).
  assert ((0 <? Z.of_nat (length (missingCritical (A r)))) = false <->
    forall i, i ∈ evidence input -> critical i = true -> usable i = true) as Hmiss.
  { split.
    - intros Hz i Hi Hc. destruct (usable i) eqn:Hu; [done|]. exfalso.
      assert (field i ∈ missingCritical (A r)) as Hin by (apply Hm; by exists i).
      destruct (missingCritical (A r)); [by apply not_elem_of_nil in Hin|]. by apply Z.ltb_ge in Hz.
    - intros Hall. destruct (missingCritical (A r)) as [|f l]; [done|].
      destruct (proj1 (Hm f)) as (i & (Hi & Hc & Hu) & _); [by left|]. rewrite Hall in Hu; done. }
  unfold route_gate. destruct (outcome (ruleEvaluation input)); simpl.
  - split; split; try done. by intros [].
  - destruct (0 <? _); (split; [|done]); split; try done.
    + intros [_ Hall]. by apply Hmiss in Hall.
    + intros _. split; [done|]. by apply Hmiss.
  - split; split; try done. by intros [].
Qed.

(** What [rankStable] guarantees of a route with rank 1. *)
Lemma rank_stable_first scenarios :
  rank_stable scenarios = true -> forallb (fun rank => rank =? 1) (ranks_of scenarios) = true ->
  scenarios <> [] /\ Forall (fun s => scenario_gate s = PASS /\ routeRank s = Some 1) scenarios.
Proof.
  unfold rank_stable, count. rewrite !andb_true_iff, Z.eqb_eq, Z.ltb_lt, Nat.eqb_eq.
  intros [[[Hc Hpos] Hlen] _] Hone. split; [by intros ->|].
  apply Nat2Z.inj in Hc. rewrite forallb_forall in Hone. revert Hc Hlen Hone. clear Hpos.
  induction scenarios as [|s l IH]; intros Hc Hlen Hone; [constructor|].
  unfold ranks_of in *. csimpl in *.
  pose proof (length_filter (fun s => bool_decide (scenario_gate s = PASS) = true) l) as Hf.
  assert (length (omap routeRank l) <= length l)%nat as Ho.
  { clear. induction l as [|s l IH]; [done|]. csimpl. destruct (routeRank s); csimpl; lia. }
  rewrite filter_cons in Hc. case_decide as Hs; [|simpl in Hc; lia].
  apply bool_decide_eq_true in Hs. injection Hc as Hc.
  destruct (routeRank s) as [rank|] eqn:Hr; [|lia]. simpl in Hlen. injection Hlen as Hlen.
  constructor; [|apply IH; [done|done|]].
  - split; [done|]. rewrite Hr. f_equal. apply Z.eqb_eq, Hone. by left.
  - intros x Hx. apply Hone. by right.
Qed.

Lemma assess_Ok basis inputs r :
  assess basis inputs = Ok r ->
  check_basis basis inputs = Ok tt /\
  Forall2 (fun i s => assessRoute i = Ok s) inputs (routes (unsigned r)) /\
  decide_routes basis inputs (routes (unsigned r)) = Ok (unsigned r) /\
  reproductionHash r = canonical_hash (mkReproduction basis inputs (unsigned r)).
Proof.
  unfold assess. intros Hr. apply bind_Ok in Hr as ([] & Hb & Hr). apply bind_Ok in Hr as (rs & Hrs & Hr).
  apply bind_Ok in Hr as (? & _ & Hr). apply bind_Ok in Hr as (u & Hu & [= <-]). simpl.
  assert (routes u = rs) as ->.
  { unfold decide_routes in Hu. apply bind_Ok in Hu as (? & _ & Hu). by apply bind_Ok in Hu as (p & _ & [= <-]). }
  split; [done|]. split; [by apply map_result_Ok|]. done.
Qed.

Lemma check_basis_routes basis inputs :
  check_basis basis inputs = Ok tt -> routeId <$> inputs = FORMAL_ROUTES.
Proof.
  unfold check_basis. intros Hb. apply bind_Ok in Hb as (? & _ & Hb).
  apply bind_Ok in Hb as (? & Hr%require_Ok & _). apply andb_true_iff in Hr as [Hr _].
  by apply bool_decide_eq_true in Hr.
Qed.

Lemma assess_route_ids basis inputs r :
  assess basis inputs = Ok r ->
  result_routeId <$> routes (unsigned r) = FORMAL_ROUTES /\
  Forall (fun r => NoDup (categories_of r)) (routes (unsigned r)).
Proof.
  intros (Hb%check_basis_routes & Hrs & _)%assess_Ok. split.
  - rewrite <- Hb. clear Hb. induction Hrs as [|i s is_ ss Hi _ IH]; csimpl; [done|].
    f_equal; [|done]. by apply assessRoute_Ok in Hi as [].
  - apply Forall_forall. intros s [n Hn]%list_elem_of_lookup.
    destruct (Forall2_lookup_r _ _ _ _ _ Hrs Hn) as (i & _ & Hi). by eapply assessRoute_categories.
Qed.
End AssessSpec.

(** * Properties *)

Section Properties.
Context `{LocaleCompare} {HI : CanonicalHash (list RouteAssessmentInput)} {HR : CanonicalHash Reproduction}.

Definition shared_categories (r : AssessmentResult) : list string :=
  environmentalCategoriesSharedBy (passing (routes (unsigned r))).

Definition shared_basis (r : AssessmentResult) : Prop :=
  (length (passing (routes (unsigned r))) <= 1)%nat \/ shared_categories r <> [].


Lemma shared_basis_spec (l : list RouteAssessmentResult) (s : list string) :
  ((length l <=? 1)%nat || (0 <? Z.of_nat (length s))) = true <-> (length l <= 1)%nat \/ s <> [].
Proof.
  rewrite orb_true_iff, Nat.leb_le, Z.ltb_lt.
  split; intros [Hl|Hs]; auto; right; [by destruct s|destruct s; [done|simpl; lia]].
Qed.

Lemma assess_dominance basis inputs r :
  assess basis inputs = Ok r ->
  forall p, p ∈ dominance (unsigned r) <-> shared_basis r /\
    exists x y, x ∈ routes (unsigned r) /\ y ∈ routes (unsigned r) /\ p = pair_of x y /\
      related (shared_categories r) x y.
Proof.
  intros Ha. pose proof (assess_route_ids _ _ _ Ha) as [_ Hcat]. apply assess_Ok in Ha as (_ & _ & Hd & _).
  unfold decide_routes in Hd. apply bind_Ok in Hd as (? & _ & Hd). apply bind_Ok in Hd as (pairs & Hp & Hu).
  assert (dominance (unsigned r) = pairs) as -> by (by injection Hu as <-). clear Hu. intros p.
  unfold shared_basis. rewrite <- shared_basis_spec. fold (shared_categories r) in Hp |- *.
  destruct (_ || _) eqn:Hb.
  - rewrite (paretoDominance_spec _ _ _ Hp Hcat). tauto.
  - injection Hp as <-. split; [by intros ?%not_elem_of_nil|by intros []].
Qed.

(** A route is determined by its id among the assessed ones. *)
Lemma route_unique basis inputs r x y :
  assess basis inputs = Ok r -> x ∈ routes (unsigned r) -> y ∈ routes (unsigned r) ->
  result_routeId x = result_routeId y -> x = y.
Proof.
  intros [Hids _]%assess_route_ids [i Hi]%list_elem_of_lookup [j Hj]%list_elem_of_lookup Heq.
  assert (NoDup (result_routeId <$> routes (unsigned r))) as Hnd.
  { rewrite Hids. apply (bool_decide_unpack _). by vm_compute. }
  assert (i = j) as ->.
  { eapply NoDup_lookup; [exact Hnd| |]; rewrite list_lookup_fmap; [by rewrite Hi|].
    rewrite Hj. simpl. by rewrite Heq. }
  rewrite Hi in Hj. by injection Hj.
Qed.

(** The decision and its grounds. *)
Lemma assess_decision basis inputs r :
  assess basis inputs = Ok r ->
  (preferredRoute (unsigned r) = None <-> decisionState (unsigned r) <> answer) /\
  (decisionState (unsigned r) = requires_external_decision <-> critical_conflict inputs = true) /\
  (forall w, preferredRoute (unsigned r) = Some w ->
     critical_conflict inputs = false /\
     Forall (fun s => G s <> UNKNOWN) (routes (unsigned r)) /\
     Forall (fun s => rankStable (U s) = true) (passing (routes (unsigned r))) /\
     stableWinner inputs (routes (unsigned r)) = Some w /\
     exists s, undominated (dominance (unsigned r)) (routes (unsigned r)) = [s] /\ result_routeId s = w).
Proof.
  intros (_ & _ & Hd & _)%assess_Ok. unfold decide_routes in Hd.
  apply bind_Ok in Hd as (? & _ & Hd). apply bind_Ok in Hd as (pairs & Hp & Hu).
  set (rs := routes (unsigned r)) in *. injection Hu as Hu. rewrite <- Hu. cbn [preferredRoute decisionState dominance].
  set (sb := _ || _) in *. set (supp := uniquelySupportedWinner sb _ _) in *. clear Hu Hp.
  destruct (critical_conflict inputs) eqn:Hc; [by split; [|split]|].
  destruct (existsb (fun r => bool_decide (G r = UNKNOWN)) rs) eqn:Hunk; [by split; [|split]|].
  destruct (forallb (fun r => rankStable (U r)) (passing rs)) eqn:Hst; [|by split; [|split]]. simpl orb.
  destruct supp as [w|] eqn:Hs; [|by split; [|split]]. simpl.
  split; [done|]. split; [done|]. intros w' [= <-]. split; [done|]. split; [|split].
  - apply Forall_forall. intros s Hin Hg. rewrite (proj2 (existsb_exists _ _)) in Hunk; [done|].
    exists s. rewrite <- list_elem_of_In. split; [done|]. by apply bool_decide_eq_true.
  - apply Forall_forall. intros s Hin. rewrite forallb_forall in Hst. apply Hst. by apply list_elem_of_In.
  - unfold supp, uniquelySupportedWinner in Hs. destruct (stableWinner inputs rs) as [w0|]; [|done].
    destruct (undominated pairs rs) as [|s [|]]; try done.
    destruct sb; [|done]. simpl in Hs. case_bool_decide as Hid; [|done]. injection Hs as <-.
    split; [done|]. by exists s.
Qed.

(** The stable winner ranks first in every scenario of its route. *)
Lemma stableWinner_spec basis inputs r w :
  assess basis inputs = Ok r -> stableWinner inputs (routes (unsigned r)) = Some w ->
  exists i s, (i, s) ∈ zip inputs (routes (unsigned r)) /\ routeId i = w /\ result_routeId s = w /\
    G s = PASS /\ assessRoute i = Ok s /\
    forallb (fun rank => rank =? 1) (ranks_of (uncertaintyScenarios i)) = true.
Proof.
  intros (_ & Hrs & _)%assess_Ok. unfold stableWinner.
  destruct (filter _ _) as [|[i s] [|]] eqn:Hf; try done. intros [= <-]. exists i, s.
  assert ((i, s) ∈ filter (fun p => always_first p = true) (zip inputs (routes (unsigned r)))) as Hin
    by (rewrite Hf; by left).
  apply list_elem_of_filter in Hin as [Hall Hin]. split; [done|].
  assert (assessRoute i = Ok s) as Hi.
  { apply list_elem_of_lookup in Hin as [n Hn]. apply lookup_zip_with_Some in Hn as (i' & s' & [= <- <-] & Hi & Hs).
    exact (Forall2_lookup_lr _ _ _ _ _ _ Hrs Hi Hs). }
  unfold always_first in Hall. simpl in Hall. rewrite !andb_true_iff, bool_decide_eq_true in Hall.
  destruct Hall as [[Hg _] Hall]. pose proof (assessRoute_Ok _ _ Hi) as (Hid & _). done.
Qed.

(** C4. A recommendation is given only when it is warranted: [assess] names a
    preferred route exactly in the [answer] state; then no critical evidence
    conflicts, no gate is unknown, the route passes its gate with every critical
    item usable, passes and ranks first in each of its scenarios (of which there is
    one at least), no route dominates it and every other passing route is dominated. *)
Theorem recommendation_sound (basis : AssessmentInputPayload) (inputs : list RouteAssessmentInput)
    (r : AssessmentResult) :
  assess basis inputs = Ok r ->
  (preferredRoute (unsigned r) = None <-> decisionState (unsigned r) <> answer) /\
  (decisionState (unsigned r) = requires_external_decision <-> critical_conflict inputs = true) /\
  forall w, preferredRoute (unsigned r) = Some w ->
    critical_conflict inputs = false /\
    Forall (fun s => G s <> UNKNOWN) (routes (unsigned r)) /\
    exists i s, (i, s) ∈ zip inputs (routes (unsigned r)) /\ routeId i = w /\ G s = PASS /\
      outcome (ruleEvaluation i) = PASS /\
      (forall e, e ∈ evidence i -> critical e = true -> usable e = true) /\
      uncertaintyScenarios i <> [] /\
      Forall (fun sc => scenario_gate sc = PASS /\ routeRank sc = Some 1) (uncertaintyScenarios i) /\
      (forall d, d ∈ dominance (unsigned r) -> dominated d <> w) /\
      (forall t, t ∈ routes (unsigned r) -> G t = PASS -> result_routeId t <> w ->
         exists d, d ∈ dominance (unsigned r) /\ dominated d = result_routeId t).
Proof.
  intros Ha. destruct (assess_decision _ _ _ Ha) as (H1 & H2 & H3). split; [done|]. split; [done|].
  intros w Hw. destruct (H3 w Hw) as (Hc & Hu & Hst & Hwin & u & Hund & Hid). split; [done|]. split; [done|].
  destruct (stableWinner_spec _ _ _ _ Ha Hwin) as (i & s & Hzip & Hri & Hrs & Hg & Hi & Hall).
  exists i, s. pose proof (route_gate_spec _ _ Hi) as [Hpass _]. destruct (proj1 Hpass Hg) as [Ho Hev].
  assert (s ∈ routes (unsigned r)) as Hin by by apply elem_of_zip_r in Hzip.
  assert (rank_stable (uncertaintyScenarios i) = true) as Hrank.
  { destruct (assessRoute_Ok _ _ Hi) as (_ & _ & _ & _ & _ & _ & <- & _). rewrite Forall_forall in Hst.
    apply Hst. by apply list_elem_of_filter. }
  destruct (rank_stable_first _ Hrank Hall) as [Hne Hf].
  assert (forall t, t ∈ undominated (dominance (unsigned r)) (routes (unsigned r)) <->
    (result_routeId t ∉ dominated <$> dominance (unsigned r)) /\ G t = PASS /\ t ∈ routes (unsigned r)) as Hundo.
  { intros t. unfold undominated, passing. by rewrite !list_elem_of_filter. }
  repeat (split; [done|]). split.
  - intros d Hd Hdw. assert (u ∈ [u]) as Hu1 by by left. rewrite <- Hund in Hu1.
    apply Hundo in Hu1 as [Hnd _]. apply Hnd, list_elem_of_fmap. exists d. by rewrite Hid.
  - intros t Ht Hgt Hne'. destruct (decide (result_routeId t ∈ dominated <$> dominance (unsigned r))) as [Hd|Hd].
    + apply list_elem_of_fmap in Hd as (d & Hd & Hdin). by exists d.
    + exfalso. assert (t ∈ undominated (dominance (unsigned r)) (routes (unsigned r))) as Htu by by apply Hundo.
      rewrite Hund in Htu. apply list_elem_of_singleton in Htu as ->. by apply Hne'.
Qed.

(** The dominance pairs are the Pareto order: a pair is reported exactly when the
    passing routes share an environmental category (or at most one passes) and the
    first passing route is at least as good as the second on circularity, coverage,
    net present value and every shared impact, and better on one. The relation is a
    strict partial order on the routes. *)
Theorem dominance_is_pareto (basis : AssessmentInputPayload) (inputs : list RouteAssessmentInput)
    (r : AssessmentResult) :
  assess basis inputs = Ok r ->
  (forall p, p ∈ dominance (unsigned r) <-> shared_basis r /\
     exists x y, x ∈ routes (unsigned r) /\ y ∈ routes (unsigned r) /\ p = pair_of x y /\
       related (shared_categories r) x y) /\
  (forall a, mkDominance a a ∉ dominance (unsigned r)) /\
  (forall a b c, mkDominance a b ∈ dominance (unsigned r) -> mkDominance b c ∈ dominance (unsigned r) ->
     mkDominance a c ∈ dominance (unsigned r)).
Proof.
  intros Ha. pose proof (assess_dominance _ _ _ Ha) as Hd. split; [done|].
  pose proof (assess_route_ids _ _ _ Ha) as [_ Hcat]. rewrite Forall_forall in Hcat. split.
  - intros a (_ & x & y & _ & _ & [= -> Heq] & Hne & _)%Hd. by apply Hne.
  - intros a b c (Hs & x & y & Hx & Hy & [= -> ->] & _ & Hgx & _ & Hp1)%Hd
      (_ & y' & z & Hy' & Hz & [= Heq ->] & _ & _ & Hgz & Hp2)%Hd.
    pose proof (route_unique _ _ _ _ _ Ha Hy' Hy (eq_sym Heq)) as ->.
    assert (pareto (shared_categories r) x z) as Hxz
      by exact (pareto_trans _ _ _ _ (Hcat _ Hy) Hp1 Hp2).
    apply Hd. split; [done|]. exists x, z. repeat (split; [done|]). split; [|done].
    intros He. pose proof (route_unique _ _ _ _ _ Ha Hx Hz He) as ->.
    eapply pareto_irrefl; [|exact Hxz]. by apply Hcat.
Qed.
End Properties.

Section RouteProperties.
Context `{LocaleCompare}.

(** The circularity score of nonnegative weights and ratings of 1 to 5 lies
    between 0 and 100: both bounds round the rescaled weighted rating, absent
    ratings taken as 1 and as 5, the lower is at most the upper, and a single value
    is given exactly when every criterion is rated. *)
Theorem circularity_bounds (criteria : list CircularityCriterion) (r : CircularityResult) :
  circularityScore criteria = Ok r -> Forall well_rated criteria ->
  rounds_to (lower r) 6 ((sum_Q (rated 1 <$> criteria) - 1) * 25) /\
  rounds_to (upper r) 6 ((sum_Q (rated 5 <$> criteria) - 1) * 25) /\
  (0 <= text_Q (lower r) <= text_Q (upper r))%Q /\ (text_Q (upper r) <= 100)%Q /\
  (complete_value r = Some (lower r) <-> Forall (fun c => is_Some (rating c)) criteria).
Proof.
  intros (_ & _ & Hsum & Hlo & Hup & Hc)%circularityScore_Ok Hw.
  pose proof (score_bounds _ 1 Hw Hsum ltac:(lia)) as [L0 L1].
  pose proof (score_bounds _ 5 Hw Hsum ltac:(lia)) as [U0 U1].
  split; [done|]. split; [done|].
  assert (forall q, (0 <= q <= 100)%Q -> (Qabs q <= inject_Z (10 ^ 19))%Q) as Habs.
  { intros q [Hq0 Hq1]. rewrite Qabs_pos by done. eapply Qle_trans; [exact Hq1|]. by vm_compute. }
  destruct (rounds_to_text _ 6 _ ltac:(lia) (Habs _ (conj L0 L1)) Hlo) as (n & Hn & ->).
  destruct (rounds_to_text _ 6 _ ltac:(lia) (Habs _ (conj U0 U1)) Hup) as (m & Hm & ->).
  assert (0 <= n) as Hn0.
  { eapply (nearest_even_mono 0 n _ _ (nearest_even_integer 0) Hn). by apply Qmult_le_0_compat. }
  assert (n <= m) as Hnm.
  { eapply (nearest_even_mono _ _ _ _ Hn Hm). apply Qmult_le_compat_r; [|done].
    apply Qmult_le_compat_r; [|done]. apply Qplus_le_compat; [|apply Qle_refl].
    apply sum_Q_le. intros c Hin. apply rated_mono. rewrite Forall_forall in Hw. by apply Hw. }
  assert (m <= 100 * 10 ^ 6) as Hm1.
  { eapply (nearest_even_mono _ _ _ _ Hm (nearest_even_integer _)). rewrite inject_Z_mult.
    by apply Qmult_le_compat_r. }
  assert (forall a b, a <= b -> (inject_Z a / inject_Z (10 ^ 6) <= inject_Z b / inject_Z (10 ^ 6))%Q) as Hdiv.
  { intros a b Hab. apply Qmult_le_compat_r; [by rewrite <- Zle_Qle|done]. }
  split; [split; [|by apply Hdiv]|split].
  - apply Qle_trans with (inject_Z 0 / inject_Z (10 ^ 6))%Q; [by vm_compute|by apply Hdiv].
  - apply Qle_trans with (inject_Z (100 * 10 ^ 6) / inject_Z (10 ^ 6))%Q; [by apply Hdiv|by vm_compute].
  - rewrite Hc. case_decide; split; done.
Qed.

(** The environmental indicators of a route: one per category of its terms, in
    locale order, all terms of a category in the indicator's unit; its value is the
    sum of quantity times factor, recovered flows subtracted, per functional unit,
    rounded half to even to six digits. *)
Theorem environmental_correct (terms : list EnvironmentalTerm) (unit_ : string) (inds : list Indicator) :
  environmentalIndicators terms unit_ = Ok inds ->
  (0 < text_Q unit_)%Q /\ NoDup (ind_category <$> inds) /\
  StronglySorted (fun a b => localeCompare a b <= 0) (ind_category <$> inds) /\
  (forall c, c ∈ ind_category <$> inds <-> c ∈ category <$> terms) /\
  Forall (indicator_of terms (text_Q unit_)) inds.
Proof. apply environmentalIndicators_Ok. Qed.

(** The gate of a route passes exactly when its rule evaluation passes and every
    critical evidence item is present, authorized, current, not revoked and without
    conflict; it fails exactly when the rule evaluation fails. *)
Theorem gate_correct (input : RouteAssessmentInput) (r : RouteAssessmentResult) :
  assessRoute input = Ok r ->
  (G r = PASS <-> outcome (ruleEvaluation input) = PASS /\
     forall i, i ∈ evidence input -> critical i = true ->
       present i = true /\ authorized i = true /\ current i = true /\ revoked i = false /\
       conflicting i = false) /\
  (G r = FAIL <-> outcome (ruleEvaluation input) = FAIL).
Proof. intros [Hp Hf]%route_gate_spec. split; [|done]. rewrite Hp. by setoid_rewrite usable_spec. Qed.
End RouteProperties.

(** The economic result: flows must lie at distinct periods from 1 on and the
    rate above -1; the net present value is the investment plus the discounted flows
    (each rounded to 18 digits), rounded half to even to cents; the payback period
    is the first period at which the undiscounted flows repay the investment. *)
Theorem economics_correct (sc : EconomicScenario) (r : EconomicResult) :
  economicResult sc = Ok r ->
  let rate := text_Q (discountRate sc) in
  let initial := text_Q (initialInvestment sc) in
  let flows := by_period (cashFlows sc) in
  (-1 < rate)%Q /\ NoDup (period <$> cashFlows sc) /\ Forall (fun f => 1 <= period f) (cashFlows sc) /\
  result_currency r = currency sc /\
  first_repaid initial flows (paybackPeriod r) /\
  exists qs, Forall2 (discounted rate) flows qs /\
    rounds_to (netPresentValue r) 2 (initial + sum_Q qs).
Proof. apply economicResult_Ok. Qed.

(** Evidence adequacy: coverage is the rounded share of usable items, the missing
    critical fields are exactly those of the unusable critical items, and the
    verification grade is [missing] when there is one, [verified] exactly when every
    critical item is usable and verified. *)
Theorem adequacy_correct (items : list EvidenceFieldState) (r : AdequacyResult) :
  evidenceAdequacy items = Ok r ->
  items <> [] /\ NoDup (field <$> items) /\
  rounds_to (coverage r) 6 (inject_Z (count usable items) / inject_Z (Z.of_nat (length items))) /\
  (forall f, f ∈ missingCritical r <-> exists i, lacking items i /\ field i = f) /\
  (weakestCriticalVerification r = v_missing <-> exists i, lacking items i) /\
  (weakestCriticalVerification r = v_verified <->
     forall i, i ∈ items -> critical i = true -> usable i = true /\ verified i = true).
Proof. apply evidenceAdequacy_Ok. Qed.

(** Accepted percentile points are returned unchanged, their probabilities lie in
    [0,1] and increase strictly. *)
Theorem percentiles_correct (points out : list PercentilePoint) :
  validatePercentiles points = Ok out -> increasing None points /\ out = points.
Proof. apply (validate_points_Ok None). done. Qed.

(** ** A concrete assessment *)

Module Sample.

#[local] Instance locale : LocaleCompare := code_unit_locale.
Definition zero_digest : Digest := mkDigest "SHA-256" "AAAAAAAAAAAAAAAAAAAAAAAAAAAAAAAAAAAAAAAAAAA".
#[local] Instance inputs_hash : CanonicalHash (list RouteAssessmentInput) := fun _ => zero_digest.
#[local] Instance result_hash : CanonicalHash Reproduction := fun _ => zero_digest.

Definition an : string -> string := sample_urn.

Definition quantity1 : DecimalQuantity := mkDecimalQuantity "10" (an "unit") 1.

Definition context (id : string) : RouteContext :=
  mkRouteContext id "a" "l" quantity1 "d" (mkDecimalRange "1" "2") quantity1 quantity1 "e" "d" "r" [] [] [] [].

Definition basis : AssessmentInputPayload :=
  mkAssessmentInputPayload "EVLLM_ASSESSMENT_INPUT_PAYLOAD_V1" (an "assessment") 1 (an "battery") "EU" 0
    [mkReference "e" 1] [] (mkReference "m" 1) zero_digest
    (context "continued-compatible-ev-use", context "stationary-storage-repurposing", context "recycling")
    (an "org") (an "role") 0 (sample_bundle_ref bt_assessment).

Definition route_input (id : FormalRoute) (o : Outcome) (r : Z) (impact flow_ : string)
    (critical_ok : bool) : RouteAssessmentInput :=
  mkRouteAssessmentInput
    [mkCriterion "c1" (Some r) "0.6"; mkCriterion "c2" None "0.4"]
    (mkEconomicScenario [mkCashFlow "60" 2; mkCashFlow flow_ 1] "EUR" "0.05" "-100")
    [mkTerm "gwp" "2" "f" false impact "kg"; mkTerm "gwp" "1" "g" true "3" "kg"]
    [mkEvidenceFieldState true false true critical_ok "soh" true false true;
     mkEvidenceFieldState true false false true "age" false false false]
    "10" id (mkRuleEvaluation o [] [] (mkReference (an "rule") 1) [])
    [mkScenario o "s1" (if decide (o = PASS) then Some (6 - r) else None)]
    (Some [mkPercentilePoint "0.1" "1"; mkPercentilePoint "0.9" "2"]).

Definition inputs : list RouteAssessmentInput :=
  [route_input continued_use PASS 5 "4" "60" true;
   route_input stationary_storage PASS 4 "5" "55" true;
   route_input recycling FAIL 1 "9" "10" true].

Definition result_of {X} (m : result AssessmentError X) (d : X) : X := match m with Ok x => x | Throw _ => d end.
Definition no_result : AssessmentResult :=
  mkAssessmentResult (mkUnsignedResult "" 0 abstain None [] [] []) zero_digest.
Definition outcome_ : AssessmentResult := result_of (assess basis inputs) no_result.

Example assess_ex :
  match assess basis inputs with
  | Ok r => preferredRoute (unsigned r) = Some continued_use /\
            dominance (unsigned r) = [mkDominance continued_use stationary_storage] /\
            (netPresentValue ∘ E) <$> routes (unsigned r) = ["11.56"; "6.8"; "-36.05"] /\
            (lower ∘ C) <$> routes (unsigned r) = ["60"; "45"; "0"]
  | Throw _ => False
  end.
Proof. vm_compute. repeat split. Qed.

Lemma sample_assessed : assess basis inputs = Ok outcome_.
Proof. vm_compute. reflexivity. Qed.

Lemma recommendation_sound_witness :
  critical_conflict inputs = false /\ preferredRoute (unsigned outcome_) = Some continued_use.
Proof.
  split; [|vm_compute; reflexivity].
  apply (proj2 (proj2 (recommendation_sound basis inputs outcome_ sample_assessed)) continued_use).
  vm_compute. reflexivity.
Defined.

Lemma dominance_is_pareto_witness :
  mkDominance continued_use continued_use ∉ dominance (unsigned outcome_).
Proof. apply (dominance_is_pareto basis inputs outcome_ sample_assessed). Defined.

Lemma gate_correct_witness :
  exists r, assessRoute (route_input recycling FAIL 1 "9" "10" true) = Ok r /\ G r = FAIL.
Proof.
  match eval vm_compute in (assessRoute (route_input recycling FAIL 1 "9" "10" true)) with
  | Ok ?x => exists x; split; [vm_compute; reflexivity|];
             apply (gate_correct (route_input recycling FAIL 1 "9" "10" true) x);
             vm_compute; reflexivity
  end.
Defined.

Definition sample_criteria : list CircularityCriterion :=
  [mkCriterion "c1" (Some 4) "0.75"; mkCriterion "c2" None "0.25"].

Lemma circularity_bounds_witness :
  exists r, circularityScore sample_criteria = Ok r /\ (text_Q (upper r) <= 100)%Q.
Proof.
  exists (mkCircularityResult "56.25" "81.25" None). split; [vm_compute; reflexivity|].
  apply (circularity_bounds sample_criteria); [vm_compute; reflexivity|].
  repeat constructor; simpl; (lia || (vm_compute; discriminate)).
Defined.

Definition sample_terms : list EnvironmentalTerm :=
  [mkTerm "gwp" "2" "f" false "3.5" "kg"; mkTerm "gwp" "1" "g" true "3" "kg"].

Lemma environmental_correct_witness :
  exists inds, environmentalIndicators sample_terms "3" = Ok inds /\
    Forall (indicator_of sample_terms (text_Q "3")) inds.
Proof.
  exists [mkIndicator "gwp" "kg" "1.333333"]. split; [vm_compute; reflexivity|].
  apply (environmental_correct sample_terms "3"). vm_compute. reflexivity.
Defined.

Definition sample_scenario : EconomicScenario :=
  mkEconomicScenario [mkCashFlow "60" 2; mkCashFlow "50" 1] "EUR" "0.05" "-100".

Lemma economics_correct_witness :
  first_repaid (text_Q "-100") (by_period (cashFlows sample_scenario)) (Some 2).
Proof.
  apply (economics_correct sample_scenario (mkEconomicResult "EUR" "2.04" (Some 2))).
  vm_compute. reflexivity.
Defined.

Lemma adequacy_correct_witness :
  exists r, evidenceAdequacy [mkEvidenceFieldState true false true true "soh" true false false] = Ok r /\
    weakestCriticalVerification r <> v_missing.
Proof.
  exists (mkAdequacyResult "1" "0" "1" 0 [] v_unverified). split; [vm_compute; reflexivity|].
  intros H. apply (adequacy_correct [mkEvidenceFieldState true false true true "soh" true false false]) in H.
  - destruct H as (i & Hin & _ & Hu). apply list_elem_of_singleton in Hin as ->. discriminate.
  - vm_compute. reflexivity.
Defined.

Lemma percentiles_correct_witness :
  increasing None [mkPercentilePoint "0.05" "1"; mkPercentilePoint "0.5" "3"].
Proof.
  apply (percentiles_correct [mkPercentilePoint "0.05" "1"; mkPercentilePoint "0.5" "3"]
    [mkPercentilePoint "0.05" "1"; mkPercentilePoint "0.5" "3"]).
  vm_compute. reflexivity.
Defined.

(** ** Two observations *)

(** Weights are only required to sum to one: a negative weight puts the score
    outside [0,100]. *)
Lemma negative_weight_score :
  circularityScore [mkCriterion "a" (Some 5) "2"; mkCriterion "b" (Some 1) "-1"] =
  Ok (mkCircularityResult "200" "200" (Some "200")).
Proof. vm_compute. reflexivity. Qed.

(** The discount factor is kept exactly, so an ordinary rate over twenty years
    exceeds 80 digits and the assessment throws. *)
Lemma discount_overflows :
  economicResult (mkEconomicScenario [mkCashFlow "100" 20] "EUR" "0.0725" "-100") =
  Throw (decimal overflow).
Proof. vm_compute. reflexivity. Qed.

End Sample.
