(* ===== verification/Support.v ===== *)
(** * Assessment support and the assessment ledger

    [src/src/decision/support.ts]: the citations that back an assessment and the
    audit bundle built from them. [src/src/decision/queries.ts]: the ledger of
    issued assessments. *)

From S2P Require Import Prelude Regex Digits Decimal Schemas Rules Assessment.

(** ** Citations *)

Inductive CitationStatus := cite_active | cite_superseded | cite_revoked.

#[global] Instance CitationStatus_eq_dec : EqDecision CitationStatus.
Proof. solve_decision. Defined.

Record SupportCitation := mkSupportCitation {
  sc_asOf : Z;
  sc_commitment : string;
  sc_custodianOrganizationId : string;
  sc_issuerOrganizationId : string;
  sc_resourceId : string;
  sc_resourceVersion : Z;
  sc_status : CitationStatus;
  sc_supports : list string
}.

Record RuleCitation := mkRuleCitation {
  rl_asOf : Z;
  rl_jurisdiction : string;
  rl_ruleId : string;
  rl_ruleVersion : Z;
  rl_sourceId : string;
  rl_sourceVersion : Z;
  rl_supports : list string
}.

(** The audit bundle before it is hashed. *)
Record UnsignedAuditBundle := mkUnsignedAuditBundle {
  auditId : string;
  ab_assessmentInputId : string;
  ab_assessmentInputVersion : Z;
  assessmentReproductionHash : string;
  evidenceCitations : list SupportCitation;
  ruleCitations : list RuleCitation;
  createdAt : Z
}.

Record AssessmentAuditBundle := mkAssessmentAuditBundle {
  audit_unsigned : UnsignedAuditBundle;
  bundleHash : string
}.

(** [SupportValidationError] codes. *)
Inductive SupportError := incomplete | invalid_support | stale.

Inductive Component := comp_G | comp_C | comp_I | comp_E | comp_A | comp_U.

#[global] Instance Component_eq_dec : EqDecision Component.
Proof. solve_decision. Defined.

Definition component_text (c : Component) : string :=
  match c with
  | comp_G => "G" | comp_C => "C" | comp_I => "I" | comp_E => "E" | comp_A => "A" | comp_U => "U"
  end.

Definition components : list Component := [comp_G; comp_C; comp_I; comp_E; comp_A; comp_U].

Definition componentPath (route : FormalRoute) (component : Component) : string :=
  ("routes." +:+ route_text route +:+ "." +:+ component_text component)%string.

Definition empty (s : string) : bool := (String.length s =? 0)%nat.

Definition evidence_malformed (c : SupportCitation) : bool :=
  empty (sc_commitment c) || empty (sc_custodianOrganizationId c) || empty (sc_issuerOrganizationId c) ||
  empty (sc_resourceId c) || (length (sc_supports c) =? 0)%nat.

Definition rule_malformed (c : RuleCitation) : bool :=
  empty (rl_jurisdiction c) || empty (rl_ruleId c) || empty (rl_sourceId c) ||
  (length (rl_supports c) =? 0)%nat.

Definition required_paths (assessment : AssessmentResult) : list string :=
  routes (unsigned assessment) ≫= fun r => componentPath (result_routeId r) <$> components.

Definition validateAssessmentSupport (assessment : AssessmentResult)
    (evidence : list SupportCitation) (rules_ : list RuleCitation) : result SupportError unit :=
  _ ← require (negb (existsb (fun c => negb (bool_decide (sc_status c = cite_active))) evidence)) stale;
  _ ← require (negb (existsb evidence_malformed evidence || existsb rule_malformed rules_)) invalid_support;
  let supported := set_of ((evidence ≫= sc_supports) ++ (rules_ ≫= rl_supports)) in
  require (negb (existsb (fun path => negb (includes path supported)) (required_paths assessment))) incomplete.

(** [x || y] on comparison results *)
Definition or_else (x y : Z) : Z := if x =? 0 then y else x.

Section Locale.
Context `{LocaleCompare}.

Definition evidence_order (left right : SupportCitation) : Z :=
  or_else (localeCompare (sc_resourceId left) (sc_resourceId right))
    (or_else (sc_resourceVersion left - sc_resourceVersion right)
       (localeCompare (join NUL (sc_supports left)) (join NUL (sc_supports right)))).

Definition rule_order (left right : RuleCitation) : Z :=
  or_else (localeCompare (rl_ruleId left) (rl_ruleId right))
    (or_else (rl_ruleVersion left - rl_ruleVersion right)
       (localeCompare (join NUL (rl_supports left)) (join NUL (rl_supports right)))).

Definition sortedEvidence : list SupportCitation -> list SupportCitation := js_sort evidence_order.
Definition sortedRules : list RuleCitation -> list RuleCitation := js_sort rule_order.

Definition AUDIT_ID : regex :=
  rx "^urn:evllm:audit:[0-9a-f]{8}-[0-9a-f]{4}-4[0-9a-f]{3}-[89ab][0-9a-f]{3}-[0-9a-f]{12}$".

Context {HA : CanonicalHash UnsignedAuditBundle}.

Definition buildAssessmentAuditBundle (assessment : AssessmentResult) (id : string) (at_ : Z)
    (evidence : list SupportCitation) (rules_ : list RuleCitation) :
    result SupportError AssessmentAuditBundle :=
  _ ← require (rtest AUDIT_ID id) invalid_support;
  _ ← validateAssessmentSupport assessment evidence rules_;
  let u := mkUnsignedAuditBundle id (assessmentInputId (unsigned assessment))
    (assessmentInputVersion (unsigned assessment)) (value (reproductionHash assessment))
    (sortedEvidence evidence) (sortedRules rules_) at_ in
  Ok (mkAssessmentAuditBundle u (value (canonical_hash u))).
End Locale.

(** ** The assessment ledger *)

Inductive AssessmentStatus := as_active | as_revoked | as_superseded.

#[global] Instance AssessmentStatus_eq_dec : EqDecision AssessmentStatus.
Proof. solve_decision. Defined.

Record AssessmentRecord := mkAssessmentRecord {
  record_createdAt : Z;
  record_result : AssessmentResult;
  record_status : AssessmentStatus
}.

Definition AssessmentLedger := list (string * list AssessmentRecord).

Inductive LedgerError := already_exists | assessment_not_found.

Definition hash_of (r : AssessmentRecord) : string := value (reproductionHash (record_result r)).

(** [{ ...prior, status: superseded }] in the last place of the history *)
Fixpoint supersede_last (history : list AssessmentRecord) : list AssessmentRecord :=
  match history with
  | [] => []
  | [r] => [mkAssessmentRecord (record_createdAt r) (record_result r) as_superseded]
  | r :: history => r :: supersede_last history
  end.

Definition issue (ledger : AssessmentLedger) (r : AssessmentResult) (at_ : Z) :
    result LedgerError (AssessmentLedger * AssessmentRecord) :=
  let id := assessmentInputId (unsigned r) in
  let history := default [] (map_get id ledger) in
  _ ← require (negb (existsb (fun prior => String.eqb (hash_of prior) (value (reproductionHash r))) history))
        already_exists;
  let record := mkAssessmentRecord at_ r as_active in
  Ok (map_set id (supersede_last history ++ [record]) ledger, record).

Definition current_assessment (ledger : AssessmentLedger) (inputId : string) :
    result LedgerError AssessmentRecord :=
  defined (map_get inputId ledger ≫= last) assessment_not_found.

Definition history (ledger : AssessmentLedger) (inputId : string) : list AssessmentRecord :=
  default [] (map_get inputId ledger).

(** ** Support *)

Lemma validateAssessmentSupport_spec assessment evidence rules_ :
  validateAssessmentSupport assessment evidence rules_ = Ok tt <->
  Forall (fun c => sc_status c = cite_active /\ evidence_malformed c = false) evidence /\
  Forall (fun c => rule_malformed c = false) rules_ /\
  forall r c, r ∈ routes (unsigned assessment) ->
    (exists e, e ∈ evidence /\ componentPath (result_routeId r) c ∈ sc_supports e) \/
    (exists e, e ∈ rules_ /\ componentPath (result_routeId r) c ∈ rl_supports e).
Proof.
  assert (forall {X} (f : X -> bool) l, existsb f l = false <-> Forall (fun x => f x = false) l) as Hex.
  { intros X f l. rewrite <- not_true_iff_false, existsb_exists, Forall_forall. setoid_rewrite list_elem_of_In.
    split; [intros Hn x Hx; apply not_true_iff_false; eauto|intros Ha (x & Hx & Hf)].
    specialize (Ha x Hx). congruence. }
  assert (forall path, includes path (set_of ((evidence ≫= sc_supports) ++ (rules_ ≫= rl_supports))) = true <->
    (exists e, e ∈ evidence /\ path ∈ sc_supports e) \/ (exists e, e ∈ rules_ /\ path ∈ rl_supports e)) as Hin.
  { intros path. rewrite includes_true, elem_of_set_of, elem_of_app, !list_elem_of_bind.
    split; (intros [(e & ? & ?)|(e & ? & ?)]; [left|right]; eauto). }
  unfold validateAssessmentSupport. rewrite !bind_Ok. setoid_rewrite require_Ok. split.
  - intros (_ & Hs & H). apply bind_Ok in H as (_ & Hm%require_Ok & Hp%require_Ok).
    apply negb_true_iff, Hex in Hs, Hp. apply negb_true_iff, orb_false_iff in Hm as [Hm1 Hm2].
    apply Hex in Hm1, Hm2. split; [|split; [done|]].
    + rewrite Forall_forall in *. intros c Hc. split; [|by apply Hm1].
      specialize (Hs c Hc). by apply negb_false_iff, bool_decide_eq_true in Hs.
    + intros r c Hr. apply Hin. rewrite Forall_forall in Hp. apply negb_false_iff, Hp.
      unfold required_paths. apply list_elem_of_bind. exists r. split; [|done].
      apply list_elem_of_fmap. exists c. split; [done|]. apply (bool_decide_unpack _). by destruct c.
  - intros (He & Hr & Hp). exists tt. split.
    { apply negb_true_iff, Hex. eapply Forall_impl; [exact He|]. intros c [Hs _].
      by apply negb_false_iff, bool_decide_eq_true. }
    apply bind_Ok. exists tt. rewrite !require_Ok. split.
    { apply negb_true_iff, orb_false_iff. rewrite !Hex. split; [|done].
      eapply Forall_impl; [exact He|]. by intros c []. }
    apply negb_true_iff, Hex, Forall_forall. intros path Hpath.
    unfold required_paths in Hpath. apply list_elem_of_bind in Hpath as (r & Hpath & Hin').
    apply list_elem_of_fmap in Hpath as (c & -> & _). apply negb_false_iff, Hin. by apply Hp.
Qed.

(** Comparators that fall back on a second one. *)
Lemma or_else_comparator {A} (f g : A -> A -> Z) `{!Comparator f, !Comparator g} :
  (forall x y, f x y < 0 -> 0 < f y x) -> Comparator (fun x y => or_else (f x y) (g x y)).
Proof.
  intros Hf.
  assert (forall x y, f x y = 0 -> f y x = 0) as H0.
  { intros x y H. destruct (Z.lt_trichotomy (f y x) 0) as [Hl|[|Hl]]; [|done|].
    - apply Hf in Hl. lia.
    - apply (cmp_flip f) in Hl. lia. }
  constructor; unfold or_else.
  - intros x y. destruct (Z.eqb_spec (f x y) 0) as [E|E], (Z.eqb_spec (f y x) 0) as [E'|E']; intros H.
    + by apply (cmp_flip g).
    + by apply H0 in E.
    + by apply H0 in E'.
    + by apply (cmp_flip f).
  - intros x y z.
    destruct (Z.eqb_spec (f x y) 0) as [E|E], (Z.eqb_spec (f y z) 0) as [E'|E'],
      (Z.eqb_spec (f x z) 0) as [E2|E2]; intros H1 H2.
    + by eapply (cmp_trans g).
    + pose proof (cmp_trans f x y z ltac:(lia) ltac:(lia)). done.
    + exfalso. pose proof (H0 _ _ E). pose proof (H0 _ _ E2).
      assert (f z y <= 0) by (apply (cmp_trans f z x y); lia).
      assert (f y z < 0) as Hlt by lia. apply Hf in Hlt. lia.
    + apply (cmp_trans f x y z); lia.
    + exfalso. pose proof (H0 _ _ E'). pose proof (H0 _ _ E2).
      assert (f y x <= 0) by (apply (cmp_trans f y z x); lia).
      assert (f x y < 0) as Hlt by lia. apply Hf in Hlt. lia.
    + apply (cmp_trans f x y z); lia.
    + exfalso. pose proof (H0 _ _ E2).
      assert (f y x <= 0) by (apply (cmp_trans f y z x); lia).
      assert (f x y < 0) as Hlt by lia. apply Hf in Hlt. lia.
    + apply (cmp_trans f x y z); lia.
Qed.

(** Sorting forgets the order of elements the comparator tells apart. *)
Lemma js_sort_permutation {A} (cmp : A -> A -> Z) `{!Comparator cmp} l l' :
  (forall x y, x ∈ l -> y ∈ l -> cmp x y <= 0 -> cmp y x <= 0 -> x = y) ->
  l ≡ₚ l' -> js_sort cmp l = js_sort cmp l'.
Proof.
  intros Hanti Hp. eapply (StronglySorted_unique_strong (cmp_le cmp)).
  - intros x y Hx Hy Hxy Hyx. rewrite js_sort_elem_of in Hx. rewrite js_sort_elem_of, <- Hp in Hy. auto.
  - by apply js_sort_sorted.
  - by apply js_sort_sorted.
  - by rewrite !js_sort_perm.
Qed.

(** ** The ledger *)

(** A nonempty history: the last record is active, the earlier ones superseded, and
    no two have the same reproduction hash. *)
Definition history_ok (id : string) (l : list AssessmentRecord) : Prop :=
  Forall (fun r => assessmentInputId (unsigned (record_result r)) = id) l /\
  NoDup (hash_of <$> l) /\
  exists older r, l = older ++ [r] /\ record_status r = as_active /\
    Forall (fun o => record_status o = as_superseded) older.

Definition ledger_ok (ledger : AssessmentLedger) : Prop :=
  map_ok ledger /\ forall id l, map_get id ledger = Some l -> history_ok id l.

Lemma supersede_last_snoc l r :
  supersede_last (l ++ [r]) = l ++ [mkAssessmentRecord (record_createdAt r) (record_result r) as_superseded].
Proof. induction l as [|x l IH]; [done|]. simpl. rewrite IH. by destruct l. Qed.

Lemma issue_ok ledger r at_ ledger' record :
  ledger_ok ledger -> issue ledger r at_ = Ok (ledger', record) -> ledger_ok ledger'.
Proof.
  intros [Hm Hl]. unfold issue. intros (? & Hnew%require_Ok & [= <- <-])%bind_Ok.
  set (id := assessmentInputId (unsigned r)) in *. split; [by apply map_set_ok|].
  intros id' l. rewrite map_get_set. case_decide as Hid; [|apply Hl]. intros [= <-]. subst id'.
  rewrite negb_true_iff, <- not_true_iff_false, existsb_exists in Hnew.
  assert (forall h, h ∈ default [] (map_get id ledger) -> hash_of h <> value (reproductionHash r)) as Hfresh.
  { intros h Hh Heq. apply Hnew. exists h. rewrite <- list_elem_of_In, Heq, String.eqb_refl. done. }
  set (record := mkAssessmentRecord at_ r as_active).
  destruct (map_get id ledger) as [old|] eqn:Hold; simpl in *.
  - destruct (Hl id old Hold) as (Hids & Hnd & older & last & -> & _ & Hsup).
    rewrite supersede_last_snoc. set (last' := mkAssessmentRecord _ _ as_superseded).
    split; [|split].
    + rewrite !Forall_app, !Forall_singleton in *. destruct Hids. done.
    + rewrite !fmap_app in *. simpl in *. apply NoDup_app. split; [done|]. split; [|by apply NoDup_singleton].
      intros h Hh ->%list_elem_of_singleton.
      assert (hash_of record ∈ hash_of <$> (older ++ [last])) as Hin by by rewrite fmap_app.
      apply list_elem_of_fmap in Hin as (y & Hy & Hin). by apply (Hfresh y Hin).
    + exists (older ++ [last']), record. split; [done|]. split; [done|].
      apply Forall_app. split; [done|]. by apply Forall_singleton.
  - split; [by apply Forall_singleton|]. split; [by apply NoDup_singleton|]. by exists [], record.
Qed.

Definition issue_all (calls : list (AssessmentResult * Z)) : AssessmentLedger :=
  fold_left (fun ledger call =>
    match issue ledger call.1 call.2 with Ok (ledger', _) => ledger' | Throw _ => ledger end) calls [].

Lemma issue_all_ok calls : ledger_ok (issue_all calls).
Proof.
  unfold issue_all. assert (forall ledger, ledger_ok ledger -> ledger_ok (fold_left (fun ledger call =>
    match issue ledger call.1 call.2 with Ok (ledger', _) => ledger' | Throw _ => ledger end) calls ledger)) as H.
  { induction calls as [|[r t] calls IH]; intros ledger Hl; simpl; [done|]. apply IH.
    destruct (issue ledger r t) as [[ledger' x]|] eqn:Hi; [by eapply issue_ok|done]. }
  apply H. split; [constructor|done].
Qed.

(** * Properties *)

(** An assessment counts as supported exactly when every evidence citation is
    active, no citation lacks one of its fields, and each of the six components of
    each route is supported by some citation. *)
Theorem support_complete (assessment : AssessmentResult) (evidence : list SupportCitation)
    (rules_ : list RuleCitation) :
  validateAssessmentSupport assessment evidence rules_ = Ok tt <->
  Forall (fun c => sc_status c = cite_active /\ evidence_malformed c = false) evidence /\
  Forall (fun c => rule_malformed c = false) rules_ /\
  forall r c, r ∈ routes (unsigned assessment) ->
    (exists e, e ∈ evidence /\ componentPath (result_routeId r) c ∈ sc_supports e) \/
    (exists e, e ∈ rules_ /\ componentPath (result_routeId r) c ∈ rl_supports e).
Proof. apply validateAssessmentSupport_spec. Qed.

Section Bundle.
Context `{LocaleCompare} {HA : CanonicalHash UnsignedAuditBundle}.

#[local] Instance order_tail {A} (f : A -> Z) (g : A -> string) :
  Comparator (fun x y => or_else (f x - f y) (localeCompare (g x) (g y))).
Proof.
  refine (@or_else_comparator A (fun x y => number_cmp (f x) (f y)) _
    (on_comparator f number_cmp) (on_comparator g localeCompare) _).
  unfold number_cmp. intros. lia.
Qed.

#[local] Instance evidence_order_comparator : Comparator evidence_order :=
  @or_else_comparator _ _ _ (on_comparator sc_resourceId localeCompare)
    (order_tail sc_resourceVersion (fun c => join NUL (sc_supports c))) (fun x y => localeCompare_flip _ _).

#[local] Instance rule_order_comparator : Comparator rule_order :=
  @or_else_comparator _ _ _ (on_comparator rl_ruleId localeCompare)
    (order_tail rl_ruleVersion (fun c => join NUL (rl_supports c))) (fun x y => localeCompare_flip _ _).

(** The audit bundle is canonical: it cites exactly the given citations, and when
    the order tells the citations apart the bundle and its hash do not depend on the
    order in which they were collected. *)
Theorem audit_bundle_canonical (assessment : AssessmentResult) (id : string) (at_ : Z)
    (evidence evidence' : list SupportCitation) (rules_ rules_' : list RuleCitation) (b : AssessmentAuditBundle) :
  buildAssessmentAuditBundle assessment id at_ evidence rules_ = Ok b ->
  evidence ≡ₚ evidence' -> rules_ ≡ₚ rules_' ->
  (forall x y, x ∈ evidence -> y ∈ evidence -> evidence_order x y <= 0 -> evidence_order y x <= 0 -> x = y) ->
  (forall x y, x ∈ rules_ -> y ∈ rules_ -> rule_order x y <= 0 -> rule_order y x <= 0 -> x = y) ->
  buildAssessmentAuditBundle assessment id at_ evidence' rules_' = Ok b /\
  evidenceCitations (audit_unsigned b) ≡ₚ evidence /\ ruleCitations (audit_unsigned b) ≡ₚ rules_.
Proof.
  unfold buildAssessmentAuditBundle. intros H1 He Hr Hde Hdr.
  apply bind_Ok in H1 as (? & Hid & H1). apply bind_Ok in H1 as ([] & Hv & [= <-]).
  rewrite Hid. simpl. assert (validateAssessmentSupport assessment evidence' rules_' = Ok tt) as ->.
  { apply validateAssessmentSupport_spec in Hv as (H1 & H2 & H3). apply validateAssessmentSupport_spec.
    rewrite <- He, <- Hr. split; [done|]. split; [done|]. intros r c Hrc.
    setoid_rewrite <- He. setoid_rewrite <- Hr. by apply H3. }
  simpl. unfold sortedEvidence, sortedRules.
  rewrite <- (js_sort_permutation _ evidence evidence' Hde He), <- (js_sort_permutation _ rules_ rules_' Hdr Hr).
  split; [done|]. split; apply js_sort_perm.
Qed.
End Bundle.

#[local] Instance sample_hash : CanonicalHash UnsignedAuditBundle := fun _ => Sample.zero_digest.
#[local] Instance sample_locale : LocaleCompare := code_unit_locale.

Definition cite (id : string) : SupportCitation := mkSupportCitation 1 "c" "o" "o" id 1 cite_active ["x"].
Definition cite_rule : RuleCitation := mkRuleCitation 1 "EU" "r" 1 "s" 1 (required_paths Sample.outcome_).

Lemma audit_bundle_canonical_witness :
  exists b, buildAssessmentAuditBundle Sample.outcome_ (Sample.an "audit") 0 [cite "b"; cite "a"] [cite_rule] = Ok b /\
    buildAssessmentAuditBundle Sample.outcome_ (Sample.an "audit") 0 [cite "a"; cite "b"] [cite_rule] = Ok b.
Proof.
  match eval vm_compute in
    (buildAssessmentAuditBundle Sample.outcome_ (Sample.an "audit") 0 [cite "b"; cite "a"] [cite_rule]) with
  | Ok ?b => exists b; split; [vm_compute; reflexivity|];
    refine (proj1 (audit_bundle_canonical Sample.outcome_ (Sample.an "audit") 0 [cite "b"; cite "a"]
      [cite "a"; cite "b"] [cite_rule] [cite_rule] b _ _ _ _ _))
  end.
  - vm_compute. reflexivity.
  - apply Permutation_swap.
  - reflexivity.
  - intros x y Hx Hy. rewrite elem_of_cons, list_elem_of_singleton in Hx, Hy.
    destruct Hx as [->| ->], Hy as [->| ->]; intros H1 H2; try reflexivity;
      exfalso; revert H1 H2; vm_compute; intros H1 H2; by apply H1 || by apply H2.
  - intros x y ->%list_elem_of_singleton ->%list_elem_of_singleton. reflexivity.
Defined.

(** In the assessment ledger, whatever was issued, the history of an input holds
    results of that input with distinct reproduction hashes, of which only the last
    is active and all earlier ones are superseded. *)
Theorem ledger_history (calls : list (AssessmentResult * Z)) (id : string) :
  let ledger := issue_all calls in
  match current_assessment ledger id with
  | Ok r => history_ok id (history ledger id) /\ last (history ledger id) = Some r /\ record_status r = as_active
  | Throw e => e = assessment_not_found /\ history ledger id = []
  end.
Proof.
  intros ledger. pose proof (issue_all_ok calls) as [_ Hl]. fold ledger in Hl.
  unfold current_assessment, history. destruct (map_get id ledger) as [l|] eqn:Hg; simpl; [|done].
  destruct (Hl id l Hg) as (H1 & H2 & older & r & -> & Hr & Ho). rewrite last_snoc. simpl.
  split; [|done]. split; [done|]. split; [done|]. by exists older, r.
Qed.
