(* ===== verification/EvidenceLedger.v ===== *)
(** * The evidence ledger

    [src/src/evidence/evidence-ledger.ts]: versioned evidence claims, verification
    assertions and disputes. The history of a claim is an array that the ledger alone
    holds (its results are clones), so it is a list here; an array write at an index
    is stdpp's [<[i := x]>], in range wherever the code writes. *)

From S2P Require Import Prelude Regex Digits Decimal Schemas.

Inductive EvidenceLifecycle := ev_active | ev_revoked | ev_superseded.
Inductive AssertionLifecycle := as_active | as_superseded | as_withdrawn.
Inductive DisputeLifecycle :=
| closed_by_assertion_withdrawal | closed_by_supersession | dispute_open | referred_external | dispute_withdrawn.

#[global] Instance EvidenceLifecycle_eq_dec : EqDecision EvidenceLifecycle.
Proof. solve_decision. Defined.
#[global] Instance AssertionLifecycle_eq_dec : EqDecision AssertionLifecycle.
Proof. solve_decision. Defined.
#[global] Instance DisputeLifecycle_eq_dec : EqDecision DisputeLifecycle.
Proof. solve_decision. Defined.

Record EvidenceRecord := mkEvidenceRecord {
  activatedAt : Z;
  payload : EvidencePayload;
  status : EvidenceLifecycle
}.

Record AssertionRecord := mkAssertionRecord {
  assertion_payload : VerificationPayload;
  assertion_status : AssertionLifecycle
}.

Record DisputeRecord := mkDisputeRecord {
  claimId : string;
  claimVersion : Z;
  disputeId : string;
  openedByOrganizationId : string;
  reason : string;
  dispute_status : DisputeLifecycle
}.

(** [EvidenceLedgerError] codes; [invalid_payload] is the schema's error. *)
Inductive EvidenceError :=
| conflict | invalid_prior | invalid_state | not_found | self_verification | invalid_payload.

#[global] Instance EvidenceError_eq_dec : EqDecision EvidenceError.
Proof. solve_decision. Defined.

Record EvidenceLedger := mkLedger {
  assertions : list (string * AssertionRecord);
  disputes : list (string * DisputeRecord);
  versions : list (string * list EvidenceRecord)
}.

Definition empty_ledger : EvidenceLedger := mkLedger [] [] [].

Definition version_of (r : EvidenceRecord) : Z := ep_claim_version (payload r).
Definition with_status (s : EvidenceLifecycle) (r : EvidenceRecord) : EvidenceRecord :=
  mkEvidenceRecord (activatedAt r) (payload r) s.
Definition with_dispute_status (s : DisputeLifecycle) (d : DisputeRecord) : DisputeRecord :=
  mkDisputeRecord (claimId d) (claimVersion d) (disputeId d) (openedByOrganizationId d) (reason d) s.

Definition claim_history (l : EvidenceLedger) (id : string) : list EvidenceRecord :=
  default [] (map_get id (versions l)).

(** [versions[versions.length - 1] = { ...prior, status: superseded }] *)
Definition supersede_last (vs : list EvidenceRecord) (prior : EvidenceRecord) : list EvidenceRecord :=
  <[(length vs - 1)%nat := with_status ev_superseded prior]> vs.

(** The dispute is open on that version of the claim. *)
Definition concerns (id : string) (version : Z) (d : DisputeRecord) : bool :=
  String.eqb (claimId d) id && (claimVersion d =? version) && bool_decide (dispute_status d = dispute_open).

Definition closeDisputes (id : string) (version : Z) (s : DisputeLifecycle)
    (ds : list (string * DisputeRecord)) : list (string * DisputeRecord) :=
  (fun p => if concerns id version p.2 then (p.1, with_dispute_status s p.2) else p) <$> ds.

Definition version (l : EvidenceLedger) (id : string) (v : Z) : result EvidenceError EvidenceRecord :=
  defined (List.find (fun r => version_of r =? v) (claim_history l id)) not_found.

Definition activate (l : EvidenceLedger) (p : EvidencePayload) (expectedPriorVersion at_ : Z) :
    result EvidenceError (EvidenceLedger * EvidenceRecord) :=
  _ ← require (evidenceClaimPayload p) invalid_payload;
  let vs := claim_history l (ep_claim_id p) in
  let prior := last vs in
  _ ← require (match prior with Some r => version_of r | None => 0 end =? expectedPriorVersion) invalid_prior;
  _ ← require (negb (negb (ep_claim_version p =? expectedPriorVersion + 1) ||
                     existsb (fun r => version_of r =? ep_claim_version p) vs)) conflict;
  _ ← require (match prior with Some r => bool_decide (status r = ev_active) | None => true end) invalid_state;
  let vs' := match prior with Some r => supersede_last vs r | None => vs end in
  let ds' := match prior with
             | Some _ => closeDisputes (ep_claim_id p) expectedPriorVersion closed_by_supersession (disputes l)
             | None => disputes l
             end in
  let record := mkEvidenceRecord at_ p ev_active in
  Ok (mkLedger (assertions l) ds' (map_set (ep_claim_id p) (vs' ++ [record]) (versions l)), record).

(** [versions.findIndex(...)] *)
Fixpoint find_index (v : Z) (vs : list EvidenceRecord) : option nat :=
  match vs with
  | [] => None
  | r :: vs => if version_of r =? v then Some O else S <$> find_index v vs
  end.

Definition replaceVersion (l : EvidenceLedger) (id : string) (v : Z) (changed : EvidenceRecord) :
    result EvidenceError EvidenceLedger :=
  vs ← defined (map_get id (versions l)) not_found;
  index ← defined (find_index v vs) not_found;
  Ok (mkLedger (assertions l) (disputes l) (map_set id (<[index := changed]> vs) (versions l))).

Definition revoke (l : EvidenceLedger) (id : string) (v : Z) :
    result EvidenceError (EvidenceLedger * EvidenceRecord) :=
  record ← version l id v;
  _ ← require (bool_decide (status record = ev_active)) invalid_state;
  let changed := with_status ev_revoked record in
  l' ← replaceVersion l id v changed;
  Ok (mkLedger (assertions l') (closeDisputes id v referred_external (disputes l')) (versions l'), changed).

Definition assertion_key (p : VerificationPayload) : string :=
  versionKey (vp_verification_id p) (vp_verification_version p).

Definition addVerification (l : EvidenceLedger) (p : VerificationPayload) :
    result EvidenceError (EvidenceLedger * AssertionRecord) :=
  _ ← require (verificationPayload p) invalid_payload;
  evidence ← version l (vp_claim_id p) (vp_claim_version p);
  _ ← require (bool_decide (status evidence = ev_active)) invalid_state;
  _ ← require (negb (String.eqb (ep_issuer_organization_id (payload evidence)) (vp_verifier_organization_id p)))
        self_verification;
  _ ← require (negb (map_has (assertion_key p) (assertions l))) conflict;
  let record := mkAssertionRecord p as_active in
  Ok (mkLedger (map_set (assertion_key p) record (assertions l)) (disputes l) (versions l), record).

Definition assertion (l : EvidenceLedger) (id : string) (v : Z) : result EvidenceError AssertionRecord :=
  defined (map_get (versionKey id v) (assertions l)) not_found.

Definition withdrawVerification (l : EvidenceLedger) (id : string) (v : Z) :
    result EvidenceError (EvidenceLedger * AssertionRecord) :=
  record ← assertion l id v;
  _ ← require (bool_decide (assertion_status record = as_active)) invalid_state;
  let changed := mkAssertionRecord (assertion_payload record) as_withdrawn in
  Ok (mkLedger (map_set (versionKey id v) changed (assertions l)) (disputes l) (versions l), changed).

(** [Omit<DisputeRecord, status>] is a record whose status is ignored. *)
Definition openDispute (l : EvidenceLedger) (input : DisputeRecord) :
    result EvidenceError (EvidenceLedger * DisputeRecord) :=
  _ ← require (negb (map_has (disputeId input) (disputes l))) conflict;
  evidence ← version l (claimId input) (claimVersion input);
  _ ← require (bool_decide (status evidence = ev_active)) invalid_state;
  let record := with_dispute_status dispute_open input in
  Ok (mkLedger (assertions l) (map_set (disputeId input) record (disputes l)) (versions l), record).

Inductive DisputeChange := to_referred_external | to_withdrawn.

Definition changed_status (c : DisputeChange) : DisputeLifecycle :=
  match c with to_referred_external => referred_external | to_withdrawn => dispute_withdrawn end.

Definition dispute (l : EvidenceLedger) (id : string) : result EvidenceError DisputeRecord :=
  defined (map_get id (disputes l)) not_found.

Definition changeDispute (l : EvidenceLedger) (id : string) (state : DisputeChange) :
    result EvidenceError (EvidenceLedger * DisputeRecord) :=
  record ← dispute l id;
  _ ← require (bool_decide (dispute_status record = dispute_open)) invalid_state;
  let changed := with_dispute_status (changed_status state) record in
  Ok (mkLedger (assertions l) (map_set id changed (disputes l)) (versions l), changed).

Definition current (l : EvidenceLedger) (id : string) : result EvidenceError EvidenceRecord :=
  defined (map_get id (versions l) ≫= last) not_found.

(** ** The calls and the histories they make *)

Inductive LedgerCall :=
| call_activate (p : EvidencePayload) (expectedPriorVersion at_ : Z)
| call_revoke (id : string) (v : Z)
| call_addVerification (p : VerificationPayload)
| call_withdrawVerification (id : string) (v : Z)
| call_openDispute (input : DisputeRecord)
| call_changeDispute (id : string) (state : DisputeChange).

(** A throwing call leaves the ledger as it was. *)
Definition keep {A} (l : EvidenceLedger) (r : result EvidenceError (EvidenceLedger * A)) : EvidenceLedger :=
  match r with Ok (l', _) => l' | Throw _ => l end.

Definition run (l : EvidenceLedger) (c : LedgerCall) : EvidenceLedger :=
  match c with
  | call_activate p e at_ => keep l (activate l p e at_)
  | call_revoke id v => keep l (revoke l id v)
  | call_addVerification p => keep l (addVerification l p)
  | call_withdrawVerification id v => keep l (withdrawVerification l id v)
  | call_openDispute input => keep l (openDispute l input)
  | call_changeDispute id s => keep l (changeDispute l id s)
  end.

Definition after (calls : list LedgerCall) : EvidenceLedger := fold_left run calls empty_ledger.

(** ** The ledger invariant *)

(** Versions count up from [k]. *)
Definition numbered (k : Z) (vs : list EvidenceRecord) : Prop :=
  forall i r, vs !! i = Some r -> version_of r = k + Z.of_nat i.

(** A claim's history: versions 1, 2, ..., each valid and about the claim; the last
    one is active or revoked and all earlier ones are superseded. *)
Record claim_ok (id : string) (vs : list EvidenceRecord) : Prop := {
  claim_numbered : numbered 1 vs;
  claim_valid : Forall (fun r => evidenceClaimPayload (payload r) = true /\ ep_claim_id (payload r) = id) vs;
  claim_last : exists older r, vs = older ++ [r] /\ status r <> ev_superseded /\
    Forall (fun o => status o = ev_superseded) older
}.

Definition dispute_ok (l : EvidenceLedger) (k : string) (d : DisputeRecord) : Prop :=
  k = disputeId d /\
  exists r, version l (claimId d) (claimVersion d) = Ok r /\ (dispute_status d = dispute_open -> status r = ev_active).

Definition assertion_ok (l : EvidenceLedger) (k : string) (a : AssertionRecord) : Prop :=
  let p := assertion_payload a in
  k = assertion_key p /\ verificationPayload p = true /\
  exists r, version l (vp_claim_id p) (vp_claim_version p) = Ok r /\
    ep_issuer_organization_id (payload r) <> vp_verifier_organization_id p.

Record ledger_ok (l : EvidenceLedger) : Prop := {
  versions_map : map_ok (versions l);
  disputes_map : map_ok (disputes l);
  assertions_map : map_ok (assertions l);
  claims_ok id vs : map_get id (versions l) = Some vs -> claim_ok id vs;
  disputes_ok k d : map_get k (disputes l) = Some d -> dispute_ok l k d;
  assertions_ok k a : map_get k (assertions l) = Some a -> assertion_ok l k a
}.

Lemma empty_ledger_ok : ledger_ok empty_ledger.
Proof. by constructor; [constructor..| | |]. Qed.

Lemma numbered_cons k r vs : numbered k (r :: vs) -> version_of r = k /\ numbered (k + 1) vs.
Proof.
  intros H. split; [specialize (H 0%nat r eq_refl); lia|].
  intros i x Hx. specialize (H (S i) x Hx). lia.
Qed.

Lemma find_numbered k vs v :
  numbered k vs ->
  List.find (fun r => version_of r =? v) vs = if k <=? v then vs !! Z.to_nat (v - k) else None.
Proof.
  revert k; induction vs as [|r vs IH]; intros k Hn; simpl; [by destruct (k <=? v)|].
  apply numbered_cons in Hn as [Hr Hn]. rewrite (IH _ Hn), Hr.
  destruct (Z.eqb_spec k v) as [->|Hne].
  - destruct (Z.leb_spec v v); [|lia]. by rewrite Z.sub_diag.
  - destruct (Z.leb_spec (k + 1) v), (Z.leb_spec k v); try lia; [|done].
    replace (Z.to_nat (v - k)) with (S (Z.to_nat (v - (k + 1)))) by lia. done.
Qed.

Lemma find_index_numbered k vs v :
  numbered k vs -> k <= v < k + Z.of_nat (length vs) -> find_index v vs = Some (Z.to_nat (v - k)).
Proof.
  revert k; induction vs as [|r vs IH]; intros k Hn Hv; simpl in *; [lia|].
  apply numbered_cons in Hn as [Hr Hn]. rewrite Hr. destruct (Z.eqb_spec k v) as [->|Hne].
  - by rewrite Z.sub_diag.
  - rewrite (IH _ Hn) by lia. simpl. f_equal. lia.
Qed.

(** [version] looks the history up at the version number. *)
Lemma version_Ok l id v r :
  (forall id vs, map_get id (versions l) = Some vs -> claim_ok id vs) ->
  version l id v = Ok r <-> 1 <= v /\ exists vs, map_get id (versions l) = Some vs /\ vs !! Z.to_nat (v - 1) = Some r.
Proof.
  intros Hl. unfold version, claim_history. rewrite defined_Ok.
  destruct (map_get id (versions l)) as [vs|] eqn:Hg; simpl.
  - rewrite (find_numbered 1) by (apply (Hl _ _ Hg)). destruct (Z.leb_spec 1 v).
    + split; [intros Hr; split; [lia|by exists vs]|by intros (_ & ? & [= <-] & ?)].
    + split; [done|]. intros []. lia.
  - split; [done|]. by intros (_ & ? & ? & _).
Qed.

Lemma claim_lookup_version id vs i r : claim_ok id vs -> vs !! i = Some r -> version_of r = Z.of_nat i + 1.
Proof. intros H Hi. rewrite (claim_numbered _ _ H _ _ Hi). lia. Qed.

(** Only the last version can be active. *)
Lemma active_last id vs i r :
  claim_ok id vs -> vs !! i = Some r -> status r <> ev_superseded -> S i = length vs.
Proof.
  intros [_ _ (older & x & -> & _ & Ho)] Hi Hs. rewrite length_app. simpl.
  destruct (decide (i < length older)%nat) as [Hlt|Hge].
  - rewrite lookup_app_l in Hi by done. rewrite Forall_forall in Ho.
    apply list_elem_of_lookup_2, Ho in Hi. done.
  - apply lookup_lt_Some in Hi. rewrite length_app in Hi. simpl in Hi. lia.
Qed.

Lemma closeDisputes_get id v s ds k :
  map_get k (closeDisputes id v s ds) =
  (fun d => if concerns id v d then with_dispute_status s d else d) <$> map_get k ds.
Proof.
  unfold closeDisputes. induction ds as [|[k' d] ds IH]; csimpl; [done|].
  destruct (concerns id v d) eqn:Hc; csimpl; (case_decide; csimpl; [by rewrite Hc|done]).
Qed.

Lemma closeDisputes_keys id v s ds : (closeDisputes id v s ds).*1 = ds.*1.
Proof.
  unfold closeDisputes. induction ds as [|[k d] ds IH]; csimpl; [done|]. rewrite IH.
  by destruct (concerns id v d).
Qed.

(** A ledger whose histories only grow or change status keeps its assertions. *)
Definition payload_kept (l l' : EvidenceLedger) : Prop :=
  forall id v r, version l id v = Ok r -> exists r', version l' id v = Ok r' /\ payload r' = payload r.

Lemma assertion_ok_kept l l' k a : payload_kept l l' -> assertion_ok l k a -> assertion_ok l' k a.
Proof.
  intros Hp (Hk & Hv & r & Hr & Hi). destruct (Hp _ _ _ Hr) as (r' & Hr' & He).
  split; [done|]. split; [done|]. exists r'. by rewrite He.
Qed.

(** Every open dispute is on the active version of its claim. *)
Lemma open_concerns l k d id v :
  ledger_ok l -> map_get k (disputes l) = Some d -> dispute_status d = dispute_open -> claimId d = id ->
  (exists vs, map_get id (versions l) = Some vs /\ Z.of_nat (length vs) = v) -> concerns id v d = true.
Proof.
  intros Hl Hd Ho Hid (vs & Hg & Hlen). destruct (disputes_ok _ Hl _ _ Hd) as (_ & r & Hr & Ha).
  apply version_Ok in Hr as (H1 & vs' & Hg' & Hi); [|apply Hl]. rewrite Hid, Hg in Hg'. injection Hg' as <-.
  pose proof (active_last _ _ _ _ (claims_ok _ Hl _ _ Hg) Hi) as HS. rewrite (Ha Ho) in HS.
  specialize (HS ltac:(done)). unfold concerns. rewrite Hid, String.eqb_refl, (bool_decide_eq_true_2 _ Ho).
  rewrite andb_true_r. apply Z.eqb_eq. lia.
Qed.

(** ** The calls preserve the invariant *)

Lemma activate_inv l p e at_ l' r :
  ledger_ok l -> activate l p e at_ = Ok (l', r) ->
  let id := ep_claim_id p in
  evidenceClaimPayload p = true /\ ep_claim_version p = e + 1 /\
  r = mkEvidenceRecord at_ p ev_active /\ assertions l' = assertions l /\
  ((map_get id (versions l) = None /\ e = 0 /\ disputes l' = disputes l /\
      versions l' = map_set id [r] (versions l)) \/
   (exists older prior, map_get id (versions l) = Some (older ++ [prior]) /\ status prior = ev_active /\
      e = Z.of_nat (length older) + 1 /\
      disputes l' = closeDisputes id e closed_by_supersession (disputes l) /\
      versions l' = map_set id (older ++ [with_status ev_superseded prior; r]) (versions l))).
Proof.
  intros Hl H id. unfold activate in H. fold id in H.
  apply bind_Ok in H as (? & Hv%require_Ok & H). apply bind_Ok in H as (? & Hp%require_Ok & H).
  apply bind_Ok in H as (? & Hc%require_Ok & H). apply bind_Ok in H as (? & Hs%require_Ok & [= <- <-]).
  apply Z.eqb_eq in Hp. apply negb_true_iff, orb_false_iff in Hc as [Hc _].
  apply negb_false_iff, Z.eqb_eq in Hc. split; [done|]. split; [done|]. split; [done|]. split; [done|].
  unfold claim_history in *. destruct (map_get id (versions l)) as [vs|] eqn:Hg; simpl in *.
  - right. pose proof (claims_ok _ Hl _ _ Hg) as Hok. destruct (claim_last _ _ Hok) as (older & prior & -> & _ & _).
    rewrite last_snoc in *. apply bool_decide_eq_true in Hs. exists older, prior.
    split; [done|]. split; [done|].
    assert (version_of prior = Z.of_nat (length older) + 1) as Hpv.
    { eapply claim_lookup_version; [exact Hok|]. by rewrite lookup_app_r, Nat.sub_diag. }
    split; [lia|]. split; [done|]. f_equal. unfold supersede_last. rewrite length_app. simpl.
    rewrite insert_app_r_alt by lia. replace (length older + 1 - 1 - length older)%nat with 0%nat by lia.
    simpl. by rewrite <- app_assoc.
  - left. simpl in Hp. by repeat split.
Qed.

Lemma version_elsewhere l l' id vs id' v :
  versions l' = map_set id vs (versions l) -> id' <> id -> version l' id' v = version l id' v.
Proof. intros H Hne. unfold version, claim_history. by rewrite H, map_get_set_ne. Qed.

Lemma claims_set l l' id vs :
  ledger_ok l -> versions l' = map_set id vs (versions l) -> claim_ok id vs ->
  forall id' vs', map_get id' (versions l') = Some vs' -> claim_ok id' vs'.
Proof.
  intros Hl H Hvs id' vs'. rewrite H, map_get_set. case_decide as Hid; [|apply Hl].
  intros [= <-]. by subst.
Qed.

(** A new history that extends the old one, payload by payload. *)
Definition extends (vs vs' : list EvidenceRecord) : Prop :=
  forall i r, vs !! i = Some r -> exists r', vs' !! i = Some r' /\ payload r' = payload r.

Lemma set_kept l l' id vs :
  ledger_ok l -> versions l' = map_set id vs (versions l) -> claim_ok id vs ->
  extends (claim_history l id) vs -> payload_kept l l'.
Proof.
  intros Hl H Hvs He id' v r Hr. destruct (decide (id' = id)) as [->|Hne].
  - apply version_Ok in Hr as (Hv & vs0 & Hg & Hi); [|apply Hl].
    unfold claim_history in He. rewrite Hg in He. destruct (He _ _ Hi) as (r' & Hr' & Hp).
    exists r'. split; [|done]. apply version_Ok; [by eapply claims_set|]. split; [done|].
    exists vs. split; [by rewrite H, map_get_set_eq|done].
  - exists r. split; [|done]. by rewrite (version_elsewhere _ _ _ _ _ _ H Hne).
Qed.

(** The disputes of a ledger whose claim [id] got a new history, when those open on it
    have been given another status. *)
Lemma disputes_kept l l' id vs v s :
  ledger_ok l -> versions l' = map_set id vs (versions l) -> claim_ok id vs ->
  extends (claim_history l id) vs -> Z.of_nat (length (claim_history l id)) = v -> s <> dispute_open ->
  claim_history l id <> [] ->
  disputes l' = closeDisputes id v s (disputes l) ->
  forall k d, map_get k (disputes l') = Some d -> dispute_ok l' k d.
Proof.
  intros Hl H Hvs He Hlen Hs Hne Hd k d. rewrite Hd, closeDisputes_get.
  destruct (map_get k (disputes l)) as [d0|] eqn:Hk; [|done]. simpl.
  destruct (disputes_ok _ Hl _ _ Hk) as (Hkey & r & Hr & Ha).
  destruct (set_kept _ _ _ _ Hl H Hvs He _ _ _ Hr) as (r' & Hr' & _).
  destruct (concerns id v d0) eqn:Hc; intros [= <-].
  - split; [done|]. exists r'. split; [done|]. simpl. done.
  - split; [done|]. destruct (decide (claimId d0 = id)) as [Hid|Hid].
    + exists r'. split; [done|]. intros Ho. rewrite (open_concerns l k d0 id v) in Hc; try done.
      unfold claim_history in *. destruct (map_get id (versions l)) as [vs0|]; [|done]. by exists vs0.
    + exists r. split; [|done]. by rewrite (version_elsewhere _ _ _ _ _ _ H Hid).
Qed.

Lemma disputes_kept_new l l' id vs :
  ledger_ok l -> versions l' = map_set id vs (versions l) -> map_get id (versions l) = None ->
  disputes l' = disputes l ->
  forall k d, map_get k (disputes l') = Some d -> dispute_ok l' k d.
Proof.
  intros Hl H Hnone Hd k d. rewrite Hd. intros Hk.
  destruct (disputes_ok _ Hl _ _ Hk) as (Hkey & r & Hr & Ha). split; [done|]. exists r. split; [|done].
  rewrite (version_elsewhere _ _ _ _ _ _ H); [done|]. intros He.
  apply version_Ok in Hr as (_ & vs' & Hg & _); [|apply Hl]. congruence.
Qed.

Lemma closeDisputes_map_ok id v s ds : map_ok ds -> map_ok (closeDisputes id v s ds).
Proof. unfold map_ok. by rewrite closeDisputes_keys. Qed.

Lemma claim_ok_extend id older prior r s :
  claim_ok id (older ++ [prior]) -> status r <> ev_superseded ->
  evidenceClaimPayload (payload r) = true -> ep_claim_id (payload r) = id ->
  version_of r = Z.of_nat (length older) + 2 -> s = ev_superseded ->
  claim_ok id (older ++ [with_status s prior; r]).
Proof.
  intros [Hn Hv (older' & x & Heq & _ & Ho)] Hs Hr Hid Hver ->. apply app_inj_tail in Heq as [<- <-].
  constructor.
  - intros i y Hi. destruct (decide (i < length older)%nat) as [Hlt|Hge].
    + rewrite lookup_app_l in Hi by done. apply Hn. by rewrite lookup_app_l.
    + rewrite lookup_app_r in Hi by lia. destruct (i - length older)%nat as [|[|n]] eqn:En; simplify_eq/=.
      * assert (version_of prior = 1 + Z.of_nat (length older)) as Hp.
        { apply Hn. by rewrite lookup_app_r, Nat.sub_diag. }
        unfold version_of in *. simpl. lia.
      * lia.
  - rewrite !Forall_app in *. destruct Hv as [Hv1 Hv2]. rewrite Forall_singleton in Hv2.
    split; [done|]. apply Forall_cons. split; [done|]. by apply Forall_singleton.
  - exists (older ++ [with_status ev_superseded prior]), r. rewrite <- app_assoc. split; [done|].
    split; [done|]. apply Forall_app. split; [done|]. by apply Forall_singleton.
Qed.

Lemma activate_ok l p e at_ l' r : ledger_ok l -> activate l p e at_ = Ok (l', r) -> ledger_ok l'.
Proof.
  intros Hl (Hv & Hver & -> & Has & Hcase)%activate_inv; [|done]. set (id := ep_claim_id p) in *.
  set (rec := mkEvidenceRecord at_ p ev_active) in *.
  destruct Hcase as [(Hnone & He & Hd & Hvs)|(older & prior & Hg & Hact & He & Hd & Hvs)].
  - assert (claim_ok id [rec]) as Hok.
    { constructor; [|by apply Forall_singleton|by exists [], rec].
      intros i y Hi. destruct i; simplify_eq/=. unfold version_of. simpl. lia. }
    assert (payload_kept l l') as Hk.
    { eapply set_kept; [done|done|done|]. unfold claim_history. rewrite Hnone. by intros i y ?. }
    constructor; rewrite ?Hvs, ?Hd, ?Has; [apply map_set_ok, Hl|apply Hl|apply Hl| | |].
    + rewrite <- Hvs. by eapply claims_set.
    + rewrite <- Hd. by eapply disputes_kept_new.
    + intros k a Ha. eapply assertion_ok_kept; [done|]. by apply Hl.
  - pose proof (claims_ok _ Hl _ _ Hg) as Hold.
    assert (claim_ok id (older ++ [with_status ev_superseded prior; rec])) as Hok.
    { apply claim_ok_extend; try done. unfold version_of. simpl. lia. }
    assert (claim_history l id = older ++ [prior]) as Hh by (unfold claim_history; by rewrite Hg).
    assert (extends (claim_history l id) (older ++ [with_status ev_superseded prior; rec])) as Hext.
    { rewrite Hh. intros i y Hi. destruct (decide (i < length older)%nat) as [Hlt|Hge].
      - exists y. rewrite lookup_app_l in Hi |- * by done. done.
      - rewrite lookup_app_r in Hi |- * by lia. destruct (i - length older)%nat; simplify_eq/=. eauto. }
    constructor; rewrite ?Hvs, ?Hd, ?Has; [apply map_set_ok, Hl|apply closeDisputes_map_ok, Hl|apply Hl| | |].
    + rewrite <- Hvs. by eapply claims_set.
    + rewrite <- Hd. apply (disputes_kept l l' id _ e closed_by_supersession Hl Hvs Hok Hext);
        [rewrite Hh, length_app; simpl; lia|done|rewrite Hh; by destruct older|done].
    + intros k a Ha. eapply assertion_ok_kept; [by eapply set_kept|]. by apply Hl.
Qed.

Lemma revoke_inv l id v l' r :
  ledger_ok l -> revoke l id v = Ok (l', r) ->
  exists older x, map_get id (versions l) = Some (older ++ [x]) /\ status x = ev_active /\
    v = Z.of_nat (length older) + 1 /\ r = with_status ev_revoked x /\
    assertions l' = assertions l /\ disputes l' = closeDisputes id v referred_external (disputes l) /\
    versions l' = map_set id (older ++ [r]) (versions l).
Proof.
  intros Hl H. unfold revoke in H. apply bind_Ok in H as (x & Hx & H).
  apply bind_Ok in H as (? & Hs%require_Ok & H). apply bool_decide_eq_true in Hs.
  apply bind_Ok in H as (l1 & H1 & [= <- <-]). unfold replaceVersion in H1.
  apply bind_Ok in H1 as (vs & Hg%defined_Ok & H1). apply bind_Ok in H1 as (i & Hi%defined_Ok & [= <-]).
  apply version_Ok in Hx as (Hv & vs' & Hg' & Hx); [|apply Hl]. rewrite Hg in Hg'. injection Hg' as <-.
  pose proof (claims_ok _ Hl _ _ Hg) as Hok.
  pose proof (active_last _ _ _ _ Hok Hx ltac:(by rewrite Hs)) as Hlen.
  rewrite (find_index_numbered 1) in Hi; [|apply Hok|lia]. injection Hi as <-.
  destruct (claim_last _ _ Hok) as (older & y & -> & _ & _). rewrite length_app in Hlen. simpl in Hlen.
  rewrite lookup_app_r in Hx by lia. replace (Z.to_nat (v - 1) - length older)%nat with 0%nat in Hx by lia.
  injection Hx as ->. exists older, x. split; [done|]. split; [done|]. split; [lia|]. split; [done|].
  split; [done|]. split; [done|]. simpl. f_equal. rewrite insert_app_r_alt by lia.
  by replace (Z.to_nat (v - 1) - length older)%nat with 0%nat by lia.
Qed.

Lemma revoke_ok l id v l' r : ledger_ok l -> revoke l id v = Ok (l', r) -> ledger_ok l'.
Proof.
  intros Hl (older & x & Hg & Hact & Hv & -> & Has & Hd & Hvs)%revoke_inv; [|done].
  pose proof (claims_ok _ Hl _ _ Hg) as Hold. set (r := with_status ev_revoked x) in *.
  assert (claim_history l id = older ++ [x]) as Hh by (unfold claim_history; by rewrite Hg).
  assert (claim_ok id (older ++ [r])) as Hok.
  { destruct Hold as [Hn Hval (o & y & [<- <-]%app_inj_tail & _ & Ho)]. constructor.
    - intros i z Hi. destruct (decide (i < length older)%nat) as [Hlt|Hge].
      + rewrite lookup_app_l in Hi by done. apply Hn. by rewrite lookup_app_l.
      + rewrite lookup_app_r in Hi by lia. destruct (i - length older)%nat eqn:En; simplify_eq/=.
        apply (Hn i x). by rewrite lookup_app_r, En by lia.
    - by rewrite !Forall_app, !Forall_singleton in *.
    - exists older, r. done. }
  assert (extends (claim_history l id) (older ++ [r])) as Hext.
  { rewrite Hh. intros i y Hi. destruct (decide (i < length older)%nat) as [Hlt|Hge].
    - exists y. rewrite lookup_app_l in Hi |- * by done. done.
    - rewrite lookup_app_r in Hi |- * by lia. destruct (i - length older)%nat; simplify_eq/=. eauto. }
  constructor; rewrite ?Hvs, ?Hd, ?Has; [apply map_set_ok, Hl|apply closeDisputes_map_ok, Hl|apply Hl| | |].
  - rewrite <- Hvs. by eapply claims_set.
  - rewrite <- Hd. apply (disputes_kept l l' id _ v referred_external Hl Hvs Hok Hext);
      [rewrite Hh, length_app; simpl; lia|done|rewrite Hh; by destruct older|done].
  - intros k a Ha. eapply assertion_ok_kept; [by eapply set_kept|]. by apply Hl.
Qed.

(** Ledgers that differ in the assertions or disputes only. *)
Lemma version_same l l' id v : versions l' = versions l -> version l' id v = version l id v.
Proof. intros H. unfold version, claim_history. by rewrite H. Qed.

Lemma addVerification_ok l p l' r : ledger_ok l -> addVerification l p = Ok (l', r) -> ledger_ok l'.
Proof.
  intros Hl H. unfold addVerification in H.
  apply bind_Ok in H as (? & Hv%require_Ok & H). apply bind_Ok in H as (e & He & H).
  apply bind_Ok in H as (? & _ & H). apply bind_Ok in H as (? & Hi%require_Ok & H).
  apply bind_Ok in H as (? & _ & [= <- <-]). destruct Hl as [H1 H2 H3 H4 H5 H6].
  constructor; simpl; [done|done|by apply map_set_ok|done|exact H5|].
  intros k a. rewrite map_get_set. case_decide as Hk; [|exact (H6 k a)]. intros [= <-].
  split; [done|]. split; [done|]. exists e. split; [exact He|].
  by apply negb_true_iff, String.eqb_neq in Hi.
Qed.

Lemma withdrawVerification_ok l id v l' r :
  ledger_ok l -> withdrawVerification l id v = Ok (l', r) -> ledger_ok l'.
Proof.
  intros Hl H. unfold withdrawVerification, assertion in H.
  apply bind_Ok in H as (a & Ha%defined_Ok & H). apply bind_Ok in H as (? & _ & [= <- <-]).
  destruct Hl as [H1 H2 H3 H4 H5 H6]. constructor; simpl; [done|done|by apply map_set_ok|done|exact H5|].
  intros k b. rewrite map_get_set. case_decide as Hk; [|exact (H6 k b)]. intros [= <-].
  subst k. exact (H6 _ _ Ha).
Qed.

Lemma openDispute_ok l input l' r : ledger_ok l -> openDispute l input = Ok (l', r) -> ledger_ok l'.
Proof.
  intros Hl H. unfold openDispute in H. apply bind_Ok in H as (? & _ & H).
  apply bind_Ok in H as (e & He & H). apply bind_Ok in H as (? & Ha%require_Ok & [= <- <-]). apply bool_decide_eq_true in Ha.
  destruct Hl as [H1 H2 H3 H4 H5 H6]. constructor; simpl; [done|by apply map_set_ok|done|done| |exact H6].
  intros k d. rewrite map_get_set. case_decide as Hk; [|exact (H5 k d)]. intros [= <-].
  split; [done|]. exists e. split; [exact He|]. done.
Qed.

Lemma changeDispute_ok l id s l' r : ledger_ok l -> changeDispute l id s = Ok (l', r) -> ledger_ok l'.
Proof.
  intros Hl H. unfold changeDispute, dispute in H. apply bind_Ok in H as (d & Hd%defined_Ok & H).
  apply bind_Ok in H as (? & _ & [= <- <-]). destruct Hl as [H1 H2 H3 H4 H5 H6].
  constructor; simpl; [done|by apply map_set_ok|done|done| |exact H6].
  intros k d'. rewrite map_get_set. case_decide as Hk; [|exact (H5 k d')]. intros [= <-]. subst k.
  destruct (H5 _ _ Hd) as (Hkey & e & He & _). split; [done|]. exists e. split; [exact He|].
  by destruct s.
Qed.

Lemma run_ok l c : ledger_ok l -> ledger_ok (run l c).
Proof.
  intros Hl. destruct c; simpl; unfold keep; match goal with |- context [match ?x with _ => _ end] =>
    destruct x as [[l' r]|] eqn:He; [|done] end;
    eauto using activate_ok, revoke_ok, addVerification_ok, withdrawVerification_ok, openDispute_ok,
      changeDispute_ok.
Qed.

Lemma after_from l calls : ledger_ok l -> ledger_ok (fold_left run calls l).
Proof. revert l; induction calls as [|c calls IH]; intros l Hl; simpl; [done|]. by apply IH, run_ok. Qed.

Lemma calls_ok calls : ledger_ok (after calls).
Proof. apply after_from, empty_ledger_ok. Qed.

(** ** Properties *)

(** C33. After any calls, the history of every claim numbers its versions 1, 2, ...
    with all but the last superseded and the last active or revoked; every open
    dispute is on an active version; every assertion is about a recorded version and
    was not made by the organization that issued it. *)
Theorem ledger_invariant (calls : list LedgerCall) : ledger_ok (after calls).
Proof. apply calls_ok. Qed.

(** [activate] in full: on a valid payload it succeeds exactly when the expected
    prior version is the latest one (0 for a new claim), the payload is the next
    version and the latest version is not revoked; the errors are told apart in the
    code's order. *)
Theorem activate_outcome (calls : list LedgerCall) (p : EvidencePayload) (e at_ : Z) :
  let l := after calls in
  let vs := claim_history l (ep_claim_id p) in
  evidenceClaimPayload p = true ->
  match activate l p e at_ with
  | Ok (l', r) => e = Z.of_nat (length vs) /\ ep_claim_version p = e + 1 /\
      (forall x, last vs = Some x -> status x = ev_active) /\ current l' (ep_claim_id p) = Ok r
  | Throw err =>
      (err = invalid_prior /\ e <> Z.of_nat (length vs)) \/
      (err = conflict /\ e = Z.of_nat (length vs) /\ ep_claim_version p <> e + 1) \/
      (err = invalid_state /\ e = Z.of_nat (length vs) /\ ep_claim_version p = e + 1 /\
        exists x, last vs = Some x /\ status x = ev_revoked)
  end.
Proof.
  intros l vs Hp. pose proof (calls_ok calls) as Hl. fold l in Hl.
  assert (match last vs with Some r => version_of r | None => 0 end = Z.of_nat (length vs)) as Hlast.
  { unfold vs, claim_history. destruct (map_get (ep_claim_id p) (versions l)) as [h|] eqn:Hg; [|done]. simpl.
    pose proof (claims_ok _ Hl _ _ Hg) as Hok. destruct (claim_last _ _ Hok) as (older & x & -> & _ & _).
    rewrite last_snoc, length_app. simpl. erewrite (claim_lookup_version _ _ (length older)); [|exact Hok|].
    - lia.
    - by rewrite lookup_app_r, Nat.sub_diag. }
  unfold activate. fold vs. rewrite Hp, Hlast. simpl require.
  destruct (Z.eqb_spec (Z.of_nat (length vs)) e) as [He|He]; simpl; [|by left; split; [|intros ->]].
  destruct (Z.eqb_spec (ep_claim_version p) (e + 1)) as [Hv|Hv]; simpl; [|by right; left].
  assert (existsb (fun r => version_of r =? ep_claim_version p) vs = false) as ->.
  { apply not_true_is_false. rewrite existsb_exists. intros (x & Hin & Hx%Z.eqb_eq).
    apply list_elem_of_In, list_elem_of_lookup in Hin as [i Hi].
    unfold vs, claim_history in Hi, He. destruct (map_get (ep_claim_id p) (versions l)) as [h|] eqn:Hg; [|done].
    simpl in *. pose proof (claim_lookup_version _ _ _ _ (claims_ok _ Hl _ _ Hg) Hi).
    apply lookup_lt_Some in Hi. lia. }
  simpl. destruct (last vs) as [x|] eqn:Hx.
  - destruct (bool_decide_reflect (status x = ev_active)) as [Ha|Ha]; simpl.
    + split; [done|]. split; [done|]. split; [by intros ? [= <-]|].
      unfold current. simpl. rewrite map_get_set_eq. simpl. by rewrite last_snoc.
    + right; right. split; [done|]. split; [done|]. split; [done|]. exists x. split; [done|].
      unfold vs, claim_history in Hx. destruct (map_get (ep_claim_id p) (versions l)) as [h|] eqn:Hg; [|done].
      destruct (claim_last _ _ (claims_ok _ Hl _ _ Hg)) as (o & y & -> & Hs & _).
      simpl in Hx. rewrite last_snoc in Hx. injection Hx as ->. by destruct (status x).
  - split; [done|]. split; [done|]. split; [done|]. unfold current. simpl. rewrite map_get_set_eq. simpl. by rewrite last_snoc.
Qed.

Lemma activate_outcome_witness :
  match activate (after [call_activate (sample_evidence 1) 0 7]) (sample_evidence 2) 1 8 with
  | Ok (l', r) => current l' (sample_urn "claim") = Ok r
  | Throw _ => False
  end.
Proof.
  pose proof (activate_outcome [call_activate (sample_evidence 1) 0 7] (sample_evidence 2) 1 8
    ltac:(vm_compute; reflexivity)) as H.
  destruct (activate (after [call_activate (sample_evidence 1) 0 7]) (sample_evidence 2) 1 8) as [[l' r]|err] eqn:He.
  - apply H.
  - vm_compute in He. discriminate.
Defined.

(** What a call leaves of a history: the payloads are only added to, and a version
    that is no longer active never becomes active again. *)
Definition advances (vs vs' : list EvidenceRecord) : Prop :=
  (exists new, payload <$> vs' = (payload <$> vs) ++ new) /\
  forall i x x', vs !! i = Some x -> vs' !! i = Some x' -> status x <> ev_active -> status x' = status x.

Lemma advances_refl vs : advances vs vs.
Proof. split; [exists []; by rewrite app_nil_r|]. intros i x x' H H'. congruence. Qed.

Lemma advances_trans a b c : advances a b -> advances b c -> advances a c.
Proof.
  intros [[n1 H1] S1] [[n2 H2] S2]. split.
  - exists (n1 ++ n2). by rewrite H2, H1, app_assoc.
  - intros i x z Hx Hz Ha. assert (is_Some (b !! i)) as [y Hy].
    { apply lookup_lt_is_Some. apply lookup_lt_Some in Hx.
      apply (f_equal length) in H1. rewrite length_app, !length_fmap in H1. lia. }
    pose proof (S1 _ _ _ Hx Hy Ha) as Hs. rewrite <- Hs in Ha |- *. by apply (S2 i y z).
Qed.

Lemma advances_last older x tail :
  payload <$> tail <> [] -> (payload <$> tail) !! 0%nat = Some (payload x) ->
  status x = ev_active -> advances (older ++ [x]) (older ++ tail).
Proof.
  intros _ Hp Ha. split.
  - destruct tail as [|y tail]; [done|]. simpl in Hp. injection Hp as Hp.
    exists (payload <$> tail). rewrite !fmap_app, <- app_assoc. simpl. by rewrite Hp.
  - intros i z z' Hz Hz' Hs. destruct (decide (i < length older)%nat) as [Hlt|Hge].
    + rewrite lookup_app_l in Hz, Hz' by done. congruence.
    + rewrite lookup_app_r in Hz by lia. destruct (i - length older)%nat; simplify_eq/=.
Qed.

Lemma run_advances l c id :
  ledger_ok l -> advances (claim_history l id) (claim_history (run l c) id).
Proof.
  intros Hl. assert (forall l', versions l' = versions l -> advances (claim_history l id) (claim_history l' id)) as Hsame.
  { intros l' H. unfold claim_history. rewrite H. apply advances_refl. }
  destruct c as [p e at_|id' v|p|id' v|input|id' s]; simpl; unfold keep.
  - destruct (activate l p e at_) as [[l' r]|] eqn:He; [|by apply Hsame].
    apply activate_inv in He as (_ & _ & Hr & _ & Hcase); [|done]. unfold claim_history.
    destruct Hcase as [(Hg & _ & _ & ->)|(older & prior & Hg & Ha & _ & _ & ->)];
      rewrite map_get_set; case_decide as Hid; try apply advances_refl; subst id; rewrite Hg; simpl.
    + split; [by exists [p]; rewrite Hr|]. intros i x x' Hx. done.
    + by apply advances_last.
  - destruct (revoke l id' v) as [[l' r]|] eqn:He; [|by apply Hsame].
    apply revoke_inv in He as (older & x & Hg & Ha & _ & -> & _ & _ & Hv); [|done]. unfold claim_history.
    rewrite Hv, map_get_set. case_decide as Hid; [|apply advances_refl]. subst id. rewrite Hg. simpl.
    by apply advances_last.
  - destruct (addVerification l p) as [[l' r]|] eqn:He; apply Hsame; [|done].
    unfold addVerification in He. apply bind_Ok in He as (? & _ & He). apply bind_Ok in He as (? & _ & He).
    apply bind_Ok in He as (? & _ & He). apply bind_Ok in He as (? & _ & He). by apply bind_Ok in He as (? & _ & [= <- _]).
  - destruct (withdrawVerification l id' v) as [[l' r]|] eqn:He; apply Hsame; [|done].
    unfold withdrawVerification in He. apply bind_Ok in He as (? & _ & He). by apply bind_Ok in He as (? & _ & [= <- _]).
  - destruct (openDispute l input) as [[l' r]|] eqn:He; apply Hsame; [|done].
    unfold openDispute in He. apply bind_Ok in He as (? & _ & He). apply bind_Ok in He as (? & _ & He).
    by apply bind_Ok in He as (? & _ & [= <- _]).
  - destruct (changeDispute l id' s) as [[l' r]|] eqn:He; apply Hsame; [|done].
    unfold changeDispute in He. apply bind_Ok in He as (? & _ & He). by apply bind_Ok in He as (? & _ & [= <- _]).
Qed.

(** The history of a claim is append-only: further calls never change or remove a
    recorded payload, and a superseded or revoked version keeps that status for ever;
    in particular a revoked claim accepts no further version. *)
Theorem history_append_only (calls more : list LedgerCall) (id : string) :
  let before := claim_history (after calls) id in
  let later := claim_history (after (calls ++ more)) id in
  advances before later /\
  (forall x, last before = Some x -> status x = ev_revoked -> length later = length before).
Proof.
  intros before later. pose proof (calls_ok calls) as Hl.
  assert (forall l, ledger_ok l -> advances (claim_history l id) (claim_history (fold_left run more l) id)) as Hgen.
  { clear. induction more as [|c more IH]; intros l Hl; simpl; [apply advances_refl|].
    eapply advances_trans; [by apply run_advances|]. by apply IH, run_ok. }
  unfold later, after. rewrite fold_left_app. fold (after calls). specialize (Hgen _ Hl) as Hadv.
  split; [exact Hadv|]. intros x Hx Hs. destruct Hadv as [[new Hnew] Hst]. fold before in Hnew, Hst.
  set (fin := claim_history (fold_left run more (after calls)) id) in *.
  assert (before !! (length before - 1)%nat = Some x) as Hi.
  { rewrite last_lookup in Hx. by replace (length before - 1)%nat with (Nat.pred (length before)) by lia. }
  assert (length fin = (length before + length new)%nat) as Hlen.
  { apply (f_equal length) in Hnew. by rewrite length_app, !length_fmap in Hnew. }
  pose proof (lookup_lt_Some _ _ _ Hi) as Hlt.
  destruct (lookup_lt_is_Some_2 fin (length before - 1)%nat ltac:(lia)) as [x' Hx'].
  pose proof (Hst _ _ _ Hi Hx' ltac:(by rewrite Hs)) as Hsx. rewrite Hs in Hsx.
  pose proof (after_from _ more Hl) as Hl'. unfold fin, claim_history in Hx', Hlen |- *.
  destruct (map_get id (versions (fold_left run more (after calls)))) as [vs|] eqn:Hg; simpl in *; [|done].
  pose proof (active_last _ _ _ _ (claims_ok _ Hl' _ _ Hg) Hx' ltac:(by rewrite Hsx)). lia.
Qed.

Lemma history_append_only_witness :
  let calls := [call_activate (sample_evidence 1) 0 7; call_revoke (sample_urn "claim") 1] in
  length (claim_history (after (calls ++ [call_activate (sample_evidence 2) 1 9])) (sample_urn "claim")) = 1%nat.
Proof.
  intros calls.
  refine (proj2 (history_append_only calls [call_activate (sample_evidence 2) 1 9] (sample_urn "claim"))
    (mkEvidenceRecord 7 (sample_evidence 1) ev_revoked) _ _).
  - vm_compute. reflexivity.
  - reflexivity.
Defined.
