(* ===== verification/KeyLifecycle.v ===== *)
(** * Encryption keys, controller authorizations and access grants

    [src/src/protected-bundles/keys/lifecycle.ts]. The three [Map]s of
    [KeyLifecycleRegistry] hold mutable objects. An asynchronous method looks an
    object up, awaits the verification of an envelope and then writes to the object
    it looked up, so authorizations and grants live in a heap and the maps hold
    addresses; a key object is never held across an [await], so keys are values.

    An asynchronous method is two steps: [start_*], up to the [await], leaves a
    [Pending] continuation; [finish] runs it with the verifier's answer. Other calls
    may run in between. *)

From S2P Require Import Prelude.

Inductive EncryptionKeyState := key_pending | key_active | key_retired | key_revoked | key_lost | key_compromised.
Inductive GrantStoredState := grant_prepared | grant_active | grant_revoked.
Inductive ControllerAuthorizationState := auth_staged | auth_active | auth_retired.

#[global] Instance EncryptionKeyState_eq_dec : EqDecision EncryptionKeyState.
Proof. solve_decision. Defined.
#[global] Instance GrantStoredState_eq_dec : EqDecision GrantStoredState.
Proof. solve_decision. Defined.
#[global] Instance ControllerAuthorizationState_eq_dec : EqDecision ControllerAuthorizationState.
Proof. solve_decision. Defined.

Record EncryptionKeyRecord := mkKey {
  key_id : string;
  organizationId : string;
  key_state : EncryptionKeyState
}.

Record AccessGrantRecord := mkGrant {
  effectiveAt : Z;
  grant_envelopeId : string;
  expiresAt : Z;
  grantId : string;
  recipientKeyId : string;
  grant_state : GrantStoredState
}.

Record ControllerAuthorizationRecord := mkAuthorization {
  authorizationId : string;
  auth_envelopeId : string;
  auth_keyId : string;
  auth_state : ControllerAuthorizationState
}.

Record KeyLifecycleSnapshot := mkSnapshot {
  snap_authorizations : list ControllerAuthorizationRecord;
  snap_grants : list AccessGrantRecord;
  snap_keys : list EncryptionKeyRecord
}.

(** [KeyLifecycleError] codes *)
Inductive KeyError := invalid_transition | key_unavailable | last_controller | policy_denied.

Notation address := nat (only parsing).

Record KeyLifecycleRegistry := mkRegistry {
  authorizations : list (string * address);
  grants : list (string * address);
  keys : list (string * EncryptionKeyRecord);
  auth_heap : list ControllerAuthorizationRecord;
  grant_heap : list AccessGrantRecord
}.

Definition new_registry : KeyLifecycleRegistry := mkRegistry [] [] [] [] [].

Definition set_key_state (s : EncryptionKeyState) (k : EncryptionKeyRecord) : EncryptionKeyRecord :=
  mkKey (key_id k) (organizationId k) s.
Definition set_grant_state (s : GrantStoredState) (g : AccessGrantRecord) : AccessGrantRecord :=
  mkGrant (effectiveAt g) (grant_envelopeId g) (expiresAt g) (grantId g) (recipientKeyId g) s.
Definition set_auth_state (s : ControllerAuthorizationState) (a : ControllerAuthorizationRecord) :
    ControllerAuthorizationRecord :=
  mkAuthorization (authorizationId a) (auth_envelopeId a) (auth_keyId a) s.

(** ** Lookups *)

Definition key (r : KeyLifecycleRegistry) (id : string) : result KeyError EncryptionKeyRecord :=
  defined (map_get id (keys r)) key_unavailable.

(** The address and the object. *)
Definition deref {X} (m : list (string * address)) (h : list X) (id : string) : option (address * X) :=
  match map_get id m with
  | Some a => match h !! a with Some x => Some (a, x) | None => None end
  | None => None
  end.

Definition authorization (r : KeyLifecycleRegistry) (id : string) :
    result KeyError (address * ControllerAuthorizationRecord) :=
  defined (deref (authorizations r) (auth_heap r) id) key_unavailable.

Definition grant (r : KeyLifecycleRegistry) (id : string) : result KeyError (address * AccessGrantRecord) :=
  defined (deref (grants r) (grant_heap r) id) policy_denied.

Definition isUsableKey (r : KeyLifecycleRegistry) (id : string) : result KeyError bool :=
  k ← key r id; Ok (bool_decide (key_state k = key_active \/ key_state k = key_retired)).

Definition requireActiveKey (r : KeyLifecycleRegistry) (id : string) : result KeyError unit :=
  k ← key r id; require (bool_decide (key_state k = key_active)) key_unavailable.

Definition requireUsableKey (r : KeyLifecycleRegistry) (id : string) : result KeyError unit :=
  b ← isUsableKey r id; require b key_unavailable.

(** [[...map.values()]]: the objects listed, in insertion order. *)
Definition refs_values {X} (m : list (string * address)) (h : list X) : list X :=
  omap (fun a => h !! a) (map_values m).

Definition authorization_values (r : KeyLifecycleRegistry) : list ControllerAuthorizationRecord :=
  refs_values (authorizations r) (auth_heap r).

Definition grant_values (r : KeyLifecycleRegistry) : list AccessGrantRecord :=
  refs_values (grants r) (grant_heap r).

Fixpoint count_usable (r : KeyLifecycleRegistry) (l : list ControllerAuthorizationRecord) : result KeyError Z :=
  match l with
  | [] => Ok 0
  | a :: l =>
      b ← (if bool_decide (auth_state a = auth_active) then isUsableKey r (auth_keyId a) else Ok false);
      n ← count_usable r l;
      Ok (if (b : bool) then n + 1 else n)
  end.

Definition usableControllerCount (r : KeyLifecycleRegistry) : result KeyError Z :=
  count_usable r (authorization_values r).

Definition isTerminalKeyState (s : EncryptionKeyState) : bool :=
  match s with key_pending | key_active => false | _ => true end.

(** ** Writes *)

Definition put_key (id : string) (k : EncryptionKeyRecord) (r : KeyLifecycleRegistry) : KeyLifecycleRegistry :=
  mkRegistry (authorizations r) (grants r) (map_set id k (keys r)) (auth_heap r) (grant_heap r).

Definition write_auth (a : address) (x : ControllerAuthorizationRecord) (r : KeyLifecycleRegistry) :
    KeyLifecycleRegistry :=
  mkRegistry (authorizations r) (grants r) (keys r) (<[a := x]> (auth_heap r)) (grant_heap r).

Definition write_grant (a : address) (x : AccessGrantRecord) (r : KeyLifecycleRegistry) : KeyLifecycleRegistry :=
  mkRegistry (authorizations r) (grants r) (keys r) (auth_heap r) (<[a := x]> (grant_heap r)).

(** A new object, stored under [id]. *)
Definition new_auth (id : string) (x : ControllerAuthorizationRecord) (r : KeyLifecycleRegistry) :
    KeyLifecycleRegistry :=
  mkRegistry (map_set id (length (auth_heap r)) (authorizations r)) (grants r) (keys r)
    (auth_heap r ++ [x]) (grant_heap r).

Definition new_grant (id : string) (x : AccessGrantRecord) (r : KeyLifecycleRegistry) : KeyLifecycleRegistry :=
  mkRegistry (authorizations r) (map_set id (length (grant_heap r)) (grants r)) (keys r)
    (auth_heap r) (grant_heap r ++ [x]).

(** ** Synchronous methods *)

Definition addKey (r : KeyLifecycleRegistry) (record : EncryptionKeyRecord) : result KeyError KeyLifecycleRegistry :=
  _ ← require (negb (map_has (key_id record) (keys r))) invalid_transition;
  Ok (put_key (key_id record) record r).

Definition activateKey (r : KeyLifecycleRegistry) (id : string) : result KeyError KeyLifecycleRegistry :=
  k ← key r id;
  _ ← require (bool_decide (key_state k = key_pending)) invalid_transition;
  Ok (put_key id (set_key_state key_active k) r).

Inductive KeyFailure := failure_compromised | failure_lost | failure_revoked.
Definition failure_state (f : KeyFailure) : EncryptionKeyState :=
  match f with
  | failure_compromised => key_compromised | failure_lost => key_lost | failure_revoked => key_revoked
  end.

Definition recordKeyFailure (r : KeyLifecycleRegistry) (id : string) (f : KeyFailure) :
    result KeyError KeyLifecycleRegistry :=
  k ← key r id;
  _ ← require (negb (isTerminalKeyState (key_state k))) invalid_transition;
  Ok (put_key id (set_key_state (failure_state f) k) r).

Definition retireKey (r : KeyLifecycleRegistry) (id : string) : result KeyError KeyLifecycleRegistry :=
  k ← key r id;
  _ ← require (bool_decide (key_state k = key_active)) invalid_transition;
  let lastControllerForKey :=
    existsb (fun a => String.eqb (auth_keyId a) id && bool_decide (auth_state a = auth_active))
      (authorization_values r) in
  blocked ← (if lastControllerForKey then n ← usableControllerCount r; Ok (n <=? 1) else Ok false);
  _ ← require (negb (blocked : bool)) last_controller;
  Ok (put_key id (set_key_state key_retired k) r).

Definition stageControllerAuthorization (r : KeyLifecycleRegistry) (record : ControllerAuthorizationRecord) :
    result KeyError KeyLifecycleRegistry :=
  _ ← require (negb (negb (bool_decide (auth_state record = auth_staged)) ||
                     map_has (authorizationId record) (authorizations r))) invalid_transition;
  _ ← requireActiveKey r (auth_keyId record);
  Ok (new_auth (authorizationId record) record r).

Definition activateControllerAuthorization (r : KeyLifecycleRegistry) (id : string) :
    result KeyError KeyLifecycleRegistry :=
  p ← authorization r id;
  let '(a, x) := (p : address * ControllerAuthorizationRecord) in
  _ ← require (bool_decide (auth_state x = auth_staged)) invalid_transition;
  _ ← requireActiveKey r (auth_keyId x);
  Ok (write_auth a (set_auth_state auth_active x) r).

Definition prepareGrant (r : KeyLifecycleRegistry) (record : AccessGrantRecord) :
    result KeyError KeyLifecycleRegistry :=
  _ ← require (negb (negb (bool_decide (grant_state record = grant_prepared)) ||
                     (expiresAt record <=? effectiveAt record))) invalid_transition;
  _ ← requireActiveKey r (recipientKeyId record);
  n ← usableControllerCount r;
  _ ← require (negb (n =? 0)) key_unavailable;
  _ ← require (negb (map_has (grantId record) (grants r))) invalid_transition;
  Ok (new_grant (grantId record) record r).

Definition revokeGrant (r : KeyLifecycleRegistry) (id : string) : result KeyError KeyLifecycleRegistry :=
  p ← grant r id;
  let '(a, x) := (p : address * AccessGrantRecord) in
  _ ← require (negb (bool_decide (grant_state x = grant_revoked))) invalid_transition;
  Ok (write_grant a (set_grant_state grant_revoked x) r).

(** [GrantStoredState | expired] *)
Definition effectiveGrantState (r : KeyLifecycleRegistry) (id : string) (currentTime : Z) :
    result KeyError (option GrantStoredState) :=
  p ← grant r id;
  let x := (p : address * AccessGrantRecord).2 in
  Ok (if negb (bool_decide (grant_state x = grant_revoked)) && (expiresAt x <=? currentTime)
      then None else Some (grant_state x)).

Definition authorizeRetrieval (r : KeyLifecycleRegistry) (id : string) (currentTime : Z) : result KeyError unit :=
  p ← grant r id;
  let x := (p : address * AccessGrantRecord).2 in
  s ← effectiveGrantState r id currentTime;
  _ ← require (negb (negb (bool_decide (s = Some grant_active)) || (currentTime <? effectiveAt x))) policy_denied;
  requireUsableKey r (recipientKeyId x).

(** ** Asynchronous methods *)

(** What a method does after its [await]. *)
Inductive Pending :=
| after_rotateController (predecessor : address) (successor : ControllerAuthorizationRecord)
| after_activateGrant (g : address)
| after_rotateRecipient (id : string) (g : address) (successorKeyId successorEnvelopeId : string).

Definition start_rotateControllerAuthorization (r : KeyLifecycleRegistry) (predecessorId : string)
    (successor : ControllerAuthorizationRecord) : result KeyError Pending :=
  p ← authorization r predecessorId;
  let '(a, x) := (p : address * ControllerAuthorizationRecord) in
  _ ← require (bool_decide (auth_state x = auth_active)) key_unavailable;
  _ ← requireUsableKey r (auth_keyId x);
  _ ← require (bool_decide (auth_state successor = auth_staged)) invalid_transition;
  _ ← requireActiveKey r (auth_keyId successor);
  Ok (after_rotateController a successor).

Definition start_activateGrant (r : KeyLifecycleRegistry) (id : string) (currentTime : Z) :
    result KeyError Pending :=
  p ← grant r id;
  let '(a, x) := (p : address * AccessGrantRecord) in
  _ ← require (negb (negb (bool_decide (grant_state x = grant_prepared)) || (expiresAt x <=? currentTime)))
        invalid_transition;
  _ ← requireActiveKey r (recipientKeyId x);
  Ok (after_activateGrant a).

Definition start_rotateRecipientEnvelope (r : KeyLifecycleRegistry) (id successorKeyId successorEnvelopeId : string) :
    result KeyError Pending :=
  p ← grant r id;
  let '(a, x) := (p : address * AccessGrantRecord) in
  _ ← require (bool_decide (grant_state x = grant_active)) policy_denied;
  _ ← requireActiveKey r successorKeyId;
  Ok (after_rotateRecipient id a successorKeyId successorEnvelopeId).

(** After the [await]: the objects are those captured before it. *)
Definition resume_rotateController (r : KeyLifecycleRegistry) (predecessor : address)
    (successor : ControllerAuthorizationRecord) : KeyLifecycleRegistry :=
  let r' := new_auth (authorizationId successor) (set_auth_state auth_active successor) r in
  match auth_heap r' !! predecessor with
  | Some x => write_auth predecessor (set_auth_state auth_retired x) r'
  | None => r'
  end.

Definition resume_activateGrant (r : KeyLifecycleRegistry) (g : address) : KeyLifecycleRegistry :=
  match grant_heap r !! g with
  | Some x => write_grant g (set_grant_state grant_active x) r
  | None => r
  end.

(** [...grant] reads the captured object as it is now. *)
Definition resume_rotateRecipient (r : KeyLifecycleRegistry) (id : string) (g : address)
    (successorKeyId successorEnvelopeId : string) : KeyLifecycleRegistry :=
  match grant_heap r !! g with
  | Some x =>
      new_grant id (mkGrant (effectiveAt x) successorEnvelopeId (expiresAt x) (grantId x) successorKeyId
                      (grant_state x)) r
  | None => r
  end.

(** The verifier answered [verified]. *)
Definition finish (r : KeyLifecycleRegistry) (p : Pending) (verified : bool) : result KeyError KeyLifecycleRegistry :=
  _ ← require verified key_unavailable;
  Ok (match p with
      | after_rotateController a successor => resume_rotateController r a successor
      | after_activateGrant a => resume_activateGrant r a
      | after_rotateRecipient id a k e => resume_rotateRecipient r id a k e
      end).

(** ** Snapshots *)

Section Snapshots.
Context `{LocaleCompare}.

Definition snapshot (r : KeyLifecycleRegistry) : KeyLifecycleSnapshot :=
  mkSnapshot
    (js_sort (fun x y => localeCompare (authorizationId x) (authorizationId y)) (authorization_values r))
    (js_sort (fun x y => localeCompare (grantId x) (grantId y)) (grant_values r))
    (js_sort (fun x y => localeCompare (key_id x) (key_id y)) (map_values (keys r))).
End Snapshots.

Definition isNonemptyString (s : string) : bool := (0 <? String.length s)%nat.

Definition isEncryptionKeyRecord (k : EncryptionKeyRecord) : bool :=
  isNonemptyString (key_id k) && isNonemptyString (organizationId k).

Definition isControllerAuthorizationRecord (a : ControllerAuthorizationRecord) : bool :=
  isNonemptyString (authorizationId a) && isNonemptyString (auth_envelopeId a) && isNonemptyString (auth_keyId a).

Definition isAccessGrantRecord (g : AccessGrantRecord) : bool :=
  isNonemptyString (grantId g) && isNonemptyString (grant_envelopeId g) && isNonemptyString (recipientKeyId g) &&
  isSafeInteger (effectiveAt g) && isSafeInteger (expiresAt g) && (effectiveAt g <? expiresAt g).

Definition restore_key (r : KeyLifecycleRegistry) (k : EncryptionKeyRecord) : result KeyError KeyLifecycleRegistry :=
  _ ← require (isEncryptionKeyRecord k) invalid_transition; addKey r k.

Definition restore_authorization (r : KeyLifecycleRegistry) (a : ControllerAuthorizationRecord) :
    result KeyError KeyLifecycleRegistry :=
  _ ← require (negb (negb (isControllerAuthorizationRecord a) || negb (map_has (auth_keyId a) (keys r)) ||
                     map_has (authorizationId a) (authorizations r))) invalid_transition;
  Ok (new_auth (authorizationId a) a r).

Definition restore_grant (r : KeyLifecycleRegistry) (g : AccessGrantRecord) : result KeyError KeyLifecycleRegistry :=
  _ ← require (negb (negb (isAccessGrantRecord g) || negb (map_has (recipientKeyId g) (keys r)) ||
                     map_has (grantId g) (grants r))) invalid_transition;
  Ok (new_grant (grantId g) g r).

(** On a value of the snapshot's shape; any other value is refused at once. *)
Definition fromSnapshot (s : KeyLifecycleSnapshot) : result KeyError KeyLifecycleRegistry :=
  r ← fold_result restore_key new_registry (snap_keys s);
  r ← fold_result restore_authorization r (snap_authorizations s);
  fold_result restore_grant r (snap_grants s).

(** ** The system: a registry and its suspended calls *)

Record System := mkSystem { registry : KeyLifecycleRegistry; pending : list Pending }.

Inductive SyncCall :=
| call_addKey (record : EncryptionKeyRecord)
| call_activateKey (id : string)
| call_recordKeyFailure (id : string) (f : KeyFailure)
| call_retireKey (id : string)
| call_stage (record : ControllerAuthorizationRecord)
| call_activateAuthorization (id : string)
| call_prepareGrant (record : AccessGrantRecord)
| call_revokeGrant (id : string).

Definition run_sync (r : KeyLifecycleRegistry) (c : SyncCall) : result KeyError KeyLifecycleRegistry :=
  match c with
  | call_addKey record => addKey r record
  | call_activateKey id => activateKey r id
  | call_recordKeyFailure id f => recordKeyFailure r id f
  | call_retireKey id => retireKey r id
  | call_stage record => stageControllerAuthorization r record
  | call_activateAuthorization id => activateControllerAuthorization r id
  | call_prepareGrant record => prepareGrant r record
  | call_revokeGrant id => revokeGrant r id
  end.

Inductive AsyncCall :=
| call_rotateController (predecessorId : string) (successor : ControllerAuthorizationRecord)
| call_activateGrant (id : string) (currentTime : Z)
| call_rotateRecipient (id successorKeyId successorEnvelopeId : string).

Definition start_async (r : KeyLifecycleRegistry) (c : AsyncCall) : result KeyError Pending :=
  match c with
  | call_rotateController id s => start_rotateControllerAuthorization r id s
  | call_activateGrant id t => start_activateGrant r id t
  | call_rotateRecipient id k e => start_rotateRecipientEnvelope r id k e
  end.

(** A call that throws changes nothing; a suspended call resumes at any time. *)
Inductive step : System -> System -> Prop :=
| step_sync r c r' ps : run_sync r c = Ok r' -> step (mkSystem r ps) (mkSystem r' ps)
| step_start r c p ps : start_async r c = Ok p -> step (mkSystem r ps) (mkSystem r (p :: ps))
| step_finish r p v r' before after_ :
    finish r p v = Ok r' -> step (mkSystem r (before ++ p :: after_)) (mkSystem r' (before ++ after_))
| step_fail r p before after_ :
    finish r p false = Throw key_unavailable ->
    step (mkSystem r (before ++ p :: after_)) (mkSystem r (before ++ after_)).

(** A new registry or one read from a snapshot, before any call. *)
Inductive initial : System -> Prop :=
| initial_new : initial (mkSystem new_registry [])
| initial_snapshot v r : fromSnapshot v = Ok r -> initial (mkSystem r []).

Definition reachable (s : System) : Prop := exists s0, initial s0 /\ rtc step s0 s.

(** ** References *)

Section Deref.
Context {X : Type}.
Implicit Types (m : list (string * address)) (h : list X).

Lemma deref_Some m h id a x : deref m h id = Some (a, x) <-> map_get id m = Some a /\ h !! a = Some x.
Proof. unfold deref. case_all; naive_solver. Qed.

Lemma deref_new_ne m h id id' y a x :
  deref m h id = Some (a, x) -> id' <> id -> deref (map_set id' (length h) m) (h ++ [y]) id = Some (a, x).
Proof.
  rewrite !deref_Some. intros [? ?] ?. rewrite map_get_set_ne by done.
  split; [done|by apply lookup_app_l_Some].
Qed.

Lemma deref_write m h id a x b y :
  deref m h id = Some (a, x) -> b <> a -> deref m (<[b := y]> h) id = Some (a, x).
Proof. rewrite !deref_Some. intros [? ?] ?. by rewrite list_lookup_insert_ne. Qed.

Lemma deref_write_eq m h id a x y :
  deref m h id = Some (a, x) -> deref m (<[a := y]> h) id = Some (a, y).
Proof.
  rewrite !deref_Some. intros [? Hx]. split; [done|].
  apply list_lookup_insert_eq. by eapply lookup_lt_Some.
Qed.

Lemma map_set_values (m : list (string * address)) id a :
  a ∉ m.*2 -> NoDup m.*2 -> NoDup (map_set id a m).*2.
Proof.
  induction m as [|[k b] m IH]; csimpl; intros Ha Hnd; [apply NoDup_singleton|].
  apply NoDup_cons in Hnd as [Hb Hnd]. apply not_elem_of_cons in Ha as [Hab Ha].
  destruct (decide (id = k)); csimpl; constructor; auto.
  intros [[k' b'] [-> [Hin|Hin]%map_set_elem]]%list_elem_of_fmap; [|naive_solver].
  apply Hb. apply list_elem_of_fmap. by exists (k', b').
Qed.
End Deref.

Section Refs.
Context {X : Type} (name_of : X -> string).
Implicit Types (m : list (string * address)) (h : list X).

(** Every address is that of an object of its name, no two names share one. *)
Definition refs_ok m h : Prop :=
  map_ok m /\ NoDup m.*2 /\ Forall (fun p => exists x, h !! p.2 = Some x /\ name_of x = p.1) m.

Lemma refs_ok_get m h id a :
  refs_ok m h -> map_get id m = Some a -> exists x, h !! a = Some x /\ name_of x = id.
Proof. intros (_ & _ & Hall) H%map_get_elem_of. rewrite Forall_forall in Hall. exact (Hall _ H). Qed.

Lemma refs_ok_has m h id : refs_ok m h -> map_has id m = true -> exists a x, deref m h id = Some (a, x).
Proof.
  intros Hok [a Ha]%map_has_true. destruct (refs_ok_get m h id a Hok Ha) as (x & Hx & _).
  exists a, x. by apply deref_Some.
Qed.

Lemma refs_ok_write m h a x y :
  refs_ok m h -> h !! a = Some x -> name_of y = name_of x -> refs_ok m (<[a := y]> h).
Proof.
  intros (Hok & Hnd & Hall) Ha Hy. repeat split; [done|done|].
  eapply Forall_impl; [exact Hall|]. intros [id b] (z & Hz & Hid). csimpl in *.
  destruct (decide (a = b)) as [<-|Hne].
  - exists y. rewrite list_lookup_insert_eq by (by eapply lookup_lt_Some).
    split; [done|]. congruence.
  - exists z. by rewrite list_lookup_insert_ne.
Qed.

Lemma refs_ok_new m h id y : refs_ok m h -> name_of y = id -> refs_ok (map_set id (length h) m) (h ++ [y]).
Proof.
  intros (Hok & Hnd & Hall) Hy. repeat split; [by apply map_set_ok| |].
  - apply map_set_values; [|done]. intros (p & Hp & Hin)%list_elem_of_fmap.
    rewrite Forall_forall in Hall. destruct (Hall _ Hin) as (x & Hx%lookup_lt_Some & _). lia.
  - apply Forall_forall. intros p [Hin| ->]%map_set_elem.
    + rewrite Forall_forall in Hall. destruct (Hall _ Hin) as (x & Hx & Hn).
      exists x. split; [by apply lookup_app_l_Some|done].
    + exists y. csimpl. split; [|done]. by apply list_lookup_middle.
Qed.

Lemma refs_values_names m h : refs_ok m h -> name_of <$> refs_values m h = m.*1.
Proof.
  intros (_ & _ & Hall). unfold refs_values, map_values.
  induction Hall as [|[id a] m (x & Hx & Hn) _ IH]; csimpl in *; [done|].
  rewrite Hx. csimpl. by rewrite IH, Hn.
Qed.

Lemma refs_values_nodup m h : refs_ok m h -> NoDup (name_of <$> refs_values m h).
Proof. intros H. rewrite refs_values_names by done. by destruct H. Qed.

Lemma refs_values_deref m h id x :
  refs_ok m h -> snd <$> deref m h id = Some x <-> x ∈ refs_values m h /\ name_of x = id.
Proof.
  intros Hok. unfold refs_values, map_values. rewrite list_elem_of_omap. split.
  - destruct (deref m h id) as [[a y]|] eqn:Hd; intros [= ->].
    apply deref_Some in Hd as [Hid Ha]. split.
    + exists a. split; [|done]. apply list_elem_of_fmap. exists (id, a). split; [done|]. by apply map_get_elem_of.
    + destruct (refs_ok_get _ _ _ _ Hok Hid) as (z & Hz & <-). congruence.
  - intros [(a & (p & -> & Hin)%list_elem_of_fmap & Ha) Hn]. destruct Hok as (Hm & _ & Hall).
    rewrite Forall_forall in Hall. destruct (Hall _ Hin) as (y & Hy & Hp).
    assert (y = x) as -> by congruence. subst id.
    assert (deref m h (name_of x) = Some (p.2, x)) as ->; [|done].
    apply deref_Some. split; [|done]. apply elem_of_map_get; [done|]. rewrite Hp. by destruct p.
Qed.

Lemma refs_values_new m h y :
  refs_ok m h -> map_get (name_of y) m = None ->
  refs_values (map_set (name_of y) (length h) m) (h ++ [y]) = refs_values m h ++ [y].
Proof.
  intros (_ & _ & Hall) Hy. rewrite map_set_fresh by done.
  unfold refs_values, map_values. rewrite fmap_app, omap_app. csimpl.
  rewrite (list_lookup_middle h [] y) by done. f_equal.
  induction Hall as [|[id a] m (x & Hx & _) _ IH]; csimpl in *; [done|].
  rewrite (lookup_app_l_Some _ _ _ _ Hx), Hx. f_equal. apply IH.
  by destruct (decide (name_of y = id)).
Qed.

Lemma refs_ok_nil : refs_ok [] [].
Proof. repeat split; constructor. Qed.

End Refs.

(** ** What a call may do

    The abstract specification: every call performs transitions of these six
    kinds. *)

Definition key_edge (s s' : EncryptionKeyState) : bool :=
  match s, s' with
  | key_pending, (key_active | key_revoked | key_lost | key_compromised) => true
  | key_active, (key_retired | key_revoked | key_lost | key_compromised) => true
  | _, _ => false
  end.

Inductive transition (r : KeyLifecycleRegistry) : KeyLifecycleRegistry -> Prop :=
| t_add_key k : map_get (key_id k) (keys r) = None -> transition r (put_key (key_id k) k r)
| t_key id k s :
    map_get id (keys r) = Some k -> key_edge (key_state k) s = true ->
    transition r (put_key id (set_key_state s k) r)
| t_new_auth x : map_has (auth_keyId x) (keys r) = true -> transition r (new_auth (authorizationId x) x r)
| t_auth a x s : auth_heap r !! a = Some x -> transition r (write_auth a (set_auth_state s x) r)
| t_new_grant x : map_has (recipientKeyId x) (keys r) = true -> transition r (new_grant (grantId x) x r)
| t_grant a x s : grant_heap r !! a = Some x -> transition r (write_grant a (set_grant_state s x) r).

Record well_formed (r : KeyLifecycleRegistry) : Prop := {
  wf_auths : refs_ok authorizationId (authorizations r) (auth_heap r);
  wf_grants : refs_ok grantId (grants r) (grant_heap r);
  wf_keys : map_ok (keys r) /\ Forall (fun p => key_id p.2 = p.1) (keys r);
  wf_auth_keys : Forall (fun x => map_has (auth_keyId x) (keys r) = true) (auth_heap r);
  wf_grant_keys : Forall (fun x => map_has (recipientKeyId x) (keys r) = true) (grant_heap r)
}.

(** A suspended call holds existing objects and existing keys. *)
Definition pending_ok (r : KeyLifecycleRegistry) (p : Pending) : Prop :=
  match p with
  | after_rotateController a succ =>
      is_Some (auth_heap r !! a) /\ map_has (auth_keyId succ) (keys r) = true
  | after_activateGrant a => is_Some (grant_heap r !! a)
  | after_rotateRecipient id a k _ =>
      (exists x, grant_heap r !! a = Some x /\ grantId x = id) /\ map_has k (keys r) = true
  end.

Definition system_ok (s : System) : Prop :=
  well_formed (registry s) /\ Forall (pending_ok (registry s)) (pending s).

Lemma map_has_set {V} k k' (v : V) (m : list (string * V)) :
  map_has k m = true -> map_has k (map_set k' v m) = true.
Proof. rewrite !map_has_true. intros [w Hw]. rewrite map_get_set. case_decide; eauto. Qed.

Lemma put_key_forall id k (m : list (string * EncryptionKeyRecord)) :
  key_id k = id -> Forall (fun p => key_id p.2 = p.1) m -> Forall (fun p => key_id p.2 = p.1) (map_set id k m).
Proof.
  intros Hk Hm. rewrite Forall_forall in Hm. apply Forall_forall.
  intros p [Hin| ->]%map_set_elem; [by apply Hm|done].
Qed.

Lemma keys_filed r id k : well_formed r -> map_get id (keys r) = Some k -> key_id k = id.
Proof.
  intros [_ _ [_ Hall] _ _] H%map_get_elem_of. rewrite Forall_forall in Hall. exact (Hall _ H).
Qed.

Lemma put_key_ok r id k :
  well_formed r -> key_id k = id -> well_formed (put_key id k r).
Proof.
  intros [Ha Hg [Hk Hall] Hak Hgk] Hid. constructor; simpl; [done|done| | |].
  - split; [by apply map_set_ok|by apply put_key_forall].
  - eapply Forall_impl; [exact Hak|]. intros x. apply map_has_set.
  - eapply Forall_impl; [exact Hgk|]. intros x. apply map_has_set.
Qed.

Lemma transition_ok r r' : transition r r' -> well_formed r -> well_formed r'.
Proof.
  intros Ht Hwf. destruct Ht as [k Hk|id k s Hk Hs|x Hx|a x s Hx|x Hx|a x s Hx].
  - by apply put_key_ok.
  - apply put_key_ok; [done|]. simpl. by eapply keys_filed.
  - destruct Hwf as [Ha Hg Hks Hak Hgk]. constructor; simpl; auto using refs_ok_new.
    by apply Forall_app_2; [|apply Forall_singleton].
  - destruct Hwf as [Ha Hg Hks Hak Hgk]. constructor; simpl; eauto using refs_ok_write.
    apply Forall_insert; [done|]. simpl. rewrite Forall_forall in Hak.
    apply Hak. by eapply list_elem_of_lookup_2.
  - destruct Hwf as [Ha Hg Hks Hak Hgk]. constructor; simpl; auto using refs_ok_new.
    by apply Forall_app_2; [|apply Forall_singleton].
  - destruct Hwf as [Ha Hg Hks Hak Hgk]. constructor; simpl; eauto using refs_ok_write.
    apply Forall_insert; [done|]. simpl. rewrite Forall_forall in Hgk.
    apply Hgk. by eapply list_elem_of_lookup_2.
Qed.

Lemma lookup_write {X} (f : X -> string) (h : list X) a x b y z :
  h !! a = Some x -> f y = f x -> h !! b = Some z -> exists w, <[a := y]> h !! b = Some w /\ f w = f z.
Proof.
  intros Ha Hy Hb. destruct (decide (a = b)) as [<-|].
  - exists y. rewrite list_lookup_insert_eq by (by eapply lookup_lt_Some). split; congruence.
  - exists z. by rewrite list_lookup_insert_ne.
Qed.

Lemma transition_pending r r' p : transition r r' -> pending_ok r p -> pending_ok r' p.
Proof.
  intros Ht. destruct Ht as [k Hk|id k s Hk Hs|x Hx|a x s Hx|x Hx|a x s Hx], p as [b y|b|i b k' e];
    simpl; intros Hp; unfold is_Some in *; eauto.
  all: try (destruct Hp as [(z & Hz & <-) ?]; split; [|by eauto using map_has_set]).
  all: try (destruct Hp as [[z Hz] ?]; split; [|by eauto using map_has_set]).
  all: try destruct Hp as [z Hz].
  all: try by eauto using lookup_app_l_Some.
  - destruct (lookup_write authorizationId _ _ _ _ (set_auth_state s x) _ Hx eq_refl Hz) as (w & ? & _). eauto.
  - destruct (lookup_write grantId _ _ _ _ (set_grant_state s x) _ Hx eq_refl Hz) as (w & ? & _). eauto.
  - exact (lookup_write grantId _ _ _ _ (set_grant_state s x) _ Hx eq_refl Hz).
Qed.

(** ** Every call performs transitions *)

Lemma key_Ok r id k : key r id = Ok k <-> map_get id (keys r) = Some k.
Proof. apply defined_Ok. Qed.

Lemma requireActiveKey_Ok r id :
  requireActiveKey r id = Ok tt <-> exists k, map_get id (keys r) = Some k /\ key_state k = key_active.
Proof.
  unfold requireActiveKey. rewrite bind_Ok. setoid_rewrite key_Ok. setoid_rewrite require_Ok.
  by setoid_rewrite bool_decide_eq_true.
Qed.

Lemma active_has r id : requireActiveKey r id = Ok tt -> map_has id (keys r) = true.
Proof. intros (k & Hk & _)%requireActiveKey_Ok. apply map_has_true. eauto. Qed.

Ltac inv_call :=
  repeat first
    [ progress inv_result
    | match goal with
      | u : unit |- _ => destruct u
      | H : negb _ = false |- _ => apply negb_false_iff in H
      | H : key _ _ = Ok _ |- _ => apply key_Ok in H
      | H : authorization _ _ = Ok _ |- _ => apply defined_Ok in H
      | H : grant _ _ = Ok _ |- _ => apply defined_Ok in H
      | p : (_ * _)%type |- _ => destruct p
      | H : deref _ _ _ = Some (_, _) |- _ => apply deref_Some in H as [? ?]
      end
    | progress simpl in * ].

Lemma run_sync_transition r c r' : well_formed r -> run_sync r c = Ok r' -> transition r r'.
Proof.
  intros Hwf H.
  destruct c as [k|id|id f|id|x|id|x|id]; unfold run_sync in H;
    [unfold addKey in H|unfold activateKey in H|unfold recordKeyFailure in H|unfold retireKey in H
    |unfold stageControllerAuthorization in H|unfold activateControllerAuthorization in H
    |unfold prepareGrant in H|unfold revokeGrant in H]; inv_call.
  - constructor. by apply map_has_false.
  - apply t_key; [done|]. by rewrite Ha0.
  - apply t_key; [done|]. destruct (key_state a); try done; by destruct f.
  - apply t_key; [done|]. by rewrite Ha0.
  - constructor. by apply active_has.
  - by constructor.
  - constructor. by apply active_has.
  - by constructor.
Qed.

Lemma start_pending_ok r c p : well_formed r -> start_async r c = Ok p -> pending_ok r p.
Proof.
  intros Hwf H. destruct c as [id x|id t|id k e]; unfold start_async in H;
    [unfold start_rotateControllerAuthorization in H|unfold start_activateGrant in H
    |unfold start_rotateRecipientEnvelope in H]; inv_call.
  - split; [by eexists|by apply active_has].
  - by eexists.
  - split; [|by apply active_has]. eexists. split; [done|].
    destruct (refs_ok_get _ _ _ _ _ (wf_grants r Hwf) H) as (y & Hy & <-). congruence.
Qed.

(** A resumed call whose envelope verified never fails. *)
Lemma finish_transitions r p v r' :
  pending_ok r p -> finish r p v = Ok r' -> v = true /\ rtc transition r r'.
Proof.
  intros Hp H. unfold finish, resume_rotateController, resume_activateGrant, resume_rotateRecipient in H. destruct p as [a x|a|id a k e]; inv_call; split; try done.
  - destruct Hp as [[y Hy] Hk]. rewrite (lookup_app_l_Some _ _ _ _ Hy).
    eapply rtc_l; [exact (t_new_auth r (set_auth_state auth_active x) Hk)|].
    apply rtc_once. simpl. apply t_auth. by apply lookup_app_l_Some.
  - destruct Hp as [y Hy]. rewrite Hy. by apply rtc_once, t_grant.
  - destruct Hp as [(y & Hy & <-) Hk]. rewrite Hy.
    apply rtc_once. by apply (t_new_grant r (mkGrant _ _ _ _ _ _)).
Qed.

Lemma step_transitions s s' : step s s' -> system_ok s -> rtc transition (registry s) (registry s') /\ system_ok s'.
Proof.
  assert (Hmany : forall r r', rtc transition r r' ->
    (well_formed r -> well_formed r') /\ (forall p, pending_ok r p -> pending_ok r' p)).
  { induction 1 as [|r1 r2 r3 H12 _ [IH1 IH2]]; [done|].
    split; eauto using transition_ok, transition_pending. }
  assert (Hkeep : forall r r' ps qs, rtc transition r r' -> (forall q, q ∈ qs -> q ∈ ps) ->
    system_ok (mkSystem r ps) -> system_ok (mkSystem r' qs)).
  { intros r r' ps qs [H1 H2]%Hmany Hsub [Hwf Hps]. split; simpl in *; [by auto|].
    rewrite Forall_forall in Hps. apply Forall_forall. eauto. }
  intros Hs Hok. pose proof Hok as [Hwf Hps]. destruct Hs as [r c r' ps H|r c p ps H|r p v r' b a H|r p b a H]; simpl in *.
  - assert (rtc transition r r') by (by eapply rtc_once, run_sync_transition). eauto.
  - split; [constructor|]. split; [done|]. simpl. constructor; [by eapply start_pending_ok|done].
  - rewrite Forall_app, Forall_cons in Hps. destruct Hps as (_ & Hp & _).
    destruct (finish_transitions r p v r' Hp H) as [_ Hr]. split; [done|].
    eapply Hkeep; [done| |done]. set_solver.
  - split; [constructor|]. eapply Hkeep; [constructor| |done]. set_solver.
Qed.

Lemma new_registry_ok : well_formed new_registry.
Proof. constructor; simpl; auto using refs_ok_nil. split; constructor. Qed.

Lemma fromSnapshot_ok v r : fromSnapshot v = Ok r -> well_formed r.
Proof.
  unfold fromSnapshot. intros H. inv_result.
  revert H. apply fold_result_ind; [intros r1 x r2 Hr; unfold restore_grant; intros|].
  { inv_result. eapply transition_ok; [apply t_new_grant|done]. by apply negb_false_iff. }
  revert Ha0. apply fold_result_ind; [intros r1 x r2 Hr; unfold restore_authorization; intros|].
  { inv_result. eapply transition_ok; [apply t_new_auth|done]. by apply negb_false_iff. }
  revert Ha. apply fold_result_ind; [intros r1 x r2 Hr; unfold restore_key; intros|apply new_registry_ok].
  inv_result. eapply transition_ok; [|done]. by apply (run_sync_transition _ (call_addKey x)).
Qed.

Lemma reachable_ok s : reachable s -> system_ok s.
Proof.
  intros (s0 & H0 & Hs). assert (system_ok s0) as Hok.
  { destruct H0 as [|v r H]; split; simpl; [apply new_registry_ok|done|by eapply fromSnapshot_ok|done]. }
  clear H0. induction Hs as [|s1 s2 s3 H12 _ IH]; [done|]. apply IH. by eapply step_transitions.
Qed.

Lemma count_usable_total r l :
  Forall (fun x => map_has (auth_keyId x) (keys r) = true) l ->
  exists n, count_usable r l = Ok n /\ 0 <= n <= Z.of_nat (length l).
Proof.
  induction 1 as [|x l Hx _ (n & Hn & Hb)]; simpl; [by exists 0|].
  assert (exists b, (if bool_decide (auth_state x = auth_active) then isUsableKey r (auth_keyId x)
                     else Ok false) = Ok b) as [b ->].
  { case_bool_decide; [|by eexists]. apply map_has_true in Hx as [k Hk].
    unfold isUsableKey, key. rewrite Hk. by eexists. }
  rewrite Hn. simpl. eexists. split; [done|]. destruct b; lia.
Qed.

Lemma authorization_values_known r :
  well_formed r -> Forall (fun x => map_has (auth_keyId x) (keys r) = true) (authorization_values r).
Proof.
  intros [_ _ _ Hk _]. rewrite Forall_forall in Hk. apply Forall_forall. intros x (a & _ & Ha)%list_elem_of_omap.
  apply Hk. by eapply list_elem_of_lookup_2.
Qed.

(** In every state the calls can reach, from a new registry or from any accepted
    snapshot and whatever calls interleave, each listed authorization and grant is a
    live object filed under its own identifier, distinct names hold distinct objects,
    every key reference is to a known key and the count of usable controllers is
    defined; a suspended call holds objects and keys that are still there. *)
Theorem registry_well_formed s :
  reachable s ->
  well_formed (registry s) /\
  (forall id, map_has id (grants (registry s)) = true ->
     exists a x, grant (registry s) id = Ok (a, x) /\ grantId x = id /\
       map_has (recipientKeyId x) (keys (registry s)) = true) /\
  (exists n, usableControllerCount (registry s) = Ok n /\
     0 <= n <= Z.of_nat (length (authorization_values (registry s)))) /\
  Forall (pending_ok (registry s)) (pending s).
Proof.
  intros [Hwf Hps]%reachable_ok. split; [done|]. split; [|split; [|done]].
  - intros id Hid. destruct (refs_ok_has _ _ _ _ (wf_grants _ Hwf) Hid) as (a & x & Hx).
    exists a, x. unfold grant. rewrite Hx. split; [done|]. apply deref_Some in Hx as [Ha Hx].
    destruct (refs_ok_get _ _ _ _ _ (wf_grants _ Hwf) Ha) as (y & Hy & Hn).
    assert (y = x) as -> by congruence. split; [done|]. pose proof (wf_grant_keys _ Hwf) as Hk.
    rewrite Forall_forall in Hk. apply Hk. by eapply list_elem_of_lookup_2.
  - by apply count_usable_total, authorization_values_known.
Qed.

(** ** Grants *)

Definition grant_is (st : GrantStoredState) (r : KeyLifecycleRegistry) (id : string) (a : address) : Prop :=
  exists x, deref (grants r) (grant_heap r) id = Some (a, x) /\ grant_state x = st.

(** No suspended call is about to write the grant of [id], held at [a]. *)
Definition quiet (id : string) (a : address) (ps : list Pending) : Prop :=
  Forall (fun p => match p with
                   | after_rotateController _ _ => True
                   | after_activateGrant b => b <> a
                   | after_rotateRecipient id' _ _ _ => id' <> id
                   end) ps.

Lemma sync_keeps_revoked r c r' id a :
  run_sync r c = Ok r' -> grant_is grant_revoked r id a -> grant_is grant_revoked r' id a.
Proof.
  intros H (x & Hx & Hs).
  destruct c as [k|i|i f|i|y|i|y|i]; unfold run_sync in H;
    [unfold addKey in H|unfold activateKey in H|unfold recordKeyFailure in H|unfold retireKey in H
    |unfold stageControllerAuthorization in H|unfold activateControllerAuthorization in H
    |unfold prepareGrant in H|unfold revokeGrant in H].
  all: apply deref_Some in Hx as Hx'; destruct Hx' as [Hid Ha].
  all: inv_call; exists x; split; simpl; auto; try by apply deref_Some.
  - apply deref_new_ne; [by apply deref_Some|]. intros Heq.
    match goal with H : map_has _ _ = false |- _ => apply map_has_false in H; rewrite Heq in H end.
    congruence.
  - apply deref_Some. split; [done|]. rewrite list_lookup_insert_ne; [done|]. intros Heq. congruence.
Qed.

Lemma step_keeps_revoked s s' id a :
  step s s' -> grant_is grant_revoked (registry s) id a -> quiet id a (pending s) ->
  grant_is grant_revoked (registry s') id a /\ quiet id a (pending s').
Proof.
  intros Hs Hg Hq. destruct Hs as [r c r' ps H|r c p ps H|r p v r' b c H|r p b c H]; simpl in *.
  - split; [by eapply sync_keeps_revoked|done].
  - split; [done|]. constructor; [|done]. destruct Hg as (x & Hx & Hst). apply deref_Some in Hx as [Hid Ha].
    destruct c as [i y|i t|i k e]; unfold start_async in H;
      [unfold start_rotateControllerAuthorization in H|unfold start_activateGrant in H
      |unfold start_rotateRecipientEnvelope in H]; inv_call; [done| |]; intros ->; congruence.
  - unfold quiet in *. rewrite Forall_app, Forall_cons in Hq. destruct Hq as (Hb & Hp & Hc).
    split; [|by apply Forall_app]. destruct Hg as (x & Hx & Hst). exists x. split; [|done].
    unfold finish, resume_rotateController, resume_activateGrant, resume_rotateRecipient in H. destruct p as [i y|i|i k e a']; inv_call; simpl.
    + case_match; by apply deref_Some.
    + case_match; [apply deref_write; [|done]|]; by apply deref_Some.
    + case_match; [apply deref_new_ne; [|done]|]; by apply deref_Some.
  - unfold quiet in *. rewrite Forall_app, Forall_cons in Hq. destruct Hq as (Hb & Hp & Hc).
    split; [done|]. by apply Forall_app.
Qed.

Lemma revoked_denied r id a now :
  grant_is grant_revoked r id a -> authorizeRetrieval r id now = Throw policy_denied.
Proof.
  intros (x & Hx & Hs). unfold authorizeRetrieval, effectiveGrantState, grant. rewrite Hx. simpl.
  by rewrite Hs.
Qed.

(** C11. A grant that is revoked while no suspended call is about to write it stays
    revoked whatever is called afterwards, in any interleaving, and never authorizes a
    retrieval again. *)
Theorem revocation_final s s' id a :
  grant_is grant_revoked (registry s) id a -> quiet id a (pending s) -> rtc step s s' ->
  grant_is grant_revoked (registry s') id a /\
  forall now, authorizeRetrieval (registry s') id now = Throw policy_denied.
Proof.
  intros Hg Hq Hs. assert (grant_is grant_revoked (registry s') id a) as Hg'.
  { induction Hs as [|s1 s2 s3 H12 _ IH]; [done|].
    destruct (step_keeps_revoked _ _ _ _ H12 Hg Hq). by apply IH. }
  split; [done|]. intros now. by eapply revoked_denied.
Qed.

(** The guard that is missing: when a grant is revoked while the verification of
    its envelope is under way, the call that resumes afterwards makes the revoked grant
    active again, and retrieval is authorized for the rest of its validity. *)
Theorem revocation_undone r id now p r1 x a :
  start_activateGrant r id now = Ok p -> revokeGrant r id = Ok r1 ->
  deref (grants r) (grant_heap r) id = Some (a, x) ->
  isUsableKey r (recipientKeyId x) = Ok true ->
  (forall t, authorizeRetrieval r1 id t = Throw policy_denied) /\
  exists r2, finish r1 p true = Ok r2 /\
    forall t, effectiveAt x <= t < expiresAt x -> authorizeRetrieval r2 id t = Ok tt.
Proof.
  intros Hp Hr Hx Hk. unfold start_activateGrant, revokeGrant, grant in *. rewrite Hx in Hp, Hr.
  simpl in Hp, Hr. inv_result. apply deref_Some in Hx as Hx'. destruct Hx' as [Hid Hheap]. split.
  - intros t. eapply (revoked_denied _ _ a). eexists. split; [by eapply deref_write_eq|done].
  - unfold finish, resume_activateGrant. simpl. eexists. split; [done|]. intros t Ht.
    change (grant_heap (write_grant a ?y r)) with (<[a := y]> (grant_heap r)).
    rewrite list_lookup_insert_eq by (by eapply lookup_lt_Some).
    set (r2 := write_grant _ _ (write_grant _ _ _)).
    assert (deref (grants r2) (grant_heap r2) id = Some (a, set_grant_state grant_active x)) as Hx2.
    { simpl. by eapply deref_write_eq, deref_write_eq. }
    unfold authorizeRetrieval, effectiveGrantState, grant. rewrite Hx2. simpl. destruct (Z.leb_spec (expiresAt x) t); [lia|]. simpl.
    destruct (Z.ltb_spec t (effectiveAt x)); [lia|]. simpl.
    unfold requireUsableKey, isUsableKey, key in *. simpl. by rewrite Hk.
Qed.

(** Retrieval is authorized exactly for a known grant that is stored as active, from
    its effective time to before its expiry, to a recipient key that is active or
    retired; otherwise the error tells a refused grant from an unusable key. *)
Theorem authorizeRetrieval_correct r id now :
  let allowed := exists a x, deref (grants r) (grant_heap r) id = Some (a, x) /\
    grant_state x = grant_active /\ effectiveAt x <= now < expiresAt x in
  let usable := exists a x k, deref (grants r) (grant_heap r) id = Some (a, x) /\
    map_get (recipientKeyId x) (keys r) = Some k /\
    (key_state k = key_active \/ key_state k = key_retired) in
  (authorizeRetrieval r id now = Ok tt <-> allowed /\ usable) /\
  (authorizeRetrieval r id now = Throw policy_denied <-> ~ allowed) /\
  (authorizeRetrieval r id now = Throw key_unavailable <-> allowed /\ ~ usable).
Proof.
  intros allowed usable.
  assert (authorizeRetrieval r id now = Ok tt /\ allowed /\ usable \/
          authorizeRetrieval r id now = Throw policy_denied /\ ~ allowed \/
          authorizeRetrieval r id now = Throw key_unavailable /\ allowed /\ ~ usable) as H;
    [|naive_solver congruence].
  unfold authorizeRetrieval, effectiveGrantState, grant, allowed, usable.
  destruct (deref (grants r) (grant_heap r) id) as [[a x]|] eqn:Hx; simpl; [|right; left; naive_solver].
  destruct (Z.leb_spec (expiresAt x) now) as [He|He];
    [right; left; destruct (grant_state x) eqn:Hs; simpl; rewrite ?Hs; simpl;
     (split; [done|]); intros (? & ? & [= <- <-] & ? & ?); solve [congruence|lia]|].
  rewrite andb_false_r. destruct (Z.ltb_spec now (effectiveAt x)) as [Hf|Hf];
    [right; left; rewrite orb_true_r; simpl; split; [done|];
     intros (? & ? & [= <- <-] & ? & ?); lia|].
  case_bool_decide as Hs; simpl;
    [|right; left; split; [done|]; intros (? & ? & [= <- <-] & ? & ?); congruence].
  assert (exists a' x', Some (a, x) = Some (a', x') /\ grant_state x' = grant_active /\
            effectiveAt x' <= now < expiresAt x') as Hal by (exists a, x; naive_solver lia).
  unfold requireUsableKey, isUsableKey, key.
  destruct (map_get (recipientKeyId x) (keys r)) as [k|] eqn:Hk; simpl;
    [|right; right; naive_solver].
  case_bool_decide as Hu; simpl; [left; naive_solver|right; right].
  split; [done|]. split; [done|]. intros (? & ? & k' & [= <- <-] & Hk' & ?). naive_solver.
Qed.

(** ** Keys *)

(** A key never disappears or changes its owner, and in every interleaving of calls
    its state only moves forward: pending, then active, then retired, with failure
    possible from pending and active; retired, revoked, lost and compromised are final. *)
Theorem key_states_forward s s' id k :
  system_ok s -> rtc step s s' -> map_get id (keys (registry s)) = Some k ->
  exists k', map_get id (keys (registry s')) = Some k' /\
    organizationId k' = organizationId k /\
    rtc (fun a b => key_edge a b = true) (key_state k) (key_state k') /\
    (isTerminalKeyState (key_state k) = true -> k' = k).
Proof.
  intros Hok Hs Hk.
  assert (rtc transition (registry s) (registry s')) as Ht.
  { clear Hk. induction Hs as [|s1 s2 s3 H12 _ IH]; [done|].
    destruct (step_transitions _ _ H12 Hok). etrans; [done|]. by apply IH. }
  clear Hs. destruct Hok as [Hwf _]. revert k Hk. induction Ht as [r|r1 r2 r3 H12 _ IH]; intros k Hk.
  { exists k. split; [done|]. split; [done|]. by split; [constructor|]. }
  assert (exists k2, map_get id (keys r2) = Some k2 /\ organizationId k2 = organizationId k /\
    rtc (fun a b => key_edge a b = true) (key_state k) (key_state k2) /\
    (isTerminalKeyState (key_state k) = true -> k2 = k)) as (k2 & Hk2 & Ho2 & He2 & Ht2).
  { destruct H12 as [k0 Hk0|i k0 s0 Hk0 Hs0|x Hx|a x s0 Hx|x Hx|a x s0 Hx]; simpl; try by (exists k; repeat split).
    - rewrite map_get_set_ne by congruence. by exists k.
    - destruct (decide (id = i)) as [->|]; [|rewrite map_get_set_ne by done; by exists k].
      rewrite map_get_set_eq. simplify_eq. eexists. split; [done|]. split; [done|].
      split; [by apply rtc_once|]. destruct (key_state k0); simpl in *; done. }
  destruct (IH (transition_ok _ _ H12 Hwf) _ Hk2) as (k3 & Hk3 & Ho3 & He3 & Ht3).
  exists k3. split; [done|]. split; [congruence|]. split; [by etrans|].
  intros Hf. rewrite <- (Ht2 Hf). apply Ht3. by rewrite (Ht2 Hf).
Qed.


(** ** Snapshots *)

Lemma restore_keys_Ok ks r :
  Forall (fun k => isEncryptionKeyRecord k = true) ks -> NoDup (key_id <$> ks) ->
  (forall k, k ∈ ks -> map_get (key_id k) (keys r) = None) ->
  fold_result restore_key r ks =
    Ok (mkRegistry (authorizations r) (grants r) (keys r ++ ((fun k => (key_id k, k)) <$> ks))
          (auth_heap r) (grant_heap r)).
Proof.
  intros Hv. revert r. induction Hv as [|k ks Hk _ IH]; intros r Hnd Hnew; csimpl.
  { rewrite app_nil_r. by destruct r. }
  apply NoDup_cons in Hnd as [Hkin Hnd].
  pose proof (Hnew k ltac:(by left)) as Hfresh.
  assert (restore_key r k = Ok (put_key (key_id k) k r)) as ->.
  { unfold restore_key, addKey. by rewrite Hk, (proj2 (map_has_false _ _) Hfresh). }
  simpl. rewrite IH; [|done|].
  - unfold put_key. simpl. rewrite map_set_fresh by done. by rewrite <- app_assoc.
  - intros k' Hk'. simpl. rewrite map_get_set_ne; [by apply Hnew; right|].
    intros Heq. apply Hkin. rewrite <- Heq. by apply list_elem_of_fmap_2.
Qed.

Lemma restore_auths_Ok l r :
  well_formed r ->
  Forall (fun x => isControllerAuthorizationRecord x = true /\ map_has (auth_keyId x) (keys r) = true) l ->
  NoDup (authorizationId <$> l) ->
  (forall x, x ∈ l -> map_get (authorizationId x) (authorizations r) = None) ->
  exists r', fold_result restore_authorization r l = Ok r' /\ well_formed r' /\ keys r' = keys r /\
    grants r' = grants r /\ grant_heap r' = grant_heap r /\
    authorization_values r' = authorization_values r ++ l.
Proof.
  intros Hwf Hv. revert r Hwf Hv. induction l as [|x l IH]; intros r Hwf Hv Hnd Hnew; csimpl.
  { exists r. by rewrite app_nil_r. }
  apply Forall_cons in Hv as [[Hx Hk] Hv]. apply NoDup_cons in Hnd as [Hin Hnd].
  pose proof (Hnew x ltac:(by left)) as Hfresh.
  assert (restore_authorization r x = Ok (new_auth (authorizationId x) x r)) as ->.
  { unfold restore_authorization. by rewrite Hx, Hk, (proj2 (map_has_false _ _) Hfresh). }
  simpl.
  destruct (IH (new_auth (authorizationId x) x r)) as (r' & -> & Hwf' & Hk' & Hg' & Hh' & Ha').
  - eapply transition_ok; [by apply t_new_auth|done].
  - done.
  - done.
  - intros y Hy. simpl. rewrite map_get_set_ne; [by apply Hnew; right|].
    intros Heq. apply Hin. rewrite <- Heq. by apply list_elem_of_fmap_2.
  - exists r'. split_and!; try done. rewrite Ha'. unfold authorization_values at 1. simpl.
    rewrite refs_values_new; [by rewrite <- app_assoc|by apply wf_auths|done].
Qed.

Lemma restore_grants_Ok l r :
  well_formed r ->
  Forall (fun x => isAccessGrantRecord x = true /\ map_has (recipientKeyId x) (keys r) = true) l ->
  NoDup (grantId <$> l) ->
  (forall x, x ∈ l -> map_get (grantId x) (grants r) = None) ->
  exists r', fold_result restore_grant r l = Ok r' /\ well_formed r' /\ keys r' = keys r /\
    authorizations r' = authorizations r /\ auth_heap r' = auth_heap r /\
    grant_values r' = grant_values r ++ l.
Proof.
  intros Hwf Hv. revert r Hwf Hv. induction l as [|x l IH]; intros r Hwf Hv Hnd Hnew; csimpl.
  { exists r. by rewrite app_nil_r. }
  apply Forall_cons in Hv as [[Hx Hk] Hv]. apply NoDup_cons in Hnd as [Hin Hnd].
  pose proof (Hnew x ltac:(by left)) as Hfresh.
  assert (restore_grant r x = Ok (new_grant (grantId x) x r)) as ->.
  { unfold restore_grant. by rewrite Hx, Hk, (proj2 (map_has_false _ _) Hfresh). }
  simpl.
  destruct (IH (new_grant (grantId x) x r)) as (r' & -> & Hwf' & Hk' & Hg' & Hh' & Ha').
  - eapply transition_ok; [by apply t_new_grant|done].
  - done.
  - done.
  - intros y Hy. simpl. rewrite map_get_set_ne; [by apply Hnew; right|].
    intros Heq. apply Hin. rewrite <- Heq. by apply list_elem_of_fmap_2.
  - exists r'. split_and!; try done. rewrite Ha'. unfold grant_values at 1. simpl.
    rewrite refs_values_new; [by rewrite <- app_assoc|by apply wf_grants|done].
Qed.

(** Every record passes the validators of [fromSnapshot]. *)
Definition records_valid (r : KeyLifecycleRegistry) : Prop :=
  Forall (fun k => isEncryptionKeyRecord k = true) (map_values (keys r)) /\
  Forall (fun x => isControllerAuthorizationRecord x = true) (authorization_values r) /\
  Forall (fun x => isAccessGrantRecord x = true) (grant_values r).

(** The same records under the same names. *)
Definition same_records (r r' : KeyLifecycleRegistry) : Prop :=
  (forall id, map_get id (keys r') = map_get id (keys r)) /\
  (forall id, snd <$> deref (authorizations r') (auth_heap r') id = snd <$> deref (authorizations r) (auth_heap r) id) /\
  (forall id, snd <$> deref (grants r') (grant_heap r') id = snd <$> deref (grants r) (grant_heap r) id).

Lemma option_eq_spec {A} (x y : option A) : (forall a, x = Some a <-> y = Some a) -> x = y.
Proof. intros H. destruct x as [a|]; [by symmetry; apply H|]. destruct y as [b|]; [by apply H|done]. Qed.

Lemma values_ids r : well_formed r -> key_id <$> map_values (keys r) = (keys r).*1.
Proof.
  intros Hwf. pose proof (wf_keys r Hwf) as [_ Hall]. unfold map_values.
  induction Hall as [|[id k] m Hk _ IH]; csimpl in *; [done|]. by rewrite IH, Hk.
Qed.

Lemma values_elem_of r id k :
  well_formed r -> map_get id (keys r) = Some k <-> k ∈ map_values (keys r) /\ key_id k = id.
Proof.
  intros Hwf. pose proof (wf_keys r Hwf) as [Hm _]. unfold map_values. split.
  - intros H. split; [|by eapply keys_filed]. apply list_elem_of_fmap.
    exists (id, k). split; [done|]. by apply map_get_elem_of.
  - intros [([i k'] & -> & Hin)%list_elem_of_fmap Hid]. csimpl in *.
    pose proof (elem_of_map_get _ _ _ Hm Hin) as Hget. by rewrite <- Hid, (keys_filed r _ _ Hwf Hget).
Qed.

Section RoundTrip.
Context `{LocaleCompare}.

Lemma same_values {X} (name : X -> string) (m m' : list (string * address)) (h h' : list X) l :
  refs_ok name m h -> refs_ok name m' h' -> refs_values m' h' = js_sort l (refs_values m h) ->
  forall id, snd <$> deref m' h' id = snd <$> deref m h id.
Proof.
  intros Hm Hm' Heq id. apply option_eq_spec. intros x.
  rewrite (refs_values_deref name m' h'), (refs_values_deref name m h) by done.
  by rewrite Heq, js_sort_elem_of.
Qed.

Lemma sort_again {X} (f : X -> string) (l : list X) :
  js_sort (fun x y => localeCompare (f x) (f y)) (js_sort (fun x y => localeCompare (f x) (f y)) l) =
  js_sort (fun x y => localeCompare (f x) (f y)) l.
Proof. apply js_sort_id, js_sort_sorted, _. Qed.

(** A snapshot of a well-formed registry whose records pass the validators is always
    accepted by [fromSnapshot], and the registry it gives is well-formed, holds the same
    record under every identifier and has the same snapshot. *)
Theorem snapshot_roundtrip r :
  well_formed r -> records_valid r ->
  exists r', fromSnapshot (snapshot r) = Ok r' /\ well_formed r' /\ same_records r r' /\
    snapshot r' = snapshot r.
Proof.
  intros Hwf (Hvk & Hva & Hvg).
  set (ck := fun x y => localeCompare (key_id x) (key_id y)).
  set (ca := fun x y => localeCompare (authorizationId x) (authorizationId y)).
  set (cg := fun x y => localeCompare (grantId x) (grantId y)).
  unfold fromSnapshot. simpl. fold ck ca cg.
  set (ks := js_sort ck (map_values (keys r))).
  assert (well_formed (mkRegistry [] [] ((fun k => (key_id k, k)) <$> ks) [] [])) as Hwf0.
  { constructor; simpl; auto using refs_ok_nil. split.
    - unfold map_ok. rewrite <- list_fmap_compose. simpl. unfold ks. rewrite js_sort_perm, values_ids by done.
      apply Hwf.
    - apply Forall_fmap, Forall_true. done. }
  assert (forall id, map_get id ((fun k => (key_id k, k)) <$> ks) = map_get id (keys r)) as Hkeys.
  { intros id. apply option_eq_spec. intros k. rewrite (values_elem_of r) by done.
    rewrite (values_elem_of _ id k Hwf0). simpl. unfold map_values.
    rewrite <- list_fmap_compose. simpl. rewrite list_fmap_id. unfold ks. by rewrite js_sort_elem_of. }
  rewrite restore_keys_Ok; [|by unfold ks; rewrite js_sort_perm| |done].
  2: { unfold ks. rewrite js_sort_perm, values_ids by done. apply Hwf. }
  simpl.
  destruct (restore_auths_Ok (js_sort ca (authorization_values r)) _ Hwf0) as (r1 & -> & Hwf1 & Hk1 & Hg1 & Hh1 & Ha1).
  { apply Forall_forall. intros x Hx%js_sort_elem_of. rewrite Forall_forall in Hva. split; [by apply Hva|].
    pose proof (authorization_values_known r Hwf) as Hkn. rewrite Forall_forall in Hkn.
    simpl. specialize (Hkn _ Hx). rewrite map_has_true in *. by setoid_rewrite Hkeys. }
  { rewrite js_sort_perm. by apply refs_values_nodup, wf_auths. }
  { done. }
  simpl.
  destruct (restore_grants_Ok (js_sort cg (grant_values r)) r1 Hwf1) as (r2 & -> & Hwf2 & Hk2 & Hau2 & Hah2 & Hg2).
  { apply Forall_forall. intros x Hx%js_sort_elem_of. rewrite Forall_forall in Hvg. split; [by apply Hvg|].
    rewrite Hk1. simpl. pose proof (wf_grant_keys r Hwf) as Hkn. rewrite Forall_forall in Hkn.
    apply list_elem_of_omap in Hx as (a & _ & Ha). specialize (Hkn x ltac:(by eapply list_elem_of_lookup_2)).
    rewrite map_has_true in *. by setoid_rewrite Hkeys. }
  { rewrite js_sort_perm. by apply refs_values_nodup, wf_grants. }
  { intros x _. by rewrite Hg1. }
  assert (authorization_values r2 = js_sort ca (authorization_values r)) as Hav.
  { unfold authorization_values at 1. rewrite Hau2, Hah2. exact Ha1. }
  assert (grant_values r2 = js_sort cg (grant_values r)) as Hgv.
  { rewrite Hg2. unfold grant_values at 1. by rewrite Hg1, Hh1. }
  assert (map_values (keys r2) = ks) as Hkv.
  { rewrite Hk2, Hk1. simpl. unfold map_values. rewrite <- list_fmap_compose. apply list_fmap_id. }
  exists r2. split; [done|]. split; [done|]. split.
  - split; [|split].
    + intros id. rewrite Hk2, Hk1. simpl. apply Hkeys.
    + eapply same_values; [by apply wf_auths|by apply wf_auths|exact Hav].
    + eapply same_values; [by apply wf_grants|by apply wf_grants|exact Hgv].
  - unfold snapshot. rewrite Hav, Hgv, Hkv. unfold ks, ck, ca, cg. by rewrite !sort_again.
Qed.
End RoundTrip.

(** ** A concrete run *)

Lemma sync_run r cs r' ps : fold_result run_sync r cs = Ok r' -> rtc step (mkSystem r ps) (mkSystem r' ps).
Proof.
  revert r. induction cs as [|c cs IH]; simpl; intros r H; inv_result; [constructor|].
  eapply rtc_l; [by apply (step_sync r c)|]. by apply IH.
Qed.

Module Sample.
Definition controller_key : EncryptionKeyRecord := mkKey "k1" "org1" key_pending.
Definition recipient_key : EncryptionKeyRecord := mkKey "k2" "org2" key_pending.
Definition controller : ControllerAuthorizationRecord := mkAuthorization "a1" "e1" "k1" auth_staged.
Definition sample_grant : AccessGrantRecord := mkGrant 10 "e2" 20 "g1" "k2" grant_prepared.

Definition calls : list SyncCall :=
  [call_addKey controller_key; call_addKey recipient_key; call_activateKey "k1"; call_activateKey "k2";
   call_stage controller; call_activateAuthorization "a1"; call_prepareGrant sample_grant].

Definition prepared : KeyLifecycleRegistry :=
  mkRegistry [("a1", 0%nat)] [("g1", 0%nat)]
    [("k1", set_key_state key_active controller_key); ("k2", set_key_state key_active recipient_key)]
    [set_auth_state auth_active controller] [sample_grant].

Definition revoked : KeyLifecycleRegistry := write_grant 0%nat (set_grant_state grant_revoked sample_grant) prepared.

Lemma calls_prepared : fold_result run_sync new_registry calls = Ok prepared.
Proof. vm_compute. reflexivity. Qed.

Lemma prepared_reachable : reachable (mkSystem prepared []).
Proof. eexists. split; [constructor|]. apply (sync_run _ calls), calls_prepared. Qed.

Lemma registry_well_formed_witness :
  reachable (mkSystem prepared []) /\
  exists n, usableControllerCount prepared = Ok n /\ 0 <= n <= 1.
Proof.
  split; [exact prepared_reachable|].
  exact (proj1 (proj2 (proj2 (registry_well_formed (mkSystem prepared []) prepared_reachable)))).
Defined.

Lemma revocation_final_witness :
  grant_is grant_revoked revoked "g1" 0%nat /\ quiet "g1" 0%nat [] /\
  authorizeRetrieval revoked "g1" 15 = Throw policy_denied.
Proof.
  assert (grant_is grant_revoked revoked "g1" 0%nat) as Hg by (eexists; split; reflexivity).
  split; [exact Hg|]. split; [constructor|].
  exact (proj2 (revocation_final (mkSystem revoked []) (mkSystem revoked []) "g1" 0%nat Hg
    (Forall_nil_2 _) (rtc_refl _ _)) 15).
Defined.

Lemma revocation_undone_witness :
  revokeGrant prepared "g1" = Ok revoked /\
  exists r2, finish revoked (after_activateGrant 0%nat) true = Ok r2 /\
    authorizeRetrieval r2 "g1" 15 = Ok tt.
Proof.
  split; [reflexivity|].
  destruct (revocation_undone prepared "g1" 12 (after_activateGrant 0%nat) revoked sample_grant 0%nat
    eq_refl eq_refl eq_refl eq_refl) as (_ & r2 & Hr & Ht).
  exists r2. split; [exact Hr|]. apply Ht. simpl. lia.
Defined.

Lemma key_states_forward_witness :
  exists k', map_get "k1" (keys prepared) = Some k' /\ organizationId k' = "org1".
Proof.
  destruct (key_states_forward (mkSystem prepared []) (mkSystem prepared []) "k1"
    (set_key_state key_active controller_key) (reachable_ok _ prepared_reachable)
    (rtc_refl _ _) eq_refl) as (k' & Hk & Ho & _).
  exists k'. split; [exact Hk|exact Ho].
Defined.

Lemma snapshot_roundtrip_witness :
  let _ := code_unit_locale in
  records_valid prepared /\ exists r', fromSnapshot (snapshot prepared) = Ok r' /\ same_records prepared r'.
Proof.
  intros L. assert (records_valid prepared) as Hv by (repeat split; repeat constructor).
  split; [exact Hv|].
  destruct (@snapshot_roundtrip L prepared (proj1 (reachable_ok _ prepared_reachable)) Hv)
    as (r' & Hr & _ & Hs & _).
  exists r'. split; [exact Hr|exact Hs].
Defined.
End Sample.
