(* ===== verification/Projector.v ===== *)
(** * The canonical chain projector

    [src/src/indexer/canonical-projector.ts]: [CanonicalProjector] keeps every block
    ingested, follows the parents of a selected head down to block 0 and folds the
    events of the confirmed blocks with a reducer; [evidenceProjectionReducer] is the
    reducer of the evidence claims. [canonicalJson] (RFC 8785, a package) is a
    parameter; [structuredClone] copies are values. *)

From stdpp Require Import pretty countable.
From S2P Require Import Prelude.

(** [canonicalJson] on the values of a type. *)
Class CanonicalText (A : Type) := canonicalJson : A -> string.

(** RFC 8785: two values have the same text exactly when they are the same. *)
Class CanonicalTextInj (A : Type) `{CanonicalText A} : Prop :=
  canonicalJson_inj (x y : A) : canonicalJson x = canonicalJson y -> x = y.

Inductive ProjectorError := conflict | gap | unknown_parent.

Section Projector.
Context {Event State : Type}.

Record ChainBlock := mkBlock {
  events : list Event;
  hash : string;
  number : Z;
  parentHash : string
}.

Record ProjectionReducer := mkReducer {
  initialState : State;
  apply_event : State -> Event -> State
}.

Record ProjectorSnapshot := mkSnapshot {
  confirmedHead : option (string * Z);
  snapshot_state : State
}.

(** [#blocks], [#canonical], [#state] *)
Record CanonicalProjector := mkProjector {
  blocks : list (string * ChainBlock);
  canonical : list ChainBlock;
  state : State
}.

Context (reducer : ProjectionReducer) (confirmationDepth : Z) `{HC : !CanonicalText ChainBlock}.

(** The constructor; [None] is the [RangeError]. *)
Definition new_projector : option CanonicalProjector :=
  if negb (isSafeInteger confirmationDepth) || (confirmationDepth <? 0) then None
  else Some (mkProjector [] [] (initialState reducer)).

Definition ingest (p : CanonicalProjector) (block : ChainBlock) : result ProjectorError CanonicalProjector :=
  _ ← require (negb (negb (isSafeInteger (number block)) || (number block <? 0) ||
                     (String.length (hash block) =? 0)%nat)) gap;
  match map_get (hash block) (blocks p) with
  | Some existing =>
      _ ← require (String.eqb (canonicalJson existing) (canonicalJson block)) conflict; Ok p
  | None =>
      _ ← require (negb ((0 <? number block) && negb (map_has (parentHash block) (blocks p)))) unknown_parent;
      Ok (mkProjector (map_set (hash block) block (blocks p)) (canonical p) (state p))
  end.

(** The loop of [pathToGenesis] on [block]; [None] is an exhausted fuel. *)
Fixpoint path_loop (fuel : nat) (bs : list (string * ChainBlock)) (seen : list string)
    (reversed : list ChainBlock) (block : ChainBlock) : option (result ProjectorError (list ChainBlock)) :=
  match fuel with
  | O => None
  | S fuel =>
      if includes (hash block) seen then Some (Throw conflict)
      else
        let reversed := reversed ++ [block] in
        if number block =? 0 then Some (Ok (rev reversed))
        else
          match map_get (parentHash block) bs with
          | None => Some (Throw gap)
          | Some parent =>
              if negb (number parent + 1 =? number block) then Some (Throw gap)
              else path_loop fuel bs (seen ++ [hash block]) reversed parent
          end
  end.

(** Every turn lowers the block number by one. *)
Definition path_fuel (block : ChainBlock) : nat := S (Z.to_nat (number block)).

Definition pathToGenesis (bs : list (string * ChainBlock)) (headHash : string) :
    option (result ProjectorError (list ChainBlock)) :=
  match map_get headHash bs with
  | None => Some (Throw unknown_parent)
  | Some block => path_loop (path_fuel block) bs [] [] block
  end.

(** [slice(0, count)] of the canonical path and the events in it *)
Definition confirmed_blocks (path : list ChainBlock) : list ChainBlock :=
  take (Z.to_nat (Z.max 0 (Z.of_nat (length path) - confirmationDepth))) path.

Definition rebuild (path : list ChainBlock) : State :=
  fold_left (fun s block => fold_left (apply_event reducer) (events block) s)
    (confirmed_blocks path) (initialState reducer).

Definition snapshot (p : CanonicalProjector) : ProjectorSnapshot :=
  let confirmedIndex := Z.of_nat (length (canonical p)) - 1 - confirmationDepth in
  let confirmed := if 0 <=? confirmedIndex then canonical p !! Z.to_nat confirmedIndex else None in
  mkSnapshot ((fun b => (hash b, number b)) <$> confirmed) (state p).

Definition selectHead (p : CanonicalProjector) (headHash : string) :
    option (result ProjectorError (CanonicalProjector * ProjectorSnapshot)) :=
  match pathToGenesis (blocks p) headHash with
  | None => None
  | Some (Throw e) => Some (Throw e)
  | Some (Ok path) =>
      let p' := mkProjector (blocks p) path (rebuild path) in
      Some (Ok (p', snapshot p'))
  end.

Context `{HS : !CanonicalText ProjectorSnapshot}.

Definition checkpoint (p : CanonicalProjector) : string := canonicalJson (snapshot p).

(** ** The calls of a run; a call that throws changes nothing *)

Inductive projector_step (p : CanonicalProjector) : CanonicalProjector -> Prop :=
| step_ingest block p' : ingest p block = Ok p' -> projector_step p p'
| step_select headHash p' s : selectHead p headHash = Some (Ok (p', s)) -> projector_step p p'.

Definition reachable (p : CanonicalProjector) : Prop :=
  exists p0, new_projector = Some p0 /\ rtc projector_step p0 p.

(** ** Ancestry: what [pathToGenesis] should find *)

Inductive ancestry (bs : list (string * ChainBlock)) : ChainBlock -> list ChainBlock -> Prop :=
| ancestry_genesis b : number b = 0 -> ancestry bs b [b]
| ancestry_child b parent path :
    number b <> 0 -> map_get (parentHash b) bs = Some parent -> number parent + 1 = number b ->
    ancestry bs parent path -> ancestry bs b (path ++ [b]).

Record projector_ok (p : CanonicalProjector) : Prop := {
  p_blocks : map_ok (blocks p);
  p_filed h b : map_get h (blocks p) = Some b -> hash b = h /\ 0 <= number b <= MAX_SAFE_INTEGER;
  p_parents h b : map_get h (blocks p) = Some b -> 0 < number b -> map_has (parentHash b) (blocks p) = true;
  p_canonical : canonical p = [] \/
    exists h b, map_get h (blocks p) = Some b /\ ancestry (blocks p) b (canonical p);
  p_state : state p = rebuild (canonical p)
}.

(** ** Ancestries *)

Lemma ancestry_unique bs b path path' : ancestry bs b path -> ancestry bs b path' -> path = path'.
Proof.
  intros H. revert path'. induction H as [b Hb|b parent path Hb Hp Hn _ IH]; intros path' H'; inversion H'; simplify_eq; try done.
  f_equal. by apply IH.
Qed.

Lemma ancestry_length bs b path : ancestry bs b path -> Z.of_nat (length path) = number b + 1.
Proof. induction 1 as [b Hb|b parent path Hb Hp Hn _ IH]; simpl; [lia|]. rewrite length_app. simpl. lia. Qed.

Lemma ancestry_mono bs bs' b path :
  (forall h c, map_get h bs = Some c -> map_get h bs' = Some c) -> ancestry bs b path -> ancestry bs' b path.
Proof. intros Hbs. induction 1; econstructor; eauto. Qed.

(** The path is a chain: block [i] has number [i] and names its predecessor as parent. *)
Lemma ancestry_chain bs b path i c :
  (forall h c, map_get h bs = Some c -> hash c = h) ->
  ancestry bs b path -> path !! i = Some c ->
  number c = Z.of_nat i /\
  (forall c', path !! S i = Some c' -> parentHash c' = hash c) /\
  (S i = length path -> c = b).
Proof.
  intros Hbs H. revert i c. induction H as [b Hb|b parent path Hb Hp Hn Hpath IH]; intros i c Hi.
  - destruct i as [|i]; simplify_eq/=. split; [done|]. by split.
  - pose proof (ancestry_length _ _ _ Hpath) as Hlen.
    destruct (decide (i < length path)%nat) as [Hlt|Hge].
    + rewrite lookup_app_l in Hi by done. destruct (IH i c Hi) as (Hnum & Hpar & Hlast).
      split; [done|]. split; [|rewrite length_app; simpl; lia]. intros c' Hc'.
      destruct (decide (S i < length path)%nat); [rewrite lookup_app_l in Hc' by done; by apply Hpar|].
      rewrite lookup_app_r in Hc' by lia. assert (S i - length path = 0)%nat as Hz by lia.
      rewrite Hz in Hc'. simplify_eq/=. rewrite (Hlast ltac:(lia)). symmetry. by apply Hbs.
    + rewrite lookup_app_r in Hi by lia.
      assert (i = length path) as ->.
      { apply lookup_lt_Some in Hi. simpl in Hi. lia. }
      rewrite Nat.sub_diag in Hi. simplify_eq/=. split; [lia|]. split; [|done].
      intros c' Hc'%lookup_lt_Some. rewrite length_app in Hc'. simpl in Hc'. lia.
Qed.

Lemma path_loop_spec bs fuel seen reversed b :
  (forall h c, map_get h bs = Some c -> hash c = h /\ 0 <= number c) ->
  map_get (hash b) bs = Some b -> (Z.to_nat (number b) < fuel)%nat ->
  (forall h, h ∈ seen -> exists c, map_get h bs = Some c /\ number b < number c) ->
  (exists path, ancestry bs b path /\ path_loop fuel bs seen reversed b = Some (Ok (path ++ rev reversed))) \/
  (~ (exists path, ancestry bs b path) /\ path_loop fuel bs seen reversed b = Some (Throw gap)).
Proof.
  intros Hbs. revert seen reversed b. induction fuel as [|fuel IH]; intros seen reversed b Hb Hf Hseen; [lia|]. simpl.
  destruct (Hbs _ _ Hb) as [_ Hnum].
  assert (includes (hash b) seen = false) as ->.
  { apply includes_false. intros (c & Hc & Hlt)%Hseen. assert (c = b) as -> by congruence. lia. }
  destruct (Z.eqb_spec (number b) 0) as [H0|H0].
  { left. exists [b]. split; [by constructor|]. by rewrite rev_app_distr. }
  destruct (map_get (parentHash b) bs) as [parent|] eqn:Hp.
  2: { right. split; [|done]. intros [path Ha]. inversion Ha; congruence. }
  destruct (Z.eqb_spec (number parent + 1) (number b)) as [Hn|Hn]; simpl.
  2: { right. split; [|done]. intros [path Ha]. inversion Ha; congruence. }
  destruct (Hbs _ _ Hp) as [Hph Hpn].
  destruct (IH (seen ++ [hash b]) (reversed ++ [b]) parent) as [(path & Ha & ->)|[Hno ->]].
  - by rewrite Hph.
  - lia.
  - intros h [Hh%Hseen|Hh%list_elem_of_singleton]%elem_of_app.
    + destruct Hh as (c & Hc & Hlt). exists c. split; [done|lia].
    + subst h. exists b. split; [done|lia].
  - left. exists (path ++ [b]). split; [by econstructor|]. by rewrite rev_app_distr, <- app_assoc.
  - right. split; [|done]. intros [path Ha]. apply Hno. inversion Ha; simplify_eq. eauto.
Qed.

Lemma pathToGenesis_spec p h :
  projector_ok p ->
  match map_get h (blocks p) with
  | None => pathToGenesis (blocks p) h = Some (Throw unknown_parent)
  | Some b =>
      (exists path, ancestry (blocks p) b path /\ pathToGenesis (blocks p) h = Some (Ok path)) \/
      (~ (exists path, ancestry (blocks p) b path) /\ pathToGenesis (blocks p) h = Some (Throw gap))
  end.
Proof.
  intros Hp. unfold pathToGenesis. destruct (map_get h (blocks p)) as [b|] eqn:Hb; [|done].
  destruct (p_filed p Hp _ _ Hb) as [Hh Hn].
  destruct (path_loop_spec (blocks p) (path_fuel b) [] [] b) as [(path & Ha & ->)|[Hno ->]].
  - intros h' c Hc. destruct (p_filed p Hp _ _ Hc) as [? ?]. split; [done|lia].
  - by rewrite Hh.
  - unfold path_fuel. lia.
  - by intros h' ?%not_elem_of_nil.
  - left. exists path. by rewrite app_nil_r.
  - by right.
Qed.

(** ** Every run keeps the projector well-formed *)

Lemma ingest_guards p b p' :
  ingest p b = Ok p' ->
  isSafeInteger (number b) = true /\ (number b <? 0) = false /\ (String.length (hash b) =? 0)%nat = false.
Proof.
  unfold ingest. destruct (isSafeInteger (number b)), (number b <? 0), (String.length (hash b) =? 0)%nat; done.
Qed.

Lemma ingest_inv p b p' :
  ingest p b = Ok p' ->
  0 <= number b <= MAX_SAFE_INTEGER /\
  ((exists b', map_get (hash b) (blocks p) = Some b' /\ p' = p) \/
   map_get (hash b) (blocks p) = None /\
   (0 < number b -> map_has (parentHash b) (blocks p) = true) /\
   p' = mkProjector (map_set (hash b) b (blocks p)) (canonical p) (state p)).
Proof.
  unfold ingest. intros H. inv_result. apply negb_false_iff in H0. unfold isSafeInteger in *. split; [lia|].
  destruct (map_get (hash b) (blocks p)) as [b'|]; inv_result; [eauto|]. right. split; [done|].
  split; [|done]. intros Hn. apply andb_false_iff in Ha as [Ha|Ha]; [lia|]. by apply negb_false_iff in Ha.
Qed.

Lemma projector_step_ok p p' : projector_step p p' -> projector_ok p -> projector_ok p'.
Proof.
  intros [b p1 H|h p1 s H] Hp.
  - destruct (ingest_inv _ _ _ H) as [Hn [(b' & _ & ->)|(Hnew & Hpar & ->)]]; [done|].
    destruct Hp as [Hok Hf Hps Hc Hst].
    assert (forall h c, map_get h (blocks p) = Some c -> map_get h (map_set (hash b) b (blocks p)) = Some c) as Hmono.
    { intros h c Hhc. rewrite map_get_set_ne; [done|]. intros ->. congruence. }
    constructor; simpl; [by apply map_set_ok| | | |done].
    + intros h c. rewrite map_get_set. case_decide; [|by apply Hf]. intros [= <-]. by subst.
    + intros h c. rewrite map_get_set, !map_has_true. intros Hc' Hlt.
      assert (map_has (parentHash c) (blocks p) = true) as [d Hd]%map_has_true.
      { case_decide; simplify_eq; [by apply Hpar|by eapply Hps]. }
      exists d. by apply Hmono.
    + destruct Hc as [->|(h & c & Hhc & Ha)]; [by left|]. right. exists h, c. split; [by apply Hmono|].
      by eapply ancestry_mono.
  - unfold selectHead in H. pose proof (pathToGenesis_spec p h Hp) as Hspec.
    destruct (map_get h (blocks p)) as [b|] eqn:Hb; [|by rewrite Hspec in H].
    destruct Hspec as [(path & Ha & Heq)|[_ Heq]]; rewrite Heq in H; simplify_eq.
    destruct Hp as [Hok Hf Hps Hc Hst]. constructor; simpl; try done. right. eauto.
Qed.

Lemma projector_reachable_ok p : reachable p -> projector_ok p.
Proof.
  intros (p0 & H0 & Hs). unfold new_projector in H0. case_match; simplify_eq.
  assert (projector_ok (mkProjector [] [] (initialState reducer))) as Hok.
  { constructor; simpl; try done; [constructor|by left|]. unfold rebuild, confirmed_blocks. by rewrite take_nil. }
  induction Hs as [|p1 p2 p3 H12 _ IH]; [done|]. by eapply IH, projector_step_ok.
Qed.

(** The confirmed prefix and its head. *)
Lemma confirmed_head bs b path :
  0 <= confirmationDepth -> ancestry bs b path ->
  (fun c => (hash c, number c)) <$>
    (if 0 <=? Z.of_nat (length path) - 1 - confirmationDepth
     then path !! Z.to_nat (Z.of_nat (length path) - 1 - confirmationDepth) else None) =
  (fun c => (hash c, number c)) <$> last (confirmed_blocks path).
Proof.
  intros Hd Ha. unfold confirmed_blocks. pose proof (ancestry_length _ _ _ Ha) as Hlen.
  rewrite last_lookup, length_take. destruct (Z.leb_spec 0 (Z.of_nat (length path) - 1 - confirmationDepth)) as [Hle|Hlt].
  - rewrite lookup_take_lt by lia. do 2 f_equal. lia.
  - replace (Z.to_nat (Z.max 0 (Z.of_nat (length path) - confirmationDepth))) with 0%nat by lia. done.
Qed.

Lemma new_projector_depth p0 : new_projector = Some p0 -> 0 <= confirmationDepth.
Proof. unfold new_projector. destruct (_ || _) eqn:Hb; [done|]. intros _. apply orb_false_iff in Hb as [_ Hb]. lia. Qed.

(** In any reachable projector selecting a head always ends: it fails with
    unknown-parent exactly when the head is unknown, with gap exactly when its chain of
    parents is broken, and never reports a cycle; otherwise the canonical path is the
    numbered chain from block 0 to the head, the state is the fold of the events of all
    but its last [confirmationDepth] blocks, and the confirmed head is the last of the
    blocks folded. *)
Theorem selectHead_correct p h :
  reachable p ->
  (map_get h (blocks p) = None /\ selectHead p h = Some (Throw unknown_parent)) \/
  (exists b, map_get h (blocks p) = Some b /\
     ((~ (exists path, ancestry (blocks p) b path) /\ selectHead p h = Some (Throw gap)) \/
      (exists path p', ancestry (blocks p) b path /\
         (forall i c, path !! i = Some c -> number c = Z.of_nat i) /\ last path = Some b /\
         selectHead p h = Some (Ok (p', mkSnapshot
           ((fun c => (hash c, number c)) <$> last (confirmed_blocks path))
           (fold_left (apply_event reducer) (confirmed_blocks path ≫= events) (initialState reducer)))) /\
         blocks p' = blocks p /\ canonical p' = path))).
Proof.
  intros Hr. pose proof (projector_reachable_ok p Hr) as Hp. destruct Hr as (p0 & Hp0%new_projector_depth & _).
  pose proof (pathToGenesis_spec p h Hp) as Hspec. unfold selectHead.
  destruct (map_get h (blocks p)) as [b|] eqn:Hb; [right|left; by rewrite Hspec].
  exists b. split; [done|]. destruct Hspec as [(path & Ha & ->)|[Hno ->]]; [right|by left].
  exists path, (mkProjector (blocks p) path (rebuild path)).
  assert (forall h c, map_get h (blocks p) = Some c -> hash c = h) as Hh by (intros ?? ?%(p_filed p Hp); tauto).
  split; [done|]. split; [intros i c Hi; by destruct (ancestry_chain _ _ _ _ _ Hh Ha Hi)|]. split.
  { pose proof (ancestry_length _ _ _ Ha) as Hlen. destruct (p_filed p Hp _ _ Hb) as [_ Hn].
    rewrite last_lookup. destruct (path !! pred (length path)) as [c|] eqn:Hc.
    - destruct (ancestry_chain _ _ _ _ _ Hh Ha Hc) as (_ & _ & Hl). rewrite Hl; [done|lia].
    - apply lookup_ge_None in Hc. lia. }
  split; [|done]. unfold snapshot. simpl. do 3 f_equal. f_equal.
  - by eapply confirmed_head.
  - unfold rebuild. generalize (initialState reducer). induction (confirmed_blocks path) as [|c l IH]; intros s; csimpl; [done|].
    by rewrite fold_left_app, IH.
Qed.

(** Replay independence: whatever two projectors with the same reducer and depth
    ingested and selected before, in whatever order, if they hold the same block under
    every hash both know, then selecting the same head gives both the same snapshot and
    the same checkpoint text; in particular a reorganisation and back restores it. *)
Theorem replay_independent p q h p' q' s t :
  reachable p -> reachable q ->
  (forall k b c, map_get k (blocks p) = Some b -> map_get k (blocks q) = Some c -> b = c) ->
  selectHead p h = Some (Ok (p', s)) -> selectHead q h = Some (Ok (q', t)) ->
  s = t /\ canonical p' = canonical q' /\ checkpoint p' = checkpoint q'.
Proof.
  intros Hp%projector_reachable_ok Hq%projector_reachable_ok Hagree Hsp Hsq. unfold selectHead in *.
  pose proof (pathToGenesis_spec p h Hp) as Gp. pose proof (pathToGenesis_spec q h Hq) as Gq.
  destruct (map_get h (blocks p)) as [b|] eqn:Hb; [|by rewrite Gp in Hsp].
  destruct (map_get h (blocks q)) as [c|] eqn:Hc; [|by rewrite Gq in Hsq].
  assert (b = c) as <- by eauto.
  destruct Gp as [(path & Ha & Heq)|[_ Heq]]; rewrite Heq in Hsp; [|done].
  destruct Gq as [(path' & Ha' & Heq')|[_ Heq']]; rewrite Heq' in Hsq; [|done].
  assert (path = path') as <-.
  { clear -Ha Ha' Hagree. revert path' Ha'. induction Ha as [b H0|b parent path H0 Hpar Hn _ IH]; intros path' Ha';
      inversion Ha' as [? H1|? parent' path1 H1 Hpar' Hn' Ha1]; subst; try done.
    assert (parent = parent') as <- by eauto. f_equal. by apply IH. }
  simplify_eq. unfold checkpoint, snapshot. simpl. done.
Qed.

(** A block once ingested is kept unchanged by every later call, ingesting it again
    changes nothing, and a different block under its hash is refused as a conflict. *)
Theorem ingest_idempotent (HI : CanonicalTextInj ChainBlock) p b p1 p2 :
  ingest p b = Ok p1 -> rtc projector_step p1 p2 ->
  map_get (hash b) (blocks p2) = Some b /\ ingest p2 b = Ok p2 /\
  forall c, hash c = hash b -> c <> b ->
    ingest p2 c = Throw (if negb (isSafeInteger (number c)) || (number c <? 0) then gap else conflict).
Proof.
  intros H Hs.
  assert (map_get (hash b) (blocks p1) = Some b) as H1.
  { pose proof (ingest_inv _ _ _ H) as [_ [(b' & Hb' & ->)|(_ & _ & ->)]]; [|apply map_get_set_eq].
    unfold ingest in H. rewrite Hb' in H. inv_result. apply String.eqb_eq, HI in Ha0. by subst. }
  assert (map_get (hash b) (blocks p2) = Some b) as H2.
  { clear H. induction Hs as [|q1 q2 q3 H12 _ IH]; [done|]. apply IH. destruct H12 as [c q2 Hi|h q2 s Hsel].
    - destruct (ingest_inv _ _ _ Hi) as [_ [(c' & Hc' & ->)|(Hn & _ & ->)]]; [done|]. simpl.
      rewrite map_get_set_ne; [done|]. intros Heq. congruence.
    - unfold selectHead in Hsel. repeat case_match; simplify_eq. done. }
  destruct (ingest_guards _ _ _ H) as (Hsafe & Hneg & Hlen). split; [done|]. split.
  - unfold ingest. by rewrite H2, String.eqb_refl, Hsafe, Hneg, Hlen.
  - intros c Hc Hne. unfold ingest. rewrite Hc, H2, Hlen, orb_false_r.
    destruct (negb (isSafeInteger (number c)) || (number c <? 0)); [done|]. simpl.
    destruct (String.eqb_spec (canonicalJson b) (canonicalJson c)) as [Heq|]; [|done].
    apply HI in Heq. congruence.
Qed.
End Projector.

Arguments ChainBlock : clear implicits.
Arguments ProjectionReducer : clear implicits.
Arguments ProjectorSnapshot : clear implicits.
Arguments CanonicalProjector : clear implicits.

(** ** The projection of evidence claims *)

Inductive EvidenceEventKind := ev_activated | ev_revoked | ev_superseded.
Inductive ClaimStatus := claim_active | claim_revoked | claim_superseded.

Record EvidenceProjectionEvent := mkEvent { claimId : string; kind : EvidenceEventKind; event_version : Z }.

(** [claims]: an object indexed by claim identifier *)
Definition EvidenceProjectionState := gmap string (ClaimStatus * Z).

Definition projected_status (k : EvidenceEventKind) : ClaimStatus :=
  match k with
  | ev_activated => claim_active
  | ev_revoked => claim_revoked
  | ev_superseded => claim_superseded
  end.

Definition apply_evidence (s : EvidenceProjectionState) (e : EvidenceProjectionEvent) : EvidenceProjectionState :=
  <[claimId e := (projected_status (kind e), event_version e)]> s.

Definition evidenceProjectionReducer : ProjectionReducer EvidenceProjectionEvent EvidenceProjectionState :=
  mkReducer ∅ apply_evidence.

Lemma fold_evidence (s : gmap string (ClaimStatus * Z)) (l : list EvidenceProjectionEvent) id :
  fold_left apply_evidence l s !! id =
    match last (filter (fun e => claimId e = id) l) with
    | Some e => Some (projected_status (kind e), event_version e)
    | None => s !! id
    end.
Proof.
  revert s. induction l as [|e l IH]; intros s; simpl; [done|]. rewrite IH, filter_cons.
  unfold apply_evidence, EvidenceProjectionState. rewrite lookup_insert. destruct (decide (claimId e = id)) as [Heq|Hne].
  - rewrite last_cons. by destruct (last _).
  - by destruct (last _).
Qed.

(** The first elements of a list whose numbers count up are those with small numbers. *)
Lemma take_numbered {A} (f : A -> Z) (l : list A) (from n : Z) :
  (forall i x, l !! i = Some x -> f x = from + Z.of_nat i) ->
  take (Z.to_nat (n - from)) l = filter (fun x => f x < n) l.
Proof.
  revert from. induction l as [|x l IH]; intros from Hf; [by rewrite take_nil|].
  pose proof (Hf 0%nat x eq_refl) as Hx. rewrite filter_cons.
  assert (forall i y, l !! i = Some y -> f y = from + 1 + Z.of_nat i) as Hf' by (intros i y Hy; rewrite (Hf (S i) y Hy); lia).
  specialize (IH (from + 1) Hf'). case_decide as Hd.
  - replace (Z.to_nat (n - from)) with (S (Z.to_nat (n - (from + 1)))) by lia. simpl. by rewrite IH.
  - replace (Z.to_nat (n - from)) with 0%nat by lia. replace (Z.to_nat (n - (from + 1))) with 0%nat in IH by lia.
    by rewrite <- IH.
Qed.

Lemma confirmed_numbered {E} (depth : Z) bs (b : ChainBlock E) (path : list (ChainBlock E)) :
  0 <= depth -> ancestry bs b path -> (forall i c, path !! i = Some c -> number c = Z.of_nat i) ->
  confirmed_blocks depth path = filter (fun c => number c + depth <= number b) path.
Proof.
  intros Hd Ha Hn. pose proof (ancestry_length _ _ _ Ha) as Hlen. unfold confirmed_blocks.
  rewrite Hlen. replace (Z.to_nat (Z.max 0 (number b + 1 - depth))) with (Z.to_nat (number b + 1 - depth - 0)) by lia.
  rewrite (take_numbered number path 0) by (intros i c Hc; rewrite (Hn i c Hc); lia).
  apply list_filter_iff. intros c. lia.
Qed.

Lemma ancestry_filed {E} bs (b : ChainBlock E) path c :
  (forall h c, map_get h bs = Some c -> hash c = h) -> map_get (hash b) bs = Some b ->
  ancestry bs b path -> c ∈ path -> map_get (hash c) bs = Some c.
Proof.
  intros Hbs Hb Ha. revert Hb. induction Ha as [b H0|b parent path H0 Hp Hn _ IH]; intros Hb.
  - by intros ->%list_elem_of_singleton.
  - intros [Hc| ->%list_elem_of_singleton]%elem_of_app; [|done]. apply IH; [|done]. by rewrite (Hbs _ _ Hp).
Qed.

(** C37. After selecting a head in any reachable projector, the canonical path is the
    chain of filed blocks numbered 0, 1, ... up to the head, each the parent of the next.
    The confirmed blocks are those at least [depth] blocks below the head; the last of them
    is the confirmed head, and a claim is projected to what the last event about it in
    their events, in the order of the chain, makes of it: active with its version when it
    was activated, revoked when it was revoked, superseded when it was superseded, and
    nothing for a claim that no confirmed event mentions. *)
Theorem evidence_projection `{!CanonicalText (ChainBlock EvidenceProjectionEvent)} depth p h p' s :
  reachable evidenceProjectionReducer depth p ->
  selectHead evidenceProjectionReducer depth p h = Some (Ok (p', s)) ->
  exists b, map_get h (blocks p) = Some b /\ last (canonical p') = Some b /\
    (forall i c, canonical p' !! i = Some c -> number c = Z.of_nat i /\ map_get (hash c) (blocks p) = Some c /\
       forall d, canonical p' !! S i = Some d -> parentHash d = hash c) /\
    let confirmed := filter (fun c => number c + depth <= number b) (canonical p') in
    confirmedHead s = (fun c => (hash c, number c)) <$> last confirmed /\
    forall id, snapshot_state s !! id =
      match last (filter (fun e => claimId e = id) (confirmed ≫= events)) with
      | None => None
      | Some e =>
          Some (match kind e with
                | ev_activated => claim_active
                | ev_revoked => claim_revoked
                | ev_superseded => claim_superseded
                end, event_version e)
      end.
Proof.
  intros Hr Hsel. pose proof (projector_reachable_ok _ _ p Hr) as Hp.
  destruct (selectHead_correct _ _ p h Hr) as [[_ H]|(b & Hb & [[_ H]|(path & q & Ha & Hn & Hl & H & _ & Hc)])];
    rewrite Hsel in H; simplify_eq.
  assert (forall h c, map_get h (blocks p) = Some c -> hash c = h) as Hh by (intros ?? ?%(p_filed _ _ p Hp); tauto).
  destruct Hr as (p0 & Hd%new_projector_depth & _).
  exists b. split; [done|]. split; [done|]. split; [|split].
  - intros i c Hi. destruct (ancestry_chain _ _ _ _ _ Hh Ha Hi) as (Hni & Hpar & _). split; [done|]. split; [|done].
    eapply ancestry_filed; [exact Hh| |exact Ha|by eapply list_elem_of_lookup_2]. by rewrite (Hh _ _ Hb).
  - simpl. by rewrite (confirmed_numbered depth (blocks p) b).
  - intros id. simpl. rewrite fold_evidence, (confirmed_numbered depth (blocks p) b) by done.
    destruct (last (filter _ (_ ≫= _))) as [e|]; [|done]. by destruct (kind e).
Qed.

(** ** A concrete chain *)

Module Sample.
Section Sample.

#[local] Instance block_text : CanonicalText (ChainBlock EvidenceProjectionEvent) := hash.
#[local] Instance snapshot_text : CanonicalText (ProjectorSnapshot EvidenceProjectionState) := fun _ => "snapshot"%string.

Definition b0 : ChainBlock EvidenceProjectionEvent := mkBlock [mkEvent "c" ev_activated 1] "h0" 0 "".
Definition b1 : ChainBlock EvidenceProjectionEvent := mkBlock [mkEvent "c" ev_superseded 1; mkEvent "c" ev_activated 2] "h1" 1 "h0".
Definition b2 : ChainBlock EvidenceProjectionEvent := mkBlock [mkEvent "c" ev_revoked 2] "h2" 2 "h1".

Definition start : CanonicalProjector EvidenceProjectionEvent EvidenceProjectionState := mkProjector [] [] ∅.
Definition chain : CanonicalProjector EvidenceProjectionEvent EvidenceProjectionState :=
  mkProjector [("h0", b0); ("h1", b1); ("h2", b2)] [] ∅.

Lemma chain_reachable : reachable evidenceProjectionReducer 1 chain.
Proof.
  exists start. split; [reflexivity|].
  eapply rtc_l; [apply (step_ingest _ _ start b0); reflexivity|].
  eapply rtc_l; [apply (step_ingest _ _ _ b1); reflexivity|].
  eapply rtc_l; [apply (step_ingest _ _ _ b2); reflexivity|]. constructor.
Qed.

Definition selected : CanonicalProjector EvidenceProjectionEvent EvidenceProjectionState :=
  mkProjector (blocks chain) [b0; b1; b2] (rebuild evidenceProjectionReducer 1 [b0; b1; b2]).

Lemma chain_selected :
  selectHead evidenceProjectionReducer 1 chain "h2" = Some (Ok (selected, snapshot 1 selected)).
Proof. reflexivity. Qed.

Lemma selectHead_correct_witness :
  reachable evidenceProjectionReducer 1 chain /\
  selectHead evidenceProjectionReducer 1 chain "h9" = Some (Throw unknown_parent).
Proof.
  split; [exact chain_reachable|].
  destruct (selectHead_correct evidenceProjectionReducer 1 chain "h9" chain_reachable) as [[_ H]|(b & Hb & _)];
    [exact H|discriminate Hb].
Defined.

Lemma replay_independent_witness :
  checkpoint 1 selected = checkpoint 1 selected /\ confirmedHead (snapshot 1 selected) = Some ("h1"%string, 1).
Proof.
  split; [|reflexivity].
  refine (proj2 (proj2 (replay_independent evidenceProjectionReducer 1 chain chain "h2" selected selected _ _
    chain_reachable chain_reachable _ chain_selected chain_selected))).
  intros k b c Hb Hc. congruence.
Defined.

Lemma evidence_projection_witness :
  snapshot_state (snapshot 1 selected) !! "c"%string = Some (claim_active, 2).
Proof.
  destruct (evidence_projection 1 chain "h2" selected (snapshot 1 selected) chain_reachable chain_selected)
    as (b & Hb & _ & _ & _ & Hs).
  injection Hb as <-. rewrite (Hs "c"%string). reflexivity.
Defined.
End Sample.


(** An injective text: the number that encodes the block. *)
Definition block_tuple {E} (b : ChainBlock E) : list E * string * Z * string :=
  (events b, hash b, number b, parentHash b).

Definition encoded_text : CanonicalText (ChainBlock Z) := fun b => pretty (Npos (encode (block_tuple b))).

Lemma encoded_text_inj : @CanonicalTextInj (ChainBlock Z) encoded_text.
Proof.
  intros [e h n p] [e' h' n' p'] H.
  unfold canonicalJson, encoded_text in H. apply (inj (pretty (A:=N))) in H. injection H as H.
  apply encode_inj in H.
  unfold block_tuple in H. simpl in H. congruence.
Qed.

Lemma ingest_idempotent_witness :
  let b : ChainBlock Z := mkBlock [7%Z] "h0" 0 "" in
  let p : CanonicalProjector Z Z := mkProjector [] [] 0 in
  let p1 := mkProjector [("h0"%string, b)] [] 0 in
  @ingest Z Z encoded_text p1 b = Ok p1 /\
  @ingest Z Z encoded_text p1 (mkBlock [8] "h0" 0 "") = Throw conflict.
Proof.
  intros b p p1.
  destruct (@ingest_idempotent Z Z (mkReducer 0 Z.add) 0 encoded_text encoded_text_inj p b p1 p1
    eq_refl (rtc_refl _ _)) as (_ & H1 & H2).
  split; [exact H1|]. exact (H2 (mkBlock [8] "h0" 0 "") eq_refl ltac:(discriminate)).
Defined.
End Sample.
