(* ===== verification/Session.v ===== *)
(** * Wallet sessions of the assistant

    [src/src/assistant/session.ts], [WalletSessionManager]. The clock, the random
    identifiers and tokens are arguments of each call, and SHA-256 is the parameter
    [digest]. [verify] is two steps: up to its first [await] it consumes the challenge,
    and it resumes with the answers of [credentialIsCurrent] and [verifySignature];
    other calls may run in between. A call that throws may still have changed the
    tables, so operations return the manager next to their result. *)

From S2P Require Import Prelude Regex Digits.

Inductive SessionError := capacity | expired | invalid | replay.

Record Identity := mkIdentity {
  actorId : string;
  organizationId : string;
  credentialId : string;
  address : string
}.

(** [challenge] wants the [identity] schema; a payload it refuses is a [ZodError]. *)
Inductive ChallengeError := zod_error | session_error (e : SessionError).

Record Challenge := mkChallenge {
  ch_identity : Identity;
  challengeId : string;
  message : string;
  ch_expiresAt : Z
}.

Record ActorSession := mkSession {
  sessionId : string;
  s_identity : Identity;
  issuedAt : Z;
  s_expiresAt : Z
}.

Record WalletSessionLimits := mkLimits {
  challengeLifetimeSeconds : option Z;
  maxChallenges : option Z;
  maxSessions : option Z
}.

Record WalletSessionManager := mkManager {
  challenges : list (string * Challenge);
  sessions : list (string * ActorSession);
  challengeLifetime : Z;
  challengeCapacity : Z;
  sessionCapacity : Z;
  sessionLifetime : Z
}.

Definition positiveInteger (value : Z) : option Z :=
  if negb (isSafeInteger value) || (value <=? 0) then None else Some value.

(** The constructor; [None] is its [Error]. *)
Definition new_manager (sessionLifetimeSeconds : Z) (limits : WalletSessionLimits) : option WalletSessionManager :=
  l ← positiveInteger (default 300 (challengeLifetimeSeconds limits));
  c ← positiveInteger (default 1024 (maxChallenges limits));
  s ← positiveInteger (default 1024 (maxSessions limits));
  _ ← positiveInteger sessionLifetimeSeconds;
  Some (mkManager [] [] l c s sessionLifetimeSeconds).

Definition with_tables (cs : list (string * Challenge)) (ss : list (string * ActorSession))
    (m : WalletSessionManager) : WalletSessionManager :=
  mkManager cs ss (challengeLifetime m) (challengeCapacity m) (sessionCapacity m) (sessionLifetime m).

Definition identity (i : Identity) : bool :=
  String.prefix "urn:evllm:actor:" (actorId i) &&
  String.prefix "urn:evllm:org:" (organizationId i) &&
  String.prefix "urn:evllm:credential:" (credentialId i) &&
  rtest (rx "^0x[0-9a-f]{40}$") (address i).

Section Sessions.
Context (digest : string -> string).

Definition removeExpired (currentTime : Z) (retainedSessionKey : option string) (m : WalletSessionManager) :
    WalletSessionManager :=
  with_tables
    (filter (fun p => ~ ch_expiresAt p.2 <= currentTime) (challenges m))
    (filter (fun p => ~ (Some p.1 <> retainedSessionKey /\ s_expiresAt p.2 <= currentTime)) (sessions m))
    m.

Definition LF : string := String "010"%char EmptyString.

Definition challenge_message (input : Identity) (id nonce : string) (expiresAt : Z) : string :=
  ("EVLLM wallet session v1" +:+ LF +:+
   "challenge=" +:+ id +:+ LF +:+
   "actor=" +:+ actorId input +:+ LF +:+
   "organization=" +:+ organizationId input +:+ LF +:+
   "credential=" +:+ credentialId input +:+ LF +:+
   "address=" +:+ address input +:+ LF +:+
   "nonce=" +:+ nonce +:+ LF +:+
   "expires_at=" +:+ number_to_string expiresAt)%string.

(** [id] is [randomUUID()], [nonce] the random nonce, [now] the clock. *)
Definition challenge (m : WalletSessionManager) (input : Identity) (id nonce : string) (now : Z) :
    WalletSessionManager * result ChallengeError Challenge :=
  if negb (identity input) then (m, Throw zod_error)
  else
    let m := removeExpired now None m in
    if challengeCapacity m <=? map_size (challenges m) then (m, Throw (session_error capacity))
    else
      let expiresAt := now + challengeLifetime m in
      let c := mkChallenge input id (challenge_message input id nonce expiresAt) expiresAt in
      (with_tables (map_set id c (challenges m)) (sessions m) m, Ok c).

(** [verify] up to the first [await]. *)
Definition start_verify (m : WalletSessionManager) (id : string) (now : Z) :
    WalletSessionManager * result SessionError Challenge :=
  match map_get id (challenges m) with
  | None => (m, Throw replay)
  | Some c =>
      let m := removeExpired now None (with_tables (map_delete id (challenges m)) (sessions m) m) in
      if ch_expiresAt c <=? now then (m, Throw expired) else (m, Ok c)
  end.

(** What the environment answers a suspended [verify]: the two verifiers, the clock
    when they have answered and again after it, and the random values. *)
Record Answers := mkAnswers {
  credential_current : bool;
  signature_valid : bool;
  verified_at : Z;
  issued_at : Z;
  token : string;
  session_uuid : string
}.

Definition session_of (m : WalletSessionManager) (c : Challenge) (a : Answers) : ActorSession :=
  mkSession ("urn:evllm:session:" +:+ session_uuid a)%string (ch_identity c) (issued_at a)
    (issued_at a + sessionLifetime m).

(** The rest of [verify]. *)
Definition finish_verify (m : WalletSessionManager) (c : Challenge) (a : Answers) :
    WalletSessionManager * result SessionError (string * ActorSession) :=
  if negb (credential_current a) then (m, Throw invalid)
  else if negb (signature_valid a) then (m, Throw invalid)
  else if ch_expiresAt c <=? verified_at a then (m, Throw expired)
  else
    let m := removeExpired (issued_at a) None m in
    if sessionCapacity m <=? map_size (sessions m) then (m, Throw capacity)
    else
      let session := session_of m c a in
      (with_tables (challenges m) (map_set (digest (token a)) session (sessions m)) m, Ok (token a, session)).

Definition require_session (m : WalletSessionManager) (tok : string) (now : Z) :
    WalletSessionManager * result SessionError ActorSession :=
  let key := digest tok in
  match map_get key (sessions m) with
  | None => (m, Throw invalid)
  | Some session =>
      let m := removeExpired now (Some key) m in
      if s_expiresAt session <=? now
      then (with_tables (challenges m) (map_delete key (sessions m)) m, Throw expired)
      else (m, Ok session)
  end.

Definition logout (m : WalletSessionManager) (tok : string) (now : Z) : WalletSessionManager :=
  let m := removeExpired now None m in
  with_tables (challenges m) (map_delete (digest tok) (sessions m)) m.

(** ** The system: a manager and the challenges of the suspended [verify] calls *)

Record System := mkSystem { manager : WalletSessionManager; pending : list Challenge }.

Inductive Call :=
| call_challenge (input : Identity) (id nonce : string) (now : Z)
| call_start (id : string) (now : Z)
| call_finish (c : Challenge) (a : Answers)
| call_require (tok : string) (now : Z)
| call_logout (tok : string) (now : Z).

Inductive step (m : WalletSessionManager) : list Challenge -> Call -> WalletSessionManager -> list Challenge -> Prop :=
| step_challenge ps i id n t : step m ps (call_challenge i id n t) (challenge m i id n t).1 ps
| step_start ps id t :
    step m ps (call_start id t) (start_verify m id t).1
      (match (start_verify m id t).2 with Ok c => c :: ps | Throw _ => ps end)
| step_finish ps qs c a : step m (ps ++ c :: qs) (call_finish c a) (finish_verify m c a).1 (ps ++ qs)
| step_require ps tok t : step m ps (call_require tok t) (require_session m tok t).1 ps
| step_logout ps tok t : step m ps (call_logout tok t) (logout m tok t) ps.

(** A run from a new manager, latest call first. *)
Inductive run (m0 : WalletSessionManager) : list Call -> WalletSessionManager -> list Challenge -> Prop :=
| run_nil : run m0 [] m0 []
| run_cons calls m ps c m' ps' :
    run m0 calls m ps -> step m ps c m' ps' -> run m0 (c :: calls) m' ps'.

(** ** Facts about the operations *)

Lemma sublist_keys {V} (l l' : list (string * V)) : l' `sublist_of` l -> l'.*1 `sublist_of` l.*1.
Proof. induction 1; csimpl; by constructor. Qed.

Lemma map_filter_get {V} (P : string * V -> Prop) `{!forall x, Decision (P x)} k v (l : list (string * V)) :
  map_ok l -> map_get k (filter P l) = Some v <-> map_get k l = Some v /\ P (k, v).
Proof.
  intros Hok. assert (map_ok (filter P l)) as Hok'.
  { eapply sublist_NoDup; [exact Hok|]. by apply sublist_keys, sublist_filter. }
  split.
  - intros [HP Hin]%map_get_elem_of%list_elem_of_filter. split; [by apply elem_of_map_get|done].
  - intros [Hin%map_get_elem_of HP]. apply elem_of_map_get; [done|]. by apply list_elem_of_filter.
Qed.

Record manager_ok (m0 m : WalletSessionManager) : Prop := {
  m_challenges : map_ok (challenges m);
  m_sessions : map_ok (sessions m);
  m_filed : forall id c, map_get id (challenges m) = Some c -> challengeId c = id;
  m_lifetime : challengeLifetime m = challengeLifetime m0;
  m_capacity : challengeCapacity m = challengeCapacity m0;
  m_session_capacity : sessionCapacity m = sessionCapacity m0;
  m_session_lifetime : sessionLifetime m = sessionLifetime m0
}.

(** [m'] keeps some of the entries of [m]. *)
Definition shrinks (m m' : WalletSessionManager) : Prop :=
  challenges m' `sublist_of` challenges m /\ sessions m' `sublist_of` sessions m /\
  challengeLifetime m' = challengeLifetime m /\ challengeCapacity m' = challengeCapacity m /\
  sessionCapacity m' = sessionCapacity m /\ sessionLifetime m' = sessionLifetime m.

#[local] Instance shrinks_preorder : PreOrder shrinks.
Proof.
  split; [by repeat split|]. intros m1 m2 m3 (Hc & Hs & ? & ? & ? & ?) (Hc' & Hs' & ? & ? & ? & ?).
  split; [by trans (challenges m2)|]. split; [by trans (sessions m2)|]. repeat split; congruence.
Qed.

Lemma removeExpired_shrinks now k m : shrinks m (removeExpired now k m).
Proof. split; [apply sublist_filter|]. split; [apply sublist_filter|]. done. Qed.

Lemma delete_shrinks_challenge id m :
  shrinks m (with_tables (map_delete id (challenges m)) (sessions m) m).
Proof. split; [apply sublist_filter|]. done. Qed.

Lemma delete_shrinks_session k m :
  shrinks m (with_tables (challenges m) (map_delete k (sessions m)) m).
Proof. split; [done|]. split; [apply sublist_filter|]. done. Qed.

Lemma sublist_map_get {V} (l l' : list (string * V)) k v :
  map_ok l -> l' `sublist_of` l -> map_get k l' = Some v -> map_get k l = Some v.
Proof.
  intros Hok Hs H%map_get_elem_of. apply elem_of_map_get; [done|]. by eapply elem_of_sublist.
Qed.

Lemma shrinks_ok m0 m m' : shrinks m m' -> manager_ok m0 m -> manager_ok m0 m'.
Proof.
  intros (Hc & Hs & ? & ? & ? & ?) [Hmc Hms Hf ? ? ? ?]. constructor; try congruence.
  - by eapply sublist_NoDup, sublist_keys.
  - by eapply sublist_NoDup, sublist_keys.
  - intros id c Hid. by eapply Hf, sublist_map_get.
Qed.

Lemma challenge_inv m i id n t m' r :
  challenge m i id n t = (m', r) ->
  (exists e, r = Throw e /\ shrinks m m') \/
  (exists m1 c, r = Ok c /\ shrinks m m1 /\ identity i = true /\
     c = mkChallenge i id (challenge_message i id n (t + challengeLifetime m)) (t + challengeLifetime m) /\
     map_size (challenges m1) < challengeCapacity m1 /\
     m' = with_tables (map_set id c (challenges m1)) (sessions m1) m1).
Proof.
  unfold challenge. intros H. destruct (identity i) eqn:Hi; simplify_eq/=; [|left; eexists; by split].
  pose proof (removeExpired_shrinks t None m) as Hs. destruct (Z.leb_spec (challengeCapacity m)
    (map_size (filter (fun p : string * Challenge => ~ ch_expiresAt p.2 <= t) (challenges m)))); simplify_eq.
  - left. eexists. by split.
  - right. eexists _, _. split; [done|]. split; [exact Hs|]. done.
Qed.

Lemma start_inv m id t m' r :
  start_verify m id t = (m', r) ->
  shrinks m m' /\ map_get id (challenges m') = None /\
  (forall c, r = Ok c -> map_get id (challenges m) = Some c).
Proof.
  unfold start_verify. intros H. destruct (map_get id (challenges m)) as [c|] eqn:Hc; [|by simplify_eq].
  assert (m' = removeExpired t None (with_tables (map_delete id (challenges m)) (sessions m) m)) as -> by (by case_match; simplify_eq).
  split; [etrans; [apply delete_shrinks_challenge|apply removeExpired_shrinks]|]. split.
  - simpl. apply map_get_None. intros (p & -> & [_ [Hne _]%list_elem_of_filter]%list_elem_of_filter)%list_elem_of_fmap. done.
  - case_match; intros; by simplify_eq.
Qed.

Lemma finish_inv m c a m' r :
  finish_verify m c a = (m', r) ->
  (exists e, r = Throw e /\ shrinks m m') \/
  (exists m1, r = Ok (token a, session_of m c a) /\ shrinks m m1 /\
     credential_current a = true /\ signature_valid a = true /\ verified_at a < ch_expiresAt c /\
     map_size (sessions m1) < sessionCapacity m1 /\
     m' = with_tables (challenges m1) (map_set (digest (token a)) (session_of m c a) (sessions m1)) m1).
Proof.
  unfold finish_verify. intros H. destruct (credential_current a); simplify_eq/=; [|left; eexists; by split].
  destruct (signature_valid a); simplify_eq/=; [|left; eexists; by split].
  destruct (Z.leb_spec (ch_expiresAt c) (verified_at a)); simplify_eq/=; [left; eexists; by split|].
  pose proof (removeExpired_shrinks (issued_at a) None m) as Hs.
  match goal with H : context [?x <=? ?y] |- _ => destruct (Z.leb_spec x y) end; simplify_eq; [left; eexists; by split|].
  right. eexists. split; [done|]. split; [exact Hs|]. done.
Qed.

Lemma require_inv m tok t m' r :
  require_session m tok t = (m', r) -> shrinks m m'.
Proof.
  unfold require_session. intros H. repeat case_match; simplify_eq; try done.
  - etrans; [apply removeExpired_shrinks|apply delete_shrinks_session].
  - apply removeExpired_shrinks.
Qed.

Lemma logout_inv m tok t : shrinks m (logout m tok t) /\ map_get (digest tok) (sessions (logout m tok t)) = None.
Proof.
  split; [etrans; [apply removeExpired_shrinks|apply delete_shrinks_session]|].
  unfold logout. simpl. rewrite map_delete_get. by case_decide.
Qed.

(** ** Every run *)

Definition issued_by (m0 : WalletSessionManager) (calls : list Call) (c : Challenge) : Prop :=
  exists i n t, call_challenge i (challengeId c) n t ∈ calls /\ identity i = true /\
    c = mkChallenge i (challengeId c) (challenge_message i (challengeId c) n (t + challengeLifetime m0))
          (t + challengeLifetime m0).

(** [s], filed under [key], was earned by a [verify] both verifiers agreed to. *)
Definition earned (m0 : WalletSessionManager) (calls : list Call) (key : string) (s : ActorSession) : Prop :=
  exists c a, call_finish c a ∈ calls /\ issued_by m0 calls c /\ credential_current a = true /\
    signature_valid a = true /\ verified_at a < ch_expiresAt c /\ digest (token a) = key /\ s = session_of m0 c a.

Record run_ok (m0 : WalletSessionManager) (calls : list Call) (m : WalletSessionManager) (ps : list Challenge) : Prop := {
  run_manager : manager_ok m0 m;
  run_challenges : forall id c, map_get id (challenges m) = Some c -> issued_by m0 calls c;
  run_pending : Forall (issued_by m0 calls) ps;
  run_sessions : forall k s, map_get k (sessions m) = Some s -> earned m0 calls k s;
  run_capacity : map_size (challenges m) <= challengeCapacity m0 /\ map_size (sessions m) <= sessionCapacity m0
}.

Lemma issued_by_cons m0 x calls c : issued_by m0 calls c -> issued_by m0 (x :: calls) c.
Proof. intros (i & n & t & Hin & H). exists i, n, t. split; [by right|done]. Qed.

Lemma earned_cons m0 x calls k s : earned m0 calls k s -> earned m0 (x :: calls) k s.
Proof.
  intros (c & a & Hin & Hi & H). exists c, a. split; [by right|]. split; [by apply issued_by_cons|done].
Qed.

Lemma sublist_size {V} (l l' : list (string * V)) : l' `sublist_of` l -> map_size l' <= map_size l.
Proof. intros H%sublist_length. unfold map_size. lia. Qed.

Lemma shrinks_run_ok m0 calls x m m' ps :
  shrinks m m' -> run_ok m0 calls m ps -> run_ok m0 (x :: calls) m' ps.
Proof.
  intros Hs [Hm Hc Hp Hse [Hk1 Hk2]]. pose proof Hs as (Hsc & Hss & _). constructor.
  - by eapply shrinks_ok.
  - intros id c Hid. apply issued_by_cons. eapply Hc, sublist_map_get; [apply Hm|done|done].
  - eapply Forall_impl; [exact Hp|]. apply issued_by_cons.
  - intros k s Hk. apply earned_cons. eapply Hse, sublist_map_get; [apply Hm|done|done].
  - pose proof (sublist_size _ _ Hsc). pose proof (sublist_size _ _ Hss). lia.
Qed.

Lemma map_set_size_le {V} k (v : V) (l : list (string * V)) : map_size (map_set k v l) <= map_size l + 1.
Proof. rewrite map_set_size. case_match; lia. Qed.

Lemma add_challenge_ok m0 calls m ps c :
  run_ok m0 calls m ps -> issued_by m0 calls c -> map_size (challenges m) < challengeCapacity m ->
  run_ok m0 calls (with_tables (map_set (challengeId c) c (challenges m)) (sessions m) m) ps.
Proof.
  intros [Hm Hc Hp Hse [Hk1 Hk2]] Hi Hlt.
  destruct Hm as [Hmc Hms Hf ? Hcap ? ?]. constructor; simpl; try done.
  - constructor; simpl; try done; [by apply map_set_ok|]. intros id d. rewrite map_get_set.
    case_decide; [intros; by simplify_eq|by apply Hf].
  - intros id d. rewrite map_get_set. case_decide; [intros; by simplify_eq|by apply Hc].
  - pose proof (map_set_size_le (challengeId c) c (challenges m)). lia.
Qed.

Lemma add_session_ok m0 calls m ps k s :
  run_ok m0 calls m ps -> earned m0 calls k s -> map_size (sessions m) < sessionCapacity m ->
  run_ok m0 calls (with_tables (challenges m) (map_set k s (sessions m)) m) ps.
Proof.
  intros [Hm Hc Hp Hse [Hk1 Hk2]] Hi Hlt.
  destruct Hm as [Hmc Hms Hf ? ? Hcap ?]. constructor; simpl; try done.
  - constructor; simpl; try done. by apply map_set_ok.
  - intros j t. rewrite map_get_set. case_decide; [intros; by simplify_eq|by apply Hse].
  - pose proof (map_set_size_le k s (sessions m)). lia.
Qed.

Lemma run_ok_pending m0 calls m ps qs :
  run_ok m0 calls m ps -> (forall c, c ∈ qs -> c ∈ ps \/ issued_by m0 calls c) -> run_ok m0 calls m qs.
Proof.
  intros [Hm Hc Hp Hse Hk] Hsub. constructor; try done. rewrite Forall_forall in Hp. apply Forall_forall.
  intros c [Hin|]%Hsub; [by apply Hp|done].
Qed.

Lemma run_ok_nil l lim m0 : new_manager l lim = Some m0 -> run_ok m0 [] m0 [].
Proof.
  unfold new_manager, positiveInteger. intros H. repeat (case_match; simplify_eq/=).
  constructor; simpl; try done; [constructor; simpl; try done; constructor|].
  unfold map_size. simpl. repeat match goal with H : _ || _ = false |- _ => apply orb_false_iff in H as [_ ?] end. lia.
Qed.

Lemma step_ok m0 calls m ps x m' ps' :
  run_ok m0 calls m ps -> step m ps x m' ps' -> run_ok m0 (x :: calls) m' ps'.
Proof.
  intros IH Hs. destruct Hs as [ps i id n t|ps id t|ps qs c a|ps tok t|ps tok t].
  - destruct (challenge m i id n t) as [m' r] eqn:Hc. simpl.
    destruct (challenge_inv _ _ _ _ _ _ _ Hc) as [(e & _ & Hs)|(m1 & c & _ & Hs & Hi & Heq & Hlt & ->)];
      [by eapply shrinks_run_ok|].
    assert (challengeId c = id) as <- by (by rewrite Heq).
    apply add_challenge_ok; [by eapply shrinks_run_ok| |done].
    exists i, n, t. split; [by left|]. split; [done|]. by rewrite <- (m_lifetime _ _ (run_manager _ _ _ _ IH)).
  - destruct (start_verify m id t) as [m' r] eqn:Hc. simpl. destruct (start_inv _ _ _ _ _ Hc) as (Hs & _ & Hr).
    eapply run_ok_pending; [by eapply shrinks_run_ok|]. destruct r as [c|e]; [|by left].
    intros d [->|]%elem_of_cons; [right|by left].
    eapply issued_by_cons, (run_challenges _ _ _ _ IH), Hr. done.
  - destruct (finish_verify m c a) as [m' r] eqn:Hc. simpl.
    apply (run_ok_pending _ _ _ (ps ++ c :: qs)); [|intros d; set_solver].
    destruct (finish_inv _ _ _ _ _ Hc) as [(e & _ & Hs)|(m1 & _ & Hs & Hcr & Hsig & Hexp & Hlt & ->)];
      [by eapply shrinks_run_ok|].
    apply add_session_ok; [by eapply shrinks_run_ok| |done].
    pose proof (run_pending _ _ _ _ IH) as Hp. rewrite Forall_app, Forall_cons in Hp. destruct Hp as (_ & Hp & _).
    exists c, a. split; [by left|]. split; [by apply issued_by_cons|]. repeat split; try done.
    unfold session_of. by rewrite (m_session_lifetime _ _ (run_manager _ _ _ _ IH)).
  - destruct (require_session m tok t) as [m' r] eqn:Hc. simpl. eapply shrinks_run_ok; [|done]. by eapply require_inv.
  - eapply shrinks_run_ok; [|done]. apply logout_inv.
Qed.

Lemma run_is_ok l lim m0 calls m ps : new_manager l lim = Some m0 -> run m0 calls m ps -> run_ok m0 calls m ps.
Proof. intros H0 Hr. induction Hr; [by eapply run_ok_nil|by eapply step_ok]. Qed.

(** C35. A session is only ever granted to a caller who earned it: whenever [require]
    accepts a token, the session returned is unexpired and is the one a [verify] call
    stored under that token's digest after both verifiers agreed and before its
    challenge expired, for the identity of a challenge issued earlier in the run to a
    schema-valid identity; any other token is refused. *)
Theorem session_authentic l lim m0 calls m ps tok now :
  new_manager l lim = Some m0 -> run m0 calls m ps ->
  match (require_session m tok now).2 with
  | Ok s => earned m0 calls (digest tok) s /\ now < s_expiresAt s /\
      s_expiresAt s = issuedAt s + sessionLifetime m0
  | Throw e => (e = invalid /\ map_get (digest tok) (sessions m) = None) \/
      (e = expired /\ exists s, map_get (digest tok) (sessions m) = Some s /\ s_expiresAt s <= now /\
         (require_session (require_session m tok now).1 tok now).2 = Throw invalid)
  end.
Proof.
  intros H0 Hr. pose proof (run_is_ok _ _ _ _ _ _ H0 Hr) as Hok. unfold require_session at 1.
  destruct (map_get (digest tok) (sessions m)) as [s|] eqn:Hs; [|by left].
  destruct (Z.leb_spec (s_expiresAt s) now) as [He|He]; simpl.
  - right. split; [done|]. exists s. split; [done|]. split; [done|].
    unfold require_session at 2. rewrite Hs. destruct (Z.leb_spec (s_expiresAt s) now); [|lia]. simpl.
    unfold require_session. simpl. rewrite map_delete_get. by rewrite decide_True.
  - pose proof (run_sessions _ _ _ _ Hok _ _ Hs) as He'. split; [done|]. split; [done|].
    destruct He' as (c & a & _ & _ & _ & _ & _ & _ & ->). done.
Qed.

(** ** A challenge is used once *)

Definition issued_ids (calls : list Call) : list string :=
  omap (fun c => match c with call_challenge _ id _ _ => Some id | _ => None end) calls.
Definition finished_ids (calls : list Call) : list string :=
  omap (fun c => match c with call_finish c _ => Some (challengeId c) | _ => None end) calls.

(** Where every issued identifier may be: used, in use or still open. *)
Definition places (calls : list Call) (m : WalletSessionManager) (ps : list Challenge) : list string :=
  finished_ids calls ++ (challengeId <$> ps) ++ (challenges m).*1.

Lemma submseteq_NoDup {A} (l k : list A) : l ⊆+ k -> NoDup k -> NoDup l.
Proof. intros [r ->]%submseteq_Permutation. by intros [? _]%NoDup_app. Qed.

Lemma places_step m0 calls m ps x m' ps' :
  run_ok m0 calls m ps -> step m ps x m' ps' -> NoDup (issued_ids (x :: calls)) ->
  places calls m ps ⊆ issued_ids calls -> NoDup (places calls m ps) ->
  places (x :: calls) m' ps' ⊆ issued_ids (x :: calls) /\ NoDup (places (x :: calls) m' ps').
Proof.
  intros Hok Hs Hnd Hsub Hpl. unfold places in *.
  assert (forall m1, shrinks m m1 -> (challenges m1).*1 `sublist_of` (challenges m).*1) as Hkeys.
  { intros m1 (H & _). by apply sublist_keys. }
  assert (forall m1, shrinks m m1 ->
    finished_ids calls ++ (challengeId <$> ps) ++ (challenges m1).*1 ⊆ issued_ids calls /\
    NoDup (finished_ids calls ++ (challengeId <$> ps) ++ (challenges m1).*1)) as Hshrink.
  { intros m1 H1%Hkeys. assert (finished_ids calls ++ (challengeId <$> ps) ++ (challenges m1).*1
      `sublist_of` finished_ids calls ++ (challengeId <$> ps) ++ (challenges m).*1) as H2
      by (apply sublist_app; [done|]; by apply sublist_app).
    split; [|by eapply sublist_NoDup]. intros i Hi. apply Hsub. by eapply elem_of_sublist. }
  destruct Hs as [ps i id n t|ps id t|ps qs c a|ps tok t|ps tok t].
  - destruct (challenge m i id n t) as [m' r] eqn:Hc. simpl in *.
    apply NoDup_cons in Hnd as [Hnew Hnd].
    destruct (challenge_inv _ _ _ _ _ _ _ Hc) as [(e & _ & Hs)|(m1 & c & _ & Hs & _ & _ & _ & ->)].
    { destruct (Hshrink _ Hs). split; [set_solver|done]. }
    destruct (Hshrink _ Hs) as [Hs1 Hs2]. simpl. rewrite map_set_keys. case_decide; [split; [set_solver|done]|].
    split; [set_solver|]. rewrite !(assoc_L app). apply NoDup_app. split; [by rewrite <- !(assoc_L app)|].
    split; [|apply NoDup_singleton]. intros j Hj ->%list_elem_of_singleton. apply Hnew, Hs1.
    by rewrite !(assoc_L app).
  - destruct (start_verify m id t) as [m' r] eqn:Hc. simpl in *.
    destruct (start_inv _ _ _ _ _ Hc) as (Hs & Hgone & Hr). destruct (Hshrink _ Hs) as [Hs1 Hs2].
    destruct r as [c|e]; [|done]. specialize (Hr c eq_refl).
    assert (challengeId c = id) as <- by (by eapply m_filed; [exact (run_manager _ _ _ _ Hok)|]).
    apply map_get_None in Hgone. csimpl.
    assert (challengeId c ∈ (challenges m).*1) as Hin.
    { apply map_get_elem_of in Hr. apply list_elem_of_fmap. by eexists (_, _). }
    assert (challengeId c ∉ finished_ids calls ++ (challengeId <$> ps)) as Hfresh.
    { rewrite (assoc_L app) in Hpl. apply NoDup_app in Hpl as (_ & Hd & _). intros Hbad. by eapply Hd. }
    split; [set_solver|]. rewrite <- Permutation_middle. apply NoDup_cons. split; [|done].
    rewrite (assoc_L app). intros [?|?]%elem_of_app; done.
  - destruct (finish_verify m c a) as [m' r] eqn:Hc. simpl in *.
    assert ((challenges m').*1 `sublist_of` (challenges m).*1) as Hkeys'.
    { destruct (finish_inv _ _ _ _ _ Hc) as [(e & _ & Hs)|(m1 & _ & Hs & _ & _ & _ & _ & ->)]; exact (Hkeys _ Hs). }
    assert ((challengeId c :: finished_ids calls ++ (challengeId <$> ps ++ qs) ++ (challenges m').*1) ⊆+
            finished_ids calls ++ (challengeId <$> ps ++ c :: qs) ++ (challenges m).*1) as Hsm.
    { rewrite !fmap_app, fmap_cons, <- !(assoc_L app). simpl. rewrite (assoc_L app (finished_ids calls)).
      rewrite (assoc_L app (finished_ids calls) (challengeId <$> ps)).
      apply submseteq_cons_middle. do 2 apply submseteq_skips_l. by apply sublist_submseteq. }
    split.
    + intros j Hj. apply Hsub. by eapply elem_of_submseteq.
    + by eapply submseteq_NoDup.
  - destruct (require_session m tok t) as [m' r] eqn:Hc. simpl. apply Hshrink. by eapply require_inv.
  - apply Hshrink, logout_inv.
Qed.

(** While the random challenge identifiers of a run are distinct, no challenge is
    verified twice: the suspended and the finished [verify] calls are all for different
    challenges, and asking again for one of theirs is refused as a replay; and the
    tables never outgrow their capacities. *)
Theorem challenge_single_use l lim m0 calls m ps :
  new_manager l lim = Some m0 -> run m0 calls m ps -> NoDup (issued_ids calls) ->
  NoDup (finished_ids calls ++ (challengeId <$> ps)) /\
  (forall id now, id ∈ finished_ids calls ++ (challengeId <$> ps) -> start_verify m id now = (m, Throw replay)) /\
  map_size (challenges m) <= challengeCapacity m0 /\ map_size (sessions m) <= sessionCapacity m0.
Proof.
  intros H0 Hr Hnd. pose proof (run_is_ok _ _ _ _ _ _ H0 Hr) as Hok.
  assert (places calls m ps ⊆ issued_ids calls /\ NoDup (places calls m ps)) as [_ Hpl].
  { clear Hok. induction Hr as [|calls m ps x m' ps' Hr IH Hs].
    - unfold places. simpl. unfold new_manager, positiveInteger in H0. repeat (case_match; simplify_eq/=).
      split; [by intros j Hj|constructor].
    - assert (NoDup (issued_ids calls)) as Hnd' by (destruct x; [by apply NoDup_cons in Hnd as [_ Hnd]|exact Hnd..]).
      destruct (IH Hnd'). eapply places_step; [by eapply run_is_ok|done..]. }
  unfold places in Hpl. rewrite (assoc_L app) in Hpl. apply NoDup_app in Hpl as (Hn & Hd & _).
  split; [done|]. split; [|by destruct Hok].
  intros id now Hid%Hd. unfold start_verify. by rewrite (proj2 (map_get_None _ _) Hid).
Qed.
End Sessions.

(** ** A concrete run *)

Module Sample.
Definition who : Identity :=
  mkIdentity "urn:evllm:actor:a" "urn:evllm:org:o" "urn:evllm:credential:c"
    "0x00112233445566778899aabbccddeeff00112233".
Definition no_limits : WalletSessionLimits := mkLimits None None None.
Definition m0 : WalletSessionManager := mkManager [] [] 300 1024 1024 900.
Definition answers : Answers := mkAnswers true true 150 151 "tok" "s1".

Definition run_calls : list Call :=
  [call_finish (mkChallenge who "c1" (challenge_message who "c1" "n" 400) 400) answers;
   call_start "c1" 120; call_challenge who "c1" "n" 100].

Definition m3 : WalletSessionManager :=
  mkManager [] [("tok"%string, session_of m0 (mkChallenge who "c1" "" 400) answers)] 300 1024 1024 900.

Lemma sample_run : run (fun s => s) m0 run_calls m3 [].
Proof.
  eapply run_cons; [eapply run_cons; [eapply run_cons; [constructor|]|]|].
  - apply step_challenge.
  - apply step_start.
  - refine (eq_rect _ (fun m => step _ _ _ _ m _) (step_finish _ _ [] [] _ answers) _ _). vm_compute. reflexivity.
Qed.

Lemma session_authentic_witness :
  new_manager 900 no_limits = Some m0 /\ run (fun s => s) m0 run_calls m3 [] /\
  exists s, (require_session (fun s => s) m3 "tok" 200).2 = Ok s /\ earned (fun s => s) m0 run_calls "tok" s.
Proof.
  split; [reflexivity|]. split; [exact sample_run|].
  pose proof (session_authentic (fun s => s) 900 no_limits m0 run_calls m3 [] "tok" 200 eq_refl sample_run) as H.
  eexists. split; [reflexivity|]. exact (proj1 H).
Defined.

Lemma challenge_single_use_witness :
  NoDup (issued_ids run_calls) /\ start_verify m3 "c1" 160 = (m3, Throw replay).
Proof.
  assert (NoDup (issued_ids run_calls)) as Hn by apply NoDup_singleton.
  split; [exact Hn|].
  apply (proj1 (proj2 (challenge_single_use (fun s => s) 900 no_limits m0 run_calls m3 [] eq_refl sample_run Hn))).
  left.
Defined.
End Sample.
