(* ===== verification/AuditLedger.v ===== *)
(** * The audit ledger of the assistant

    [src/src/assistant/audit.ts]: [AssistantAuditLedger] appends events in a hash chain,
    [verifyAssistantAuditEvents] checks a chain. SHA-256 over canonical JSON is the
    parameter [hash_event], SHA-256 of a text is [hash_text], the random event
    identifier is an argument of [append]; records are frozen or cloned, so values. *)

From S2P Require Import Prelude Digits Session.

Inductive AssistantToolName := facts | tool_history | tool_rules | tool_assessment | tool_audit | protected_search.
Inductive AssistantQueryMode := explain_records | explain_recorded_decision.
Inductive AssistantOutcome := outcome_answer | outcome_abstain | requires_external_decision.
Inductive AssistantDecisionSource := typed_record | deterministic_control | model_candidate | validation_fallback.

Record RecordedDecision := mkRecordedDecision {
  rd_outcome : AssistantOutcome;
  rd_code : string;
  rd_reason_codes : list string
}.

Record AssistantRecordedDecisionAuditReference := mkAuditReference {
  ref_support_id : string;
  ref_resource_id : string;
  ref_resource_version : Z;
  ref_commitment : string;
  ref_recorded_decision : RecordedDecision
}.

(** The event without its hash. *)
Record UnsignedAuditEvent := mkUnsignedEvent {
  event_id : string;
  sequence : Z;
  request_id : string;
  correlation_id : string;
  ae_actor_id : string;
  ae_organization_id : string;
  ae_session_id : string;
  purpose_id : string;
  query_mode : AssistantQueryMode;
  question_digest : string;
  tool_names : list AssistantToolName;
  support_ids : list string;
  outcome : AssistantOutcome;
  decision_code : option string;
  decision_source : AssistantDecisionSource;
  recorded_decision_support_ids : list string;
  recorded_decision_support_references : list AssistantRecordedDecisionAuditReference;
  model : string;
  provider : string;
  validation_codes : list string;
  recorded_at : Z;
  previous_event_hash : option string
}.

Record AssistantAuditEvent := mkEvent { unsigned : UnsignedAuditEvent; event_hash : string }.

Record AuditInput := mkAuditInput {
  in_requestId : string;
  in_correlationId : string;
  in_session : ActorSession;
  in_purposeId : string;
  in_queryMode : AssistantQueryMode;
  in_question : string;
  in_toolNames : list AssistantToolName;
  in_supportIds : list string;
  in_model : string * string;
  in_outcome : AssistantOutcome;
  in_decisionCode : option string;
  in_decisionSource : AssistantDecisionSource;
  in_references : list AssistantRecordedDecisionAuditReference;
  in_validationCodes : list string;
  in_recordedAt : Z
}.

Definition AssistantAuditLedger := list AssistantAuditEvent.

(** [reason_codes] sorted, the rest copied *)
Definition copy_reference (r : AssistantRecordedDecisionAuditReference) : AssistantRecordedDecisionAuditReference :=
  mkAuditReference (ref_support_id r) (ref_resource_id r) (ref_resource_version r) (ref_commitment r)
    (mkRecordedDecision (rd_outcome (ref_recorded_decision r)) (rd_code (ref_recorded_decision r))
       (sort_strings (rd_reason_codes (ref_recorded_decision r)))).

Section Audit.
Context (hash_event : UnsignedAuditEvent -> string) (hash_text : string -> string) `{HL : LocaleCompare}.

(** [localeCompare] of the joined fields *)
Definition reference_key (r : AssistantRecordedDecisionAuditReference) : string :=
  join NUL [ref_support_id r; ref_resource_id r; number_to_string (ref_resource_version r); ref_commitment r].

Definition decision_references (l : list AssistantRecordedDecisionAuditReference) :
    list AssistantRecordedDecisionAuditReference :=
  js_sort (fun x y => localeCompare (reference_key x) (reference_key y)) (copy_reference <$> l).

Definition audit_event (events : AssistantAuditLedger) (input : AuditInput) (uuid : string) : AssistantAuditEvent :=
  let refs := decision_references (in_references input) in
  let u := mkUnsignedEvent ("urn:evllm:event:" +:+ uuid)%string (Z.of_nat (length events) + 1)
    (in_requestId input) (in_correlationId input) (actorId (s_identity (in_session input)))
    (organizationId (s_identity (in_session input))) (sessionId (in_session input)) (in_purposeId input)
    (in_queryMode input) (hash_text (in_question input)) (in_toolNames input)
    (sort_strings (in_supportIds input)) (in_outcome input) (in_decisionCode input) (in_decisionSource input)
    (ref_support_id <$> refs) refs (in_model input).1 (in_model input).2 (in_validationCodes input)
    (in_recordedAt input) (event_hash <$> last events) in
  mkEvent u (hash_event u).

Definition append (events : AssistantAuditLedger) (input : AuditInput) (uuid : string) :
    AssistantAuditLedger * AssistantAuditEvent :=
  let event := audit_event events input uuid in (events ++ [event], event).

Definition forRequest (events : AssistantAuditLedger) (requestId : string) (session : ActorSession) :
    list AssistantAuditEvent :=
  filter (fun e => request_id (unsigned e) = requestId /\
                   ae_actor_id (unsigned e) = actorId (s_identity session) /\
                   ae_organization_id (unsigned e) = organizationId (s_identity session)) events.

(** The events from [index] on, after an event with hash [previous]. *)
Fixpoint verify_from (index : Z) (previous : option string) (events : list AssistantAuditEvent) : bool :=
  match events with
  | [] => true
  | e :: events =>
      (sequence (unsigned e) =? index + 1) && bool_decide (previous_event_hash (unsigned e) = previous) &&
      String.eqb (event_hash e) (hash_event (unsigned e)) &&
      verify_from (index + 1) (Some (event_hash e)) events
  end.

Definition verifyAssistantAuditEvents (events : list AssistantAuditEvent) : bool := verify_from 0 None events.

(** Any number of appends to a new ledger. *)
Definition appended (inputs : list (AuditInput * string)) : AssistantAuditLedger :=
  fold_left (fun events p => (append events p.1 p.2).1) inputs [].

Lemma verify_from_app i prev l e :
  verify_from i prev (l ++ [e]) =
    verify_from i prev l && (sequence (unsigned e) =? i + Z.of_nat (length l) + 1) &&
    bool_decide (previous_event_hash (unsigned e) =
                 match last l with Some d => Some (event_hash d) | None => prev end) &&
    String.eqb (event_hash e) (hash_event (unsigned e)).
Proof.
  revert i prev. induction l as [|d l IH]; intros i prev; cbn [app verify_from].
  - simpl. rewrite Z.add_0_r, andb_true_r. done.
  - rewrite IH, last_cons. cbn [length]. replace (i + Z.of_nat (S (length l)) + 1) with (i + 1 + Z.of_nat (length l) + 1) by lia.
    rewrite !andb_assoc. by destruct (last l).
Qed.

Lemma append_verifies events input uuid :
  verifyAssistantAuditEvents events = true -> verifyAssistantAuditEvents (append events input uuid).1 = true.
Proof.
  unfold verifyAssistantAuditEvents, append. intros H. cbn [fst]. rewrite verify_from_app, H. cbn.
  rewrite Z.eqb_refl, String.eqb_refl, andb_true_r. apply bool_decide_eq_true. by destruct (last events).
Qed.

Lemma appended_snoc inputs p : appended (inputs ++ [p]) = (append (appended inputs) p.1 p.2).1.
Proof. unfold appended. by rewrite fold_left_app. Qed.

Lemma appended_verifies inputs : verifyAssistantAuditEvents (appended inputs) = true.
Proof.
  induction inputs as [|p inputs IH] using rev_ind; [done|]. rewrite appended_snoc. by apply append_verifies.
Qed.

#[local] Instance tool_eq_dec : EqDecision AssistantToolName.
Proof. solve_decision. Defined.
#[local] Instance mode_eq_dec : EqDecision AssistantQueryMode.
Proof. solve_decision. Defined.
#[local] Instance outcome_eq_dec : EqDecision AssistantOutcome.
Proof. solve_decision. Defined.
#[local] Instance source_eq_dec : EqDecision AssistantDecisionSource.
Proof. solve_decision. Defined.
#[local] Instance decision_eq_dec : EqDecision RecordedDecision.
Proof. solve_decision. Defined.
#[local] Instance reference_eq_dec : EqDecision AssistantRecordedDecisionAuditReference.
Proof. solve_decision. Defined.
#[local] Instance unsigned_eq_dec : EqDecision UnsignedAuditEvent.
Proof. solve_decision. Defined.

(** Two events at one place, counted from the end of two chains, that differ and have one
    hash. *)
Definition collide_at (l l' : list AssistantAuditEvent) : Prop :=
  exists k e e', reverse l !! k = Some e /\ reverse l' !! k = Some e' /\
    unsigned e <> unsigned e' /\ hash_event (unsigned e) = hash_event (unsigned e').

Lemma collide_at_snoc l l' e e' : collide_at l l' -> collide_at (l ++ [e]) (l' ++ [e']).
Proof. intros (k & x & x' & Hx & Hx' & Hne). exists (S k), x, x'. by rewrite !reverse_snoc. Qed.

(** Two chains that end in the same hash are the same chain, or two of their events collide. *)
Lemma chains_equal l l' :
  verifyAssistantAuditEvents l = true -> verifyAssistantAuditEvents l' = true ->
  event_hash <$> last l = event_hash <$> last l' -> l = l' \/ collide_at l l'.
Proof.
  unfold verifyAssistantAuditEvents. revert l'.
  induction l as [|e l IH] using rev_ind; intros l'; destruct l' as [|e' l' _] using rev_ind;
    rewrite ?last_snoc; try done; [by left|].
  rewrite !verify_from_app, !andb_true_iff, !bool_decide_eq_true, !String.eqb_eq.
  intros [[[Hv _] Hprev] He] [[[Hv' _] Hprev'] He'] [= Hl].
  destruct (decide (unsigned e = unsigned e')) as [Hu|Hu].
  - assert (e = e') as -> by (destruct e, e'; simpl in *; congruence). destruct (IH l') as [->|Hc]; [done|done| |by left|].
    + rewrite Hprev in Hprev'. destruct (last l) as [d|], (last l') as [d'|]; simpl; congruence.
    + right. by apply collide_at_snoc.
  - right. exists 0%nat, e, e'. rewrite !reverse_snoc. split_and!; try done. congruence.
Qed.

Lemma appended_sequence inputs i e :
  appended inputs !! i = Some e -> sequence (unsigned e) = Z.of_nat i + 1.
Proof.
  revert i. induction inputs as [|p inputs IH] using rev_ind; intros i; [done|].
  rewrite appended_snoc. unfold append. cbn [fst]. intros [H|[Hi H]]%lookup_app_Some; [by apply IH|].
  apply list_lookup_singleton_Some in H as [Hi' <-]. simpl. lia.
Qed.

(** C36. The audit ledger is an unbroken and tamper-evident chain: after any appends it
    holds one event per append, numbered 1, 2, ..., and verifies; an appended event only
    extends it; and any list of events that verifies and ends in the ledger's last hash is
    the ledger itself, unless an event of that list and the event of the ledger in its place
    differ and have the same hash. *)
Theorem audit_chain inputs more events :
  verifyAssistantAuditEvents (appended inputs) = true /\
  length (appended inputs) = length inputs /\
  (forall i e, appended inputs !! i = Some e -> sequence (unsigned e) = Z.of_nat i + 1) /\
  appended inputs `prefix_of` appended (inputs ++ more) /\
  (verifyAssistantAuditEvents events = true ->
   event_hash <$> last events = event_hash <$> last (appended inputs) ->
   events = appended inputs \/
   exists k e e', reverse events !! k = Some e /\ reverse (appended inputs) !! k = Some e' /\
     unsigned e <> unsigned e' /\ hash_event (unsigned e) = hash_event (unsigned e')).
Proof.
  split; [apply appended_verifies|]. split; [|split; [apply appended_sequence|split]].
  - induction inputs as [|p inputs IH] using rev_ind; [done|].
    rewrite appended_snoc, length_app. unfold append. cbn [fst]. rewrite length_app. simpl. lia.
  - induction more as [|p more IH] using rev_ind; [by rewrite app_nil_r|].
    rewrite (assoc_L app), appended_snoc. etrans; [exact IH|]. by apply prefix_app_r.
  - intros Hv Hl. exact (chains_equal _ _ Hv (appended_verifies _) Hl).
Qed.
End Audit.

(** ** A concrete ledger *)

Module Sample.
#[local] Existing Instance code_unit_locale.

Definition input : AuditInput :=
  mkAuditInput "r" "c" (mkSession "s" Session.Sample.who 1 2) "p" explain_records "q" [facts] ["x"] ("m"%string, "v"%string)
    outcome_answer None typed_record [] [] 7.

(** A stand-in for the hash *)
Definition sample_hash (u : UnsignedAuditEvent) : string :=
  (number_to_string (sequence u) +:+ ":" +:+ request_id u +:+ ":" +:+ event_id u)%string.

Definition sample_inputs : list (AuditInput * string) := [(input, "1"%string); (input, "2"%string)].

Lemma audit_chain_witness :
  verifyAssistantAuditEvents sample_hash (appended sample_hash (fun s => s) sample_inputs) = true /\
  length (appended sample_hash (fun s => s) sample_inputs) = 2%nat.
Proof.
  destruct (audit_chain sample_hash (fun s => s) sample_inputs [] []) as (Hv & Hl & _). split; [exact Hv|exact Hl].
Defined.
End Sample.
