(* ===== verification/Storage.v ===== *)
(** * Protected object storage

    [src/src/protected-bundles/storage] (the store interface, the in-memory store) and
    [src/src/protected-bundles/repository/object-operations.ts]
    ([ProtectedObjectCoordinator]).

    The coordinator is written against the interface [OpaqueObjectStore], so its
    methods are programs ([prog]) over the store's operations. A program is read in two
    ways: [may] lets every operation answer anything, as a remote or concurrently
    changed store can; [exec] runs it on the in-memory store. SHA-256 is the parameter
    [sha256]. [withLock] is the state machine of the module [Lock]; [withTimeout] adds
    the outcome [timeout] ([timed]). FileStore.v has the file store; the S3 store, a client of
    an SDK, is not modelled. *)

From S2P Require Import Prelude Regex Digits Base64 Schemas.

Definition bytes := list Byte.byte.

Inductive ObjectStoreErrorCode := aborted | invalid_object_id | object_too_large | store_unavailable.

Inductive PutStatus := created | exists_.
Record PutIfAbsentResult := mkPut { put_length : Z; put_status : PutStatus }.

Definition byteLength (b : bytes) : Z := Z.of_nat (length b).

(** ** The in-memory store *)

Module Memory.

(** [#objects] of the backend *)
Definition Objects := list (string * bytes).

Definition opaqueObjectId : string -> bool := base64Url32.

Definition validateObjectId (value : string) : result ObjectStoreErrorCode string :=
  _ ← require (opaqueObjectId value) invalid_object_id; Ok value.

(** [parsed.slice(parsed.lastIndexOf(":") + 1)] *)
Fixpoint after_last (c : ascii) (l : list ascii) : list ascii :=
  match l with
  | [] => []
  | a :: l => if includes c l then after_last c l else if decide (a = c) then l else a :: l
  end.

(** [None]: not an organization identifier. *)
Definition namespaceKey (organizationId : string) : option string :=
  if urn "org" organizationId
  then Some (string_of_list_ascii (after_last ":"%char (list_ascii_of_string organizationId)))
  else None.

Record MemoryObjectStore := mkStore { namespace : string; prefix : string; maxObjectBytes : Z }.

(** [forOrganization] and the constructor *)
Definition forOrganization (organizationId : string) (maximum : Z) : option MemoryObjectStore :=
  k ← namespaceKey organizationId; Some (mkStore organizationId (k +:+ ":")%string maximum).

Definition key (s : MemoryObjectStore) (objectId : string) : result ObjectStoreErrorCode string :=
  o ← validateObjectId objectId; Ok (prefix s +:+ o)%string.

Definition delete (s : MemoryObjectStore) (objects : Objects) (objectId : string) :
    result ObjectStoreErrorCode (Objects * bool) :=
  k ← key s objectId; Ok (map_delete k objects, map_has k objects).

(** [get], read to its end. *)
Definition get (s : MemoryObjectStore) (objects : Objects) (objectId : string) (abort : bool) :
    result ObjectStoreErrorCode (list bytes) :=
  _ ← require (negb abort) aborted;
  k ← key s objectId;
  Ok (match map_get k objects with Some v => [v] | None => [] end).

Definition head (s : MemoryObjectStore) (objects : Objects) (objectId : string) :
    result ObjectStoreErrorCode (option Z) :=
  k ← key s objectId; Ok (byteLength <$> map_get k objects).

(** A chunk of the source, and whether the signal is aborted when it arrives. *)
Definition chunk := (bytes * bool)%type.

Fixpoint collect_from (maximum total : Z) (acc : bytes) (source : list chunk) :
    result ObjectStoreErrorCode bytes :=
  match source with
  | [] => Ok acc
  | (c, abort) :: source =>
      _ ← require (negb abort) aborted;
      let total := total + byteLength c in
      _ ← require (negb (maximum <? total)) object_too_large;
      collect_from maximum total (acc ++ c) source
  end.

Definition collect (source : list chunk) (maximum : Z) : result ObjectStoreErrorCode bytes :=
  collect_from maximum 0 [] source.

(** [putIfAbsent] awaits its source, so it is two steps: an answer at once, or the
    value collected for the second step. *)
Definition start_put (s : MemoryObjectStore) (objects : Objects) (objectId : string) (source : list chunk) :
    result ObjectStoreErrorCode (PutIfAbsentResult + string * bytes) :=
  k ← key s objectId;
  match map_get k objects with
  | Some existing => Ok (inl (mkPut (byteLength existing) exists_))
  | None => v ← collect source (maxObjectBytes s); Ok (inr (k, v))
  end.

Definition finish_put (objects : Objects) (k : string) (v : bytes) : Objects * PutIfAbsentResult :=
  match map_get k objects with
  | Some winner => (objects, mkPut (byteLength winner) exists_)
  | None => (map_set k v objects, mkPut (byteLength v) created)
  end.

Definition putIfAbsent (s : MemoryObjectStore) (objects : Objects) (objectId : string) (source : list chunk) :
    result ObjectStoreErrorCode (Objects * PutIfAbsentResult) :=
  p ← start_put s objects objectId source;
  Ok (match p with inl r => (objects, r) | inr (k, v) => finish_put objects k v end).

Lemma collect_from_Ok maximum source acc total v :
  collect_from maximum total acc source = Ok v ->
  v = acc ++ (source ≫= fst) /\ Forall (fun c => c.2 = false) source.
Proof.
  revert acc total. induction source as [|[c a] source IH]; simpl; intros acc total H; inv_result.
  - by rewrite app_nil_r.
  - apply IH in H as [-> Hf]. rewrite <- app_assoc. split; [done|]. by constructor.
Qed.

(** Every step on the shared map: the second step of a put, or a delete. *)
Inductive change (objects : Objects) : Objects -> Prop :=
| change_put k v : change objects (finish_put objects k v).1
| change_delete s i objects' b : delete s objects i = Ok (objects', b) -> change objects objects'.

Lemma after_last_no_sep c l : c ∉ after_last c l.
Proof.
  induction l as [|a l IH]; simpl; [apply not_elem_of_nil|].
  destruct (includes c l) eqn:Hi; [done|]. apply includes_false in Hi.
  case_decide; [done|]. apply not_elem_of_cons. naive_solver.
Qed.

Lemma object_id_no_colon i : opaqueObjectId i = true -> ":"%char ∉ list_ascii_of_string i.
Proof.
  unfold opaqueObjectId, base64Url32. intros [H _]%andb_true_iff.
  rewrite rtest_spec, base64Url32_re_eq, rmatch_times in H. destruct H as [_ H]. rewrite Forall_forall in H.
  intros Hin. specialize (H _ Hin). by vm_compute in H.
Qed.

Lemma store_key_Ok s i k : key s i = Ok k <-> opaqueObjectId i = true /\ k = (prefix s +:+ i)%string.
Proof.
  unfold key, validateObjectId. destruct (opaqueObjectId i); simpl; split; [by intros [= <-]|by intros [_ ->]|done|by intros [? _]].
Qed.

(** Keys of stores with different prefixes, or of different objects, differ. *)
Lemma key_inj o o' m m' s t i j k :
  forOrganization o m = Some s -> forOrganization o' m' = Some t ->
  key s i = Ok k -> key t j = Ok k -> namespaceKey o = namespaceKey o' /\ i = j.
Proof.
  unfold forOrganization. destruct (namespaceKey o) as [n|]; [|done]. destruct (namespaceKey o') as [n'|]; [|done].
  intros [= <-] [= <-] [Hi ->]%store_key_Ok [Hj H]%store_key_Ok. simpl in H.
  apply (f_equal list_ascii_of_string) in H. rewrite !list_ascii_of_string_app, <- !(assoc_L app) in H.
  simpl in H. apply last_separator_inj in H as [Hn H]; [|by apply object_id_no_colon..].
  apply list_ascii_of_string_inj in Hn, H. by subst.
Qed.
End Memory.

#[global] Arguments Memory.key : simpl never.

(** ** The coordinator *)

Record ExpectedObject := mkExpected { ex_digest : string; ex_length : Z }.
Record PromotionInput := mkPromotion {
  expected : ExpectedObject;
  destinationObjectId : string;
  sourceObjectId : string
}.
Inductive PromotionStatus := promoted_created | promoted_recovered.
Record PromotionResult := mkPromotionResult { result_object : ExpectedObject; promotion_status : PromotionStatus }.

(** [RepositoryStorageError] codes, and an error of the store let through *)
Inductive RepositoryError := conflict | integrity_mismatch | timeout | unavailable | store_error (e : ObjectStoreErrorCode).

Inductive FetchSource := from_primary | from_replica.

Section Coordinator.
Context {Store : Type} (sha256 : bytes -> string).

(** What the coordinator asks of the outside. A [Get] answers the chunks delivered and
    how the stream ended. *)
Inductive op : Type -> Type :=
| Head (s : Store) (id : string) : op (option Z)
| Get (s : Store) (id : string) : op (list bytes * option ObjectStoreErrorCode)%type
| Put (s : Store) (id : string) (source : list bytes) : op PutIfAbsentResult
| Delete (s : Store) (id : string) : op bool
| HasFinalizedManifest : op bool.

Inductive prog (A : Type) : Type :=
| Ret (a : A)
| Fail (e : RepositoryError)
| Do {X : Type} (o : op X) (k : result ObjectStoreErrorCode X -> prog A).
#[local] Arguments Ret {A} a.
#[local] Arguments Fail {A} e.
#[local] Arguments Do {A X} o k.

Fixpoint prog_bind {A B} (p : prog A) (f : A -> prog B) : prog B :=
  match p with
  | Ret a => f a
  | Fail e => Fail e
  | Do o k => Do o (fun r => prog_bind (k r) f)
  end.

(** [try { p } catch (e) { h(e) }] *)
Fixpoint try_catch {A} (p : prog A) (h : RepositoryError -> prog A) : prog A :=
  match p with
  | Ret a => Ret a
  | Fail e => h e
  | Do o k => Do o (fun r => try_catch (k r) h)
  end.

#[local] Notation "x <- p ;; q" := (prog_bind p (fun x => q)) (at level 100, p at next level, right associativity).

Definition call {X} (o : op X) : prog X :=
  Do o (fun r => match r with Ok x => Ret x | Throw e => Fail (store_error e) end).

(** The [for await] loop of [readVerified]. *)
Fixpoint read_chunks (limit total : Z) (acc : bytes) (chunks : list bytes) : result RepositoryError bytes :=
  match chunks with
  | [] => Ok acc
  | c :: chunks =>
      let total := total + byteLength c in
      if limit <? total then Throw integrity_mismatch else read_chunks limit total (acc ++ c) chunks
  end.

Definition readVerified (s : Store) (id : string) (e : ExpectedObject) : prog bytes :=
  h <- call (Head s id);;
  match h with
  | None => Fail unavailable
  | Some n =>
      if negb (n =? ex_length e) then Fail integrity_mismatch
      else
        answer <- call (Get s id);;
        match read_chunks (ex_length e) 0 [] answer.1 with
        | Throw err => Fail err
        | Ok b =>
            match answer.2 with
            | Some err => Fail (store_error err)
            | None =>
                if negb (byteLength b =? ex_length e) || negb (String.eqb (sha256 b) (ex_digest e))
                then Fail integrity_mismatch else Ret b
            end
        end
  end.

(** [catch (error) { if (result.status === "exists") throw conflict; throw error; }] *)
Definition conflict_if_exists (r : PutIfAbsentResult) (err : RepositoryError) : RepositoryError :=
  match put_status r with exists_ => conflict | created => err end.

Definition status_of (r : PutIfAbsentResult) : PromotionStatus :=
  match put_status r with created => promoted_created | exists_ => promoted_recovered end.

(** The locked body of [promoteStagedObject]. *)
Definition promote (s : Store) (input : PromotionInput) : prog PromotionResult :=
  h <- call (Head s (destinationObjectId input));;
  match h with
  | Some _ =>
      try_catch
        (_ <- readVerified s (destinationObjectId input) (expected input);;
         Ret (mkPromotionResult (expected input) promoted_recovered))
        (fun _ => Fail conflict)
  | None =>
      b <- readVerified s (sourceObjectId input) (expected input);;
      r <- call (Put s (destinationObjectId input) [b]);;
      _ <- try_catch (readVerified s (destinationObjectId input) (expected input))
             (fun err => Fail (conflict_if_exists r err));;
      Ret (mkPromotionResult (expected input) (status_of r))
  end.

(** The locked body of [cleanStaging]. *)
Definition clean (s : Store) (input : PromotionInput) : prog unit :=
  finalized <- call HasFinalizedManifest;;
  _ <- call (Delete s (sourceObjectId input));;
  if negb finalized then _ <- call (Delete s (destinationObjectId input));; Ret tt else Ret tt.

Definition replicate (source : Store) (sourceId : string) (replica : Store) (replicaId : string)
    (e : ExpectedObject) : prog PromotionResult :=
  b <- readVerified source sourceId e;;
  r <- call (Put replica replicaId [b]);;
  _ <- try_catch (readVerified replica replicaId e) (fun err => Fail (conflict_if_exists r err));;
  Ret (mkPromotionResult e (status_of r)).

Record FailoverInput := mkFailover {
  fail_expected : ExpectedObject;
  critical : bool;
  primary : Store * string;
  replica : option (Store * string)
}.

Definition fetch (input : FailoverInput) : prog (bytes * FetchSource) :=
  try_catch
    (b <- readVerified (primary input).1 (primary input).2 (fail_expected input);; Ret (b, from_primary))
    (fun _ =>
       match (if negb (critical input) then None else replica input) with
       | None => Fail unavailable
       | Some (s, id) =>
           try_catch (b <- readVerified s id (fail_expected input);; Ret (b, from_replica))
             (fun _ => Fail unavailable)
       end).

(** What the caller of [withTimeout] sees: the operation's outcome or, if the timer
    fired first, [timeout]; the operation itself is not stopped. *)
Definition timed {A} (fired : bool) (outcome : result RepositoryError A) : result RepositoryError A :=
  if fired then Throw timeout else outcome.

(** ** Any answers *)

Fixpoint may {A} (p : prog A) (r : result RepositoryError A) : Prop :=
  match p with
  | Ret a => r = Ok a
  | Fail e => r = Throw e
  | Do o k => exists answer, may (k answer) r
  end.

Lemma may_bind {A B} (p : prog A) (f : A -> prog B) r :
  may (prog_bind p f) r <->
  (exists a, may p (Ok a) /\ may (f a) r) \/ (exists e, may p (Throw e) /\ r = Throw e).
Proof.
  induction p as [a|e|X o k IH]; simpl.
  - split; [intros H; left; by exists a|]. intros [(a' & [= <-] & H)|(e & [=] & _)]. done.
  - split; [intros ->; right; by exists e|]. intros [(a' & [=] & _)|(e' & [= <-] & ->)]. done.
  - setoid_rewrite IH. naive_solver.
Qed.

Lemma may_try {A} (p : prog A) h r :
  may (try_catch p h) r <->
  (exists a, may p (Ok a) /\ r = Ok a) \/ (exists e, may p (Throw e) /\ may (h e) r).
Proof.
  induction p as [a|e|X o k IH]; simpl.
  - split; [intros ->; left; by exists a|]. intros [(a' & [= <-] & ->)|(e & [=] & _)]. done.
  - split; [intros H; right; by exists e|]. intros [(a' & [=] & _)|(e' & [= <-] & H)]. done.
  - setoid_rewrite IH. naive_solver.
Qed.

Definition matches (e : ExpectedObject) (b : bytes) : Prop := byteLength b = ex_length e /\ sha256 b = ex_digest e.

Lemma may_readVerified s id e b : may (readVerified s id e) (Ok b) -> matches e b.
Proof.
  unfold readVerified. rewrite may_bind. intros [(h & _ & H)|(err & _ & [=])].
  destruct h as [n|]; [|done]. destruct (n =? ex_length e); [|done]. simpl in H.
  destruct H as ([[chunks end_]|err] & H); simpl in H; [|done].
  destruct (read_chunks (ex_length e) 0 [] chunks) as [b'|]; [|done]. destruct end_; [done|].
  destruct (Z.eqb_spec (byteLength b') (ex_length e)); [|done].
  destruct (String.eqb_spec (sha256 b') (ex_digest e)); [|done]. simpl in H. by simplify_eq.
Qed.

(** ** Programs on the in-memory store *)

Context (store_of : Store -> Memory.MemoryObjectStore) (finalized : bool).

Definition answer (w : Memory.Objects) {X} (o : op X) : Memory.Objects * result ObjectStoreErrorCode X :=
  match o with
  | Head s id => (w, Memory.head (store_of s) w id)
  | Get s id => (w, (fun l => (l, None)) <$> Memory.get (store_of s) w id false)
  | Put s id source =>
      match Memory.putIfAbsent (store_of s) w id ((fun c => (c, false)) <$> source) with
      | Ok (w', r) => (w', Ok r)
      | Throw e => (w, Throw e)
      end
  | Delete s id =>
      match Memory.delete (store_of s) w id with
      | Ok (w', b) => (w', Ok b)
      | Throw e => (w, Throw e)
      end
  | HasFinalizedManifest => (w, Ok finalized)
  end.

(** Alone. *)
Fixpoint exec {A} (w : Memory.Objects) (p : prog A) : Memory.Objects * result RepositoryError A :=
  match p with
  | Ret a => (w, Ok a)
  | Fail e => (w, Throw e)
  | Do o k => let '(w', r) := answer w o in exec w' (k r)
  end.

(** Among other clients of the store, whose puts and deletes come between the
    operations. *)
Fixpoint runs {A} (w : Memory.Objects) (p : prog A) (w' : Memory.Objects) (r : result RepositoryError A) : Prop :=
  match p with
  | Ret a => w' = w /\ r = Ok a
  | Fail e => w' = w /\ r = Throw e
  | Do o k => exists w1, rtc Memory.change w w1 /\ let '(w2, a) := answer w1 o in runs w2 (k a) w' r
  end.

Lemma runs_bind {A B} (p : prog A) (f : A -> prog B) w w' r :
  runs w (prog_bind p f) w' r <->
  (exists a w1, runs w p w1 (Ok a) /\ runs w1 (f a) w' r) \/ (exists e, runs w p w' (Throw e) /\ r = Throw e).
Proof.
  revert w. induction p as [a|e|X o k IH]; intros w; simpl.
  - split; [intros H; left; by exists a, w|]. intros [(a' & w1 & [-> [= <-]] & Hr)|(e & [_ [=]] & _)]. done.
  - split; [intros [-> ->]; right; by exists e|]. intros [(a' & w1 & [_ [=]] & _)|(e' & [-> [= <-]] & ->)]. done.
  - split.
    + intros (w1 & Hw & H). destruct (answer w1 o) as [w2 x] eqn:Ha. apply IH in H.
      destruct H as [(a & w3 & Hp & H')|(e & Hp & ->)]; [left; exists a, w3|right; exists e]; (split; [|done]); exists w1; by rewrite Ha.
    + intros [(a & w3 & (w1 & Hw & Hp) & H')|(e & (w1 & Hw & Hp) & ->)]; exists w1; (split; [done|]);
        destruct (answer w1 o) as [w2 x] eqn:Ha; apply IH; eauto.
Qed.

Lemma runs_try {A} (p : prog A) h w w' r :
  runs w (try_catch p h) w' r <->
  (exists a, runs w p w' (Ok a) /\ r = Ok a) \/ (exists e w1, runs w p w1 (Throw e) /\ runs w1 (h e) w' r).
Proof.
  revert w. induction p as [a|e|X o k IH]; intros w; simpl.
  - split; [intros [-> ->]; left; by exists a|]. intros [(a' & [-> [= <-]] & ->)|(e & w1 & [_ [=]] & _)]. done.
  - split; [intros H; right; by exists e, w|]. intros [(a' & [_ [=]] & _)|(e' & w1 & [-> [= <-]] & Hr)]. done.
  - split.
    + intros (w1 & Hw & H). destruct (answer w1 o) as [w2 x] eqn:Ha. apply IH in H.
      destruct H as [(a & Hp & ->)|(e & w3 & Hp & H')]; [left; exists a|right; exists e, w3]; (split; [|done]); exists w1; by rewrite Ha.
    + intros [(a & (w1 & Hw & Hp) & ->)|(e & w3 & (w1 & Hw & Hp) & H')]; exists w1; (split; [done|]);
        destruct (answer w1 o) as [w2 x] eqn:Ha; apply IH; eauto.
Qed.

(** A run alone is one of the runs among others. *)
Lemma exec_runs {A} (p : prog A) w : runs w p (exec w p).1 (exec w p).2.
Proof.
  revert w. induction p as [a|e|X o k IH]; intros w; simpl; [done|done|].
  exists w. split; [done|]. destruct (answer w o) as [w' x]. apply IH.
Qed.

Lemma runs_may {A} (p : prog A) w w' r : runs w p w' r -> may p r.
Proof.
  revert w. induction p as [a|e|X o k IH]; intros w; simpl; [by intros [_ ->]|by intros [_ ->]|].
  intros (w1 & _ & H). destruct (answer w1 o) as [w2 x]. exists x. by eapply IH.
Qed.

Lemma read_chunks_single limit b b' : read_chunks limit 0 [] [b] = Ok b' -> b' = b.
Proof. simpl. case_match; [done|]. by intros [= <-]. Qed.

(** [readVerified] that succeeds leaves the store holding the bytes it returns. *)
Lemma runs_readVerified s id e w w' b :
  0 <= ex_length e -> runs w (readVerified s id e) w' (Ok b) ->
  matches e b /\ exists k, Memory.key (store_of s) id = Ok k /\ (map_get k w' = Some b \/ (b = [] /\ map_get k w' = None)).
Proof.
  intros Hlen H. split; [by eapply may_readVerified, runs_may|]. unfold readVerified in H.
  apply runs_bind in H as [(h & w1 & _ & H)|(err & _ & [=])].
  destruct h as [n|]; [|by destruct H]. destruct (n =? ex_length e); [|by destruct H]. simpl in H.
  destruct H as (w2 & _ & H). unfold Memory.get in H. simpl in H.
  destruct (Memory.key (store_of s) id) as [k|] eqn:Hk; [|by destruct H]. simpl in H. exists k. split; [done|].
  destruct (map_get k w2) as [v|] eqn:Hv.
  - destruct (read_chunks (ex_length e) 0 [] [v]) as [b'|] eqn:Hr; [|by destruct H].
    apply read_chunks_single in Hr as ->. destruct (negb _ || negb _); destruct H as [-> [= <-]]. by left.
  - simpl in H. destruct (negb _ || negb _); destruct H as [-> [= <-]]. by right.
Qed.

Lemma exec_bind {A B} (p : prog A) (f : A -> prog B) w :
  exec w (prog_bind p f) =
    match exec w p with (w', Ok a) => exec w' (f a) | (w', Throw e) => (w', Throw e) end.
Proof. revert w. induction p as [a|e|X o k IH]; intros w; simpl; [done..|]. destruct (answer w o). apply IH. Qed.

Lemma exec_try {A} (p : prog A) h w :
  exec w (try_catch p h) =
    match exec w p with (w', Ok a) => (w', Ok a) | (w', Throw e) => exec w' (h e) end.
Proof. revert w. induction p as [a|e|X o k IH]; intros w; simpl; [done..|]. destruct (answer w o). apply IH. Qed.

Lemma exec_call {X A} (o : op X) (f : X -> prog A) w :
  exec w (prog_bind (call o) f) =
    match answer w o with (w', Ok x) => exec w' (f x) | (w', Throw e) => (w', Throw (store_error e)) end.
Proof. rewrite exec_bind. simpl. by destruct (answer w o) as [w' []]. Qed.

Lemma head_Ok s w id k :
  Memory.key s id = Ok k -> Memory.head s w id = Ok (byteLength <$> map_get k w).
Proof. intros Hk. unfold Memory.head. by rewrite Hk. Qed.

Lemma put_free s w id k v :
  Memory.key s id = Ok k -> map_get k w = None ->
  Memory.putIfAbsent s w id [(v, false)] =
    if Memory.maxObjectBytes s <? byteLength v then Throw object_too_large
    else Ok (map_set k v w, mkPut (byteLength v) created).
Proof.
  intros Hk Hv. unfold Memory.putIfAbsent, Memory.start_put. rewrite Hk. simpl. rewrite Hv.
  unfold Memory.collect, Memory.collect_from. cbn [list_fmap fmap]. rewrite Z.add_0_l.
  destruct (Memory.maxObjectBytes s <? byteLength v); [done|]. simpl.
  unfold Memory.finish_put. by rewrite Hv.
Qed.

(** [matches] as a test *)
Definition verified (e : ExpectedObject) (b : bytes) : bool :=
  (byteLength b =? ex_length e) && String.eqb (sha256 b) (ex_digest e).

Lemma exec_readVerified w s id k e :
  Memory.key (store_of s) id = Ok k ->
  exec w (readVerified s id e) =
    (w, match map_get k w with
        | None => Throw unavailable
        | Some v => if verified e v then Ok v else Throw integrity_mismatch
        end).
Proof.
  intros Hk. unfold readVerified. simpl. unfold Memory.head. rewrite Hk. simpl.
  destruct (map_get k w) as [v|] eqn:Hv; simpl; [|done]. unfold verified.
  destruct (Z.eqb_spec (byteLength v) (ex_length e)) as [Hl|]; simpl; [|done].
  unfold Memory.get. simpl. rewrite Hk. simpl. rewrite Hv. simpl. destruct (Z.ltb_spec (ex_length e) (0 + byteLength v)); [lia|]. simpl.
  rewrite (proj2 (Z.eqb_eq _ _) Hl). simpl. by destruct (String.eqb (sha256 v) (ex_digest e)).
Qed.

(** C34. Nothing unverified is ever delivered: whatever a store answers (it may lie,
    change between two operations or break off a stream), the bytes [fetchWithFailover]
    returns have the expected length and digest, the replica is used only for a
    critical object, and the only error is unavailable; and however other clients of an
    in-memory store interleave, a promotion or replication that succeeds leaves bytes
    with the expected length and digest at the destination (unless the expected object
    is empty and was deleted in between). *)
Theorem storage_integrity :
  (forall input b src, may (fetch input) (Ok (b, src)) ->
     matches (fail_expected input) b /\
     (src = from_replica -> critical input = true /\ is_Some (replica input))) /\
  (forall input e, may (fetch input) (Throw e) -> e = unavailable) /\
  (forall s input w w' r, 0 <= ex_length (expected input) -> runs w (promote s input) w' (Ok r) ->
     result_object r = expected input /\
     exists b k, matches (expected input) b /\ Memory.key (store_of s) (destinationObjectId input) = Ok k /\
       (map_get k w' = Some b \/ (b = [] /\ map_get k w' = None))) /\
  (forall source sid target tid e w w' r, 0 <= ex_length e -> runs w (replicate source sid target tid e) w' (Ok r) ->
     result_object r = e /\
     exists b k, matches e b /\ Memory.key (store_of target) tid = Ok k /\
       (map_get k w' = Some b \/ (b = [] /\ map_get k w' = None))).
Proof.
  split; [|split; [|split]].
  - intros input b src H. unfold fetch in H. apply may_try in H as [(a & H & [= <-])|(e & _ & H)].
    + apply may_bind in H as [(b' & H & Hr)|(e & _ & [=])]. simpl in Hr. injection Hr as -> ->.
      split; [by eapply may_readVerified|done].
    + destruct (critical input); [|done]. cbn [negb] in H. destruct (replica input) as [[s id]|]; [|done].
      apply may_try in H as [(a & H & [= <-])|(e' & _ & H)]; [|done].
      apply may_bind in H as [(b' & H & Hr)|(e' & _ & [=])]. simpl in Hr. injection Hr as -> ->.
      split; [by eapply may_readVerified|eauto].
  - intros input e H. unfold fetch in H. apply may_try in H as [(a & _ & [=])|(e' & _ & H)].
    destruct (if negb (critical input) then None else replica input) as [[s id]|]; [|by injection H].
    apply may_try in H as [(a & _ & [=])|(e'' & _ & H)]. by injection H.
  - intros s input w w' r Hlen H. unfold promote in H. apply runs_bind in H as [(h & w1 & _ & H)|(e & _ & [=])].
    destruct h as [n|].
    + apply runs_try in H as [(a & H & [= <-])|(e & w2 & _ & H)]; [|by destruct H].
      apply runs_bind in H as [(b & w2 & H & [-> [= ->]])|(e & _ & [=])]. split; [done|].
      apply runs_readVerified in H as (Hm & k & Hk & Hb); [|done]. eauto 6.
    + apply runs_bind in H as [(b0 & w2 & _ & H)|(e & _ & [=])].
      apply runs_bind in H as [(put & w3 & _ & H)|(e & _ & [=])].
      apply runs_bind in H as [(b & w4 & H & [-> [= ->]])|(e & _ & [=])]. split; [done|].
      apply runs_try in H as [(b' & H & [= <-])|(e & w5 & _ & H)]; [|by destruct H].
      apply runs_readVerified in H as (Hm & k & Hk & Hb); [|done]. eauto 6.
  - intros source sid target tid e w w' r Hlen H. unfold replicate in H.
    apply runs_bind in H as [(b0 & w2 & _ & H)|(err & _ & [=])].
    apply runs_bind in H as [(put & w3 & _ & H)|(err & _ & [=])].
    apply runs_bind in H as [(b & w4 & H & [-> [= ->]])|(err & _ & [=])]. split; [done|].
    apply runs_try in H as [(b' & H & [= <-])|(err & w5 & _ & H)]; [|by destruct H].
    apply runs_readVerified in H as (Hm & k & Hk & Hb); [|done]. eauto 6.
Qed.

(** What promotion does to the store. *)
Definition promotion (s : Store) (w : Memory.Objects) (kd ks : string) (input : PromotionInput) :
    Memory.Objects * result RepositoryError PromotionResult :=
  match map_get kd w with
  | Some v =>
      (w, if verified (expected input) v then Ok (mkPromotionResult (expected input) promoted_recovered)
          else Throw conflict)
  | None =>
      match map_get ks w with
      | None => (w, Throw unavailable)
      | Some v =>
          if negb (verified (expected input) v) then (w, Throw integrity_mismatch)
          else if Memory.maxObjectBytes (store_of s) <? byteLength v then (w, Throw (store_error object_too_large))
          else (map_set kd v w, Ok (mkPromotionResult (expected input) promoted_created))
      end
  end.

(** Promotion on the in-memory store, in full: it copies the verified staged object
    to a free destination and changes nothing else, recovers when the destination
    already holds the expected object, never overwrites a different one (conflict), and
    on every error leaves the store as it was; repeating a promotion that succeeded
    recovers without a change. Cleaning deletes the staged object, and the destination
    only when no manifest was finalized. *)
Theorem promotion_outcome s w input kd ks :
  Memory.key (store_of s) (destinationObjectId input) = Ok kd ->
  Memory.key (store_of s) (sourceObjectId input) = Ok ks ->
  exec w (promote s input) = promotion s w kd ks input /\
  (forall w' r, exec w (promote s input) = (w', Ok r) ->
     exec w' (promote s input) = (w', Ok (mkPromotionResult (expected input) promoted_recovered))) /\
  exec w (clean s input) =
    (if finalized then map_delete ks w else map_delete kd (map_delete ks w), Ok tt).
Proof.
  intros Hd Hs. assert (forall w, exec w (promote s input) = promotion s w kd ks input) as Hp.
  { clear w. intros w. unfold promote, promotion. rewrite exec_call. cbn [answer]. rewrite (head_Ok _ _ _ kd) by done.
    destruct (map_get kd w) as [v|] eqn:Hv; cbn [fmap option_fmap option_map].
    - rewrite exec_try, exec_bind, (exec_readVerified _ _ _ kd), Hv by done. by destruct (verified _ v).
    - rewrite exec_bind, (exec_readVerified _ _ _ ks) by done. destruct (map_get ks w) as [v|] eqn:Hsv; [|done].
      destruct (verified (expected input) v) eqn:Hver; cbn [negb]; [|done].
      rewrite exec_call. cbn [answer fmap list_fmap]. rewrite (put_free _ _ _ kd) by done.
      destruct (Memory.maxObjectBytes (store_of s) <? byteLength v); [done|].
      rewrite exec_bind, exec_try, (exec_readVerified _ _ _ kd), map_get_set_eq, Hver by done. done. }
  split; [apply Hp|]. split.
  - intros w' r. rewrite !Hp. unfold promotion at 1. destruct (map_get kd w) as [v|] eqn:Hv.
    + destruct (verified (expected input) v) eqn:Hver; intros [= <- <-]. unfold promotion. by rewrite Hv, Hver.
    + destruct (map_get ks w) as [v|]; [|done]. destruct (verified (expected input) v) eqn:Hver; simpl; [|done].
      destruct (_ <? _); intros [= <- <-]. unfold promotion. by rewrite map_get_set_eq, Hver.
  - unfold clean. simpl. unfold Memory.delete. rewrite Hs. simpl. destruct finalized; simpl; [done|].
    unfold Memory.delete. rewrite Hd. done.
Qed.
End Coordinator.

(** [new ProtectedObjectCoordinator(operationTimeoutMs)]: accepted or a [RangeError] *)
Definition valid_timeout (operationTimeoutMs : Z) : bool :=
  negb (negb (isSafeInteger operationTimeoutMs) || (operationTimeoutMs <=? 0)).

(** [lockKey], on the namespace of the store *)
Definition lockKey (namespace : string) (input : PromotionInput) : string :=
  (namespace +:+ ":" +:+ sourceObjectId input +:+ ":" +:+ destinationObjectId input)%string.

Record StagingLifecycleProfile := mkProfile {
  maxPreparationMaterializationSeconds : Z;
  maxDescriptorLifetimeSeconds : Z;
  maxFinalizationSeconds : Z;
  maxCleanupRecoverySeconds : Z;
  maxClockSkewSeconds : Z;
  nativeStagingTtlSeconds : Z
}.

Inductive ProfileError := not_nonnegative | ttl_too_short.

Definition assertStagingLifecycleProfile (p : StagingLifecycleProfile) : result ProfileError unit :=
  let values := [maxPreparationMaterializationSeconds p; maxDescriptorLifetimeSeconds p; maxFinalizationSeconds p;
                 maxCleanupRecoverySeconds p; maxClockSkewSeconds p; nativeStagingTtlSeconds p] in
  _ ← require (negb (existsb (fun v => negb (isSafeInteger v) || (v <? 0)) values)) not_nonnegative;
  let requiredMinimum := maxPreparationMaterializationSeconds p + maxDescriptorLifetimeSeconds p +
    maxFinalizationSeconds p + maxCleanupRecoverySeconds p + maxClockSkewSeconds p in
  require (negb (nativeStagingTtlSeconds p <=? requiredMinimum)) ttl_too_short.

(** ** The locks of the coordinator

    [withLock]: a call takes the promise stored for its key as its predecessor, stores
    its own [tail], waits for the predecessor, runs the action, then releases its gate
    and removes its [tail] if it is still the stored one. Calls are numbered as they
    arrive. *)

Module Lock.

Inductive Phase := waiting | running | released.

#[global] Instance Phase_eq_dec : EqDecision Phase.
Proof. solve_decision. Defined.

Record Ticket := mkTicket { lock_key : string; previous : option nat; phase : Phase }.

Record LockState := mkLocks { locks : list (string * nat); tickets : list Ticket }.

Definition initial : LockState := mkLocks [] [].

(** [tail] of ticket [n] is resolved: [previous.then(() => gate)]. The fuel is the
    number of tickets; a predecessor has a smaller number. *)
Fixpoint resolved (fuel : nat) (ts : list Ticket) (n : nat) : bool :=
  match fuel with
  | O => false
  | S fuel =>
      match ts !! n with
      | None => false
      | Some t =>
          bool_decide (phase t = released) &&
          match previous t with None => true | Some p => resolved fuel ts p end
      end
  end.

Definition tail_resolved (s : LockState) (n : nat) : bool := resolved (S n) (tickets s) n.

(** The lines up to [await previous]. *)
Definition acquire (s : LockState) (k : string) : LockState :=
  mkLocks (map_set k (length (tickets s)) (locks s)) (tickets s ++ [mkTicket k (map_get k (locks s)) waiting]).

Definition with_phase (ph : Phase) (t : Ticket) : Ticket := mkTicket (lock_key t) (previous t) ph.

(** [await previous] returns: the action starts. *)
Definition can_enter (s : LockState) (n : nat) : bool :=
  match tickets s !! n with
  | Some t =>
      bool_decide (phase t = waiting) &&
      match previous t with None => true | Some p => tail_resolved s p end
  | None => false
  end.

Definition enter (s : LockState) (n : nat) : LockState :=
  mkLocks (locks s) (alter (with_phase running) n (tickets s)).

(** The [finally] block. *)
Definition leave (s : LockState) (n : nat) : LockState :=
  let k := default ""%string (lock_key <$> tickets s !! n) in
  mkLocks (if bool_decide (map_get k (locks s) = Some n) then map_delete k (locks s) else locks s)
    (alter (with_phase released) n (tickets s)).

Inductive step (s : LockState) : LockState -> Prop :=
| step_acquire k : step s (acquire s k)
| step_enter n : can_enter s n = true -> step s (enter s n)
| step_leave n t : tickets s !! n = Some t -> phase t = running -> step s (leave s n).

Definition reachable (s : LockState) : Prop := rtc step initial s.

(** Every earlier ticket of the key is released. *)
Definition clear_before (ts : list Ticket) (k : string) (n : nat) : Prop :=
  forall i t, ts !! i = Some t -> (i < n)%nat -> lock_key t = k -> phase t = released.

Record locks_ok (s : LockState) : Prop := {
  l_previous n t p : tickets s !! n = Some t -> previous t = Some p ->
    (p < n)%nat /\ (exists u, tickets s !! p = Some u /\ lock_key u = lock_key t) /\
    (forall i u, tickets s !! i = Some u -> (p < i < n)%nat -> lock_key u <> lock_key t);
  l_first n t : tickets s !! n = Some t -> previous t = None -> clear_before (tickets s) (lock_key t) n;
  l_stored k n : map_get k (locks s) = Some n ->
    (exists t, tickets s !! n = Some t /\ lock_key t = k) /\
    (forall i u, tickets s !! i = Some u -> (n < i)%nat -> lock_key u <> k);
  l_absent k : map_get k (locks s) = None -> clear_before (tickets s) k (length (tickets s));
  l_entered n t : tickets s !! n = Some t -> phase t <> waiting -> clear_before (tickets s) (lock_key t) n;
  l_live k n t : map_get k (locks s) = Some n -> tickets s !! n = Some t -> phase t <> released
}.

Lemma resolved_clear s n t fuel :
  locks_ok s -> tickets s !! n = Some t -> (n < fuel)%nat ->
  resolved fuel (tickets s) n = true -> phase t = released /\ clear_before (tickets s) (lock_key t) n.
Proof.
  intros Hok. revert n t. induction fuel as [|fuel IH]; intros n t Ht Hlt Hr; [lia|].
  simpl in Hr. rewrite Ht in Hr. apply andb_true_iff in Hr as [Hph Hr]. apply bool_decide_eq_true in Hph.
  split; [done|]. destruct (previous t) as [p|] eqn:Hp; [|by eapply l_first].
  destruct (l_previous s Hok n t p Ht Hp) as (Hpn & (u & Hu & Hk) & Hbetween).
  destruct (IH p u Hu ltac:(lia) Hr) as [Hup Hclear]. intros i v Hv Hi Hkv.
  destruct (decide (i = p)) as [->|]; [congruence|].
  destruct (decide (i < p)%nat); [by eapply Hclear; [|done|congruence]|].
  exfalso. by eapply (Hbetween i v Hv ltac:(lia)).
Qed.

Lemma can_enter_clear s n t :
  locks_ok s -> tickets s !! n = Some t -> can_enter s n = true -> clear_before (tickets s) (lock_key t) n.
Proof.
  intros Hok Ht H. unfold can_enter in H. rewrite Ht in H. apply andb_true_iff in H as [_ H].
  destruct (previous t) as [p|] eqn:Hp; [|by eapply l_first].
  destruct (l_previous s Hok n t p Ht Hp) as (Hpn & (u & Hu & Hk) & Hbetween).
  destruct (resolved_clear s p u (S p) Hok Hu ltac:(lia) H) as [Hup Hclear]. intros i v Hv Hi Hkv.
  destruct (decide (i = p)) as [->|]; [congruence|].
  destruct (decide (i < p)%nat); [by eapply Hclear; [|done|congruence]|].
  exfalso. by eapply (Hbetween i v Hv ltac:(lia)).
Qed.

(** Changing the phase of a ticket, never back to waiting. *)
Lemma alter_lookup (ts : list Ticket) (n : nat) ph (i : nat) u :
  alter (with_phase ph) n ts !! i = Some u ->
  exists t, ts !! i = Some t /\ lock_key u = lock_key t /\ previous u = previous t /\
    phase u = if decide (i = n) then ph else phase t.
Proof.
  destruct (decide (i = n)) as [->|Hne].
  - rewrite list_lookup_alter_eq. intros (t & Ht & ->)%fmap_Some_1. exists t. done.
  - rewrite list_lookup_alter_ne by done. eauto.
Qed.

Lemma clear_before_alter ts n ph k m :
  ph = released \/ (exists t, ts !! n = Some t /\ phase t <> released) ->
  clear_before ts k m -> clear_before (alter (with_phase ph) n ts) k m.
Proof.
  intros Hph Hc i u (t & Ht & Hk & _ & Hp)%alter_lookup Hi Hku.
  pose proof (Hc i t Ht Hi ltac:(congruence)) as Hrel. rewrite Hp. case_decide; [|done]. subst.
  destruct Hph as [->|(t' & Ht' & Hn)]; [done|]. congruence.
Qed.

Lemma clear_before_snoc ts k m t : (m <= length ts)%nat -> clear_before ts k m -> clear_before (ts ++ [t]) k m.
Proof.
  intros Hm Hc i u Hu Hi Hk. rewrite lookup_app_l in Hu by lia. by eapply Hc.
Qed.

Lemma acquire_ok s k : locks_ok s -> locks_ok (acquire s k).
Proof.
  intros Hok. set (new := mkTicket k (map_get k (locks s)) waiting).
  assert (forall n t, (tickets s ++ [new]) !! n = Some t ->
    (tickets s !! n = Some t /\ (n < length (tickets s))%nat) \/ (n = length (tickets s) /\ t = new)) as Hcase.
  { intros n t [H|[Hn H]]%lookup_app_Some; [left; eauto using lookup_lt_Some|].
    apply list_lookup_singleton_Some in H as [H <-]. right. split; [lia|done]. }
  constructor; simpl; fold new.
  - intros n t p Hn Hp. destruct (Hcase n t Hn) as [[Ht Hlt]|[-> ->]].
    + destruct (l_previous s Hok n t p Ht Hp) as (Hpn & (u & Hu & Hk) & Hb). split; [done|]. split.
      * exists u. split; [by apply lookup_app_l_Some|done].
      * intros i v [[Hv _]|[-> _]]%Hcase Hi; [by eapply Hb|lia].
    + simpl in Hp. destruct (l_stored s Hok k p Hp) as ((u & Hu & Hk) & Hb).
      split; [by eapply lookup_lt_Some|]. split; [exists u; split; [by apply lookup_app_l_Some|done]|].
      intros i v [[Hv _]|[-> _]]%Hcase Hi; [|lia]. eapply Hb; [done|lia].
  - intros n t [[Ht Hlt]|[-> ->]]%Hcase Hp; (apply clear_before_snoc; [lia|]); [by eapply l_first|by eapply l_absent].
  - intros k' n. rewrite map_get_set. case_decide as Hk'.
    + intros [= <-]. subst k'. split; [exists new; split; [by apply list_lookup_middle|done]|].
      intros i u [[_ Hlt]|[-> _]]%Hcase Hi; lia.
    + intros Hn. destruct (l_stored s Hok k' n Hn) as ((u & Hu & Hk) & Hb).
      split; [exists u; split; [by apply lookup_app_l_Some|done]|].
      intros i v [[Hv _]|[-> ->]]%Hcase Hi; [by eapply Hb|]. simpl. congruence.
  - intros k'. rewrite map_get_set. case_decide as Hk'; [done|]. intros Hn i u [[Hu Hlt]|[-> ->]]%Hcase Hi Hk.
    + by eapply (l_absent s Hok k' Hn).
    + simpl in Hk. congruence.
  - intros n t [[Ht Hlt]|[-> ->]]%Hcase Hp; [|done]. apply clear_before_snoc; [lia|]. by eapply l_entered.
  - intros k' n t. rewrite map_get_set. case_decide as Hk'.
    + intros [= <-] [[_ Hlt]|[_ ->]]%Hcase; [lia|done].
    + intros Hn [[Ht _]|[_ ->]]%Hcase; [by eapply l_live|done].
Qed.

Lemma alter_ok s n t ph ls :
  locks_ok s -> tickets s !! n = Some t -> phase t <> released -> ph <> waiting ->
  clear_before (tickets s) (lock_key t) n ->
  (forall k m, map_get k ls = Some m -> map_get k (locks s) = Some m) ->
  (forall k, map_get k ls = None -> map_get k (locks s) = None \/
     (ph = released /\ lock_key t = k /\ map_get k (locks s) = Some n)) ->
  (ph = released -> forall k, map_get k ls <> Some n) ->
  locks_ok (mkLocks ls (alter (with_phase ph) n (tickets s))).
Proof.
  intros Hok Ht Hnr Hnw Hclear Hstored Habsent Hgone.
  assert (forall k m, clear_before (tickets s) k m -> clear_before (alter (with_phase ph) n (tickets s)) k m) as Hkeep.
  { intros k m. apply clear_before_alter. right. eauto. }
  assert (forall i v, tickets s !! i = Some v -> exists u, alter (with_phase ph) n (tickets s) !! i = Some u /\ lock_key u = lock_key v) as Hfwd.
  { intros i v Hv. destruct (decide (i = n)) as [->|]; [rewrite list_lookup_alter_eq|rewrite list_lookup_alter_ne by done];
      rewrite Hv; simpl; eauto. }
  constructor; simpl.
  - intros i u p (v & Hv & Hk & Hp & _)%alter_lookup Hup. rewrite Hk. rewrite Hp in Hup.
    destruct (l_previous s Hok i v p Hv Hup) as (Hlt & (w & Hw & Hkw) & Hb). split; [done|]. split.
    + destruct (Hfwd p w Hw) as (w' & Hw' & Hk'). exists w'. split; [done|congruence].
    + intros j x (y & Hy & Hky & _)%alter_lookup Hj. rewrite Hky. by eapply Hb.
  - intros i u (v & Hv & Hk & Hp & _)%alter_lookup Hup. rewrite Hk. apply Hkeep. eapply l_first; [done|done|congruence].
  - intros k m Hm. destruct (l_stored s Hok k m (Hstored k m Hm)) as ((w & Hw & Hkw) & Hb). split.
    + destruct (Hfwd m w Hw) as (w' & Hw' & Hk'). exists w'. split; [done|congruence].
    + intros j x (y & Hy & Hky & _)%alter_lookup Hj. rewrite Hky. by eapply Hb.
  - intros k Hk. rewrite length_alter. destruct (Habsent k Hk) as [Hnone|(-> & Hkt & Hsome)].
    + apply Hkeep. by eapply l_absent.
    + intros i u (v & Hv & Hkv & _ & Hph)%alter_lookup Hi Hku. rewrite Hph. case_decide as Hin; [done|].
      destruct (l_stored s Hok k n Hsome) as (_ & Hb). destruct (decide (n < i)%nat).
      * exfalso. eapply Hb; [exact Hv|done|congruence].
      * eapply (Hclear i v Hv); [lia|congruence].
  - intros i u (v & Hv & Hk & _ & Hph)%alter_lookup Hw. rewrite Hk. apply Hkeep.
    case_decide as Hin; [subst i; by assert (v = t) as -> by congruence|]. rewrite Hph in Hw. by eapply l_entered.
  - intros k i u Hi (v & Hv & _ & _ & Hph)%alter_lookup. rewrite Hph.
    case_decide as Hin; [subst i; intros ->; by eapply Hgone|]. eapply l_live; [done|by apply Hstored|done].
Qed.

Lemma lock_step_ok s s' : step s s' -> locks_ok s -> locks_ok s'.
Proof.
  intros [k|n H|n t Ht Hr] Hok; [by apply acquire_ok| |].
  - pose proof H as H'. unfold can_enter in H'. destruct (tickets s !! n) as [t|] eqn:Ht; [|done].
    apply andb_true_iff in H' as [Hph _]. apply bool_decide_eq_true in Hph.
    eapply alter_ok; [done|done|congruence|done|by eapply can_enter_clear|done|auto|done].
  - unfold leave. rewrite Ht. simpl.
    eapply alter_ok; [done|done|congruence|done|eapply l_entered; [done|done|congruence]| | |].
    + intros k m. case_bool_decide; [|done]. rewrite map_delete_get. by case_decide.
    + intros k. case_bool_decide; [|by left]. rewrite map_delete_get. case_decide; [right|by left]. by subst.
    + intros _ k. case_bool_decide as Hst.
      * rewrite map_delete_get. case_decide; [done|]. intros Hk.
        destruct (l_stored s Hok k n Hk) as ((u & Hu & Hku) & _). congruence.
      * intros Hk. destruct (l_stored s Hok k n Hk) as ((u & Hu & Hku) & _). congruence.
Qed.

Lemma locks_reachable_ok s : reachable s -> locks_ok s.
Proof.
  intros H. assert (locks_ok initial) as Hi by (constructor; simpl; intros *; by rewrite ?lookup_nil).
  induction H as [|s1 s2 s3 H12 _ IH]; [done|]. by eapply IH, lock_step_ok.
Qed.

Lemma clear_resolved s n t fuel :
  locks_ok s -> tickets s !! n = Some t -> (n < fuel)%nat -> phase t = released ->
  clear_before (tickets s) (lock_key t) n -> resolved fuel (tickets s) n = true.
Proof.
  intros Hok. revert n t. induction fuel as [|fuel IH]; intros n t Ht Hlt Hph Hc; [lia|].
  simpl. rewrite Ht, bool_decide_eq_true_2 by done. simpl. destruct (previous t) as [p|] eqn:Hp; [|done].
  destruct (l_previous s Hok n t p Ht Hp) as (Hpn & (u & Hu & Hk) & _).
  eapply (IH p u Hu); [lia|by eapply Hc|]. intros i v Hv Hi Hkv. eapply (Hc i v Hv); [lia|congruence].
Qed.

(** [withLock] is a fair mutual exclusion: in every reachable state an action of a
    key has started only when every call of that key that arrived before it has
    released the lock (so at most one runs, in order of arrival); the first call that
    has not released can always proceed; and the table holds an entry for a key exactly
    while some call of it is unreleased, so nothing leaks. *)
Theorem lock_mutual_exclusion s :
  reachable s ->
  (forall i j t u, tickets s !! i = Some t -> tickets s !! j = Some u -> (i < j)%nat ->
     lock_key t = lock_key u -> phase u <> waiting -> phase t = released) /\
  (forall n t, tickets s !! n = Some t -> phase t = waiting ->
     (can_enter s n = true <-> clear_before (tickets s) (lock_key t) n)) /\
  (forall k, map_get k (locks s) = None <->
     forall n t, tickets s !! n = Some t -> lock_key t = k -> phase t = released).
Proof.
  intros Hok%locks_reachable_ok. split; [|split].
  - intros i j t u Ht Hu Hij Hk Hw. by eapply (l_entered s Hok j u Hu Hw i t).
  - intros n t Ht Hw. split; [by apply can_enter_clear|]. intros Hc. unfold can_enter.
    rewrite Ht, bool_decide_eq_true_2 by done. simpl. destruct (previous t) as [p|] eqn:Hp; [|done].
    destruct (l_previous s Hok n t p Ht Hp) as (Hpn & (u & Hu & Hk) & _).
    eapply clear_resolved; [done|exact Hu|lia|by eapply Hc|].
    intros i v Hv Hi Hkv. eapply (Hc i v Hv); [lia|congruence].
  - intros k. split.
    + intros Hn n t Ht Hk. eapply (l_absent s Hok k Hn); [exact Ht|by eapply lookup_lt_Some|done].
    + intros Hall. destruct (map_get k (locks s)) as [n|] eqn:Hn; [|done].
      destruct (l_stored s Hok k n Hn) as ((t & Ht & Hk) & _). exfalso. eapply (l_live s Hok k n t Hn Ht).
      by eapply Hall.
Qed.

(** *** Waiting *)

(** The steps a call still has to make: to enter and to leave. *)
Definition remaining (ph : Phase) : nat := match ph with waiting => 2 | running => 1 | released => 0 end.

(** What is left to do for a call [n] of a key: its own steps and those of the calls of
    the key that came before it. *)
Definition work (ts : list Ticket) (k : string) (n : nat) : nat :=
  sum_list ((fun t => if decide (lock_key t = k) then remaining (phase t) else 0%nat) <$> take (S n) ts).

(** Executions, with the call that entered or left at each step ([None]: a new call). *)
Inductive executes (s : LockState) : list (option nat) -> LockState -> Prop :=
| executes_nil : executes s [] s
| executes_acquire k ms s' : executes (acquire s k) ms s' -> executes s (None :: ms) s'
| executes_enter n ms s' : can_enter s n = true -> executes (enter s n) ms s' -> executes s (Some n :: ms) s'
| executes_leave n t ms s' :
    tickets s !! n = Some t -> phase t = running -> executes (leave s n) ms s' -> executes s (Some n :: ms) s'.

(** The steps of the calls of a key up to [n], among those of an execution. *)
Definition counts_for (ts : list Ticket) (k : string) (n : nat) (m : option nat) : bool :=
  match m with
  | Some i => (i <=? n)%nat && bool_decide (lock_key <$> ts !! i = Some k)
  | None => false
  end.

Definition moves_for (ts : list Ticket) (k : string) (n : nat) (ms : list (option nat)) : nat :=
  length (filter (counts_for ts k n) ms).

Lemma work_acquire ts t k n : (n < length ts)%nat -> work (ts ++ [t]) k n = work ts k n.
Proof. intros Hn. unfold work. by rewrite take_app_le by lia. Qed.

Lemma sum_list_alter (f : Ticket -> nat) (g : Ticket -> Ticket) (ts : list Ticket) i t :
  ts !! i = Some t -> (f (g t) <= f t)%nat ->
  sum_list (f <$> ts) = (sum_list (f <$> alter g i ts) + (f t - f (g t)))%nat.
Proof.
  revert i. induction ts as [|u ts IH]; intros [|i] Ht Hle; csimpl in *; simplify_eq; [lia|].
  rewrite (IH i); [lia|done|done].
Qed.

Lemma work_alter ts i t ph k n :
  ts !! i = Some t -> S (remaining ph) = remaining (phase t) ->
  work ts k n = ((if counts_for ts k n (Some i) then 1 else 0) + work (alter (with_phase ph) i ts) k n)%nat.
Proof.
  intros Ht Hph. unfold work, counts_for. rewrite Ht. simpl. destruct (Nat.leb_spec i n) as [Hle|Hlt]; simpl.
  - rewrite take_alter, decide_True by lia. rewrite (sum_list_alter _ (with_phase ph) _ i t); [|by rewrite lookup_take_lt by lia|].
    + simpl. rewrite (bool_decide_ext _ (lock_key t = k)) by naive_solver.
      destruct (decide (lock_key t = k)) as [He|He]; [rewrite bool_decide_true by done|rewrite bool_decide_false by done]; lia.
    + simpl. case_decide; lia.
  - by rewrite take_alter, decide_False by lia.
Qed.

Lemma alter_keys (ts : list Ticket) (i : nat) ph (j : nat) : lock_key <$> alter (with_phase ph) i ts !! j = lock_key <$> ts !! j.
Proof.
  destruct (decide (i = j)) as [->|Hne]; [rewrite list_lookup_alter_eq|by rewrite list_lookup_alter_ne].
  by destruct (ts !! j).
Qed.

Lemma counts_for_keys ts ts' k n m :
  (forall i, (i <= n)%nat -> lock_key <$> ts' !! i = lock_key <$> ts !! i) -> counts_for ts' k n m = counts_for ts k n m.
Proof.
  intros H. destruct m as [i|]; simpl; [|done]. destruct (Nat.leb_spec i n); simpl; [|done]. by rewrite H.
Qed.

Lemma moves_for_keys ts ts' k n ms :
  (forall i, (i <= n)%nat -> lock_key <$> ts' !! i = lock_key <$> ts !! i) -> moves_for ts' k n ms = moves_for ts k n ms.
Proof.
  intros H. unfold moves_for. f_equal. apply list_filter_iff. intros m. by rewrite (counts_for_keys ts ts' k n m).
Qed.

Lemma moves_for_cons ts k n m ms :
  moves_for ts k n (m :: ms) = ((if counts_for ts k n m then 1 else 0) + moves_for ts k n ms)%nat.
Proof. unfold moves_for. rewrite filter_cons. by destruct (counts_for ts k n m). Qed.

(** A step of a call up to [n] of the key is one less to make; no other step counts. *)
Lemma executes_work s ms s' k n :
  executes s ms s' -> (n < length (tickets s))%nat ->
  (n < length (tickets s'))%nat /\ lock_key <$> tickets s' !! n = lock_key <$> tickets s !! n /\
  work (tickets s) k n = (moves_for (tickets s) k n ms + work (tickets s') k n)%nat.
Proof.
  induction 1 as [s|s k' ms s' _ IH|s i ms s' Hi _ IH|s i t ms s' Ht Hph _ IH]; intros Hn; [done|..];
    rewrite moves_for_cons; simpl in IH.
  - destruct IH as (Hl & Hk & Hw); [rewrite length_app; simpl; lia|]. split; [done|].
    rewrite lookup_app_l in Hk by done. split; [done|]. rewrite work_acquire in Hw by done. rewrite Hw.
    rewrite (moves_for_keys (tickets s)); [done|]. intros j Hj. by rewrite lookup_app_l by lia.
  - unfold can_enter in Hi. destruct (tickets s !! i) as [t|] eqn:Ht; [|done].
    apply andb_true_iff in Hi as [Hph%bool_decide_eq_true _].
    destruct IH as (Hl & Hk & Hw); [by rewrite length_alter|]. split; [done|]. rewrite alter_keys in Hk. split; [done|].
    rewrite (work_alter _ i t running) by (done || by rewrite Hph). rewrite Hw, (moves_for_keys (tickets s)); [lia|].
    intros j _. apply alter_keys.
  - destruct IH as (Hl & Hk & Hw); [by rewrite length_alter|]. split; [done|]. rewrite alter_keys in Hk. split; [done|].
    rewrite (work_alter _ i t released) by (done || by rewrite Hph). rewrite Hw, (moves_for_keys (tickets s)); [lia|].
    intros j _. apply alter_keys.
Qed.

Lemma executes_reachable s ms s' : reachable s -> executes s ms s' -> reachable s'.
Proof.
  intros Hr H. revert Hr. induction H; intros Hr; [done|..]; apply IHexecutes; (eapply rtc_r; [exact Hr|]);
    [apply step_acquire|by apply step_enter|by eapply step_leave].
Qed.

(** The first call of a key that has not released runs or can enter. *)
Lemma first_moves s n t :
  reachable s -> tickets s !! n = Some t -> phase t <> released ->
  exists m u, (m <= n)%nat /\ tickets s !! m = Some u /\ lock_key u = lock_key t /\
    (can_enter s m = true \/ phase u = running).
Proof.
  intros Hs. pose proof (proj1 (proj2 (lock_mutual_exclusion s Hs))) as Henter.
  revert t. induction n as [n IH] using lt_wf_ind. intros t Ht Hph.
  destruct (decide (Exists (fun u => lock_key u = lock_key t /\ phase u <> released) (take n (tickets s)))) as [He|He].
  - apply Exists_exists in He as (u & (m & Hm)%list_elem_of_lookup & Hk & Hu).
    apply lookup_take_Some in Hm as [Hm Hlt]. destruct (IH m Hlt u Hm Hu) as (i & v & Hi & Hv & Hkv & Hmove).
    exists i, v. split; [lia|]. split; [done|]. split; [congruence|done].
  - exists n, t. split; [done|]. split; [done|]. split; [done|].
    destruct (phase t) eqn:Hp; [left|by right|done]. apply (Henter n t Ht Hp). intros i v Hv Hi Hkv.
    destruct (decide (phase v = released)) as [|Hv']; [done|]. exfalso. apply He, Exists_exists. exists v.
    split; [|done]. apply list_elem_of_lookup. exists i. by rewrite lookup_take_lt.
Qed.

Lemma work_zero ts k n t : work ts k n = 0%nat -> ts !! n = Some t -> lock_key t = k -> phase t = released.
Proof.
  unfold work. revert n. induction ts as [|u ts IH]; intros [|n] Hw Ht Hk; csimpl in *; simplify_eq.
  - rewrite decide_True in Hw by done. by destruct (phase t).
  - eapply (IH n); [|done|done]. unfold work. lia.
Qed.

(** C15. Every call of [withLock] gets the lock, in order of arrival. In a reachable state
    two calls of a key never hold the lock together and none enters before an earlier one
    has left. Of every execution from there, with new calls arriving at any point: the
    steps of a waiting call and of the calls of its key before it are exactly used up, at
    most two each, and those of any other call do not delay it; once they are made it has
    run and released; and as long as they are not, one of these very calls runs or can
    enter at once, so that nothing but an action that never ends keeps a call waiting. *)
Theorem lock_fair (s s' : LockState) (ms : list (option nat)) (n : nat) (t : Ticket) :
  reachable s -> tickets s !! n = Some t -> executes s ms s' ->
  (forall i j u v, tickets s' !! i = Some u -> tickets s' !! j = Some v -> (i < j)%nat ->
     lock_key u = lock_key v -> phase v <> waiting -> phase u = released) /\
  work (tickets s) (lock_key t) n = (moves_for (tickets s) (lock_key t) n ms + work (tickets s') (lock_key t) n)%nat /\
  exists t', tickets s' !! n = Some t' /\ lock_key t' = lock_key t /\
    (moves_for (tickets s) (lock_key t) n ms = work (tickets s) (lock_key t) n -> phase t' = released) /\
    (phase t' <> released ->
     exists m u, (m <= n)%nat /\ tickets s' !! m = Some u /\ lock_key u = lock_key t /\
       (can_enter s' m = true \/ phase u = running)).
Proof.
  intros Hs Ht Hx. pose proof (executes_reachable _ _ _ Hs Hx) as Hs'.
  destruct (executes_work _ _ _ (lock_key t) n Hx) as (Hl & Hk & Hw); [by eapply lookup_lt_Some|].
  split; [exact (proj1 (lock_mutual_exclusion s' Hs'))|]. split; [done|].
  apply lookup_lt_is_Some in Hl as [t' Ht']. rewrite Ht, Ht' in Hk. injection Hk as Hk. exists t'.
  split; [done|]. split; [done|]. split.
  - intros Heq. eapply work_zero; [|exact Ht'|exact Hk]. lia.
  - intros Hn. destruct (first_moves s' n t' Hs' Ht' Hn) as (m & u & Hm & Hu & Hku & Hmove).
    exists m, u. split; [done|]. split; [done|]. split; [congruence|done].
Qed.

(** A call waits for another of its key, which then leaves. *)
Lemma lock_fair_witness :
  let s := acquire (enter (acquire initial "k") 0%nat) "k" in
  reachable s /\ can_enter s 1%nat = false /\ work (tickets s) "k" 1 = 3%nat /\
  exists t', tickets (leave (enter (leave s 0) 1) 1) !! 1%nat = Some t' /\ phase t' = released.
Proof.
  intros s. assert (reachable s) as Hs.
  { eapply rtc_l; [exact (step_acquire initial "k")|]. eapply rtc_l; [eapply (step_enter _ 0%nat); reflexivity|].
    eapply rtc_l; [apply (step_acquire _ "k")|]. constructor. }
  split; [exact Hs|]. split; [reflexivity|]. split; [reflexivity|].
  assert (executes s [Some 0%nat; Some 1%nat; Some 1%nat] (leave (enter (leave s 0) 1) 1)) as Hx.
  { eapply executes_leave; [reflexivity|reflexivity|]. eapply executes_enter; [reflexivity|].
    eapply executes_leave; [reflexivity|reflexivity|]. constructor. }
  destruct (lock_fair s _ _ 1 (mkTicket "k" (Some 0%nat) waiting) Hs eq_refl Hx) as (_ & _ & t' & Ht' & _ & Hdone & _).
  exists t'. split; [exact Ht'|]. apply Hdone. reflexivity.
Defined.
End Lock.

Module Sample.
Definition destination : string := "AAAAAAAAAAAAAAAAAAAAAAAAAAAAAAAAAAAAAAAAAAA".
Definition staged : string := "BAAAAAAAAAAAAAAAAAAAAAAAAAAAAAAAAAAAAAAAAAA".
Definition store : Memory.MemoryObjectStore := Memory.mkStore "urn:evllm:org:o" "o:" 10.
Definition objects : Memory.Objects := [("o:" +:+ staged, [Byte.x00; Byte.x01])%string].
Definition input : PromotionInput := mkPromotion (mkExpected "digest" 2) destination staged.

Lemma promotion_outcome_witness :
  Memory.key store destination = Ok ("o:" +:+ destination)%string /\
  exec (fun _ => store) false objects (promote (fun _ => "digest"%string) tt input) =
    (objects ++ [("o:" +:+ destination, [Byte.x00; Byte.x01])%string],
     Ok (mkPromotionResult (mkExpected "digest" 2) promoted_created)).
Proof.
  split; [reflexivity|].
  rewrite (proj1 (promotion_outcome (fun _ => "digest"%string) (fun _ => store) false tt objects input
    ("o:" +:+ destination)%string ("o:" +:+ staged)%string eq_refl eq_refl)).
  reflexivity.
Defined.
End Sample.
