(* ===== verification/Journal.v ===== *)
(** * The journal of model transport attempts

    [src/src/evaluation/transport-attempt-journal.ts]: [TransportAttemptJournal], an
    append-only hash-chained file of provider attempts, and [JournaledAssistantModel],
    which records every call of a model in it.

    The queue of [enqueue] runs one append at a time, so an operation is one step. The
    file is its lines, with what follows the last newline: text is appended where the file
    ends, in the middle of a line if the last newline is missing. A line that is not JSON
    of an event's shape is [garbage]. SHA-256 over canonical JSON is [hash_event]; the UUID and date-time
    formats of zod are [is_uuid] and [is_datetime]; random identifiers, times and the
    outcome of the file system are arguments of the operations. *)

From S2P Require Import Prelude Regex.

(** ** Files of JSON lines *)

(** What a line holds: white space (all of it JSON's, or not), text that does not parse, or
    the JSON of a value. *)
Inductive Line (A : Type) := blank (json_space : bool) | garbage | line_of (e : A).
Arguments blank {A} _.
Arguments garbage {A}.
Arguments line_of {A} _.

(** The lines that a newline ends, and what follows the last newline. *)
Record File (A : Type) := mkFile { ended_lines : list (Line A); rest : Line A }.
Arguments mkFile {A} _ _.
Arguments ended_lines {A} _.
Arguments rest {A} _.

(** No file, or an empty one *)
Definition no_lines {A} : File A := mkFile [] (blank true).

(** [content.split(newline)] *)
Definition lines_of {A} (f : File A) : list (Line A) := ended_lines f ++ [rest f].

(** The file is empty or ends with a newline (and at most JSON's white space). *)
Definition terminated {A} (f : File A) : Prop := rest f = blank true.

(** What the text of a value makes of the line it is written on: only JSON's white space
    may precede it. *)
Definition glue {A} (before : Line A) (e : A) : Line A :=
  match before with blank true => line_of e | _ => garbage end.

(** What became of the write of a line and its newline: done; an error with nothing
    written, with a part of the value written, with all but the newline written, or with
    all of it written (a failing [sync] or [close]). *)
Inductive WriteOutcome := written | not_written | partly_written | newline_missing | written_but_failed.

(** [open(path, "a")] and the write *)
Definition append_line {A} (f : File A) (e : A) (w : WriteOutcome) : File A :=
  match w with
  | written | written_but_failed => mkFile (ended_lines f ++ [glue (rest f) e]) (blank true)
  | not_written => f
  | partly_written => mkFile (ended_lines f) garbage
  | newline_missing => mkFile (ended_lines f) (glue (rest f) e)
  end.

Record TransportJournalBinding := mkBinding {
  evaluation_set_id : string;
  source_commit : string;
  freeze_sha256 : string;
  corpus_file_sha256 : string;
  logical_corpus_sha256 : string
}.

#[global] Instance TransportJournalBinding_eq_dec : EqDecision TransportJournalBinding.
Proof. solve_decision. Defined.

(** What [attemptReference] copies and [sameAttempt] compares. *)
Record AttemptReference := mkReference {
  observation_id : string;
  case_id : string;
  configuration_id : string;
  repetition : Z;
  attempt_sequence : Z;
  cycle_id : string;
  cycle_attempt : Z
}.

#[global] Instance AttemptReference_eq_dec : EqDecision AttemptReference.
Proof. solve_decision. Defined.

Inductive ErrorCategory :=
| http_408 | http_409 | http_429 | http_5xx | connection_reset | timed_out | dns_temporary
| connection_refused | connection_error | provider_error.

Inductive EventDetail :=
| started (provider model model_input_sha256 : string) (presented_support_ids : list string) (retry : bool)
| succeeded (started_event_id : string) (duration_ms : Z) (provider model : string) (response_id : option string)
    (input_tokens output_tokens : option Z)
| failed (started_event_id : string) (duration_ms : Z) (transient : bool) (error_category : ErrorCategory)
| interrupted (started_event_id : string) (duration_ms : Z).

Record UnsignedEvent := mkUnsigned {
  event_id : string;
  previous_event_sha256 : option string;
  binding : TransportJournalBinding;
  reference : AttemptReference;
  recorded_at : string;
  detail : EventDetail
}.

Record TransportAttemptEvent := mkEvent { unsigned : UnsignedEvent; event_sha256 : string }.

Record TransportAttemptIdentity := mkIdentity {
  id_observation_id : string;
  id_case_id : string;
  id_configuration_id : string;
  id_repetition : Z;
  id_provider : string;
  id_model : string
}.

(** What the journal uses of a [ModelResult]. *)
Record ModelResult := mkModelResult {
  mr_provider : string;
  mr_model : string;
  mr_responseId : option string;
  mr_inputTokens : option Z;
  mr_outputTokens : option Z
}.

Record TransportAttemptJournal := mkJournal {
  jbinding : TransportJournalBinding;
  events : list TransportAttemptEvent;
  file : File TransportAttemptEvent
}.

(** [openStarts] may be interrupted by these errors; the number is the index of a line. *)
Inductive JournalError :=
| invalid_line (index : nat)
| binding_mismatch (index : nat)
| broken_chain (index : nat)
| invalid_digest (index : nat)
| duplicate_event (id : string)
| repeated_support (id : string)
| non_sequential (observation : string)
| invalid_retry (observation : string)
| invalid_terminal (id : string)
| terminal_mismatch (id : string)
| schema_error
| io_error.

(** ** Reading events *)

Definition is_started (e : TransportAttemptEvent) : bool :=
  match detail (unsigned e) with started _ _ _ _ _ => true | _ => false end.

(** [event.started_event_id] of a terminal event *)
Definition started_id (e : TransportAttemptEvent) : option string :=
  match detail (unsigned e) with
  | started _ _ _ _ _ => None
  | succeeded s _ _ _ _ _ _ | failed s _ _ _ | interrupted s _ => Some s
  end.

Definition eid (e : TransportAttemptEvent) : string := event_id (unsigned e).
Definition observation (e : TransportAttemptEvent) : string := observation_id (reference (unsigned e)).

Definition startsFor (j : list TransportAttemptEvent) (o : string) : list TransportAttemptEvent :=
  filter (fun e => is_started e = true /\ observation e = o) j.

Definition terminalsFor (j : list TransportAttemptEvent) (o : string) : list TransportAttemptEvent :=
  filter (fun e => is_started e = false /\ observation e = o) j.

Definition terminalForStart (j : list TransportAttemptEvent) (id : string) : option TransportAttemptEvent :=
  find (fun e => bool_decide (started_id e = Some id)) j.

Definition openStarts (j : list TransportAttemptEvent) : list TransportAttemptEvent :=
  filter (fun e => is_started e = true /\ terminalForStart j (eid e) = None) j.

Definition is_succeeded (e : TransportAttemptEvent) : bool :=
  match detail (unsigned e) with succeeded _ _ _ _ _ _ _ => true | _ => false end.
Definition is_interrupted (e : TransportAttemptEvent) : bool :=
  match detail (unsigned e) with interrupted _ _ => true | _ => false end.
Definition is_failed (e : TransportAttemptEvent) : bool :=
  match detail (unsigned e) with failed _ _ _ _ => true | _ => false end.
Definition is_final_failure (e : TransportAttemptEvent) : bool :=
  match detail (unsigned e) with failed _ _ transient _ => negb transient | _ => false end.

Definition attemptsFor (j : list TransportAttemptEvent) (o : string) : Z := Z.of_nat (length (startsFor j o)).

Definition remainingAttemptBudget (j : list TransportAttemptEvent) (o : string) (maximum : Z) : Z :=
  let terminals := terminalsFor j o in
  if existsb is_succeeded terminals then 0
  else if existsb is_interrupted terminals then 0
  else if existsb is_final_failure terminals then 0
  else Z.max 0 (maximum - Z.of_nat (length (startsFor j o))).

Inductive ResumeError := successful_invocation | interrupted_attempt | failure_not_transient | budget_exhausted.

Definition assertCanResumeObservation (j : list TransportAttemptEvent) (o : string) (maximum : Z) :
    result ResumeError unit :=
  let terminals := terminalsFor j o in
  _ ← require (negb (existsb is_succeeded terminals)) successful_invocation;
  _ ← require (negb (existsb is_interrupted terminals)) interrupted_attempt;
  _ ← require (negb (existsb is_final_failure terminals)) failure_not_transient;
  require (negb (maximum <=? Z.of_nat (length (startsFor j o)))) budget_exhausted.

(** ** The summary *)

Record TransportAttemptSummary := mkSummary {
  observations_attempted : Z;
  transport_attempts : Z;
  retry_attempts : Z;
  successful_invocations : Z;
  failed_attempts : Z;
  interrupted_attempts : Z;
  open_attempts : Z;
  total_input_tokens : Z;
  total_output_tokens : Z
}.

Definition count (f : TransportAttemptEvent -> bool) (l : list TransportAttemptEvent) : Z :=
  Z.of_nat (length (filter (fun e => f e = true) l)).

Definition input_tokens_of (e : TransportAttemptEvent) : Z :=
  match detail (unsigned e) with succeeded _ _ _ _ _ i _ => default 0 i | _ => 0 end.
Definition output_tokens_of (e : TransportAttemptEvent) : Z :=
  match detail (unsigned e) with succeeded _ _ _ _ _ _ o => default 0 o | _ => 0 end.

Definition summary (j : list TransportAttemptEvent) : TransportAttemptSummary :=
  let starts := filter (fun e => is_started e = true) j in
  let terminals := filter (fun e => is_started e = false) j in
  let successes := filter (fun e => is_succeeded e = true) terminals in
  mkSummary (set_size (observation <$> starts)) (Z.of_nat (length starts))
    (Z.of_nat (length starts) - set_size (observation <$> starts)) (Z.of_nat (length successes))
    (count is_failed terminals) (count is_interrupted terminals) (Z.of_nat (length (openStarts j)))
    (fold_left (fun total e => total + input_tokens_of e) successes 0)
    (fold_left (fun total e => total + output_tokens_of e) successes 0).

(** ** Consistency *)

Record ConsistencyState := mkConsistency {
  seen_ids : list string;
  attempts : list (string * Z);
  known_starts : list (string * TransportAttemptEvent);
  closed : list string
}.

Definition check_event (s : ConsistencyState) (e : TransportAttemptEvent) : result JournalError ConsistencyState :=
  _ ← require (negb (includes (eid e) (seen_ids s))) (duplicate_event (eid e));
  let ids := eid e :: seen_ids s in
  match detail (unsigned e) with
  | started _ _ _ supports retry =>
      _ ← require (set_size supports =? Z.of_nat (length supports)) (repeated_support (eid e));
      let expected := default 0 (map_get (observation e) (attempts s)) + 1 in
      let seq := attempt_sequence (reference (unsigned e)) in
      _ ← require (seq =? expected) (non_sequential (observation e));
      _ ← require (Bool.eqb retry (1 <? seq)) (invalid_retry (observation e));
      Ok (mkConsistency ids (map_set (observation e) expected (attempts s))
            (map_set (eid e) e (known_starts s)) (closed s))
  | succeeded sid _ _ _ _ _ _ | failed sid _ _ _ | interrupted sid _ =>
      match map_get sid (known_starts s) with
      | None => Throw (invalid_terminal (eid e))
      | Some start =>
          _ ← require (negb (includes sid (closed s))) (invalid_terminal (eid e));
          _ ← require (bool_decide (reference (unsigned start) = reference (unsigned e))) (terminal_mismatch (eid e));
          Ok (mkConsistency ids (attempts s) (known_starts s) (sid :: closed s))
      end
  end.

Definition no_events : ConsistencyState := mkConsistency [] [] [] [].

Definition assertInternalConsistency (j : list TransportAttemptEvent) : result JournalError ConsistencyState :=
  fold_result check_event no_events j.

(** ** The consistency check, event by event *)

(** What the state of the check says of the events checked. *)
Record checked (j : list TransportAttemptEvent) (s : ConsistencyState) : Prop := {
  ck_ids : NoDup (eid <$> j);
  ck_seen id : id ∈ seen_ids s <-> id ∈ eid <$> j;
  ck_attempts o : default 0 (map_get o (attempts s)) = Z.of_nat (length (startsFor j o));
  ck_starts id e : map_get id (known_starts s) = Some e <-> e ∈ j /\ is_started e = true /\ eid e = id;
  ck_closed id : id ∈ closed s <-> exists e, e ∈ j /\ started_id e = Some id;
  ck_count : length (closed s) = length (filter (fun e => is_started e = false) j);
  ck_once : NoDup (closed s);
  ck_known id : id ∈ closed s -> exists e, map_get id (known_starts s) = Some e
}.

Lemma started_id_None e : started_id e = None <-> is_started e = true.
Proof. unfold started_id, is_started. by destruct (detail (unsigned e)). Qed.

Lemma filter_snoc {A} (P : A -> Prop) `{!forall x, Decision (P x)} l x :
  filter P (l ++ [x]) = filter P l ++ if decide (P x) then [x] else [].
Proof. rewrite filter_app. simpl. rewrite filter_cons. by case_decide. Qed.

(** The outcome of [check_event]: a start, or the terminal of a known open start. *)
Lemma check_event_Ok s e s' :
  check_event s e = Ok s' <->
  eid e ∉ seen_ids s /\
  match started_id e with
  | None =>
      let n := default 0 (map_get (observation e) (attempts s)) + 1 in
      attempt_sequence (reference (unsigned e)) = n /\
      (forall p m i l r, detail (unsigned e) = started p m i l r -> NoDup l /\ r = (1 <? n)) /\
      s' = mkConsistency (eid e :: seen_ids s) (map_set (observation e) n (attempts s))
             (map_set (eid e) e (known_starts s)) (closed s)
  | Some sid =>
      exists start, map_get sid (known_starts s) = Some start /\ sid ∉ closed s /\
        reference (unsigned start) = reference (unsigned e) /\
        s' = mkConsistency (eid e :: seen_ids s) (attempts s) (known_starts s) (sid :: closed s)
  end.
Proof.
  unfold check_event, started_id. rewrite bind_Ok. setoid_rewrite require_Ok. setoid_rewrite negb_true_iff.
  setoid_rewrite includes_false.
  destruct (detail (unsigned e)) as [p m i l r|sid d p m r i o|sid d t c|sid d].
  { split.
    - intros (u & Hn & H). inv_result. apply Z.eqb_eq in Ha, Ha0. apply eqb_prop in Ha1. subst r.
      split; [done|]. split; [done|]. split; [|done]. intros p' m' i' l' r' [= <- <- <- <- <-].
      split; [by apply set_size_NoDup|]. by rewrite Ha0.
    - intros (Hn & Hseq & Hd & ->). exists tt. split; [done|].
      destruct (Hd p m i l r eq_refl) as [Hl ->]. rewrite (proj2 (set_size_NoDup l) Hl), Z.eqb_refl. simpl.
      by rewrite Hseq, Z.eqb_refl, eqb_reflx. }
  all: (split;
    [intros (u & Hn & H); split; [done|]; destruct (map_get sid (known_starts s)) as [start|] eqn:Hs; [|done];
     inv_result; apply includes_false in Ha; eauto 8
    |intros (Hn & start & Hs & Hc & Hr & ->); exists tt; split; [done|]; rewrite Hs;
     rewrite (proj2 (includes_false _ _) Hc), bool_decide_eq_true_2 by done; done]).
Qed.

Lemma elem_of_snoc {A} (x y : A) l : x ∈ l ++ [y] <-> x ∈ l \/ x = y.
Proof. by rewrite elem_of_app, list_elem_of_singleton. Qed.

(** The starts and the closed starts of one more event. *)
Lemma start_snoc (j : list TransportAttemptEvent) e id d :
  is_started e = false ->
  (d ∈ j ++ [e] /\ is_started d = true /\ eid d = id <-> d ∈ j /\ is_started d = true /\ eid d = id).
Proof.
  intros He. rewrite elem_of_snoc. split; [|tauto]. intros [[Hd| ->] [Hs Hi]]; [done|congruence].
Qed.

Lemma closed_snoc (j : list TransportAttemptEvent) e id :
  (exists d, d ∈ j ++ [e] /\ started_id d = Some id) <->
  started_id e = Some id \/ exists d, d ∈ j /\ started_id d = Some id.
Proof.
  setoid_rewrite elem_of_snoc. split.
  - intros (d & [Hd| ->] & Hs); eauto.
  - intros [Hs|(d & Hd & Hs)]; eauto.
Qed.

Lemma checked_snoc j s e s' : checked j s -> check_event s e = Ok s' -> checked (j ++ [e]) s'.
Proof.
  intros [Hids Hseen Hatt Hst Hcl Hct Hon Hkn] (Hnew & H)%check_event_Ok.
  rewrite Hseen in Hnew.
  assert (NoDup (eid <$> j ++ [e])) as Hids'.
  { rewrite fmap_app. apply NoDup_app. split; [done|]. split; [|apply NoDup_singleton].
    by intros id Hid ->%list_elem_of_singleton. }
  destruct (started_id e) as [sid|] eqn:Hsid.
  - destruct H as (start & Hstart & Hopen & Href & ->).
    assert (is_started e = false) as Hf.
    { destruct (is_started e) eqn:Hi; [|done]. apply started_id_None in Hi. congruence. }
    constructor; simpl; try done.
    + intros id. rewrite fmap_app, elem_of_cons, elem_of_app, Hseen. simpl. rewrite list_elem_of_singleton. tauto.
    + intros o. rewrite Hatt. unfold startsFor. rewrite filter_snoc, decide_False by (intros [? _]; congruence). by rewrite app_nil_r.
    + intros id d. by rewrite Hst, start_snoc.
    + intros id. rewrite elem_of_cons, Hcl, closed_snoc, Hsid.
      split; (intros [H|H]; [left; congruence|by right]).
    + rewrite filter_snoc, decide_True by done. rewrite length_app. simpl. lia.
    + by constructor.
    + intros id [->|Hid]%elem_of_cons; eauto.
  - destruct H as (Hseq & _ & ->). apply started_id_None in Hsid as Hs.
    constructor; simpl; try done.
    + intros id. rewrite fmap_app, elem_of_cons, elem_of_app, Hseen. simpl. rewrite list_elem_of_singleton. tauto.
    + intros o. rewrite map_get_set. unfold startsFor. rewrite filter_snoc. case_decide as Ho.
      * subst o. rewrite decide_True by done. rewrite length_app. simpl. rewrite Hatt. unfold startsFor. lia.
      * rewrite decide_False by (intros [_ ?]; congruence). rewrite app_nil_r. apply Hatt.
    + intros id d. rewrite map_get_set, elem_of_app, list_elem_of_singleton. case_decide as Hid.
      * subst id. split; [intros [= <-]; eauto|]. intros [[Hin| ->] [_ Hd]]; [|done].
        exfalso. apply Hnew. rewrite <- Hd. by apply list_elem_of_fmap_2.
      * rewrite Hst. split; [tauto|]. intros [[Hin| ->] [? Hd]]; [done|congruence].
    + intros id. rewrite Hcl, closed_snoc, Hsid. split; [by right|]. by intros [?|?].
    + rewrite filter_snoc, decide_False by congruence. by rewrite app_nil_r.
    + intros id [d Hd]%Hkn. rewrite map_get_set. case_decide; eauto.
Qed.

Lemma fold_result_snoc {Er A S} (f : S -> A -> result Er S) s l a :
  fold_result f s (l ++ [a]) = (s' ← fold_result f s l; f s' a).
Proof.
  revert s. induction l as [|b l IH]; intros s; simpl; [by destruct (f s a)|].
  destruct (f s b); simpl; [apply IH|done].
Qed.

Lemma consistent_checked j s : assertInternalConsistency j = Ok s -> checked j s.
Proof.
  unfold assertInternalConsistency. revert s. induction j as [|e j IH] using rev_ind; intros s H.
  - simpl in H. simplify_eq. constructor; simpl; try done; [constructor|..|constructor|].
    + intros id d. split; [done|]. by intros [?%not_elem_of_nil _].
    + intros id. split; [by intros ?%not_elem_of_nil|]. by intros (d & ?%not_elem_of_nil & _).
    + by intros id ?%not_elem_of_nil.
  - rewrite fold_result_snoc in H. inv_result. eapply checked_snoc; [by apply IH|done].
Qed.

(** ** The summary balances *)

Lemma length_filter_split {A} (P Q : A -> Prop) `{!forall x, Decision (P x), !forall x, Decision (Q x)} (l : list A) :
  (length (filter (fun x => P x /\ Q x) l) + length (filter (fun x => P x /\ ~ Q x) l) = length (filter P l))%nat.
Proof.
  induction l as [|x l IH]; [done|]. rewrite !filter_cons.
  repeat case_decide; try tauto; simpl; lia.
Qed.

Lemma terminalForStart_None j id : terminalForStart j id = None <-> ~ exists e, e ∈ j /\ started_id e = Some id.
Proof.
  unfold terminalForStart. induction j as [|e j IH]; simpl.
  - split; [|done]. intros _ (d & Hd%not_elem_of_nil & _). done.
  - case_bool_decide as He.
    + split; [done|]. intros Hn. exfalso. apply Hn. exists e. split; [left|done].
    + rewrite IH. setoid_rewrite elem_of_cons. naive_solver.
Qed.

Lemma fmap_filter_sublist {A B} (f : A -> B) (P : A -> Prop) `{!forall x, Decision (P x)} l :
  f <$> filter P l `sublist_of` f <$> l.
Proof. induction l as [|x l IH]; [done|]. rewrite filter_cons. case_decide; csimpl; by constructor. Qed.

Lemma open_and_closed j s :
  checked j s ->
  (length (closed s) + length (openStarts j) = length (filter (fun e => is_started e = true) j))%nat.
Proof.
  intros [Hids Hseen Hatt Hst Hcl Hct Hon Hkn].
  rewrite <- (length_filter_split (fun e => is_started e = true) (fun e => eid e ∈ closed s) j). f_equal.
  - rewrite <- (length_fmap eid (filter _ j)). apply Permutation_length, NoDup_Permutation; [done| |].
    + eapply sublist_NoDup; [exact Hids|]. apply fmap_filter_sublist.
    + intros id. rewrite list_elem_of_fmap. split.
      * intros Hid. destruct (Hkn id Hid) as [e (Hin & He & Hei)%Hst]. exists e. split; [done|].
        apply list_elem_of_filter. by rewrite Hei.
      * intros (e & -> & [[_ He] _]%list_elem_of_filter). done.
  - f_equal. unfold openStarts. apply list_filter_iff. intros e. by rewrite terminalForStart_None, Hcl.
Qed.

Lemma kinds_of_terminals j :
  Z.of_nat (length (filter (fun e => is_started e = false) j)) =
    count is_succeeded (filter (fun e => is_started e = false) j) +
    count is_failed (filter (fun e => is_started e = false) j) +
    count is_interrupted (filter (fun e => is_started e = false) j).
Proof.
  unfold count. induction j as [|e j IH]; [done|]. rewrite filter_cons.
  destruct (decide (is_started e = false)) as [He|He]; [|exact IH]. rewrite !filter_cons. revert He.
  unfold is_started, is_succeeded, is_failed, is_interrupted in *.
  destruct (detail (unsigned e)); intros He; try done; repeat case_decide; try done; simpl; lia.
Qed.

Definition is_retry (e : TransportAttemptEvent) : bool :=
  match detail (unsigned e) with started _ _ _ _ r => r | _ => false end.

Lemma set_size_snoc {A} `{EqDecision A} (l : list A) x :
  set_size (l ++ [x]) = set_size l + if bool_decide (x ∈ l) then 0 else 1.
Proof.
  unfold set_size. assert (set_of (l ++ [x]) ≡ₚ set_of l ++ if bool_decide (x ∈ l) then [] else [x]) as ->.
  { apply NoDup_Permutation; [apply set_of_NoDup| |].
    - case_bool_decide as Hx; [rewrite app_nil_r; apply set_of_NoDup|].
      apply NoDup_app. split; [apply set_of_NoDup|]. split; [|apply NoDup_singleton].
      intros y Hy Hyx. apply list_elem_of_singleton in Hyx as ->. by rewrite elem_of_set_of in Hy.
    - intros y. rewrite elem_of_set_of, !elem_of_app, elem_of_set_of, list_elem_of_singleton.
      case_bool_decide as Hx; [|by rewrite list_elem_of_singleton].
      split; [intros [?| ->]; by left|]. intros [?|?%not_elem_of_nil]; [by left|done]. }
  rewrite length_app. case_bool_decide; simpl; lia.
Qed.

Lemma retries j s :
  assertInternalConsistency j = Ok s ->
  Z.of_nat (length (filter (fun e => is_started e = true) j)) -
    set_size (observation <$> filter (fun e => is_started e = true) j) = count is_retry j.
Proof.
  unfold assertInternalConsistency. revert s. induction j as [|e j IH] using rev_ind; intros s H; [done|].
  rewrite fold_result_snoc in H. apply bind_Ok in H as (s0 & H0 & H). specialize (IH s0 H0).
  apply consistent_checked in H0. apply check_event_Ok in H as [_ H]. unfold count in *. rewrite !filter_snoc.
  destruct (decide (is_started e = true)) as [He|He].
  - rewrite (proj2 (started_id_None e) He) in H. destruct H as (Hseq & Hd & _).
    rewrite fmap_app. csimpl. rewrite set_size_snoc, !length_app. simpl.
    assert (bool_decide (observation e ∈ observation <$> filter (fun e => is_started e = true) j) = is_retry e) as ->.
    { unfold is_retry. unfold is_started in He. destruct (detail (unsigned e)) as [p m i l r| | |] eqn:Hde; try done.
      destruct (Hd p m i l r eq_refl) as [_ ->]. rewrite (ck_attempts j s0 H0).
      apply eq_bool_prop_intro. rewrite bool_decide_spec, Is_true_true, Z.ltb_lt. unfold startsFor. split.
      - intros (d & Ho & [Hs Hin]%list_elem_of_filter)%list_elem_of_fmap.
        assert (d ∈ filter (fun x => is_started x = true /\ observation x = observation e) j) as Hf
          by (by apply list_elem_of_filter).
        destruct (filter (fun x => is_started x = true /\ observation x = observation e) j);
          [by apply not_elem_of_nil in Hf|]. simpl. lia.
      - intros Hlt. destruct (filter (fun x => is_started x = true /\ observation x = observation e) j) as [|d l'] eqn:Hf;
          [simpl in Hlt; lia|]. assert (d ∈ d :: l') as Hin by left. rewrite <- Hf in Hin.
        apply list_elem_of_filter in Hin as [[Hs Ho] Hin]. apply list_elem_of_fmap. exists d. split; [done|].
        by apply list_elem_of_filter. }
    destruct (is_retry e); repeat case_decide; try done; simpl; lia.
  - rewrite app_nil_r. rewrite decide_False; [by rewrite app_nil_r|].
    unfold is_retry, is_started in *. by destruct (detail (unsigned e)).
Qed.

(** The books balance: in any journal that passes the consistency check every
    attempt is accounted for exactly once, as successful, failed, interrupted or still
    open, the retries counted are the starts marked as retries, and every observation
    attempted was attempted at least once. *)
Theorem summary_balance j s :
  assertInternalConsistency j = Ok s ->
  let t := summary j in
  transport_attempts t = successful_invocations t + failed_attempts t + interrupted_attempts t + open_attempts t /\
  retry_attempts t = count is_retry j /\
  transport_attempts t = observations_attempted t + retry_attempts t /\
  (forall o, attemptsFor j o = default 0 (map_get o (attempts s))).
Proof.
  intros Hok t. pose proof (retries j s Hok) as Hr. apply consistent_checked in Hok as Hc.
  pose proof (open_and_closed j s Hc) as Ho. pose proof (kinds_of_terminals j) as Hk.
  pose proof (ck_count j s Hc) as Hct. unfold t, summary. simpl. unfold count in *.
  split; [lia|]. split; [done|]. split; [lia|]. intros o. symmetry. by apply ck_attempts.
Qed.

(** ** Schemas *)

Section Journal.
Context (hash_event : UnsignedEvent -> string) (is_uuid is_datetime : string -> bool).

Definition digest : string -> bool := rtest (rx "^0x[0-9a-f]{64}$").
Definition sourceCommit : string -> bool := rtest (rx "^[0-9a-f]{40}$").
Definition nonempty (s : string) : bool := (0 <? String.length s)%nat.
Definition int_min (minimum n : Z) : bool := isSafeInteger n && (minimum <=? n).
Definition nullable {A} (f : A -> bool) (x : option A) : bool := match x with Some a => f a | None => true end.

Definition transportJournalBindingSchema (b : TransportJournalBinding) : bool :=
  nonempty (evaluation_set_id b) && sourceCommit (source_commit b) && digest (freeze_sha256 b) &&
  digest (corpus_file_sha256 b) && digest (logical_corpus_sha256 b).

Definition eventBase (e : TransportAttemptEvent) : bool :=
  let u := unsigned e in
  let r := reference u in
  is_uuid (event_id u) && nullable digest (previous_event_sha256 u) && digest (event_sha256 e) &&
  transportJournalBindingSchema (binding u) && nonempty (observation_id r) && nonempty (case_id r) &&
  nonempty (configuration_id r) && int_min 1 (repetition r) && int_min 1 (attempt_sequence r) &&
  is_uuid (cycle_id r) && (int_min 1 (cycle_attempt r) && (cycle_attempt r <=? 3)) && is_datetime (recorded_at u).

Definition terminalBase (started_event_id : string) (duration : Z) : bool :=
  is_uuid started_event_id && int_min 0 duration.

Definition transportAttemptEventSchema (e : TransportAttemptEvent) : bool :=
  eventBase e &&
  match detail (unsigned e) with
  | started provider model input _ _ => nonempty provider && nonempty model && digest input
  | succeeded s d provider model _ i o =>
      terminalBase s d && nonempty provider && nonempty model && nullable (int_min 0) i && nullable (int_min 0) o
  | failed s d _ _ => terminalBase s d
  | interrupted s d => terminalBase s d
  end.

(** ** Opening *)

Record LoadState := mkLoad { loaded : list TransportAttemptEvent; previousDigest : option string }.

Definition load_line (b : TransportJournalBinding) (s : LoadState) (p : nat * Line TransportAttemptEvent) : result JournalError LoadState :=
  let '(index, line) := p in
  match line with
  | blank _ => Ok s
  | garbage => Throw (invalid_line (S index))
  | line_of e =>
      _ ← require (transportAttemptEventSchema e) (invalid_line (S index));
      _ ← require (bool_decide (binding (unsigned e) = b)) (binding_mismatch (S index));
      _ ← require (bool_decide (previous_event_sha256 (unsigned e) = previousDigest s)) (broken_chain (S index));
      _ ← require (String.eqb (event_sha256 e) (hash_event (unsigned e))) (invalid_digest (S index));
      Ok (mkLoad (loaded s ++ [e]) (Some (event_sha256 e)))
  end.

(** The constructor, then [initialize]. *)
Definition initialize (b : TransportJournalBinding) (f : File TransportAttemptEvent) : result JournalError TransportAttemptJournal :=
  _ ← require (transportJournalBindingSchema b) schema_error;
  s ← fold_result (load_line b) (mkLoad [] None) (imap pair (lines_of f));
  _ ← assertInternalConsistency (loaded s);
  Ok (mkJournal b (loaded s) f).

(** ** Appending *)

Definition makeEvent (j : TransportAttemptJournal) (id : string) (r : AttemptReference) (now : string)
    (d : EventDetail) : TransportAttemptEvent :=
  let u := mkUnsigned id (event_sha256 <$> last (events j)) (jbinding j) r now d in
  mkEvent u (hash_event u).

Definition appendEvent (j : TransportAttemptJournal) (e : TransportAttemptEvent) (w : WriteOutcome) :
    TransportAttemptJournal * result JournalError unit :=
  let f := append_line (file j) e w in
  match w with
  | written => (mkJournal (jbinding j) (events j ++ [e]) f, Ok tt)
  | _ => (mkJournal (jbinding j) (events j) f, Throw io_error)
  end.

(** [makeEvent], the schema and the append: the body of every queued operation. *)
Definition record_event (j : TransportAttemptJournal) (id : string) (r : AttemptReference) (now : string)
    (d : EventDetail) (w : WriteOutcome) : TransportAttemptJournal * result JournalError TransportAttemptEvent :=
  let e := makeEvent j id r now d in
  if negb (transportAttemptEventSchema e) then (j, Throw schema_error)
  else
    match appendEvent j e w with
    | (j, Ok _) => (j, Ok e)
    | (j, Throw err) => (j, Throw err)
    end.

(** [input_digest] is the digest of the model input, [supports] its support
    identifiers. *)
Definition beginAttempt (j : TransportAttemptJournal) (identity : TransportAttemptIdentity) (input_digest : string)
    (supports : list string) (cycleId : string) (cycleAttempt : Z) (id now : string) (w : WriteOutcome) :
    TransportAttemptJournal * result JournalError TransportAttemptEvent :=
  let starts := Z.of_nat (length (startsFor (events j) (id_observation_id identity))) in
  record_event j id
    (mkReference (id_observation_id identity) (id_case_id identity) (id_configuration_id identity)
       (id_repetition identity) (starts + 1) cycleId cycleAttempt)
    now (started (id_provider identity) (id_model identity) input_digest supports (0 <? starts)) w.

Definition completeSuccess (j : TransportAttemptJournal) (start : TransportAttemptEvent) (r : ModelResult)
    (durationMs : Z) (id now : string) (w : WriteOutcome) :
    TransportAttemptJournal * result JournalError TransportAttemptEvent :=
  record_event j id (reference (unsigned start)) now
    (succeeded (eid start) durationMs (mr_provider r) (mr_model r) (mr_responseId r) (mr_inputTokens r)
       (mr_outputTokens r)) w.

(** ** Errors of the transport

    An error is an object on a heap, reached through the [cause] of others; the chain
    of causes may be cyclic. *)

Inductive ErrorValue := primitive | object (address : nat).

Inductive ErrorClass := plain_error | sdk_timeout_error | sdk_connection_error.

Record ErrorObject := mkErrorObject {
  error_class : ErrorClass;
  error_name : option string;
  status : option Z;
  code : option string;
  cause : option ErrorValue
}.

Definition is_timeout_error (o : ErrorObject) : bool :=
  match error_class o with sdk_timeout_error => true | _ => false end ||
  bool_decide (error_name o = Some "APIConnectionTimeoutError"%string).

(** [instanceof]: a timeout error is a connection error. *)
Definition is_connection_error (o : ErrorObject) : bool :=
  match error_class o with plain_error => false | _ => true end ||
  bool_decide (error_name o = Some "APIConnectionError"%string).

Definition own_category (o : ErrorObject) : option ErrorCategory :=
  match status o with
  | Some 408 => Some http_408
  | Some 409 => Some http_409
  | Some 429 => Some http_429
  | s =>
      if match s with Some n => 500 <=? n | None => false end then Some http_5xx
      else if bool_decide (code o = Some "ECONNRESET"%string) then Some connection_reset
      else if bool_decide (code o = Some "ETIMEDOUT"%string) then Some timed_out
      else if bool_decide (code o = Some "EAI_AGAIN"%string) then Some dns_temporary
      else if bool_decide (code o = Some "ECONNREFUSED"%string) then Some connection_refused
      else None
  end.

(** The outer [None] is an exhausted fuel, the inner one the [null] of the source. *)
Fixpoint transientTransportCategory (fuel : nat) (heap : list ErrorObject) (visited : list nat) (v : ErrorValue) :
    option (option ErrorCategory) :=
  match fuel with
  | O => None
  | S fuel =>
      match v with
      | primitive => Some None
      | object a =>
          if includes a visited then Some None
          else
            match heap !! a with
            | None => Some None
            | Some o =>
                let nested :=
                  match cause o with
                  | None => Some None
                  | Some c => transientTransportCategory fuel heap (a :: visited) c
                  end in
                if is_timeout_error o then Some (Some timed_out)
                else if is_connection_error o then
                  c ← nested; Some (Some (default connection_error c))
                else
                  match own_category o with
                  | Some c => Some (Some c)
                  | None => nested
                  end
            end
      end
  end.

Definition category_of (heap : list ErrorObject) (v : ErrorValue) : option ErrorCategory :=
  default None (transientTransportCategory (S (length heap)) heap [] v).

Definition isTransientTransportError (heap : list ErrorObject) (v : ErrorValue) : bool :=
  match category_of heap v with Some _ => true | None => false end.

Definition transportErrorCategory (heap : list ErrorObject) (v : ErrorValue) : ErrorCategory :=
  default provider_error (category_of heap v).

Definition completeFailure (j : TransportAttemptJournal) (start : TransportAttemptEvent) (heap : list ErrorObject)
    (error : ErrorValue) (durationMs : Z) (id now : string) (w : WriteOutcome) :
    TransportAttemptJournal * result JournalError TransportAttemptEvent :=
  record_event j id (reference (unsigned start)) now
    (failed (eid start) durationMs (isTransientTransportError heap error) (transportErrorCategory heap error)) w.

(** One interruption: [elapsed] is [Date.now()] less the recorded start. *)
Definition interrupt (j : TransportAttemptJournal) (start : TransportAttemptEvent) (elapsed : Z) (id now : string)
    (w : WriteOutcome) : TransportAttemptJournal * result JournalError TransportAttemptEvent :=
  record_event j id (reference (unsigned start)) now (interrupted (eid start) (Z.max 0 elapsed)) w.

(** The loop of [markOpenAttemptsInterrupted]: identifier, elapsed time, time and write
    of each interruption in turn. *)
Fixpoint interrupt_all (j : TransportAttemptJournal) (open : list TransportAttemptEvent)
    (answers : list (string * Z * string * WriteOutcome)) : TransportAttemptJournal * result JournalError unit :=
  match open, answers with
  | start :: open, (id, elapsed, now, w) :: answers =>
      match interrupt j start elapsed id now w with
      | (j, Ok _) => interrupt_all j open answers
      | (j, Throw e) => (j, Throw e)
      end
  | _, _ => (j, Ok tt)
  end.

Definition markOpenAttemptsInterrupted (j : TransportAttemptJournal)
    (answers : list (string * Z * string * WriteOutcome)) : TransportAttemptJournal * result JournalError Z :=
  let open := openStarts (events j) in
  match interrupt_all j open answers with
  | (j, Ok _) => (j, Ok (Z.of_nat (length open)))
  | (j, Throw e) => (j, Throw e)
  end.

(** ** The journaled model *)

Record JournaledAssistantModel := mkModel {
  identity : TransportAttemptIdentity;
  model_cycleId : string;
  cycleAttempt : Z;
  lastResult : option ModelResult
}.

Inductive GenerateError := begin_failed (e : JournalError) | call_failed (error : ErrorValue) | recording_failed (e : JournalError).

(** What happens around one call: the begin, the answer of the delegate, the end. An
    error thrown by [completeSuccess] is caught and recorded too: [rethrown] is that
    error as an object of the heap. *)
Record CallAnswers := mkCallAnswers {
  begin_id : string; begin_now : string; begin_write : WriteOutcome;
  answer : result ErrorValue ModelResult;
  elapsed : Z;
  end_id : string; end_now : string; end_write : WriteOutcome;
  rethrown : ErrorValue;
  catch_id : string; catch_now : string; catch_write : WriteOutcome
}.

Definition generate (m : JournaledAssistantModel) (j : TransportAttemptJournal) (heap : list ErrorObject)
    (input_digest : string) (supports : list string) (a : CallAnswers) :
    JournaledAssistantModel * TransportAttemptJournal * result GenerateError ModelResult :=
  let m := mkModel (identity m) (model_cycleId m) (cycleAttempt m + 1) (lastResult m) in
  match beginAttempt j (identity m) input_digest supports (model_cycleId m) (cycleAttempt m)
          (begin_id a) (begin_now a) (begin_write a) with
  | (j, Throw e) => (m, j, Throw (begin_failed e))
  | (j, Ok start) =>
      let fail error id now w j :=
        match completeFailure j start heap error (elapsed a) id now w with
        | (j, Ok _) => (m, j, Throw (call_failed error))
        | (j, Throw e) => (m, j, Throw (recording_failed e))
        end in
      match answer a with
      | Throw error => fail error (end_id a) (end_now a) (end_write a) j
      | Ok r =>
          match completeSuccess j start r (elapsed a) (end_id a) (end_now a) (end_write a) with
          | (j, Ok _) => (mkModel (identity m) (model_cycleId m) (cycleAttempt m) (Some r), j, Ok r)
          | (j, Throw _) => fail (rethrown a) (catch_id a) (catch_now a) (catch_write a) j
          end
      end
  end.

(** ** Reconciliation with stored observations *)

Record TransportJournalObservation := mkObservation {
  obs_id : string;
  model_invoked : bool;
  obs_transport_attempts : Z;
  obs_response_id : option string;
  obs_provider : string;
  obs_model : string;
  obs_input_tokens : option Z;
  obs_output_tokens : option Z;
  obs_model_input_sha256 : option string;
  obs_presented_support_ids : list string
}.

Inductive ReconcileError :=
| journal_attempts (id : string) | does_not_reconcile (id : string) | provenance_differs (id : string)
| input_differs (id : string) | no_stored_observation (id : string) | missing_start.

(** [JSON.stringify] of lists of strings is injective, so the texts are compared as
    lists. *)
Definition reconcile_observation (j : list TransportAttemptEvent) (o : TransportJournalObservation) :
    result ReconcileError unit :=
  let starts := startsFor j (obs_id o) in
  let successes := filter (fun e => is_succeeded e = true) (terminalsFor j (obs_id o)) in
  if negb (model_invoked o) then require (bool_decide (starts = [])) (journal_attempts (obs_id o))
  else
    match bool_decide (Z.of_nat (length starts) = obs_transport_attempts o), successes with
    | true, [success] =>
        match detail (unsigned success) with
        | succeeded sid _ provider model response i out =>
            _ ← require (bool_decide (provider = obs_provider o) && bool_decide (model = obs_model o) &&
                         bool_decide (response = obs_response_id o) && bool_decide (i = obs_input_tokens o) &&
                         bool_decide (out = obs_output_tokens o)) (provenance_differs (obs_id o));
            match find (fun e => String.eqb (eid e) sid) starts with
            | Some start =>
                match detail (unsigned start) with
                | started _ _ input supports _ =>
                    require (bool_decide (Some input = obs_model_input_sha256 o) &&
                             bool_decide (supports = obs_presented_support_ids o)) (input_differs (obs_id o))
                | _ => Throw missing_start
                end
            | None => Throw missing_start
            end
        | _ => Throw (provenance_differs (obs_id o))
        end
    | _, _ => Throw (does_not_reconcile (obs_id o))
    end.

Definition assertReconciled (j : list TransportAttemptEvent) (observations : list TransportJournalObservation)
    (allow_unobserved_attempts : bool) : result ReconcileError unit :=
  _ ← for_each (reconcile_observation j) observations;
  for_each
    (fun start =>
       if negb (includes (observation start) (obs_id <$> observations)) && negb allow_unobserved_attempts then
         require (negb (match terminalForStart j (eid start) with Some t => is_succeeded t | None => false end))
           (no_stored_observation (eid start))
       else Ok tt)
    (filter (fun e => is_started e = true) j).

(** ** Reloading *)

(** The writes after which file and memory agree. *)
Definition clean_write (w : WriteOutcome) : Prop := w = written \/ w = not_written.

(** How the journal is used: an attempt begins under a fresh identifier with distinct
    supports; an open attempt is ended by a success, a failure or an interruption. *)
Inductive use (j : TransportAttemptJournal) : TransportAttemptJournal -> Prop :=
| use_begin identity dig supports cyc att id now w :
    id ∉ eid <$> events j -> NoDup supports -> clean_write w ->
    use j (beginAttempt j identity dig supports cyc att id now w).1
| use_success start r d id now w :
    start ∈ openStarts (events j) -> id ∉ eid <$> events j -> clean_write w ->
    use j (completeSuccess j start r d id now w).1
| use_failure start heap error d id now w :
    start ∈ openStarts (events j) -> id ∉ eid <$> events j -> clean_write w ->
    use j (completeFailure j start heap error d id now w).1
| use_interrupt start d id now w :
    start ∈ openStarts (events j) -> id ∉ eid <$> events j -> clean_write w ->
    use j (interrupt j start d id now w).1.

Definition load (b : TransportJournalBinding) (lines : list (Line TransportAttemptEvent)) : result JournalError LoadState :=
  fold_result (load_line b) (mkLoad [] None) (imap pair lines).

(** The journal in memory is what the ended lines of its file load as. *)
Record loads_as (j : TransportAttemptJournal) : Prop := {
  j_binding : transportJournalBindingSchema (jbinding j) = true;
  j_load : load (jbinding j) (ended_lines (file j)) = Ok (mkLoad (events j) (event_sha256 <$> last (events j)));
  j_consistent : exists s, assertInternalConsistency (events j) = Ok s
}.

Definition journal_ok (j : TransportAttemptJournal) : Prop := loads_as j /\ terminated (file j).

Lemma load_snoc b lines x :
  load b (lines ++ [x]) = (s ← load b lines; load_line b s (length lines, x)).
Proof. unfold load. rewrite imap_app. simpl. rewrite fold_result_snoc. by rewrite Nat.add_0_r. Qed.

Lemma load_previous b lines s : load b lines = Ok s -> previousDigest s = event_sha256 <$> last (loaded s).
Proof.
  revert s. induction lines as [|x lines IH] using rev_ind; intros s H; [by injection H as <-|].
  rewrite load_snoc in H. inv_result. specialize (IH _ Ha). destruct x; simpl in H; inv_result; [done|].
  simpl. by rewrite last_snoc.
Qed.

Lemma journal_ok_initialize j : journal_ok j -> initialize (jbinding j) (file j) = Ok j.
Proof.
  intros [[Hb Hl [s Hs]] Ht]. unfold initialize, lines_of. rewrite Hb, Ht. cbn [require mbind result_bind].
  fold (load (jbinding j) (ended_lines (file j) ++ [blank true])). rewrite load_snoc, Hl. simpl. rewrite Hs. by destruct j.
Qed.

Lemma initialize_ok b f j : initialize b f = Ok j -> jbinding j = b /\ file j = f /\ (terminated f -> journal_ok j).
Proof.
  unfold initialize. intros H. inv_result. split; [done|]. split; [done|]. intros Ht. split; [|done].
  fold (load b (lines_of f)) in Ha0. unfold lines_of in Ha0. rewrite load_snoc, Ht in Ha0.
  apply bind_Ok in Ha0 as (s & Hs & [= <-]). constructor; simpl; [done| |eauto].
  rewrite Hs. rewrite <- (load_previous _ _ _ Hs). by destruct s.
Qed.

(** A made event loads if it continues the chain. *)
Lemma load_made j id r now d s n :
  transportAttemptEventSchema (makeEvent j id r now d) = true ->
  load_line (jbinding j) s (n, line_of (makeEvent j id r now d)) =
    if bool_decide (event_sha256 <$> last (events j) = previousDigest s)
    then Ok (mkLoad (loaded s ++ [makeEvent j id r now d]) (Some (event_sha256 (makeEvent j id r now d))))
    else Throw (broken_chain (S n)).
Proof.
  intros Hsch. unfold load_line. rewrite Hsch. cbn [require mbind result_bind].
  rewrite (bool_decide_eq_true_2 (binding (unsigned (makeEvent j id r now d)) = jbinding j)) by done.
  cbn [require mbind result_bind].
  change (previous_event_sha256 (unsigned (makeEvent j id r now d))) with (event_sha256 <$> last (events j)).
  case_bool_decide; cbn [require mbind result_bind]; [|done].
  change (hash_event (unsigned (makeEvent j id r now d))) with (event_sha256 (makeEvent j id r now d)).
  by rewrite String.eqb_refl.
Qed.

(** One more consistent event keeps the journal loadable. *)
Lemma record_event_ok j id r now d w :
  journal_ok j -> clean_write w ->
  (forall s, checked (events j) s -> exists s', check_event s (makeEvent j id r now d) = Ok s') ->
  journal_ok (record_event j id r now d w).1.
Proof.
  intros [[Hb Hl [s Hs]] Ht] Hw Hc. unfold record_event.
  destruct (transportAttemptEventSchema (makeEvent j id r now d)) eqn:Hsch; simpl; [|by split; [constructor; eauto|]].
  destruct Hw as [->| ->]; simpl; [|by split; [constructor; eauto|]].
  split; [|done]. rewrite Ht. constructor; simpl; [done| |].
  - rewrite load_snoc, Hl. cbn [mbind result_bind]. rewrite load_made, bool_decide_eq_true_2 by done.
    by rewrite last_snoc.
  - destruct (Hc s (consistent_checked _ _ Hs)) as [s' Hs']. exists s'.
    unfold assertInternalConsistency in *. rewrite fold_result_snoc, Hs. done.
Qed.

Lemma begin_checks j identity dig supports cyc att id now s :
  checked (events j) s -> id ∉ eid <$> events j -> NoDup supports ->
  let n := Z.of_nat (length (startsFor (events j) (id_observation_id identity))) in
  exists s', check_event s
    (makeEvent j id
       (mkReference (id_observation_id identity) (id_case_id identity) (id_configuration_id identity)
          (id_repetition identity) (n + 1) cyc att) now
       (started (id_provider identity) (id_model identity) dig supports (0 <? n))) = Ok s'.
Proof.
  intros Hc Hid Hnd n. eexists. apply check_event_Ok. split; [by rewrite (ck_seen _ _ Hc)|]. simpl.
  unfold observation. simpl. rewrite (ck_attempts _ _ Hc). fold n. split; [done|]. split; [|done].
  intros p m i l r [= <- <- <- <- <-]. split; [done|]. destruct (Z.ltb_spec 0 n), (Z.ltb_spec 1 (n + 1)); lia || done.
Qed.

Lemma end_checks j start id now d s :
  checked (events j) s -> id ∉ eid <$> events j -> start ∈ openStarts (events j) ->
  (forall u h, started_id (mkEvent (mkUnsigned id u (jbinding j) (reference (unsigned start)) now d) h) = Some (eid start)) ->
  exists s', check_event s (makeEvent j id (reference (unsigned start)) now d) = Ok s'.
Proof.
  intros Hc Hid [[Hs Hopen] Hin]%list_elem_of_filter Hd. eexists. apply check_event_Ok.
  split; [by rewrite (ck_seen _ _ Hc)|]. unfold makeEvent. rewrite Hd.
  exists start. split; [by apply (ck_starts _ _ Hc)|]. split; [|done].
  rewrite (ck_closed _ _ Hc). by apply terminalForStart_None.
Qed.

Lemma use_ok j j' : use j j' -> journal_ok j -> journal_ok j' /\ jbinding j' = jbinding j /\ events j `prefix_of` events j'.
Proof.
  assert (forall id r now d w, jbinding (record_event j id r now d w).1 = jbinding j /\
    events j `prefix_of` events (record_event j id r now d w).1) as Hrec.
  { intros id r now d w. unfold record_event. destruct (negb _); simpl; [done|].
    destruct w; simpl; split; try done. by apply prefix_app_r. }
  intros Hu Hj. split; [|by destruct Hu; apply Hrec].
  destruct Hu; apply record_event_ok; try done; intros s Hc;
    [by apply begin_checks|by apply end_checks..].
Qed.

(** *** A missing newline *)

(** The journal was opened on the lines of a file, all of them but the last one ended. *)
Definition opened_on (f : File TransportAttemptEvent) (j : TransportAttemptJournal) : Prop :=
  transportJournalBindingSchema (jbinding j) = true /\ is_ok (load (jbinding j) (ended_lines f)) = true /\
  (file j = f \/ exists more, ended_lines (file j) = ended_lines f ++ [garbage] ++ more).

Lemma initialize_opened b f j : initialize b f = Ok j -> opened_on f j.
Proof.
  intros H. pose proof (initialize_ok _ _ _ H) as (<- & <- & _). revert H. unfold initialize.
  intros (u & Hb%require_Ok & (a & Ha & _)%bind_Ok)%bind_Ok. split; [done|]. split; [|by left].
  fold (load (jbinding j) (lines_of (file j))) in Ha. unfold lines_of in Ha. rewrite load_snoc in Ha.
  apply bind_Ok in Ha as (s & Hs & _). by rewrite Hs.
Qed.

Lemma append_glued (f : File TransportAttemptEvent) e w g :
  ~ terminated f -> clean_write w ->
  g = f \/ (exists more, ended_lines g = ended_lines f ++ [garbage] ++ more) ->
  append_line g e w = f \/ exists more, ended_lines (append_line g e w) = ended_lines f ++ [garbage] ++ more.
Proof.
  intros Hf [-> | ->]; [|done]. intros [-> |(more & Hm)]; right; simpl.
  - exists []. unfold glue, terminated in *. destruct (rest f) as [[]| |]; done.
  - rewrite Hm. exists (more ++ [glue (rest g) e]). by rewrite <- !app_assoc.
Qed.

Lemma opened_use f j j' : ~ terminated f -> use j j' -> opened_on f j -> opened_on f j' /\ jbinding j' = jbinding j.
Proof.
  intros Hf Hu (Hb & Hl & Hfile).
  assert (forall id r now d w, clean_write w -> jbinding (record_event j id r now d w).1 = jbinding j /\
    (file (record_event j id r now d w).1 = f \/
     exists more, ended_lines (file (record_event j id r now d w).1) = ended_lines f ++ [garbage] ++ more)) as Hrec.
  { intros id r now d w Hw. unfold record_event. destruct (negb _); simpl; [done|].
    pose proof (append_glued f (makeEvent j id r now d) w (file j) Hf Hw Hfile) as Ha. by destruct w. }
  assert (jbinding j' = jbinding j /\ (file j' = f \/ exists more, ended_lines (file j') = ended_lines f ++ [garbage] ++ more)) as [He Hfile'].
  { destruct Hu; by apply Hrec. }
  unfold opened_on. by rewrite He.
Qed.

Lemma load_garbage b lines more : is_ok (load b lines) = true -> load b (lines ++ [garbage] ++ more) = Throw (invalid_line (S (length lines))).
Proof.
  intros Hl. induction more as [|x more IH] using rev_ind.
  - rewrite app_nil_r, load_snoc. by destruct (load b lines).
  - by rewrite !app_assoc, load_snoc, <- !app_assoc, IH.
Qed.

(** C38. What is written can be read back: from a journal opened on any file that ends
    with a newline (or is empty), through any interleaving of attempts that begin under
    fresh identifiers and are ended once, whatever schema check or clean write failure
    occurs in between, opening the file again yields exactly the journal in memory; every
    event passes its schema, chain and digest checks, and nothing recorded is ever dropped.
    A file whose last line has lost its newline opens as well, but then the first event
    written to it makes it unreadable: opening it again fails. *)
Theorem journal_reload b f j0 j :
  initialize b f = Ok j0 -> rtc use j0 j ->
  (terminated f -> initialize b (file j) = Ok j /\ events j0 `prefix_of` events j) /\
  (~ terminated f -> file j = f \/ exists n, initialize b (file j) = Throw (invalid_line n)).
Proof.
  intros H0 Hr. pose proof (initialize_ok _ _ _ H0) as (<- & Hfile & Hok). split; intros Ht.
  - specialize (Hok Ht).
    assert (journal_ok j /\ jbinding j = jbinding j0 /\ events j0 `prefix_of` events j) as (Hj & <- & Hp).
    { clear Hfile H0. induction Hr as [|j1 j2 j3 H12 _ IH]; [done|]. destruct (use_ok _ _ H12 Hok) as (H2 & Hb & Hp).
      destruct (IH H2) as (H3 & Hb' & Hp'). split; [done|]. split; [congruence|]. by etrans. }
    split; [by apply journal_ok_initialize|done].
  - assert (opened_on f j0) as Hopen by (by eapply initialize_opened).
    assert (opened_on f j /\ jbinding j = jbinding j0) as [(Hb & Hl & [Hsame|(more & Hm)]) He]; [|by left|right].
    { clear Hfile H0 Hok. induction Hr as [|j1 j2 j3 H12 _ IH]; [done|].
      destruct (opened_use _ _ _ Ht H12 Hopen) as [H2 <-]. by apply IH. }
    exists (S (length (ended_lines f))). unfold initialize, lines_of. rewrite <- He, Hb, Hm. cbn [require mbind result_bind].
    fold (load (jbinding j) ((ended_lines f ++ [garbage] ++ more) ++ [rest (file j)])).
    by rewrite <- !app_assoc, load_garbage.
Qed.

(** A write whose [sync] or [close] fails is in the file and not in memory; the next
    event then continues the wrong chain and the file cannot be opened any more. *)
Lemma unacknowledged_write j id r now d id' r' now' d' j1 j2 e :
  journal_ok j -> record_event j id r now d written_but_failed = (j1, Throw io_error) ->
  record_event j1 id' r' now' d' written = (j2, Ok e) ->
  Some (event_sha256 (makeEvent j id r now d)) <> event_sha256 <$> last (events j) ->
  exists n, initialize (jbinding j) (file j2) = Throw (broken_chain n).
Proof.
  intros [[Hb Hl _] Ht] H1 H2 Hne. unfold record_event in *.
  destruct (transportAttemptEventSchema (makeEvent j id r now d)) eqn:Hs1; [|done]. simpl in H1. rewrite Ht in H1. injection H1 as <-.
  set (j1 := mkJournal (jbinding j) (events j) (mkFile (ended_lines (file j) ++ [line_of (makeEvent j id r now d)]) (blank true))) in *.
  change (mkJournal _ _ _) with j1 in H2.
  destruct (transportAttemptEventSchema (makeEvent j1 id' r' now' d')) eqn:Hs2; [|done]. simpl in H2. injection H2 as <- <-.
  exists (S (length (ended_lines (file j) ++ [line_of (makeEvent j id r now d)]))).
  unfold initialize, lines_of. rewrite Hb. cbn [file mbind result_bind require ended_lines rest].
  fold (load (jbinding j) (((ended_lines (file j) ++ [line_of (makeEvent j id r now d)]) ++ [line_of (makeEvent j1 id' r' now' d')]) ++ [blank true])).
  rewrite !load_snoc, Hl. cbn [mbind result_bind]. rewrite load_made, bool_decide_eq_true_2 by done.
  cbn [mbind result_bind]. rewrite (load_made j1), bool_decide_eq_false_2 by (try done; simpl; congruence). done.
Qed.

End Journal.

(** ** The error classification ends *)

Lemma NoDup_below (l : list nat) n : NoDup l -> Forall (fun x => (x < n)%nat) l -> (length l <= n)%nat.
Proof.
  intros Hnd Hall. assert (l ⊆+ List.seq 0 n) as H%submseteq_length.
  { apply NoDup_submseteq; [done|]. intros x Hx. rewrite Forall_forall in Hall.
    apply elem_of_seq. specialize (Hall _ Hx). lia. }
  by rewrite length_seq in H.
Qed.

Lemma category_ends fuel heap visited v :
  NoDup visited -> Forall (fun x => (x < length heap)%nat) visited -> (length heap < fuel + length visited)%nat ->
  exists c, transientTransportCategory fuel heap visited v = Some c /\ c <> Some provider_error /\
    forall more, (fuel <= more)%nat -> transientTransportCategory more heap visited v = Some c.
Proof.
  revert visited v. induction fuel as [|fuel IH]; intros visited v Hnd Hall Hf.
  { pose proof (NoDup_below _ _ Hnd Hall). lia. }
  assert (forall c, (forall more, (fuel <= more)%nat -> transientTransportCategory (S more) heap visited v = Some c) ->
    c <> Some provider_error ->
    exists c, transientTransportCategory (S fuel) heap visited v = Some c /\ c <> Some provider_error /\
      forall more, (S fuel <= more)%nat -> transientTransportCategory more heap visited v = Some c) as Hdone.
  { intros c Hc Hp. exists c. split; [by apply Hc|]. split; [done|]. intros [|more] Hm; [lia|]. apply Hc. lia. }
  destruct v as [|a]; [by apply (Hdone None)|].
  destruct (includes a visited) eqn:Ha; [by apply (Hdone None); [intros more _; simpl; rewrite Ha|]|].
  destruct (heap !! a) as [o|] eqn:Ho; [|by apply (Hdone None); [intros more _; simpl; rewrite Ha, Ho|]].
  assert (exists n, n <> Some provider_error /\ forall more, (fuel <= more)%nat ->
    match cause o with None => Some None | Some c => transientTransportCategory more heap (a :: visited) c end = Some n)
    as (n & Hn & Hnested).
  { destruct (cause o) as [c|]; [|by exists None]. apply includes_false in Ha.
    destruct (IH (a :: visited) c) as (n & _ & Hn & Hm); [by constructor| |simpl; lia|by exists n].
    constructor; [by eapply lookup_lt_Some|done]. }
  destruct (is_timeout_error o) eqn:Ht.
  { by apply (Hdone (Some timed_out)); [intros more _; simpl; rewrite Ha, Ho, Ht|]. }
  destruct (is_connection_error o) eqn:Hc.
  { apply (Hdone (Some (default connection_error n))); [intros more Hm; simpl; by rewrite Ha, Ho, Ht, Hc, Hnested|].
    destruct n; simpl; congruence. }
  destruct (own_category o) as [c|] eqn:How.
  - apply (Hdone (Some c)); [intros more _; simpl; by rewrite Ha, Ho, Ht, Hc, How|].
    unfold own_category in How. repeat case_match; congruence.
  - apply (Hdone n); [intros more Hm; simpl; by rewrite Ha, Ho, Ht, Hc, How, Hnested|done].
Qed.

(** Classifying an error ends on every heap of errors, cyclic chains of causes
    included: fuel for one more than the objects is always enough and more changes
    nothing; a transient category is never provider-error, so the recorded category is
    provider-error exactly for the failures recorded as final. *)
Theorem error_classification_ends heap v :
  (exists c, forall fuel, (length heap < fuel)%nat -> transientTransportCategory fuel heap [] v = Some c) /\
  (forall fuel, (length heap < fuel)%nat -> transientTransportCategory fuel heap [] v = Some (category_of heap v)) /\
  (transportErrorCategory heap v = provider_error <-> isTransientTransportError heap v = false).
Proof.
  destruct (category_ends (S (length heap)) heap [] v) as (c & Hc & Hp & Hm); [constructor|constructor|simpl; lia|].
  assert (category_of heap v = c) as Hcat by (unfold category_of; by rewrite Hc).
  split; [exists c; intros fuel Hf; apply Hm; lia|]. split; [intros fuel Hf; rewrite Hcat; apply Hm; lia|].
  unfold transportErrorCategory, isTransientTransportError. rewrite Hcat.
  destruct c as [c|]; simpl; [|done]. split; [intros ->; done|done].
Qed.

(** Resuming is allowed exactly while attempts remain in the budget. *)
Lemma can_resume_budget j o maximum :
  assertCanResumeObservation j o maximum = Ok tt <-> 0 < remainingAttemptBudget j o maximum.
Proof.
  unfold assertCanResumeObservation, remainingAttemptBudget.
  destruct (existsb is_succeeded _); simpl; [split; [done|lia]|].
  destruct (existsb is_interrupted _); simpl; [split; [done|lia]|].
  destruct (existsb is_final_failure _); simpl; [split; [done|lia]|].
  destruct (Z.leb_spec maximum (Z.of_nat (length (startsFor j o)))); simpl; split; (done || lia).
Qed.
(** ** A concrete journal *)

Module Sample.
Definition zero_digest : string := "0x0000000000000000000000000000000000000000000000000000000000000000".
Definition commit : string := "0000000000000000000000000000000000000000".
Definition sample_binding : TransportJournalBinding := mkBinding "set" commit zero_digest zero_digest zero_digest.
Definition hash (_ : UnsignedEvent) : string := zero_digest.
Definition any (_ : string) : bool := true.
Definition opened : TransportAttemptJournal := mkJournal sample_binding [] no_lines.
Definition who : TransportAttemptIdentity := mkIdentity "o1" "c1" "k1" 1 "provider" "model".

Definition begun : TransportAttemptJournal :=
  (beginAttempt hash any any opened who zero_digest ["s1"%string] "cycle" 1 "e1" "now" written).1.
Definition the_start : TransportAttemptEvent := default (makeEvent hash opened "" (mkReference "" "" "" 0 0 "" 0) "" (interrupted "" 0)) (last (events begun)).
Definition ended : TransportAttemptJournal :=
  (completeSuccess hash any any begun the_start (mkModelResult "provider" "model" None (Some 3) None) 5 "e2" "now" written).1.

Lemma sample_uses : rtc (use hash any any) opened ended.
Proof.
  eapply rtc_l.
  - apply (use_begin hash any any opened who zero_digest ["s1"%string] "cycle" 1 "e1" "now" written);
      [apply not_elem_of_nil|apply NoDup_singleton|by left].
  - eapply rtc_l; [|constructor].
    apply (use_success hash any any begun the_start); [left| |by left].
    intros H. vm_compute in H. apply list_elem_of_singleton in H. discriminate H.
Qed.

Lemma journal_reload_witness :
  initialize hash any any sample_binding no_lines = Ok opened /\ rtc (use hash any any) opened ended /\
  initialize hash any any sample_binding (file ended) = Ok ended /\ length (events ended) = 2%nat.
Proof.
  assert (initialize hash any any sample_binding no_lines = Ok opened) as H0 by (vm_compute; reflexivity).
  split; [exact H0|]. split; [exact sample_uses|]. split; [|vm_compute; reflexivity].
  exact (proj1 (proj1 (journal_reload hash any any sample_binding no_lines opened ended H0 sample_uses) eq_refl)).
Defined.

Definition final_state : ConsistencyState :=
  match assertInternalConsistency (events ended) with Ok s => s | Throw _ => no_events end.

Lemma summary_balance_witness :
  assertInternalConsistency (events ended) = Ok final_state /\
  transport_attempts (summary (events ended)) = 1 /\ successful_invocations (summary (events ended)) = 1 /\
  retry_attempts (summary (events ended)) = count is_retry (events ended).
Proof.
  assert (assertInternalConsistency (events ended) = Ok final_state) as H by (vm_compute; reflexivity).
  split; [exact H|]. split; [vm_compute; reflexivity|]. split; [vm_compute; reflexivity|].
  exact (proj1 (proj2 (summary_balance (events ended) final_state H))).
Defined.

(** A chain of causes that returns to its start. *)
Example cyclic_causes :
  category_of [mkErrorObject plain_error None None None (Some (object 1));
               mkErrorObject plain_error None None None (Some (object 0))] (object 0) = None.
Proof. reflexivity. Qed.
End Sample.
