(* ===== verification/Json.v ===== *)
(** * JavaScript values, canonical JSON and strict object schemas

    The values the program calls [unknown], the operators it applies to them, the
    canonical JSON of [src/src/protected-bundles/crypto/canonical.ts] and the object
    schemas ([z.object(...).strict()]) that untyped messages are parsed with.

    [canonicalize] is a package: its contract (RFC 8785) is the class [CanonicalJson].
    TextEncoder and TextDecoder are written out for strings of code units below 256,
    the strings of this development. *)

From S2P Require Import Prelude Regex Digits Decimal Base64 Schemas Storage.
From stdpp Require Import countable.

Local Open Scope Z_scope.

(** ** Values *)

(** [JNum] is an integer, [JFloat] any other number, by its decimal form. *)
Inductive json : Type :=
| JNull
| JBool (b : bool)
| JNum (n : Z)
| JFloat (digits : string)
| JStr (s : string)
| JArr (items : list json)
| JObj (fields : list (string * json)).

(** A [Record<string, unknown>] *)
Definition object := list (string * json).

Section JsonInd.
Context (P : json -> Prop).
Context (Hnull : P JNull) (Hbool : forall b, P (JBool b)) (Hnum : forall n, P (JNum n)).
Context (Hfloat : forall s, P (JFloat s)) (Hstr : forall s, P (JStr s)).
Context (Harr : forall l, Forall P l -> P (JArr l)).
Context (Hobj : forall fs, Forall (fun p => P p.2) fs -> P (JObj fs)).

Fixpoint json_ind' (v : json) : P v :=
  match v with
  | JNull => Hnull
  | JBool b => Hbool b
  | JNum n => Hnum n
  | JFloat s => Hfloat s
  | JStr s => Hstr s
  | JArr l =>
      Harr l ((fix go l : Forall P l :=
                 match l with
                 | [] => Forall_nil_2 _
                 | v :: l => Forall_cons_2 _ _ _ (json_ind' v) (go l)
                 end) l)
  | JObj fs =>
      Hobj fs ((fix go (l : list (string * json)) : Forall (fun p => P p.2) l :=
                  match l with
                  | [] => Forall_nil_2 _
                  | p :: l => Forall_cons_2 (fun p => P p.2) p l (json_ind' p.2) (go l)
                  end) fs)
  end.
End JsonInd.

(** [a === b], on what two separately built values hold: objects are compared by
    reference, so two of them are never equal. [None] is [undefined]. *)
Definition strict_equal (a b : option json) : bool :=
  match a, b with
  | None, None | Some JNull, Some JNull => true
  | Some (JBool x), Some (JBool y) => Bool.eqb x y
  | Some (JNum x), Some (JNum y) => x =? y
  | Some (JFloat x), Some (JFloat y) => String.eqb x y
  | Some (JStr x), Some (JStr y) => String.eqb x y
  | _, _ => false
  end.

(** [value[field]] of a [Record<string, unknown>] *)
Definition field (o : object) (name : string) : option json := map_get name o.

(** ** Canonical JSON *)

(** The order of keys is not part of a JSON object. *)
Fixpoint norm (v : json) : json :=
  match v with
  | JArr l => JArr (norm <$> l)
  | JObj fs => JObj (js_sort (fun p q => string_cmp p.1 q.1) ((fun p => (p.1, norm p.2)) <$> fs))
  | _ => v
  end.

(** Objects have no key twice. *)
Fixpoint json_wf (v : json) : Prop :=
  match v with
  | JArr l => foldr (fun v P => json_wf v /\ P) True l
  | JObj fs => NoDup fs.*1 /\ foldr (fun p P => json_wf p.2 /\ P) True fs
  | _ => True
  end.

(** RFC 8785: the text depends on the value up to the order of keys, determines it, and
    is JSON. *)
Class CanonicalJson := {
  canonicalJson : json -> string;
  JSON_parse : string -> option json;
  canonicalJson_spec v w : canonicalJson v = canonicalJson w <-> norm v = norm w;
  JSON_parse_canonical v : JSON_parse (canonicalJson v) = Some (norm v)
}.

(** UTF-8, on code points below 256 *)
Definition byte_of_code (n : Z) : Byte.byte := default Byte.x00 (Byte.of_N (Z.to_N n)).
Definition code_of_byte (b : Byte.byte) : Z := Z.of_N (Byte.to_N b).
Definition char_of_code (n : Z) : ascii := ascii_of_N (Z.to_N n).
Definition code_of_char (c : ascii) : Z := Z.of_N (N_of_ascii c).

(** [new TextEncoder().encode(s)] *)
Definition encode_char (c : ascii) : bytes :=
  let n := code_of_char c in
  if n <? 128 then [byte_of_code n] else [byte_of_code (192 + n / 64); byte_of_code (128 + n mod 64)].

Definition text_encode (s : string) : bytes := list_ascii_of_string s ≫= encode_char.

(** [new TextDecoder("utf-8", { fatal: true }).decode(bytes)]; code points from 256 on
    are not in the model's strings, so the model takes their text as undecodable. *)
Fixpoint decode_chars (b : bytes) : option (list ascii) :=
  match b with
  | [] => Some []
  | x :: b =>
      let n := code_of_byte x in
      if n <? 128 then cons (char_of_code n) <$> decode_chars b
      else
        match b with
        | y :: b =>
            let m := code_of_byte y in
            if ((n =? 194) || (n =? 195)) && (128 <=? m) && (m <? 192)
            then cons (char_of_code ((n - 192) * 64 + (m - 128))) <$> decode_chars b
            else None
        | [] => None
        end
  end.

#[global] Instance byte_eq_dec : EqDecision Byte.byte := Byte.byte_eq_dec.

(** A byte order mark at the start is dropped ([ignoreBOM] is [false]). *)
Definition BOM : bytes := [Byte.xef; Byte.xbb; Byte.xbf].

Definition strip_bom (b : bytes) : bytes :=
  if bool_decide (take 3 b = BOM) then drop 3 b else b.

Definition text_decode (b : bytes) : option string :=
  string_of_list_ascii <$> decode_chars (strip_bom b).

Section Canonical.
Context `{CanonicalJson}.

Definition canonicalJsonBytes (v : json) : bytes := text_encode (canonicalJson v).

Definition parseExactCanonicalJson (b : bytes) : option json :=
  text ← text_decode b;
  parsed ← JSON_parse text;
  if String.eqb (canonicalJson parsed) text then Some parsed else None.

(** [Buffer.from(left).equals(Buffer.from(right))] *)
Definition equalBytes (left right : bytes) : bool := bool_decide (left = right).

Definition canonicalBytesEqual (left right : json) : bool :=
  equalBytes (canonicalJsonBytes left) (canonicalJsonBytes right).
End Canonical.

(** ** Schemas *)

(** A field of [z.object]: its name and what it accepts. *)
Definition shape := list (string * (json -> bool)).

Definition z_string (p : string -> bool) (v : json) : bool :=
  match v with JStr s => p s | _ => false end.
Definition z_number (p : Z -> bool) (v : json) : bool :=
  match v with JNum n => p n | _ => false end.
Definition z_literal (s : string) : json -> bool := z_string (String.eqb s).
Definition z_enum (l : list string) : json -> bool := z_string (fun s => includes s l).

(** [z.object(shape).strict()]; a list with a key twice is no object. *)
Definition z_strict (sh : shape) (v : json) : bool :=
  match v with
  | JObj fs =>
      bool_decide (NoDup fs.*1) &&
      forallb (fun p => includes p.1 sh.*1) fs &&
      forallb (fun p => match map_get p.1 fs with Some x => p.2 x | None => false end) sh
  | _ => false
  end.

(** * Facts *)

(** ** Key order *)

#[local] Notation by_key := (fun p q : string * json => string_cmp p.1 q.1).

Lemma map_get_perm {V} (k : string) (m m' : list (string * V)) :
  map_ok m -> m ≡ₚ m' -> map_get k m = map_get k m'.
Proof.
  intros Hok Hp. assert (map_ok m') as Hok' by (unfold map_ok in *; by rewrite <- Hp).
  destruct (map_get k m) as [v|] eqn:Hg.
  - symmetry. apply elem_of_map_get; [done|]. rewrite <- Hp. by apply map_get_elem_of.
  - symmetry. apply map_get_None. rewrite <- Hp. by apply map_get_None.
Qed.

Lemma map_get_fmap {V W} (f : V -> W) (k : string) (m : list (string * V)) :
  map_get k ((fun p => (p.1, f p.2)) <$> m) = f <$> map_get k m.
Proof. induction m as [|[k' v] m IH]; csimpl; [done|]. by case_decide. Qed.

Lemma fmap_keys {V W} (f : V -> W) (m : list (string * V)) : ((fun p => (p.1, f p.2)) <$> m).*1 = m.*1.
Proof. by rewrite <- list_fmap_compose. Qed.

Definition norm_fields (fs : object) : object :=
  js_sort by_key ((fun p => (p.1, norm p.2)) <$> fs).

Lemma norm_object fs : norm (JObj fs) = JObj (norm_fields fs).
Proof. done. Qed.

Lemma norm_fields_get k fs : NoDup fs.*1 -> map_get k (norm_fields fs) = norm <$> map_get k fs.
Proof.
  intros Hnd. rewrite <- map_get_fmap. symmetry. apply map_get_perm.
  - unfold map_ok. by rewrite fmap_keys.
  - unfold norm_fields. by rewrite js_sort_perm.
Qed.

Lemma norm_fields_keys fs : (norm_fields fs).*1 ≡ₚ fs.*1.
Proof. unfold norm_fields. by rewrite js_sort_perm, fmap_keys. Qed.

(** Objects with the same canonical form have the same fields. *)
Lemma norm_same_fields fs gs k :
  NoDup fs.*1 -> NoDup gs.*1 -> norm (JObj fs) = norm (JObj gs) ->
  norm <$> field fs k = norm <$> field gs k.
Proof.
  rewrite !norm_object. intros Hf Hg [= He]. unfold field.
  by rewrite <- !norm_fields_get, He.
Qed.

(** A string or a number is its own canonical form. *)
Lemma norm_str v s : norm v = JStr s -> v = JStr s.
Proof. by destruct v. Qed.

Lemma norm_num v n : norm v = JNum n -> v = JNum n.
Proof. by destruct v. Qed.

(** ** UTF-8 *)

Lemma ascii_cases (P : ascii -> Prop) : (forall b0 b1 b2 b3 b4 b5 b6 b7, P (Ascii b0 b1 b2 b3 b4 b5 b6 b7)) ->
  forall c, P c.
Proof. intros H []. apply H. Qed.

Lemma decode_char c b : decode_chars (encode_char c ++ b) = cons c <$> decode_chars b.
Proof. revert c. apply ascii_cases. intros [] [] [] [] [] [] [] []; reflexivity. Qed.

Lemma encode_no_bom s : strip_bom (text_encode s) = text_encode s.
Proof.
  unfold strip_bom. rewrite bool_decide_false; [done|]. destruct s as [|c s]; [done|].
  unfold text_encode. simpl. revert c. apply ascii_cases.
  intros [] [] [] [] [] [] [] []; simpl; discriminate.
Qed.

Lemma decode_encode_chars l : decode_chars (l ≫= encode_char) = Some l.
Proof. induction l as [|c l IH]; [done|]. rewrite bind_cons, decode_char, IH. done. Qed.

Lemma text_decode_encode s : text_decode (text_encode s) = Some s.
Proof.
  unfold text_decode. rewrite encode_no_bom. unfold text_encode. rewrite decode_encode_chars.
  simpl. by rewrite string_of_list_ascii_of_string.
Qed.

Lemma text_encode_inj s t : text_encode s = text_encode t -> s = t.
Proof. intros H. apply (f_equal text_decode) in H. rewrite !text_decode_encode in H. by injection H. Qed.

Lemma decode_bom s : text_decode (BOM ++ text_encode s) = Some s.
Proof.
  unfold text_decode, strip_bom. rewrite bool_decide_true by done.
  change (drop 3 (BOM ++ text_encode s)) with (text_encode s). unfold text_encode. rewrite decode_encode_chars. simpl. by rewrite string_of_list_ascii_of_string.
Qed.

Lemma fmap_id_Forall {A} (f : A -> A) l : Forall (fun x => f x = x) l -> f <$> l = l.
Proof. induction 1 as [|x l Hx _ IH]; csimpl; [done|]. by rewrite Hx, IH. Qed.

Lemma norm_norm v : norm (norm v) = norm v.
Proof.
  induction v as [| | | | |l IH|fs IH] using json_ind'; [done..| |].
  - simpl. f_equal. apply fmap_id_Forall, Forall_fmap. exact IH.
  - rewrite norm_object, norm_object. f_equal. unfold norm_fields at 1.
    rewrite fmap_id_Forall; [apply js_sort_id, js_sort_sorted; apply _|].
    unfold norm_fields. rewrite js_sort_perm, Forall_fmap. revert IH. apply Forall_impl.
    intros [k v] Hv. simpl in *. by rewrite Hv.
Qed.

Section CanonicalFacts.
Context `{CanonicalJson}.

Lemma canonicalJsonBytes_inj v w : canonicalJsonBytes v = canonicalJsonBytes w <-> norm v = norm w.
Proof.
  rewrite <- canonicalJson_spec. unfold canonicalJsonBytes. split; [apply text_encode_inj|by intros ->].
Qed.

Lemma canonicalBytesEqual_true v w : canonicalBytesEqual v w = true <-> norm v = norm w.
Proof.
  unfold canonicalBytesEqual, equalBytes. by rewrite bool_decide_eq_true, canonicalJsonBytes_inj.
Qed.

(** Whether bytes decode to the canonical text of [v]: its UTF-8 form is one such. *)
Lemma parseExact_text b v :
  text_decode b = Some (canonicalJson v) -> parseExactCanonicalJson b = Some (norm v).
Proof.
  intros Hb. unfold parseExactCanonicalJson. rewrite Hb. simpl. rewrite JSON_parse_canonical. simpl.
  assert (canonicalJson (norm v) = canonicalJson v) as -> by (apply canonicalJson_spec, norm_norm).
  by rewrite String.eqb_refl.
Qed.

Lemma parseExact_canonical v : parseExactCanonicalJson (canonicalJsonBytes v) = Some (norm v).
Proof. apply parseExact_text, text_decode_encode. Qed.

(** What is accepted is the canonical text of the value returned. *)
Lemma parseExact_Some b v : parseExactCanonicalJson b = Some v -> text_decode b = Some (canonicalJson v).
Proof.
  unfold parseExactCanonicalJson. destruct (text_decode b) as [t|]; [|done]. simpl.
  destruct (JSON_parse t) as [w|]; [|done]. simpl.
  destruct (String.eqb_spec (canonicalJson w) t); [|done]. intros [= <-]. by subst.
Qed.
End CanonicalFacts.

(** ** Schemas *)

Lemma z_strict_spec sh v :
  z_strict sh v = true <->
  exists fs, v = JObj fs /\ NoDup fs.*1 /\ (forall k, k ∈ fs.*1 -> k ∈ sh.*1) /\
    (forall k f, (k, f) ∈ sh -> exists x, field fs k = Some x /\ f x = true).
Proof.
  unfold z_strict. destruct v as [| | | | | |fs]; try by split; [|intros (? & [=] & _)].
  rewrite !andb_true_iff, bool_decide_eq_true, !forallb_forall. setoid_rewrite <- list_elem_of_In. split.
  - intros [[Hnd Hk] Hf]. exists fs. split; [done|]. split; [done|]. split.
    + intros k (p & -> & Hp)%list_elem_of_fmap. specialize (Hk p Hp). by apply includes_true in Hk.
    + intros k f Hin. specialize (Hf (k, f) Hin). unfold field. simpl in Hf.
      destruct (map_get k fs) as [x|]; [eauto|done].
  - intros (fs' & [= <-] & Hnd & Hk & Hf). split; [split; [done|]|].
    + intros p Hp. apply includes_true, Hk. apply list_elem_of_fmap. eauto.
    + intros [k f] Hin. destruct (Hf k f Hin) as (x & Hx & Hfx). simpl. unfold field in Hx. by rewrite Hx.
Qed.

(** What a validator accepts it accepts in canonical form. *)
Definition stable (f : json -> bool) : Prop := forall v, f v = true -> f (norm v) = true.

Lemma stable_string p : stable (z_string p).
Proof. by intros []. Qed.

Lemma stable_number p : stable (z_number p).
Proof. by intros []. Qed.

Lemma stable_strict sh : Forall (fun p => stable p.2) sh -> stable (z_strict sh).
Proof.
  intros Hs v (fs & -> & Hnd & Hk & Hf)%z_strict_spec. rewrite norm_object. apply z_strict_spec.
  exists (norm_fields fs). split; [done|]. split; [by rewrite norm_fields_keys|]. split.
  - intros k. rewrite norm_fields_keys. apply Hk.
  - intros k f Hin. destruct (Hf k f Hin) as (x & Hx & Hfx). exists (norm x). unfold field in *.
    rewrite norm_fields_get, Hx by done. split; [done|]. rewrite Forall_forall in Hs. apply (Hs (k, f)); [by apply list_elem_of_In|done].
Qed.

Lemma stable_existsb {A} (f : A -> json -> bool) l :
  (forall a, stable (f a)) -> stable (fun v => existsb (fun a => f a v) l).
Proof. intros Hf v (a & Ha & Hv)%existsb_exists. apply existsb_exists. exists a. split; [done|]. by apply Hf. Qed.

Create HintDb schema.
#[export] Hint Resolve stable_string stable_number stable_strict : schema.

(** A field of an accepted object. *)
Lemma z_strict_field sh fs k f :
  z_strict sh (JObj fs) = true -> map_get k sh = Some f -> exists x, field fs k = Some x /\ f x = true.
Proof.
  intros (fs' & [= <-] & _ & _ & Hf)%z_strict_spec Hk. by apply Hf, map_get_elem_of.
Qed.

Lemma z_string_true p v : z_string p v = true <-> exists s, v = JStr s /\ p s = true.
Proof. split; [destruct v; naive_solver|by intros (s & -> & ?)]. Qed.

Lemma z_number_true p v : z_number p v = true <-> exists n, v = JNum n /\ p n = true.
Proof. split; [destruct v; naive_solver|by intros (s & -> & ?)]. Qed.

Lemma strict_equal_eq (a b : option json) : strict_equal a b = true -> a = b.
Proof.
  destruct a as [[]|], b as [[]|]; simpl; try done;
    rewrite ?Bool.eqb_true_iff, ?Z.eqb_eq, ?String.eqb_eq; by intros ->.
Qed.

Lemma strict_equal_str v s : strict_equal v (Some (JStr s)) = true <-> v = Some (JStr s).
Proof.
  destruct v as [[]|]; simpl; split; try done; [intros ->%String.eqb_eq; done|].
  intros [= ->]. by apply String.eqb_eq.
Qed.

Lemma strict_equal_num v n : strict_equal v (Some (JNum n)) = true <-> v = Some (JNum n).
Proof.
  destruct v as [[]|]; simpl; split; try done; [intros ->%Z.eqb_eq; done|].
  intros [= ->]. by apply Z.eqb_eq.
Qed.

(** ** A concrete encoding

    Any injective rendering of the sorted value has the contract of RFC 8785 that the
    class states: this one, by the countability of JSON values, is there to show that
    the hypotheses of the theorems can be met. *)

Module Sample.

Definition leaf := ((bool + Z) + string)%type.

Fixpoint to_tree (v : json) : gen_tree leaf :=
  match v with
  | JNull => GenNode 0 []
  | JBool b => GenLeaf (inl (inl b))
  | JNum n => GenLeaf (inl (inr n))
  | JFloat s => GenNode 1 [GenLeaf (inr s)]
  | JStr s => GenLeaf (inr s)
  | JArr l => GenNode 2 (to_tree <$> l)
  | JObj fs => GenNode 3 ((fun p => GenNode 4 [GenLeaf (inr p.1); to_tree p.2]) <$> fs)
  end.

Fixpoint of_tree (t : gen_tree leaf) : json :=
  match t with
  | GenLeaf (inl (inl b)) => JBool b
  | GenLeaf (inl (inr n)) => JNum n
  | GenLeaf (inr s) => JStr s
  | GenNode 1 [GenLeaf (inr s)] => JFloat s
  | GenNode 2 l => JArr (of_tree <$> l)
  | GenNode 3 l =>
      JObj ((fun t => match t with
                      | GenNode 4 [GenLeaf (inr k); t] => (k, of_tree t)
                      | _ => ("", JNull)
                      end) <$> l)
  | _ => JNull
  end.

Lemma of_to_tree v : of_tree (to_tree v) = v.
Proof.
  induction v as [| | | | |l IH|fs IH] using json_ind'; simpl; [done..| |]; f_equal;
    rewrite <- list_fmap_compose; apply fmap_id_Forall; [exact IH|].
  revert IH. apply Forall_impl. intros [k v] Hv. simpl in *. by rewrite Hv.
Qed.

(** A text for each node of the tree: strings end at a semicolon, a dot before a
    semicolon or a dot of the string itself; numbers are binary. *)
Fixpoint put_string (l : list ascii) : list ascii :=
  match l with
  | [] => [";"%char]
  | c :: l => if decide (c = ";"%char \/ c = "."%char) then "."%char :: c :: put_string l else c :: put_string l
  end.

Fixpoint get_string (l : list ascii) : list ascii * list ascii :=
  match l with
  | [] => ([], [])
  | a :: l =>
      if decide (a = ";"%char) then ([], l)
      else if decide (a = "."%char) then
        match l with c :: l => let '(s, r) := get_string l in (c :: s, r) | [] => ([], []) end
      else let '(s, r) := get_string l in (a :: s, r)
  end.

Lemma get_put_string s r : get_string (put_string s ++ r) = (s, r).
Proof.
  induction s as [|c s IH]; [by destruct r|]. cbn [put_string]. case_decide as H; cbn [app get_string].
  - rewrite decide_False, decide_True by done. by rewrite IH.
  - rewrite !decide_False by tauto. by rewrite IH.
Qed.

Fixpoint bits (p : positive) : list ascii :=
  match p with xH => [] | xO p => "0"%char :: bits p | xI p => "1"%char :: bits p end.

Fixpoint of_bits (l : list ascii) : positive :=
  match l with
  | [] => xH
  | c :: l => if decide (c = "0"%char) then xO (of_bits l) else xI (of_bits l)
  end.

Lemma of_to_bits p : of_bits (bits p) = p.
Proof. by induction p; simpl; f_equal. Qed.

Definition put_Z (z : Z) : list ascii :=
  match z with Z0 => ["z"%char] | Zpos p => "p"%char :: bits p | Zneg p => "m"%char :: bits p end.

Definition get_Z (l : list ascii) : Z :=
  match l with
  | c :: l => if decide (c = "p"%char) then Zpos (of_bits l) else if decide (c = "m"%char) then Zneg (of_bits l) else 0
  | [] => 0
  end.

Lemma get_put_Z z : get_Z (put_Z z) = z.
Proof. destruct z; simpl; by rewrite ?of_to_bits. Qed.

Definition token := (nat * nat + leaf)%type.

Definition put_token (t : token) : list ascii :=
  match t with
  | inl (len, n) => "N"%char :: put_string (put_Z (Z.of_nat len)) ++ put_string (put_Z (Z.of_nat n))
  | inr (inl (inl b)) => [if b then "t"%char else "f"%char]
  | inr (inl (inr z)) => "i"%char :: put_string (put_Z z)
  | inr (inr s) => "s"%char :: put_string (list_ascii_of_string s)
  end.

Definition get_token (l : list ascii) : option (token * list ascii) :=
  match l with
  | [] => None
  | c :: l =>
      if decide (c = "N"%char) then
        let '(a, l) := get_string l in
        let '(b, l) := get_string l in
        Some (inl (Z.to_nat (get_Z a), Z.to_nat (get_Z b)), l)
      else if decide (c = "i"%char) then let '(a, l) := get_string l in Some (inr (inl (inr (get_Z a))), l)
      else if decide (c = "s"%char) then let '(a, l) := get_string l in Some (inr (inr (string_of_list_ascii a)), l)
      else Some (inr (inl (inl (bool_decide (c = "t"%char)))), l)
  end.

Lemma get_put_token t r : get_token (put_token t ++ r) = Some (t, r).
Proof.
  destruct t as [[len n]|[[b|z]|s]]; unfold get_token; cbn [put_token app].
  - rewrite decide_True by done. by rewrite <- app_assoc, !get_put_string, !get_put_Z, !Nat2Z.id.
  - by destruct b.
  - rewrite decide_False, decide_True by done. by rewrite get_put_string, get_put_Z.
  - rewrite !decide_False, decide_True by done. by rewrite get_put_string, string_of_list_ascii_of_string.
Qed.

Fixpoint get_tokens (fuel : nat) (l : list ascii) : list token :=
  match fuel with
  | O => []
  | S fuel => match get_token l with Some (t, l) => t :: get_tokens fuel l | None => [] end
  end.

Lemma get_put_tokens ts fuel : (length ts < fuel)%nat -> get_tokens fuel (ts ≫= put_token) = ts.
Proof.
  revert fuel. induction ts as [|t ts IH]; intros [|fuel] Hf; simpl in Hf; try lia; [done|].
  rewrite bind_cons. cbn [get_tokens]. rewrite get_put_token. f_equal. apply IH. lia.
Qed.

Lemma tokens_length ts : (length ts <= length (ts ≫= put_token))%nat.
Proof.
  induction ts as [|t ts IH]; [simpl; lia|]. rewrite bind_cons, length_app. cbn [length].
  assert (1 <= length (put_token t))%nat by (destruct t as [[]|[[]|]]; simpl; lia). lia.
Qed.

Definition sample_canonicalJson (v : json) : string :=
  string_of_list_ascii (gen_tree_to_list (to_tree (norm v)) ≫= put_token).

Definition sample_parse (s : string) : option json :=
  let l := list_ascii_of_string s in
  of_tree <$> gen_tree_of_list [] (get_tokens (S (length l)) l).

Lemma sample_parse_text v : sample_parse (sample_canonicalJson v) = Some (norm v).
Proof.
  unfold sample_parse, sample_canonicalJson. rewrite list_ascii_of_string_of_list_ascii. cbv zeta.
  rewrite get_put_tokens by (pose proof (tokens_length (gen_tree_to_list (to_tree (norm v)))); lia).
  rewrite <- (app_nil_r (gen_tree_to_list _)), gen_tree_of_to_list. simpl. by rewrite of_to_tree.
Qed.

#[global] Program Instance sample_canonical : CanonicalJson :=
  {| canonicalJson := sample_canonicalJson; JSON_parse := sample_parse |}.
Next Obligation.
  intros v w. split; [|intros H; unfold sample_canonicalJson; by rewrite H].
  intros H. apply (f_equal sample_parse) in H. rewrite !sample_parse_text in H. by injection H.
Qed.
Next Obligation. apply sample_parse_text. Qed.
End Sample.
