(* ===== verification/Hex.v ===== *)
(** * Hexadecimal

    [buffer.toString("hex")], [Buffer.from(s, "hex")] and [BigInt(`0x${s}`)] on lower-case
    digits, and what the schemas of fixed-width hexadecimal text accept. *)

From S2P Require Import Prelude Regex Digits Base64 Schemas Storage Json.

Local Open Scope Z_scope.

Definition hex_digits : list ascii := list_ascii_of_string "0123456789abcdef".
Definition hex_char (n : Z) : ascii := nth (Z.to_nat n) hex_digits "0"%char.

(** Any digit, either case; [None] for another character. *)
Definition hex_val (c : ascii) : option Z :=
  let n := code_of_char c in
  if (48 <=? n) && (n <=? 57) then Some (n - 48)
  else if (97 <=? n) && (n <=? 102) then Some (n - 87)
  else if (65 <=? n) && (n <=? 70) then Some (n - 55)
  else None.

Definition is_hex (c : ascii) : Prop := cls_test false [("0"%char, "9"%char); ("a"%char, "f"%char)] c = true.

(** [BigInt(`0x${l}`)] *)
Definition hex_number (l : list ascii) : Z := fold_left (fun v c => 16 * v + default 0 (hex_val c)) l 0.

(** The [w] last digits of [n]. *)
Fixpoint number_hex (w : nat) (n : Z) : list ascii :=
  match w with
  | O => []
  | S w => number_hex w (n / 16) ++ [hex_char (n mod 16)]
  end.

Definition byte_hex (b : Byte.byte) : list ascii := number_hex 2 (code_of_byte b).

(** [buffer.toString("hex")] *)
Definition to_hex (b : bytes) : string := string_of_list_ascii (b ≫= byte_hex).

(** [Buffer.from(s, "hex")] stops at the first pair that is not hexadecimal. *)
Fixpoint hex_bytes (l : list ascii) : bytes :=
  match l with
  | c :: d :: l =>
      match hex_val c, hex_val d with
      | Some m, Some n => byte_of_code (16 * m + n) :: hex_bytes l
      | _, _ => []
      end
  | _ => []
  end.

Definition from_hex (s : string) : bytes := hex_bytes (list_ascii_of_string s).

(** ** Fixed-width numbers *)

Lemma hex_cases (P : Z -> Prop) : Forall P (Z.of_nat <$> List.seq 0 16) -> forall n, 0 <= n < 16 -> P n.
Proof.
  intros H n Hn. rewrite Forall_forall in H. apply H. apply list_elem_of_fmap.
  exists (Z.to_nat n). split; [lia|]. apply list_elem_of_In, in_seq. lia.
Qed.

Lemma hex_val_char n : 0 <= n < 16 -> hex_val (hex_char n) = Some n.
Proof. revert n. apply hex_cases. repeat (constructor; [reflexivity|]). constructor. Qed.

Lemma hex_char_is_hex n : 0 <= n < 16 -> is_hex (hex_char n).
Proof. revert n. apply hex_cases. repeat (constructor; [reflexivity|]). constructor. Qed.

Lemma hex_char_val c : is_hex c -> exists n, hex_val c = Some n /\ 0 <= n < 16 /\ hex_char n = c.
Proof.
  destruct c as [b0 b1 b2 b3 b4 b5 b6 b7].
  destruct b0, b1, b2, b3, b4, b5, b6, b7; intros H; vm_compute in H; try discriminate H;
    (eexists; split; [vm_compute; reflexivity|split; [lia|reflexivity]]).
Qed.

Lemma hex_number_snoc l c : hex_number (l ++ [c]) = 16 * hex_number l + default 0 (hex_val c).
Proof. unfold hex_number. by rewrite fold_left_app. Qed.

Lemma number_hex_length w n : length (number_hex w n) = w.
Proof. revert n; induction w as [|w IH]; intros n; simpl; [done|]. rewrite length_app, IH. simpl. lia. Qed.

Lemma number_hex_is_hex w n : Forall is_hex (number_hex w n).
Proof.
  revert n; induction w as [|w IH]; intros n; simpl; [done|]. apply Forall_app. split; [done|].
  apply Forall_singleton, hex_char_is_hex. apply Z.mod_pos_bound. lia.
Qed.

Lemma hex_number_of w n : 0 <= n < 16 ^ Z.of_nat w -> hex_number (number_hex w n) = n.
Proof.
  revert n; induction w as [|w IH]; intros n Hn; [simpl in Hn; cbn; lia|].
  cbn [number_hex]. rewrite hex_number_snoc, hex_val_char by (apply Z.mod_pos_bound; lia). simpl default.
  rewrite IH; [Z.div_mod_to_equations; lia|]. rewrite Nat2Z.inj_succ, Z.pow_succ_r in Hn by lia.
  split; [apply Z.div_pos; lia|apply Z.div_lt_upper_bound; lia].
Qed.

Lemma number_hex_of l : Forall is_hex l -> 
  0 <= hex_number l < 16 ^ Z.of_nat (length l) /\ number_hex (length l) (hex_number l) = l.
Proof.
  induction l as [|c l IH] using rev_ind; intros Hl; [by split|].
  apply Forall_app in Hl as [Hl Hc]. rewrite Forall_singleton in Hc. destruct (IH Hl) as [Hb He].
  apply hex_char_val in Hc as (d & Hd & Hdb & <-). rewrite hex_number_snoc, Hd, length_app. simpl default.
  change (length [hex_char d]) with 1%nat. rewrite Nat.add_1_r, Nat2Z.inj_succ, Z.pow_succ_r by lia.
  split; [lia|]. cbn [number_hex].
  replace ((16 * hex_number l + d) / 16) with (hex_number l) by (Z.div_mod_to_equations; lia).
  replace ((16 * hex_number l + d) mod 16) with d by (Z.div_mod_to_equations; lia). by rewrite He.
Qed.

(** ** Bytes *)

Lemma code_of_byte_bounds b : 0 <= code_of_byte b < 256.
Proof. unfold code_of_byte. pose proof (Byte.to_N_bounded b). lia. Qed.

Lemma byte_of_code_of_byte b : byte_of_code (code_of_byte b) = b.
Proof. unfold byte_of_code, code_of_byte. by rewrite N2Z.id, Byte.of_to_N. Qed.

Lemma code_of_byte_of_code n : 0 <= n < 256 -> code_of_byte (byte_of_code n) = n.
Proof.
  intros Hn. unfold byte_of_code, code_of_byte. destruct (Byte.of_N (Z.to_N n)) as [b|] eqn:Hb; simpl.
  - apply Byte.to_of_N in Hb. rewrite Hb. lia.
  - apply Byte.of_N_None_iff in Hb. lia.
Qed.

Lemma from_to_hex b : from_hex (to_hex b) = b.
Proof.
  unfold from_hex, to_hex. rewrite list_ascii_of_string_of_list_ascii.
  induction b as [|x b IH]; [done|]. rewrite bind_cons. unfold byte_hex at 1. cbn [number_hex app].
  pose proof (code_of_byte_bounds x). cbn [hex_bytes].
  rewrite !hex_val_char by (Z.div_mod_to_equations; lia). rewrite IH. f_equal.
  rewrite <- (byte_of_code_of_byte x) at 3. f_equal. Z.div_mod_to_equations. lia.
Qed.

(** ** Fixed-width text *)

Lemma rmatch_times_cls rs n l :
  rmatch (times n (RCls false rs)) l <-> length l = S n /\ Forall (fun c => cls_test false rs c = true) l.
Proof.
  revert l; induction n as [|n IH]; intros l; simpl times; [|rewrite rmatch_seq_iff];
    rewrite ?rmatch_cls_iff; split.
  - intros (c & -> & H). split; [done|]. by apply Forall_singleton.
  - intros [Hl H]. destruct l as [|c [|]]; try done. exists c. by apply Forall_cons in H as [].
  - intros (l1 & l2 & -> & (c & -> & H)%rmatch_cls_iff & [Hl H']%IH). simpl. split; [lia|].
    by constructor.
  - intros [Hl H]. destruct l as [|c l]; [done|]. apply Forall_cons in H as [Hc H].
    exists [c], l. split; [done|]. split; [by constructor|]. apply IH. split; [simpl in Hl; lia|done].
Qed.

Definition prefixed (a b : ascii) (n : nat) (rs : list (ascii * ascii)) : regex :=
  RSeq (RSeq (lit a) (lit b)) (times n (RCls false rs)).

Lemma lit_iff a l : rmatch (lit a) l <-> l = [a].
Proof.
  unfold lit. rewrite rmatch_cls_iff. unfold cls_test, in_range. simpl.
  setoid_rewrite orb_false_r. setoid_rewrite andb_true_iff. setoid_rewrite Nat.leb_le. split.
  - intros (c & -> & H1 & H2). rewrite <- (ascii_nat_embedding a), <- (ascii_nat_embedding c).
    do 2 f_equal. lia.
  - intros ->. by exists a.
Qed.

Lemma rtest_prefixed a b rs n s :
  rtest (prefixed a b n rs) s = true <->
  exists l, list_ascii_of_string s = a :: b :: l /\ length l = S n /\
    Forall (fun c => cls_test false rs c = true) l.
Proof.
  unfold prefixed. rewrite rtest_spec, rmatch_seq_iff. setoid_rewrite rmatch_seq_iff.
  setoid_rewrite lit_iff. setoid_rewrite rmatch_times_cls. split.
  - intros (? & l & -> & (? & ? & -> & -> & ->) & Hl). by exists l.
  - intros (l & -> & Hl). exists [a; b], l. split; [done|]. split; [|done]. by exists [a], [b].
Qed.

(** The texts [0x] and 64 digits are those of the numbers below [2^256]. *)
Definition hex32 (n : Z) : string := string_of_list_ascii ("0"%char :: "x"%char :: number_hex 64 n).

Lemma bytes32_re_eq :
  rx "^0x[0-9a-f]{64}$" =
  prefixed "0" "x" 63 [("0"%char, "9"%char); ("a"%char, "f"%char)].
Proof. vm_compute. reflexivity. Qed.

Lemma bytes32Hex_spec s : bytes32Hex s = true <-> exists n, 0 <= n < 2 ^ 256 /\ s = hex32 n.
Proof.
  unfold bytes32Hex. rewrite bytes32_re_eq, rtest_prefixed. split.
  - intros (l & Hs & Hl & Hf). exists (hex_number l). apply number_hex_of in Hf as [Hb He]. rewrite Hl in *.
    split; [exact Hb|]. unfold hex32. by rewrite He, <- Hs, string_of_list_ascii_of_string.
  - intros (n & Hn & ->). exists (number_hex 64 n). unfold hex32.
    rewrite list_ascii_of_string_of_list_ascii. split; [done|]. split; [apply number_hex_length|apply number_hex_is_hex].
Qed.
