(* ===== verification/Signatures.v ===== *)
(** * Signed proofs

    [src/src/protected-bundles/signatures/eip712.ts]: the verification of EIP-712 signed
    messages and the nonce stores, with the message schemas and typed-data profiles of
    [src/src/schemas/eip712.ts]. [ethers] (recovering the signer of typed data and
    hashing it) and SHA-256 are parameters. *)

From S2P Require Import Prelude Regex Digits Base64 Schemas Storage Json Hex.

Local Open Scope Z_scope.

(** ** Messages *)

Inductive ProtectedSignatureType :=
| DomainManifestAttestation | FinalizeProtectedBundle | ReplicateProtectedBundle
| KeyOperationAuthorization | KeyMaterialAcknowledgement.

#[global] Instance ProtectedSignatureType_eq_dec : EqDecision ProtectedSignatureType.
Proof. solve_decision. Defined.

Definition type_text (t : ProtectedSignatureType) : string :=
  match t with
  | DomainManifestAttestation => "DomainManifestAttestation"
  | FinalizeProtectedBundle => "FinalizeProtectedBundle"
  | ReplicateProtectedBundle => "ReplicateProtectedBundle"
  | KeyOperationAuthorization => "KeyOperationAuthorization"
  | KeyMaterialAcknowledgement => "KeyMaterialAcknowledgement"
  end.

Definition z_bytes32 : json -> bool := z_string bytes32Hex.
Definition z_uint256 : json -> bool := z_bytes32.
Definition z_address : json -> bool := z_string canonicalAddress.
Definition z_positive : json -> bool := z_number positiveSafeInteger.

Definition bytes32_fields (names : list string) : shape := (fun n => (n, z_bytes32)) <$> names.

Definition commonBundleFields : shape :=
  [("bundleId", z_bytes32); ("bundleVersion", z_positive); ("bundleType", z_bytes32);
   ("domainResourceId", z_bytes32); ("domainResourceVersion", z_positive)].

Definition proofWindowFields : shape :=
  [("nonce", z_uint256); ("issuedAt", z_positive); ("expiresAt", z_positive)].

Definition domainManifestAttestation : shape :=
  commonBundleFields ++
  [("authorBindingProfileId", z_bytes32); ("authorBindingProfileVersion", z_positive);
   ("domainPayloadCommitment", z_bytes32); ("signerActorId", z_bytes32);
   ("signerOrgId", z_bytes32); ("signerCredentialId", z_bytes32)] ++
  proofWindowFields.

Definition finalizeProtectedBundle : shape :=
  bytes32_fields ["commandId"; "stagingDescriptorDigest"; "domainManifestEnvelopeDigest"] ++
  commonBundleFields ++
  bytes32_fields ["controllerActorId"; "controllerOrgId"; "controllerCredentialId";
                  "contentCommitment"; "contentEnvelopeDigest"] ++
  [("storedEnvelopeLength", z_positive); ("contentSchemaBindingDigest", z_bytes32);
   ("encryptionProfileId", z_bytes32); ("encryptionProfileVersion", z_positive);
   ("criticalityProfileId", z_bytes32); ("criticalityProfileVersion", z_positive);
   ("initialCriticalityClass", z_bytes32); ("replicaPolicyDigest", z_bytes32)] ++
  proofWindowFields ++ [("idempotencyKeyHash", z_bytes32)].

Definition replicateProtectedBundle : shape :=
  [("commandId", z_bytes32)] ++ commonBundleFields ++
  bytes32_fields ["controllerActorId"; "controllerOrgId"; "controllerCredentialId"; "contentEnvelopeDigest"] ++
  [("storedEnvelopeLength", z_positive); ("criticalityProfileId", z_bytes32);
   ("criticalityProfileVersion", z_positive); ("replicaPolicyDigest", z_bytes32);
   ("replicaRepositoryId", z_bytes32)] ++
  proofWindowFields ++ [("idempotencyKeyHash", z_bytes32)].

Definition keyOperationAuthorizationMessage : shape :=
  [("authorizationId", z_bytes32); ("authorizationVersion", z_positive);
   ("issuerServiceActorId", z_bytes32); ("issuerServiceOrgId", z_bytes32);
   ("issuerServiceCredentialId", z_bytes32); ("issuerServiceAddress", z_address)] ++
  bytes32_fields ["repositoryId"; "operation"; "requestingActorId"; "requestingOrgId"; "requestingCredentialId"] ++
  commonBundleFields ++
  [("purposeId", z_bytes32); ("policyId", z_bytes32); ("policyVersion", z_positive);
   ("sourceAuthorityDigest", z_bytes32); ("operationContextDigest", z_bytes32)] ++
  proofWindowFields ++ [("idempotencyKeyHash", z_bytes32)].

Definition keyMaterialAcknowledgementMessage : shape :=
  [("acknowledgementId", z_bytes32); ("acknowledgementVersion", z_positive)] ++
  bytes32_fields ["signerActorId"; "signerOrgId"; "signerCredentialId"; "repositoryId"; "operation"] ++
  commonBundleFields ++
  bytes32_fields ["authorityId"; "envelopeId"; "encryptionKeyId"; "recipientKid";
                  "publicKeySpkiSha256"; "operationContextDigest"] ++
  proofWindowFields.

Definition message_shape (t : ProtectedSignatureType) : shape :=
  match t with
  | DomainManifestAttestation => domainManifestAttestation
  | FinalizeProtectedBundle => finalizeProtectedBundle
  | ReplicateProtectedBundle => replicateProtectedBundle
  | KeyOperationAuthorization => keyOperationAuthorizationMessage
  | KeyMaterialAcknowledgement => keyMaterialAcknowledgementMessage
  end.

(** ** Typed-data profiles *)

Record Eip712Profile := mkProfile712 {
  domainName : string;
  domainVersion : string;
  primaryType : string;
  profile_fields : list (string * string)
}.

Definition typed (type_ : string) (names : list string) : list (string * string) :=
  (fun n => (n, type_)) <$> names.

Definition bundleFields : list (string * string) :=
  [("bundleId", "bytes32"); ("bundleVersion", "uint64"); ("bundleType", "bytes32");
   ("domainResourceId", "bytes32"); ("domainResourceVersion", "uint64")].

Definition proofWindow : list (string * string) :=
  [("nonce", "uint256"); ("issuedAt", "uint64"); ("expiresAt", "uint64")].

Definition eip712Profiles (t : ProtectedSignatureType) : Eip712Profile :=
  match t with
  | DomainManifestAttestation =>
      mkProfile712 "EVLLM Domain Manifest" "1" "DomainManifestAttestation"
        (bundleFields ++
         [("authorBindingProfileId", "bytes32"); ("authorBindingProfileVersion", "uint64");
          ("domainPayloadCommitment", "bytes32"); ("signerActorId", "bytes32");
          ("signerOrgId", "bytes32"); ("signerCredentialId", "bytes32")] ++
         proofWindow)
  | FinalizeProtectedBundle =>
      mkProfile712 "EVLLM Protected Bundle Command" "1" "FinalizeProtectedBundle"
        (typed "bytes32" ["commandId"; "stagingDescriptorDigest"; "domainManifestEnvelopeDigest"] ++
         bundleFields ++
         typed "bytes32" ["controllerActorId"; "controllerOrgId"; "controllerCredentialId";
                          "contentCommitment"; "contentEnvelopeDigest"] ++
         [("storedEnvelopeLength", "uint64"); ("contentSchemaBindingDigest", "bytes32");
          ("encryptionProfileId", "bytes32"); ("encryptionProfileVersion", "uint64");
          ("criticalityProfileId", "bytes32"); ("criticalityProfileVersion", "uint64");
          ("initialCriticalityClass", "bytes32"); ("replicaPolicyDigest", "bytes32")] ++
         proofWindow ++ [("idempotencyKeyHash", "bytes32")])
  | ReplicateProtectedBundle =>
      mkProfile712 "EVLLM Protected Bundle Command" "1" "ReplicateProtectedBundle"
        ([("commandId", "bytes32")] ++ bundleFields ++
         typed "bytes32" ["controllerActorId"; "controllerOrgId"; "controllerCredentialId"; "contentEnvelopeDigest"] ++
         [("storedEnvelopeLength", "uint64"); ("criticalityProfileId", "bytes32");
          ("criticalityProfileVersion", "uint64"); ("replicaPolicyDigest", "bytes32");
          ("replicaRepositoryId", "bytes32")] ++
         proofWindow ++ [("idempotencyKeyHash", "bytes32")])
  | KeyOperationAuthorization =>
      mkProfile712 "EVLLM Key Operation Authorization" "1" "KeyOperationAuthorization"
        ([("authorizationId", "bytes32"); ("authorizationVersion", "uint64");
          ("issuerServiceActorId", "bytes32"); ("issuerServiceOrgId", "bytes32");
          ("issuerServiceCredentialId", "bytes32"); ("issuerServiceAddress", "address")] ++
         typed "bytes32" ["repositoryId"; "operation"; "requestingActorId"; "requestingOrgId";
                          "requestingCredentialId"] ++
         bundleFields ++
         [("purposeId", "bytes32"); ("policyId", "bytes32"); ("policyVersion", "uint64");
          ("sourceAuthorityDigest", "bytes32"); ("operationContextDigest", "bytes32")] ++
         proofWindow ++ [("idempotencyKeyHash", "bytes32")])
  | KeyMaterialAcknowledgement =>
      mkProfile712 "EVLLM Key Material Acknowledgement" "1" "KeyMaterialAcknowledgement"
        ([("acknowledgementId", "bytes32"); ("acknowledgementVersion", "uint64")] ++
         typed "bytes32" ["signerActorId"; "signerOrgId"; "signerCredentialId"; "repositoryId"; "operation"] ++
         bundleFields ++
         typed "bytes32" ["authorityId"; "envelopeId"; "encryptionKeyId"; "recipientKid";
                          "publicKeySpkiSha256"; "operationContextDigest"] ++
         proofWindow)
  end.

(** ** Nonce stores *)

Inductive SignatureError :=
| sig_authority | sig_domain | sig_expiry | sig_replay | sig_signature
| sig_zod        (* a [ZodError] *)
| sig_credential (* [credentialAt] threw *).

(** [Set<string>] of consumed scopes *)
Notation NonceStore := (list string).

Definition has (n : NonceStore) (scope : string) : bool := includes scope n.

Definition consume (n : NonceStore) (scope : string) : result SignatureError NonceStore :=
  _ ← require (negb (has n scope)) sig_replay; Ok (n ++ [scope]).

Definition rollback (n : NonceStore) (scope : string) : NonceStore := filter (fun s => s <> scope) n.

Definition nonceScope (t : ProtectedSignatureType) (credentialId nonce : string) : string :=
  (type_text t +:+ ":" +:+ credentialId +:+ ":" +:+ nonce)%string.

(** ** Verification *)

Record ProofDomain := mkDomain {
  chainId : Z; dom_name : string; verifyingContract : string; dom_version : string
}.

Record CredentialAcceptance := mkAcceptance { active : bool; validFrom : Z; validUntil : option Z }.

Inductive Mode :=
| execution (currentTime : Z) (nonceStore : NonceStore)
| external_execution (currentTime : Z)
| validation (currentTime : Z)
| historical (acceptanceTime : Z).

Record VerifyProofInput := mkVerify {
  credentialAt : string -> Z -> option CredentialAcceptance;
  domain : ProofDomain;
  expectedSignerAddress : string;
  maxLifetimeSeconds : Z;
  message : json;
  mode : Mode;
  signature : string;
  type : ProtectedSignatureType
}.

Record VerifiedProof := mkVerified {
  recoveredAddress : string; signatureDigest : string; typedDataDigest : string
}.

(** [verifyTypedData] and [TypedDataEncoder.hash] of ethers, on the domain, the types and
    the value; the first throws on a value or a signature it cannot use. *)
Class TypedData := {
  verifyTypedData : ProofDomain -> Eip712Profile -> object -> string -> option string;
  TypedDataEncoder_hash : ProofDomain -> Eip712Profile -> object -> string
}.

(** [createHash("sha256")] *)
Class Sha256 := {
  sha256 : bytes -> bytes;
  sha256_length b : length (sha256 b) = 32%nat
}.

(** A collision of two byte strings. Hashes have collisions, so what is proved is never
    "or SHA-256 collides somewhere": it is said of two strings the code itself hashes. *)
Definition collides `{Sha256} (a b : bytes) : Prop := a <> b /\ sha256 a = sha256 b.

(** [s.toLowerCase()], on code units below 256 *)
Definition lower_char (c : ascii) : ascii :=
  let n := code_of_char c in
  if ((65 <=? n) && (n <=? 90)) || ((192 <=? n) && (n <=? 222) && negb (n =? 215))
  then char_of_code (n + 32) else c.
Definition toLowerCase (s : string) : string :=
  string_of_list_ascii (lower_char <$> list_ascii_of_string s).

(** [s.slice(from, to)] for [0 <= from <= to] *)
Definition slice (from to_ : nat) (s : string) : string :=
  string_of_list_ascii (take (to_ - from) (drop from (list_ascii_of_string s))).
Definition slice_from (from : nat) (s : string) : string :=
  string_of_list_ascii (drop from (list_ascii_of_string s)).

Definition hex_of (s : string) : Z := hex_number (list_ascii_of_string s).

Definition SECP256K1_HALF_N : Z := 0x7fffffffffffffffffffffffffffffff5d576e7357a4501ddfe92f46681b20a0.

Definition validateCanonicalSignature (value : string) : result SignatureError string :=
  _ ← require (rtest (rx "^0x[0-9a-f]{130}$") value) sig_signature;
  let r := hex_of (slice 2 66 value) in
  let s := hex_of (slice 66 130 value) in
  let v := hex_of (slice 130 132 value) in
  _ ← require (negb ((r =? 0) || (s =? 0) || (SECP256K1_HALF_N <? s) || (negb (v =? 27) && negb (v =? 28))))
        sig_signature;
  Ok value.

Definition parseMessage (t : ProtectedSignatureType) (value : json) : result SignatureError object :=
  match value with
  | JObj fs => _ ← require (z_strict (message_shape t) value) sig_zod; Ok fs
  | _ => Throw sig_zod
  end.

Definition credentialField (t : ProtectedSignatureType) : string :=
  match t with
  | DomainManifestAttestation => "signerCredentialId"
  | FinalizeProtectedBundle | ReplicateProtectedBundle => "controllerCredentialId"
  | KeyOperationAuthorization => "issuerServiceCredentialId"
  | KeyMaterialAcknowledgement => "signerCredentialId"
  end.

Definition readSafeInteger (m : object) (name : string) : result SignatureError Z :=
  match field m name with
  | Some (JNum n) => _ ← require (positiveSafeInteger n) sig_zod; Ok n
  | _ => Throw sig_zod
  end.

Definition readString (m : object) (name : string) : result SignatureError string :=
  match field m name with Some (JStr s) => Ok s | _ => Throw sig_signature end.

(** [KeyOperationAuthorization] and [KeyMaterialAcknowledgement] end at [expiresAt], the
    other messages after it. *)
Definition exclusive_expiry (t : ProtectedSignatureType) : bool :=
  bool_decide (t = KeyOperationAuthorization) || bool_decide (t = KeyMaterialAcknowledgement).

Definition evaluationTime (m : Mode) : Z :=
  match m with
  | execution t _ | external_execution t | validation t => t
  | historical t => t
  end.

Definition expired (t : ProtectedSignatureType) (now expiresAt : Z) : bool :=
  if exclusive_expiry t then expiresAt <=? now else expiresAt <? now.

Definition accepts (c : CredentialAcceptance) (now : Z) : bool :=
  negb (negb (active c) || (now <? validFrom c) ||
        match validUntil c with Some u => u <? now | None => false end).

Section Verify.
Context {HSha : Sha256} {HTyped : TypedData}.

(** The nonce store after the call is returned next to the proof; it is the store of the
    [execution] mode, which no other mode has. *)
Definition verifyProtectedProof (input : VerifyProofInput) :
    result SignatureError (VerifiedProof * option NonceStore) :=
  let profile := eip712Profiles (type input) in
  _ ← require (negb (negb (String.eqb (dom_name (domain input)) (domainName profile)) ||
                     negb (String.eqb (dom_version (domain input)) (domainVersion profile)))) sig_domain;
  _ ← require (canonicalAddress (verifyingContract (domain input))) sig_zod;
  _ ← require (positiveSafeInteger (chainId (domain input))) sig_zod;
  _ ← require (canonicalAddress (expectedSignerAddress input)) sig_zod;
  message ← parseMessage (type input) (message input);
  issuedAt ← readSafeInteger message "issuedAt";
  expiresAt ← readSafeInteger message "expiresAt";
  _ ← require (negb ((expiresAt <=? issuedAt) || (maxLifetimeSeconds input <? expiresAt - issuedAt) ||
                     (maxLifetimeSeconds input <=? 0))) sig_expiry;
  let now := evaluationTime (mode input) in
  _ ← require (negb ((now <? issuedAt) || expired (type input) now expiresAt)) sig_expiry;
  credentialId ← readString message (credentialField (type input));
  credential ← defined (credentialAt input credentialId now) sig_credential;
  _ ← require (accepts credential now) sig_authority;
  signature ← validateCanonicalSignature (signature input);
  recovered ← defined (verifyTypedData (domain input) profile message signature) sig_signature;
  let recoveredAddress := toLowerCase recovered in
  _ ← require (String.eqb recoveredAddress (expectedSignerAddress input)) sig_signature;
  store ← match mode input with
          | execution currentTime nonceStore =>
              _ ← require (negb (currentTime <? issuedAt)) sig_expiry;
              nonce ← readString message "nonce";
              n ← consume nonceStore (nonceScope (type input) credentialId nonce);
              Ok (Some n)
          | _ => Ok None
          end;
  Ok (mkVerified recoveredAddress
        ("0x" +:+ to_hex (sha256 (from_hex (slice_from 2 signature))))%string
        (TypedDataEncoder_hash (domain input) profile message), store).
End Verify.

(** * Facts *)

(** ** Scopes *)

Lemma type_text_no_colon t : ":"%char ∉ list_ascii_of_string (type_text t).
Proof. apply includes_false. by destruct t. Qed.

Lemma type_text_inj t t' : type_text t = type_text t' -> t = t'.
Proof. by destruct t, t'. Qed.

Lemma first_separator_inj {A} (x : A) l1 l2 r1 r2 :
  x ∉ l1 -> x ∉ r1 -> l1 ++ x :: l2 = r1 ++ x :: r2 -> l1 = r1 /\ l2 = r2.
Proof.
  revert r1. induction l1 as [|a l1 IH]; intros [|b r1] Hl Hr He; simplify_eq/=; [done|..].
  - rewrite elem_of_cons in Hr. tauto.
  - rewrite elem_of_cons in Hl. tauto.
  - rewrite not_elem_of_cons in Hl, Hr. destruct (IH r1) as [-> ->]; tauto.
Qed.

Lemma bytes32_no_colon s : bytes32Hex s = true -> ":"%char ∉ list_ascii_of_string s.
Proof.
  intros (n & _ & ->)%bytes32Hex_spec. unfold hex32.
  rewrite list_ascii_of_string_of_list_ascii, !not_elem_of_cons. split; [done|]. split; [done|].
  intros H. pose proof (number_hex_is_hex 64 n) as Hf. rewrite Forall_forall in Hf. by apply Hf in H.
Qed.

(** Scopes of messages the schemas accept name the type, the credential and the nonce. *)
Lemma nonceScope_inj t t' c c' n n' :
  bytes32Hex c = true -> bytes32Hex c' = true -> nonceScope t c n = nonceScope t' c' n' ->
  t = t' /\ c = c' /\ n = n'.
Proof.
  intros Hc%bytes32_no_colon Hc'%bytes32_no_colon H.
  apply (f_equal list_ascii_of_string) in H. unfold nonceScope in H.
  rewrite !list_ascii_of_string_app in H. change (list_ascii_of_string ":") with [":"%char] in H.
  rewrite <- ?app_assoc in H. cbn [app] in H.
  apply first_separator_inj in H as [Ht H]; [|apply type_text_no_colon..].
  apply first_separator_inj in H as [He Hn]; [|done..].
  apply list_ascii_of_string_inj in Ht, He, Hn. by apply type_text_inj in Ht.
Qed.

(** ** Signatures *)

Definition SECP256K1_N : Z := 2 * SECP256K1_HALF_N + 1.

(** The 65 bytes of [(r, s, v)] *)
Definition signature_text (r s v : Z) : string :=
  string_of_list_ascii ("0"%char :: "x"%char :: number_hex 64 r ++ number_hex 64 s ++ number_hex 2 v).

Lemma signature_re_eq :
  rx "^0x[0-9a-f]{130}$" = prefixed "0" "x" 129 [("0"%char, "9"%char); ("a"%char, "f"%char)].
Proof. vm_compute. reflexivity. Qed.

Lemma slice_parts a b (p q r : list ascii) :
  length p = 64%nat -> length q = 64%nat -> length r = 2%nat ->
  let t := string_of_list_ascii (a :: b :: p ++ q ++ r) in
  hex_of (slice 2 66 t) = hex_number p /\ hex_of (slice 66 130 t) = hex_number q /\
  hex_of (slice 130 132 t) = hex_number r.
Proof.
  intros Hp Hq Hr t. unfold hex_of, slice, t. rewrite !list_ascii_of_string_of_list_ascii.
  replace (drop 130 (a :: b :: p ++ q ++ r)) with r.
  2: { rewrite app_assoc. simpl. rewrite drop_app_length' by (rewrite length_app; lia). done. }
  replace (drop 66 (a :: b :: p ++ q ++ r)) with (q ++ r).
  2: { simpl. by rewrite drop_app_length' by lia. }
  change (drop 2 (a :: b :: p ++ q ++ r)) with (p ++ q ++ r).
  change (66 - 2)%nat with 64%nat. change (130 - 66)%nat with 64%nat. change (132 - 130)%nat with 2%nat.
  by rewrite (take_app_length' p), (take_app_length' q), (take_ge r) by lia.
Qed.

Lemma canonical_signature_spec value out :
  validateCanonicalSignature value = Ok out <->
  out = value /\ exists r s v, value = signature_text r s v /\ 0 < r < 2 ^ 256 /\
    0 < s <= SECP256K1_HALF_N /\ (v = 27 \/ v = 28).
Proof.
  unfold validateCanonicalSignature. rewrite signature_re_eq. split.
  - intros H. inv_result. apply rtest_prefixed in Ha as (l & Hv & Hl & Hf).
    assert (exists p q r, l = p ++ q ++ r /\ length p = 64%nat /\ length q = 64%nat /\ length r = 2%nat)
      as (p & q & r & -> & Hp & Hq & Hr).
    { exists (take 64 l), (take 64 (drop 64 l)), (drop 128 l). rewrite !length_take, !length_drop.
      split; [|lia]. rewrite <- (take_drop 64 l) at 1. f_equal. rewrite <- (take_drop 64 (drop 64 l)) at 1.
      by rewrite drop_drop. }
    assert (out = string_of_list_ascii ("0"%char :: "x"%char :: p ++ q ++ r)) as Heq.
    { by rewrite <- Hv, string_of_list_ascii_of_string. }
    pose proof (slice_parts "0" "x" p q r Hp Hq Hr) as (Sp & Sq & Sr). rewrite <- Heq in Sp, Sq, Sr.
    rewrite Sp, Sq, Sr in *. rewrite !Forall_app in Hf. destruct Hf as (Fp & Fq & Fr).
    destruct (number_hex_of p Fp) as [Bp Ep], (number_hex_of q Fq) as [Bq Eq], (number_hex_of r Fr) as [Br Er].
    rewrite Hp in *. rewrite Hq in *. rewrite Hr in *.
    split; [done|]. exists (hex_number p), (hex_number q), (hex_number r).
    unfold signature_text. rewrite Ep, Eq, Er. split; [done|].
    destruct (Z.eqb_spec (hex_number r) 27), (Z.eqb_spec (hex_number r) 28); try discriminate;
    change (16 ^ Z.of_nat 64) with (2 ^ 256) in Bp; lia.
  - intros (-> & r & s & v & -> & Hr & Hs & Hv).
    assert (rtest (prefixed "0" "x" 129 [("0"%char, "9"%char); ("a"%char, "f"%char)]) (signature_text r s v) = true) as ->.
    { apply rtest_prefixed. eexists. unfold signature_text. rewrite list_ascii_of_string_of_list_ascii.
      split; [done|]. rewrite !length_app, !number_hex_length. split; [done|].
      rewrite !Forall_app. split; [|split]; apply number_hex_is_hex. }
    unfold mbind, result_bind. cbn [require]. pose proof (slice_parts "0" "x" (number_hex 64 r) (number_hex 64 s) (number_hex 2 v)
      (number_hex_length _ _) (number_hex_length _ _) (number_hex_length _ _)) as (Sp & Sq & Sr).
    fold (signature_text r s v) in Sp, Sq, Sr. rewrite Sp, Sq, Sr.
    assert (0 <= SECP256K1_HALF_N < 16 ^ Z.of_nat 64) as Hhalf by (vm_compute; split; congruence).
    rewrite !hex_number_of; [|destruct Hv; subst; vm_compute; split; congruence|lia|change (16 ^ Z.of_nat 64) with (2 ^ 256); lia].
    replace (r =? 0) with false by lia. replace (s =? 0) with false by lia.
    replace (SECP256K1_HALF_N <? s) with false by lia. by destruct Hv as [-> | ->].
Qed.

Lemma zstring_field (m : object) name p v :
  z_string p v = true -> field m name = Some v -> exists s, field m name = Some (JStr s) /\ p s = true.
Proof. intros (s & -> & Hs)%z_string_true Hf. eauto. Qed.

Lemma parseMessage_Ok t v m : parseMessage t v = Ok m <-> v = JObj m /\ z_strict (message_shape t) v = true.
Proof.
  destruct v as [| | | | | |fs]; try by split; [|intros [[=] _]].
  unfold parseMessage. split.
  - intros H. inv_result. done.
  - intros [[= <-] H]. by rewrite H.
Qed.

Lemma readSafeInteger_Ok m name n :
  readSafeInteger m name = Ok n <-> field m name = Some (JNum n) /\ positiveSafeInteger n = true.
Proof.
  unfold readSafeInteger. destruct (field m name) as [[]|]; split;
    try done; try by intros [[=] _]; try by intros [[=] ?].
  - intros H. by inv_result.
  - intros [[= ->] H]. by rewrite H.
Qed.

Lemma readString_Ok m name s : readString m name = Ok s <-> field m name = Some (JStr s).
Proof. unfold readString. destruct (field m name) as [[]|]; naive_solver. Qed.

Lemma consume_nonce_Ok n scope n' : consume n scope = Ok n' <-> scope ∉ n /\ n' = n ++ [scope].
Proof.
  unfold consume, has. destruct (includes scope n) eqn:Hi; simpl; split.
  - done.
  - intros [H _]. by apply includes_true in Hi.
  - intros [= <-]. by apply includes_false in Hi.
  - by intros [_ ->].
Qed.

Lemma rollback_consume n scope n' : consume n scope = Ok n' -> rollback n' scope = n.
Proof.
  intros [Hs ->]%consume_nonce_Ok. unfold rollback. rewrite filter_app, filter_cons_False by auto.
  rewrite filter_nil, app_nil_r. apply filter_all, Forall_forall. by intros s Hin ->.
Qed.

(** The credential and the nonce of an accepted message. *)
Lemma message_strings t m :
  z_strict (message_shape t) (JObj m) = true ->
  exists c n, field m (credentialField t) = Some (JStr c) /\ bytes32Hex c = true /\
              field m "nonce" = Some (JStr n) /\ bytes32Hex n = true.
Proof.
  intros H.
  assert (forall name, map_get name (message_shape t) = Some z_bytes32 ->
            exists s, field m name = Some (JStr s) /\ bytes32Hex s = true) as Hf.
  { intros name Hn. destruct (z_strict_field _ _ _ _ H Hn) as (x & Hx & Hv). by eapply zstring_field. }
  destruct (Hf (credentialField t)) as (c & ? & ?); [by destruct t|].
  destruct (Hf "nonce") as (n & ? & ?); [by destruct t|]. by exists c, n.
Qed.

(** ** What an accepted proof means *)

Record valid_window (t : ProtectedSignatureType) (issuedAt expiresAt lifetime now : Z) : Prop := {
  window_lifetime : 0 < expiresAt - issuedAt <= lifetime;
  window_start : issuedAt <= now;
  window_end : now <= expiresAt;
  window_exclusive : t = KeyOperationAuthorization \/ t = KeyMaterialAcknowledgement -> now < expiresAt
}.

Record acceptable (c : CredentialAcceptance) (now : Z) : Prop := {
  acc_active : active c = true;
  acc_from : validFrom c <= now;
  acc_until u : validUntil c = Some u -> now <= u
}.

Lemma accepts_spec c now : accepts c now = true <-> acceptable c now.
Proof.
  unfold accepts. rewrite negb_true_iff, !orb_false_iff, negb_false_iff. split.
  - intros [[Ha Hf] Hu]. split; [done|lia|]. intros u Hv. rewrite Hv in Hu. lia.
  - intros [Ha Hf Hu]. split; [split; [done|lia]|]. destruct (validUntil c) as [u|]; [|done].
    specialize (Hu u eq_refl). lia.
Qed.

Section Verified.
Context {HSha : Sha256} {HTyped : TypedData}.

(** The scope a verification consumes: that of the message's credential and nonce. *)
Definition message_scope (t : ProtectedSignatureType) (m : object) (scope : string) : Prop :=
  exists c n, field m (credentialField t) = Some (JStr c) /\ field m "nonce" = Some (JStr n) /\
    bytes32Hex c = true /\ scope = nonceScope t c n.

Record verified_message (input : VerifyProofInput) (m : object) : Prop := {
  vm_message : message input = JObj m;
  vm_schema : z_strict (message_shape (type input)) (JObj m) = true;
  vm_domain : dom_name (domain input) = domainName (eip712Profiles (type input)) /\
              dom_version (domain input) = domainVersion (eip712Profiles (type input));
  vm_configuration : canonicalAddress (verifyingContract (domain input)) = true /\
    positiveSafeInteger (chainId (domain input)) = true /\
    canonicalAddress (expectedSignerAddress input) = true;
  vm_window : exists issuedAt expiresAt,
    field m "issuedAt" = Some (JNum issuedAt) /\ field m "expiresAt" = Some (JNum expiresAt) /\
    valid_window (type input) issuedAt expiresAt (maxLifetimeSeconds input) (evaluationTime (mode input));
  vm_credential : exists c a,
    field m (credentialField (type input)) = Some (JStr c) /\
    credentialAt input c (evaluationTime (mode input)) = Some a /\
    acceptable a (evaluationTime (mode input));
  vm_signature : validateCanonicalSignature (signature input) = Ok (signature input);
  vm_signer : exists a,
    verifyTypedData (domain input) (eip712Profiles (type input)) m (signature input) = Some a /\
    toLowerCase a = expectedSignerAddress input
}.

Lemma exclusive_expiry_spec t :
  exclusive_expiry t = true <-> t = KeyOperationAuthorization \/ t = KeyMaterialAcknowledgement.
Proof. unfold exclusive_expiry. by rewrite orb_true_iff, !bool_decide_eq_true. Qed.

Lemma window_spec t issuedAt expiresAt lifetime now :
  valid_window t issuedAt expiresAt lifetime now <->
  negb ((expiresAt <=? issuedAt) || (lifetime <? expiresAt - issuedAt) || (lifetime <=? 0)) = true /\
  negb ((now <? issuedAt) || expired t now expiresAt) = true.
Proof.
  unfold expired. rewrite !negb_true_iff, !orb_false_iff. split.
  - intros [Hl Hs He Hx]. destruct (exclusive_expiry t) eqn:Ht;
      [assert (now < expiresAt) by by apply Hx, exclusive_expiry_spec|]; (split; [split; [split|]|split]); apply Z.leb_gt || apply Z.ltb_ge; lia.
  - intros [[[H1 H2] H3] [H4 H5]]. destruct (exclusive_expiry t) eqn:Hx; split; try lia.
    intros Ht%exclusive_expiry_spec. congruence.
Qed.

(** The nonce store an [execution] leaves. *)
Definition consumed (input : VerifyProofInput) (m : object) (store : option NonceStore) : Prop :=
  match mode input with
  | execution _ nonces =>
      exists scope, message_scope (type input) m scope /\ scope ∉ nonces /\ store = Some (nonces ++ [scope])
  | _ => store = None
  end.

Lemma verify_sound input p store :
  verifyProtectedProof input = Ok (p, store) ->
  exists m, verified_message input m /\ recoveredAddress p = expectedSignerAddress input /\ consumed input m store.
Proof.
  unfold verifyProtectedProof. intros H. inv_result.
  rename a3 into m, Ha3 into Hm, Ha4 into Hi, Ha5 into He, Ha8 into Hc, Ha9 into Hca, Ha11 into Hs, Ha12 into Hr.
  apply parseMessage_Ok in Hm as [Hm Hsh]. apply readSafeInteger_Ok in Hi as [Hi _].
  apply readSafeInteger_Ok in He as [He _]. apply readString_Ok in Hc. rewrite Hm in Hsh.
  repeat match goal with H : negb _ = false |- _ => apply negb_false_iff in H end.
  repeat match goal with H : String.eqb _ _ = true |- _ => apply String.eqb_eq in H end.
  apply accepts_spec in Ha10. pose proof (canonical_signature_spec (signature input) a11) as Hsig.
  destruct (proj1 Hsig Hs) as [-> _]. exists m. split; [|split; [done|]].
  - split; try done; [| |eauto..].
    + exists a4, a5. split; [done|]. split; [done|]. apply window_spec.
      rewrite !negb_true_iff, !orb_false_iff. done.
    + exists a8, a9. done.
  - unfold consumed. destruct (mode input); inv_result; [|done..].
    apply readString_Ok in Ha3. apply consume_nonce_Ok in Ha4 as [Hn ->].
    destruct (message_strings _ _ Hsh) as (c & n & Hfc & Hb & _). rewrite Hc in Hfc. injection Hfc as <-.
    exists (nonceScope (type input) a8 a11). split; [|done]. exists a8, a11. done.
Qed.

Lemma window_positive t name : name ∈ ["issuedAt"; "expiresAt"] -> map_get name (message_shape t) = Some z_positive.
Proof. rewrite !elem_of_cons. by intros [-> |[-> |[]%not_elem_of_nil]]; destruct t. Qed.

Lemma window_read t m name n :
  z_strict (message_shape t) (JObj m) = true -> name ∈ ["issuedAt"; "expiresAt"] ->
  field m name = Some (JNum n) -> readSafeInteger m name = Ok n.
Proof.
  intros H Hn Hf. destruct (z_strict_field _ _ _ _ H (window_positive t _ Hn)) as (x & Hx & Hp).
  rewrite Hf in Hx. injection Hx as <-. by apply readSafeInteger_Ok.
Qed.

Lemma verify_complete input m store :
  verified_message input m -> consumed input m store -> exists p, verifyProtectedProof input = Ok (p, store).
Proof.
  intros [Hm Hs [Hd1 Hd2] [Hv1 [Hv2 Hv3]] (iat & exp & Hi & He & Hw) (c & a & Hc & Hca & Ha) Hsig (r & Hr & Hsigner)] Hst.
  unfold verifyProtectedProof. rewrite Hd1, Hd2, !String.eqb_refl, Hv1, Hv2, Hv3. simpl.
  assert (parseMessage (type input) (message input) = Ok m) as -> by (apply parseMessage_Ok; by rewrite Hm).
  cbn [mbind result_bind].
  rewrite (window_read _ _ "issuedAt" _ Hs ltac:(set_solver) Hi). simpl.
  rewrite (window_read _ _ "expiresAt" _ Hs ltac:(set_solver) He). simpl.
  pose proof (window_start _ _ _ _ _ Hw) as Hstart. apply window_spec in Hw as [-> ->]. simpl. assert (readString m (credentialField (type input)) = Ok c) as -> by by apply readString_Ok.
  simpl.
  rewrite Hca. simpl. apply accepts_spec in Ha as ->. simpl. rewrite Hsig. simpl.
  rewrite Hr. simpl. rewrite Hsigner, String.eqb_refl. simpl. unfold consumed in Hst.
  destruct (mode input) as [now nonces|now|now|now]; [|subst; simpl; by eexists..].
  destruct Hst as (scope & (c' & n & Hc' & Hn & _ & ->) & Hfresh & ->). rewrite Hc in Hc'. injection Hc' as <-.
  simpl in Hstart. replace (now <? iat) with false by lia. simpl.
  assert (readString m "nonce" = Ok n) as -> by by apply readString_Ok. simpl.
  assert (consume nonces (nonceScope (type input) c n) = Ok (nonces ++ [nonceScope (type input) c n])) as ->
    by by apply consume_nonce_Ok.
  simpl. by eexists.
Qed.

(** C30. A proof is accepted exactly when: its domain is the one of the profile of its
    type, the message has the fields of its schema, the window it names is positive, at
    most the configured lifetime and contains the evaluation time (the end excluded for
    key operations and acknowledgements, included otherwise), the credential it names
    accepts that time, the signature is canonical and the typed data recover to the
    expected signer; in execution mode the scope of its credential and nonce must not
    have been consumed and is consumed, and no other mode touches a nonce store. *)
Theorem proof_verified (input : VerifyProofInput) (store : option NonceStore) :
  (exists p, verifyProtectedProof input = Ok (p, store)) <->
  exists m, verified_message input m /\ consumed input m store.
Proof.
  split.
  - intros (p & H). apply verify_sound in H as (m & Hm & _ & Hc). eauto.
  - intros (m & Hm & Hc). by eapply verify_complete.
Qed.

(** ** One store, many proofs *)

Definition on_store (n : NonceStore) (input : VerifyProofInput) : VerifyProofInput :=
  mkVerify (credentialAt input) (domain input) (expectedSignerAddress input) (maxLifetimeSeconds input)
    (message input) (execution (evaluationTime (mode input)) n) (signature input) (type input).

(** Proofs executed one after the other; those accepted, in order. *)
Fixpoint executed (n : NonceStore) (inputs : list VerifyProofInput) : list VerifyProofInput :=
  match inputs with
  | [] => []
  | i :: inputs =>
      match verifyProtectedProof (on_store n i) with
      | Ok (_, Some n') => i :: executed n' inputs
      | _ => executed n inputs
      end
  end.

(** What a proof is for: its type, its credential and its nonce. *)
Definition purpose (i : VerifyProofInput) : ProtectedSignatureType * option json * option json :=
  match message i with
  | JObj m => (type i, field m (credentialField (type i)), field m "nonce")
  | _ => (type i, None, None)
  end.

Lemma executed_spec inputs n :
  NoDup (purpose <$> executed n inputs) /\
  forall i, i ∈ executed n inputs -> exists m scope,
    message i = JObj m /\ message_scope (type i) m scope /\ scope ∉ n.
Proof.
  revert n. induction inputs as [|i inputs IH]; intros n; [split; [constructor|by intros i []%not_elem_of_nil]|].
  cbn [executed]. destruct (verifyProtectedProof (on_store n i)) as [[p [n'|]]|] eqn:Hv; [|by apply IH..].
  apply verify_sound in Hv as (m & Hm & _ & scope & Hscope & Hfresh & Heq). injection Heq as ->.
  destruct (IH (n ++ [scope])) as [Hnd Hin]. split.
  - rewrite fmap_cons. constructor; [|done]. intros (j & Hj & Hjin)%list_elem_of_fmap.
    destruct (Hin j Hjin) as (mj & sj & Hmj & (c & k & Hc & Hk & _ & ->) & Hnew).
    destruct Hscope as (c' & k' & Hc' & Hk' & _ & ->). apply vm_message in Hm. simpl in Hm, Hc', Hk', Hnew.
    unfold purpose in Hj. rewrite Hmj, Hm, Hc, Hk in Hj. rewrite Hc', Hk' in Hj. injection Hj as Ht -> ->.
    rewrite Ht in Hnew. apply Hnew, elem_of_app. right. by apply list_elem_of_singleton.
  - intros j [-> |Hj]%elem_of_cons.
    + exists m, scope. split; [exact (vm_message _ _ Hm)|done].
    + destruct (Hin j Hj) as (mj & sj & Hmj & Hsj & Hnew). exists mj, sj. split; [done|]. split; [done|].
      intros Hn. apply Hnew, elem_of_app. by left.
Qed.

(** Replay: of the proofs executed against one nonce store, no two accepted ones have
    the same type, credential and nonce; and the scopes by which the store tells proofs
    apart are those triples. *)
Theorem execution_single_use (inputs : list VerifyProofInput) (n : NonceStore) :
  NoDup (purpose <$> executed n inputs).
Proof. apply executed_spec. Qed.
End Verified.

(** ** Canonical signatures *)

Lemma validate_Throw value e : validateCanonicalSignature value = Throw e -> e = sig_signature.
Proof.
  unfold validateCanonicalSignature. destruct (rtest _ _); cbn [require mbind result_bind]; [|by intros [= <-]].
  match goal with |- context [require ?b _] => destruct b end; simpl; [done|by intros [= <-]].
Qed.

Lemma number_hex_inj w n n' :
  0 <= n < 16 ^ Z.of_nat w -> 0 <= n' < 16 ^ Z.of_nat w -> number_hex w n = number_hex w n' -> n = n'.
Proof. intros Hn Hn' H. apply (f_equal hex_number) in H. by rewrite !hex_number_of in H. Qed.

Lemma signature_text_s r s v r' s' v' :
  0 <= s < 2 ^ 256 -> 0 <= s' < 2 ^ 256 -> signature_text r s v = signature_text r' s' v' -> s = s'.
Proof.
  intros Hs Hs' H. apply (f_equal list_ascii_of_string) in H. unfold signature_text in H.
  rewrite !list_ascii_of_string_of_list_ascii in H. apply (f_equal (drop 2)) in H.
  change (number_hex 64 r ++ number_hex 64 s ++ number_hex 2 v = number_hex 64 r' ++ number_hex 64 s' ++ number_hex 2 v') in H.
  apply app_inj_1 in H as [_ H]; [|by rewrite !number_hex_length].
  apply app_inj_1 in H as [H _]; [|by rewrite !number_hex_length].
  by apply (number_hex_inj 64).
Qed.

(** Signatures cannot be varied: an accepted signature is the text of [(r, s, v)] with
    [0 < r], [0 < s <= n/2] and [v] 27 or 28, and the other signature that recovers to
    the same key, [(r, n - s, 55 - v)], is refused. *)
Theorem signature_not_malleable (value : string) :
  validateCanonicalSignature value = Ok value ->
  exists r s v, value = signature_text r s v /\ 0 < r /\ 0 < s <= SECP256K1_HALF_N /\ (v = 27 \/ v = 28) /\
    validateCanonicalSignature (signature_text r (SECP256K1_N - s) (55 - v)) = Throw sig_signature.
Proof.
  intros (_ & r & s & v & -> & Hr & Hs & Hv)%canonical_signature_spec. exists r, s, v.
  split; [done|]. split; [lia|]. split; [done|]. split; [done|].
  destruct (validateCanonicalSignature (signature_text r (SECP256K1_N - s) (55 - v))) as [out|e] eqn:Ho.
  - exfalso. apply canonical_signature_spec in Ho as (_ & r' & s' & v' & Heq & _ & Hs' & _).
    assert (SECP256K1_N < 2 ^ 256) as Hn by (vm_compute; reflexivity).
    assert (SECP256K1_HALF_N < 2 ^ 256) as Hh by (vm_compute; reflexivity).
    unfold SECP256K1_N in *. apply signature_text_s in Heq; lia.
  - f_equal. by eapply validate_Throw.
Qed.

(** ** Typed data *)

(** The values of an EIP-712 type. *)
Definition has_type (type_ : string) (v : json) : Prop :=
  if decide (type_ ∈ ["bytes32"; "uint256"]) then exists n, v = JStr (hex32 n) /\ 0 <= n < 2 ^ 256
  else if decide (type_ = "uint64") then exists n, v = JNum n /\ 0 < n < 2 ^ 64
  else if decide (type_ = "address") then exists s, v = JStr s /\ canonicalAddress s = true
  else False.

(** A schema's validator for a type. *)
Definition z_type (type_ : string) : json -> bool :=
  if decide (type_ ∈ ["bytes32"; "uint256"]) then z_bytes32
  else if decide (type_ = "uint64") then z_positive else z_address.

Lemma shape_of_profile t :
  message_shape t = (fun p => (p.1, z_type p.2)) <$> profile_fields (eip712Profiles t) /\
  Forall (fun p => p.2 ∈ ["bytes32"; "uint256"; "uint64"; "address"]) (profile_fields (eip712Profiles t)).
Proof. split; [by destruct t|]. destruct t; repeat (constructor; [set_solver|]); constructor. Qed.

Lemma z_type_sound type_ v :
  type_ ∈ ["bytes32"; "uint256"; "uint64"; "address"] -> z_type type_ v = true -> has_type type_ v.
Proof.
  unfold z_type, has_type. intros Ht. repeat case_decide; simplify_eq/=.
  - intros (s & -> & (n & Hn & ->)%bytes32Hex_spec)%z_string_true. eauto.
  - intros (n & -> & Hn%positiveSafeInteger_spec)%z_number_true. exists n. unfold MAX_SAFE_INTEGER in Hn. split; [done|lia].
  - intros (s & -> & Hs)%z_string_true. eauto.
  - set_solver.
Qed.

(** The message schemas and the typed-data profiles agree: a message of any type that
    its schema accepts has exactly the fields of the profile it is hashed with, each with
    a value of the declared EIP-712 type. *)
Theorem messages_well_typed (t : ProtectedSignatureType) (m : object) :
  z_strict (message_shape t) (JObj m) = true ->
  (forall name type_, (name, type_) ∈ profile_fields (eip712Profiles t) ->
     exists v, field m name = Some v /\ has_type type_ v) /\
  (forall name, name ∈ m.*1 -> name ∈ (profile_fields (eip712Profiles t)).*1) /\
  NoDup (profile_fields (eip712Profiles t)).*1.
Proof.
  intros (fs & [= <-] & _ & Hk & Hf)%z_strict_spec. destruct (shape_of_profile t) as [Hs Ht].
  split; [|split].
  - intros name type_ Hin. destruct (Hf name (z_type type_)) as (x & Hx & Hv).
    + rewrite Hs. apply list_elem_of_fmap. by exists (name, type_).
    + exists x. split; [done|]. rewrite Forall_forall in Ht. apply z_type_sound; [exact (Ht _ Hin)|done].
  - intros name Hin%Hk. by rewrite Hs, <- list_fmap_compose in Hin.
  - apply set_size_NoDup. by destruct t.
Qed.

(** ** Sample *)

Module Sample.

#[global] Program Instance sample_sha256 : Sha256 := {| sha256 b := take 32 (b ++ repeat Byte.x00 32) |}.
Next Obligation. intros b. unfold bytes in *. rewrite length_take, length_app, repeat_length. lia. Qed.

Lemma signature_not_malleable_witness :
  validateCanonicalSignature (signature_text 5 7 27) = Ok (signature_text 5 7 27) /\
  exists r s v, signature_text 5 7 27 = signature_text r s v /\
    validateCanonicalSignature (signature_text r (SECP256K1_N - s) (55 - v)) = Throw sig_signature.
Proof.
  assert (validateCanonicalSignature (signature_text 5 7 27) = Ok (signature_text 5 7 27)) as H by (vm_compute; reflexivity).
  split; [exact H|].
  destruct (signature_not_malleable (signature_text 5 7 27) H) as (r & s & v & He & _ & _ & _ & Ht).
  exists r, s, v. split; [exact He|exact Ht].
Defined.

(** A message of a type: every 32-byte field 0x00..01, every number 1. *)
Definition fill (p : string * string) : string * json :=
  (p.1, if String.eqb p.2 "uint64" then JNum 1
        else if String.eqb p.2 "address" then JStr "0x0000000000000000000000000000000000000001"
        else JStr (hex32 1)).

Definition sample_message (t : ProtectedSignatureType) : object := fill <$> profile_fields (eip712Profiles t).

Lemma messages_well_typed_witness :
  z_strict (message_shape KeyOperationAuthorization) (JObj (sample_message KeyOperationAuthorization)) = true /\
  exists v, field (sample_message KeyOperationAuthorization) "issuerServiceAddress" = Some v /\ has_type "address" v.
Proof.
  assert (z_strict (message_shape KeyOperationAuthorization) (JObj (sample_message KeyOperationAuthorization)) = true)
    as H by (vm_compute; reflexivity).
  split; [exact H|].
  apply (messages_well_typed KeyOperationAuthorization (sample_message KeyOperationAuthorization) H).
  apply includes_true. vm_compute. reflexivity.
Defined.
End Sample.
