(* ===== verification/Protection.v ===== *)
(** * Protection of bundle content and of its keys

    [src/src/protected-bundles/crypto]: sealing content in an encrypted envelope bound
    to its context ([content.ts]), wrapping the data-encryption key for an RSA
    recipient ([recipient.ts]), and the schemas of [src/src/schemas/crypto.ts] they
    parse with. SHA-256, the JWE package [jose] and the RSA signatures of [node:crypto]
    are parameters with their documented contracts; random bytes are arguments.
    Overwriting a key with zeros after use is not modelled: buffers are values here. *)

From S2P Require Import Prelude Regex Digits Base64 Schemas Storage Json Hex Signatures.

Local Open Scope Z_scope.

Inductive CryptoError := type_error | crypto_zod | jose_error.

(** ** Base64url of buffers *)

(** [Buffer.from(b).toString("base64url")] *)
Definition to_base64url (b : bytes) : string := string_of_list_ascii (base64_encode (code_of_byte <$> b)).

(** [Buffer.from(s, "base64url")] *)
Definition from_base64url (s : string) : bytes := byte_of_code <$> base64_decode (list_ascii_of_string s).

Lemma codes_are_bytes (b : bytes) : Forall is_byte (code_of_byte <$> b).
Proof. apply Forall_fmap, Forall_true. intros x. apply code_of_byte_bounds. Qed.

Lemma from_to_base64url b : from_base64url (to_base64url b) = b.
Proof.
  unfold from_base64url, to_base64url.
  rewrite list_ascii_of_string_of_list_ascii, base64_decode_encode by apply codes_are_bytes.
  rewrite <- list_fmap_compose. apply fmap_id_Forall, Forall_true, byte_of_code_of_byte.
Qed.

Lemma to_base64url_valid b : base64Url (to_base64url b) = true.
Proof. apply base64Url_spec. exists (code_of_byte <$> b). split; [apply codes_are_bytes|done]. Qed.

Lemma to_base64url_32 b : length b = 32%nat -> base64Url32 (to_base64url b) = true.
Proof.
  intros Hb. apply base64Url32_spec. exists (code_of_byte <$> b).
  split; [split; [apply codes_are_bytes|done]|]. unfold bytes in *. by rewrite length_fmap.
Qed.

Lemma base64Url32_bytes s : base64Url32 s = true -> length (from_base64url s) = 32%nat.
Proof.
  intros (l & [Hl ->] & Hn)%base64Url32_spec. unfold from_base64url.
  rewrite list_ascii_of_string_of_list_ascii, base64_decode_encode by done. by rewrite length_fmap.
Qed.

Lemma to_base64url_inj b b' : to_base64url b = to_base64url b' -> b = b'.
Proof. intros H. by rewrite <- (from_to_base64url b), <- (from_to_base64url b'), H. Qed.

(** ** Schemas *)

Definition mediaType : string -> bool :=
  rtest (rx "^[a-z0-9][a-z0-9!#$&^_.+-]*\/[a-z0-9][a-z0-9!#$&^_.+-]*(?:;[a-z0-9!#$&^_.+-]+=[a-z0-9!#$&^_.+-]+)*$").

Definition z_base64Url : json -> bool := z_string base64Url.
Definition z_base64Url32 : json -> bool := z_string base64Url32.
Definition z_urn (kind : string) : json -> bool := z_string (urn kind).

Definition digest_shape : shape := [("alg", z_literal "SHA-256"); ("value", z_base64Url32)].
Definition z_digest : json -> bool := z_strict digest_shape.

Definition digest_json (d : Digest) : json := JObj [("alg", JStr (alg d)); ("value", JStr (value d))].

Definition protectedPackage : shape :=
  [("schema", z_literal "EVLLM_PROTECTED_PACKAGE_V1"); ("content_media_type", z_string mediaType);
   ("content_bytes", z_base64Url); ("content_commitment_salt", z_base64Url32);
   ("domain_payload_bytes", z_base64Url); ("domain_payload_commitment_salt", z_base64Url32)].

Definition bundle_type_text (t : BundleType) : string :=
  match t with
  | bt_evidence => "evidence" | bt_verification => "verification" | bt_assessment => "assessment"
  | bt_assistant_support => "assistant-support" | bt_listing => "listing" | bt_agreement => "agreement"
  | bt_dispute => "dispute" | bt_logistics => "logistics" | bt_audit => "audit"
  | bt_authoritative_source => "authoritative-source"
  end.

Definition bundleTypes : list BundleType :=
  [bt_evidence; bt_verification; bt_assessment; bt_assistant_support; bt_listing; bt_agreement;
   bt_dispute; bt_logistics; bt_audit; bt_authoritative_source].

Definition protectedContentAadBase : shape :=
  [("schema", z_literal "EVLLM_PROTECTED_CONTENT_AAD_V1"); ("bundle_id", z_urn "bundle");
   ("bundle_version", z_positive); ("domain_resource_version", z_positive);
   ("domain_payload_commitment", z_digest); ("custody_controller_org_id", z_urn "org");
   ("primary_repository_id", z_urn "repository"); ("content_schema_id", z_urn "schema");
   ("content_schema_version", z_string semver); ("access_class", z_literal "restricted");
   ("initial_criticality_class", z_enum ["decision-critical"; "supplementary"]);
   ("criticality_profile_id", z_urn "profile"); ("criticality_profile_version", z_positive)].

Definition protectedContentAadVariant (t : BundleType) : shape :=
  protectedContentAadBase ++
  [("bundle_type", z_literal (bundle_type_text t)); ("domain_resource_id", z_urn (domainKindByBundleType t))].

(** A discriminated union is the variant its discriminator names. *)
Definition protectedContentAad (v : json) : bool :=
  existsb (fun t => z_strict (protectedContentAadVariant t) v) bundleTypes.

Definition jwe_iv : string -> bool := rtest (rx "^[A-Za-z0-9_-]{16}$").
Definition jwe_tag : string -> bool := rtest (rx "^[A-Za-z0-9_-]{22}$").

Definition contentJwe : shape :=
  [("protected", z_base64Url); ("aad", z_base64Url); ("iv", z_string jwe_iv);
   ("ciphertext", z_base64Url); ("tag", z_string jwe_tag)].

Definition recipientKid : string -> bool :=
  rtest (rx "^urn:ietf:params:oauth:jwk-thumbprint:sha-256:[A-Za-z0-9_-]{43}$").

(** [extend] with one [purpose] replaced. *)
Definition dekWrapContextBase (purpose : json -> bool) : shape :=
  [("schema", z_literal "EVLLM_DEK_WRAP_CONTEXT_V1"); ("envelope_id", z_urn "envelope");
   ("bundle_id", z_urn "bundle"); ("bundle_version", z_positive);
   ("bundle_type", z_enum (bundle_type_text <$> bundleTypes)); ("domain_resource_id", z_string (fun _ => true));
   ("domain_resource_version", z_positive); ("domain_payload_commitment", z_digest);
   ("content_commitment", z_digest); ("content_envelope_digest", z_digest);
   ("recipient_org_id", z_urn "org"); ("recipient_kid", z_string recipientKid); ("purpose", purpose)].

Definition controllerContext : shape :=
  dekWrapContextBase (z_literal "controller-custody") ++
  [("authorization_id", z_urn "authorization"); ("scope", z_literal "protected-bundle:key-administration")].

Definition grantContext : shape :=
  dekWrapContextBase (z_string (fun s => rtest (rx "^[a-z][a-z0-9.-]{0,63}$") s && negb (String.eqb s "controller-custody"))) ++
  [("authorization_id", z_urn "grant"); ("scope", z_literal "protected-bundle:decrypt")].

(** [superRefine]: the resource is of the kind of the bundle type. *)
Definition resource_matches (v : json) : bool :=
  match v with
  | JObj fs =>
      existsb (fun t => strict_equal (field fs "bundle_type") (Some (JStr (bundle_type_text t))) &&
                        match field fs "domain_resource_id" with Some x => z_urn (domainKindByBundleType t) x | None => false end)
        bundleTypes
  | _ => false
  end.

Definition dekWrapContext (v : json) : bool :=
  (z_strict controllerContext v || z_strict grantContext v) && resource_matches v.

Definition recipientJwe : shape :=
  [("protected", z_base64Url); ("aad", z_base64Url); ("encrypted_key", z_base64Url);
   ("iv", z_string jwe_iv); ("ciphertext", z_base64Url); ("tag", z_string jwe_tag)].

(** ** Keys and packages *)

(** What the program reads of a [KeyObject]; [material] is the key. *)
Record KeyObject := mkKeyObject {
  isPrivate : bool;
  asymmetricKeyType : option string;
  modulusLength : option Z;
  publicExponent : option Z;
  spki : bytes;
  material : bytes
}.

Definition rsa3072 (k : KeyObject) : bool :=
  bool_decide (asymmetricKeyType k = Some "rsa") && bool_decide (modulusLength k = Some 3072) &&
  bool_decide (publicExponent k = Some 65537).

Definition assertRsa3072PublicKey (k : KeyObject) : result CryptoError unit := require (rsa3072 k) type_error.

Definition assertRsa3072PrivateKey (k : KeyObject) : result CryptoError unit :=
  require (isPrivate k && rsa3072 k) type_error.

(** The parts of a flattened JWE that encryption computes. *)
Record Sealed := mkSealed { encrypted_key : bytes; ciphertext : bytes; tag : bytes }.

(** [jose] and [node:crypto]. The protected header and the additional data are
    authenticated in their encoded form. Encryption to a private key's public half is
    undone by it; AES-GCM keeps the length and has a 16-byte tag; RSA-3072 an encrypted
    key of 384 bytes. A header whose keys are in order is serialised canonically. *)
Class Jose `{CanonicalJson} := {
  jose_header : json -> string;
  key_pair : KeyObject -> KeyObject -> Prop;
  dir_encrypt : bytes -> string -> string -> bytes -> bytes -> Sealed;
  dir_decrypt : bytes -> string -> string -> bytes -> Sealed -> option bytes;
  rsa_encrypt : KeyObject -> bytes -> string -> string -> bytes -> bytes -> Sealed;
  rsa_decrypt : KeyObject -> string -> string -> bytes -> Sealed -> option bytes;
  pss_sign : KeyObject -> bytes -> bytes;
  pss_verify : KeyObject -> bytes -> bytes -> option bool;
  jose_header_sorted h : norm h = h -> jose_header h = canonicalJson h;
  dir_roundtrip dek header aad iv plain ek :
    dir_decrypt dek header aad iv
      (mkSealed ek (ciphertext (dir_encrypt dek header aad iv plain)) (tag (dir_encrypt dek header aad iv plain))) = Some plain;
  dir_tag dek header aad iv plain : length (tag (dir_encrypt dek header aad iv plain)) = 16%nat;
  rsa_roundtrip priv pub seed header aad iv plain :
    key_pair priv pub -> rsa_decrypt priv header aad iv (rsa_encrypt pub seed header aad iv plain) = Some plain;
  rsa_lengths pub seed header aad iv plain :
    length (encrypted_key (rsa_encrypt pub seed header aad iv plain)) = 384%nat /\
    length (ciphertext (rsa_encrypt pub seed header aad iv plain)) = length plain /\
    length (tag (rsa_encrypt pub seed header aad iv plain)) = 16%nat
}.

Section Crypto.
Context {HC : CanonicalJson} {HSha : Sha256} {HJose : Jose}.

Definition digestOf (b : bytes) : Digest := mkDigest "SHA-256" (to_base64url (sha256 b)).

Definition parse_digest (d : Digest) : result CryptoError Digest := _ ← require (digest d) crypto_zod; Ok d.

(** [canonical.ts] throwing a [TypeError] *)
Definition parse_exact (b : bytes) : result CryptoError json := defined (parseExactCanonicalJson b) type_error.

(** A required string of an object a schema accepted. *)
Definition text_of (v : json) (name : string) : string :=
  match v with
  | JObj fs => match field fs name with Some (JStr s) => s | _ => "" end
  | _ => ""
  end.

Definition bytes_of (v : json) (name : string) : bytes := from_base64url (text_of v name).

(** ** [content.ts] *)

Definition CONTENT_COMMITMENT_DOMAIN : bytes := text_encode "EVLLM_PROTECTED_CONTENT_COMMITMENT_V1".
Definition DOMAIN_COMMITMENT_DOMAIN : bytes := text_encode "EVLLM_DOMAIN_PAYLOAD_COMMITMENT_V1".

(** [writeBigUInt64BE] *)
Definition be64 (n : Z) : bytes :=
  (fun i => byte_of_code (Z.shiftr n (8 * i) mod 256)) <$> [7; 6; 5; 4; 3; 2; 1; 0].

Definition preimage (domain salt value_ : bytes) : bytes :=
  domain ++ [Byte.x00] ++ salt ++ be64 (byteLength value_) ++ value_.

Definition commitment (domain salt value_ : bytes) : result CryptoError Digest :=
  parse_digest (digestOf (preimage domain salt value_)).

Definition protectedContentHeader : json :=
  JObj [("alg", JStr "dir"); ("cty", JStr "application/vnd.evllm.protected-package+json");
        ("enc", JStr "A256GCM"); ("typ", JStr "application/vnd.evllm.protected-content+jwe")].

Definition exactRandom (value_ : bytes) (length_ : nat) : result CryptoError bytes :=
  _ ← require (length value_ =? length_)%nat type_error; Ok value_.

Record ProtectContentInput := mkProtectInput {
  pc_aad : object;  (* without [domain_payload_commitment] *)
  pc_content : bytes;
  pc_contentMediaType : string;
  pc_domainPayload : bytes
}.

(** What the random source answers, in the order it is asked. *)
Record Randomness := mkRandomness { rnd_dek : bytes; rnd_iv : bytes; rnd_contentSalt : bytes; rnd_domainSalt : bytes }.

Record ProtectedContentResult := mkProtected {
  pr_aad : json;
  pr_contentCommitment : Digest;
  pr_contentEnvelopeDigest : Digest;
  pr_dek : bytes;
  pr_domainPayloadCommitment : Digest;
  pr_envelopeBytes : bytes;
  pr_packageBytes : bytes
}.

Definition assertCanonicalDomainPayload (value_ : bytes) : result CryptoError unit :=
  _ ← parse_exact value_; Ok tt.

Definition package_of (input : ProtectContentInput) (contentSalt domainSalt : bytes) : json :=
  JObj [("schema", JStr "EVLLM_PROTECTED_PACKAGE_V1"); ("content_media_type", JStr (pc_contentMediaType input));
        ("content_bytes", JStr (to_base64url (pc_content input)));
        ("content_commitment_salt", JStr (to_base64url contentSalt));
        ("domain_payload_bytes", JStr (to_base64url (pc_domainPayload input)));
        ("domain_payload_commitment_salt", JStr (to_base64url domainSalt))].

(** The members [FlattenedEncrypt] returns, in base64url. *)
Definition encoded_header (h : json) : string := to_base64url (text_encode (jose_header h)).

Definition content_envelope (header aad : string) (iv : bytes) (s : Sealed) : json :=
  JObj [("protected", JStr header); ("aad", JStr aad); ("iv", JStr (to_base64url iv));
        ("ciphertext", JStr (to_base64url (ciphertext s))); ("tag", JStr (to_base64url (tag s)))].

Definition protectContent (input : ProtectContentInput) (rnd : Randomness) : result CryptoError ProtectedContentResult :=
  _ ← assertCanonicalDomainPayload (pc_domainPayload input);
  dek ← exactRandom (rnd_dek rnd) 32;
  iv ← exactRandom (rnd_iv rnd) 12;
  contentSalt ← exactRandom (rnd_contentSalt rnd) 32;
  domainSalt ← exactRandom (rnd_domainSalt rnd) 32;
  contentCommitment ← commitment CONTENT_COMMITMENT_DOMAIN contentSalt (pc_content input);
  domainPayloadCommitment ← commitment DOMAIN_COMMITMENT_DOMAIN domainSalt (pc_domainPayload input);
  let aad := JObj (map_set "domain_payload_commitment" (digest_json domainPayloadCommitment) (pc_aad input)) in
  _ ← require (protectedContentAad aad) crypto_zod;
  let packageObject := package_of input contentSalt domainSalt in
  _ ← require (z_strict protectedPackage packageObject) crypto_zod;
  let packageBytes := canonicalJsonBytes packageObject in
  let header := encoded_header protectedContentHeader in
  let aadText := to_base64url (canonicalJsonBytes aad) in
  let envelope := content_envelope header aadText iv (dir_encrypt dek header aadText iv packageBytes) in
  _ ← require (z_strict contentJwe envelope) crypto_zod;
  let envelopeBytes := canonicalJsonBytes envelope in
  contentEnvelopeDigest ← parse_digest (digestOf envelopeBytes);
  Ok (mkProtected aad contentCommitment contentEnvelopeDigest dek domainPayloadCommitment envelopeBytes packageBytes).

(** What [flattenedDecrypt] reads of an envelope. *)
Definition sealed_of (envelope : json) : Sealed :=
  mkSealed (bytes_of envelope "encrypted_key") (bytes_of envelope "ciphertext") (bytes_of envelope "tag").

Definition openProtectedContent (envelopeBytes dek : bytes) (expectedAad : json) (expectedContentCommitment : Digest) :
    result CryptoError (bytes * bytes) :=
  _ ← require (length dek =? 32)%nat type_error;
  envelope ← parse_exact envelopeBytes;
  _ ← require (z_strict contentJwe envelope) crypto_zod;
  header ← parse_exact (bytes_of envelope "protected");
  _ ← require (canonicalBytesEqual header protectedContentHeader) type_error;
  aad ← parse_exact (bytes_of envelope "aad");
  _ ← require (protectedContentAad aad) crypto_zod;
  _ ← require (canonicalBytesEqual aad expectedAad) type_error;
  plaintext ← defined (dir_decrypt dek (text_of envelope "protected") (text_of envelope "aad")
                         (bytes_of envelope "iv") (sealed_of envelope)) jose_error;
  packageObject ← parse_exact plaintext;
  _ ← require (z_strict protectedPackage packageObject) crypto_zod;
  let content := bytes_of packageObject "content_bytes" in
  let domainPayload := bytes_of packageObject "domain_payload_bytes" in
  _ ← assertCanonicalDomainPayload domainPayload;
  contentCommitment ← commitment CONTENT_COMMITMENT_DOMAIN (bytes_of packageObject "content_commitment_salt") content;
  domainCommitment ← commitment DOMAIN_COMMITMENT_DOMAIN (bytes_of packageObject "domain_payload_commitment_salt") domainPayload;
  let aadCommitment := match aad with JObj fs => from_option (fun v => text_of v "value") "" (field fs "domain_payload_commitment") | _ => "" end in
  _ ← require (negb (negb (String.eqb (value domainCommitment) aadCommitment) ||
                     negb (String.eqb (alg contentCommitment) (alg expectedContentCommitment)) ||
                     negb (String.eqb (value contentCommitment) (value expectedContentCommitment)))) type_error;
  Ok (content, domainPayload).

(** ** [recipient.ts] *)

Definition rsaPublicKeySpkiSha256 (publicKey : KeyObject) : result CryptoError Digest :=
  _ ← assertRsa3072PublicKey publicKey; parse_digest (digestOf (spki publicKey)).

(** The acknowledgement: its message and signature. *)
Definition keyPossessionPayload (message : object) (signature_ : string) : bytes :=
  canonicalJsonBytes
    (JObj [("schema", JStr "EVLLM_RSA_KEY_POSSESSION_PROOF_V1"); ("acknowledgement_message", JObj message);
           ("identity_signature_sha256", JStr (to_base64url (sha256 (from_hex (slice_from 2 signature_)))))]).

Record RsaKeyPossessionProof := mkPossession { algorithm : string; pp_signature : string }.

Definition createRsaKeyPossessionProof (privateKey : KeyObject) (message : object) (signature_ : string) :
    result CryptoError RsaKeyPossessionProof :=
  _ ← assertRsa3072PrivateKey privateKey;
  Ok (mkPossession "PS256" (to_base64url (pss_sign privateKey (keyPossessionPayload message signature_)))).

(** Whatever throws inside is caught and answers [false]. *)
Definition verifyRsaKeyPossessionProof (publicKey : KeyObject) (message : object) (signature_ : string)
    (proof : RsaKeyPossessionProof) : bool :=
  match assertRsa3072PublicKey publicKey with
  | Throw _ => false
  | Ok _ =>
      if negb (String.eqb (algorithm proof) "PS256") || negb (rtest (rx "^[A-Za-z0-9_-]{512}$") (pp_signature proof))
      then false
      else default false (pss_verify publicKey (keyPossessionPayload message signature_)
                            (from_base64url (pp_signature proof)))
  end.

Definition recipientHeader (kid : string) : json :=
  JObj [("alg", JStr "RSA-OAEP-256"); ("cty", JStr "application/octet-stream"); ("enc", JStr "A256GCM");
        ("kid", JStr kid); ("typ", JStr "application/vnd.evllm.dek-envelope+jwe")].

Definition recipient_envelope (header aad : string) (iv : bytes) (s : Sealed) : json :=
  JObj [("protected", JStr header); ("aad", JStr aad); ("encrypted_key", JStr (to_base64url (encrypted_key s)));
        ("iv", JStr (to_base64url iv)); ("ciphertext", JStr (to_base64url (ciphertext s)));
        ("tag", JStr (to_base64url (tag s)))].

Record WrappedDekResult := mkWrapped { wr_commitment : Digest; wr_envelopeBytes : bytes }.

(** [iv] is [randomBytes(12)], [seed] the randomness of the RSA encryption. *)
Definition wrapDek (context : json) (dek : bytes) (publicKey : KeyObject) (iv seed : bytes) :
    result CryptoError WrappedDekResult :=
  _ ← require (length dek =? 32)%nat type_error;
  _ ← assertRsa3072PublicKey publicKey;
  _ ← require (dekWrapContext context) crypto_zod;
  let header := encoded_header (recipientHeader (text_of context "recipient_kid")) in
  let aad := to_base64url (canonicalJsonBytes context) in
  let envelope := recipient_envelope header aad iv (rsa_encrypt publicKey seed header aad iv dek) in
  _ ← require (z_strict recipientJwe envelope) crypto_zod;
  let envelopeBytes := canonicalJsonBytes envelope in
  commitment ← parse_digest (digestOf envelopeBytes);
  Ok (mkWrapped commitment envelopeBytes).

Definition unwrapDek (envelopeBytes : bytes) (privateKey : KeyObject) (expectedContext : json) :
    result CryptoError bytes :=
  envelope ← parse_exact envelopeBytes;
  _ ← require (z_strict recipientJwe envelope) crypto_zod;
  context ← parse_exact (bytes_of envelope "aad");
  _ ← require (dekWrapContext context) crypto_zod;
  _ ← require (canonicalBytesEqual context expectedContext) type_error;
  header ← parse_exact (bytes_of envelope "protected");
  _ ← require (canonicalBytesEqual header (recipientHeader (text_of context "recipient_kid"))) type_error;
  plaintext ← defined (rsa_decrypt privateKey (text_of envelope "protected") (text_of envelope "aad")
                         (bytes_of envelope "iv") (sealed_of envelope)) jose_error;
  _ ← require (length plaintext =? 32)%nat type_error;
  Ok plaintext.

Definition verify_envelope (commitment : Digest) (expected : json) (envelopeBytes : bytes) : result CryptoError bool :=
  envelope ← parse_exact envelopeBytes;
  _ ← require (z_strict recipientJwe envelope) crypto_zod;
  context ← parse_exact (bytes_of envelope "aad");
  _ ← require (dekWrapContext context) crypto_zod;
  if negb (canonicalBytesEqual context expected) then Ok false
  else
    header ← parse_exact (bytes_of envelope "protected");
    if negb (canonicalBytesEqual header (recipientHeader (text_of context "recipient_kid"))) then Ok false
    else if negb (length (bytes_of envelope "encrypted_key") =? 384)%nat ||
            negb (length (bytes_of envelope "iv") =? 12)%nat ||
            negb (length (bytes_of envelope "ciphertext") =? 32)%nat ||
            negb (length (bytes_of envelope "tag") =? 16)%nat then Ok false
    else
      d ← parse_digest (digestOf envelopeBytes);
      Ok (String.eqb (value d) (value commitment)).

(** Whatever throws inside is caught and answers [false]. *)
Definition verifyWrappedDekEnvelope (commitment : Digest) (context : json) (envelopeBytes : bytes) : bool :=
  match verify_envelope commitment context envelopeBytes with Ok b => b | Throw _ => false end.
End Crypto.

(** * Facts *)

(** ** Schemas on canonical forms *)

Ltac shape_stable :=
  repeat (constructor; [first [apply stable_string | apply stable_number |
                               apply stable_strict; shape_stable]|]); try constructor.

Lemma stable_content_jwe : stable (z_strict contentJwe).
Proof. apply stable_strict. shape_stable. Qed.

Lemma stable_recipient_jwe : stable (z_strict recipientJwe).
Proof. apply stable_strict. shape_stable. Qed.

Lemma stable_package : stable (z_strict protectedPackage).
Proof. apply stable_strict. shape_stable. Qed.

Lemma stable_aad : stable protectedContentAad.
Proof.
  apply (stable_existsb (fun t => z_strict (protectedContentAadVariant t))). intros t.
  apply stable_strict. shape_stable.
Qed.

Lemma stable_context : stable dekWrapContext.
Proof.
  intros v [Hu Hr]%andb_true_iff. apply andb_true_iff.
  assert (exists fs, v = JObj fs /\ NoDup fs.*1) as (fs & -> & Hnd).
  { apply orb_true_iff in Hu as [H|H]; apply z_strict_spec in H as (fs & -> & Hnd & _); by exists fs. }
  split.
  - apply orb_true_iff. apply orb_true_iff in Hu as [H|H]; [left|right];
      (eapply stable_strict in H; [exact H|shape_stable]).
  - rewrite norm_object. unfold resource_matches in *. apply existsb_exists in Hr as (t & Ht & Hv).
    apply existsb_exists. exists t. split; [done|]. apply andb_true_iff in Hv as [Hb Hi]. apply strict_equal_str in Hb.
    unfold field in *. rewrite !norm_fields_get, Hb by done. simpl. rewrite String.eqb_refl. simpl.
    destruct (map_get "domain_resource_id" fs) as [x|]; [|done]. simpl. by apply stable_string.
Qed.

Lemma text_of_norm v name : (forall fs, v = JObj fs -> NoDup fs.*1) -> text_of (norm v) name = text_of v name.
Proof.
  destruct v as [| | | | | |fs]; intros Hw; try done. specialize (Hw fs eq_refl).
  rewrite norm_object. unfold text_of, field. rewrite norm_fields_get by done.
  destruct (map_get name fs) as [[]|]; done.
Qed.

Lemma bytes_of_norm v name : (forall fs, v = JObj fs -> NoDup fs.*1) -> bytes_of (norm v) name = bytes_of v name.
Proof. intros H. unfold bytes_of. by rewrite text_of_norm. Qed.

(** The keys of an object written out are distinct. *)
Ltac distinct_keys :=
  let fs := fresh in let E := fresh in
  intros fs E; injection E as <-; apply set_size_NoDup; reflexivity.

Section CryptoFacts.
Context {HC : CanonicalJson} {HSha : Sha256} {HJose : Jose}.

Lemma parse_exact_canonical v : parse_exact (canonicalJsonBytes v) = Ok (norm v).
Proof. unfold parse_exact. by rewrite parseExact_canonical. Qed.

Lemma parse_exact_header h : norm h = h -> parse_exact (from_base64url (encoded_header h)) = Ok h.
Proof.
  intros Hn. unfold encoded_header. rewrite from_to_base64url, jose_header_sorted by done.
  change (text_encode (canonicalJson h)) with (canonicalJsonBytes h). by rewrite parse_exact_canonical, Hn.
Qed.

Lemma digestOf_valid b : digest (digestOf b) = true.
Proof.
  unfold digest, digestOf. simpl. apply to_base64url_32, sha256_length.
Qed.

Lemma parse_digestOf b : parse_digest (digestOf b) = Ok (digestOf b).
Proof. unfold parse_digest. by rewrite digestOf_valid. Qed.

Lemma commitment_Ok d s v : commitment d s v = Ok (digestOf (preimage d s v)).
Proof. apply parse_digestOf. Qed.

Lemma digestOf_inj b b' :
  value (digestOf b) = value (digestOf b') -> b = b' \/ collides b b'.
Proof. intros H%to_base64url_inj. destruct (decide (b = b')) as [->|Hne]; [by left|by right]. Qed.

Lemma be64_length n : length (be64 n) = 8%nat.
Proof. done. Qed.

Lemma preimage_inj d s v s' v' :
  length s = 32%nat -> length s' = 32%nat -> preimage d s v = preimage d s' v' -> s = s' /\ v = v'.
Proof.
  unfold preimage. intros Hs Hs' H. apply app_inv_head, app_inv_head in H.
  apply app_inj_1 in H as [-> H]; [|congruence]. split; [done|].
  by apply app_inj_1 in H as [_ H]; [|by rewrite !be64_length].
Qed.

Lemma protected_header_sorted : norm protectedContentHeader = protectedContentHeader.
Proof. reflexivity. Qed.

Lemma recipient_header_sorted kid : norm (recipientHeader kid) = recipientHeader kid.
Proof. reflexivity. Qed.

Lemma canonicalBytesEqual_norm v : canonicalBytesEqual (norm v) v = true.
Proof. apply canonicalBytesEqual_true, norm_norm. Qed.

(** The members of an envelope as they are read back. *)
Lemma content_envelope_members header aad iv x :
  text_of (norm (content_envelope header aad iv x)) "protected" = header /\
  text_of (norm (content_envelope header aad iv x)) "aad" = aad /\
  bytes_of (norm (content_envelope header aad iv x)) "iv" = iv /\
  sealed_of (norm (content_envelope header aad iv x)) = mkSealed [] (ciphertext x) (tag x).
Proof.
  assert (forall name, text_of (norm (content_envelope header aad iv x)) name =
                       text_of (content_envelope header aad iv x) name) as Ht.
  { intros name. apply text_of_norm. distinct_keys. }
  unfold sealed_of, bytes_of. rewrite !Ht. cbn [text_of field content_envelope]. simpl.
  by rewrite !from_to_base64url.
Qed.

Lemma package_members input cs ds :
  bytes_of (norm (package_of input cs ds)) "content_bytes" = pc_content input /\
  bytes_of (norm (package_of input cs ds)) "content_commitment_salt" = cs /\
  bytes_of (norm (package_of input cs ds)) "domain_payload_bytes" = pc_domainPayload input /\
  bytes_of (norm (package_of input cs ds)) "domain_payload_commitment_salt" = ds.
Proof.
  assert (forall name, bytes_of (norm (package_of input cs ds)) name = bytes_of (package_of input cs ds) name) as Ht.
  { intros name. apply bytes_of_norm. distinct_keys. }
  rewrite !Ht. unfold bytes_of. simpl. by rewrite !from_to_base64url.
Qed.

Lemma aad_commitment fs d :
  NoDup (map_set "domain_payload_commitment" (digest_json d) fs).*1 ->
  match norm (JObj (map_set "domain_payload_commitment" (digest_json d) fs)) with
  | JObj fs => from_option (fun v => text_of v "value") "" (field fs "domain_payload_commitment")
  | _ => ""
  end = value d.
Proof. intros Hnd. rewrite norm_object. unfold field. by rewrite norm_fields_get, map_get_set_eq. Qed.

Lemma aad_nodup fs : protectedContentAad (JObj fs) = true -> NoDup fs.*1.
Proof. intros (t & _ & (fs' & [= <-] & Hnd & _)%z_strict_spec)%existsb_exists. done. Qed.

Lemma content_opens (input : ProtectContentInput) (rnd : Randomness) (r : ProtectedContentResult) :
  protectContent input rnd = Ok r ->
  openProtectedContent (pr_envelopeBytes r) (pr_dek r) (pr_aad r) (pr_contentCommitment r) =
    Ok (pc_content input, pc_domainPayload input).
Proof.
  unfold protectContent. intros H.
  apply bind_Ok in H as ([] & Hdp & H). unfold exactRandom in H.
  apply bind_Ok in H as (dek & Hdek & H). apply bind_Ok in H as (iv & Hiv & H).
  apply bind_Ok in H as (cs & Hcs & H). apply bind_Ok in H as (ds & Hds & H).
  inv_result. cbn [pr_envelopeBytes pr_dek pr_aad pr_contentCommitment].
  rewrite commitment_Ok in Ha, Ha0. injection Ha as <-. injection Ha0 as <-.
  set (aad := JObj _) in *. set (E := content_envelope _ _ _ _) in *.
  pose proof (content_envelope_members (encoded_header protectedContentHeader) (to_base64url (canonicalJsonBytes aad))
    (rnd_iv rnd) (dir_encrypt (rnd_dek rnd) (encoded_header protectedContentHeader)
       (to_base64url (canonicalJsonBytes aad)) (rnd_iv rnd)
       (canonicalJsonBytes (package_of input (rnd_contentSalt rnd) (rnd_domainSalt rnd))))) as (Mp & Ma & Mi & Ms).
  fold E in Mp, Ma, Mi, Ms.
  pose proof (package_members input (rnd_contentSalt rnd) (rnd_domainSalt rnd)) as (Pc & Pcs & Pd & Pds).
  apply stable_content_jwe in Ha3. pose proof (aad_nodup _ Ha1) as Hnd. apply stable_aad in Ha1.
  apply stable_package in Ha2. unfold openProtectedContent. rewrite Ha8. cbn [require mbind result_bind].
  rewrite parse_exact_canonical. cbn [mbind result_bind]. rewrite Ha3. cbn [require mbind result_bind].
  assert (bytes_of (norm E) "protected" = from_base64url (encoded_header protectedContentHeader)) as ->
    by (unfold bytes_of; by rewrite Mp).
  rewrite parse_exact_header by done. cbn [mbind result_bind].
  rewrite (proj2 (canonicalBytesEqual_true _ _) eq_refl). cbn [require mbind result_bind].
  assert (bytes_of (norm E) "aad" = canonicalJsonBytes aad) as ->
    by (unfold bytes_of; by rewrite Ma, from_to_base64url).
  rewrite Mp, Ma, parse_exact_canonical. cbn [mbind result_bind].
  rewrite Ha1. cbn [require mbind result_bind]. rewrite canonicalBytesEqual_norm. cbn [require mbind result_bind].
  rewrite Mi, Ms, dir_roundtrip. cbn [defined mbind result_bind].
  rewrite parse_exact_canonical. cbn [mbind result_bind]. rewrite Ha2. cbn [require mbind result_bind].
  rewrite Pc, Pcs, Pd, Pds, Hdp, !commitment_Ok. cbn [mbind result_bind].
  unfold aad at 1. rewrite aad_commitment by done. by rewrite !String.eqb_refl.
Qed.

(** What is sealed can be opened: whenever [protectContent] succeeds, opening the
    envelope it returns with its key, context and content commitment succeeds and gives
    back the content and the domain payload. *)
Theorem content_roundtrip (input : ProtectContentInput) (rnd : Randomness) (r : ProtectedContentResult) :
  protectContent input rnd = Ok r ->
  openProtectedContent (pr_envelopeBytes r) (pr_dek r) (pr_aad r) (pr_contentCommitment r) =
    Ok (pc_content input, pc_domainPayload input).
Proof. apply content_opens. Qed.

(** ** What an opened envelope was *)

Lemma assert_canonical b : assertCanonicalDomainPayload b = Ok tt <-> exists v, parseExactCanonicalJson b = Some v.
Proof.
  unfold assertCanonicalDomainPayload, parse_exact. destruct (parseExactCanonicalJson b) as [v|]; simpl;
    [by split; eauto|by split; [|intros []]].
Qed.

(** The commitment of domain payloads an associated context holds. *)
Definition committed_payload (aad : json) : string :=
  match aad with
  | JObj fs => from_option (fun v => text_of v "value") "" (field fs "domain_payload_commitment")
  | _ => ""
  end.

Lemma package_salts v name :
  z_strict protectedPackage v = true -> name ∈ ["content_commitment_salt"; "domain_payload_commitment_salt"] ->
  length (bytes_of v name) = 32%nat.
Proof.
  intros (fs & -> & _ & _ & Hf)%z_strict_spec Hn.
  destruct (Hf name z_base64Url32) as (x & Hx & (s & -> & Hs)%z_string_true).
  - revert Hn. rewrite !elem_of_cons. intros [-> |[-> |[]%not_elem_of_nil]]; unfold protectedPackage; set_solver.
  - unfold bytes_of, text_of. rewrite Hx. by apply base64Url32_bytes.
Qed.

(** The package an envelope holds under a key. *)
Definition package_in (env dek : bytes) : json :=
  match parse_exact env with
  | Ok e =>
      match dir_decrypt dek (text_of e "protected") (text_of e "aad") (bytes_of e "iv") (sealed_of e) with
      | Some plain => match parse_exact plain with Ok p => p | Throw _ => JNull end
      | None => JNull
      end
  | Throw _ => JNull
  end.

Definition content_salt (env dek : bytes) : bytes := bytes_of (package_in env dek) "content_commitment_salt".
Definition payload_salt (env dek : bytes) : bytes := bytes_of (package_in env dek) "domain_payload_commitment_salt".

(** A context and a content commitment commit to a content and a payload, with salts. *)
Definition commits_to (aad : json) (c : Digest) (cs ds x p : bytes) : Prop :=
  length cs = 32%nat /\ length ds = 32%nat /\
  exists aad', norm aad' = norm aad /\ protectedContentAad aad' = true /\
    c = digestOf (preimage CONTENT_COMMITMENT_DOMAIN cs x) /\
    committed_payload aad' = value (digestOf (preimage DOMAIN_COMMITMENT_DOMAIN ds p)).

Lemma open_sound env dek aad c x p :
  openProtectedContent env dek aad c = Ok (x, p) ->
  length dek = 32%nat /\ (exists v, parseExactCanonicalJson p = Some v) /\
  commits_to aad c (content_salt env dek) (payload_salt env dek) x p.
Proof.
  unfold openProtectedContent. intros H. inv_result.
  repeat match goal with H : negb _ = false |- _ => apply negb_false_iff in H end.
  repeat match goal with H : String.eqb _ _ = true |- _ => apply String.eqb_eq in H end.
  assert (package_in env dek = a8) as Hpk.
  { unfold package_in. by repeat match goal with H : _ = Ok _ |- _ => rewrite H | H : _ = Some _ |- _ => rewrite H end. }
  rewrite commitment_Ok in Ha11, Ha12. injection Ha11 as <-. injection Ha12 as <-.
  destruct a10. split; [by apply Nat.eqb_eq|]. split; [by apply assert_canonical|].
  unfold commits_to, content_salt, payload_salt. rewrite Hpk.
  split; [by apply package_salts; [|set_solver]|]. split; [by apply package_salts; [|set_solver]|].
  exists a4. split; [by apply canonicalBytesEqual_true|]. split; [done|]. split; [|done].
  destruct c. simpl in *. by subst.
Qed.

Lemma committed_norm v : protectedContentAad v = true -> committed_payload (norm v) = committed_payload v.
Proof.
  intros (t & _ & Hs)%existsb_exists. pose proof Hs as (fs & -> & Hnd & _ & Hf)%z_strict_spec.
  destruct (Hf "domain_payload_commitment" z_digest) as (x & Hx & (ds & -> & Hd & _)%z_strict_spec).
  { unfold protectedContentAadVariant, protectedContentAadBase. set_solver. }
  rewrite norm_object. unfold committed_payload, field in *. rewrite norm_fields_get, Hx by done. cbn [fmap option_fmap option_map from_option].
  apply text_of_norm. by intros fs' [= <-].
Qed.

(** What sealing commits to: the content and payload it was given, with its own salts. *)
Lemma sealed_commits input rnd r :
  protectContent input rnd = Ok r ->
  commits_to (pr_aad r) (pr_contentCommitment r) (rnd_contentSalt rnd) (rnd_domainSalt rnd)
    (pc_content input) (pc_domainPayload input).
Proof.
  unfold protectContent. intros H. apply bind_Ok in H as ([] & _ & H). unfold exactRandom in H.
  inv_result. rewrite commitment_Ok in *. simplify_eq. cbn [pr_aad pr_contentCommitment].
  split; [by apply Nat.eqb_eq|]. split; [by apply Nat.eqb_eq|]. eexists. split; [done|]. split; [done|]. split; [done|].
  unfold committed_payload, field. by rewrite map_get_set_eq.
Qed.

(** Two values with their salts are one, or their preimages under a domain collide. *)
Definition same_committed (domain s x s' x' : bytes) : Prop :=
  x = x' \/ collides (preimage domain s x) (preimage domain s' x').

Lemma same_committed_intro domain s x s' x' :
  length s = 32%nat -> length s' = 32%nat ->
  value (digestOf (preimage domain s x)) = value (digestOf (preimage domain s' x')) -> same_committed domain s x s' x'.
Proof. intros Hs Hs' [H|H]%digestOf_inj; [left|by right]. by apply preimage_inj in H as [_ ->]. Qed.

Lemma committed_same aad c cs1 ds1 x1 p1 cs2 ds2 x2 p2 :
  commits_to aad c cs1 ds1 x1 p1 -> commits_to aad c cs2 ds2 x2 p2 ->
  same_committed CONTENT_COMMITMENT_DOMAIN cs1 x1 cs2 x2 /\ same_committed DOMAIN_COMMITMENT_DOMAIN ds1 p1 ds2 p2.
Proof.
  intros (Hc1 & Hd1 & aad1 & Hn1 & Hv1 & He1 & Hp1) (Hc2 & Hd2 & aad2 & Hn2 & Hv2 & He2 & Hp2).
  assert (committed_payload aad1 = committed_payload aad2) as Hp.
  { by rewrite <- (committed_norm aad1), <- (committed_norm aad2), Hn1, Hn2. }
  split; (apply same_committed_intro; [done|done|]); [by rewrite <- He1, <- He2|congruence].
Qed.

(** C31. Commitments bind: two envelopes, whatever their keys, that open under the same
    context and the same content commitment hold the same content and the same domain
    payload, unless the two commitment preimages at hand collide: of the contents, or of
    the payloads, each with the salt found in its own envelope. *)
Theorem content_binding (env1 dek1 env2 dek2 : bytes) (aad : json) (c : Digest) (x1 p1 x2 p2 : bytes) :
  openProtectedContent env1 dek1 aad c = Ok (x1, p1) ->
  openProtectedContent env2 dek2 aad c = Ok (x2, p2) ->
  (x1 = x2 \/ collides (preimage CONTENT_COMMITMENT_DOMAIN (content_salt env1 dek1) x1)
                       (preimage CONTENT_COMMITMENT_DOMAIN (content_salt env2 dek2) x2)) /\
  (p1 = p2 \/ collides (preimage DOMAIN_COMMITMENT_DOMAIN (payload_salt env1 dek1) p1)
                       (preimage DOMAIN_COMMITMENT_DOMAIN (payload_salt env2 dek2) p2)).
Proof. intros (_ & _ & H1)%open_sound (_ & _ & H2)%open_sound. by eapply committed_same. Qed.

(** ** Wrapped keys *)

Lemma recipient_envelope_members header aad iv x :
  text_of (norm (recipient_envelope header aad iv x)) "protected" = header /\
  text_of (norm (recipient_envelope header aad iv x)) "aad" = aad /\
  bytes_of (norm (recipient_envelope header aad iv x)) "iv" = iv /\
  sealed_of (norm (recipient_envelope header aad iv x)) = x.
Proof.
  assert (forall name, text_of (norm (recipient_envelope header aad iv x)) name =
                       text_of (recipient_envelope header aad iv x) name) as Ht.
  { intros name. apply text_of_norm. distinct_keys. }
  unfold sealed_of, bytes_of. rewrite !Ht. cbn [text_of field recipient_envelope]. simpl.
  rewrite !from_to_base64url. by destruct x.
Qed.

Lemma context_object v : dekWrapContext v = true -> exists fs, v = JObj fs /\ NoDup fs.*1.
Proof.
  intros [[H|H]%orb_true_iff _]%andb_true_iff; apply z_strict_spec in H as (fs & -> & Hnd & _); by exists fs.
Qed.

Lemma context_kid v : dekWrapContext v = true -> text_of (norm v) "recipient_kid" = text_of v "recipient_kid".
Proof. intros (fs & -> & Hnd)%context_object. apply text_of_norm. by intros fs' [= <-]. Qed.

Definition wrapped_envelope (context : json) (dek : bytes) (pub : KeyObject) (iv seed : bytes) : json :=
  let header := encoded_header (recipientHeader (text_of context "recipient_kid")) in
  let aad := to_base64url (canonicalJsonBytes context) in
  recipient_envelope header aad iv (rsa_encrypt pub seed header aad iv dek).

Lemma wrapDek_Ok context dek pub iv seed w :
  wrapDek context dek pub iv seed = Ok w ->
  length dek = 32%nat /\ rsa3072 pub = true /\ dekWrapContext context = true /\
  z_strict recipientJwe (wrapped_envelope context dek pub iv seed) = true /\
  wr_envelopeBytes w = canonicalJsonBytes (wrapped_envelope context dek pub iv seed) /\
  wr_commitment w = digestOf (wr_envelopeBytes w).
Proof.
  unfold wrapDek, assertRsa3072PublicKey. intros H. inv_result. apply Nat.eqb_eq in Ha.
  rewrite parse_digestOf in Ha3. injection Ha3 as <-. done.
Qed.

(** What both readers find in a wrapped key's envelope. *)
Lemma wrapped_reads context dek pub iv seed :
  dekWrapContext context = true ->
  z_strict recipientJwe (wrapped_envelope context dek pub iv seed) = true ->
  let E := norm (wrapped_envelope context dek pub iv seed) in
  let header := recipientHeader (text_of context "recipient_kid") in
  z_strict recipientJwe E = true /\
  parse_exact (bytes_of E "aad") = Ok (norm context) /\ dekWrapContext (norm context) = true /\
  parse_exact (bytes_of E "protected") = Ok header /\
  canonicalBytesEqual header (recipientHeader (text_of (norm context) "recipient_kid")) = true /\
  text_of E "protected" = encoded_header header /\ text_of E "aad" = to_base64url (canonicalJsonBytes context) /\
  bytes_of E "iv" = iv /\
  sealed_of E = rsa_encrypt pub seed (encoded_header header) (to_base64url (canonicalJsonBytes context)) iv dek.
Proof.
  intros Hc Hz E header. unfold wrapped_envelope in *.
  destruct (recipient_envelope_members (encoded_header header) (to_base64url (canonicalJsonBytes context)) iv
    (rsa_encrypt pub seed (encoded_header header) (to_base64url (canonicalJsonBytes context)) iv dek)) as (Mp & Ma & Mi & Ms).
  change (text_of E "protected" = encoded_header header) in Mp.
  change (text_of E "aad" = to_base64url (canonicalJsonBytes context)) in Ma.
  split; [by apply stable_recipient_jwe|]. unfold bytes_of at 1 2. rewrite Ma, Mp, from_to_base64url.
  rewrite parse_exact_canonical, parse_exact_header by apply recipient_header_sorted.
  split; [done|]. split; [by apply stable_context|]. split; [done|].
  rewrite context_kid by done. split; [by apply canonicalBytesEqual_true|]. done.
Qed.

Lemma other_context context other :
  norm other <> norm context -> canonicalBytesEqual (norm context) other = false.
Proof.
  intros Hn. apply not_true_iff_false. rewrite canonicalBytesEqual_true, norm_norm. intros H. by apply Hn.
Qed.

(** A wrapped key reaches its recipient and no other context: whenever [wrapDek]
    succeeds, the holder of the matching private key unwraps the same key under the same
    context, the envelope is accepted for its commitment and context, and it is accepted
    for no other context, nor does it unwrap under another. *)
Theorem wrap_roundtrip (context : json) (dek : bytes) (pub priv : KeyObject) (iv seed : bytes) (w : WrappedDekResult) :
  wrapDek context dek pub iv seed = Ok w -> length iv = 12%nat -> key_pair priv pub ->
  unwrapDek (wr_envelopeBytes w) priv context = Ok dek /\
  verifyWrappedDekEnvelope (wr_commitment w) context (wr_envelopeBytes w) = true /\
  (forall other c, norm other <> norm context -> verifyWrappedDekEnvelope c other (wr_envelopeBytes w) = false) /\
  (forall other k, norm other <> norm context -> unwrapDek (wr_envelopeBytes w) k other = Throw type_error).
Proof.
  intros (Hdek & Hrsa & Hctx & Hz & He & Hcm)%wrapDek_Ok Hiv Hpair. rewrite Hcm, !He.
  pose proof (wrapped_reads _ _ _ _ _ Hctx Hz) as (R1 & R2 & R3 & R4 & R5 & R6 & R7 & R8 & R9).
  set (E := wrapped_envelope _ _ _ _ _) in *.
  destruct (rsa_lengths pub seed (encoded_header (recipientHeader (text_of context "recipient_kid")))
    (to_base64url (canonicalJsonBytes context)) iv dek) as (L1 & L2 & L3).
  rewrite <- R9 in L1, L2, L3. cbn [sealed_of encrypted_key ciphertext tag] in L1, L2, L3.
  split; [|split; [|split]].
  - unfold unwrapDek. rewrite parse_exact_canonical. cbn [mbind result_bind]. rewrite R1. cbn [require mbind result_bind].
    rewrite R2. cbn [mbind result_bind]. rewrite R3, canonicalBytesEqual_norm. cbn [require mbind result_bind].
    rewrite R4. cbn [mbind result_bind]. rewrite R5. cbn [require mbind result_bind].
    rewrite R6, R7, R8, R9, rsa_roundtrip by done. cbn [defined mbind result_bind].
    by rewrite (proj2 (Nat.eqb_eq _ _) Hdek).
  - unfold verifyWrappedDekEnvelope, verify_envelope. rewrite parse_exact_canonical. cbn [mbind result_bind].
    rewrite R1. cbn [require mbind result_bind]. rewrite R2. cbn [mbind result_bind].
    rewrite R3, canonicalBytesEqual_norm. cbn [require mbind result_bind negb].
    rewrite R4. cbn [mbind result_bind]. rewrite R5. cbn [negb].
    rewrite R8, Hiv, L1, L2, L3, Hdek, parse_digestOf. cbn [Nat.eqb negb orb mbind result_bind]. apply String.eqb_refl.
  - intros other c Hn. unfold verifyWrappedDekEnvelope, verify_envelope. rewrite parse_exact_canonical. cbn [mbind result_bind].
    rewrite R1. cbn [require mbind result_bind]. rewrite R2. cbn [mbind result_bind].
    by rewrite R3, other_context.
  - intros other k Hn. unfold unwrapDek. rewrite parse_exact_canonical. cbn [mbind result_bind].
    rewrite R1. cbn [require mbind result_bind]. rewrite R2. cbn [mbind result_bind]. by rewrite R3, other_context.
Qed.
End CryptoFacts.

(** ** Exact canonical JSON *)

Lemma decode_low x : code_of_byte x < 128 -> encode_char (char_of_code (code_of_byte x)) = [x].
Proof. destruct x; intros H; solve [reflexivity | exfalso; vm_compute in H; discriminate H]. Qed.

Lemma decode_high x y :
  ((code_of_byte x =? 194) || (code_of_byte x =? 195)) && (128 <=? code_of_byte y) && (code_of_byte y <? 192) = true ->
  encode_char (char_of_code ((code_of_byte x - 192) * 64 + (code_of_byte y - 128))) = [x; y].
Proof.
  rewrite !andb_true_iff, orb_true_iff. intros [[[H|H] H1] H2];
    (destruct x; vm_compute in H; try discriminate H); clear H;
    (destruct y; vm_compute in H1; try discriminate H1; vm_compute in H2; try discriminate H2); reflexivity.
Qed.

Lemma decode_chars_Some b l : decode_chars b = Some l -> b = l ≫= encode_char.
Proof.
  revert l. induction b as [b IH] using (induction_ltof1 _ (@length Byte.byte)). unfold ltof in IH.
  intros l. destruct b as [|x b]; simpl; [by intros [= <-]|].
  destruct (Z.ltb_spec (code_of_byte x) 128) as [Hx|Hx].
  - destruct (decode_chars b) as [l'|] eqn:Hd; simpl; [|done]. intros [= <-].
    rewrite bind_cons, decode_low by done. simpl. f_equal. apply IH; [simpl; lia|done].
  - destruct b as [|y b]; [done|]. destruct (_ && _) eqn:Hxy; [|done].
    destruct (decode_chars b) as [l'|] eqn:Hd; simpl; [|done]. intros [= <-].
    rewrite bind_cons, decode_high by done. simpl. do 2 f_equal. apply IH; [simpl; lia|done].
Qed.

Lemma text_decode_Some b s : text_decode b = Some s <-> b = text_encode s \/ b = BOM ++ text_encode s.
Proof.
  split; [|intros [-> | ->]; [apply text_decode_encode|apply decode_bom]].
  unfold text_decode, strip_bom. intros H.
  destruct (decode_chars _) as [l|] eqn:Hd; simpl in H; [|done]. injection H as <-.
  apply decode_chars_Some in Hd. unfold text_encode. rewrite list_ascii_of_string_of_list_ascii.
  case_bool_decide as Hb; [right|left; done]. by rewrite <- (take_drop 3 b), Hb, Hd.
Qed.

Section Exact.
Context {HC : CanonicalJson}.

(** Exact canonical JSON: bytes are accepted exactly when they are the canonical form
    of the value returned, or that form after a UTF-8 byte order mark: the mark, which
    RFC 8785 does not allow, is dropped by the decoder before the comparison. *)
Theorem exact_canonical (b : bytes) (v : json) :
  parseExactCanonicalJson b = Some v <->
  norm v = v /\ (b = canonicalJsonBytes v \/ b = BOM ++ canonicalJsonBytes v).
Proof.
  unfold canonicalJsonBytes. rewrite <- text_decode_Some. split.
  - intros H. pose proof (parseExact_Some _ _ H) as Ht. split; [|done].
    apply parseExact_text in Ht. congruence.
  - intros [Hn Ht]. apply parseExact_text in Ht. congruence.
Qed.
End Exact.

(** ** Sample *)

Module Sample.
Import Json.Sample Signatures.Sample.

(** A cipher that hides nothing, bound to nothing, with the lengths of the real one. *)
Definition sample_sealed (plain : bytes) : Sealed := mkSealed (repeat Byte.x00 384) plain (repeat Byte.x00 16).

#[global] Program Instance sample_jose : Jose := {|
  jose_header := canonicalJson;
  key_pair k k' := spki k = spki k';
  dir_encrypt _ _ _ _ plain := sample_sealed plain;
  dir_decrypt _ _ _ _ s := Some (ciphertext s);
  rsa_encrypt k _ _ _ _ plain := mkSealed (take 384 (spki k ++ repeat Byte.x00 384)) plain (repeat Byte.x00 16);
  rsa_decrypt k _ _ _ s :=
    if bool_decide (encrypted_key s = take 384 (spki k ++ repeat Byte.x00 384)) then Some (ciphertext s) else None;
  pss_sign _ _ := repeat Byte.x00 384;
  pss_verify _ _ _ := Some true
|}.
Next Obligation. done. Qed.
Next Obligation. done. Qed.
Next Obligation. done. Qed.
Next Obligation. intros priv pub seed header aad iv plain H. simpl in *. by rewrite H, bool_decide_true. Qed.
Next Obligation.
  intros pub seed header aad iv plain. cbn [encrypted_key ciphertext tag]. unfold bytes in *. split; [|done]. rewrite length_take, length_app, repeat_length. lia.
Qed.

Definition key_of (b : Byte.byte) (private : bool) : KeyObject :=
  mkKeyObject private (Some "rsa") (Some 3072) (Some 65537) [b] [b].

Definition sample_aad : object :=
  [("schema", JStr "EVLLM_PROTECTED_CONTENT_AAD_V1"); ("bundle_id", JStr (sample_urn "bundle"));
   ("bundle_version", JNum 1); ("bundle_type", JStr "evidence"); ("domain_resource_id", JStr (sample_urn "evidence"));
   ("domain_resource_version", JNum 1); ("custody_controller_org_id", JStr (sample_urn "org"));
   ("primary_repository_id", JStr (sample_urn "repository")); ("content_schema_id", JStr (sample_urn "schema"));
   ("content_schema_version", JStr "1.0.0"); ("access_class", JStr "restricted");
   ("initial_criticality_class", JStr "supplementary"); ("criticality_profile_id", JStr (sample_urn "profile"));
   ("criticality_profile_version", JNum 1)].

Definition sample_input : ProtectContentInput :=
  mkProtectInput sample_aad [Byte.x01; Byte.x02] "text/plain" (canonicalJsonBytes (JNum 1)).

Definition fresh (b : Byte.byte) : Randomness := mkRandomness (repeat b 32) (repeat b 12) (repeat b 32) (repeat b 32).

Lemma sample_seals : is_ok (protectContent sample_input (fresh Byte.x05)) <> false.
Proof. vm_compute. discriminate. Qed.

Lemma content_roundtrip_witness :
  exists r, protectContent sample_input (fresh Byte.x05) = Ok r /\
    openProtectedContent (pr_envelopeBytes r) (pr_dek r) (pr_aad r) (pr_contentCommitment r) =
      Ok ([Byte.x01; Byte.x02], canonicalJsonBytes (JNum 1)).
Proof.
  destruct (protectContent sample_input (fresh Byte.x05)) as [r|] eqn:H; [|exfalso; apply sample_seals; by rewrite H].
  exists r. split; [reflexivity|]. apply (content_roundtrip sample_input (fresh Byte.x05) r H).
Defined.

Lemma content_binding_witness :
  exists r, protectContent sample_input (fresh Byte.x05) = Ok r /\
    (pc_content sample_input = pc_content sample_input \/
     collides (preimage CONTENT_COMMITMENT_DOMAIN (content_salt (pr_envelopeBytes r) (pr_dek r)) (pc_content sample_input))
              (preimage CONTENT_COMMITMENT_DOMAIN (content_salt (pr_envelopeBytes r) (pr_dek r)) (pc_content sample_input))).
Proof.
  destruct (protectContent sample_input (fresh Byte.x05)) as [r|] eqn:H; [|exfalso; apply sample_seals; by rewrite H].
  exists r. split; [reflexivity|].
  assert (openProtectedContent (pr_envelopeBytes r) (pr_dek r) (pr_aad r) (pr_contentCommitment r) =
            Ok (pc_content sample_input, pc_domainPayload sample_input)) as Ho by (by eapply content_opens).
  apply (content_binding _ _ _ _ _ _ _ _ _ _ Ho Ho).
Defined.

Definition sample_digest : Digest := mkDigest "SHA-256" "AAAAAAAAAAAAAAAAAAAAAAAAAAAAAAAAAAAAAAAAAAA".

Definition sample_context (purpose authorization scope : string) : json :=
  JObj [("schema", JStr "EVLLM_DEK_WRAP_CONTEXT_V1"); ("envelope_id", JStr (sample_urn "envelope"));
        ("bundle_id", JStr (sample_urn "bundle")); ("bundle_version", JNum 1); ("bundle_type", JStr "evidence");
        ("domain_resource_id", JStr (sample_urn "evidence")); ("domain_resource_version", JNum 1);
        ("domain_payload_commitment", digest_json sample_digest); ("content_commitment", digest_json sample_digest);
        ("content_envelope_digest", digest_json sample_digest); ("recipient_org_id", JStr (sample_urn "org"));
        ("recipient_kid", JStr ("urn:ietf:params:oauth:jwk-thumbprint:sha-256:" +:+ value sample_digest)%string);
        ("purpose", JStr purpose); ("authorization_id", JStr authorization); ("scope", JStr scope)].

Lemma sample_wraps :
  is_ok (wrapDek (sample_context "review" (sample_urn "grant") "protected-bundle:decrypt")
           (repeat Byte.x07 32) (key_of Byte.x01 false) (repeat Byte.x05 12) []) <> false.
Proof. vm_compute. discriminate. Qed.

Lemma wrap_roundtrip_witness :
  exists w, wrapDek (sample_context "review" (sample_urn "grant") "protected-bundle:decrypt")
              (repeat Byte.x07 32) (key_of Byte.x01 false) (repeat Byte.x05 12) [] = Ok w /\
    unwrapDek (wr_envelopeBytes w) (key_of Byte.x01 true)
      (sample_context "review" (sample_urn "grant") "protected-bundle:decrypt") = Ok (repeat Byte.x07 32).
Proof.
  destruct (wrapDek (sample_context "review" (sample_urn "grant") "protected-bundle:decrypt")
              (repeat Byte.x07 32) (key_of Byte.x01 false) (repeat Byte.x05 12) []) as [w|] eqn:H;
    [|exfalso; apply sample_wraps; by rewrite H].
  exists w. split; [reflexivity|].
  apply (wrap_roundtrip _ _ (key_of Byte.x01 false) (key_of Byte.x01 true) _ _ w H); reflexivity.
Defined.
End Sample.
