(* ===== verification/KeyOperations.v ===== *)
(** * Consumed key-operation authorizations

    [src/src/evidence/key-operation-authorization-repository.ts]: the process-local
    repository ([InMemoryKeyOperationAuthorizationRepository]) and the record schema
    [keyOperationAuthorization] of [src/src/schemas/bundle-records.ts]. The PostgreSQL
    repository is SQL and not modelled; it states the same contract, which the service
    is proved against: [consume] is atomic, refuses a known authorization or nonce scope
    and may be unavailable. *)

From S2P Require Import Prelude Regex Digits Base64 Schemas Storage Json Hex Signatures Protection.

Local Open Scope Z_scope.

Definition z_timestamp : json -> bool := z_number timestamp.
Definition z_starts_with (prefix_ : string) : json -> bool := z_string (String.prefix prefix_).
Definition z_array (item : json -> bool) (lower upper : Z) (v : json) : bool :=
  match v with JArr l => array item lower upper l | _ => false end.

(** [base64Url.refine((value) => Buffer.from(value, "base64url").length === 65)] *)
Definition z_signature : json -> bool :=
  z_string (fun s => base64Url s && (length (from_base64url s) =? 65)%nat).

Definition z_ref : json -> bool :=
  z_strict [("id", z_string (fun s => (1 <=? String.length s)%nat)); ("version", z_positive)].

Definition keyOperationAuthorization_fields : shape :=
  [("schema", z_literal "EVLLM_KEY_OPERATION_AUTHORIZATION_V1"); ("authorization_id", z_urn "authorization");
   ("authorization_version", z_positive); ("issuer_service_actor_id", z_urn "actor");
   ("issuer_service_organization_id", z_urn "org"); ("issuer_service_credential_id", z_urn "credential");
   ("issuer_service_address", z_address); ("repository_id", z_urn "repository");
   ("operation", z_string shortText); ("requesting_actor_id", z_urn "actor");
   ("requesting_organization_id", z_urn "org"); ("requesting_credential_id", z_urn "credential");
   ("bundle_id", z_urn "bundle"); ("bundle_version", z_positive);
   ("bundle_type", z_enum (bundle_type_text <$> bundleTypes)); ("domain_resource_id", z_starts_with "urn:evllm:");
   ("domain_resource_version", z_positive); ("purpose_id", z_urn "policy"); ("policy_id", z_urn "policy");
   ("policy_version", z_positive); ("source_authority_ids", z_array (z_starts_with "urn:evllm:") 1 16);
   ("source_authority_digest", z_digest); ("operation_context_digest", z_digest); ("nonce", z_uint256);
   ("issued_at", z_timestamp); ("expires_at", z_timestamp); ("idempotency_key_hash", z_bytes32);
   ("signature", z_signature); ("typed_data_digest", z_bytes32); ("signature_digest", z_digest);
   ("state", z_enum ["issued"; "consumed"; "expired"; "rejected"])].

(** [result_ref] is optional. *)
Definition keyOperationAuthorization (v : json) : bool :=
  z_strict keyOperationAuthorization_fields v ||
  z_strict (keyOperationAuthorization_fields ++ [("result_ref", z_ref)]) v.

(** ** The repository *)

Inductive RepositoryError := repo_replay | repo_unavailable.

(** [InMemoryKeyOperationAuthorizationState]; records are copied in and out. *)
Record AuthorizationState := mkAuthorizations {
  authorizations : list (string * json);
  nonceScopes : list string
}.

Definition authorizationKey (authorizationId : string) (authorizationVersion : Z) : string :=
  versionKey authorizationId authorizationVersion.

Definition number_of (v : json) (name : string) : Z :=
  match v with
  | JObj fs => match field fs name with Some (JNum n) => n | _ => 0 end
  | _ => 0
  end.

Definition record_key (record : json) : string :=
  authorizationKey (text_of record "authorization_id") (number_of record "authorization_version").

Definition consume (s : AuthorizationState) (record : json) (nonceScope : string) :
    result RepositoryError AuthorizationState :=
  let key := record_key record in
  _ ← require (negb (map_has key (authorizations s) || includes nonceScope (nonceScopes s))) repo_replay;
  Ok (mkAuthorizations (map_set key record (authorizations s)) (nonceScopes s ++ [nonceScope])).

Definition find (s : AuthorizationState) (authorizationId : string) (authorizationVersion : Z) : option json :=
  map_get (authorizationKey authorizationId authorizationVersion) (authorizations s).

(** ** Facts *)

Lemma consume_Ok s r scope s' :
  consume s r scope = Ok s' <->
  map_get (record_key r) (authorizations s) = None /\ scope ∉ nonceScopes s /\
  s' = mkAuthorizations (authorizations s ++ [(record_key r, r)]) (nonceScopes s ++ [scope]).
Proof.
  unfold consume. destruct (map_has (record_key r) (authorizations s)) eqn:Hk; simpl.
  { split; [done|]. intros (Hn & _). apply map_has_true in Hk as [v Hv]. congruence. }
  apply map_has_false in Hk. destruct (includes scope (nonceScopes s)) eqn:Hs; simpl.
  { split; [done|]. intros (_ & Hn & _). by apply includes_true in Hs. }
  apply includes_false in Hs. rewrite map_set_fresh by done. split; [intros [= <-]; done|by intros (_ & _ & ->)].
Qed.

(** Authorizations and scopes are only added, each once; a consumed record stays. *)
Record grows (s s' : AuthorizationState) : Prop := {
  grows_records : authorizations s `prefix_of` authorizations s';
  grows_scopes : nonceScopes s `prefix_of` nonceScopes s'
}.

Definition all_distinct (s : AuthorizationState) : Prop :=
  NoDup (authorizations s).*1 /\ NoDup (nonceScopes s).

#[global] Instance grows_preorder : PreOrder grows.
Proof.
  split; [by split|]. intros x y z [H1 H2] [H3 H4]. split; by etrans.
Qed.

Lemma consume_grows s r scope s' : consume s r scope = Ok s' -> grows s s'.
Proof. intros (_ & _ & ->)%consume_Ok. split; simpl; by apply prefix_app_r. Qed.

Lemma consume_distinct s r scope s' : consume s r scope = Ok s' -> all_distinct s -> all_distinct s'.
Proof.
  intros (Hk & Hs & ->)%consume_Ok [H1 H2]. apply map_get_None in Hk. split; simpl.
  - rewrite fmap_app. apply NoDup_app. split; [done|]. split; [|by apply NoDup_singleton].
    intros k Hin ->%list_elem_of_singleton. done.
  - apply NoDup_app. split; [done|]. split; [|by apply NoDup_singleton].
    intros k Hin ->%list_elem_of_singleton. done.
Qed.

Lemma consume_fresh s r scope s' : consume s r scope = Ok s' -> map_has (record_key r) (authorizations s) = false.
Proof. intros (Hk & _)%consume_Ok. by apply map_has_false. Qed.

Lemma consume_has s r scope s' : consume s r scope = Ok s' -> map_has (record_key r) (authorizations s') = true.
Proof.
  intros (Hk & _ & ->)%consume_Ok. apply map_has_true. exists r. simpl.
  rewrite <- map_set_fresh by done. apply map_get_set_eq.
Qed.

Lemma grows_has s s' k : grows s s' -> map_has k (authorizations s) = true -> map_has k (authorizations s') = true.
Proof.
  intros [[l Hl] _] [v Hv]%map_has_true. apply map_has_true. rewrite Hl. exists v. revert Hv. clear.
  induction (authorizations s) as [|[k' v'] m IH]; simpl; [done|]. by case_decide.
Qed.
