(* ===== verification/Bundle.v ===== *)
(** * The evidence bundle service: state and messages

    [src/src/evidence/evidence-bundle-service.ts], [EvidenceBundleService]: its state, the
    messages its callers sign and the checks of the proofs they return. The operations
    are in BundleService.v.

    A prepared bundle is one object that the maps by idempotency key and by bundle
    identifier share and the operations update: both maps hold addresses in a heap of
    records. *)

From S2P Require Import Prelude Regex Digits Base64 Schemas KeyLifecycle Storage Json Hex Signatures Protection KeyOperations.

Local Open Scope Z_scope.

Inductive ServiceError :=
| svc_conflict | svc_invalid_proof | svc_invalid_state | svc_not_found | svc_policy_denied
| svc_zod                                  (* the input payload is refused by its schema *)
| svc_crypto (e : CryptoError) | svc_key (e : KeyError) | svc_storage (e : Storage.RepositoryError).

(** [keccak256] of ethers *)
Class Keccak256 := {
  keccak256 : bytes -> bytes;
  keccak256_length b : length (keccak256 b) = 32%nat
}.

(** ** Principals, proofs and configuration *)

Record ServicePrincipal := mkPrincipal { pr_actorId : string; pr_credentialId : string; pr_organizationId : string }.

Record SignedProof := mkProof { sp_message : object; sp_signature : string }.

Definition proof_json (p : SignedProof) : json :=
  JObj [("message", JObj (sp_message p)); ("signature", JStr (sp_signature p))].

Record KeyOperationAuthorizationClaims := mkClaims {
  cl_authorizationId : string; cl_authorizationVersion : Z; cl_policyId : string; cl_policyVersion : Z;
  cl_purposeId : string; cl_requester : ServicePrincipal
}.

Record KeyOperationAuthorizationWindow := mkWindow {
  w_expiresAt : Z; w_idempotencyKeyHash : string; w_issuedAt : Z; w_nonce : string
}.

Record SignedKeyOperationAuthorization := mkSignedOperation {
  so_claims : KeyOperationAuthorizationClaims; so_proof : SignedProof
}.

Record KeyMaterialAcknowledgementWindow := mkAckWindow {
  aw_acknowledgementId : string; aw_acknowledgementVersion : Z; aw_expiresAt : Z; aw_issuedAt : Z; aw_nonce : string
}.

Record SignedKeyMaterialAcknowledgement := mkAck {
  ack_acknowledgementId : string; ack_acknowledgementVersion : Z;
  ack_keyPossessionProof : RsaKeyPossessionProof; ack_proof : SignedProof; ack_signer : ServicePrincipal
}.

Record GrantEnvelopeTarget := mkGrantTarget {
  gt_bundleId : string; gt_currentTime : Z; gt_effectiveAt : Z; gt_expiresAt : Z; gt_grantId : string;
  gt_purpose : string; gt_recipientEnvelopeId : string; gt_recipientKeyId : string; gt_recipientKid : string;
  gt_recipientOrganizationId : string; gt_recipientPublicKeySpkiSha256 : Digest
}.

Record ControllerEnvelopeRotationTarget := mkRotationTarget {
  rt_bundleId : string; rt_currentTime : Z; rt_predecessorAuthorizationId : string;
  rt_successorAuthorizationId : string; rt_successorEnvelopeId : string; rt_successorKeyId : string;
  rt_successorKid : string; rt_successorPublicKeySpkiSha256 : Digest
}.

Inductive KeyMaterialAcknowledgementTarget :=
| ack_rotation (t : ControllerEnvelopeRotationTarget) | ack_grant (t : GrantEnvelopeTarget).

Inductive KeyOperationAuthorizationTarget :=
| op_finalize (bundleId : string) (finalization : SignedProof)
| op_rotate (t : ControllerEnvelopeRotationTarget)
| op_grant (t : GrantEnvelopeTarget)
| op_decrypt (bundleId : string) (currentTime : Z) (grantId recipientEnvelopeId : string).

Definition operation_text (t : KeyOperationAuthorizationTarget) : string :=
  match t with
  | op_finalize _ _ => "verify-and-finalize-staging"
  | op_rotate _ => "rotate-controller-envelope"
  | op_grant _ => "create-grant-envelope"
  | op_decrypt _ _ _ _ => "decrypt-with-grant"
  end.

Definition target_bundleId (t : KeyOperationAuthorizationTarget) : string :=
  match t with
  | op_finalize b _ => b | op_rotate t => rt_bundleId t | op_grant t => gt_bundleId t | op_decrypt b _ _ _ => b
  end.

Definition ack_operation (t : KeyMaterialAcknowledgementTarget) : KeyOperationAuthorizationTarget :=
  match t with ack_rotation t => op_rotate t | ack_grant t => op_grant t end.

(** The two stores of the configuration. *)
Inductive StoreName := primaryStore | replicaStore.

Record EvidenceBundleServiceConfig := mkConfig {
  cfg_chainId : Z;
  cfg_controllerRepositoryId : string;
  cfg_credentialAt : string -> Z -> option CredentialAcceptance;
  cfg_authorizer : ServicePrincipal;
  cfg_authorizerAddress : string;
  cfg_acknowledgementCredentialAt : ServicePrincipal -> Z -> option (CredentialAcceptance * string);
  cfg_maxProofLifetimeSeconds : Z;
  cfg_registryAddress : string;
  cfg_replicaRepositoryId : string;
  cfg_store : StoreName -> Memory.MemoryObjectStore
}.

(** ** Records *)

(** The fields of [PreparedInternal] that never change. *)
Record PreparedFields := mkFields {
  f_aad : json; f_authorBindingProfileId : string; f_authorBindingProfileVersion : Z; f_bundleId : string;
  f_contentCommitment : Digest; f_contentEnvelopeDigest : Digest; f_controllerActorId : string;
  f_controllerCredentialId : string; f_controllerOrganizationId : string; f_descriptorDigest : string;
  f_domainPayload : bytes; f_domainPayloadCommitment : Digest; f_finalObjectId : string;
  f_idempotencyFingerprint : string; f_initialCriticality : string; f_intendedAuthorActorId : string;
  f_intendedAuthorCredentialId : string; f_intendedAuthorOrganizationId : string; f_signatureRecordId : string;
  f_resourceId : string; f_resourceVersion : Z; f_stagingId : string; f_stagingObjectId : string;
  f_storedEnvelopeLength : Z
}.

(** Those a rotation replaces together. *)
Record Custody := mkCustody {
  c_authorizationId : string; c_encryptionKeyId : string; c_kid : string; c_spki : Digest;
  c_wrapContext : json; c_envelope : bytes; c_envelopeId : string
}.

Record PreparedInternal := mkPreparedInternal {
  fields : PreparedFields; custody : Custody; finalized : bool; critical : bool; replicaObjectId : option string
}.

Record RecipientEnvelopeRecord := mkRecipient {
  re_bytes : bytes; re_commitment : Digest; re_context : json; re_grantId : string; re_policyId : string;
  re_policyVersion : Z; re_purpose : string; re_purposeId : string; re_recipientKeyId : string;
  re_recipientKid : string; re_recipientOrganizationId : string; re_recipientPublicKeySpkiSha256 : Digest
}.

Record FinalizedEvidenceBundleRecord := mkFinalized {
  fr_attestation : SignedProof; fr_bundleId : string; fr_contentCommitment : Digest;
  fr_contentEnvelopeDigest : Digest; fr_domainPayloadCommitment : Digest; fr_finalization : SignedProof;
  fr_finalizedAt : Z; fr_primaryObjectId : string; fr_replicaObjectId : option string;
  fr_storedEnvelopeLength : Z
}.

(** What the service returns of a prepared bundle. *)
Record PreparedEvidence := mkPreparedEvidence {
  pe_bundleId : string; pe_contentCommitment : Digest; pe_contentEnvelopeDigest : Digest;
  pe_controllerEnvelope : bytes; pe_controllerEnvelopeId : string; pe_descriptorDigest : string;
  pe_domainPayload : bytes; pe_domainPayloadCommitment : Digest; pe_finalObjectId : string; pe_stagingId : string;
  pe_stagingObjectId : string; pe_storedEnvelopeLength : Z
}.

Definition publicPreparation (r : PreparedInternal) : PreparedEvidence :=
  mkPreparedEvidence (f_bundleId (fields r)) (f_contentCommitment (fields r)) (f_contentEnvelopeDigest (fields r))
    (c_envelope (custody r)) (c_envelopeId (custody r)) (f_descriptorDigest (fields r)) (f_domainPayload (fields r))
    (f_domainPayloadCommitment (fields r)) (f_finalObjectId (fields r)) (f_stagingId (fields r))
    (f_stagingObjectId (fields r)) (f_storedEnvelopeLength (fields r)).

(** ** The state *)

(** The nonce stores of the service. *)
Inductive NonceStoreName := controllerNonceStore | domainNonceStore | keyMaterialAcknowledgementNonceStore.

#[global] Instance NonceStoreName_eq_dec : EqDecision NonceStoreName.
Proof. solve_decision. Defined.

Record PendingNonceConsumption := mkPendingNonce { pn_scope : string; pn_store : NonceStoreName }.

Record PreparedKeyOperationAuthorization := mkPreparedOperation { po_nonceScope : string; po_record : json }.

(** [objects] and [repository] are what the stores and the authorization repository hold.
    [outages] is the future of those collaborators: each asynchronous request to one of
    them takes the next entry, and fails as unavailable when it is [true]. *)
Record State := mkState {
  heap : list PreparedInternal;
  byIdempotency : list (string * address);
  byBundle : list (string * address);
  nonces : NonceStoreName -> list string;
  finalizedRecords : list (string * FinalizedEvidenceBundleRecord);
  keyLifecycle : KeyLifecycleRegistry;
  recipientEnvelopes : list (string * RecipientEnvelopeRecord);
  objects : Memory.Objects;
  repository : AuthorizationState;
  outages : list bool
}.

(** [new EvidenceBundleService(config, keyLifecycle)] on empty stores *)
Definition new_service (lifecycle : KeyLifecycleRegistry) (outs : list bool) : State :=
  mkState [] [] [] (fun _ => []) [] lifecycle [] [] (mkAuthorizations [] []) outs.

Definition set_heap (h : list PreparedInternal) (s : State) : State :=
  mkState h (byIdempotency s) (byBundle s) (nonces s) (finalizedRecords s) (keyLifecycle s)
    (recipientEnvelopes s) (objects s) (repository s) (outages s).
Definition set_nonces (n : NonceStoreName -> list string) (s : State) : State :=
  mkState (heap s) (byIdempotency s) (byBundle s) n (finalizedRecords s) (keyLifecycle s)
    (recipientEnvelopes s) (objects s) (repository s) (outages s).
Definition set_finalized (f : list (string * FinalizedEvidenceBundleRecord)) (s : State) : State :=
  mkState (heap s) (byIdempotency s) (byBundle s) (nonces s) f (keyLifecycle s)
    (recipientEnvelopes s) (objects s) (repository s) (outages s).
Definition set_lifecycle (k : KeyLifecycleRegistry) (s : State) : State :=
  mkState (heap s) (byIdempotency s) (byBundle s) (nonces s) (finalizedRecords s) k
    (recipientEnvelopes s) (objects s) (repository s) (outages s).
Definition set_recipients (m : list (string * RecipientEnvelopeRecord)) (s : State) : State :=
  mkState (heap s) (byIdempotency s) (byBundle s) (nonces s) (finalizedRecords s) (keyLifecycle s)
    m (objects s) (repository s) (outages s).
Definition set_objects (o : Memory.Objects) (s : State) : State :=
  mkState (heap s) (byIdempotency s) (byBundle s) (nonces s) (finalizedRecords s) (keyLifecycle s)
    (recipientEnvelopes s) o (repository s) (outages s).
Definition set_repository (r : AuthorizationState) (s : State) : State :=
  mkState (heap s) (byIdempotency s) (byBundle s) (nonces s) (finalizedRecords s) (keyLifecycle s)
    (recipientEnvelopes s) (objects s) r (outages s).
Definition set_outages (o : list bool) (s : State) : State :=
  mkState (heap s) (byIdempotency s) (byBundle s) (nonces s) (finalizedRecords s) (keyLifecycle s)
    (recipientEnvelopes s) (objects s) (repository s) o.

(** A new record under both keys. *)
Definition new_record (idempotencyHash bundleId : string) (r : PreparedInternal) (s : State) : State :=
  mkState (heap s ++ [r]) (map_set idempotencyHash (length (heap s)) (byIdempotency s))
    (map_set bundleId (length (heap s)) (byBundle s)) (nonces s) (finalizedRecords s) (keyLifecycle s)
    (recipientEnvelopes s) (objects s) (repository s) (outages s).

(** An assignment to fields of the record at an address. *)
Definition write (a : address) (f : PreparedInternal -> PreparedInternal) (s : State) : State :=
  set_heap (alter f a (heap s)) s.

(** [this.record(bundleId)]: the address and what it holds. *)
Definition record (s : State) (bundleId : string) : result ServiceError (address * PreparedInternal) :=
  defined (deref (byBundle s) (heap s) bundleId) svc_not_found.

(** ** Helpers *)

Section Messages.
Context {HC : CanonicalJson} {HSha : Sha256} {HKeccak : Keccak256} {HJose : Jose} {HTyped : TypedData}.
Context (config : EvidenceBundleServiceConfig).

Definition digestHex (d : Digest) : string := ("0x" +:+ to_hex (from_base64url (value d)))%string.
Definition sha256Hex (b : bytes) : string := ("0x" +:+ to_hex (sha256 b))%string.
Definition digestObject (b : bytes) : Digest := digestOf b.

Definition digestFromHex (v : string) : result ServiceError Digest :=
  _ ← require (rtest (rx "^0x[0-9a-f]{64}$") v) svc_invalid_proof;
  Ok (mkDigest "SHA-256" (to_base64url (from_hex (slice_from 2 v)))).

Definition signatureBase64Url (v : string) : result ServiceError string :=
  _ ← require (rtest (rx "^0x[0-9a-f]{130}$") v) svc_invalid_proof;
  Ok (to_base64url (from_hex (slice_from 2 v))).

Definition keccakHex (s : string) : string := ("0x" +:+ to_hex (keccak256 (text_encode s)))%string.
Definition idHash (v : string) : string := keccakHex ("EVLLM_ID_V1" +:+ NUL +:+ v).
Definition bundleTypeHash (v : string) : string := keccakHex ("EVLLM_LITERAL_V1" +:+ NUL +:+ "bundle-type" +:+ NUL +:+ v).
Definition keyOperationHash (v : string) : string :=
  keccakHex ("EVLLM_LITERAL_V1" +:+ NUL +:+ "key-operation" +:+ NUL +:+ v).

Definition stringField (o : object) (name : string) : result ServiceError string :=
  match field o name with Some (JStr s) => Ok s | _ => Throw svc_invalid_proof end.

Definition numberField (o : object) (name : string) : result ServiceError Z :=
  match field o name with
  | Some (JNum n) => _ ← require (isSafeInteger n) svc_invalid_proof; Ok n
  | _ => Throw svc_invalid_proof
  end.

Definition json_of_digest (d : Digest) : json := digest_json d.
Definition strings (l : list string) : json := JArr (JStr <$> l).

(** ** Messages to sign *)

Record Binding := mkBinding {
  b_operation : string; b_operationContext : json; b_record : PreparedInternal; b_sourceAuthorityIds : list string
}.

Definition finalize_context (r : PreparedInternal) (finalization : SignedProof) : json :=
  JObj [("staging_id", JStr (f_stagingId (fields r))); ("staging_object_id", JStr (f_stagingObjectId (fields r)));
        ("staging_descriptor_digest", JStr (f_descriptorDigest (fields r)));
        ("controller_authorization_id", JStr (c_authorizationId (custody r)));
        ("controller_envelope_id", JStr (c_envelopeId (custody r)));
        ("controller_encryption_key_id", JStr (c_encryptionKeyId (custody r)));
        ("content_envelope_digest", digest_json (f_contentEnvelopeDigest (fields r)));
        ("stored_envelope_length", JNum (f_storedEnvelopeLength (fields r)));
        ("finalization_proof_digest", digest_json (digestObject (canonicalJsonBytes (proof_json finalization))))].

Definition rotate_context (r : PreparedInternal) (t : ControllerEnvelopeRotationTarget) : json :=
  JObj [("predecessor_authorization_id", JStr (rt_predecessorAuthorizationId t));
        ("predecessor_envelope_id", JStr (c_envelopeId (custody r)));
        ("predecessor_key_id", JStr (c_encryptionKeyId (custody r)));
        ("predecessor_public_key_spki_sha256", digest_json (c_spki (custody r)));
        ("successor_authorization_id", JStr (rt_successorAuthorizationId t));
        ("successor_envelope_id", JStr (rt_successorEnvelopeId t)); ("successor_key_id", JStr (rt_successorKeyId t));
        ("successor_kid", JStr (rt_successorKid t));
        ("successor_public_key_spki_sha256", digest_json (rt_successorPublicKeySpkiSha256 t))].

Definition grant_context (r : PreparedInternal) (t : GrantEnvelopeTarget) : json :=
  JObj [("controller_authorization_id", JStr (c_authorizationId (custody r)));
        ("controller_envelope_id", JStr (c_envelopeId (custody r)));
        ("content_envelope_digest", digest_json (f_contentEnvelopeDigest (fields r)));
        ("effective_at", JNum (gt_effectiveAt t)); ("expires_at", JNum (gt_expiresAt t));
        ("grant_id", JStr (gt_grantId t)); ("purpose", JStr (gt_purpose t));
        ("recipient_envelope_id", JStr (gt_recipientEnvelopeId t)); ("recipient_key_id", JStr (gt_recipientKeyId t));
        ("recipient_kid", JStr (gt_recipientKid t));
        ("recipient_organization_id", JStr (gt_recipientOrganizationId t));
        ("recipient_public_key_spki_sha256", digest_json (gt_recipientPublicKeySpkiSha256 t))].

Definition decrypt_context (r : PreparedInternal) (e : RecipientEnvelopeRecord) (recipientEnvelopeId : string) : json :=
  JObj [("content_envelope_digest", digest_json (f_contentEnvelopeDigest (fields r)));
        ("grant_id", JStr (re_grantId e)); ("policy_id", JStr (re_policyId e));
        ("policy_version", JNum (re_policyVersion e)); ("purpose_id", JStr (re_purposeId e));
        ("recipient_envelope_commitment", digest_json (re_commitment e));
        ("recipient_envelope_id", JStr recipientEnvelopeId); ("recipient_key_id", JStr (re_recipientKeyId e));
        ("recipient_kid", JStr (re_recipientKid e));
        ("recipient_organization_id", JStr (re_recipientOrganizationId e));
        ("recipient_public_key_spki_sha256", digest_json (re_recipientPublicKeySpkiSha256 e));
        ("purpose", JStr (re_purpose e)); ("release_mode", JStr "full")].

(** The recipient envelope of a grant. *)
Definition granted_envelope (s : State) (grantId recipientEnvelopeId : string) : option RecipientEnvelopeRecord :=
  match map_get recipientEnvelopeId (recipientEnvelopes s) with
  | Some e => if String.eqb (re_grantId e) grantId then Some e else None
  | None => None
  end.

Definition keyOperationBinding (s : State) (target : KeyOperationAuthorizationTarget) : result ServiceError Binding :=
  p ← record s (target_bundleId target);
  let r := (p : address * PreparedInternal).2 in
  match target with
  | op_finalize _ finalization =>
      Ok (mkBinding (operation_text target) (finalize_context r finalization) r [c_authorizationId (custody r)])
  | op_rotate t =>
      Ok (mkBinding (operation_text target) (rotate_context r t) r [rt_predecessorAuthorizationId t])
  | op_grant t =>
      Ok (mkBinding (operation_text target) (grant_context r t) r
            (sort_strings [c_authorizationId (custody r); gt_grantId t]))
  | op_decrypt _ _ grantId recipientEnvelopeId =>
      e ← defined (granted_envelope s grantId recipientEnvelopeId) svc_policy_denied;
      Ok (mkBinding (operation_text target) (decrypt_context r e recipientEnvelopeId) r [re_grantId e])
  end.

Definition bundle_fields (r : PreparedInternal) : object :=
  [("bundleId", JStr (idHash (f_bundleId (fields r)))); ("bundleVersion", JNum 1);
   ("bundleType", JStr (bundleTypeHash "evidence")); ("domainResourceId", JStr (idHash (f_resourceId (fields r))));
   ("domainResourceVersion", JNum (f_resourceVersion (fields r)))].

Definition keyOperationAuthorizationMessage (s : State) (target : KeyOperationAuthorizationTarget)
    (claims : KeyOperationAuthorizationClaims) (window : KeyOperationAuthorizationWindow) : result ServiceError object :=
  binding ← keyOperationBinding s target;
  let sourceAuthorityDigest := digestObject (canonicalJsonBytes (strings (b_sourceAuthorityIds binding))) in
  let operationContextDigest := digestObject (canonicalJsonBytes (b_operationContext binding)) in
  Ok ([("authorizationId", JStr (idHash (cl_authorizationId claims)));
       ("authorizationVersion", JNum (cl_authorizationVersion claims));
       ("issuerServiceActorId", JStr (idHash (pr_actorId (cfg_authorizer config))));
       ("issuerServiceOrgId", JStr (idHash (pr_organizationId (cfg_authorizer config))));
       ("issuerServiceCredentialId", JStr (idHash (pr_credentialId (cfg_authorizer config))));
       ("issuerServiceAddress", JStr (cfg_authorizerAddress config));
       ("repositoryId", JStr (idHash (cfg_controllerRepositoryId config)));
       ("operation", JStr (keyOperationHash (b_operation binding)));
       ("requestingActorId", JStr (idHash (pr_actorId (cl_requester claims))));
       ("requestingOrgId", JStr (idHash (pr_organizationId (cl_requester claims))));
       ("requestingCredentialId", JStr (idHash (pr_credentialId (cl_requester claims))))] ++
      bundle_fields (b_record binding) ++
      [("purposeId", JStr (idHash (cl_purposeId claims))); ("policyId", JStr (idHash (cl_policyId claims)));
       ("policyVersion", JNum (cl_policyVersion claims));
       ("sourceAuthorityDigest", JStr (digestHex sourceAuthorityDigest));
       ("operationContextDigest", JStr (digestHex operationContextDigest));
       ("nonce", JStr (w_nonce window)); ("issuedAt", JNum (w_issuedAt window));
       ("expiresAt", JNum (w_expiresAt window)); ("idempotencyKeyHash", JStr (w_idempotencyKeyHash window))]).

(** [keyMaterialTargetFields]: authority, envelope, key, kid and public-key digest. *)
Record MaterialFields := mkMaterial {
  mf_authorityId : string; mf_encryptionKeyId : string; mf_envelopeId : string;
  mf_publicKeySpkiSha256 : Digest; mf_recipientKid : string
}.

Definition keyMaterialTargetFields (target : KeyMaterialAcknowledgementTarget) : MaterialFields :=
  match target with
  | ack_grant t =>
      mkMaterial (gt_grantId t) (gt_recipientKeyId t) (gt_recipientEnvelopeId t)
        (gt_recipientPublicKeySpkiSha256 t) (gt_recipientKid t)
  | ack_rotation t =>
      mkMaterial (rt_successorAuthorizationId t) (rt_successorKeyId t) (rt_successorEnvelopeId t)
        (rt_successorPublicKeySpkiSha256 t) (rt_successorKid t)
  end.

Definition keyMaterialAcknowledgementMessage (s : State) (target : KeyMaterialAcknowledgementTarget)
    (signer : ServicePrincipal) (window : KeyMaterialAcknowledgementWindow) : result ServiceError object :=
  binding ← keyOperationBinding s (ack_operation target);
  let operationContextDigest := digestObject (canonicalJsonBytes (b_operationContext binding)) in
  let material := keyMaterialTargetFields target in
  Ok ([("acknowledgementId", JStr (idHash (aw_acknowledgementId window)));
       ("acknowledgementVersion", JNum (aw_acknowledgementVersion window));
       ("signerActorId", JStr (idHash (pr_actorId signer))); ("signerOrgId", JStr (idHash (pr_organizationId signer)));
       ("signerCredentialId", JStr (idHash (pr_credentialId signer)));
       ("repositoryId", JStr (idHash (cfg_controllerRepositoryId config)));
       ("operation", JStr (keyOperationHash (b_operation binding)))] ++
      bundle_fields (b_record binding) ++
      [("authorityId", JStr (idHash (mf_authorityId material))); ("envelopeId", JStr (idHash (mf_envelopeId material)));
       ("encryptionKeyId", JStr (idHash (mf_encryptionKeyId material)));
       ("recipientKid", JStr (idHash (mf_recipientKid material)));
       ("publicKeySpkiSha256", JStr (digestHex (mf_publicKeySpkiSha256 material)));
       ("operationContextDigest", JStr (digestHex operationContextDigest));
       ("nonce", JStr (aw_nonce window)); ("issuedAt", JNum (aw_issuedAt window)); ("expiresAt", JNum (aw_expiresAt window))]).

Definition domainAttestationMessage (r : PreparedInternal) (signer : ServicePrincipal) (expiresAt issuedAt : Z) (nonce : string) :
    object :=
  bundle_fields r ++
  [("authorBindingProfileId", JStr (idHash (f_authorBindingProfileId (fields r))));
   ("authorBindingProfileVersion", JNum (f_authorBindingProfileVersion (fields r)));
   ("domainPayloadCommitment", JStr (digestHex (f_domainPayloadCommitment (fields r))));
   ("signerActorId", JStr (idHash (pr_actorId signer))); ("signerOrgId", JStr (idHash (pr_organizationId signer)));
   ("signerCredentialId", JStr (idHash (pr_credentialId signer)));
   ("nonce", JStr nonce); ("issuedAt", JNum issuedAt); ("expiresAt", JNum expiresAt)].

Definition finalizationMessage (r : PreparedInternal) (attestation : SignedProof) (controller : ServicePrincipal)
    (commandId : string) (expiresAt : Z) (idempotencyKeyHash : string) (issuedAt : Z) (nonce : string) : object :=
  [("commandId", JStr (idHash commandId)); ("stagingDescriptorDigest", JStr (f_descriptorDigest (fields r)));
   ("domainManifestEnvelopeDigest", JStr (sha256Hex (canonicalJsonBytes (proof_json attestation))))] ++
  bundle_fields r ++
  [("controllerActorId", JStr (idHash (pr_actorId controller)));
   ("controllerOrgId", JStr (idHash (pr_organizationId controller)));
   ("controllerCredentialId", JStr (idHash (pr_credentialId controller)));
   ("contentCommitment", JStr (digestHex (f_contentCommitment (fields r))));
   ("contentEnvelopeDigest", JStr (digestHex (f_contentEnvelopeDigest (fields r))));
   ("storedEnvelopeLength", JNum (f_storedEnvelopeLength (fields r)));
   ("contentSchemaBindingDigest",
      JStr (sha256Hex (canonicalJsonBytes (JObj [("id", JStr (text_of (f_aad (fields r)) "content_schema_id"));
                                                 ("version", JStr (text_of (f_aad (fields r)) "content_schema_version"))]))));
   ("encryptionProfileId", JStr (idHash "urn:evllm:profile:00000000-0000-4000-8000-000000000001"));
   ("encryptionProfileVersion", JNum 1);
   ("criticalityProfileId", JStr (idHash (text_of (f_aad (fields r)) "criticality_profile_id")));
   ("criticalityProfileVersion", JNum (number_of (f_aad (fields r)) "criticality_profile_version"));
   ("initialCriticalityClass", JStr (keccakHex ("criticality-class:" +:+ f_initialCriticality (fields r))));
   ("replicaPolicyDigest",
      JStr (sha256Hex (canonicalJsonBytes (JObj [("repository_id", JStr (cfg_replicaRepositoryId config)); ("required", JBool true)]))));
   ("nonce", JStr nonce); ("issuedAt", JNum issuedAt); ("expiresAt", JNum expiresAt);
   ("idempotencyKeyHash", JStr idempotencyKeyHash)].

(** ** Checking proofs *)

Definition service_domain (name : string) : ProofDomain :=
  mkDomain (cfg_chainId config) name (cfg_registryAddress config) "1".

Definition proof_input (credentials : string -> Z -> option CredentialAcceptance) (name expectedSigner : string)
    (proof : SignedProof) (m : Mode) (t : ProtectedSignatureType) : VerifyProofInput :=
  mkVerify credentials (service_domain name) expectedSigner (cfg_maxProofLifetimeSeconds config)
    (JObj (sp_message proof)) m (sp_signature proof) t.

(** Every exception of the call becomes [invalid-proof]. *)
Definition invalid_proof {E A} (m : result E A) : result ServiceError A :=
  match m with Ok a => Ok a | Throw _ => Throw svc_invalid_proof end.

Definition pendingNonceConsumption (store : NonceStoreName) (t : ProtectedSignatureType) (credentialField_ : string)
    (m : object) : result ServiceError PendingNonceConsumption :=
  c ← stringField m credentialField_;
  n ← stringField m "nonce";
  Ok (mkPendingNonce (nonceScope t c n) store).

Definition expectedOrganization (s : State) (target : KeyMaterialAcknowledgementTarget) : result ServiceError string :=
  match target with
  | ack_grant t => Ok (gt_recipientOrganizationId t)
  | ack_rotation t => p ← record s (rt_bundleId t); Ok (f_controllerOrganizationId (fields (p : address * PreparedInternal).2))
  end.

Definition verifyKeyMaterialAcknowledgement (s : State) (target : KeyMaterialAcknowledgementTarget)
    (acknowledgement : SignedKeyMaterialAcknowledgement) (publicKey : KeyObject) (currentTime : Z) :
    result ServiceError PendingNonceConsumption :=
  let proof := ack_proof acknowledgement in
  invalid_proof (
    expectedOrganizationId ← expectedOrganization s target;
    _ ← require (String.eqb (pr_organizationId (ack_signer acknowledgement)) expectedOrganizationId) svc_invalid_proof;
    credential ← defined (cfg_acknowledgementCredentialAt config (ack_signer acknowledgement) currentTime) svc_invalid_proof;
    expiresAt ← numberField (sp_message proof) "expiresAt";
    issuedAt ← numberField (sp_message proof) "issuedAt";
    nonce ← stringField (sp_message proof) "nonce";
    expected ← keyMaterialAcknowledgementMessage s target (ack_signer acknowledgement)
                 (mkAckWindow (ack_acknowledgementId acknowledgement) (ack_acknowledgementVersion acknowledgement)
                    expiresAt issuedAt nonce);
    _ ← require (canonicalBytesEqual (JObj expected) (JObj (sp_message proof))) svc_invalid_proof;
    _ ← require (verifyRsaKeyPossessionProof publicKey (sp_message proof) (sp_signature proof)
                   (ack_keyPossessionProof acknowledgement)) svc_invalid_proof;
    _ ← invalid_proof (verifyProtectedProof
          (proof_input (fun _ _ => Some (credential : CredentialAcceptance * string).1)
             "EVLLM Key Material Acknowledgement" (credential : CredentialAcceptance * string).2 proof
             (validation currentTime) KeyMaterialAcknowledgement));
    pendingNonceConsumption keyMaterialAcknowledgementNonceStore KeyMaterialAcknowledgement "signerCredentialId"
      (sp_message proof)).

Definition validateKeyOperationClaims (s : State) (target : KeyOperationAuthorizationTarget)
    (claims : KeyOperationAuthorizationClaims) : result ServiceError unit :=
  match target with
  | op_decrypt _ _ grantId recipientEnvelopeId =>
      match granted_envelope s grantId recipientEnvelopeId with
      | None => Throw svc_invalid_proof
      | Some e =>
          require (negb (negb (String.eqb (cl_policyId claims) (re_policyId e)) ||
                         negb (cl_policyVersion claims =? re_policyVersion e) ||
                         negb (String.eqb (cl_purposeId claims) (re_purposeId e)) ||
                         negb (String.eqb (pr_organizationId (cl_requester claims)) (re_recipientOrganizationId e))))
            svc_invalid_proof
      end
  | _ => Ok tt
  end.

Definition consumed_record (binding : Binding) (authorization : SignedKeyOperationAuthorization) (verified : VerifiedProof)
    (nonce idempotencyKeyHash signature_ : string) (issuedAt expiresAt : Z) (signatureDigest_ : Digest) : json :=
  let claims := so_claims authorization in
  JObj [("schema", JStr "EVLLM_KEY_OPERATION_AUTHORIZATION_V1"); ("authorization_id", JStr (cl_authorizationId claims));
        ("authorization_version", JNum (cl_authorizationVersion claims));
        ("issuer_service_actor_id", JStr (pr_actorId (cfg_authorizer config)));
        ("issuer_service_organization_id", JStr (pr_organizationId (cfg_authorizer config)));
        ("issuer_service_credential_id", JStr (pr_credentialId (cfg_authorizer config)));
        ("issuer_service_address", JStr (cfg_authorizerAddress config));
        ("repository_id", JStr (cfg_controllerRepositoryId config)); ("operation", JStr (b_operation binding));
        ("requesting_actor_id", JStr (pr_actorId (cl_requester claims)));
        ("requesting_organization_id", JStr (pr_organizationId (cl_requester claims)));
        ("requesting_credential_id", JStr (pr_credentialId (cl_requester claims)));
        ("bundle_id", JStr (f_bundleId (fields (b_record binding)))); ("bundle_version", JNum 1);
        ("bundle_type", JStr "evidence"); ("domain_resource_id", JStr (f_resourceId (fields (b_record binding))));
        ("domain_resource_version", JNum (f_resourceVersion (fields (b_record binding))));
        ("purpose_id", JStr (cl_purposeId claims)); ("policy_id", JStr (cl_policyId claims));
        ("policy_version", JNum (cl_policyVersion claims));
        ("source_authority_ids", strings (b_sourceAuthorityIds binding));
        ("source_authority_digest", digest_json (digestObject (canonicalJsonBytes (strings (b_sourceAuthorityIds binding)))));
        ("operation_context_digest", digest_json (digestObject (canonicalJsonBytes (b_operationContext binding))));
        ("nonce", JStr nonce); ("issued_at", JNum issuedAt); ("expires_at", JNum expiresAt);
        ("idempotency_key_hash", JStr idempotencyKeyHash); ("signature", JStr signature_);
        ("typed_data_digest", JStr (typedDataDigest verified)); ("signature_digest", digest_json signatureDigest_);
        ("state", JStr "consumed")].

(** Every exception inside is [invalid-proof]. *)
Definition prepareKeyOperationAuthorization (s : State) (target : KeyOperationAuthorizationTarget)
    (authorization : SignedKeyOperationAuthorization) (currentTime : Z) :
    result ServiceError PreparedKeyOperationAuthorization :=
  let proof := so_proof authorization in
  invalid_proof (
    expiresAt ← numberField (sp_message proof) "expiresAt";
    idempotencyKeyHash ← stringField (sp_message proof) "idempotencyKeyHash";
    issuedAt ← numberField (sp_message proof) "issuedAt";
    nonce ← stringField (sp_message proof) "nonce";
    _ ← validateKeyOperationClaims s target (so_claims authorization);
    binding ← keyOperationBinding s target;
    expected ← keyOperationAuthorizationMessage s target (so_claims authorization)
                 (mkWindow expiresAt idempotencyKeyHash issuedAt nonce);
    _ ← require (canonicalBytesEqual (JObj expected) (JObj (sp_message proof))) svc_invalid_proof;
    verified ← invalid_proof (verifyProtectedProof
                 (proof_input (cfg_credentialAt config) "EVLLM Key Operation Authorization"
                    (cfg_authorizerAddress config) proof (external_execution currentTime) KeyOperationAuthorization));
    signature_ ← signatureBase64Url (sp_signature proof);
    signatureDigest_ ← digestFromHex (signatureDigest (verified : VerifiedProof * option (list string)).1);
    let consumed := consumed_record binding authorization verified.1 nonce idempotencyKeyHash signature_ issuedAt expiresAt
                      signatureDigest_ in
    _ ← require (keyOperationAuthorization consumed) svc_invalid_proof;
    issuer ← stringField (sp_message proof) "issuerServiceCredentialId";
    Ok (mkPreparedOperation (nonceScope KeyOperationAuthorization issuer nonce) consumed)).
End Messages.
