(* ===== verification/BundleService.v ===== *)
(** * The evidence bundle service: operations

    The asynchronous methods of [EvidenceBundleService]
    ([src/src/evidence/evidence-bundle-service.ts]) as threads: a method is a sequence of
    segments, the code between two [await]s, each of which runs without interruption on
    the shared state; between segments other calls run. What a method awaits (a store, the
    authorization repository, the ciphers) is a segment of its own. Random identifiers
    are arguments. Of the coordinator the operations are modelled request by request, and
    any request may fail; its [withTimeout] and [withLock] are not part of these threads
    (the lock is proved separately, [Storage.Lock]): BundleSafety.v says why what is proved
    here does not depend on them. *)

From S2P Require Import Prelude Regex Digits Base64 Schemas KeyLifecycle Storage Json Hex Signatures Protection KeyOperations Bundle.

Local Open Scope Z_scope.

(** ** Threads *)

Inductive thread (A : Type) : Type :=
| Done (r : result ServiceError A)
| Atomic (segment : State -> State * thread A).
Arguments Done {A} r.
Arguments Atomic {A} segment.

Lemma thread_ind' {A} (P : thread A -> Prop) :
  (forall r, P (Done r)) -> (forall f, (forall s, P (f s).2) -> P (Atomic f)) -> forall t, P t.
Proof.
  intros Hd Ha. fix IH 1. intros [r|f]; [apply Hd|]. apply Ha. intros s. destruct (f s) as [s' t']. apply IH.
Qed.

Fixpoint thread_bind {A B} (t : thread A) (k : A -> thread B) : thread B :=
  match t with
  | Done (Ok a) => k a
  | Done (Throw e) => Done (Throw e)
  | Atomic f => Atomic (fun s => let '(s', t') := f s in (s', thread_bind t' k))
  end.

(** One segment that computes on the state, then what follows. *)
Definition atomic {A B} (m : State -> State * result ServiceError A) (k : A -> thread B) : thread B :=
  Atomic (fun s => match m s with
                   | (s', Ok a) => (s', k a)
                   | (s', Throw e) => (s', Done (Throw e))
                   end).

(** A segment that only reads. *)
Definition reading {A B} (m : State -> result ServiceError A) (k : A -> thread B) : thread B :=
  atomic (fun s => (s, m s)) k.

(** Alone: every segment in turn. *)
Fixpoint run {A} (s : State) (t : thread A) : State * result ServiceError A :=
  match t with
  | Done r => (s, r)
  | Atomic f => let '(s', t') := f s in run s' t'
  end.

(** ** Collaborators *)

(** The next entry of the collaborators' future. *)
Definition next_outage (s : State) : bool * State :=
  match outages s with
  | [] => (false, s)
  | b :: bs => (b, set_outages bs s)
  end.

Section Service.
Context {HC : CanonicalJson} {HSha : Sha256} {HKeccak : Keccak256} {HJose : Jose} {HTyped : TypedData}.
Context (config : EvidenceBundleServiceConfig).

Definition sha256_text (b : bytes) : string := to_base64url (sha256 b).

(** A request to a store. *)
Definition store_request {X} (o : op (Store := StoreName) X) (s : State) : State * result ObjectStoreErrorCode X :=
  let '(down, s) := next_outage s in
  if down then (s, Throw store_unavailable)
  else let '(w, r) := answer (cfg_store config) false (objects s) o in (set_objects w s, r).

(** A program of the coordinator, a segment per request. *)
Fixpoint on_stores {A} (p : prog (Store := StoreName) A) : thread A :=
  match p with
  | Ret _ a => Done (Ok a)
  | Fail _ e => Done (Throw (svc_storage e))
  | Do _ o k => Atomic (fun s => let '(s', r) := store_request o s in (s', on_stores (k r)))
  end.

(** [collect(store.get(objectId))] *)
Definition collect_object (store : StoreName) (id : string) : prog (Store := StoreName) bytes :=
  prog_bind (call (Get store id)) (fun answer =>
    match answer.2 with
    | Some e => Fail _ (store_error e)
    | None => Ret _ (concat answer.1)
    end).

(** An error of the ciphers. *)
Definition crypto {A} (m : result CryptoError A) : result ServiceError A := lift_err svc_crypto m.

Definition lifecycle {A} (m : result KeyError A) : result ServiceError A := lift_err svc_key m.

(** A synchronous call of the registry. *)
Definition on_lifecycle (f : KeyLifecycleRegistry -> result KeyError KeyLifecycleRegistry) (s : State) :
    State * result ServiceError unit :=
  match f (keyLifecycle s) with
  | Ok k => (set_lifecycle k s, Ok tt)
  | Throw e => (s, Throw (svc_key e))
  end.

(** The record a thread holds, as it is now. *)
Definition at_address (a : address) (s : State) : result ServiceError PreparedInternal :=
  defined (heap s !! a) svc_not_found.

(** ** Consuming proofs *)

Definition update_nonces (name : NonceStoreName) (f : list string -> list string) (s : State) : State :=
  set_nonces (fun n => if decide (n = name) then f (nonces s n) else nonces s n) s.

Definition rollback_pending (p : PendingNonceConsumption) (s : State) : State :=
  update_nonces (pn_store p) (fun n => Signatures.rollback n (pn_scope p)) s.

Definition rollback_all (ps : list PendingNonceConsumption) (s : State) : State :=
  fold_left (fun s p => rollback_pending p s) ps s.

(** The loop of [consumeValidatedProofs]; on a replay the nonces consumed so far are
    given back. *)
Fixpoint consume_local (pending consumed : list PendingNonceConsumption) (s : State) :
    State * result ServiceError (list PendingNonceConsumption) :=
  match pending with
  | [] => (s, Ok consumed)
  | p :: pending =>
      match Signatures.consume (nonces s (pn_store p)) (pn_scope p) with
      | Throw _ => (rollback_all consumed s, Throw svc_invalid_proof)
      | Ok n => consume_local pending (consumed ++ [p]) (update_nonces (pn_store p) (fun _ => n) s)
      end
  end.

(** The repository's part, after the [await]. *)
Definition consume_repository (operation : PreparedKeyOperationAuthorization) (consumed : list PendingNonceConsumption)
    (s : State) : State * result ServiceError unit :=
  let '(down, s) := next_outage s in
  match (if down then Throw repo_unavailable
         else KeyOperations.consume (repository s) (po_record operation) (po_nonceScope operation)) with
  | Throw _ => (rollback_all consumed s, Throw svc_invalid_proof)
  | Ok r => (set_repository r s, Ok tt)
  end.

(** The checks of a method, then the nonces, in one segment. *)
Definition checked {A} (checks : State -> result ServiceError (A * list PendingNonceConsumption)) (s : State) :
    State * result ServiceError (A * list PendingNonceConsumption) :=
  match checks s with
  | Throw e => (s, Throw e)
  | Ok (a, pending) =>
      match consume_local pending [] s with
      | (s', Throw e) => (s', Throw e)
      | (s', Ok consumed) => (s', Ok (a, consumed))
      end
  end.

(** ** [prepare] *)

Definition reference_json (r : Reference) : json := JObj [("id", JStr (ref_id r)); ("version", JNum (ref_version r))].

Definition decimal_quantity_json (q : DecimalQuantity) : json :=
  JObj [("value", JStr (dq_value q)); ("unit_id", JStr (dq_unit_id q)); ("unit_version", JNum (dq_unit_version q))].

Definition typed_value_json (v : TypedValue) : json :=
  match v with
  | tv_quantity q => JObj [("type", JStr "quantity"); ("quantity", decimal_quantity_json q)]
  | tv_text s => JObj [("type", JStr "text"); ("value", JStr s)]
  | tv_boolean b => JObj [("type", JStr "boolean"); ("value", JBool b)]
  end.

Definition uncertainty_json (u : Uncertainty) : json :=
  match u with
  | un_none => JObj [("type", JStr "none")]
  | un_range r => JObj [("type", JStr "range"); ("range", JObj [("lower", JStr (dr_lower r)); ("upper", JStr (dr_upper r))])]
  end.

Definition bundle_ref_json (r : ProtectedBundleRef) : json :=
  JObj [("schema", JStr (pb_schema r)); ("bundle_id", JStr (pb_bundle_id r)); ("bundle_version", JNum (pb_bundle_version r));
        ("domain_resource_version", JNum (pb_domain_resource_version r));
        ("custody_controller_org_id", JStr (pb_custody_controller_org_id r));
        ("content_schema_id", JStr (pb_content_schema_id r)); ("content_schema_version", JStr (pb_content_schema_version r));
        ("initial_criticality_class", JStr (pb_initial_criticality_class r));
        ("criticality_profile_id", JStr (pb_criticality_profile_id r));
        ("criticality_profile_version", JNum (pb_criticality_profile_version r));
        ("bundle_type", JStr (bundle_type_text (pb_bundle_type r))); ("domain_resource_id", JStr (pb_domain_resource_id r))].

(** The payload as the JSON value it is parsed from. *)
Definition payload_json (p : EvidencePayload) : json :=
  JObj [("schema", JStr (ep_schema p)); ("evidence_id", JStr (ep_evidence_id p)); ("evidence_version", JNum (ep_evidence_version p));
        ("claim_id", JStr (ep_claim_id p)); ("claim_version", JNum (ep_claim_version p)); ("claim_type", JStr (ep_claim_type p));
        ("subject_id", JStr (ep_subject_id p)); ("subject_granularity", JStr (ep_subject_granularity p));
        ("issuer_organization_id", JStr (ep_issuer_organization_id p)); ("issuer_role_id", JStr (ep_issuer_role_id p));
        ("observed_at", JNum (ep_observed_at p)); ("submitted_at", JNum (ep_submitted_at p));
        ("capture_method", reference_json (ep_capture_method p)); ("value", typed_value_json (ep_value p));
        ("uncertainty", uncertainty_json (ep_uncertainty p)); ("source_class", JStr (ep_source_class p));
        ("provenance", JArr (reference_json <$> ep_provenance p));
        ("protected_bundle_ref", bundle_ref_json (ep_protected_bundle_ref p))].

Record PrepareEvidenceInput := mkPrepare {
  in_authorBindingProfileId : string; in_authorBindingProfileVersion : Z; in_content : bytes;
  in_contentMediaType : string; in_controllerActorId : string; in_controllerAuthorizationId : string;
  in_controllerCredentialId : string; in_controllerEncryptionKeyId : string; in_controllerKid : string;
  in_controllerOrganizationId : string; in_controllerPublicKey : KeyObject; in_evidencePayload : EvidencePayload;
  in_idempotencyKey : bytes; in_initialCriticality : string; in_intendedAuthorActorId : string;
  in_intendedAuthorCredentialId : string; in_intendedAuthorOrganizationId : string
}.

(** The random values of one preparation. *)
Record Fresh := mkFresh {
  fresh_randomness : Randomness; fresh_stagingObjectId : string; fresh_finalObjectId : string; fresh_stagingId : string;
  fresh_envelopeId : string; fresh_iv : bytes; fresh_seed : bytes; fresh_assertionId : string
}.

Definition fingerprint (input : PrepareEvidenceInput) (domainPayload : bytes) : string :=
  sha256Hex (canonicalJsonBytes (JObj
    [("author_binding_profile_id", JStr (in_authorBindingProfileId input));
     ("author_binding_profile_version", JNum (in_authorBindingProfileVersion input));
     ("content_sha256", JStr (sha256Hex (in_content input))); ("controller_actor_id", JStr (in_controllerActorId input));
     ("controller_authorization_id", JStr (in_controllerAuthorizationId input));
     ("controller_encryption_key_id", JStr (in_controllerEncryptionKeyId input));
     ("controller_organization_id", JStr (in_controllerOrganizationId input));
     ("domain_payload_sha256", JStr (sha256Hex domainPayload)); ("initial_criticality", JStr (in_initialCriticality input));
     ("intended_author_actor_id", JStr (in_intendedAuthorActorId input));
     ("intended_author_credential_id", JStr (in_intendedAuthorCredentialId input));
     ("intended_author_organization_id", JStr (in_intendedAuthorOrganizationId input))])).

Definition idempotencyHash (input : PrepareEvidenceInput) : string := sha256Hex (in_idempotencyKey input).

Definition domainPayload_of (input : PrepareEvidenceInput) : bytes := canonicalJsonBytes (payload_json (in_evidencePayload input)).

(** Up to the first [await]: a known key answers at once, with its record. *)
Definition prepare_start (input : PrepareEvidenceInput) (s : State) : result ServiceError (option PreparedInternal) :=
  _ ← require (byteLength (in_idempotencyKey input) =? 32) svc_conflict;
  _ ← require (evidenceClaimPayload (in_evidencePayload input)) svc_zod;
  match deref (byIdempotency s) (heap s) (idempotencyHash input) with
  | Some (_, existing) =>
      _ ← require (String.eqb (f_idempotencyFingerprint (fields existing)) (fingerprint input (domainPayload_of input)))
            svc_conflict;
      Ok (Some existing)
  | None => Ok None
  end.

Definition aad_input (input : PrepareEvidenceInput) : object :=
  let payload := in_evidencePayload input in
  let ref := ep_protected_bundle_ref payload in
  [("schema", JStr "EVLLM_PROTECTED_CONTENT_AAD_V1"); ("bundle_id", JStr (pb_bundle_id ref)); ("bundle_version", JNum 1);
   ("bundle_type", JStr "evidence"); ("domain_resource_id", JStr (ep_evidence_id payload));
   ("domain_resource_version", JNum (ep_evidence_version payload));
   ("custody_controller_org_id", JStr (in_controllerOrganizationId input));
   ("primary_repository_id", JStr (cfg_controllerRepositoryId config));
   ("content_schema_id", JStr (pb_content_schema_id ref)); ("content_schema_version", JStr (pb_content_schema_version ref));
   ("access_class", JStr "restricted"); ("initial_criticality_class", JStr (in_initialCriticality input));
   ("criticality_profile_id", JStr (pb_criticality_profile_id ref));
   ("criticality_profile_version", JNum (pb_criticality_profile_version ref))].

Definition protect_input (input : PrepareEvidenceInput) : ProtectContentInput :=
  mkProtectInput (aad_input input) (in_content input) (in_contentMediaType input) (domainPayload_of input).

Definition controller_context (input : PrepareEvidenceInput) (envelopeId : string) (p : ProtectedContentResult) : json :=
  let payload := in_evidencePayload input in
  JObj [("schema", JStr "EVLLM_DEK_WRAP_CONTEXT_V1"); ("envelope_id", JStr envelopeId);
        ("bundle_id", JStr (pb_bundle_id (ep_protected_bundle_ref payload))); ("bundle_version", JNum 1);
        ("bundle_type", JStr "evidence"); ("domain_resource_id", JStr (ep_evidence_id payload));
        ("domain_resource_version", JNum (ep_evidence_version payload));
        ("domain_payload_commitment", digest_json (pr_domainPayloadCommitment p));
        ("content_commitment", digest_json (pr_contentCommitment p));
        ("content_envelope_digest", digest_json (pr_contentEnvelopeDigest p));
        ("recipient_org_id", JStr (in_controllerOrganizationId input)); ("recipient_kid", JStr (in_controllerKid input));
        ("purpose", JStr "controller-custody"); ("authorization_id", JStr (in_controllerAuthorizationId input));
        ("scope", JStr "protected-bundle:key-administration")].

Definition descriptorDigest (bundleId : string) (p : ProtectedContentResult) (w : WrappedDekResult) (fresh : Fresh) : string :=
  sha256Hex (canonicalJsonBytes (JObj
    [("bundle_id", JStr bundleId); ("content_envelope_digest", digest_json (pr_contentEnvelopeDigest p));
     ("controller_envelope_commitment", digest_json (wr_commitment w)); ("final_object_id", JStr (fresh_finalObjectId fresh));
     ("staging_id", JStr (fresh_stagingId fresh)); ("staging_object_id", JStr (fresh_stagingObjectId fresh));
     ("stored_envelope_length", JNum (byteLength (pr_envelopeBytes p)))])).

Definition prepared_record (input : PrepareEvidenceInput) (fresh : Fresh) (p : ProtectedContentResult) (w : WrappedDekResult)
    (spki_ : Digest) : PreparedInternal :=
  let payload := in_evidencePayload input in
  let bundleId := pb_bundle_id (ep_protected_bundle_ref payload) in
  mkPreparedInternal
    (mkFields (pr_aad p) (in_authorBindingProfileId input) (in_authorBindingProfileVersion input) bundleId
       (pr_contentCommitment p) (pr_contentEnvelopeDigest p) (in_controllerActorId input) (in_controllerCredentialId input)
       (in_controllerOrganizationId input) (descriptorDigest bundleId p w fresh) (domainPayload_of input)
       (pr_domainPayloadCommitment p) (fresh_finalObjectId fresh) (fingerprint input (domainPayload_of input))
       (in_initialCriticality input) (in_intendedAuthorActorId input) (in_intendedAuthorCredentialId input)
       (in_intendedAuthorOrganizationId input) (fresh_assertionId fresh) (ep_evidence_id payload)
       (ep_evidence_version payload) (fresh_stagingId fresh) (fresh_stagingObjectId fresh) (byteLength (pr_envelopeBytes p)))
    (mkCustody (in_controllerAuthorizationId input) (in_controllerEncryptionKeyId input) (in_controllerKid input) spki_
       (controller_context input (fresh_envelopeId fresh) p) (wr_envelopeBytes w) (fresh_envelopeId fresh))
    false (String.eqb (in_initialCriticality input) "decision-critical") None.

(** After the staged object is stored. *)
Definition prepare_finish (input : PrepareEvidenceInput) (fresh : Fresh) (p : ProtectedContentResult) (w : WrappedDekResult)
    (s : State) : State * result ServiceError PreparedEvidence :=
  match on_lifecycle (fun k => stageControllerAuthorization k
           (mkAuthorization (in_controllerAuthorizationId input) (fresh_envelopeId fresh)
              (in_controllerEncryptionKeyId input) auth_staged)) s with
  | (s, Throw e) => (s, Throw e)
  | (s, Ok _) =>
      match rsaPublicKeySpkiSha256 (in_controllerPublicKey input) with
      | Throw e => (s, Throw (svc_crypto e))
      | Ok d =>
          let r := prepared_record input fresh p w d in
          (new_record (idempotencyHash input) (f_bundleId (fields r)) r s, Ok (publicPreparation r))
      end
  end.

(** [store.putIfAbsent(id, [bytes])] *)
Definition put_object (store : StoreName) (id : string) (b : bytes) : prog (Store := StoreName) PutIfAbsentResult :=
  call (Put store id [b]).

Definition prepare (input : PrepareEvidenceInput) (fresh : Fresh) : thread PreparedEvidence :=
  reading (prepare_start input) (fun existing =>
    match existing with
    | Some r => Done (Ok (publicPreparation r))
    | None =>
        reading (fun _ => crypto (protectContent (protect_input input) (fresh_randomness fresh))) (fun p =>
        reading (fun _ => crypto (wrapDek (controller_context input (fresh_envelopeId fresh) p) (pr_dek p)
                            (in_controllerPublicKey input) (fresh_iv fresh) (fresh_seed fresh))) (fun w =>
        thread_bind (on_stores (put_object primaryStore (fresh_stagingObjectId fresh) (pr_envelopeBytes p))) (fun _ =>
        atomic (prepare_finish input fresh p w) (fun r => Done (Ok r)))))
    end).

(** ** [finalize] *)

Record FinalizeInput := mkFinalize {
  fi_attestation : SignedProof; fi_authorAddress : string; fi_bundleId : string; fi_controllerAddress : string;
  fi_controllerPrivateKey : KeyObject; fi_finalization : SignedProof;
  fi_keyOperationAuthorization : SignedKeyOperationAuthorization; fi_now : Z
}.

Definition author_of (r : PreparedInternal) : ServicePrincipal :=
  mkPrincipal (f_intendedAuthorActorId (fields r)) (f_intendedAuthorCredentialId (fields r))
    (f_intendedAuthorOrganizationId (fields r)).

Definition controller_of (r : PreparedInternal) : ServicePrincipal :=
  mkPrincipal (f_controllerActorId (fields r)) (f_controllerCredentialId (fields r)) (f_controllerOrganizationId (fields r)).

(** [for (const field of fields) if (message[field] !== expected[field]) throw ...] *)
Definition fields_equal (expected : object) (m : object) : bool :=
  forallb (fun p => strict_equal (field m p.1) (Some p.2)) expected.

Definition expected_attestation (r : PreparedInternal) (attestation : SignedProof) : result ServiceError object :=
  expiresAt ← numberField (sp_message attestation) "expiresAt";
  issuedAt ← numberField (sp_message attestation) "issuedAt";
  nonce ← stringField (sp_message attestation) "nonce";
  Ok (domainAttestationMessage r (author_of r) expiresAt issuedAt nonce).

(** The command identifier is the caller's and is not compared. *)
Definition expected_finalization (r : PreparedInternal) (attestation finalization : SignedProof) : result ServiceError object :=
  expiresAt ← numberField (sp_message finalization) "expiresAt";
  idempotencyKeyHash ← stringField (sp_message finalization) "idempotencyKeyHash";
  issuedAt ← numberField (sp_message finalization) "issuedAt";
  nonce ← stringField (sp_message finalization) "nonce";
  Ok (filter (fun p => p.1 <> "commandId")
        (finalizationMessage config r attestation (controller_of r) "urn:evllm:command:00000000-0000-4000-8000-000000000000"
           expiresAt idempotencyKeyHash issuedAt nonce)).

Definition finalize_checks (input : FinalizeInput) (s : State) :
    result ServiceError (address * PreparedKeyOperationAuthorization * list PendingNonceConsumption) :=
  p ← record s (fi_bundleId input);
  let '(a, r) := (p : address * PreparedInternal) in
  _ ← require (negb (finalized r)) svc_invalid_state;
  _ ← invalid_proof (verifyProtectedProof
        (proof_input config (cfg_credentialAt config) "EVLLM Domain Manifest" (fi_authorAddress input) (fi_attestation input)
           (validation (fi_now input)) DomainManifestAttestation));
  _ ← invalid_proof (verifyProtectedProof
        (proof_input config (cfg_credentialAt config) "EVLLM Protected Bundle Command" (fi_controllerAddress input)
           (fi_finalization input) (validation (fi_now input)) FinalizeProtectedBundle));
  expectedAttestation ← expected_attestation r (fi_attestation input);
  _ ← require (fields_equal expectedAttestation (sp_message (fi_attestation input))) svc_invalid_proof;
  expectedFinalization ← expected_finalization r (fi_attestation input) (fi_finalization input);
  _ ← require (fields_equal expectedFinalization (sp_message (fi_finalization input))) svc_invalid_proof;
  operation ← prepareKeyOperationAuthorization config s (op_finalize (fi_bundleId input) (fi_finalization input))
                (fi_keyOperationAuthorization input) (fi_now input);
  n1 ← pendingNonceConsumption domainNonceStore DomainManifestAttestation "signerCredentialId" (sp_message (fi_attestation input));
  n2 ← pendingNonceConsumption controllerNonceStore FinalizeProtectedBundle "controllerCredentialId"
         (sp_message (fi_finalization input));
  Ok (a, operation, [n1; n2]).

(** [consumeValidatedProofs] after the checks: the nonces of this process in the segment
    of the checks, the repository in the next. *)
Definition with_proofs {A B} (checks : State -> result ServiceError (A * PreparedKeyOperationAuthorization * list PendingNonceConsumption))
    (k : A -> thread B) : thread B :=
  atomic (checked checks) (fun p =>
    let '(x, operation, consumed) := (p : A * PreparedKeyOperationAuthorization * list PendingNonceConsumption) in
    atomic (consume_repository operation consumed) (fun _ => k x)).

(** The key of the record's envelope, with the record's fixed fields. *)
Definition unwrap_controller (a : address) (privateKey : KeyObject) (s : State) : result ServiceError (bytes * PreparedInternal) :=
  r ← at_address a s;
  dek ← crypto (unwrapDek (c_envelope (custody r)) privateKey (c_wrapContext (custody r)));
  Ok (dek, r).

Definition expected_object (r : PreparedInternal) : ExpectedObject :=
  mkExpected (value (f_contentEnvelopeDigest (fields r))) (f_storedEnvelopeLength (fields r)).

Definition promotion_of (r : PreparedInternal) : PromotionInput :=
  mkPromotion (expected_object r) (f_finalObjectId (fields r)) (f_stagingObjectId (fields r)).

Definition set_replica (id : string) (r : PreparedInternal) : PreparedInternal :=
  mkPreparedInternal (fields r) (custody r) (finalized r) (critical r) (Some id).

(** [if (record.critical) { record.replicaObjectId = opaqueId(); ... }] *)
Definition choose_replica (a : address) (freshId : string) (s : State) : State * result ServiceError bool :=
  match heap s !! a with
  | None => (s, Throw svc_not_found)
  | Some r => if critical r then (write a (set_replica freshId) s, Ok true) else (s, Ok false)
  end.

Definition finalized_record (input : FinalizeInput) (r : PreparedInternal) : FinalizedEvidenceBundleRecord :=
  mkFinalized (fi_attestation input) (f_bundleId (fields r)) (f_contentCommitment (fields r))
    (f_contentEnvelopeDigest (fields r)) (f_domainPayloadCommitment (fields r)) (fi_finalization input) (fi_now input)
    (f_finalObjectId (fields r)) (replicaObjectId r) (f_storedEnvelopeLength (fields r)).

Definition set_finalized_flag (r : PreparedInternal) : PreparedInternal :=
  mkPreparedInternal (fields r) (custody r) true (critical r) (replicaObjectId r).

Definition finalize_finish (input : FinalizeInput) (a : address) (s : State) : State * result ServiceError unit :=
  match heap s !! a with
  | None => (s, Throw svc_not_found)
  | Some r =>
      match on_lifecycle (fun k => activateControllerAuthorization k (c_authorizationId (custody r))) s with
      | (s, Throw e) => (s, Throw e)
      | (s, Ok _) =>
          let s := write a set_finalized_flag s in
          (set_finalized (map_set (f_bundleId (fields r)) (finalized_record input r) (finalizedRecords s)) s, Ok tt)
      end
  end.

Definition finalize (input : FinalizeInput) (replicaId : string) : thread (PromotionResult * option PromotionResult) :=
  with_proofs (finalize_checks input) (fun a =>
  reading (unwrap_controller a (fi_controllerPrivateKey input)) (fun '(dek, r) =>
  thread_bind (on_stores (collect_object primaryStore (f_stagingObjectId (fields r)))) (fun staged =>
  reading (fun _ => crypto (openProtectedContent staged dek (f_aad (fields r)) (f_contentCommitment (fields r)))) (fun _ =>
  thread_bind (on_stores (promote sha256_text primaryStore (promotion_of r))) (fun primary =>
  atomic (choose_replica a replicaId) (fun isCritical : bool =>
  thread_bind (if isCritical
               then thread_bind (on_stores (replicate sha256_text primaryStore (f_finalObjectId (fields r)) replicaStore
                                              replicaId (expected_object r))) (fun x => Done (Ok (Some x)))
               else Done (Ok None)) (fun replica =>
  atomic (finalize_finish input a) (fun _ => Done (Ok (primary, replica)))))))))).

(** ** [rotateControllerEnvelope] *)

Record RotateInput := mkRotate {
  ro_bundleId : string; ro_currentTime : Z; ro_keyMaterialAcknowledgement : SignedKeyMaterialAcknowledgement;
  ro_keyOperationAuthorization : SignedKeyOperationAuthorization; ro_predecessorAuthorizationId : string;
  ro_predecessorPrivateKey : KeyObject; ro_successorAuthorizationId : string; ro_successorEnvelopeId : string;
  ro_successorKeyId : string; ro_successorKid : string; ro_successorPublicKey : KeyObject
}.

Definition rotation_target (input : RotateInput) (spki_ : Digest) : ControllerEnvelopeRotationTarget :=
  mkRotationTarget (ro_bundleId input) (ro_currentTime input) (ro_predecessorAuthorizationId input)
    (ro_successorAuthorizationId input) (ro_successorEnvelopeId input) (ro_successorKeyId input)
    (ro_successorKid input) spki_.

Definition rotate_checks (input : RotateInput) (s : State) :
    result ServiceError (address * Digest * PreparedKeyOperationAuthorization * list PendingNonceConsumption) :=
  p ← record s (ro_bundleId input);
  let '(a, r) := (p : address * PreparedInternal) in
  _ ← require (negb (negb (finalized r) ||
                     negb (String.eqb (c_authorizationId (custody r)) (ro_predecessorAuthorizationId input)))) svc_invalid_state;
  spki_ ← crypto (rsaPublicKeySpkiSha256 (ro_successorPublicKey input));
  let target := rotation_target input spki_ in
  n ← verifyKeyMaterialAcknowledgement config s (ack_rotation target) (ro_keyMaterialAcknowledgement input)
        (ro_successorPublicKey input) (ro_currentTime input);
  operation ← prepareKeyOperationAuthorization config s (op_rotate target) (ro_keyOperationAuthorization input)
                (ro_currentTime input);
  Ok (a, spki_, operation, [n]).

(** [{ ...record.wrapContext, ... }] *)
Definition with_members (v : json) (members : object) : json :=
  match v with
  | JObj fs => JObj (fold_left (fun fs p => map_set p.1 p.2 fs) members fs)
  | _ => v
  end.

Definition successor_context (input : RotateInput) (r : PreparedInternal) : json :=
  with_members (c_wrapContext (custody r))
    [("envelope_id", JStr (ro_successorEnvelopeId input)); ("recipient_kid", JStr (ro_successorKid input));
     ("authorization_id", JStr (ro_successorAuthorizationId input))].

(** The registry's own [await]: its checks, the verification, and what it does after it. *)
Definition on_registry (start : KeyLifecycleRegistry -> result KeyError Pending) (verified : bool) {B} (k : thread B) : thread B :=
  reading (fun s => lifecycle (start (keyLifecycle s))) (fun p =>
  atomic (on_lifecycle (fun registry => finish registry p verified)) (fun _ => k)).

Definition rotated (input : RotateInput) (spki_ : Digest) (context : json) (w : WrappedDekResult) (r : PreparedInternal) :
    PreparedInternal :=
  mkPreparedInternal (fields r)
    (mkCustody (ro_successorAuthorizationId input) (ro_successorKeyId input) (ro_successorKid input) spki_ context
       (wr_envelopeBytes w) (ro_successorEnvelopeId input))
    (finalized r) (critical r) (replicaObjectId r).

(** [iv] and [seed] are the randomness of the new envelope. *)
Definition rotateControllerEnvelope (input : RotateInput) (iv seed : bytes) : thread unit :=
  with_proofs (rotate_checks input) (fun '(a, spki_) =>
  reading (unwrap_controller a (ro_predecessorPrivateKey input)) (fun '(dek, _) =>
  reading (fun s =>
             r ← at_address a s;
             let context := successor_context input r in
             w ← crypto (wrapDek context dek (ro_successorPublicKey input) iv seed);
             Ok (context, w)) (fun '(context, w) =>
  on_registry (fun k => start_rotateControllerAuthorization k (ro_predecessorAuthorizationId input)
                 (mkAuthorization (ro_successorAuthorizationId input) (ro_successorEnvelopeId input)
                    (ro_successorKeyId input) auth_staged))
    (verifyWrappedDekEnvelope (wr_commitment w) context (wr_envelopeBytes w))
    (atomic (fun s => (write a (rotated input spki_ context w) s, Ok tt)) (fun _ => Done (Ok tt)))))).

(** ** [grantRecipient] *)

Record GrantInput := mkGrantInput {
  gi_bundleId : string; gi_controllerPrivateKey : KeyObject; gi_currentTime : Z; gi_effectiveAt : Z; gi_expiresAt : Z;
  gi_grantId : string; gi_keyMaterialAcknowledgement : SignedKeyMaterialAcknowledgement;
  gi_keyOperationAuthorization : SignedKeyOperationAuthorization; gi_purpose : string; gi_recipientEnvelopeId : string;
  gi_recipientKeyId : string; gi_recipientKid : string; gi_recipientOrganizationId : string; gi_recipientPublicKey : KeyObject
}.

Definition grant_target (input : GrantInput) (spki_ : Digest) : GrantEnvelopeTarget :=
  mkGrantTarget (gi_bundleId input) (gi_currentTime input) (gi_effectiveAt input) (gi_expiresAt input) (gi_grantId input)
    (gi_purpose input) (gi_recipientEnvelopeId input) (gi_recipientKeyId input) (gi_recipientKid input)
    (gi_recipientOrganizationId input) spki_.

Definition grant_checks (input : GrantInput) (s : State) :
    result ServiceError (address * Digest * PreparedKeyOperationAuthorization * list PendingNonceConsumption) :=
  p ← record s (gi_bundleId input);
  let '(a, r) := (p : address * PreparedInternal) in
  _ ← require (finalized r) svc_invalid_state;
  spki_ ← crypto (rsaPublicKeySpkiSha256 (gi_recipientPublicKey input));
  let target := grant_target input spki_ in
  n ← verifyKeyMaterialAcknowledgement config s (ack_grant target) (gi_keyMaterialAcknowledgement input)
        (gi_recipientPublicKey input) (gi_currentTime input);
  operation ← prepareKeyOperationAuthorization config s (op_grant target) (gi_keyOperationAuthorization input)
                (gi_currentTime input);
  Ok (a, spki_, operation, [n]).

Definition recipient_context (input : GrantInput) (r : PreparedInternal) : json :=
  with_members (c_wrapContext (custody r))
    [("envelope_id", JStr (gi_recipientEnvelopeId input)); ("recipient_org_id", JStr (gi_recipientOrganizationId input));
     ("recipient_kid", JStr (gi_recipientKid input)); ("purpose", JStr (gi_purpose input));
     ("authorization_id", JStr (gi_grantId input)); ("scope", JStr "protected-bundle:decrypt")].

Definition recipient_record (input : GrantInput) (spki_ : Digest) (context : json) (w : WrappedDekResult) : RecipientEnvelopeRecord :=
  let claims := so_claims (gi_keyOperationAuthorization input) in
  mkRecipient (wr_envelopeBytes w) (wr_commitment w) context (gi_grantId input) (cl_policyId claims) (cl_policyVersion claims)
    (gi_purpose input) (cl_purposeId claims) (gi_recipientKeyId input) (gi_recipientKid input)
    (gi_recipientOrganizationId input) spki_.

(** [prepareGrant], the envelope map, and [activateGrant] up to its [await]. *)
Definition install_grant (input : GrantInput) (spki_ : Digest) (context : json) (w : WrappedDekResult) (s : State) :
    State * result ServiceError Pending :=
  match on_lifecycle (fun k => prepareGrant k
           (mkGrant (gi_effectiveAt input) (gi_recipientEnvelopeId input) (gi_expiresAt input) (gi_grantId input)
              (gi_recipientKeyId input) grant_prepared)) s with
  | (s, Throw e) => (s, Throw e)
  | (s, Ok _) =>
      let s := set_recipients (map_set (gi_recipientEnvelopeId input) (recipient_record input spki_ context w)
                                 (recipientEnvelopes s)) s in
      (s, lifecycle (start_activateGrant (keyLifecycle s) (gi_grantId input) (gi_effectiveAt input)))
  end.

Definition grantRecipient (input : GrantInput) (iv seed : bytes) : thread unit :=
  with_proofs (grant_checks input) (fun '(a, spki_) =>
  reading (unwrap_controller a (gi_controllerPrivateKey input)) (fun '(dek, _) =>
  reading (fun s =>
             r ← at_address a s;
             let context := recipient_context input r in
             w ← crypto (wrapDek context dek (gi_recipientPublicKey input) iv seed);
             Ok (context, w)) (fun '(context, w) =>
  atomic (install_grant input spki_ context w) (fun p =>
  atomic (on_lifecycle (fun registry =>
            finish registry p (verifyWrappedDekEnvelope (wr_commitment w) context (wr_envelopeBytes w))))
    (fun _ => Done (Ok tt)))))).

(** ** [retrieveWithGrant] *)

Record RetrieveInput := mkRetrieve {
  re_bundleId : string; re_currentTime : Z; ri_grantId : string;
  ri_keyOperationAuthorization : SignedKeyOperationAuthorization; ri_recipientEnvelopeId : string;
  ri_recipientPrivateKey : KeyObject
}.

Definition retrieve_checks (input : RetrieveInput) (s : State) :
    result ServiceError (address * RecipientEnvelopeRecord * PreparedKeyOperationAuthorization * list PendingNonceConsumption) :=
  p ← record s (re_bundleId input);
  let '(a, _) := (p : address * PreparedInternal) in
  _ ← lifecycle (authorizeRetrieval (keyLifecycle s) (ri_grantId input) (re_currentTime input));
  recipient ← defined (granted_envelope s (ri_grantId input) (ri_recipientEnvelopeId input)) svc_policy_denied;
  operation ← prepareKeyOperationAuthorization config s
                (op_decrypt (re_bundleId input) (re_currentTime input) (ri_grantId input) (ri_recipientEnvelopeId input))
                (ri_keyOperationAuthorization input) (re_currentTime input);
  Ok (a, recipient, operation, []).

Definition failover_of (r : PreparedInternal) : FailoverInput (Store := StoreName) :=
  mkFailover (expected_object r) (critical r) (primaryStore, f_finalObjectId (fields r))
    ((fun id => (replicaStore, id)) <$> replicaObjectId r).

Definition retrieveWithGrant (input : RetrieveInput) : thread (bytes * bytes * FetchSource) :=
  with_proofs (retrieve_checks input) (fun '(a, recipient) =>
  reading (fun _ => crypto (unwrapDek (re_bytes recipient) (ri_recipientPrivateKey input) (re_context recipient))) (fun dek =>
  reading (at_address a) (fun r =>
  thread_bind (on_stores (fetch sha256_text (failover_of r))) (fun '(fetched, source) =>
  reading (fun _ => crypto (openProtectedContent fetched dek (f_aad (fields r)) (f_contentCommitment (fields r))))
    (fun '(content, payload) => Done (Ok (content, payload, source))))))).

(** ** [promoteToDecisionCritical] *)

Definition promote_start (bundleId freshId : string) (s : State) : State * result ServiceError (address * PreparedInternal) :=
  match record s bundleId with
  | Throw e => (s, Throw e)
  | Ok (a, r) =>
      if negb (finalized r) || critical r then (s, Throw svc_invalid_state)
      else (write a (set_replica freshId) s, Ok (a, r))
  end.

Definition set_critical (r : PreparedInternal) : PreparedInternal :=
  mkPreparedInternal (fields r) (custody r) (finalized r) true (replicaObjectId r).

Definition promoteToDecisionCritical (bundleId freshId : string) : thread PromotionResult :=
  atomic (promote_start bundleId freshId) (fun '(a, r) =>
  thread_bind (on_stores (replicate sha256_text primaryStore (f_finalObjectId (fields r)) replicaStore freshId
                            (expected_object r))) (fun result =>
  atomic (fun s => (write a set_critical s, Ok tt)) (fun _ => Done (Ok result)))).

(** ** Queries *)

Definition finalizedRecord (s : State) (bundleId : string) : result ServiceError FinalizedEvidenceBundleRecord :=
  defined (map_get bundleId (finalizedRecords s)) svc_not_found.

Definition consumedKeyOperationAuthorization (s : State) (authorizationId : string) (authorizationVersion : Z) :
    result ServiceError json :=
  defined (KeyOperations.find (repository s) authorizationId authorizationVersion) svc_not_found.
End Service.
