(* ===== verification/BundleSafety.v ===== *)
(** * The evidence bundle service under interleaving

    Calls of [EvidenceBundleService] run concurrently, one segment at a time. This file
    has the step relation of the whole service, an invariant of its state, the proof that
    every segment of every method keeps it (by a rely-guarantee predicate on threads), and
    what follows for finished calls. *)

From S2P Require Import Prelude Regex Digits Base64 Schemas KeyLifecycle Storage Json Hex Signatures Protection KeyOperations Bundle BundleService.

Local Open Scope Z_scope.

Section Safety.
Context {HC : CanonicalJson} {HSha : Sha256} {HKeccak : Keccak256} {HJose : Jose} {HTyped : TypedData}.
Context (config : EvidenceBundleServiceConfig).

(** ** The system *)

Inductive Output :=
| out_prepared (p : PreparedEvidence)
| out_finalized (primary : PromotionResult) (replica : option PromotionResult)
| out_done
| out_content (content payload : bytes) (source : FetchSource)
| out_promoted (r : PromotionResult).

Inductive Call :=
| call_prepare (input : PrepareEvidenceInput) (fresh : Fresh)
| call_finalize (input : FinalizeInput) (replicaId : string)
| call_rotate (input : RotateInput) (iv seed : bytes)
| call_grant (input : GrantInput) (iv seed : bytes)
| call_retrieve (input : RetrieveInput)
| call_promote (bundleId freshId : string).

Definition returning {A} (t : thread A) (f : A -> Output) : thread Output := thread_bind t (fun a => Done (Ok (f a))).

Definition start (c : Call) : thread Output :=
  match c with
  | call_prepare input fresh => returning (prepare config input fresh) out_prepared
  | call_finalize input id => returning (finalize config input id) (fun p => out_finalized p.1 p.2)
  | call_rotate input iv seed => returning (rotateControllerEnvelope config input iv seed) (fun _ => out_done)
  | call_grant input iv seed => returning (grantRecipient config input iv seed) (fun _ => out_done)
  | call_retrieve input => returning (retrieveWithGrant config input) (fun p => out_content p.1.1 p.1.2 p.2)
  | call_promote b id => returning (promoteToDecisionCritical config b id) out_promoted
  end.

Record System := mkServiceSystem { shared : State; tasks : list (Call * thread Output) }.

(** A new call, one segment of a running call, any change that other clients of the
    key-lifecycle registry make, and any objects that others put in the stores (no store
    overwrites one). A timer of the coordinator that fires is a store that fails at the
    request then awaited; the requests that the timed-out operation still makes are puts of
    others. [withLock] only rules interleavings out. *)
Inductive step (sys : System) : System -> Prop :=
| step_call c : step sys (mkServiceSystem (shared sys) (tasks sys ++ [(c, start c)]))
| step_segment i c f s' t' :
    tasks sys !! i = Some (c, Atomic f) -> f (shared sys) = (s', t') ->
    step sys (mkServiceSystem s' (<[i := (c, t')]> (tasks sys)))
| step_registry k : step sys (mkServiceSystem (set_lifecycle k (shared sys)) (tasks sys))
| step_objects w :
    (forall k b, map_get k (objects (shared sys)) = Some b -> map_get k w = Some b) ->
    step sys (mkServiceSystem (set_objects w (shared sys)) (tasks sys)).

Definition reachable (sys : System) : Prop :=
  exists k outs, rtc step (mkServiceSystem (new_service k outs) []) sys.

(** ** Invariant *)

(** The store holds the expected object under an identifier. *)
Definition stored (store : StoreName) (id : string) (e : ExpectedObject) (s : State) : Prop :=
  exists k b, Memory.key (cfg_store config store) id = Ok k /\ map_get k (objects s) = Some b /\
    byteLength b = ex_length e /\ sha256_text b = ex_digest e.

(** What [prepare] was called with, and the randomness of each call. *)
Context (Known : PrepareEvidenceInput -> Fresh -> Prop).

(** A record is what [prepare] makes of an input whose payload its schema accepts. *)
Definition genuine (r : PreparedInternal) : Prop :=
  exists input fresh p w d, Known input fresh /\ evidenceClaimPayload (in_evidencePayload input) = true /\
    protectContent (protect_input config input) (fresh_randomness fresh) = Ok p /\
    fields r = fields (prepared_record input fresh p w d).

Definition describes (fr : FinalizedEvidenceBundleRecord) (r : PreparedInternal) : Prop :=
  fr_bundleId fr = f_bundleId (fields r) /\ fr_contentCommitment fr = f_contentCommitment (fields r) /\
  fr_contentEnvelopeDigest fr = f_contentEnvelopeDigest (fields r) /\
  fr_domainPayloadCommitment fr = f_domainPayloadCommitment (fields r) /\
  fr_primaryObjectId fr = f_finalObjectId (fields r) /\
  fr_storedEnvelopeLength fr = f_storedEnvelopeLength (fields r).

Record Inv (s : State) : Prop := {
  inv_bundle b a : map_get b (byBundle s) = Some a -> exists r, heap s !! a = Some r /\ f_bundleId (fields r) = b;
  inv_idempotency h a : map_get h (byIdempotency s) = Some a -> is_Some (heap s !! a);
  inv_genuine a r : heap s !! a = Some r -> genuine r;
  inv_primary a r : heap s !! a = Some r -> finalized r = true -> stored primaryStore (f_finalObjectId (fields r)) (expected_object r) s;
  inv_replica a r : heap s !! a = Some r -> finalized r = true -> critical r = true ->
    exists id, stored replicaStore id (expected_object r) s;
  inv_finalized b fr : map_get b (finalizedRecords s) = Some fr ->
    exists a r, heap s !! a = Some r /\ finalized r = true /\ f_bundleId (fields r) = b /\ describes fr r;
  inv_repository : all_distinct (repository s);
  inv_nonces n : NoDup (nonces s n)
}.

(** ** What a step may do *)

Definition evolves (r r' : PreparedInternal) : Prop :=
  fields r' = fields r /\ (finalized r = true -> finalized r' = true) /\ (critical r = true -> critical r' = true) /\
  (finalized r' = false -> critical r' = critical r).

#[global] Instance evolves_preorder : PreOrder evolves.
Proof.
  split; [by intros r|]. intros x y z (H0 & H1 & H2 & H3) (H4 & H5 & H6 & H7).
  split; [congruence|]. split; [auto|]. split; [auto|]. intros Hz. rewrite H7 by done. apply H3.
  destruct (finalized y); [|done]. rewrite H5 in Hz; done.
Qed.

Record G (s s' : State) : Prop := {
  g_heap a r : heap s !! a = Some r -> exists r', heap s' !! a = Some r' /\ evolves r r';
  g_objects k b : map_get k (objects s) = Some b -> map_get k (objects s') = Some b;
  g_repository : grows (repository s) (repository s')
}.

#[global] Instance G_preorder : PreOrder G.
Proof.
  split.
  - intros s. split; [|done|done]. intros a r H. exists r. by split.
  - intros x y z [H1 H2 H3] [H4 H5 H6]. split; [|auto|by etrans].
    intros a r (r1 & Hr1 & E1)%H1. apply H4 in Hr1 as (r2 & Hr2 & E2). exists r2. split; [done|]. by etrans.
Qed.

(** The authorization a call has consumed: none, or the one its segment just consumed. *)
Definition owns (own own' : option string) (s s' : State) : Prop :=
  (repository s' = repository s /\ own' = own) \/
  (own = None /\ exists rec scope, KeyOperations.consume (repository s) rec scope = Ok (repository s') /\
     own' = Some (record_key rec)).

(** [safe own t Q s]: from [s], whatever the others do in between, every segment of [t]
    keeps the invariant and the guarantee, consumes at most one authorization, and the
    result satisfies [Q]. *)
Fixpoint safe {A} (own : option string) (t : thread A) (Q : option string -> result ServiceError A -> State -> Prop)
    (s : State) : Prop :=
  match t with
  | Done r => Q own r s
  | Atomic f =>
      forall s1, Inv s1 -> G s s1 ->
      let '(s2, t') := f s1 in
      Inv s2 /\ G s1 s2 /\ exists own', owns own own' s1 s2 /\ safe own' t' Q s2
  end.

(** A property that the steps of others keep. *)
Definition lasting (P : State -> Prop) : Prop := forall s s', P s -> G s s' -> P s'.

Lemma safe_mono {A} own (t : thread A) (Q Q' : option string -> result ServiceError A -> State -> Prop) s :
  (forall own r s, Q own r s -> Q' own r s) -> safe own t Q s -> safe own t Q' s.
Proof.
  intros HQ. revert own s. induction t as [r|f IH] using thread_ind'; intros own s; simpl; [apply HQ|].
  intros H s1 Hi Hg. specialize (H s1 Hi Hg). specialize (IH s1). destruct (f s1) as [s2 t'].
  destruct H as (Hi2 & Hg2 & own' & Ho & Hs). split; [done|]. split; [done|]. exists own'. split; [done|]. by apply IH.
Qed.

Lemma safe_bind {A B} own (t : thread A) (k : A -> thread B) Q s :
  safe own t (fun own r s => match r with Ok a => safe own (k a) Q s | Throw e => Q own (Throw e) s end) s ->
  safe own (thread_bind t k) Q s.
Proof.
  revert own s. induction t as [[a|e]|f IH] using thread_ind'; intros own s; simpl; [done..|].
  intros H s1 Hi Hg. specialize (H s1 Hi Hg). specialize (IH s1). destruct (f s1) as [s2 t'].
  destruct H as (Hi2 & Hg2 & own' & Ho & Hs). split; [done|]. split; [done|]. exists own'. split; [done|]. by apply IH.
Qed.

Lemma safe_atomic {A B} own (m : State -> State * result ServiceError A) (k : A -> thread B) Q s :
  (forall s1, Inv s1 -> G s s1 ->
     let '(s2, r) := m s1 in
     Inv s2 /\ G s1 s2 /\ exists own', owns own own' s1 s2 /\
       match r with Ok a => safe own' (k a) Q s2 | Throw e => Q own' (Throw e) s2 end) ->
  safe own (atomic m k) Q s.
Proof.
  intros H s1 Hi Hg. specialize (H s1 Hi Hg). destruct (m s1) as [s2 [a|e]]; exact H.
Qed.

Lemma owns_refl own s : owns own own s s.
Proof. by left. Qed.

Lemma safe_reading {A B} own (m : State -> result ServiceError A) (k : A -> thread B) Q s :
  (forall s1, Inv s1 -> G s s1 ->
     match m s1 with Ok a => safe own (k a) Q s1 | Throw e => Q own (Throw e) s1 end) ->
  safe own (reading m k) Q s.
Proof.
  intros H. apply safe_atomic. intros s1 Hi Hg. split; [done|]. split; [done|]. exists own.
  split; [apply owns_refl|]. specialize (H s1 Hi Hg). by destruct (m s1).
Qed.

(** ** Segments that keep the records *)

(** Only the collaborators' future changed. *)
Lemma inv_outages o s : Inv s -> Inv (set_outages o s).
Proof. by intros []. Qed.

Lemma inv_lifecycle k s : Inv s -> Inv (set_lifecycle k s).
Proof. by intros []. Qed.

Lemma inv_recipients m s : Inv s -> Inv (set_recipients m s).
Proof. by intros []. Qed.

Lemma g_same s s' : heap s' = heap s -> objects s' = objects s -> repository s' = repository s -> G s s'.
Proof.
  intros Hh Ho Hr. split; [|by rewrite Ho|by rewrite Hr]. intros a r H. exists r. by rewrite Hh.
Qed.

Lemma next_outage_same s b s' : next_outage s = (b, s') -> (Inv s -> Inv s') /\ G s s' /\ s' = set_outages (outages s') s.
Proof.
  unfold next_outage. destruct (outages s) as [|b' bs] eqn:Ho; intros [= <- <-].
  - split; [done|]. split; [done|]. rewrite Ho. destruct s; simpl in *. by subst.
  - split; [apply inv_outages|]. split; [by apply g_same|done].
Qed.

Lemma lasting_stored store id e : lasting (stored store id e).
Proof. intros s s' (k & b & Hk & Hb & He) Hg. exists k, b. split; [done|]. split; [by apply (g_objects _ _ Hg)|done]. Qed.

(** More objects. *)
Lemma inv_objects w s : Inv s -> (forall k b, map_get k (objects s) = Some b -> map_get k w = Some b) -> Inv (set_objects w s).
Proof.
  intros [H1 H2 H3 H4 H5 H6 H7 H8] Hw.
  assert (forall store id e, stored store id e s -> stored store id e (set_objects w s)) as Hst.
  { intros store id e (k & b & Hk & Hb & He). exists k, b. split; [done|]. split; [by apply Hw|done]. }
  split; simpl; try done; eauto.
  intros a r Hr Hf Hc. destruct (H5 a r Hr Hf Hc) as [id Hid]. exists id. by apply Hst.
Qed.

Lemma g_objects_only w s : (forall k b, map_get k (objects s) = Some b -> map_get k w = Some b) -> G s (set_objects w s).
Proof. intros Hw. split; [|done|done]. intros a r H. by exists r. Qed.

(** ** Requests to the stores *)

(** Everything but a deletion; the service deletes nothing. *)
Definition keeps {X} (o : op (Store := StoreName) X) : Prop :=
  match o with Delete _ _ => False | _ => True end.

Lemma put_grows st w id source w' r k b :
  Memory.putIfAbsent st w id source = Ok (w', r) -> map_get k w = Some b -> map_get k w' = Some b.
Proof.
  unfold Memory.putIfAbsent. intros H Hk. apply bind_Ok in H as ([r'|[k' v]] & _ & H); [by injection H as <- _|].
  unfold Memory.finish_put in H. destruct (map_get k' w) as [v'|] eqn:Hn; injection H as <- _; [done|].
  rewrite map_get_set_ne; [done|]. intros ->. congruence.
Qed.

Lemma answer_grows X (o : op X) fin w k b :
  keeps o -> map_get k w = Some b -> map_get k (answer (cfg_store config) fin w o).1 = Some b.
Proof.
  destruct o; simpl; intros Hk Hb; try done. destruct (Memory.putIfAbsent _ _ _ _) as [[w' r]|] eqn:Hp; [|done].
  by eapply put_grows.
Qed.

(** A request keeps the invariant and what is stored; an answer is the answer of the
    in-memory store. *)
Lemma store_request_spec X (o : op X) s s' r :
  keeps o -> store_request config o s = (s', r) ->
  (Inv s -> Inv s') /\ G s s' /\ repository s' = repository s /\
  (forall x, r = Ok x -> answer (cfg_store config) false (objects s) o = (objects s', Ok x)).
Proof.
  intros Ho H. unfold store_request in H. destruct (next_outage s) as [down s1] eqn:Hn.
  apply next_outage_same in Hn as (Hi & Hg & He). destruct down; [injection H as <- <-|].
  { split; [done|]. split; [done|]. split; [by rewrite He|done]. }
  destruct (answer (cfg_store config) false (objects s1) o) as [w x] eqn:Ha. injection H as <- <-.
  assert (forall k b, map_get k (objects s1) = Some b -> map_get k w = Some b) as Hw.
  { intros k b Hb. pose proof (answer_grows _ o false (objects s1) k b Ho Hb) as H. by rewrite Ha in H. }
  split; [intros Hs; by apply inv_objects; [apply Hi|]|]. split; [etrans; [done|by apply g_objects_only]|].
  split; [by rewrite He|]. intros y ->. by rewrite He in Ha.
Qed.

Lemma safe_request {A X} own (o : op X) (k : result ObjectStoreErrorCode X -> prog A) Q s :
  keeps o ->
  (forall s1 s2 r, G s s1 -> G s1 s2 ->
     (forall x, r = Ok x -> answer (cfg_store config) false (objects s1) o = (objects s2, Ok x)) ->
     safe own (on_stores config (k r)) Q s2) ->
  safe own (on_stores config (Do _ o k)) Q s.
Proof.
  intros Ho H s1 Hi Hg. cbn [on_stores]. destruct (store_request config o s1) as [s2 r] eqn:Hr.
  pose proof (store_request_spec _ _ _ _ _ Ho Hr) as (Hi2 & Hg2 & Hrep & Ha).
  split; [by apply Hi2|]. split; [done|]. exists own. split; [by left|]. by apply (H s1).
Qed.

Lemma safe_prog_bind {A B} own (p : prog A) (f : A -> prog B) Q s :
  safe own (on_stores config p)
    (fun own r s => match r with Ok a => safe own (on_stores config (f a)) Q s | Throw e => Q own (Throw e) s end) s ->
  safe own (on_stores config (prog_bind p f)) Q s.
Proof.
  revert own s. induction p as [a|e|X o k IH]; intros own s; simpl; [done..|]. intros H s1 Hi Hg.
  specialize (H s1 Hi Hg). destruct (store_request config o s1) as [s2 r].
  destruct H as (Hi2 & Hg2 & own' & Ho & Hs). split; [done|]. split; [done|]. exists own'. split; [done|]. by apply IH.
Qed.

Lemma safe_try {A} own (p : prog A) h Q s :
  safe own (on_stores config p)
    (fun own r s => match r with
                    | Ok a => Q own (Ok a) s
                    | Throw (svc_storage e) => safe own (on_stores config (h e)) Q s
                    | Throw _ => False
                    end) s ->
  safe own (on_stores config (try_catch p h)) Q s.
Proof.
  revert own s. induction p as [a|e|X o k IH]; intros own s; simpl; [done..|]. intros H s1 Hi Hg.
  specialize (H s1 Hi Hg). destruct (store_request config o s1) as [s2 r].
  destruct H as (Hi2 & Hg2 & own' & Ho & Hs). split; [done|]. split; [done|]. exists own'. split; [done|]. by apply IH.
Qed.

Lemma safe_call {X} own (o : op X) Q s :
  keeps o ->
  (forall s1 s2 x, G s s1 -> G s1 s2 -> answer (cfg_store config) false (objects s1) o = (objects s2, Ok x) -> Q own (Ok x) s2) ->
  (forall s2 e, G s s2 -> Q own (Throw (svc_storage e)) s2) ->
  safe own (on_stores config (call o)) Q s.
Proof.
  intros Ho Hok He. apply safe_request; [done|]. intros s1 s2 [x|e] H1 H2 H3; simpl.
  - by apply (Hok s1); [..|apply H3].
  - apply He. by etrans.
Qed.

(** Verified reading leaves the verified object in the store. *)
Lemma safe_readVerified own store id e Q s :
  (forall s1 b, G s s1 -> byteLength b = ex_length e -> sha256_text b = ex_digest e -> stored store id e s1 -> Q own (Ok b) s1) ->
  (forall s1 err, G s s1 -> Q own (Throw (svc_storage err)) s1) ->
  safe own (on_stores config (readVerified sha256_text store id e)) Q s.
Proof.
  intros Hok He. apply safe_prog_bind, safe_call; [done| |intros s2 err Hg; by apply He].
  intros s1 s2 [n|] Hg1 Hg2 Ha; [|simpl; apply He; by etrans].
  destruct (n =? ex_length e); cbn [negb]; [|simpl; apply He; by etrans].
  simpl in Ha. injection Ha as Ho Hh. apply bind_Ok in Hh as (k & Hk & Hh). injection Hh as Hh.
  destruct (map_get k (objects s1)) as [v|] eqn:Hv; [|done]. clear Hh Ho.
  apply safe_prog_bind, safe_call; [done| |intros s3 err Hg; apply He; by repeat (etrans; [done|])].
  intros s3 s4 [chunks ending] Hg3 Hg4 Ha. simpl in Ha. unfold Memory.get in Ha. cbn [require negb mbind result_bind] in Ha.
  rewrite Hk in Ha. cbn [require mbind result_bind fmap] in Ha.
  assert (map_get k (objects s3) = Some v) as Hv3 by (apply (g_objects _ _ Hg3), (g_objects _ _ Hg2); done).
  assert (map_get k (objects s4) = Some v) as Hv4 by by apply (g_objects _ _ Hg4).
  rewrite Hv3 in Ha. injection Ha as _ <- <-. cbn [fst snd].
  assert (G s s4) as Hg by by repeat (etrans; [done|]).
  destruct (read_chunks (ex_length e) 0 [] [v]) as [b|] eqn:Hr; [|by apply He].
  apply read_chunks_single in Hr as ->.
  destruct (Z.eqb_spec (byteLength v) (ex_length e)); [|by apply He].
  destruct (String.eqb_spec (sha256_text v) (ex_digest e)); [|by apply He].
  apply Hok; [done..|]. by exists k, v.
Qed.

Ltac follow := match goal with |- G ?a ?b => solve [repeat (etrans; [eassumption|]); reflexivity || eassumption] end.

(** A put, then a verified read of what was put. *)
Lemma safe_put_verified own store id b e Q s :
  (forall s1 r, G s s1 -> stored store id e s1 -> Q own (Ok (mkPromotionResult e (status_of r))) s1) ->
  (forall s1 err, G s s1 -> Q own (Throw (svc_storage err)) s1) ->
  safe own (on_stores config
    (prog_bind (call (Put store id [b])) (fun r =>
     prog_bind (try_catch (readVerified sha256_text store id e) (fun err => Fail _ (conflict_if_exists r err)))
       (fun _ => Ret _ (mkPromotionResult e (status_of r)))))) Q s.
Proof.
  intros Hok He. apply safe_prog_bind, safe_call; [done| |intros s2 err Hg; by apply He].
  intros s1 s2 r Hg1 Hg2 _. apply safe_prog_bind, safe_try, safe_readVerified.
  - intros s3 b' Hg3 _ _ Hst. apply Hok; [follow|done].
  - intros s3 err Hg3. apply He. follow.
Qed.

Lemma safe_replicate own source sid store id e Q s :
  (forall s1 r, G s s1 -> stored store id e s1 -> Q own (Ok r) s1) ->
  (forall s1 err, G s s1 -> Q own (Throw (svc_storage err)) s1) ->
  safe own (on_stores config (replicate sha256_text source sid store id e)) Q s.
Proof.
  intros Hok He. apply safe_prog_bind, safe_readVerified; [|intros s1 err Hg; by apply He].
  intros s1 b Hg1 _ _ _. apply safe_put_verified.
  - intros s2 r Hg2. apply Hok. follow.
  - intros s2 err Hg2. apply He. follow.
Qed.

Lemma safe_promote own store input Q s :
  (forall s1 r, G s s1 -> stored store (destinationObjectId input) (expected input) s1 -> Q own (Ok r) s1) ->
  (forall s1 err, G s s1 -> Q own (Throw (svc_storage err)) s1) ->
  safe own (on_stores config (promote sha256_text store input)) Q s.
Proof.
  intros Hok He. apply safe_prog_bind, safe_call; [done| |intros s2 err Hg; by apply He].
  intros s1 s2 [n|] Hg1 Hg2 _.
  - apply safe_try, safe_prog_bind, safe_readVerified.
    + intros s3 b Hg3 _ _ Hst. apply Hok; [follow|done].
    + intros s3 err Hg3. apply He. follow.
  - apply safe_prog_bind, safe_readVerified; [|intros s3 err Hg3; apply He; follow].
    intros s3 b Hg3 _ _ _. apply safe_put_verified.
    + intros s4 r Hg4. apply Hok. follow.
    + intros s4 err Hg4. apply He. follow.
Qed.

Lemma safe_fetch own input Q s :
  (forall s1 b src, G s s1 -> Q own (Ok (b, src)) s1) ->
  (forall s1 err, G s s1 -> Q own (Throw (svc_storage err)) s1) ->
  safe own (on_stores config (fetch sha256_text input)) Q s.
Proof.
  intros Hok He. apply safe_try, safe_prog_bind, safe_readVerified.
  - intros s1 b Hg _ _ _. by apply Hok.
  - intros s1 err Hg1. destruct (if negb (Storage.critical input) then None else replica input) as [[store id]|]; [|by apply He].
    apply safe_try, safe_prog_bind, safe_readVerified.
    + intros s2 b Hg2 _ _ _. apply Hok. follow.
    + intros s2 e2 Hg2. apply He. follow.
Qed.

Lemma safe_collect own store id Q s :
  (forall s1 b, G s s1 -> Q own (Ok b) s1) ->
  (forall s1 err, G s s1 -> Q own (Throw (svc_storage err)) s1) ->
  safe own (on_stores config (collect_object store id)) Q s.
Proof.
  intros Hok He. apply safe_prog_bind, safe_call; [done| |intros s2 err Hg; by apply He].
  intros s1 s2 [chunks [e|]] Hg1 Hg2 _; [apply He|apply Hok]; follow.
Qed.

(** ** Consuming proofs *)

(** Only the nonces changed. *)
Definition only_nonces (s s' : State) : Prop := s' = set_nonces (nonces s') s.

#[local] Instance only_nonces_preorder : PreOrder only_nonces.
Proof.
  split; [by intros []|]. intros x y z Hy Hz. unfold only_nonces in *. rewrite Hz, Hy. done.
Qed.

Lemma only_nonces_G s s' : only_nonces s s' -> G s s'.
Proof. intros ->. by apply g_same. Qed.

Lemma inv_nonces_only s s' : only_nonces s s' -> (forall n, NoDup (nonces s' n)) -> Inv s -> Inv s'.
Proof. intros -> Hn [H1 H2 H3 H4 H5 H6 H7 H8]. by split. Qed.

Definition nonces_distinct (s : State) : Prop := forall n, NoDup (nonces s n).

Lemma update_nonces_only name f s : only_nonces s (update_nonces name f s).
Proof. by destruct s. Qed.

Lemma update_nonces_distinct name f s :
  nonces_distinct s -> NoDup (f (nonces s name)) -> nonces_distinct (update_nonces name f s).
Proof. intros Hd Hf n. unfold update_nonces. simpl. case_decide; [by subst|apply Hd]. Qed.

Lemma rollback_all_spec ps s :
  only_nonces s (rollback_all ps s) /\ (nonces_distinct s -> nonces_distinct (rollback_all ps s)).
Proof.
  revert s. induction ps as [|p ps IH]; intros s; [done|]. destruct (IH (rollback_pending p s)) as [H1 H2]. split.
  - etrans; [|exact H1]. apply update_nonces_only.
  - intros Hd. apply H2, update_nonces_distinct; [done|]. apply NoDup_filter, Hd.
Qed.

Lemma consume_local_spec pending consumed s s' r :
  consume_local pending consumed s = (s', r) ->
  only_nonces s s' /\ (nonces_distinct s -> nonces_distinct s').
Proof.
  revert consumed s. induction pending as [|p pending IH]; intros consumed s; simpl; [by intros [= <- _]|].
  destruct (Signatures.consume (nonces s (pn_store p)) (pn_scope p)) as [n|e] eqn:Hc.
  - intros [H1 H2]%IH. split; [etrans; [apply update_nonces_only|done]|]. intros Hd. apply H2, update_nonces_distinct; [done|].
    apply consume_nonce_Ok in Hc as [Hn ->]. apply NoDup_app. split; [apply Hd|]. split; [|apply NoDup_singleton].
    intros x Hx ->%list_elem_of_singleton. done.
  - intros [= <- _]. apply rollback_all_spec.
Qed.

Lemma inv_distinct s : Inv s -> nonces_distinct s.
Proof. intros []. done. Qed.

(** The authorization of a call: nothing consumed before its proofs are, and then it. *)
Lemma safe_with_proofs {A B}
    (checks : State -> result ServiceError (A * PreparedKeyOperationAuthorization * list PendingNonceConsumption))
    (k : A -> thread B) Q s :
  (forall s1 x operation pending s2, Inv s1 -> G s s1 -> checks s1 = Ok (x, operation, pending) -> G s1 s2 ->
     safe (Some (record_key (po_record operation))) (k x) Q s2) ->
  (forall e s1, Q None (Throw e) s1) ->
  safe None (with_proofs checks k) Q s.
Proof.
  intros Hok He. apply safe_atomic. intros s1 Hi1 Hg1. unfold checked.
  destruct (checks s1) as [[[x operation] pending]|e] eqn:Hc; [|split; [done|]; split; [done|]; exists None; split; [apply owns_refl|apply He]].
  destruct (consume_local pending [] s1) as [s2 r] eqn:Hl. apply consume_local_spec in Hl as [Hl Hd].
  assert (Inv s2) as Hi2 by (eapply inv_nonces_only; [done| |done]; by apply Hd, inv_distinct).
  assert (G s1 s2) as Hg2 by by apply only_nonces_G.
  assert (owns None None s1 s2) as Ho by (left; rewrite Hl; done).
  destruct r as [consumed|e]; (split; [done|]; split; [done|]; exists None; split; [done|]); [|apply He].
  apply safe_atomic. intros s3 Hi3 Hg3. unfold consume_repository.
  destruct (next_outage s3) as [down s4] eqn:Hn. apply next_outage_same in Hn as (Hi4 & Hg4 & He4).
  destruct (if down then _ else _) as [rep|e] eqn:Hr.
  - destruct down; [done|]. split.
    { destruct (Hi4 Hi3) as [H1 H2 H3 H4 H5 H6 H7 H8]. split; try done. simpl. by eapply consume_distinct. }
    split.
    { etrans; [exact Hg4|]. split; [intros a r Ha; by exists r|done|simpl; by eapply consume_grows]. }
    exists (Some (record_key (po_record operation))). split.
    { right. split; [done|]. exists (po_record operation), (po_nonceScope operation). split; [|done]. rewrite He4 in Hr. exact Hr. }
    eapply Hok; [exact Hi1|done|exact Hc|]. etrans; [exact Hg2|]. etrans; [exact Hg3|]. etrans; [exact Hg4|].
    split; [intros a r Ha; by exists r|done|simpl; by eapply consume_grows].
  - destruct (rollback_all_spec consumed s4) as [Hb Hbd]. split.
    { eapply inv_nonces_only; [exact Hb| |by apply Hi4]. by apply Hbd, inv_distinct, Hi4. }
    split; [etrans; [exact Hg4|by apply only_nonces_G]|]. exists None. split; [|apply He].
    left. rewrite Hb, He4. done.
Qed.

(** ** Segments that change records *)

(** Writing to a record what it may become, when what the invariant asks of the new
    contents holds. *)
Lemma write_keeps a f s :
  Inv s ->
  (forall r, heap s !! a = Some r -> evolves r (f r) /\
     (finalized (f r) = true -> stored primaryStore (f_finalObjectId (fields r)) (expected_object r) s) /\
     (finalized (f r) = true -> critical (f r) = true -> exists id, stored replicaStore id (expected_object r) s)) ->
  Inv (write a f s) /\ G s (write a f s).
Proof.
  intros [H1 H2 H3 H4 H5 H6 H7 H8] Hf.
  assert (forall i r, heap (write a f s) !! i = Some r -> exists r0, heap s !! i = Some r0 /\ r = (if decide (i = a) then f r0 else r0)) as Hw.
  { intros i r Hr. unfold write in Hr. simpl in Hr. destruct (decide (i = a)) as [->|Hne].
    - rewrite list_lookup_alter_eq in Hr. destruct (heap s !! a) as [r0|] eqn:Hr0; [|done]. injection Hr as <-. by exists r0.
    - rewrite list_lookup_alter_ne in Hr by done. by exists r. }
  assert (G s (write a f s)) as Hg.
  { split; [|done|done]. intros i r Hr. unfold write. simpl. destruct (decide (i = a)) as [->|Hne].
    - rewrite list_lookup_alter_eq, Hr. exists (f r). split; [done|]. by apply Hf.
    - rewrite list_lookup_alter_ne by done. by exists r. }
  split; [|done]. split; try done.
  - intros b i Hb. apply H1 in Hb as (r & Hr & Hid). apply (g_heap _ _ Hg) in Hr as (r' & Hr' & E & _). exists r'. by rewrite E.
  - intros h i Hh. apply H2 in Hh as [r Hr]. apply (g_heap _ _ Hg) in Hr as (r' & Hr' & _). by exists r'.
  - intros i r (r0 & Hr0 & ->)%Hw. apply H3 in Hr0 as Hgen. case_decide; [|done].
    subst i. destruct (Hf r0 Hr0) as ((E & _) & _). destruct Hgen as (input & fresh & p & w & d & Hk & Hp & Hfl).
    exists input, fresh, p, w, d. split; [done|]. split; [done|]. by rewrite E.
  - intros i r (r0 & Hr0 & ->)%Hw Hfin. case_decide; [|by apply H4 in Hr0].
    subst i. destruct (Hf r0 Hr0) as ((E & _) & Hp & _). specialize (Hp Hfin). unfold expected_object in *. by rewrite E.
  - intros i r (r0 & Hr0 & ->)%Hw Hfin Hcr. case_decide; [|by apply (H5 _ _ Hr0)].
    subst i. destruct (Hf r0 Hr0) as ((E & _) & _ & Hp). specialize (Hp Hfin Hcr). unfold expected_object in *. by rewrite E.
  - intros b fr Hb. apply H6 in Hb as (i & r & Hr & Hfin & Hid & Hd).
    apply (g_heap _ _ Hg) in Hr as (r' & Hr' & E & Ef & _). exists i, r'. unfold describes in *. rewrite E. auto.
Qed.

(** Assignments that leave what the invariant speaks of. *)
Lemma write_same a f s :
  Inv s -> (forall r, fields (f r) = fields r /\ finalized (f r) = finalized r /\ critical (f r) = critical r) ->
  Inv (write a f s) /\ G s (write a f s).
Proof.
  intros Hi Hf. apply write_keeps; [done|]. intros r Hr. destruct (Hf r) as (H1 & H2 & H3).
  split; [|split; rewrite H2; [by apply (inv_primary s Hi a)|rewrite H3; by apply (inv_replica s Hi a)]].
  split; [done|]. rewrite H2, H3. done.
Qed.

Lemma on_lifecycle_keeps f s s' r :
  on_lifecycle f s = (s', r) -> Inv s -> Inv s' /\ G s s' /\ repository s' = repository s /\ heap s' = heap s.
Proof.
  unfold on_lifecycle. destruct (f (keyLifecycle s)) as [k|e]; intros [= <- _] Hi; [|done].
  split; [by apply inv_lifecycle|]. split; [by apply g_same|done].
Qed.

(** A new record. *)
Lemma new_record_keeps h r s :
  Inv s -> genuine r -> finalized r = false ->
  Inv (new_record h (f_bundleId (fields r)) r s) /\ G s (new_record h (f_bundleId (fields r)) r s).
Proof.
  intros [H1 H2 H3 H4 H5 H6 H7 H8] Hgen Hfin.
  assert (forall i r0, heap s !! i = Some r0 -> (heap s ++ [r]) !! i = Some r0) as Hold by (intros; by apply lookup_app_l_Some).
  assert ((heap s ++ [r]) !! length (heap s) = Some r) as Hnew by by apply list_lookup_middle.
  assert (forall i r0, (heap s ++ [r]) !! i = Some r0 -> heap s !! i = Some r0 \/ r0 = r) as Hcase.
  { intros i r0 [Hl|[_ Hl]]%lookup_app_Some; [by left|right]. by apply list_lookup_singleton_Some in Hl as [_ ->]. }
  split; [|split; [|done|done]; intros i r0 Hr; exists r0; split; [by apply Hold|done]].
  unfold new_record. split; simpl; try done.
  - intros b i. rewrite map_get_set. case_decide as Hb.
    + intros [= <-]. exists r. subst. done.
    + intros (r0 & Hr0 & Hid)%H1. exists r0. split; [by apply Hold|done].
  - intros k i. rewrite map_get_set. case_decide as Hb.
    + intros [= <-]. by exists r.
    + intros [r0 Hr0]%H2. exists r0. by apply Hold.
  - intros i r0 [Hr| ->]%Hcase; [by eapply H3|done].
  - intros i r0 [Hr| ->]%Hcase Hf; [by eapply H4|congruence].
  - intros i r0 [Hr| ->]%Hcase Hf Hc; [by eapply H5|congruence].
  - intros b fr (i & r0 & Hr & Hf & Hid & Hd)%H6. exists i, r0. split; [by apply Hold|done].
Qed.

(** ** What a call leaves *)

Definition claims_key (o : SignedKeyOperationAuthorization) : string :=
  authorizationKey (cl_authorizationId (so_claims o)) (cl_authorizationVersion (so_claims o)).

(** The authorization a call presents. *)
Definition presents (c : Call) : option SignedKeyOperationAuthorization :=
  match c with
  | call_prepare _ _ | call_promote _ _ => None
  | call_finalize input _ => Some (fi_keyOperationAuthorization input)
  | call_rotate input _ _ => Some (ro_keyOperationAuthorization input)
  | call_grant input _ _ => Some (gi_keyOperationAuthorization input)
  | call_retrieve input => Some (ri_keyOperationAuthorization input)
  end.

Definition call_key (c : Call) : option string := claims_key <$> presents c.

(** Content and payload are those of a preparation of the bundle: they are the prepared
    ones, or their commitment preimages collide with those of the preparation, under its
    own salts. *)
Definition prepared_content (input : PrepareEvidenceInput) (fresh : Fresh) (content payload : bytes) : Prop :=
  (exists salt, length salt = 32%nat /\
     same_committed CONTENT_COMMITMENT_DOMAIN salt content (rnd_contentSalt (fresh_randomness fresh)) (in_content input)) /\
  (exists salt, length salt = 32%nat /\
     same_committed DOMAIN_COMMITMENT_DOMAIN salt payload (rnd_domainSalt (fresh_randomness fresh)) (domainPayload_of input)).

Definition authentic (bundleId : string) (content payload : bytes) : Prop :=
  exists input fresh, Known input fresh /\ pb_bundle_id (ep_protected_bundle_ref (in_evidencePayload input)) = bundleId /\
    prepared_content input fresh content payload.

(** A record of the bundle satisfies [P]. *)
Definition some_record (bundleId : string) (P : PreparedInternal -> Prop) (s : State) : Prop :=
  exists a r, heap s !! a = Some r /\ f_bundleId (fields r) = bundleId /\ P r.

Definition delivers (c : Call) (out : Output) (s : State) : Prop :=
  match c, out with
  | call_prepare _ _, out_prepared _ => True
  | call_finalize input _, out_finalized _ _ => some_record (fi_bundleId input) (fun r => finalized r = true) s
  | call_rotate _ _ _, out_done | call_grant _ _ _, out_done => True
  | call_retrieve input, out_content content payload _ => authentic (re_bundleId input) content payload
  | call_promote b _, out_promoted _ => some_record b (fun r => finalized r = true /\ critical r = true) s
  | _, _ => False
  end.

Definition Post (c : Call) (own : option string) (r : result ServiceError Output) (s : State) : Prop :=
  match r with
  | Ok out => own = call_key c /\ delivers c out s
  | Throw _ => own = None \/ own = call_key c
  end.

Lemma lasting_record b (P : PreparedInternal -> Prop) :
  (forall r r', P r -> evolves r r' -> P r') -> lasting (some_record b P).
Proof.
  intros HP s s' (a & r & Hr & Hb & Hp) Hg. apply (g_heap _ _ Hg) in Hr as (r' & Hr' & E). exists a, r'.
  split; [done|]. split; [by rewrite (proj1 E)|by eapply HP].
Qed.

Lemma lasting_post c own r : lasting (Post c own r).
Proof.
  intros s s' H Hg. destruct r as [out|e]; [|done]. destruct H as [Ho H]. split; [done|].
  destruct c, out; simpl in *; try done.
  - eapply lasting_record; [|done..]. intros x x' Hr (_ & E & _). auto.
  - eapply lasting_record; [|done..]. intros x x' [H1 H2] (_ & E1 & E2 & _). auto.
Qed.

Lemma safe_lasting {A} own (t : thread A) Q s s' :
  (forall own r, lasting (Q own r)) -> safe own t Q s -> G s s' -> safe own t Q s'.
Proof.
  intros HQ. destruct t as [r|f]; simpl; [intros H Hg; by eapply HQ|].
  intros H Hg s1 Hi Hg1. apply H; [done|]. by etrans.
Qed.

Lemma invalid_proof_Ok {E A} (m : result E A) a : invalid_proof m = Ok a <-> m = Ok a.
Proof. destruct m; split; intros H; simplify_eq/=; done. Qed.

Lemma record_Ok s b a r : record s b = Ok (a, r) <-> map_get b (byBundle s) = Some a /\ heap s !! a = Some r.
Proof.
  unfold record. rewrite defined_Ok. unfold deref. destruct (map_get b (byBundle s)) as [i|]; [|naive_solver].
  destruct (heap s !! i) eqn:Hi; split; [intros [= <- <-]; done|intros [[= <-] H]; congruence|done|intros [[= <-] H]; congruence].
Qed.

Lemma operation_key s target o now operation :
  prepareKeyOperationAuthorization config s target o now = Ok operation -> record_key (po_record operation) = claims_key o.
Proof.
  unfold prepareKeyOperationAuthorization. rewrite invalid_proof_Ok. intros Hp. repeat (apply bind_Ok in Hp as (? & _ & Hp)).
  by injection Hp as <-.
Qed.

(** ** Every call is safe *)

Lemma post_throw c own e s : own = None \/ own = call_key c -> Post c own (Throw e) s.
Proof. done. Qed.

Lemma prepare_start_valid input s existing :
  prepare_start input s = Ok existing -> evidenceClaimPayload (in_evidencePayload input) = true.
Proof.
  unfold prepare_start. destruct (_ =? _); [|done]. by destruct (evidenceClaimPayload _).
Qed.

Lemma prepare_safe input fresh s :
  Known input fresh -> safe None (start (call_prepare input fresh)) (Post (call_prepare input fresh)) s.
Proof.
  intros Hk. apply safe_bind, safe_reading. intros s1 Hi1 Hg1.
  destruct (prepare_start input s1) as [[r|]|e] eqn:Hstart; [done| |by left]. apply prepare_start_valid in Hstart.
  apply safe_reading. intros s2 Hi2 Hg2. destruct (protectContent _ _) as [p|e] eqn:Hp; [|by left].
  apply safe_reading. intros s3 Hi3 Hg3. destruct (crypto _) as [w|e]; [|by left].
  apply safe_bind, safe_call; [done| |intros s4 e Hg4; by left].
  intros s4 s5 x Hg4 Hg5 _. apply safe_atomic. intros s6 Hi6 Hg6. unfold prepare_finish.
  destruct (on_lifecycle _ s6) as [s7 r] eqn:Hl. apply on_lifecycle_keeps in Hl as (Hi7 & Hg7 & Hr7 & Hh7); [|done].
  assert (owns None None s6 s7) as Ho by by left.
  destruct r as [[]|e]; [|split; [done|]; split; [done|]; exists None; split; [done|by left]].
  destruct (rsaPublicKeySpkiSha256 _) as [d|e]; [|split; [done|]; split; [done|]; exists None; split; [done|by left]].
  destruct (new_record_keeps (idempotencyHash input) (prepared_record input fresh p w d) s7) as [Hi8 Hg8];
    [done|by exists input, fresh, p, w, d|done|].
  split; [done|]. split; [by etrans|]. exists None. split; [by left|done].
Qed.

Lemma finalize_checks_spec input s a operation pending :
  finalize_checks config input s = Ok (a, operation, pending) ->
  record_key (po_record operation) = claims_key (fi_keyOperationAuthorization input) /\
  map_get (fi_bundleId input) (byBundle s) = Some a.
Proof.
  unfold finalize_checks. intros H. apply bind_Ok in H as ([a' r] & Hr & H).
  repeat match type of H with
         | (_ ← prepareKeyOperationAuthorization _ _ _ _ _; _) = _ => fail 1
         | _ => apply bind_Ok in H as (? & _ & H)
         end.
  apply bind_Ok in H as (op & Hop & H). apply operation_key in Hop.
  apply bind_Ok in H as (n1 & _ & H). apply bind_Ok in H as (n2 & _ & H). injection H as <- <- _.
  split; [done|]. by apply record_Ok in Hr as [? _].
Qed.

Lemma unwrap_Ok a key s dek r : unwrap_controller a key s = Ok (dek, r) -> heap s !! a = Some r.
Proof.
  unfold unwrap_controller, at_address. intros H. apply bind_Ok in H as (r' & Hr & H). apply defined_Ok in Hr.
  apply bind_Ok in H as (d & _ & H). by injection H as _ ->.
Qed.

(** A record keeps its fixed fields. *)
Lemma heap_evolves s s' a r r' : G s s' -> heap s !! a = Some r -> heap s' !! a = Some r' -> evolves r r'.
Proof. intros Hg Hr Hr'. apply (g_heap _ _ Hg) in Hr as (x & Hx & E). by simplify_eq. Qed.

Lemma expected_evolves r r' : evolves r r' -> expected_object r' = expected_object r.
Proof. intros [E _]. unfold expected_object. by rewrite E. Qed.

(** What the last segment of [finalize] finds: the object verified at its final place,
    and a replica if the record was critical when it was asked for. *)
Lemma finalize_finish_keeps input a s s' r :
  finalize_finish input a s = (s', r) -> Inv s ->
  (forall x, heap s !! a = Some x ->
     stored primaryStore (f_finalObjectId (fields x)) (expected_object x) s /\
     (critical x = true -> exists id, stored replicaStore id (expected_object x) s)) ->
  Inv s' /\ G s s' /\ repository s' = repository s /\
  (r = Ok tt -> exists x, heap s' !! a = Some x /\ finalized x = true).
Proof.
  intros H Hi Hst. unfold finalize_finish in H. destruct (heap s !! a) as [x|] eqn:Hx; [|by injection H as <- <-].
  destruct (Hst _ eq_refl) as [Hp Hc].
  destruct (on_lifecycle _ s) as [s1 y] eqn:Hl. pose proof (on_lifecycle_keeps _ _ _ _ Hl Hi) as (Hi1 & Hg1 & Hr1 & Hh1).
  destruct y as [[]|e]; [|by injection H as <- <-]. injection H as <- <-.
  destruct (write_keeps a set_finalized_flag s1) as [Hi2 Hg2]; [done| |].
  { intros x' Hx'. rewrite Hh1 in Hx'. simplify_eq. split; [by repeat split|]. simpl. split; intros _.
    - by apply (lasting_stored _ _ _ s).
    - intros [id Hid]%Hc. exists id. by apply (lasting_stored _ _ _ s). }
  assert (heap (write a set_finalized_flag s1) !! a = Some (set_finalized_flag x)) as Ha.
  { unfold write. simpl. by rewrite list_lookup_alter_eq, Hh1, Hx. }
  assert (G s (write a set_finalized_flag s1)) as Hg by by etrans.
  split; [|split; [etrans; [exact Hg|by apply g_same]|split; [done|intros _; by exists (set_finalized_flag x)]]].
  destruct Hi2 as [H1 H2 H3 H4 H5 H6 H7 H8]. split; try done.
  intros b fr. simpl. rewrite map_get_set. case_decide as Hb; [|apply H6].
  intros [= <-]. exists a, (set_finalized_flag x). rewrite Hb. split; [exact Ha|]. by repeat split.
Qed.

Lemma finalize_safe input id s :
  safe None (start (call_finalize input id)) (Post (call_finalize input id)) s.
Proof.
  apply safe_bind, safe_with_proofs; [|intros e s1; by left].
  intros s1 a operation pending s2 Hi1 Hg1 Hc Hg2. apply finalize_checks_spec in Hc as [Hop Ha]. rewrite Hop.
  assert (forall s3 e, Post (call_finalize input id) (call_key (call_finalize input id)) (Throw e) s3) as Hth by by right.
  change (Some (claims_key (fi_keyOperationAuthorization input))) with (call_key (call_finalize input id)).
  destruct (inv_bundle _ Hi1 _ _ Ha) as (r0 & Hr0 & Hid).
  apply safe_reading. intros s3 Hi3 Hg3. destruct (unwrap_controller _ _ _) as [[dek r]|e] eqn:Hu; [|apply Hth].
  apply unwrap_Ok in Hu. assert (evolves r0 r) as Er by (eapply heap_evolves; [|done..]; follow).
  apply safe_bind, safe_collect; [|intros; apply Hth]. intros s4 staged Hg4.
  apply safe_reading. intros s5 Hi5 Hg5. destruct (crypto _) as [content|e]; [|apply Hth].
  apply safe_bind, safe_promote; [|intros; apply Hth]. cbn [destinationObjectId expected promotion_of].
  intros s6 primary Hg6 Hprimary. apply safe_atomic. intros s7 Hi7 Hg7.
  apply (lasting_stored _ _ _ _ s7) in Hprimary; [|done].
  assert (exists r7, heap s7 !! a = Some r7 /\ evolves r r7) as (r7 & Hr7 & E7).
  { apply (g_heap s3); [follow|done]. }
  assert (exists isCritical s8, choose_replica a id s7 = (s8, Ok isCritical) /\ isCritical = critical r7 /\ Inv s8 /\ G s7 s8 /\
            repository s8 = repository s7) as (isCritical & s8 & Hch & Hcr & Hi8 & Hg8 & Hrep8).
  { unfold choose_replica. rewrite Hr7. destruct (critical r7).
    - destruct (write_same a (set_replica id) s7 Hi7) as [Hi8 Hg8]; [done|]. by eexists _, _.
    - by eexists _, _. }
  rewrite Hch. split; [done|]. split; [done|]. exists (call_key (call_finalize input id)). split; [by left|].
  apply safe_bind.
  assert (forall own replica s9, own = call_key (call_finalize input id) -> G s8 s9 ->
    (isCritical = true -> exists i, stored replicaStore i (expected_object r) s9) ->
    safe own (atomic (finalize_finish input a) (fun _ => Done (Ok (primary, replica))))
      (fun own r s => match r with
         | Ok p => safe own (Done (Ok (out_finalized p.1 p.2))) (Post (call_finalize input id)) s
         | Throw e => Post (call_finalize input id) own (Throw e) s end) s9) as Hfin.
  { intros own replica s9 -> Hg9 Hrepl. apply safe_atomic. intros s10 Hi10 Hg10.
    destruct (finalize_finish input a s10) as [s11 y] eqn:Hf.
    apply finalize_finish_keeps in Hf as (Hi11 & Hg11 & Hrep11 & Hdone); [|done|].
    - split; [done|]. split; [done|]. exists (call_key (call_finalize input id)). split; [by left|].
      destruct y as [[]|e]; [|apply Hth]. split; [done|]. destruct (Hdone eq_refl) as (x & Hx & Hfx).
      exists a, x. split; [done|]. split; [|done].
      assert (evolves r0 x) as [-> _]; [|done]. eapply heap_evolves; [|exact Hr0|exact Hx].
      follow.
    - intros x Hx. assert (evolves r7 x) as E10 by (eapply heap_evolves; [|exact Hr7|exact Hx]; follow).
      assert (evolves r x) as E by by etrans. rewrite (expected_evolves _ _ E), (proj1 E). split.
      + eapply lasting_stored; [exact Hprimary|]. follow.
      + intros Hcx. destruct (critical r7) eqn:Hc7.
        * destruct (Hrepl Hcr) as [i Hst]. exists i. by eapply lasting_stored.
        * destruct (finalized x) eqn:Hfx.
          -- rewrite <- (expected_evolves _ _ E). by apply (inv_replica _ Hi10 a).
          -- destruct E10 as (_ & _ & _ & Hn). rewrite Hn in Hcx; congruence. }
  destruct isCritical.
  - apply safe_bind, safe_replicate; [|intros; apply Hth]. intros s9 replica Hg9 Hst. simpl.
    apply Hfin; [done..|]. intros _. by exists id.
  - simpl. apply Hfin; [done..|]. done.
Qed.

(** Peels the checks before the authorization, then those after it. *)
Ltac peel_to_operation H :=
  repeat match type of H with
         | (_ ← prepareKeyOperationAuthorization _ _ _ _ _; _) = _ => fail 1
         | _ => apply bind_Ok in H as (? & _ & H)
         end;
  let op := fresh "op" in let Hop := fresh "Hop" in
  apply bind_Ok in H as (op & Hop & H); apply operation_key in Hop; injection H as H; subst; exact Hop.

Lemma rotate_checks_spec input s x operation pending :
  rotate_checks config input s = Ok (x, operation, pending) ->
  record_key (po_record operation) = claims_key (ro_keyOperationAuthorization input).
Proof. unfold rotate_checks. intros H. apply bind_Ok in H as ([a' r] & _ & H). peel_to_operation H. Qed.

Lemma grant_checks_spec input s x operation pending :
  grant_checks config input s = Ok (x, operation, pending) ->
  record_key (po_record operation) = claims_key (gi_keyOperationAuthorization input).
Proof. unfold grant_checks. intros H. apply bind_Ok in H as ([a' r] & _ & H). peel_to_operation H. Qed.

Lemma retrieve_checks_spec input s a e operation pending :
  retrieve_checks config input s = Ok (a, e, operation, pending) ->
  record_key (po_record operation) = claims_key (ri_keyOperationAuthorization input) /\
  map_get (re_bundleId input) (byBundle s) = Some a.
Proof.
  unfold retrieve_checks. intros H. apply bind_Ok in H as ([a' r] & Hr & H). apply record_Ok in Hr as [Hr _].
  apply bind_Ok in H as (? & _ & H). apply bind_Ok in H as (? & _ & H). apply bind_Ok in H as (op & Hop & H).
  apply operation_key in Hop. injection H as <- _ <- _. done.
Qed.

Lemma rotate_safe input iv seed s :
  safe None (start (call_rotate input iv seed)) (Post (call_rotate input iv seed)) s.
Proof.
  apply safe_bind, safe_with_proofs; [|intros e s1; by left].
  intros s1 [a d] operation pending s2 Hi1 Hg1 Hc Hg2. rewrite (rotate_checks_spec _ _ _ _ _ Hc).
  change (Some (claims_key (ro_keyOperationAuthorization input))) with (call_key (call_rotate input iv seed)).
  assert (forall s3 e, Post (call_rotate input iv seed) (call_key (call_rotate input iv seed)) (Throw e) s3) as Hth by by right.
  apply safe_reading. intros s3 Hi3 Hg3. destruct (unwrap_controller _ _ _) as [[dek r]|e]; [|apply Hth].
  apply safe_reading. intros s4 Hi4 Hg4. destruct (_ ≫= _) as [[context w]|e]; [|apply Hth].
  apply safe_reading. intros s5 Hi5 Hg5. destruct (lifecycle _) as [p|e]; [|apply Hth].
  apply safe_atomic. intros s6 Hi6 Hg6. destruct (on_lifecycle _ s6) as [s7 y] eqn:Hl.
  apply on_lifecycle_keeps in Hl as (Hi7 & Hg7 & Hr7 & _); [|done].
  split; [done|]. split; [done|]. exists (call_key (call_rotate input iv seed)). split; [by left|].
  destruct y as [[]|e]; [|apply Hth]. apply safe_atomic. intros s8 Hi8 Hg8.
  destruct (write_same a (rotated input d context w) s8 Hi8) as [Hi9 Hg9]; [done|].
  split; [done|]. split; [done|]. exists (call_key (call_rotate input iv seed)). split; [by left|done].
Qed.

Lemma grant_safe input iv seed s :
  safe None (start (call_grant input iv seed)) (Post (call_grant input iv seed)) s.
Proof.
  apply safe_bind, safe_with_proofs; [|intros e s1; by left].
  intros s1 [a d] operation pending s2 Hi1 Hg1 Hc Hg2. rewrite (grant_checks_spec _ _ _ _ _ Hc).
  change (Some (claims_key (gi_keyOperationAuthorization input))) with (call_key (call_grant input iv seed)).
  assert (forall s3 e, Post (call_grant input iv seed) (call_key (call_grant input iv seed)) (Throw e) s3) as Hth by by right.
  apply safe_reading. intros s3 Hi3 Hg3. destruct (unwrap_controller _ _ _) as [[dek r]|e]; [|apply Hth].
  apply safe_reading. intros s4 Hi4 Hg4. destruct (_ ≫= _) as [[context w]|e]; [|apply Hth].
  apply safe_atomic. intros s5 Hi5 Hg5. unfold install_grant. destruct (on_lifecycle _ s5) as [s6 y] eqn:Hl.
  apply on_lifecycle_keeps in Hl as (Hi6 & Hg6 & Hr6 & _); [|done].
  destruct y as [[]|e];
    [|split; [done|]; split; [done|]; exists (call_key (call_grant input iv seed)); split; [by left|apply Hth]].
  split; [by apply inv_recipients|]. split; [etrans; [done|by apply g_same]|].
  exists (call_key (call_grant input iv seed)). split; [by left|]. destruct (lifecycle _) as [p|e]; [|apply Hth].
  apply safe_atomic. intros s7 Hi7 Hg7. destruct (on_lifecycle _ s7) as [s8 y] eqn:Hl.
  apply on_lifecycle_keeps in Hl as (Hi8 & Hg8 & Hr8 & _); [|done].
  split; [done|]. split; [done|]. exists (call_key (call_grant input iv seed)). split; [by left|].
  by destruct y as [[]|e]; [|apply Hth].
Qed.

(** What opens under a record's context and commitment is what was prepared. *)
Lemma genuine_opens r env dek content payload :
  genuine r -> openProtectedContent env dek (f_aad (fields r)) (f_contentCommitment (fields r)) = Ok (content, payload) ->
  authentic (f_bundleId (fields r)) content payload.
Proof.
  intros (input & fresh & p & w & d & Hk & _ & Hp & ->) (_ & _ & Hopen)%open_sound. simpl in *.
  pose proof Hopen as (Hcs & Hds & _). apply sealed_commits in Hp.
  destruct (committed_same _ _ _ _ _ _ _ _ _ _ Hopen Hp) as [Hc Hd].
  exists input, fresh. split; [done|]. split; [done|].
  split; eexists; (split; [|eassumption]); done.
Qed.

Lemma retrieve_safe input s : safe None (start (call_retrieve input)) (Post (call_retrieve input)) s.
Proof.
  apply safe_bind, safe_with_proofs; [|intros e s1; by left].
  intros s1 [a recipient] operation pending s2 Hi1 Hg1 Hc Hg2. apply retrieve_checks_spec in Hc as [Hop Ha]. rewrite Hop.
  change (Some (claims_key (ri_keyOperationAuthorization input))) with (call_key (call_retrieve input)).
  assert (forall s3 e, Post (call_retrieve input) (call_key (call_retrieve input)) (Throw e) s3) as Hth by by right.
  destruct (inv_bundle _ Hi1 _ _ Ha) as (r0 & Hr0 & Hid).
  apply safe_reading. intros s3 Hi3 Hg3. destruct (crypto _) as [dek|e]; [|apply Hth].
  apply safe_reading. intros s4 Hi4 Hg4. unfold at_address. destruct (heap s4 !! a) as [r|] eqn:Hr; [|apply Hth]. cbn [defined].
  assert (evolves r0 r) as E by (eapply heap_evolves; [|done..]; follow).
  pose proof (inv_genuine _ Hi4 _ _ Hr) as Hgen.
  apply safe_bind, safe_fetch; [|intros; apply Hth]. intros s5 fetched source Hg5.
  apply safe_reading. intros s6 Hi6 Hg6. destruct (crypto _) as [[content payload]|e] eqn:Ho; [|apply Hth].
  simpl. split; [done|]. rewrite <- Hid, <- (proj1 E). eapply (genuine_opens r fetched dek); [done|].
  unfold crypto, lift_err in Ho. destruct (openProtectedContent _ _ _ _); [by injection Ho as ->|done].
Qed.

Lemma promote_safe b id s : safe None (start (call_promote b id)) (Post (call_promote b id)) s.
Proof.
  apply safe_bind, safe_atomic. intros s1 Hi1 Hg1. unfold promote_start.
  destruct (Bundle.record s1 b) as [[a r]|e] eqn:Hr; [|split; [done|]; split; [done|]; exists None; split; [by left|by left]].
  apply record_Ok in Hr as [Hb Hr]. destruct (inv_bundle _ Hi1 _ _ Hb) as (r' & Hr' & Hid). simplify_eq.
  destruct (negb (finalized r) || critical r) eqn:Hf; [split; [done|]; split; [done|]; exists None; split; [by left|by left]|].
  apply orb_false_iff in Hf as [Hf _]. apply negb_false_iff in Hf.
  destruct (write_same a (set_replica id) s1 Hi1) as [Hi2 Hg2]; [done|].
  split; [done|]. split; [done|]. exists None. split; [by left|].
  apply safe_bind, safe_replicate; [|intros; by left]. intros s3 result Hg3 Hst. apply safe_atomic. intros s4 Hi4 Hg4.
  assert (exists x, heap s4 !! a = Some x /\ evolves r x) as (x & Hx & E) by (apply (g_heap s1); [follow|done]).
  assert (finalized x = true) as Hfx by by apply E.
  destruct (write_keeps a set_critical s4) as [Hi5 Hg5]; [done| |].
  { intros x' Hx'. simplify_eq. split; [split; [done|]; split; [done|]; split; [done|]; simpl; congruence|].
    simpl. split; intros _; [by apply (inv_primary _ Hi4 a)|]. intros _. exists id. rewrite (expected_evolves _ _ E). by eapply lasting_stored. }
  split; [done|]. split; [done|]. exists None. split; [by left|]. split; [done|].
  exists a, (set_critical x). split; [unfold write; simpl; by rewrite list_lookup_alter_eq, Hx|].
  split; [simpl; by rewrite (proj1 E)|done].
Qed.

Lemma start_safe c s : (forall input fresh, c = call_prepare input fresh -> Known input fresh) -> safe None (start c) (Post c) s.
Proof.
  destruct c; intros H; [eapply prepare_safe, H; done|apply finalize_safe|apply rotate_safe|apply grant_safe|apply retrieve_safe|apply promote_safe].
Qed.

(** ** The whole system *)

(** Every running call is safe with the authorization it has consumed, if any; no two
    calls hold the same one, and the repository has them. *)
Record Accounted (sys : System) (owns_ : list (option string)) : Prop := {
  acc_inv : Inv (shared sys);
  acc_length : length owns_ = length (tasks sys);
  acc_safe i c t own : tasks sys !! i = Some (c, t) -> owns_ !! i = Some own -> safe own t (Post c) (shared sys);
  acc_consumed i k : owns_ !! i = Some (Some k) -> map_has k (authorizations (repository (shared sys))) = true;
  acc_distinct i j k : owns_ !! i = Some (Some k) -> owns_ !! j = Some (Some k) -> i = j
}.

Definition all_known (sys : System) : Prop :=
  forall i input fresh t, tasks sys !! i = Some (call_prepare input fresh, t) -> Known input fresh.

Lemma inv_initial k outs : Inv (new_service k outs).
Proof. split; try done. - split; constructor. - intros n. constructor. Qed.

Lemma accounted_step sys sys' owns_ :
  step sys sys' -> all_known sys' -> Accounted sys owns_ -> exists owns', Accounted sys' owns'.
Proof.
  intros Hstep Hk [Hi Hlen Hs Hc Hd]. destruct Hstep as [c|i c f s' t' Ht Hf|k|w Hw].
  - exists (owns_ ++ [None]). split; simpl; [done|by rewrite !length_app, Hlen| | |].
    + intros i c' t own [Ht|[Hle Ht]]%lookup_app_Some Ho.
      * apply (Hs i); [done|]. rewrite lookup_app_l in Ho; [done|]. rewrite Hlen. by eapply lookup_lt_Some.
      * apply list_lookup_singleton_Some in Ht as [Hi0 Hct]. injection Hct as <- <-.
        assert (i = length owns_) as -> by lia. rewrite list_lookup_middle in Ho by done. injection Ho as <-.
        apply start_safe. intros input fresh ->. eapply (Hk (length (tasks sys)) input fresh). simpl. by apply list_lookup_middle.
    + intros i k [Ho|[_ Ho]]%lookup_app_Some; [by eapply Hc|]. by apply list_lookup_singleton_Some in Ho as [_ ?].
    + intros i j k [Ho|[_ Ho]]%lookup_app_Some; [|by apply list_lookup_singleton_Some in Ho as [_ ?]].
      intros [Ho'|[_ Ho']]%lookup_app_Some; [by eapply Hd|by apply list_lookup_singleton_Some in Ho' as [_ ?]].
  - assert (i < length owns_)%nat as Hlt by (rewrite Hlen; by eapply lookup_lt_Some).
    apply lookup_lt_is_Some in Hlt as [own Ho]. pose proof (Hs i c _ own Ht Ho) as H. simpl in H.
    specialize (H (shared sys) Hi (reflexivity _)). rewrite Hf in H. destruct H as (Hi' & Hg & own' & Hown & Hsafe).
    exists (<[i:=own']> owns_). split; simpl; [done|by rewrite !length_insert| | |].
    + intros j c' t own2 Hj Ho2. destruct (decide (j = i)) as [->|Hne].
      * rewrite list_lookup_insert_eq in Hj by (by eapply lookup_lt_Some). injection Hj as <- <-.
        rewrite list_lookup_insert_eq in Ho2 by (by eapply lookup_lt_Some). by injection Ho2 as <-.
      * rewrite list_lookup_insert_ne in Hj by done. rewrite list_lookup_insert_ne in Ho2 by done.
        eapply safe_lasting; [apply lasting_post|by apply (Hs j)|done].
    + intros j k Hj. destruct (decide (j = i)) as [->|Hne].
      * rewrite list_lookup_insert_eq in Hj by (by eapply lookup_lt_Some). injection Hj as ->.
        destruct Hown as [[Hr He]|(-> & rec & scope & Hcons & He)].
        -- rewrite Hr. subst own. by eapply Hc.
        -- injection He as ->. by eapply consume_has.
      * rewrite list_lookup_insert_ne in Hj by done. eapply grows_has; [apply (g_repository _ _ Hg)|by eapply Hc].
    + assert (forall j k, j <> i -> owns_ !! j = Some (Some k) -> own' <> Some k) as Hnew.
      { intros j k Hne Hj ->. destruct Hown as [[_ He]|(-> & rec & scope & Hcons & He)].
        - subst own. by eapply Hne, Hd.
        - injection He as ->. apply Hc in Hj. by rewrite (consume_fresh _ _ _ _ Hcons) in Hj. }
      intros j l k. destruct (decide (j = i)) as [->|Hj], (decide (l = i)) as [->|Hl]; [done| | |].
      * rewrite list_lookup_insert_eq, list_lookup_insert_ne by (done || by eapply lookup_lt_Some).
        intros [= ->] Hk'. by eapply Hnew in Hk'.
      * rewrite list_lookup_insert_eq, list_lookup_insert_ne by (done || by eapply lookup_lt_Some).
        intros Hk' [= ->]. by eapply Hnew in Hk'.
      * rewrite !list_lookup_insert_ne by done. apply Hd.
  - exists owns_. split; simpl; [by apply inv_lifecycle|done| |done|done].
    intros i c t own Ht Ho. eapply safe_lasting; [apply lasting_post|by apply (Hs i)|by apply g_same].
  - exists owns_. split; simpl; [by apply inv_objects|done| |done|done].
    intros i c t own Ht Ho. eapply safe_lasting; [apply lasting_post|by apply (Hs i)|].
    split; [|done|done]. intros a r Ha. by exists r.
Qed.

Lemma reachable_accounted sys : reachable sys -> all_known sys -> exists owns_, Accounted sys owns_.
Proof.
  intros (k & outs & H). revert sys H.
  apply (rtc_ind_r (fun sys => all_known sys -> exists owns_, Accounted sys owns_)); [|intros sys1 sys2 Hsteps Hstep IH]; intros Hk.
  - exists []. split; simpl; [apply inv_initial|done|..]; intros; done.
  - assert (all_known sys1) as Hk1.
    { intros i input fresh t Ht. destruct Hstep as [c|i' c f s' t' Ht' Hf|k'|w Hw]; simpl in *.
      - eapply (Hk i). simpl. by apply lookup_app_l_Some.
      - destruct (decide (i = i')) as [->|Hne].
        + rewrite Ht in Ht'. injection Ht' as <- ->. eapply (Hk i'). simpl. apply list_lookup_insert_eq. by eapply lookup_lt_Some.
        + eapply (Hk i). simpl. by rewrite list_lookup_insert_ne.
      - by eapply Hk.
      - by eapply Hk. }
    destruct (IH Hk1) as [owns_ Ha]. by eapply accounted_step.
Qed.
End Safety.
