(* ===== verification/BundleSample.v ===== *)
(** * A concrete evidence bundle

    One bundle through [EvidenceBundleService], with concrete collaborators: prepared,
    finalized with its replica, granted and read back. The concrete inputs of the
    properties of the service. *)

From S2P Require Import Prelude Regex Digits Base64 Schemas KeyLifecycle Storage Json Hex Signatures Protection KeyOperations Bundle BundleService BundleSafety.
Import Json.Sample Signatures.Sample Protection.Sample.

Local Open Scope Z_scope.

#[global] Program Instance sample_keccak : Keccak256 := {| keccak256 b := sha256 b |}.
Next Obligation. intros b. apply sha256_length. Qed.

Definition sample_address : string := "0x0000000000000000000000000000000000000001".

#[global] Instance sample_typed : TypedData :=
  {| verifyTypedData _ _ _ _ := Some sample_address; TypedDataEncoder_hash _ _ _ := hex32 1 |}.

Definition sample_principal : ServicePrincipal :=
  mkPrincipal (sample_urn "actor") (sample_urn "credential") (sample_urn "org").

Definition sample_config : EvidenceBundleServiceConfig :=
  mkConfig 1 (sample_urn "repository") (fun _ _ => Some (mkAcceptance true 0 None)) sample_principal sample_address
    (fun _ _ => Some (mkAcceptance true 0 None, sample_address)) 600 sample_address (sample_urn "repository")
    (fun store => match store with
                  | primaryStore => Memory.mkStore "p" "p:" 100000
                  | replicaStore => Memory.mkStore "r" "r:" 100000
                  end).

Definition sample_object (b : Byte.byte) : string := to_base64url (repeat b 32).
Definition sample_kid : string := ("urn:ietf:params:oauth:jwk-thumbprint:sha-256:" +:+ sample_object Byte.x02)%string.

Definition sample_prepare (criticality : string) : PrepareEvidenceInput :=
  mkPrepare (sample_urn "profile") 1 [Byte.x01; Byte.x02] "text/plain" (sample_urn "actor") (sample_urn "authorization") (sample_urn "credential")
    "k1" sample_kid (sample_urn "org") (key_of Byte.x01 false) (sample_evidence 1) (repeat Byte.x09 32) criticality
    (sample_urn "actor") (sample_urn "credential") (sample_urn "org").

Definition sample_fresh : Fresh :=
  mkFresh (Protection.Sample.fresh Byte.x05) (sample_object Byte.x11) (sample_object Byte.x12) (sample_urn "staging")
    (sample_urn "envelope") (repeat Byte.x06 12) [] (sample_urn "assertion").

Definition sample_registry : KeyLifecycleRegistry :=
  match (r ← addKey new_registry (mkKey "k1" "org1" key_pending); activateKey r "k1") with Ok r => r | Throw _ => new_registry end.

Definition s0 (outs : list bool) : State := new_service sample_registry outs.


(** ** A call run to its end at once *)

Section Perform.
Context {HC : CanonicalJson} {HSha : Sha256} {HKeccak : Keccak256} {HJose : Jose} {HTyped : TypedData}.
Context (config : EvidenceBundleServiceConfig).

Definition perform (sys : System) (c : Call) : System :=
  let p := run (shared sys) (start config c) in mkServiceSystem p.1 (tasks sys ++ [(c, Done p.2)]).

(** A task runs to its end while the others wait. *)
Lemma run_task_steps i c (t : thread Output) s ts :
  ts !! i = Some (c, t) ->
  rtc (step config) (mkServiceSystem s ts) (mkServiceSystem (run s t).1 (<[i := (c, Done (run s t).2)]> ts)).
Proof.
  revert s ts. induction t as [r|f IH] using thread_ind'; intros s ts Hi; simpl.
  { by rewrite list_insert_id. }
  specialize (IH s). destruct (f s) as [s' t'] eqn:Hf. simpl in IH.
  eapply rtc_l; [by eapply (step_segment config (mkServiceSystem s ts) i c f s' t')|].
  cbn [tasks]. rewrite <- (list_insert_insert_eq ts i (c, Done (run s' t').2) (c, t')). apply IH. apply list_lookup_insert_eq.
  by eapply lookup_lt_Some.
Qed.

Lemma run_steps c (t : thread Output) s ts :
  rtc (step config) (mkServiceSystem s (ts ++ [(c, t)]))
    (mkServiceSystem (run s t).1 (ts ++ [(c, Done (run s t).2)])).
Proof.
  pose proof (run_task_steps (length ts) c t s (ts ++ [(c, t)])) as H.
  rewrite insert_app_r_alt, Nat.sub_diag in H by lia. apply H. by apply list_lookup_middle.
Qed.

Lemma perform_steps sys c : rtc (step config) sys (perform sys c).
Proof.
  destruct sys as [s ts]. etrans; [apply rtc_once, (step_call _ _ c)|]. apply run_steps.
Qed.

Lemma performs_steps cs sys : rtc (step config) sys (fold_left (fun sys f => perform sys (f (shared sys))) cs sys).
Proof. revert sys. induction cs as [|f cs IH]; intros sys; simpl; [done|]. etrans; [apply perform_steps|apply IH]. Qed.
End Perform.

Definition sample_proof (m : object) : SignedProof := mkProof m (signature_text 5 7 27).

Definition sample_claims (version : Z) : KeyOperationAuthorizationClaims :=
  mkClaims (sample_urn "authorization") version (sample_urn "policy") 1 (sample_urn "policy") sample_principal.

Definition got {E A} (a : A) (m : result E A) : A := match m with Ok a => a | Throw _ => a end.

Definition sample_operation (s : State) (version : Z) (target : KeyOperationAuthorizationTarget) : SignedKeyOperationAuthorization :=
  mkSignedOperation (sample_claims version)
    (sample_proof (got [] (keyOperationAuthorizationMessage sample_config s target (sample_claims version)
                             (mkWindow 20 (hex32 1) 10 (hex32 version))))).

Definition sample_record (s : State) (P : PreparedInternal -> object) : object :=
  match Bundle.record s (sample_urn "bundle") with Ok (_, r) => P r | Throw _ => [] end.

Definition sample_finalize (s : State) : FinalizeInput :=
  let attestation := sample_proof (sample_record s (fun r => domainAttestationMessage r (author_of r) 20 10 (hex32 1))) in
  let finalization := sample_proof (sample_record s (fun r =>
    finalizationMessage sample_config r attestation (controller_of r) (sample_urn "command") 20 (hex32 1) 10 (hex32 1))) in
  mkFinalize attestation sample_address (sample_urn "bundle") sample_address (key_of Byte.x01 true) finalization
    (sample_operation s 1 (op_finalize (sample_urn "bundle") finalization)) 15.

Definition sample_grant_target : GrantEnvelopeTarget :=
  mkGrantTarget (sample_urn "bundle") 15 10 100 (sample_urn "grant") "review" (sample_urn "envelope") "k1" sample_kid
    (sample_urn "org") (got (mkDigest "" "") (rsaPublicKeySpkiSha256 (key_of Byte.x01 false))).

Definition sample_acknowledgement (s : State) : SignedKeyMaterialAcknowledgement :=
  let m := got [] (keyMaterialAcknowledgementMessage sample_config s (ack_grant sample_grant_target) sample_principal
                     (mkAckWindow (sample_urn "acknowledgement") 1 20 10 (hex32 1))) in
  mkAck (sample_urn "acknowledgement") 1
    (got (mkPossession "" "") (createRsaKeyPossessionProof (key_of Byte.x01 true) m (signature_text 5 7 27)))
    (sample_proof m) sample_principal.

Definition sample_grant (s : State) : GrantInput :=
  mkGrantInput (sample_urn "bundle") (key_of Byte.x01 true) 15 10 100 (sample_urn "grant") (sample_acknowledgement s)
    (sample_operation s 2 (op_grant sample_grant_target)) "review" (sample_urn "envelope") "k1" sample_kid (sample_urn "org")
    (key_of Byte.x01 false).

Definition sample_retrieve (s : State) : RetrieveInput :=
  mkRetrieve (sample_urn "bundle") 15 (sample_urn "grant")
    (sample_operation s 3 (op_decrypt (sample_urn "bundle") 15 (sample_urn "grant") (sample_urn "envelope")))
    (sample_urn "envelope") (key_of Byte.x01 true).

(** ** The flow *)

Definition sample_calls : list (State -> Call) :=
  [(fun _ => call_prepare (sample_prepare "decision-critical") sample_fresh);
   (fun s => call_finalize (sample_finalize s) (sample_object Byte.x13));
   (fun s => call_grant (sample_grant s) (repeat Byte.x06 12) []);
   (fun s => call_retrieve (sample_retrieve s))].

Definition sample_system : System :=
  fold_left (fun sys f => perform sample_config sys (f (shared sys))) sample_calls (mkServiceSystem (s0 []) []).

Lemma sample_reachable : reachable sample_config sample_system.
Proof. exists sample_registry, []. apply performs_steps. Qed.

(** A call and its answer, in brief. *)
Definition answered (t : Call * thread Output) : option (string * bytes) :=
  match t with
  | (call_retrieve _, Done (Ok (out_content content payload _))) => Some ("retrieved", content)
  | (call_prepare _ _, Done (Ok (out_prepared _))) => Some ("prepared", [])
  | (call_finalize _ _, Done (Ok (out_finalized _ (Some _)))) => Some ("finalized with replica", [])
  | (call_grant _ _ _, Done (Ok out_done)) => Some ("granted", [])
  | _ => None
  end.

(** Prepared, finalized with a replica, granted, and read back. *)
Lemma sample_answers :
  answered <$> tasks sample_system =
    [Some ("prepared", []); Some ("finalized with replica", []); Some ("granted", []); Some ("retrieved", [Byte.x01; Byte.x02])].
Proof. vm_compute. reflexivity. Qed.

Section Answered.
Context (ts : list (Call * thread Output)).
Hypothesis Hts : answered <$> ts =
  [Some ("prepared", []); Some ("finalized with replica", []); Some ("granted", []); Some ("retrieved", [Byte.x01; Byte.x02])].

Lemma answered_task i x :
  (answered <$> ts) !! i = Some (Some x) ->
  exists c out, ts !! i = Some (c, Done (Ok out)) /\ answered (c, Done (Ok out)) = Some x.
Proof using.
  clear Hts. intros H. apply list_lookup_fmap_Some in H as ([c t] & Ht & Hx). unfold answered in Hx.
  destruct t as [[out|e]|f]; [by exists c, out|by destruct c..].
Qed.

Lemma answered_finalized : exists input id out, ts !! 1%nat = Some (call_finalize input id, Done (Ok out)).
Proof.
  destruct (answered_task 1 ("finalized with replica", [])) as (c & out & Ht & Ha); [by rewrite Hts|].
  destruct c; try (by destruct out). by eexists _, _, _.
Qed.

Lemma answered_retrieved : exists input payload source,
  ts !! 3%nat = Some (call_retrieve input, Done (Ok (out_content [Byte.x01; Byte.x02] payload source))).
Proof.
  destruct (answered_task 3 ("retrieved", [Byte.x01; Byte.x02])) as (c & out & Ht & Ha); [by rewrite Hts|].
  destruct c; try (by destruct out as [|? []| | |]). destruct out; try done. injection Ha as ->. by eexists _, _, _.
Qed.
End Answered.

Lemma sample_finalized : exists input id out, tasks sample_system !! 1%nat = Some (call_finalize input id, Done (Ok out)).
Proof. exact (answered_finalized _ sample_answers). Qed.

Lemma sample_retrieved : exists input payload source,
  tasks sample_system !! 3%nat = Some (call_retrieve input, Done (Ok (out_content [Byte.x01; Byte.x02] payload source))).
Proof. exact (answered_retrieved _ sample_answers). Qed.
