(* ===== verification/BundleProperties.v ===== *)
(** * The evidence bundle service: properties

    What holds of every interleaving of calls of [EvidenceBundleService]
    (BundleSafety.v), how long a call runs, and what single calls do. *)

From S2P Require Import Prelude Regex Digits Base64 Schemas KeyLifecycle Storage Json Hex Signatures Protection KeyOperations Bundle BundleService BundleSafety BundleSample.

Local Open Scope Z_scope.

Section Reachable.
Context {HC : CanonicalJson} {HSha : Sha256} {HKeccak : Keccak256} {HJose : Jose} {HTyped : TypedData}.
Context (config : EvidenceBundleServiceConfig).

(** C2. However the calls of the service interleave, and whichever requests to the
    stores fail, in every state it can reach: a bundle identifier leads to a record of
    that bundle; the encrypted object of a finalized record is in the primary store, with
    the digest and length of the record, and if the record is decision-critical it is in
    the replica store as well; a finalized record agrees with the record it was made of,
    which is finalized; no key-operation authorization and no nonce was consumed twice. *)
Theorem bundle_invariant (sys : System) :
  reachable config sys ->
  let s := shared sys in
  (forall b a, map_get b (byBundle s) = Some a -> exists r, heap s !! a = Some r /\ f_bundleId (fields r) = b) /\
  (forall a r, heap s !! a = Some r -> finalized r = true ->
     stored config primaryStore (f_finalObjectId (fields r)) (expected_object r) s /\
     (critical r = true -> exists id, stored config replicaStore id (expected_object r) s)) /\
  (forall b fr, map_get b (finalizedRecords s) = Some fr ->
     exists a r, heap s !! a = Some r /\ finalized r = true /\ f_bundleId (fields r) = b /\ describes fr r) /\
  NoDup (authorizations (repository s)).*1 /\ NoDup (nonceScopes (repository s)) /\ (forall n, NoDup (nonces s n)).
Proof.
  intros Hr. destruct (reachable_accounted config (fun _ _ => True) sys Hr) as [owns_ [[H1 H2 H3 H4 H5 H6 [H7 H7'] H8] _ _ _ _]];
    [done|].
  split; [exact H1|]. split; [|by repeat split].
  intros a r Ha Hf. split; [by apply (H4 a)|]. by apply (H5 a).
Qed.

(** A call of [prepare] in the system, with its randomness. *)
Definition prepared_in (sys : System) (input : PrepareEvidenceInput) (fresh : Fresh) : Prop :=
  exists i t, tasks sys !! i = Some (call_prepare input fresh, t).

(** C3. What a grant reads is what was prepared: in every reachable system, a call of
    [retrieveWithGrant] that has answered returns the content and the domain payload of a
    call of [prepare] for that very bundle, whatever the other calls did and whichever
    copy it read; and the bundle service answers nothing else to it. The only escape is a
    collision of the commitment preimage of what is returned, under some 32-byte salt,
    with that of what the call of [prepare] was given, under the salt of that call. *)
Theorem retrieval_authentic (sys : System) (i : nat) (input : RetrieveInput) (out : Output) :
  reachable config sys -> tasks sys !! i = Some (call_retrieve input, Done (Ok out)) ->
  exists content payload source, out = out_content content payload source /\
    exists p fresh, prepared_in sys p fresh /\
      pb_bundle_id (ep_protected_bundle_ref (in_evidencePayload p)) = re_bundleId input /\
      (exists salt, length salt = 32%nat /\
         (content = in_content p \/
          collides (preimage CONTENT_COMMITMENT_DOMAIN salt content)
            (preimage CONTENT_COMMITMENT_DOMAIN (rnd_contentSalt (fresh_randomness fresh)) (in_content p)))) /\
      (exists salt, length salt = 32%nat /\
         (payload = domainPayload_of p \/
          collides (preimage DOMAIN_COMMITMENT_DOMAIN salt payload)
            (preimage DOMAIN_COMMITMENT_DOMAIN (rnd_domainSalt (fresh_randomness fresh)) (domainPayload_of p)))).
Proof.
  intros Hr Ht. destruct (reachable_accounted config (prepared_in sys) sys Hr) as [owns_ Ha].
  { intros j p fresh t Hj. by exists j, t. }
  assert (i < length owns_)%nat as [own Ho]%lookup_lt_is_Some by (rewrite (acc_length _ _ _ _ Ha); by eapply lookup_lt_Some).
  pose proof (acc_safe _ _ _ _ Ha i _ _ _ Ht Ho) as [_ Hd]. destruct out; simpl in Hd; try done.
  by exists content, payload, source.
Qed.

(** C8. An authorization opens one door: of two calls of [finalize],
    [rotateControllerEnvelope], [grantRecipient] or [retrieveWithGrant] that succeeded,
    in whatever order and interleaving, each consumed the authorization it presented,
    and they presented authorizations with different identifiers or versions. *)
Theorem authorization_single_use (sys : System) (i j : nat) (c d : Call) (out out' : Output)
    (oc od : SignedKeyOperationAuthorization) :
  reachable config sys ->
  tasks sys !! i = Some (c, Done (Ok out)) -> tasks sys !! j = Some (d, Done (Ok out')) -> i <> j ->
  presents c = Some oc -> presents d = Some od ->
  map_has (claims_key oc) (authorizations (repository (shared sys))) = true /\
  (cl_authorizationId (so_claims oc), cl_authorizationVersion (so_claims oc)) <>
    (cl_authorizationId (so_claims od), cl_authorizationVersion (so_claims od)).
Proof.
  intros Hr Hi Hj Hne Hc Hd. destruct (reachable_accounted config (fun _ _ => True) sys Hr) as [owns_ Ha]; [done|].
  assert (forall k e o out, tasks sys !! k = Some (e, Done (Ok out)) -> presents e = Some o -> owns_ !! k = Some (Some (claims_key o))) as Hown.
  { intros k e o y Hk Hp. assert (k < length owns_)%nat as [own Ho]%lookup_lt_is_Some
      by (rewrite (acc_length _ _ _ _ Ha); by eapply lookup_lt_Some).
    pose proof (acc_safe _ _ _ _ Ha k _ _ _ Hk Ho) as [Hown _]. rewrite Ho, Hown. unfold call_key. by rewrite Hp. }
  pose proof (Hown _ _ _ _ Hi Hc) as Hoi. pose proof (Hown _ _ _ _ Hj Hd) as Hoj.
  split; [by apply (acc_consumed _ _ _ _ Ha i)|]. intros He. apply Hne, (acc_distinct _ _ _ _ Ha i j (claims_key oc)); [done|].
  rewrite Hoj. unfold claims_key. by injection He as -> ->.
Qed.
End Reachable.

(** ** Proofs are consumed together or not at all *)

Definition scopes_of (name : NonceStoreName) (ps : list PendingNonceConsumption) : list string :=
  pn_scope <$> filter (fun p => pn_store p = name) ps.

Lemma scopes_of_app name ps qs : scopes_of name (ps ++ qs) = scopes_of name ps ++ scopes_of name qs.
Proof. unfold scopes_of. by rewrite filter_app, fmap_app. Qed.

Lemma scopes_of_one name p : scopes_of name [p] = if decide (pn_store p = name) then [pn_scope p] else [].
Proof. unfold scopes_of. rewrite filter_cons. by case_decide. Qed.

(** Rolling back what was added to some nonces gives those nonces. *)
Lemma rollback_all_added ps s n0 :
  (forall name, nonces s name = n0 name ++ scopes_of name ps) ->
  (forall p, p ∈ ps -> pn_scope p ∉ n0 (pn_store p)) -> NoDup ps ->
  forall name, nonces (rollback_all ps s) name = n0 name.
Proof.
  revert s. induction ps as [|p ps IH]; intros s Hn Hf Hd name.
  { unfold rollback_all. simpl. by rewrite Hn, app_nil_r. }
  apply NoDup_cons in Hd as [Hp Hd]. change (rollback_all (p :: ps) s) with (rollback_all ps (rollback_pending p s)).
  apply IH; [|intros q Hq; apply Hf; by right|done].
  intros name'. unfold rollback_pending, update_nonces. cbn [nonces set_nonces].
  change (p :: ps) with ([p] ++ ps) in Hn. rewrite !Hn, !scopes_of_app, !scopes_of_one.
  case_decide as Hs; [subst name'|by rewrite decide_False by congruence]. rewrite decide_True by done.
  unfold rollback. rewrite !filter_app, filter_cons, decide_False by (simpl; tauto). simpl.
  f_equal.
  - apply filter_all, Forall_forall. intros x Hx ->. apply (Hf p); [by left|done].
  - apply filter_all, Forall_forall. intros x Hx ->. apply Hp. unfold scopes_of in Hx.
    apply list_elem_of_fmap in Hx as (q & Hq & [Hs Hin]%list_elem_of_filter). destruct p, q. simpl in *. by subst.
Qed.

Definition fresh_nonces (s : State) (ps : list PendingNonceConsumption) : Prop :=
  NoDup ps /\ forall p, p ∈ ps -> pn_scope p ∉ nonces s (pn_store p).

(** The loop on a suffix of the nonces, the others being consumed already. *)
Lemma consume_local_outcome pending consumed s n0 :
  (forall name, nonces s name = n0 name ++ scopes_of name consumed) ->
  (forall p, p ∈ consumed -> pn_scope p ∉ n0 (pn_store p)) -> NoDup consumed ->
  (exists s', consume_local pending consumed s = (s', Ok (consumed ++ pending)) /\ only_nonces s s' /\
     (forall name, nonces s' name = n0 name ++ scopes_of name (consumed ++ pending)) /\
     NoDup (consumed ++ pending) /\ (forall p, p ∈ consumed ++ pending -> pn_scope p ∉ n0 (pn_store p))) \/
  (exists s', consume_local pending consumed s = (s', Throw svc_invalid_proof) /\ only_nonces s s' /\
     (forall name, nonces s' name = n0 name) /\
     ~ (NoDup (consumed ++ pending) /\ forall p, p ∈ consumed ++ pending -> pn_scope p ∉ n0 (pn_store p))).
Proof.
  revert consumed s. induction pending as [|p pending IH]; intros consumed s Hn Hf Hd.
  { left. exists s. rewrite app_nil_r. split; [done|]. split; [apply only_nonces_preorder|done]. }
  cbn [consume_local]. destruct (Signatures.consume (nonces s (pn_store p)) (pn_scope p)) as [n|e] eqn:Hc.
  - apply consume_nonce_Ok in Hc as [Hp ->]. rewrite Hn, elem_of_app in Hp.
    assert (p ∉ consumed) as Hpc.
    { intros Hin. apply Hp. right. unfold scopes_of. apply list_elem_of_fmap. exists p. split; [done|]. by apply list_elem_of_filter. }
    replace (consumed ++ p :: pending) with ((consumed ++ [p]) ++ pending) by by rewrite <- app_assoc.
    assert (only_nonces s (update_nonces (pn_store p) (fun _ => nonces s (pn_store p) ++ [pn_scope p]) s)) as Ho
      by apply update_nonces_only.
    destruct (IH (consumed ++ [p]) (update_nonces (pn_store p) (fun _ => nonces s (pn_store p) ++ [pn_scope p]) s))
      as [(s' & He & Ho' & H)|(s' & He & Ho' & H)].
    + intros name. unfold update_nonces. cbn [nonces set_nonces]. rewrite scopes_of_app, scopes_of_one, app_assoc, <- Hn.
      case_decide as Hs; [subst name; by rewrite decide_True|]. by rewrite decide_False, app_nil_r by congruence.
    + intros q [Hq| ->%list_elem_of_singleton]%elem_of_app; [by apply Hf|]. tauto.
    + apply NoDup_app. split; [done|]. split; [|apply NoDup_singleton]. by intros q Hq ->%list_elem_of_singleton.
    + left. exists s'. split; [done|]. split; [by etrans|done].
    + right. exists s'. split; [done|]. split; [by etrans|done].
  - right. exists (rollback_all consumed s). split; [done|]. split; [apply rollback_all_spec|].
    split; [by apply rollback_all_added|]. intros [Hd' Hf'].
    assert (pn_scope p ∈ nonces s (pn_store p)) as Hin.
    { unfold Signatures.consume in Hc. apply bind_Throw in Hc as [Hc|(u & _ & [=])]. apply require_Throw in Hc as [Hc _].
      apply negb_false_iff in Hc. by apply includes_true. }
    rewrite Hn in Hin. apply elem_of_app in Hin as [Hin|Hin]; [eapply Hf'; [|exact Hin]; set_solver|].
    unfold scopes_of in Hin. apply list_elem_of_fmap in Hin as (q & Hq & [Hs Hin]%list_elem_of_filter).
    assert (q = p) as -> by (destruct p, q; simpl in *; by subst).
    apply NoDup_app in Hd' as (_ & Hd' & _). eapply Hd'; [exact Hin|by left].
Qed.

Section Alone.
Context {HC : CanonicalJson} {HSha : Sha256} {HKeccak : Keccak256} {HJose : Jose} {HTyped : TypedData}.
Context (config : EvidenceBundleServiceConfig).

(** Nothing but the collaborators' future differs. *)
Definition unspent (s s' : State) : Prop :=
  s' = set_outages (outages s') (set_nonces (nonces s') s) /\ forall name, nonces s' name = nonces s name.

(** The authorization repository answers and takes the authorization. *)
Definition repository_takes (s : State) (operation : PreparedKeyOperationAuthorization) (rep : AuthorizationState) : Prop :=
  (next_outage s).1 = false /\ KeyOperations.consume (repository s) (po_record operation) (po_nonceScope operation) = Ok rep.

(** C14. The proofs of a privileged call are spent together or not at all. When the checks
    fail the state is untouched. When they pass, and every nonce is new and the
    authorization repository takes the authorization, exactly those nonces and that
    authorization are recorded and the call goes on; in every other case (a nonce used
    before or twice in the call, a replayed authorization, a repository that is down)
    the call fails with invalid-proof and every nonce is as it was, so the caller can
    present the same proofs again. *)
Theorem proofs_all_or_nothing {A B}
    (checks : State -> result ServiceError (A * PreparedKeyOperationAuthorization * list PendingNonceConsumption))
    (k : A -> thread B) (s : State) :
  match checks s with
  | Throw e => run s (with_proofs checks k) = (s, Throw e)
  | Ok (x, operation, pending) =>
      (forall rep, fresh_nonces s pending -> repository_takes s operation rep ->
         exists s', run s (with_proofs checks k) = run s' (k x) /\ repository s' = rep /\
           (forall name, nonces s' name = nonces s name ++ scopes_of name pending) /\
           s' = set_outages (outages s') (set_repository rep (set_nonces (nonces s') s))) /\
      (~ (fresh_nonces s pending /\ exists rep, repository_takes s operation rep) ->
         exists s', run s (with_proofs checks k) = (s', Throw svc_invalid_proof) /\ unspent s s')
  end.
Proof.
  unfold with_proofs, atomic. cbn [run]. unfold checked. destruct (checks s) as [[[x operation] pending]|e]; [|done].
  destruct (consume_local_outcome pending [] s (nonces s)) as [(s1 & He & Ho & Hn & Hf)|(s1 & He & Ho & Hn & Hf)];
    [intros name; unfold scopes_of; simpl; by rewrite app_nil_r|by intros p ?%not_elem_of_nil|constructor|..];
    simpl in He; rewrite He; cbn [run].
  - simpl in Hn, Hf. destruct (consume_repository operation pending s1) as [s2 r] eqn:Hr. unfold consume_repository in Hr.
    assert (exists down outs, next_outage s1 = (down, set_outages outs s1) /\ next_outage s = (down, set_outages outs s)) as (down & outs & H1 & H2).
    { rewrite Ho. unfold next_outage. simpl. destruct (outages s) as [|b bs] eqn:Hout.
      - exists false, []. rewrite <- Hout at 1. split; [done|]. rewrite <- Hout. by destruct s.
      - by exists b, bs. }
    rewrite H1 in Hr. assert (repository s1 = repository s) as Hrep by by rewrite Ho.
    destruct down; [|destruct (KeyOperations.consume (repository (set_outages outs s1)) (po_record operation) (po_nonceScope operation)) as [rep|e] eqn:Hc];
      injection Hr as <- <-; cbn [run]; (split; [intros rep' [Hfr1 Hfr2] [Ht1 Ht2]|intros Hnot]).
    + by rewrite H2 in Ht1.
    + eexists. split; [done|]. split.
      * destruct (rollback_all_spec pending (set_outages outs s1)) as [-> _]. simpl. by rewrite Ho.
      * apply rollback_all_added; [done|apply Hf|apply Hf].
    + eexists. split; [done|]. simpl. change (repository (set_outages outs s1)) with (repository s1) in Hc.
      rewrite Hrep, Ht2 in Hc. injection Hc as <-. split; [done|]. split; [done|]. by rewrite Ho.
    + exfalso. apply Hnot. split; [done|]. exists rep. split; [by rewrite H2|]. by rewrite <- Hrep.
    + change (repository (set_outages outs s1)) with (repository s1) in Hc. rewrite Hrep in Hc. congruence.
    + eexists. split; [done|]. split.
      * destruct (rollback_all_spec pending (set_outages outs s1)) as [-> _]. simpl. by rewrite Ho.
      * apply rollback_all_added; [done|apply Hf|apply Hf].
  - simpl in Hf. split; [by intros rep Hfr|]. intros _. exists s1. split; [done|]. split; [|done]. rewrite Ho. by destruct s.
Qed.
End Alone.

(** ** Every call ends *)

(** At most [n] segments remain, whatever the states they run in. *)
Fixpoint ends_in {A} (n : nat) (t : thread A) : Prop :=
  match t with
  | Done _ => True
  | Atomic f => match n with O => False | S n => forall s, ends_in n (f s).2 end
  end.

Lemma ends_more {A} n m (t : thread A) : (n <= m)%nat -> ends_in n t -> ends_in m t.
Proof.
  revert n m. induction t as [r|f IH] using thread_ind'; intros [|n] [|m] Hle; simpl; try done; [lia|].
  intros H s. eapply IH; [|apply H]. lia.
Qed.

Lemma ends_done {A} n (r : result ServiceError A) : ends_in n (Done r).
Proof. by destruct n. Qed.

Lemma ends_bind {A B} n m (t : thread A) (k : A -> thread B) :
  ends_in n t -> (forall a, ends_in m (k a)) -> ends_in (n + m) (thread_bind t k).
Proof.
  revert n. induction t as [[a|e]|f IH] using thread_ind'; intros n Ht Hk.
  - simpl. eapply ends_more; [|apply Hk]. lia.
  - apply ends_done.
  - destruct n as [|n]; [done|]. simpl in *. intros s. specialize (IH s). specialize (Ht s).
    destruct (f s) as [s' t']. by apply IH.
Qed.

Lemma ends_atomic {A B} n m (seg : State -> State * result ServiceError A) (k : A -> thread B) :
  n = S m -> (forall a, ends_in m (k a)) -> ends_in n (atomic seg k).
Proof. intros -> Hk s. destruct (seg s) as [s' [a|e]]; [apply Hk|apply ends_done]. Qed.

Lemma ends_reading {A B} n m (seg : State -> result ServiceError A) (k : A -> thread B) :
  n = S m -> (forall a, ends_in m (k a)) -> ends_in n (reading seg k).
Proof. apply ends_atomic. Qed.

Section Ends.
Context {HC : CanonicalJson} {HSha : Sha256} {HKeccak : Keccak256} {HJose : Jose} {HTyped : TypedData}.
Context (config : EvidenceBundleServiceConfig).

(** The requests of a program of the coordinator. *)
Fixpoint requests_in {A} (n : nat) (p : prog (Store := StoreName) A) : Prop :=
  match p with
  | Ret _ _ | Fail _ _ => True
  | Do _ o k => match n with O => False | S n => forall r, requests_in n (k r) end
  end.

Lemma requests_end {A} n (p : prog A) : requests_in n p -> ends_in n (on_stores config p).
Proof.
  revert n. induction p as [a|e|X o k IH]; intros [|n]; simpl; try done.
  intros H s. destruct (store_request config o s) as [s' r]. by apply IH.
Qed.

Lemma requests_more {A} n m (p : prog A) : (n <= m)%nat -> requests_in n p -> requests_in m p.
Proof.
  revert n m. induction p as [a|e|X o k IH]; intros [|n] [|m] Hle; simpl; try done; [lia|].
  intros H r. eapply IH; [|apply H]. lia.
Qed.

Lemma requests_bind {A B} n m (p : prog A) (f : A -> prog B) :
  requests_in n p -> (forall a, requests_in m (f a)) -> requests_in (n + m) (prog_bind p f).
Proof.
  revert n. induction p as [a|e|X o k IH]; intros n Hp Hf; simpl.
  - eapply requests_more; [|apply Hf]. lia.
  - by destruct (n + m)%nat.
  - destruct n as [|n]; [done|]. simpl in *. intros r. by apply IH.
Qed.

Lemma requests_try {A} n m (p : prog A) h :
  requests_in n p -> (forall e, requests_in m (h e)) -> requests_in (n + m) (try_catch p h).
Proof.
  revert n. induction p as [a|e|X o k IH]; intros n Hp Hf; simpl.
  - by destruct (n + m)%nat.
  - eapply requests_more; [|apply Hf]. lia.
  - destruct n as [|n]; [done|]. simpl in *. intros r. by apply IH.
Qed.

Lemma requests_call {X} (o : op X) : requests_in 1 (call o).
Proof. by intros [x|e]. Qed.

Lemma requests_nothing {A} n (r : A + Storage.RepositoryError) :
  requests_in n (match r with inl a => Ret A a | inr e => Fail A e end).
Proof. by destruct r, n. Qed.

Lemma readVerified_requests store id e : requests_in 2 (readVerified sha256_text store id e).
Proof.
  apply (requests_bind 1 1); [apply requests_call|]. intros [n|]; [|done]. destruct (negb _); [done|].
  apply (requests_bind 1 0); [apply requests_call|]. intros [chunks ending]. simpl.
  destruct (read_chunks _ _ _ chunks) as [b|]; [|done]. destruct ending; [done|]. by destruct (negb _ || negb _).
Qed.

Lemma put_verified_requests store id b e :
  requests_in 3 (prog_bind (call (Put store id [b])) (fun r =>
    prog_bind (try_catch (readVerified sha256_text store id e) (fun err => Fail _ (conflict_if_exists r err)))
      (fun _ => Ret _ (mkPromotionResult e (status_of r))))).
Proof.
  apply (requests_bind 1 2); [apply requests_call|]. intros r. apply (requests_bind 2 0); [|done].
  apply (requests_try 2 0); [apply readVerified_requests|done].
Qed.

Lemma replicate_requests source sid store id e : requests_in 5 (replicate sha256_text source sid store id e).
Proof. apply (requests_bind 2 3); [apply readVerified_requests|]. intros b. apply put_verified_requests. Qed.

Lemma promote_requests store input : requests_in 6 (promote sha256_text store input).
Proof.
  apply (requests_bind 1 5); [apply requests_call|]. intros [n|].
  - apply (requests_more 2); [lia|]. apply (requests_try 2 0); [|done].
    apply (requests_bind 2 0); [apply readVerified_requests|done].
  - apply (requests_bind 2 3); [apply readVerified_requests|]. intros b. apply put_verified_requests.
Qed.

Lemma fetch_requests input : requests_in 4 (fetch sha256_text input).
Proof.
  apply (requests_try 2 2).
  - apply (requests_bind 2 0); [apply readVerified_requests|done].
  - intros e. destruct (if negb _ then _ else _) as [[store id]|]; [|done].
    apply (requests_try 2 0); [|done]. apply (requests_bind 2 0); [apply readVerified_requests|done].
Qed.

Lemma collect_requests store id : requests_in 1 (collect_object store id).
Proof. apply (requests_bind 1 0); [apply requests_call|]. by intros [chunks [e|]]. Qed.

Lemma ends_with_proofs {A B}
    (checks : State -> result ServiceError (A * PreparedKeyOperationAuthorization * list PendingNonceConsumption))
    (k : A -> thread B) n :
  (forall x, ends_in n (k x)) -> ends_in (2 + n) (with_proofs checks k).
Proof. intros Hk. eapply ends_atomic; [done|]. intros [[x operation] consumed]. by eapply ends_atomic. Qed.

(** How many segments a call has at most. *)
Definition segments (c : Call) : nat :=
  match c with
  | call_prepare _ _ => 5
  | call_finalize _ _ => 18
  | call_rotate _ _ _ => 7
  | call_grant _ _ _ => 6
  | call_retrieve _ => 9
  | call_promote _ _ => 7
  end.

Lemma returning_ends {A} n (t : thread A) f : ends_in n t -> ends_in n (returning t f).
Proof. intros H. apply (ends_more (n + 0)); [lia|]. by apply ends_bind. Qed.

Lemma start_ends c : ends_in (segments c) (start config c).
Proof.
  destruct c; apply returning_ends; cbn [segments].
  - eapply ends_reading; [done|]. intros [r|]; [apply ends_done|].
    eapply ends_reading; [done|]. intros p. eapply ends_reading; [done|]. intros w.
    apply (ends_bind 1 1); [apply requests_end, requests_call|]. intros x. by eapply ends_atomic.
  - apply (ends_with_proofs _ _ 16). intros a. eapply ends_reading; [done|]. intros [dek r].
    apply (ends_bind 1 14); [apply requests_end, collect_requests|]. intros staged.
    eapply ends_reading; [done|]. intros x.
    apply (ends_bind 6 7); [apply requests_end, promote_requests|]. intros primary.
    eapply ends_atomic; [done|]. intros isCritical. apply (ends_bind 5 1).
    + destruct isCritical; [|done]. apply (ends_bind 5 0); [apply requests_end, replicate_requests|done].
    + intros replica. by eapply ends_atomic.
  - apply (ends_with_proofs _ _ 5). intros [a d]. eapply ends_reading; [done|]. intros [dek r].
    eapply ends_reading; [done|]. intros [context w]. eapply ends_reading; [done|]. intros p.
    eapply ends_atomic; [done|]. intros u. by eapply ends_atomic.
  - apply (ends_with_proofs _ _ 4). intros [a d]. eapply ends_reading; [done|]. intros [dek r].
    eapply ends_reading; [done|]. intros [context w]. eapply ends_atomic; [done|]. intros p. by eapply ends_atomic.
  - apply (ends_with_proofs _ _ 7). intros [a recipient]. eapply ends_reading; [done|]. intros dek.
    eapply ends_reading; [done|]. intros r. apply (ends_bind 4 1); [apply requests_end, fetch_requests|].
    intros [fetched source]. eapply ends_reading; [done|]. by intros [content payload].
  - eapply ends_atomic; [done|]. intros [a r]. apply (ends_bind 5 1); [apply requests_end, replicate_requests|].
    intros x. by eapply ends_atomic.
Qed.

(** Steps of the system, with the calls whose segments they are. *)
Inductive executes : System -> list nat -> System -> Prop :=
| executes_nil sys : executes sys [] sys
| executes_call sys c turns sys' :
    executes (mkServiceSystem (shared sys) (tasks sys ++ [(c, start config c)])) turns sys' -> executes sys turns sys'
| executes_registry sys k turns sys' :
    executes (mkServiceSystem (set_lifecycle k (shared sys)) (tasks sys)) turns sys' -> executes sys turns sys'
| executes_segment sys i c f turns sys' :
    tasks sys !! i = Some (c, Atomic f) ->
    executes (mkServiceSystem (f (shared sys)).1 (<[i := (c, (f (shared sys)).2)]> (tasks sys))) turns sys' ->
    executes sys (i :: turns) sys'.

Definition turns_of (i : nat) (turns : list nat) : nat := length (filter (fun j => j = i) turns).

Lemma executes_ends sys turns sys' i c t n :
  executes sys turns sys' -> tasks sys !! i = Some (c, t) -> ends_in n t ->
  exists t', tasks sys' !! i = Some (c, t') /\ (turns_of i turns <= n)%nat /\ ends_in (n - turns_of i turns) t'.
Proof.
  intros H. revert t n. induction H as [sys|sys d turns sys' _ IH|sys k turns sys' _ IH|sys j d f turns sys' Hj _ IH]; intros t n Ht Hn.
  - exists t. split; [done|]. change (turns_of i []) with 0%nat. split; [lia|]. by rewrite Nat.sub_0_r.
  - eapply IH; [|done]. simpl. by apply lookup_app_l_Some.
  - by eapply IH.
  - unfold turns_of. rewrite filter_cons. case_decide as Hji; [subst j|].
    + rewrite Hj in Ht. injection Ht as <- <-. destruct n as [|n]; [done|].
      destruct (IH (f (shared sys)).2 n) as (t' & Ht' & Hle & He); [|apply Hn|].
      { simpl. apply list_lookup_insert_eq. by eapply lookup_lt_Some. }
      exists t'. split; [done|]. simpl. unfold turns_of in *. split; [lia|done].
    + eapply IH; [|done]. simpl. by rewrite list_lookup_insert_ne.
Qed.

(** The segments of a call are bounded: in any execution that contains it, whatever other
    calls and store failures it is interleaved with, a call has at most [segments] segments
    of its own (5 for [prepare], 18 for [finalize], 7, 6, 9 and 7 for the others), and once
    it has had that many it has answered. Here a store always answers; waiting for the lock
    of the coordinator is [Storage.Lock.lock_fair]. *)
Theorem calls_end (c : Call) (sys sys' : System) (turns : list nat) (i : nat) :
  tasks sys !! i = Some (c, start config c) -> executes sys turns sys' ->
  (turns_of i turns <= segments c)%nat /\
  exists t, tasks sys' !! i = Some (c, t) /\
    (turns_of i turns = segments c -> exists r, t = Done r) /\
    ((exists r, t = Done r) \/ exists sys'', executes sys' [i] sys'').
Proof.
  intros Ht Hx. destruct (executes_ends _ _ _ _ _ _ _ Hx Ht (start_ends c)) as (t & Ht' & Hle & He).
  split; [done|]. exists t. split; [done|]. split.
  - intros Heq. rewrite Heq, Nat.sub_diag in He. destruct t as [r|f]; [by exists r|done].
  - destruct t as [r|f]; [left; by exists r|right]. eexists. eapply executes_segment; [done|constructor].
Qed.
End Ends.

(** ** Two promotions at once *)

Section Promotion.
Context {HC : CanonicalJson} {HSha : Sha256} {HKeccak : Keccak256} {HJose : Jose} {HTyped : TypedData}.
Context (config : EvidenceBundleServiceConfig).

(** The requests a program makes alone. *)
Fixpoint path_length {A} (w : Memory.Objects) (p : prog (Store := StoreName) A) : nat :=
  match p with
  | Ret _ _ | Fail _ _ => 0
  | Do _ o k => let '(w', r) := answer (cfg_store config) false w o in S (path_length w' (k r))
  end.

Lemma path_bind {A B} (p : prog A) (f : A -> prog B) w :
  path_length w (prog_bind p f) =
    (path_length w p + match exec (cfg_store config) false w p with (w', Ok a) => path_length w' (f a) | _ => 0 end)%nat.
Proof.
  revert w. induction p as [a|e|X o k IH]; intros w; simpl; [done..|]. destruct (answer _ _ w o) as [w' r]. by rewrite IH.
Qed.

Lemma path_try {A} (p : prog A) h w w' a :
  exec (cfg_store config) false w p = (w', Ok a) -> path_length w (try_catch p h) = path_length w p.
Proof.
  revert w. induction p as [b|e|X o k IH]; intros w; simpl; [done..|].
  destruct (answer _ _ w o) as [w1 r]. intros H. by rewrite IH.
Qed.

(** With the stores up, a program does what it does alone. *)
Lemma run_on_stores {A} (p : prog A) s o :
  outages s = repeat false (path_length (objects s) p) ++ o ->
  run s (on_stores config p) =
    (set_outages o (set_objects (exec (cfg_store config) false (objects s) p).1 s),
     lift_err svc_storage (exec (cfg_store config) false (objects s) p).2).
Proof.
  revert s. induction p as [a|e|X op k IH]; intros s Ho; simpl in *; [rewrite <- Ho; by destruct s..|].
  unfold store_request, next_outage. destruct (answer (cfg_store config) false (objects s) op) as [w r] eqn:Ha.
  simpl in Ho. rewrite Ho. cbn [objects set_outages]. rewrite Ha. rewrite IH by done. by destruct s.
Qed.

Lemma run_bind {A B} (t : thread A) (k : A -> thread B) s :
  run s (thread_bind t k) = match run s t with (s', Ok a) => run s' (k a) | (s', Throw e) => (s', Throw e) end.
Proof.
  revert s. induction t as [[a|e]|f IH] using thread_ind'; intros s; simpl; [done..|].
  specialize (IH s). destruct (f s) as [s' t']. apply IH.
Qed.

Lemma read_verified_path w store id k v e :
  Memory.key (cfg_store config store) id = Ok k -> map_get k w = Some v -> verified sha256_text e v = true ->
  exec (cfg_store config) false w (readVerified sha256_text store id e) = (w, Ok v) /\
  path_length w (readVerified sha256_text store id e) = 2%nat.
Proof.
  intros Hk Hv He. split; [by rewrite (exec_readVerified _ _ _ _ _ _ k), Hv, He|].
  assert (answer (cfg_store config) false w (Head store id) = (w, Ok (Some (byteLength v)))) as Hhead.
  { simpl. by rewrite (head_Ok _ _ _ k), Hv. }
  assert (answer (cfg_store config) false w (Get store id) = (w, Ok ([v], None))) as Hget.
  { simpl. unfold Memory.get. simpl. rewrite Hk. simpl. by rewrite Hv. }
  unfold verified in He. apply andb_true_iff in He as [Hl _].
  unfold readVerified. rewrite path_bind. unfold call. cbn [path_length exec]. rewrite Hhead. cbn [path_length exec]. rewrite Hl.
  cbn [negb]. rewrite path_bind. cbn [path_length exec]. rewrite Hget. cbn [path_length exec fst snd].
  apply Z.eqb_eq in Hl. simpl. destruct (Z.ltb_spec (ex_length e) (0 + byteLength v)); [lia|].
  by destruct (negb (byteLength v =? ex_length e) || negb (String.eqb (sha256_text v) (ex_digest e))).
Qed.

Lemma replicate_alone w sid ks v id k e :
  Memory.key (cfg_store config primaryStore) sid = Ok ks -> map_get ks w = Some v -> verified sha256_text e v = true ->
  Memory.key (cfg_store config replicaStore) id = Ok k -> map_get k w = None ->
  byteLength v <= Memory.maxObjectBytes (cfg_store config replicaStore) ->
  exec (cfg_store config) false w (replicate sha256_text primaryStore sid replicaStore id e) =
    (map_set k v w, Ok (mkPromotionResult e promoted_created)) /\
  path_length w (replicate sha256_text primaryStore sid replicaStore id e) = 5%nat.
Proof.
  intros Hs Hv He Hk Hn Hlen. destruct (read_verified_path w primaryStore sid ks v e) as [H1 P1]; [done..|].
  destruct (read_verified_path (map_set k v w) replicaStore id k v e) as [H2 P2]; [done|by rewrite map_get_set_eq|done|].
  assert (answer (cfg_store config) false w (Put replicaStore id [v]) = (map_set k v w, Ok (mkPut (byteLength v) created))) as Hput.
  { simpl. rewrite (put_free _ _ _ k) by done. by destruct (Z.ltb_spec (Memory.maxObjectBytes (cfg_store config replicaStore)) (byteLength v)); [lia|]. }
  assert (exec (cfg_store config) false w (call (Put replicaStore id [v])) = (map_set k v w, Ok (mkPut (byteLength v) created)) /\
          path_length w (call (Put replicaStore id [v])) = 1%nat) as [H3 P3].
  { unfold call. cbn [exec path_length]. by rewrite Hput. }
  unfold replicate. rewrite exec_bind, path_bind, H1, P1. cbv beta iota. rewrite exec_bind, path_bind, H3, P3. cbv beta iota.
  rewrite exec_bind, path_bind, exec_try, H2. cbv beta iota.
  split; [done|]. by rewrite (path_try _ _ _ _ _ H2), P2.
Qed.

(** Two promotions of one bundle can leave it decision-critical with a replica that
    is not there. [promoteToDecisionCritical] chooses the replica's identifier on the
    shared record before it copies, and checks that the bundle is not critical yet only
    then: when a second call starts before the first has copied, its identifier replaces
    the first one's; the first call stores its replica, marks the bundle critical and
    answers with success, and if the second call's copy then fails, the record is
    critical and points to a replica that was never stored, while the stored one has no
    reference. *)
Theorem concurrent_promotion (s : State) (b x y : string) (a : nat) (r : PreparedInternal) (v : bytes)
    (ks kx ky : string) (outs : list bool) :
  Bundle.record s b = Ok (a, r) -> finalized r = true -> critical r = false ->
  Memory.key (cfg_store config primaryStore) (f_finalObjectId (fields r)) = Ok ks ->
  map_get ks (objects s) = Some v -> verified sha256_text (expected_object r) v = true ->
  Memory.key (cfg_store config replicaStore) x = Ok kx -> map_get kx (objects s) = None ->
  Memory.key (cfg_store config replicaStore) y = Ok ky -> map_get ky (objects s) = None -> kx <> ky ->
  byteLength v <= Memory.maxObjectBytes (cfg_store config replicaStore) ->
  outages s = repeat false 5 ++ true :: outs ->
  let cx := call_promote b x in
  let cy := call_promote b y in
  exists s' r', rtc (step config) (mkServiceSystem s [(cx, start config cx); (cy, start config cy)])
      (mkServiceSystem s' [(cx, Done (Ok (out_promoted (mkPromotionResult (expected_object r) promoted_created))));
                           (cy, Done (Throw (svc_storage (store_error store_unavailable))))]) /\
    Bundle.record s' b = Ok (a, r') /\ critical r' = true /\ replicaObjectId r' = Some y /\
    map_get ky (objects s') = None /\ map_get kx (objects s') = Some v.
Proof.
  intros Hrec Hfin Hcr Hks Hv Hver Hkx Hnx Hky Hny Hne Hlen Hout cx cy.
  apply record_Ok in Hrec as [Hb Ha].
  set (s1 := write a (set_replica x) s). set (s2 := write a (set_replica y) s1).
  assert (heap s1 !! a = Some (set_replica x r)) as Ha1 by (unfold s1, write; simpl; by rewrite list_lookup_alter_eq, Ha).
  assert (heap s2 !! a = Some (set_replica y (set_replica x r))) as Ha2
    by (unfold s2, write; cbn [heap set_heap]; by rewrite list_lookup_alter_eq, Ha1).
  set (copy id r := thread_bind (thread_bind (on_stores config (replicate sha256_text primaryStore (f_finalObjectId (fields r)) replicaStore id
         (expected_object r))) (fun result => atomic (fun s => (write a set_critical s, Ok tt)) (fun _ => Done (Ok result))))
       (fun p => Done (Ok (out_promoted p)))).
  destruct (replicate_alone (objects s2) (f_finalObjectId (fields r)) ks v x kx (expected_object r)) as [He Hp]; [done..|].
  set (s3 := write a set_critical (set_outages (true :: outs) (set_objects (map_set kx v (objects s2)) s2))).
  assert (run s2 (copy x r) = (s3, Ok (out_promoted (mkPromotionResult (expected_object r) promoted_created)))) as Hx.
  { unfold copy. rewrite !run_bind, (run_on_stores _ _ (true :: outs)) by by rewrite Hp. by rewrite He. }
  assert (run s3 (copy y (set_replica x r)) = (set_outages outs s3, Throw (svc_storage (store_error store_unavailable)))) as Hy.
  { unfold copy. cbn -[s3]. done. }
  exists (set_outages outs s3), (set_critical (set_replica y (set_replica x r))). split.
  - eapply rtc_l; [eapply (step_segment _ _ 0 cx _ s1 (copy x r)); [reflexivity|]|].
    { simpl. unfold promote_start. rewrite (proj2 (record_Ok s b a r)) by done. by rewrite Hfin, Hcr. }
    eapply rtc_l; [eapply (step_segment _ _ 1 cy _ s2 (copy y (set_replica x r))); [reflexivity|]|].
    { simpl. unfold promote_start. rewrite (proj2 (record_Ok s1 b a (set_replica x r))) by done. simpl. by rewrite Hfin, Hcr. }
    simpl. etrans; [eapply (run_task_steps config 0 cx (copy x r)); reflexivity|]. rewrite Hx. simpl.
    etrans; [eapply (run_task_steps config 1 cy (copy y (set_replica x r))); reflexivity|]. by rewrite Hy.
  - split; [|split; [done|split; [done|split]]].
    + apply record_Ok. split; [done|]. unfold s3, write. cbn [heap set_heap set_outages set_objects].
      change (heap s2) with (heap s2). by rewrite list_lookup_alter_eq, Ha2.
    + simpl. by rewrite map_get_set_ne.
    + simpl. by rewrite map_get_set_eq.
Qed.
End Promotion.

(** ** Preparing again *)

Section Preparation.
Context {HC : CanonicalJson} {HSha : Sha256} {HKeccak : Keccak256} {HJose : Jose} {HTyped : TypedData}.
Context (config : EvidenceBundleServiceConfig).

Definition bundle_of (input : PrepareEvidenceInput) : string := pb_bundle_id (ep_protected_bundle_ref (in_evidencePayload input)).

Definition fingerprint_of (input : PrepareEvidenceInput) : string := fingerprint input (domainPayload_of input).

Lemma on_stores_records {A} (p : prog (Store := StoreName) A) s s' r :
  run s (on_stores config p) = (s', r) -> s' = set_outages (outages s') (set_objects (objects s') s).
Proof.
  revert s. induction p as [a|e|X o k IH]; intros s; simpl; [intros [= <- _]; by destruct s..|].
  destruct (store_request config o s) as [s1 x] eqn:Hr. intros H. rewrite (IH _ _ H). clear H IH.
  unfold store_request in Hr. destruct (next_outage s) as [down s2] eqn:Hn. unfold next_outage in Hn.
  assert (s2 = set_outages (outages s2) s) as Hs2 by (destruct (outages s); injection Hn as _ <-; by destruct s).
  clear Hn. destruct down; [injection Hr as <- _|destruct (answer _ _ _ _) as [w y]; injection Hr as <- _]; by rewrite Hs2.
Qed.

(** A preparation that succeeds found the key, or made a record and put it under the key
    and under the bundle. *)
Lemma prepare_spec input fresh s s' out :
  run s (prepare config input fresh) = (s', Ok out) ->
  byteLength (in_idempotencyKey input) = 32 /\ evidenceClaimPayload (in_evidencePayload input) = true /\
  ((exists a r, deref (byIdempotency s) (heap s) (idempotencyHash input) = Some (a, r) /\
      f_idempotencyFingerprint (fields r) = fingerprint_of input /\ s' = s /\ out = publicPreparation r) \/
   (deref (byIdempotency s) (heap s) (idempotencyHash input) = None /\ exists r,
      f_idempotencyFingerprint (fields r) = fingerprint_of input /\ finalized r = false /\ f_bundleId (fields r) = bundle_of input /\
      out = publicPreparation r /\ heap s' = heap s ++ [r] /\ finalizedRecords s' = finalizedRecords s /\
      byBundle s' = map_set (bundle_of input) (length (heap s)) (byBundle s) /\
      byIdempotency s' = map_set (idempotencyHash input) (length (heap s)) (byIdempotency s))).
Proof.
  unfold prepare, reading, atomic. cbn [run]. unfold prepare_start.
  destruct (byteLength (in_idempotencyKey input) =? 32) eqn:Hl; [|done]. apply Z.eqb_eq in Hl. cbn [require mbind result_bind].
  destruct (evidenceClaimPayload (in_evidencePayload input)) eqn:Hp; [|done]. cbn [require mbind result_bind].
  intros H. split; [done|]. split; [done|].
  destruct (deref (byIdempotency s) (heap s) (idempotencyHash input)) as [[a r]|] eqn:Hd.
  { destruct (String.eqb_spec (f_idempotencyFingerprint (fields r)) (fingerprint input (domainPayload_of input))) as [Hf|]; [|done].
    simpl in H. injection H as <- <-. left. by exists a, r. }
  right. split; [done|]. cbn [run] in H.
  destruct (crypto (protectContent _ _)) as [p|]; [|done]. cbn [run] in H. destruct (crypto (wrapDek _ _ _ _ _)) as [w|]; [|done].
  rewrite run_bind in H. destruct (run s (on_stores config _)) as [s1 [x|e]] eqn:Hs; [|done]. apply on_stores_records in Hs.
  cbn [run] in H. destruct (prepare_finish input fresh p w s1) as [s2 [y|e]] eqn:Hf; [|done]. simpl in H. injection H as <- <-.
  unfold prepare_finish, on_lifecycle in Hf. destruct (stageControllerAuthorization _ _) as [k|]; [|done].
  destruct (rsaPublicKeySpkiSha256 _) as [d|]; [|done]. injection Hf as <- <-.
  exists (prepared_record input fresh p w d). rewrite Hs. simpl. done.
Qed.

Lemma prepare_known input fresh s :
  byteLength (in_idempotencyKey input) = 32 -> evidenceClaimPayload (in_evidencePayload input) = true ->
  forall a r, deref (byIdempotency s) (heap s) (idempotencyHash input) = Some (a, r) ->
  run s (prepare config input fresh) =
    (s, if String.eqb (f_idempotencyFingerprint (fields r)) (fingerprint_of input) then Ok (publicPreparation r) else Throw svc_conflict).
Proof.
  intros Hl Hp a r Hd. unfold prepare, reading, atomic. cbn [run]. unfold prepare_start.
  apply Z.eqb_eq in Hl. rewrite Hl, Hp. cbn [require mbind result_bind]. rewrite Hd. unfold fingerprint_of.
  by destruct (String.eqb _ _).
Qed.

Lemma deref_set {X} (m : list (string * nat)) (h : list X) k x :
  deref (map_set k (length h) m) (h ++ [x]) k = Some (length h, x).
Proof. unfold deref. rewrite map_get_set_eq. by rewrite list_lookup_middle. Qed.

(** [prepare] is idempotent in its key: after a call that succeeded, the same input
    under the same key, with other random values, answers the same and changes nothing,
    and any other valid input under that key is refused as a conflict, changing nothing. *)
Theorem prepare_idempotent (input : PrepareEvidenceInput) (fresh : Fresh) (s s' : State) (out : PreparedEvidence) :
  run s (prepare config input fresh) = (s', Ok out) ->
  (forall fresh', run s' (prepare config input fresh') = (s', Ok out)) /\
  (forall other fresh', in_idempotencyKey other = in_idempotencyKey input ->
     evidenceClaimPayload (in_evidencePayload other) = true -> fingerprint_of other <> fingerprint_of input ->
     run s' (prepare config other fresh') = (s', Throw svc_conflict)).
Proof.
  intros H. apply prepare_spec in H as (Hl & Hp & H).
  assert (exists a r, deref (byIdempotency s') (heap s') (idempotencyHash input) = Some (a, r) /\
            f_idempotencyFingerprint (fields r) = fingerprint_of input /\ out = publicPreparation r) as (a & r & Hd & Hf & ->).
  { destruct H as [(a & r & Hd & Hf & -> & ->)|(_ & r & Hf & _ & _ & -> & Hh & _ & _ & Hi)]; [by exists a, r|].
    exists (length (heap s)), r. rewrite Hh, Hi. split; [apply deref_set|done]. }
  split.
  - intros fresh'. rewrite (prepare_known _ _ _ Hl Hp a r Hd), Hf. by rewrite String.eqb_refl.
  - intros other fresh' Hk Hpo Hne.
    assert (idempotencyHash other = idempotencyHash input) as Hi by (unfold idempotencyHash; by rewrite Hk).
    rewrite (prepare_known other fresh' s') with (a := a) (r := r) by (rewrite ?Hk, ?Hi; done).
    by destruct (String.eqb_spec (f_idempotencyFingerprint (fields r)) (fingerprint_of other)); [congruence|].
Qed.

(** A second preparation of a bundle, under a key not used before, takes the bundle
    over, finalized or not: the identifier then leads to the new, unfinalized record,
    while the finalized record of the old one is still reported; promotion, rotation and
    grants on the finalized bundle are refused as an invalid state from then on. *)
Theorem prepare_replaces (input : PrepareEvidenceInput) (fresh : Fresh) (s s' : State) (out : PreparedEvidence) :
  deref (byIdempotency s) (heap s) (idempotencyHash input) = None ->
  run s (prepare config input fresh) = (s', Ok out) ->
  (exists r, Bundle.record s' (bundle_of input) = Ok (length (heap s), r) /\ finalized r = false) /\
  finalizedRecord s' (bundle_of input) = finalizedRecord s (bundle_of input) /\
  (forall id, run s' (promoteToDecisionCritical config (bundle_of input) id) = (s', Throw svc_invalid_state)) /\
  (forall g, gi_bundleId g = bundle_of input -> grant_checks config g s' = Throw svc_invalid_state) /\
  (forall g, ro_bundleId g = bundle_of input -> rotate_checks config g s' = Throw svc_invalid_state).
Proof.
  intros Hn H. apply prepare_spec in H as (_ & _ & [(a & r & Hd & _)|(_ & r & _ & Hf & _ & _ & Hh & Hfr & Hb & _)]); [congruence|].
  assert (Bundle.record s' (bundle_of input) = Ok (length (heap s), r)) as Hr.
  { unfold Bundle.record. rewrite Hh, Hb. by rewrite deref_set. }
  split; [by exists r|]. split; [unfold finalizedRecord; by rewrite Hfr|]. split; [|split].
  - intros id. unfold promoteToDecisionCritical, atomic. cbn [run]. unfold promote_start. by rewrite Hr, Hf.
  - intros g Hg. unfold grant_checks. rewrite Hg, Hr. cbn [mbind result_bind]. by rewrite Hf.
  - intros g Hg. unfold rotate_checks. rewrite Hg, Hr. cbn [mbind result_bind]. by rewrite Hf.
Qed.
End Preparation.

(** ** Witnesses *)

Import Json.Sample Signatures.Sample Protection.Sample.

Lemma bundle_invariant_witness :
  reachable sample_config sample_system /\
  NoDup (authorizations (repository (shared sample_system))).*1 /\
  (forall a r, heap (shared sample_system) !! a = Some r -> finalized r = true ->
     stored sample_config primaryStore (f_finalObjectId (fields r)) (expected_object r) (shared sample_system)).
Proof.
  pose proof sample_reachable as Hr. split; [exact Hr|].
  destruct (bundle_invariant sample_config sample_system Hr) as (_ & H & _ & Hn & _).
  split; [exact Hn|]. intros a r Ha Hf. by apply (H a).
Defined.

Lemma retrieval_authentic_witness :
  exists input out, tasks sample_system !! 3%nat = Some (call_retrieve input, Done (Ok out)) /\
    exists content payload source, out = out_content content payload source /\
      exists p fresh, prepared_in sample_system p fresh /\
        pb_bundle_id (ep_protected_bundle_ref (in_evidencePayload p)) = re_bundleId input /\
        exists salt, length salt = 32%nat /\
          (content = in_content p \/
           collides (preimage CONTENT_COMMITMENT_DOMAIN salt content)
             (preimage CONTENT_COMMITMENT_DOMAIN (rnd_contentSalt (fresh_randomness fresh)) (in_content p))).
Proof.
  destruct sample_retrieved as (input & payload & source & Ht). exists input, (out_content [Byte.x01; Byte.x02] payload source).
  split; [exact Ht|].
  destruct (retrieval_authentic sample_config sample_system 3 input _ sample_reachable Ht)
    as (c & p & src & He & q & fresh & Hq & Hb & Hc & _).
  exists c, p, src. split; [exact He|]. exists q, fresh. split; [exact Hq|]. split; [exact Hb|exact Hc].
Defined.

Lemma authorization_single_use_witness :
  exists c d out out' oc od, tasks sample_system !! 1%nat = Some (c, Done (Ok out)) /\
    tasks sample_system !! 3%nat = Some (d, Done (Ok out')) /\ presents c = Some oc /\ presents d = Some od /\
    (cl_authorizationId (so_claims oc), cl_authorizationVersion (so_claims oc)) <>
      (cl_authorizationId (so_claims od), cl_authorizationVersion (so_claims od)).
Proof.
  destruct sample_finalized as (fin & id & out & Hf). destruct sample_retrieved as (ret & payload & source & Ht).
  eexists (call_finalize fin id), (call_retrieve ret), out, _, _, _.
  split; [exact Hf|]. split; [exact Ht|]. split; [reflexivity|]. split; [reflexivity|].
  apply (authorization_single_use sample_config sample_system 1 3 (call_finalize fin id) (call_retrieve ret) out _ _ _
           sample_reachable Hf Ht); [done|reflexivity|reflexivity].
Defined.

Definition sample_waiting : System := mkServiceSystem (s0 []) [(call_promote "b" "i", start sample_config (call_promote "b" "i"))].

Lemma calls_end_witness :
  exists sys', executes sample_config sample_waiting [0%nat] sys' /\ (turns_of 0 [0%nat] <= 7)%nat /\
    exists t, tasks sys' !! 0%nat = Some (call_promote "b" "i", t).
Proof.
  assert (exists sys', executes sample_config sample_waiting [0%nat] sys') as [sys' H].
  { eexists. eapply executes_segment; [reflexivity|constructor]. }
  exists sys'. split; [exact H|].
  destruct (calls_end sample_config (call_promote "b" "i") sample_waiting sys' [0%nat] 0) as (Hle & t & Ht & _);
    [reflexivity|exact H|]. split; [exact Hle|]. by exists t.
Defined.

(** A state with one finalized bundle, its object in the primary store. *)
Definition sample_sealed_bytes : bytes := [Byte.x01].

Definition sample_bundle : PreparedInternal :=
  set_finalized_flag (prepared_record (sample_prepare "supplementary") sample_fresh
    (mkProtected JNull (digestOf []) (digestOf sample_sealed_bytes) [] (digestOf []) sample_sealed_bytes [])
    (mkWrapped (digestOf []) []) (digestOf [])).

Definition sample_finalized_state (outs : list bool) : State :=
  set_objects [(("p:" +:+ sample_object Byte.x12)%string, sample_sealed_bytes)]
    (new_record "earlier" (sample_urn "bundle") sample_bundle (s0 outs)).

Lemma concurrent_promotion_witness :
  exists s' r', rtc (step sample_config)
      (mkServiceSystem (sample_finalized_state (repeat false 5 ++ [true]))
         [(call_promote (sample_urn "bundle") (sample_object Byte.x13), start sample_config (call_promote (sample_urn "bundle") (sample_object Byte.x13)));
          (call_promote (sample_urn "bundle") (sample_object Byte.x14), start sample_config (call_promote (sample_urn "bundle") (sample_object Byte.x14)))])
      s' /\
    Bundle.record (shared s') (sample_urn "bundle") = Ok (0%nat, r') /\ critical r' = true /\
    replicaObjectId r' = Some (sample_object Byte.x14) /\
    map_get ("r:" +:+ sample_object Byte.x14)%string (objects (shared s')) = None.
Proof.
  destruct (concurrent_promotion sample_config (sample_finalized_state (repeat false 5 ++ [true])) (sample_urn "bundle")
              (sample_object Byte.x13) (sample_object Byte.x14) 0 sample_bundle sample_sealed_bytes
              ("p:" +:+ sample_object Byte.x12) ("r:" +:+ sample_object Byte.x13) ("r:" +:+ sample_object Byte.x14) [])
    as (s' & r' & Hs & Hr & Hc & Hid & Hn & _);
    [vm_compute; reflexivity..|vm_compute; discriminate|vm_compute; discriminate|reflexivity|].
  eexists _, r'. split; [exact Hs|]. split; [exact Hr|]. split; [exact Hc|]. split; [exact Hid|exact Hn].
Defined.

(** The finalized bundle is prepared again. *)
Lemma sample_prepared_again : exists s' out,
  run (sample_finalized_state []) (prepare sample_config (sample_prepare "supplementary") sample_fresh) = (s', Ok out).
Proof.
  assert (is_ok (run (sample_finalized_state []) (prepare sample_config (sample_prepare "supplementary") sample_fresh)).2 = true)
    as Hok by (vm_compute; reflexivity).
  destruct (run (sample_finalized_state []) (prepare sample_config (sample_prepare "supplementary") sample_fresh)) as [s' [out|e]];
    [by exists s', out|discriminate Hok].
Qed.

Lemma prepare_idempotent_witness :
  exists s' out, run (sample_finalized_state []) (prepare sample_config (sample_prepare "supplementary") sample_fresh) = (s', Ok out) /\
    forall fresh', run s' (prepare sample_config (sample_prepare "supplementary") fresh') = (s', Ok out).
Proof.
  destruct sample_prepared_again as (s' & out & H). exists s', out. split; [exact H|].
  apply (prepare_idempotent sample_config _ _ _ _ _ H).
Defined.

Lemma prepare_replaces_witness :
  exists s' out, Bundle.record (sample_finalized_state []) (sample_urn "bundle") = Ok (0%nat, sample_bundle) /\
    run (sample_finalized_state []) (prepare sample_config (sample_prepare "supplementary") sample_fresh) = (s', Ok out) /\
    exists r, Bundle.record s' (sample_urn "bundle") = Ok (1%nat, r) /\ finalized r = false.
Proof.
  destruct sample_prepared_again as (s' & out & H). exists s', out. split; [vm_compute; reflexivity|]. split; [exact H|].
  destruct (prepare_replaces sample_config (sample_prepare "supplementary") sample_fresh (sample_finalized_state []) s' out)
    as (Hr & _); [vm_compute; reflexivity|exact H|exact Hr].
Defined.
