(* ===== verification/EcmaRegExp.v ===== *)
(** * ECMAScript regular expressions

    The assistant's text checks search, split and rewrite prose with regular
    expressions: captures, lazy and bounded quantifiers, word boundaries, look-ahead and
    look-behind, always with the [u] flag. This file has their syntax tree, the
    backtracking matcher of the language ([run]), its meaning as the list of all matches
    in order of preference ([paths], [run_first]), a parser for the concrete syntax
    ([re]), and the string methods on them.

    Strings are lists of code units below 256; a character beyond, written as an escape
    in a pattern, matches nothing. *)

From S2P Require Import Prelude Digits.

(** ** Sets of characters *)

(** A set as the tree of its decisions on the bits of a character, the highest first. *)
Inductive cset := CLeaf (b : bool) | CNode (f t : cset).

Definition cnode (f t : cset) : cset :=
  match f, t with
  | CLeaf a, CLeaf b => if Bool.eqb a b then CLeaf a else CNode f t
  | _, _ => CNode f t
  end.

Fixpoint cset_tree (n : nat) (p : list bool -> bool) : cset :=
  match n with
  | O => CLeaf (p [])
  | S n => cnode (cset_tree n (fun l => p (false :: l))) (cset_tree n (fun l => p (true :: l)))
  end.

Definition char_bits (c : ascii) : list bool :=
  match c with Ascii b0 b1 b2 b3 b4 b5 b6 b7 => [b7; b6; b5; b4; b3; b2; b1; b0] end.

Definition bits_char (l : list bool) : ascii :=
  match l with
  | [b7; b6; b5; b4; b3; b2; b1; b0] => Ascii b0 b1 b2 b3 b4 b5 b6 b7
  | _ => "000"%char
  end.

Fixpoint cset_walk (s : cset) (l : list bool) : bool :=
  match s, l with
  | CLeaf b, _ => b
  | CNode f t, b :: l => cset_walk (if b then t else f) l
  | CNode _ _, [] => false
  end.

Definition cset_of (p : ascii -> bool) : cset := cset_tree 8 (fun l => p (bits_char l)).
Definition cset_mem (s : cset) (c : ascii) : bool := cset_walk s (char_bits c).

Lemma cset_walk_cnode f t b l : cset_walk (cnode f t) (b :: l) = cset_walk (if b then t else f) l.
Proof.
  unfold cnode. destruct f as [x|], t as [y|]; try done.
  destruct (Bool.eqb x y) eqn:E; [|done]. apply Bool.eqb_prop in E as ->. by destruct b.
Qed.

Lemma cset_tree_walk n p l : length l = n -> cset_walk (cset_tree n p) l = p l.
Proof.
  revert p l. induction n as [|n IH]; intros p l Hl; destruct l as [|b l]; try done.
  injection Hl as Hl. cbn [cset_tree]. rewrite cset_walk_cnode.
  destruct b; by rewrite IH.
Qed.

Lemma cset_mem_of p c : cset_mem (cset_of p) c = p c.
Proof. unfold cset_mem, cset_of. rewrite cset_tree_walk; by destruct c. Qed.

(** ** Syntax *)

Inductive node :=
| NEmpty
| NChar (s : cset)
| NSeq (a b : node)
| NAlt (a b : node)
| NRepeat (lo : nat) (hi : option nat) (greedy : bool) (first count : nat) (a : node)
| NGroup (index : nat) (a : node)
| NStart
| NEnd
| NBoundary
| NLook (ahead negative : bool) (a : node).

(** A compiled pattern: its tree, the number of its groups, whether it is global. *)
Record regexp := mkRegexp { re_node : node; re_groups : nat; re_global : bool }.

(** ** Matching *)

(** A position in the input: what precedes it in reverse order, what follows, its index,
    and the text of each group matched so far. *)
Record cursor := mkCursor {
  behind : list ascii;
  ahead : list ascii;
  at_ : Z;
  captures : list (option (list ascii))
}.

Definition restore (x : cursor) (caps : list (option (list ascii))) : cursor :=
  mkCursor (behind x) (ahead x) (at_ x) caps.

Definition step (forward : bool) (s : cset) (x : cursor) : option cursor :=
  if forward then
    match ahead x with
    | c :: l => if cset_mem s c then Some (mkCursor (c :: behind x) l (at_ x + 1) (captures x)) else None
    | [] => None
    end
  else
    match behind x with
    | c :: l => if cset_mem s c then Some (mkCursor l (c :: ahead x) (at_ x - 1) (captures x)) else None
    | [] => None
    end.

(** What a group matched between two positions. *)
Definition between (x y : cursor) : list ascii :=
  if at_ x <=? at_ y then take (Z.to_nat (at_ y - at_ x)) (ahead x)
  else take (Z.to_nat (at_ x - at_ y)) (ahead y).

Definition capture (index : nat) (x y : cursor) : cursor :=
  restore y (<[index := Some (between x y)]> (captures y)).

(** The groups inside a repetition are forgotten when it starts over. *)
Definition clear_groups (first count : nat) (x : cursor) : cursor :=
  match count with
  | O => x
  | _ => restore x (imap (fun i g => if (first <=? i)%nat && (i <? first + count)%nat then None else g) (captures x))
  end.

Definition is_word (c : ascii) : bool :=
  let n := nat_of_ascii c in
  ((48 <=? n) && (n <=? 57) || (65 <=? n) && (n <=? 90) || (n =? 95) || (97 <=? n) && (n <=? 122))%nat.

Definition word_set : cset := Eval vm_compute in cset_of is_word.

Definition word_at (l : list ascii) : bool :=
  match l with c :: _ => cset_mem word_set c | [] => false end.

Definition boundary (x : cursor) : bool := xorb (word_at (behind x)) (word_at (ahead x)).

Definition remaining (forward : bool) (x : cursor) : nat :=
  length (if forward then ahead x else behind x).

(** The iterations of [a{lo,hi}] from [x]: an iteration beyond the required ones that
    matches nothing is refused. *)
Section Repeat.
Context (body : cursor -> (cursor -> option cursor) -> option cursor).
Context (greedy : bool) (first count : nat).

Fixpoint run_repeat (fuel lo : nat) (hi : option nat) (x : cursor) (k : cursor -> option cursor) :
    option cursor :=
  match fuel, hi with
  | _, Some O => k x
  | O, _ => None
  | S fuel, _ =>
      let more _ :=
        body (clear_groups first count x) (fun y =>
          if (lo =? 0)%nat && (at_ y =? at_ x) then None
          else run_repeat fuel (pred lo) (pred <$> hi) y k) in
      if (lo =? 0)%nat then
        if greedy then match more tt with Some z => Some z | None => k x end
        else match k x with Some z => Some z | None => more tt end
      else more tt
  end.
End Repeat.

Fixpoint run (n : node) (forward : bool) (x : cursor) (k : cursor -> option cursor) : option cursor :=
  match n with
  | NEmpty => k x
  | NChar s => match step forward s x with Some y => k y | None => None end
  | NSeq a b =>
      if forward then run a forward x (fun y => run b forward y k)
      else run b forward x (fun y => run a forward y k)
  | NAlt a b => match run a forward x k with Some z => Some z | None => run b forward x k end
  | NRepeat lo hi greedy first count a =>
      run_repeat (run a forward) greedy first count (S (lo + remaining forward x)) lo hi x k
  | NGroup i a => run a forward x (fun y => k (capture i x y))
  | NStart => match behind x with [] => k x | _ => None end
  | NEnd => match ahead x with [] => k x | _ => None end
  | NBoundary => if boundary x then k x else None
  | NLook direction negative a =>
      match run a direction x Some with
      | Some y => if negative then None else k (restore x (captures y))
      | None => if negative then k x else None
      end
  end.

(** ** Meaning: every way to match, in order of preference *)

Section Paths.
Context (body : cursor -> list cursor) (greedy : bool) (first count : nat).

Fixpoint paths_repeat (fuel lo : nat) (hi : option nat) (x : cursor) : list cursor :=
  match fuel, hi with
  | _, Some O => [x]
  | O, _ => []
  | S fuel, _ =>
      let more :=
        body (clear_groups first count x) ≫= (fun y =>
          if (lo =? 0)%nat && (at_ y =? at_ x) then []
          else paths_repeat fuel (pred lo) (pred <$> hi) y) in
      if (lo =? 0)%nat then if greedy then more ++ [x] else x :: more else more
  end.
End Paths.

Fixpoint paths (n : node) (forward : bool) (x : cursor) : list cursor :=
  match n with
  | NEmpty => [x]
  | NChar s => option_list (step forward s x)
  | NSeq a b =>
      if forward then paths a forward x ≫= paths b forward else paths b forward x ≫= paths a forward
  | NAlt a b => paths a forward x ++ paths b forward x
  | NRepeat lo hi greedy first count a =>
      paths_repeat (paths a forward) greedy first count (S (lo + remaining forward x)) lo hi x
  | NGroup i a => capture i x <$> paths a forward x
  | NStart => match behind x with [] => [x] | _ => [] end
  | NEnd => match ahead x with [] => [x] | _ => [] end
  | NBoundary => if boundary x then [x] else []
  | NLook direction negative a =>
      match paths a direction x with
      | y :: _ => if negative then [] else [restore x (captures y)]
      | [] => if negative then [x] else []
      end
  end.

(** The first element [k] accepts. *)
Fixpoint first_some {A B} (k : A -> option B) (l : list A) : option B :=
  match l with
  | [] => None
  | a :: l => match k a with Some b => Some b | None => first_some k l end
  end.

Lemma first_some_app {A B} (k : A -> option B) l l' :
  first_some k (l ++ l') = match first_some k l with Some b => Some b | None => first_some k l' end.
Proof. induction l as [|a l IH]; simpl; [done|]. destruct (k a); [done|apply IH]. Qed.

Lemma first_some_bind {A B C} (k : B -> option C) (f : A -> list B) l :
  first_some k (l ≫= f) = first_some (fun a => first_some k (f a)) l.
Proof. induction l as [|a l IH]; [done|]. rewrite bind_cons, first_some_app. simpl. by rewrite IH. Qed.

Lemma first_some_fmap {A B C} (k : B -> option C) (f : A -> B) l :
  first_some k (f <$> l) = first_some (fun a => k (f a)) l.
Proof. induction l as [|a l IH]; csimpl; [done|]. by rewrite IH. Qed.

Lemma first_some_ext {A B} (k k' : A -> option B) l :
  (forall a, k a = k' a) -> first_some k l = first_some k' l.
Proof. intros H. induction l as [|a l IH]; simpl; [done|]. by rewrite H, IH. Qed.

Lemma run_repeat_first body pbody greedy first count :
  (forall x k, body x k = first_some k (pbody x)) ->
  forall fuel lo hi x k,
    run_repeat body greedy first count fuel lo hi x k =
    first_some k (paths_repeat pbody greedy first count fuel lo hi x).
Proof.
  intros Hb fuel. induction fuel as [|fuel IH]; intros lo hi x k.
  { destruct hi as [[|h]|]; simpl; try done. by destruct (k x). }
  assert (forall z, (if (lo =? 0)%nat && (at_ z =? at_ x) then None
                     else run_repeat body greedy first count fuel (pred lo) (pred <$> hi) z k) =
                    first_some k (if (lo =? 0)%nat && (at_ z =? at_ x) then []
                                  else paths_repeat pbody greedy first count fuel (pred lo) (pred <$> hi) z)) as Hz.
  { intros z. destruct (_ && _); [done|apply IH]. }
  destruct hi as [[|h]|]; cbn [run_repeat paths_repeat]; [cbn; by destruct (k x)| |];
    (destruct (lo =? 0)%nat; [destruct greedy|]);
    rewrite ?first_some_app, ?Hb; cbn [first_some]; rewrite ?first_some_bind;
    rewrite (first_some_ext _ _ _ Hz); try done;
    destruct (first_some _ _); try done; by destruct (k x).
Qed.

(** The matcher finds the most preferred match its continuation accepts. *)
Theorem run_first n forward x k : run n forward x k = first_some k (paths n forward x).
Proof.
  revert forward x k.
  induction n as [|s|a IHa b IHb|a IHa b IHb|lo hi greedy first count a IHa|i a IHa| | | |d neg a IHa];
    intros forward x k; cbn [run paths].
  - simpl. by destruct (k x).
  - destruct (step forward s x) as [y|]; simpl; [by destruct (k y)|done].
  - destruct forward; rewrite first_some_bind, ?IHa, ?IHb; by apply first_some_ext.
  - by rewrite first_some_app, IHa, IHb.
  - by apply run_repeat_first.
  - by rewrite first_some_fmap, IHa.
  - destruct (behind x); simpl; [by destruct (k x)|done].
  - destruct (ahead x); simpl; [by destruct (k x)|done].
  - destruct (boundary x); simpl; [by destruct (k x)|done].
  - rewrite IHa. destruct (paths a d x) as [|y l]; simpl.
    + destruct neg; simpl; [by destruct (k x)|done].
    + destruct neg; simpl; [done|]. by destruct (k _).
Qed.

(** The distance between two positions, in the direction of the match. *)
Definition toward (forward : bool) (x y : cursor) : Prop :=
  (remaining forward y <= remaining forward x)%nat /\
  at_ y = (if forward then at_ x + Z.of_nat (remaining forward x - remaining forward y)
           else at_ x - Z.of_nat (remaining forward x - remaining forward y)).

Lemma toward_refl forward x : toward forward x x.
Proof. split; [lia|]. destruct forward; lia. Qed.

Lemma toward_trans forward x y z : toward forward x y -> toward forward y z -> toward forward x z.
Proof. unfold toward. destruct forward; lia. Qed.

Lemma toward_restore forward x y caps : toward forward x y -> toward forward x (restore y caps).
Proof. done. Qed.

Lemma toward_clear forward first count x y :
  toward forward (clear_groups first count x) y -> toward forward x y.
Proof. by destruct count. Qed.

Lemma toward_step forward s x y : step forward s x = Some y -> toward forward x y.
Proof.
  unfold step, toward. destruct forward.
  - destruct (ahead x) as [|c l] eqn:E; [done|]. destruct (cset_mem s c); [|done]. intros [= <-].
    unfold remaining. rewrite E. simpl. lia.
  - destruct (behind x) as [|c l] eqn:E; [done|]. destruct (cset_mem s c); [|done]. intros [= <-].
    unfold remaining. rewrite E. simpl. lia.
Qed.

Lemma paths_repeat_toward pbody greedy first count forward :
  (forall x y, y ∈ pbody x -> toward forward x y) ->
  forall fuel lo hi x z,
    z ∈ paths_repeat pbody greedy first count fuel lo hi x -> toward forward x z.
Proof.
  intros Hb fuel. induction fuel as [|fuel IH]; intros lo hi x z Hz.
  { destruct hi as [[|h]|]; cbn in Hz; rewrite ?list_elem_of_singleton in Hz;
      try (by apply not_elem_of_nil in Hz). subst. apply toward_refl. }
  assert (z ∈ pbody (clear_groups first count x) ≫= (fun y =>
      if (lo =? 0)%nat && (at_ y =? at_ x) then []
      else paths_repeat pbody greedy first count fuel (pred lo) (pred <$> hi) y) -> toward forward x z) as Hmore.
  { intros (y & Hy & Hin)%list_elem_of_bind. destruct (_ && _); [by apply not_elem_of_nil in Hy|].
    eapply toward_trans; [eapply toward_clear, Hb, Hin|by eapply IH]. }
  destruct hi as [[|h]|]; cbn [paths_repeat] in Hz.
  - apply list_elem_of_singleton in Hz as ->. apply toward_refl.
  - destruct (lo =? 0)%nat; [destruct greedy|]; [| |auto].
    + apply elem_of_app in Hz as [| ->%list_elem_of_singleton]; [auto|apply toward_refl].
    + apply elem_of_cons in Hz as [-> |]; [apply toward_refl|auto].
  - destruct (lo =? 0)%nat; [destruct greedy|]; [| |auto].
    + apply elem_of_app in Hz as [| ->%list_elem_of_singleton]; [auto|apply toward_refl].
    + apply elem_of_cons in Hz as [-> |]; [apply toward_refl|auto].
Qed.

(** A match only moves in its direction. *)
Lemma paths_toward n forward x y : y ∈ paths n forward x -> toward forward x y.
Proof.
  revert forward x y.
  induction n as [|s|a IHa b IHb|a IHa b IHb|lo hi greedy first count a IHa|i a IHa| | | |d neg a IHa];
    intros forward x y; cbn [paths].
  - intros ->%list_elem_of_singleton. apply toward_refl.
  - destruct (step forward s x) as [z|] eqn:E; simpl; [|by intros ?%not_elem_of_nil].
    intros ->%list_elem_of_singleton. by eapply toward_step.
  - destruct forward; intros (z & Hz & Hy)%list_elem_of_bind; eapply toward_trans; eauto.
  - intros [?|?]%elem_of_app; eauto.
  - apply paths_repeat_toward. auto.
  - intros (z & -> & Hz)%list_elem_of_fmap. by apply toward_restore, IHa.
  - destruct (behind x); [|by intros ?%not_elem_of_nil].
    intros ->%list_elem_of_singleton. apply toward_refl.
  - destruct (ahead x); [|by intros ?%not_elem_of_nil].
    intros ->%list_elem_of_singleton. apply toward_refl.
  - destruct (boundary x); [|by intros ?%not_elem_of_nil].
    intros ->%list_elem_of_singleton. apply toward_refl.
  - destruct (paths a d x), neg; try by intros ?%not_elem_of_nil.
    + intros ->%list_elem_of_singleton. apply toward_refl.
    + intros ->%list_elem_of_singleton. apply toward_restore, toward_refl.
Qed.

Lemma bind_ext_in {A B} (f g : A -> list B) l : (forall a, a ∈ l -> f a = g a) -> l ≫= f = l ≫= g.
Proof.
  intros H. induction l as [|a l IH]; [done|]. rewrite !bind_cons, (H a) by constructor.
  f_equal. apply IH. intros b Hb. apply H. by constructor.
Qed.

(** The iterations [run] allows are enough: more fuel finds the same matches. *)
Theorem repeat_enough pbody greedy first count forward :
  (forall x y, y ∈ pbody x -> toward forward x y) ->
  forall fuel fuel' lo hi x,
    (lo + remaining forward x < fuel)%nat -> (lo + remaining forward x < fuel')%nat ->
    paths_repeat pbody greedy first count fuel lo hi x =
    paths_repeat pbody greedy first count fuel' lo hi x.
Proof.
  intros Hb fuel. induction fuel as [|fuel IH]; intros fuel' lo hi x Hf Hf'; [lia|].
  destruct fuel' as [|fuel']; [lia|].
  assert (forall y, y ∈ pbody (clear_groups first count x) ->
      (if (lo =? 0)%nat && (at_ y =? at_ x) then []
       else paths_repeat pbody greedy first count fuel (pred lo) (pred <$> hi) y) =
      (if (lo =? 0)%nat && (at_ y =? at_ x) then []
       else paths_repeat pbody greedy first count fuel' (pred lo) (pred <$> hi) y)) as Hmore.
  { intros y Hy%Hb%toward_clear. destruct (_ && _) eqn:E; [done|].
    destruct Hy as [Hle Hat].
    assert (pred lo + remaining forward y < lo + remaining forward x)%nat as Hlt.
    { destruct lo as [|lo]; [|simpl; lia]. simpl in *. rewrite Z.eqb_neq in E.
      destruct forward; lia. }
    apply IH; lia. }
  cbn [paths_repeat]. by rewrite (bind_ext_in _ _ _ Hmore).
Qed.

(** ** Concrete syntax *)

(** The other case of a letter, among characters below 256. *)
Definition other_case (c : ascii) : ascii :=
  let n := nat_of_ascii c in
  (if ((65 <=? n) && (n <=? 90) || (192 <=? n) && (n <=? 222) && negb (n =? 215))%nat then ascii_of_nat (n + 32)
   else if ((97 <=? n) && (n <=? 122) || (224 <=? n) && (n <=? 254) && negb (n =? 247))%nat then ascii_of_nat (n - 32)
   else c).

(** [\p{L}] and [\p{N}] *)
Definition is_letter (c : ascii) : bool :=
  let n := nat_of_ascii c in
  ((65 <=? n) && (n <=? 90) || (97 <=? n) && (n <=? 122) || (n =? 170) || (n =? 181) || (n =? 186)
   || (192 <=? n) && negb (n =? 215) && negb (n =? 247))%nat.

Definition is_number_char (c : ascii) : bool :=
  let n := nat_of_ascii c in
  ((48 <=? n) && (n <=? 57) || (n =? 178) || (n =? 179) || (n =? 185) || (188 <=? n) && (n <=? 190))%nat.

Definition hex_digit_value (c : ascii) : option nat :=
  let n := nat_of_ascii c in
  if ((48 <=? n) && (n <=? 57))%nat then Some (n - 48)%nat
  else if ((65 <=? n) && (n <=? 70))%nat then Some (n - 55)%nat
  else if ((97 <=? n) && (n <=? 102))%nat then Some (n - 87)%nat
  else None.

Definition char_in (l : string) (c : ascii) : bool :=
  existsb (Ascii.eqb c) (list_ascii_of_string l).

Definition one (c d : ascii) : bool := Ascii.eqb c d.

(** After a backslash: what the escape stands for. [\u] of a character from 256 on is the
    empty set. *)
Definition parse_escape (l : list ascii) : option ((ascii -> bool) * list ascii) :=
  match l with
  | "s"%char :: l => Some (is_white_space, l)
  | "n"%char :: l => Some (one "010"%char, l)
  | "u"%char :: a :: b :: c :: d :: l =>
      a ← hex_digit_value a; b ← hex_digit_value b; c ← hex_digit_value c; d ← hex_digit_value d;
      Some (if ((a =? 0) && (b =? 0))%nat then one (ascii_of_nat (16 * c + d)) else fun _ => false, l)
  | "p"%char :: "{"%char :: "L"%char :: "}"%char :: l => Some (is_letter, l)
  | "p"%char :: "{"%char :: "N"%char :: "}"%char :: l => Some (is_number_char, l)
  | c :: l => if char_in "^$\.*+?()[]{}|/" c then Some (one c, l) else None
  | [] => None
  end.

(** One member of a class: a character, kept to be the lower end of a range, or a set. *)
Definition parse_class_atom (l : list ascii) : option (option ascii * (ascii -> bool) * list ascii) :=
  match l with
  | "\"%char :: "-"%char :: l => Some (Some "-"%char, one "-"%char, l)
  | "\"%char :: l => '(p, l) ← parse_escape l; Some (None, p, l)
  | c :: l => Some (Some c, one c, l)
  | [] => None
  end.

Definition in_interval (a b c : ascii) : bool :=
  (nat_of_ascii a <=? nat_of_ascii c)%nat && (nat_of_ascii c <=? nat_of_ascii b)%nat.

(** The members of a class up to its closing bracket. *)
Fixpoint parse_class (fuel : nat) (l : list ascii) (acc : ascii -> bool) : option ((ascii -> bool) * list ascii) :=
  match fuel with
  | O => None
  | S fuel =>
      match l with
      | "]"%char :: l => Some (acc, l)
      | _ =>
          '(low, p, l) ← parse_class_atom l;
          match low, l with
          | Some a, "-"%char :: b :: l' =>
              if Ascii.eqb b "]"%char then parse_class fuel l (fun c => acc c || p c)
              else
                '(high, _, l'') ← parse_class_atom (b :: l');
                b ← high;
                parse_class fuel l'' (fun c => acc c || in_interval a b c)
          | _, _ => parse_class fuel l (fun c => acc c || p c)
          end
      end
  end.

Fixpoint parse_number (l : list ascii) (acc : nat) (any : bool) : option (nat * list ascii) :=
  match l with
  | c :: l' =>
      let n := nat_of_ascii c in
      if ((48 <=? n) && (n <=? 57))%nat then parse_number l' (10 * acc + (n - 48)) true
      else if any then Some (acc, l) else None
  | [] => if any then Some (acc, l) else None
  end.

(** A quantifier: its bounds. *)
Definition parse_bounds (l : list ascii) : option (nat * option nat * list ascii) :=
  match l with
  | "*"%char :: l => Some (0, None, l)%nat
  | "+"%char :: l => Some (1, None, l)%nat
  | "?"%char :: l => Some (0, Some 1, l)%nat
  | "{"%char :: l =>
      '(lo, l) ← parse_number l 0 false;
      match l with
      | "}"%char :: l => Some (lo, Some lo, l)
      | ","%char :: "}"%char :: l => Some (lo, None, l)
      | ","%char :: l =>
          '(hi, l) ← parse_number l 0 false;
          match l with "}"%char :: l => Some (lo, Some hi, l) | _ => None end
      | _ => None
      end
  | _ => None
  end.

Definition starts_quantifier (l : list ascii) : bool :=
  match l with c :: _ => char_in "*+?{" c | [] => false end.

Section Parser.
Context (ignore_case dot_all : bool).

Definition set_node (negated : bool) (p : ascii -> bool) : node :=
  NChar (cset_of (fun c => xorb negated (p c || (ignore_case && p (other_case c))))).

(** [.] does not match a line terminator. *)
Definition dot : node := NChar (cset_of (fun c => dot_all || negb (char_in (String "010" (String "013" "")) c))).

(** The number of the last group opened so far is threaded through. *)
Fixpoint parse_alternatives (fuel : nat) (l : list ascii) (groups : nat) : option (node * list ascii * nat) :=
  match fuel with
  | O => None
  | S fuel =>
      '(a, l, groups) ← parse_sequence fuel l groups;
      match l with
      | "|"%char :: l =>
          '(b, l, groups) ← parse_alternatives fuel l groups;
          Some (NAlt a b, l, groups)
      | _ => Some (a, l, groups)
      end
  end
with parse_sequence (fuel : nat) (l : list ascii) (groups : nat) : option (node * list ascii * nat) :=
  match fuel with
  | O => None
  | S fuel =>
      match l with
      | [] | "|"%char :: _ | ")"%char :: _ => Some (NEmpty, l, groups)
      | _ =>
          '(a, l, groups) ← parse_term fuel l groups;
          '(b, l, groups) ← parse_sequence fuel l groups;
          Some (match b with NEmpty => a | _ => NSeq a b end, l, groups)
      end
  end
with parse_term (fuel : nat) (l : list ascii) (groups : nat) : option (node * list ascii * nat) :=
  match fuel with
  | O => None
  | S fuel =>
      let body l :=
        '(a, l, groups) ← parse_alternatives fuel l groups;
        match l with ")"%char :: l => Some (a, l, groups) | _ => None end in
      let look l direction negative := '(a, l, groups) ← body l; Some (NLook direction negative a, l, groups) in
      let quantified a l groups' :=
        match parse_bounds l with
        | Some (lo, hi, l) =>
            let '(greedy, l) := match l with "?"%char :: l => (false, l) | _ => (true, l) end in
            Some (NRepeat lo hi greedy (S groups) (groups' - groups) a, l, groups')
        | None => if starts_quantifier l then None else Some (a, l, groups')
        end in
      match l with
      | "^"%char :: l => Some (NStart, l, groups)
      | "$"%char :: l => Some (NEnd, l, groups)
      | "\"%char :: "b"%char :: l => Some (NBoundary, l, groups)
      | "("%char :: "?"%char :: "="%char :: l => look l true false
      | "("%char :: "?"%char :: "!"%char :: l => look l true true
      | "("%char :: "?"%char :: "<"%char :: "="%char :: l => look l false false
      | "("%char :: "?"%char :: "<"%char :: "!"%char :: l => look l false true
      | "("%char :: "?"%char :: ":"%char :: l => '(a, l, groups') ← body l; quantified a l groups'
      | "("%char :: l =>
          '(a, l, groups') ← parse_alternatives fuel l (S groups);
          match l with
          | ")"%char :: l => quantified (NGroup (S groups) a) l groups'
          | _ => None
          end
      | "["%char :: "^"%char :: l => '(p, l) ← parse_class (S (length l)) l (fun _ => false); quantified (set_node true p) l groups
      | "["%char :: l => '(p, l) ← parse_class (S (length l)) l (fun _ => false); quantified (set_node false p) l groups
      | "."%char :: l => quantified dot l groups
      | "\"%char :: l => '(p, l) ← parse_escape l; quantified (set_node false p) l groups
      | c :: l => if char_in "*+?{}]" c then None else quantified (set_node false (one c)) l groups
      | [] => None
      end
  end.
End Parser.

(** [new RegExp(pattern, flags)], with [u] among the flags: [None] is a SyntaxError. *)
Definition new_RegExp (pattern flags : string) : option regexp :=
  let l := list_ascii_of_string pattern in
  '(a, l', groups) ← parse_alternatives (char_in flags "i"%char) (char_in flags "s") (4 * length l + 4) l 0;
  match l' with
  | [] => Some (mkRegexp a groups (char_in flags "g"%char))
  | _ => None
  end.

(** A literal [/pattern/flags]; a malformed one would not load. *)
Definition nothing : regexp := mkRegexp (NChar (CLeaf false)) 0 false.
Definition re (pattern flags : string) : regexp := default nothing (new_RegExp pattern flags).

(** ** String methods *)

(** A match: where it starts, the text of each group, the first being the whole match. *)
Record RegExpMatch := mkMatch { m_index : Z; m_groups : list (option string) }.

Definition group (m : RegExpMatch) (i : nat) : option string := default None (m_groups m !! i).
Definition whole (m : RegExpMatch) : string := default "" (group m 0).

Definition start_of (s : string) : cursor := mkCursor [] (list_ascii_of_string s) 0 [].

(** A match starting exactly here. *)
Definition match_here (r : regexp) (x : cursor) : option cursor :=
  let x := restore x (repeat None (S (re_groups r))) in
  capture 0 x <$> run (re_node r) true x Some.

Definition next (x : cursor) : option cursor :=
  match ahead x with
  | c :: l => Some (mkCursor (c :: behind x) l (at_ x + 1) (captures x))
  | [] => None
  end.

(** The first match from here on: where it starts and where it ends. *)
Fixpoint search (fuel : nat) (r : regexp) (x : cursor) : option (cursor * cursor) :=
  match match_here r x with
  | Some y => Some (x, y)
  | None =>
      match fuel with
      | O => None
      | S fuel => match next x with Some x => search fuel r x | None => None end
      end
  end.

Definition search_from (r : regexp) (x : cursor) : option (cursor * cursor) := search (length (ahead x)) r x.

Definition match_of (x y : cursor) : RegExpMatch :=
  mkMatch (at_ x) (option_map string_of_list_ascii <$> captures y).

(** [r.test(s)] and [s.match(r)], the pattern not being global. *)
Definition re_test (r : regexp) (s : string) : bool :=
  match search_from r (start_of s) with Some _ => true | None => false end.

Definition re_match (r : regexp) (s : string) : option RegExpMatch :=
  (fun p => match_of p.1 p.2) <$> search_from r (start_of s).

(** The matches from [x] on; after an empty match the next one starts a character later. *)
Fixpoint all_matches (fuel : nat) (r : regexp) (x : cursor) : list (cursor * cursor) :=
  match fuel with
  | O => []
  | S fuel =>
      match search_from r x with
      | None => []
      | Some (a, b) =>
          (a, b) ::
          (if at_ a =? at_ b then match next b with Some b => all_matches fuel r b | None => [] end
           else all_matches fuel r b)
      end
  end.

Definition matches (r : regexp) (s : string) : list (cursor * cursor) :=
  if re_global r then all_matches (S (String.length s)) r (start_of s)
  else option_list (search_from r (start_of s)).

(** [s.matchAll(r)], and the strings [s.match(r)] gives for a global [r]; [[]] for its
    [null]. *)
Definition re_matchAll (r : regexp) (s : string) : list RegExpMatch :=
  (fun p => match_of p.1 p.2) <$> matches r s.
Definition re_match_all (r : regexp) (s : string) : list string := whole <$> re_matchAll r s.

(** A replacement text: [$$], [$&] and [$1] to [$9] stand for a dollar sign, the match and
    its groups. *)
Fixpoint expand (m : RegExpMatch) (l : list ascii) : list ascii :=
  match l with
  | [] => []
  | d :: l =>
      match l with
      | [] => [d]
      | c :: l' =>
          let n := (nat_of_ascii c - 48)%nat in
          if negb (Ascii.eqb d "$"%char) then d :: expand m l
          else if Ascii.eqb c "$"%char then d :: expand m l'
          else if Ascii.eqb c "&"%char then list_ascii_of_string (whole m) ++ expand m l'
          else if ((1 <=? n) && (n <=? 9) && (n <? length (m_groups m)))%nat then
            list_ascii_of_string (default "" (group m n)) ++ expand m l'
          else d :: expand m l
      end
  end.

Fixpoint replace_at (x : cursor) (ms : list (cursor * cursor)) (template : list ascii) : list ascii :=
  match ms with
  | [] => ahead x
  | (a, b) :: ms => between x a ++ expand (match_of a b) template ++ replace_at b ms template
  end.

(** [s.replace(r, template)] *)
Definition re_replace (r : regexp) (template s : string) : string :=
  string_of_list_ascii (replace_at (start_of s) (matches r s) (list_ascii_of_string template)).

(** [s.split(r)]: the pieces from [p] on, the next separator being sought from [q]; an
    empty match at [p] is no separator. *)
Fixpoint split_from (fuel : nat) (r : regexp) (p q : cursor) : list (list ascii) :=
  match fuel with
  | O => [ahead p]
  | S fuel =>
      match ahead q with
      | [] => [ahead p]
      | _ =>
          match match_here r q with
          | Some e =>
              if at_ e =? at_ p
              then match next q with Some q => split_from fuel r p q | None => [ahead p] end
              else between p q :: split_from fuel r e e
          | None => match next q with Some q => split_from fuel r p q | None => [ahead p] end
          end
      end
  end.

(** The groups of a separator are also returned; the separators of the program have none. *)
Definition re_split (r : regexp) (s : string) : list string :=
  let x := start_of s in
  match ahead x with
  | [] => match match_here r x with Some _ => [] | None => [""%string] end
  | l => string_of_list_ascii <$> split_from (S (2 * length l)) r x x
  end.
