(* ===== verification/Text.v ===== *)
(** * JavaScript text

    The string methods the assistant uses besides regular expressions, [JSON.stringify] of
    its values, property lookup in object literals, and the errors the language throws.
    Strings are lists of code units below 256, like everywhere in this development. *)

From S2P Require Import Prelude Digits EcmaRegExp.

(** ** Errors *)

Inductive exn := TypeError | Error (message : string).

(** [a && b], [b] being evaluated only when [a] is true; [l.every(f)], [l.some(f)] and
    [l.filter(f)] stop at the first error. *)
Definition and_then {E} (a : result E bool) (b : result E bool) : result E bool :=
  match a with Ok true => b | _ => a end.
Definition or_else {E} (a : result E bool) (b : result E bool) : result E bool :=
  match a with Ok false => b | _ => a end.
Definition not_ {E} (a : result E bool) : result E bool := negb <$> a.

Fixpoint every {E A} (f : A -> result E bool) (l : list A) : result E bool :=
  match l with
  | [] => Ok true
  | a :: l => and_then (f a) (every f l)
  end.

Fixpoint some {E A} (f : A -> result E bool) (l : list A) : result E bool :=
  match l with
  | [] => Ok false
  | a :: l => or_else (f a) (some f l)
  end.

Fixpoint filter_result {E A} (f : A -> result E bool) (l : list A) : result E (list A) :=
  match l with
  | [] => Ok []
  | a :: l => x ← f a; l ← filter_result f l; Ok (if x : bool then a :: l else l)
  end.

(** [l.flatMap(f)] *)
Definition flat_map_result {E A B} (f : A -> result E (list B)) (l : list A) : result E (list B) :=
  ls ← map_result f l; Ok (concat ls).

(** ** Strings *)

Definition lower_char (c : ascii) : ascii :=
  let n := nat_of_ascii c in
  if ((65 <=? n) && (n <=? 90) || (192 <=? n) && (n <=? 222) && negb (n =? 215))%nat
  then ascii_of_nat (n + 32) else c.

(** Of the letters below 256, the sharp s, the micro sign and the y with diaeresis have their
    capitals beyond 256; they are left as they are. *)
Definition upper_char (c : ascii) : ascii :=
  let n := nat_of_ascii c in
  if ((97 <=? n) && (n <=? 122) || (224 <=? n) && (n <=? 254) && negb (n =? 247))%nat
  then ascii_of_nat (n - 32) else c.

Fixpoint string_map (f : ascii -> ascii) (s : string) : string :=
  match s with
  | EmptyString => EmptyString
  | String c s => String (f c) (string_map f s)
  end.

Definition toLowerCase : string -> string := string_map lower_char.

Fixpoint trimStart (s : string) : string :=
  match s with
  | String c s' => if is_white_space c then trimStart s' else s
  | EmptyString => EmptyString
  end.

Definition reverse_string (s : string) : string := string_of_list_ascii (rev (list_ascii_of_string s)).
Definition trimEnd (s : string) : string := reverse_string (trimStart (reverse_string s)).
Definition trim (s : string) : string := trimEnd (trimStart s).

Definition length_ (s : string) : Z := Z.of_nat (String.length s).
Definition is_empty (s : string) : bool := match s with EmptyString => true | _ => false end.

(** [s.indexOf(t)], -1 as [None]; [s.includes(t)]; [s.slice(n)] *)
Definition indexOf (t s : string) : option nat := String.index 0 t s.
Definition contains (t s : string) : bool :=
  match indexOf t s with Some _ => true | None => false end.
Definition slice_from (n : nat) (s : string) : string := String.substring n (String.length s - n) s.
Definition slice (n m : nat) (s : string) : string := String.substring n (m - n) s.
Definition startsWith (t s : string) : bool := String.prefix t s.
Definition endsWith (t s : string) : bool :=
  (String.length t <=? String.length s)%nat && String.eqb (slice_from (String.length s - String.length t) s) t.

(** [s.split(c)] and [s.replaceAll(c, t)] for a character *)
Definition split (c : ascii) (s : string) : list string :=
  string_of_list_ascii <$> split_char c (list_ascii_of_string s).
Definition replaceAll (c : ascii) (t s : string) : string := join t (split c s).

(** ** Sets of strings *)

(** [set.has(x)], [list.includes(x)] *)
Definition has (l : list string) (x : string) : bool := existsb (String.eqb x) l.

Lemma has_true l x : has l x = true <-> x ∈ l.
Proof.
  unfold has. rewrite existsb_exists. setoid_rewrite String.eqb_eq. split.
  - intros (y & Hy & ->). by apply list_elem_of_In.
  - intros Hx. exists x. by rewrite <- list_elem_of_In.
Qed.

Lemma has_false l x : has l x = false <-> x ∉ l.
Proof. rewrite <- has_true. by destruct (has l x). Qed.

(** ** Object literals used as tables *)

(** The function [Object], as the model's string for it: the property [constructor] that
    every object inherits. A lookup [table[key]] gives the table's own value, or finds an
    inherited one. *)
Definition OBJECT_FUNCTION : string := "function Object() { [native code] }".

Inductive lookup_result (A : Type) := Own (a : A) | Inherited | Absent.
Arguments Own {A} a.
Arguments Inherited {A}.
Arguments Absent {A}.

(** The inherited keys a lower-case text can be. *)
Definition inherited_key (k : string) : bool := has ["constructor"; "__proto__"]%string k.

Definition property {A} (table : list (string * A)) (k : string) : lookup_result A :=
  match map_get k table with
  | Some a => Own a
  | None => if inherited_key k then Inherited else Absent
  end.

(** ** [JSON.stringify] *)

Definition hex_lower (n : nat) : ascii := nth n (list_ascii_of_string "0123456789abcdef") "0"%char.

Definition escape_char (c : ascii) : list ascii :=
  let n := nat_of_ascii c in
  if Ascii.eqb c "034"%char then ["\"; "034"]%char
  else if Ascii.eqb c "\"%char then ["\"; "\"]%char
  else if (n =? 8)%nat then ["\"; "b"]%char
  else if (n =? 9)%nat then ["\"; "t"]%char
  else if (n =? 10)%nat then ["\"; "n"]%char
  else if (n =? 12)%nat then ["\"; "f"]%char
  else if (n =? 13)%nat then ["\"; "r"]%char
  else if (n <? 32)%nat then ["\"; "u"; "0"; "0"; hex_lower (n / 16); hex_lower (n mod 16)]%char
  else [c].

Definition quote_chars (s : string) : list ascii :=
  "034"%char :: (list_ascii_of_string s ≫= escape_char) ++ ["034"%char].

Definition quote (s : string) : string := string_of_list_ascii (quote_chars s).

Definition json_array (items : list string) : string := ("[" +:+ join "," items +:+ "]")%string.
Definition json_member (k v : string) : string := (quote k +:+ ":" +:+ v)%string.
Definition json_object (members : list (string * string)) : string :=
  ("{" +:+ join "," ((fun p => json_member p.1 p.2) <$> members) +:+ "}")%string.

(** * Facts *)

(** ** Loops that may throw *)

Lemma and_then_true {E} (a b : result E bool) : and_then a b = Ok true <-> a = Ok true /\ b = Ok true.
Proof. destruct a as [[]|]; simpl; naive_solver. Qed.

Lemma and_then_false {E} (a b : result E bool) :
  and_then a b = Ok false <-> a = Ok false \/ a = Ok true /\ b = Ok false.
Proof. destruct a as [[]|]; simpl; naive_solver. Qed.

Lemma or_else_false {E} (a b : result E bool) : or_else a b = Ok false <-> a = Ok false /\ b = Ok false.
Proof. destruct a as [[]|]; simpl; naive_solver. Qed.

Lemma not_Ok {E} (a : result E bool) b : not_ a = Ok b <-> a = Ok (negb b).
Proof. destruct a as [[]|], b; unfold not_; simpl; naive_solver. Qed.

Lemma every_true {E A} (f : A -> result E bool) l : every f l = Ok true <-> forall a, a ∈ l -> f a = Ok true.
Proof.
  induction l as [|a l IH]; simpl.
  - split; [by intros _ a ?%not_elem_of_nil|done].
  - rewrite and_then_true, IH. setoid_rewrite elem_of_cons. naive_solver.
Qed.

Lemma some_false {E A} (f : A -> result E bool) l : some f l = Ok false <-> forall a, a ∈ l -> f a = Ok false.
Proof.
  induction l as [|a l IH]; simpl.
  - split; [by intros _ a ?%not_elem_of_nil|done].
  - rewrite or_else_false, IH. setoid_rewrite elem_of_cons. naive_solver.
Qed.

(** What is kept is what [f] accepts, in order. *)
Lemma filter_result_Ok {E A} (f : A -> result E bool) l l' :
  filter_result f l = Ok l' -> sublist l' l /\ Forall (fun a => f a = Ok true) l'.
Proof.
  revert l'. induction l as [|a l IH]; intros l'; simpl; [by intros [= <-]|].
  destruct (f a) as [b|e] eqn:Ha; simpl; [|done].
  destruct (filter_result f l) as [k|e]; simpl; [|done]. destruct (IH k eq_refl) as [Hs Hf].
  destruct b; intros [= <-]; split; auto using sublist_skip, sublist_cons.
Qed.

Lemma map_result_elem {E A B} (f : A -> result E B) l l' :
  map_result f l = Ok l' -> forall b, b ∈ l' <-> exists a, a ∈ l /\ f a = Ok b.
Proof.
  intros Hm%map_result_Ok b. induction Hm as [|a c l l' Hac _ IH].
  - split; [by intros ?%not_elem_of_nil|by intros (a & ?%not_elem_of_nil & _)].
  - rewrite elem_of_cons, IH. setoid_rewrite elem_of_cons. split.
    + intros [->|(x & ? & ?)]; eauto.
    + intros (x & [->|Hx] & Hf); [left; congruence|eauto].
Qed.

Lemma flat_map_result_Ok {E A B} (f : A -> result E (list B)) l l' :
  flat_map_result f l = Ok l' -> forall b, b ∈ l' <-> exists a k, a ∈ l /\ f a = Ok k /\ b ∈ k.
Proof.
  unfold flat_map_result. destruct (map_result f l) as [ls|] eqn:Hm; simpl; [|done]. intros [= <-] b.
  rewrite list_elem_of_In, in_concat. setoid_rewrite <- list_elem_of_In.
  setoid_rewrite (map_result_elem _ _ _ Hm). naive_solver.
Qed.

(** ** Quoted strings *)

(** One character of a quoted string; [None] at the closing quote. *)
Definition unescape (l : list ascii) : option (ascii * list ascii) :=
  match l with
  | "034"%char :: _ => None
  | "\"%char :: e :: l =>
      if Ascii.eqb e "b"%char then Some ("008"%char, l)
      else if Ascii.eqb e "t"%char then Some ("009"%char, l)
      else if Ascii.eqb e "n"%char then Some ("010"%char, l)
      else if Ascii.eqb e "f"%char then Some ("012"%char, l)
      else if Ascii.eqb e "r"%char then Some ("013"%char, l)
      else if Ascii.eqb e "u"%char then
        match l with
        | _ :: _ :: h :: k :: l =>
            a ← hex_digit_value h; b ← hex_digit_value k; Some (ascii_of_nat (16 * a + b), l)
        | _ => None
        end
      else Some (e, l)
  | c :: l => Some (c, l)
  | [] => None
  end.

Lemma unescape_escape c l : unescape (escape_char c ++ l) = Some (c, l).
Proof. destruct c as [[] [] [] [] [] [] [] []]; reflexivity. Qed.

Lemma escaped_prefix s s' l l' :
  (s ≫= escape_char) ++ "034"%char :: l = (s' ≫= escape_char) ++ "034"%char :: l' -> s = s' /\ l = l'.
Proof.
  revert s'. induction s as [|c s IH]; intros [|c' s']; rewrite ?bind_cons, <- ?app_assoc; intros H.
  - by injection H as ->.
  - apply (f_equal unescape) in H. by rewrite unescape_escape in H.
  - apply (f_equal unescape) in H. by rewrite unescape_escape in H.
  - pose proof (f_equal unescape H) as Hc. rewrite !unescape_escape in Hc. injection Hc as -> Hc.
    by destruct (IH s' Hc) as [-> ->].
Qed.

(** A quoted string ends where its closing quote is: two texts that begin with one begin
    with the same. *)
Lemma quote_prefix s s' l l' : quote_chars s ++ l = quote_chars s' ++ l' -> s = s' /\ l = l'.
Proof.
  unfold quote_chars. simpl. rewrite <- !app_assoc. intros [= H].
  apply escaped_prefix in H as [Hs ->]. split; [|done]. by apply list_ascii_of_string_inj.
Qed.

Lemma quote_ascii s : list_ascii_of_string (quote s) = quote_chars s.
Proof. apply list_ascii_of_string_of_list_ascii. Qed.

Lemma append_assoc (s t u : string) : ((s +:+ t) +:+ u)%string = (s +:+ (t +:+ u))%string.
Proof. induction s as [|c s IH]; [done|]. exact (f_equal (String c) IH). Qed.

Lemma fold_join sep l x y :
  fold_left (fun acc t => acc +:+ sep +:+ t)%string l (x +:+ y)%string =
  (x +:+ fold_left (fun acc t => acc +:+ sep +:+ t)%string l y)%string.
Proof.
  revert y. induction l as [|a l IH]; intros y; simpl; [done|].
  rewrite <- IH. f_equal. by rewrite !append_assoc.
Qed.

Lemma join_cons sep a b l : join sep (a :: b :: l) = (a +:+ sep +:+ join sep (b :: l))%string.
Proof. unfold join. cbn [fold_left]. by rewrite !fold_join. Qed.

#[local] Arguments join : simpl never.

Lemma join_one sep a : join sep [a] = a.
Proof. done. Qed.

(** A list of quoted strings up to the bracket that closes it. *)
Lemma quoted_list_prefix l l' t t' :
  list_ascii_of_string (join "," (quote <$> l)) ++ "]"%char :: t =
  list_ascii_of_string (join "," (quote <$> l')) ++ "]"%char :: t' -> l = l' /\ t = t'.
Proof.
  revert l'. induction l as [|a l IH]; intros [|b l'] H.
  - by injection H as ->.
  - exfalso. destruct l'; rewrite ?fmap_cons, ?fmap_nil, ?join_cons, ?join_one in H;
      rewrite ?list_ascii_of_string_app, quote_ascii in H; discriminate.
  - exfalso. destruct l; rewrite ?fmap_cons, ?fmap_nil, ?join_cons, ?join_one in H;
      rewrite ?list_ascii_of_string_app, quote_ascii in H; discriminate.
  - destruct l as [|a' l], l' as [|b' l']; rewrite ?fmap_cons, ?fmap_nil, ?join_cons, ?join_one in H;
      rewrite ?list_ascii_of_string_app, ?quote_ascii, <- ?app_assoc in H; apply quote_prefix in H as [-> H].
    + by injection H as ->.
    + discriminate.
    + discriminate.
    + change (list_ascii_of_string ",") with [","%char] in H. injection H as H.
      destruct (IH (b' :: l')) as [He ->]; [by rewrite !fmap_cons|]. by rewrite He.
Qed.

(** ** Prefixes and suffixes *)

Lemma append_ascii s t : list_ascii_of_string (s +:+ t) = list_ascii_of_string s ++ list_ascii_of_string t.
Proof. apply list_ascii_of_string_app. Qed.

Lemma append_length s t : String.length (s +:+ t) = (String.length s + String.length t)%nat.
Proof. induction s as [|c s IH]; [done|]. exact (f_equal S IH). Qed.

Lemma substring_prefix s t : String.substring 0 (String.length s) (s +:+ t) = s.
Proof. induction s as [|c s IH]; [by destruct t|]. exact (f_equal (String c) IH). Qed.

Lemma substring_all s : String.substring 0 (String.length s) s = s.
Proof. induction s as [|c s IH]; [done|]. exact (f_equal (String c) IH). Qed.

Lemma substring_suffix s t : String.substring (String.length s) (String.length t) (s +:+ t) = t.
Proof. induction s as [|c s IH]; [apply substring_all|exact IH]. Qed.

Lemma substring_split n s :
  (n <= String.length s)%nat ->
  s = (String.substring 0 n s +:+ String.substring n (String.length s - n) s)%string.
Proof.
  revert n. induction s as [|c s IH]; intros [|n] Hn; [done|simpl in Hn; lia| |].
  - symmetry. exact (substring_all (String c s)).
  - simpl in Hn. exact (f_equal (String c) (IH n ltac:(lia))).
Qed.

Lemma slice_from_app s t : slice_from (String.length s) (s +:+ t) = t.
Proof. unfold slice_from. rewrite append_length, Nat.add_comm, Nat.add_sub. apply substring_suffix. Qed.

Lemma slice_app s t : slice 0 (String.length s) (s +:+ t) = s.
Proof. unfold slice. rewrite Nat.sub_0_r. apply substring_prefix. Qed.

Lemma endsWith_spec t s : endsWith t s = true <-> exists u, s = (u +:+ t)%string.
Proof.
  unfold endsWith. rewrite andb_true_iff, Nat.leb_le, String.eqb_eq. split.
  - intros [Hle He]. exists (String.substring 0 (String.length s - String.length t) s).
    rewrite <- He at 2. unfold slice_from.
    rewrite (substring_split (String.length s - String.length t) s) at 1 by lia. done.
  - intros [u ->]. rewrite append_length. split; [lia|]. rewrite Nat.add_sub. apply slice_from_app.
Qed.

Lemma prefix_spec t s : startsWith t s = true <-> exists u, s = (t +:+ u)%string.
Proof.
  unfold startsWith. revert s. induction t as [|c t IH]; intros s.
  - split; [by exists s|by destruct s].
  - destruct s as [|d s]; simpl; [split; [done|by intros [u ?]]|].
    destruct (ascii_dec c d) as [->|Hne].
    + rewrite IH. split; intros [u Hu]; exists u; [by rewrite Hu|by injection Hu].
    + split; [done|]. intros [u [= ? _]]. done.
Qed.

Lemma string_of_app l l' : string_of_list_ascii (l ++ l') = (string_of_list_ascii l +:+ string_of_list_ascii l')%string.
Proof. induction l as [|c l IH]; [done|]. exact (f_equal (String c) IH). Qed.

Lemma of_ascii s l : list_ascii_of_string s = l -> s = string_of_list_ascii l.
Proof. intros <-. symmetry. apply string_of_list_ascii_of_string. Qed.
