(* ===== verification/SemanticTokens.v ===== *)
(** * Semantic support: tokens

    The lexical layer of [src/src/assistant/semantic-support.ts]: words, numbers and
    quantities of a text, and the sets of tokens that statements and records are compared
    by. A token is a string; a table lookup that finds the inherited property
    [constructor] yields the function [Object], whose stand-in is [OBJECT_FUNCTION]. *)

From S2P Require Import Prelude Digits EcmaRegExp Text.

Local Open Scope Z_scope.

Definition SHORT_SEMANTIC_TOKENS : list string :=
  ["no"; "not"; "never"; "pass"; "fail"; "fit"; "unfit"; "safe"; "unsafe"].
Definition NEGATORS : list string := ["no"; "not"; "never"; "neither"; "without"; "cannot"; "cant"].
Definition NON_MATERIAL_TOKENS : list string := ["component"; "value"].
Definition ACCOUNTABLE_AUTHORITY_TOKENS : list string := ["accredit"; "approve"; "certify"; "comply"; "legal"].
Definition NUMBER_WORD_TOKENS : list string :=
  ["zero"; "one"; "two"; "three"; "four"; "five"; "six"; "seven"; "eight"; "nine"; "ten"; "eleven"; "twelve";
   "thirteen"; "fourteen"; "fifteen"; "sixteen"; "seventeen"; "eighteen"; "nineteen"; "twenty"; "thirty";
   "forty"; "fifty"; "sixty"; "seventy"; "eighty"; "ninety"; "hundred"].
Definition DISCLOSURE_FIELD_TOKENS : list string :=
  ["capacity"; "circularity"; "climate"; "conflict"; "coverage"; "depletion"; "eligibility"; "fraction";
   "frequency"; "gwp"; "health"; "lifecycle"; "mileage"; "mineral"; "npv"; "ownership"; "payback"; "rank";
   "sequence"; "status"; "temperature"; "verifier"; "voltage"].
Definition DISCLOSURE_VALUE_TOKENS : list string :=
  ["accept"; "active"; "approve"; "available"; "deny"; "eligible"; "fail"; "forbid"; "inactive"; "ineligible";
   "locked"; "missing"; "pass"; "permit"; "preferred"; "prohibited"; "reject"; "restricted"; "stale";
   "superseded"; "unavailable"; "unlocked"; "unverified"; "verify"].
Definition RELATIONAL_STATUS_TOKENS : list string :=
  ["accept"; "active"; "allow"; "approve"; "available"; "complete"; "current"; "deny"; "eligible"; "fail";
   "forbid"; "inactive"; "incomplete"; "ineligible"; "locked"; "missing"; "pass"; "permit"; "present";
   "preferred"; "prohibited"; "reject"; "restricted"; "revoke"; "stale"; "superseded"; "supported";
   "unavailable"; "unlocked"; "unsupported"; "unverified"; "verify"].
Definition RELATION_BOUNDARIES : list string := ["and"; "but"; "whereas"; "while"].
Definition RELATION_SUBJECT_STOPWORDS : list string :=
  ["a"; "an"; "are"; "as"; "at"; "be"; "been"; "being"; "by"; "for"; "from"; "has"; "have"; "had"; "in"; "is";
   "it"; "of"; "on"; "or"; "the"; "to"; "under"; "was"; "were"; "with"].
Definition QUANTITY_UNITS : list string :=
  ["percent"; "percentage"; "kg"; "g"; "mg"; "kwh"; "wh"; "km"; "mile"; "miles"; "eur"; "usd"; "cycle";
   "cycles"; "year"; "years"; "day"; "days"; "hour"; "hours"].
Definition INCOMPATIBLE_TERM_GROUPS : list (list string) :=
  [["preferred"; "reject"]; ["approve"; "reject"]; ["accept"; "reject"]; ["verify"; "unverified"];
   ["permit"; "forbid"; "prohibited"]; ["active"; "inactive"; "revoked"; "stale"; "restricted"; "superseded"];
   ["pass"; "fail"]; ["available"; "unavailable"]; ["allowed"; "denied"; "prohibited"]; ["locked"; "unlocked"];
   ["current"; "stale"]; ["eligible"; "ineligible"]; ["present"; "missing"]; ["complete"; "incomplete"];
   ["supported"; "unsupported"]].

(** ** Words *)

Definition RE_CONTRACTION : regexp :=
  Eval vm_compute in re "\b(?:isn|aren|wasn|weren|doesn|don|didn|couldn|won|wouldn|shouldn|mustn)'t\b" "gu".
Definition RE_CANT : regexp := Eval vm_compute in re "\bcan['\u2019]?t\b" "gu".
Definition RE_BARE_CONTRACTION : regexp :=
  Eval vm_compute in re "\b(?:isn|aren|wasn|weren|doesn|don|didn|couldn|won|wouldn|shouldn|mustn)t\b" "gu".
Definition RE_LEXICAL : regexp := Eval vm_compute in re "[a-z0-9]+(?:-[a-z0-9]+)*" "gu".
Definition RE_WORDS : regexp := Eval vm_compute in re "[a-z]+" "gu".

Definition expandContractions (value : string) : string :=
  re_replace RE_BARE_CONTRACTION " not"
    (re_replace RE_CANT "cannot" (re_replace RE_CONTRACTION " not" (toLowerCase value))).

Definition lexicalTokens (value : string) : list string := re_match_all RE_LEXICAL (expandContractions value).

Definition normalize (value : string) : string := join " " (lexicalTokens value).

(** [token.includes("-") ? [token, ...token.split("-")] : [token]] *)
Definition with_parts (token : string) : list string :=
  if contains "-" token then token :: split "-"%char token else [token].

Definition aliases : list (string * string) :=
  [("accepted", "accept"); ("accreditation", "accredit"); ("accredited", "accredit"); ("allowed", "allow");
   ("approval", "approve"); ("approved", "approve"); ("c", "circularity"); ("certification", "certify");
   ("certified", "certify"); ("compliant", "comply"); ("compliance", "comply"); ("conflicts", "conflict");
   ("legally", "legal"); ("recommended", "preferred"); ("recommendation", "preferred"); ("failed", "fail");
   ("failing", "fail"); ("fails", "fail"); ("passed", "pass"); ("passes", "pass"); ("rejected", "reject");
   ("rejection", "reject"); ("selected", "preferred"); ("resell", "resale"); ("resold", "resale");
   ("sold", "resale"); ("sale", "resale"); ("soh", "health"); ("forbids", "forbid"); ("forbidden", "forbid");
   ("permitted", "permit"); ("permits", "permit"); ("verified", "verify"); ("verifies", "verify");
   ("verification", "verify"); ("verifier", "verify")]%string.

(** [aliases[value] ?? value] *)
Definition canonicalSemanticToken (value : string) : string :=
  match property aliases value with
  | Own a => a
  | Inherited => OBJECT_FUNCTION
  | Absent => value
  end.

Definition is_function (token : string) : bool := String.eqb token OBJECT_FUNCTION.

(** [token.length]: the function [Object] has one parameter. *)
Definition token_length (token : string) : Z := if is_function token then 1 else length_ token.

Definition RE_NUMERIC_TOKEN : regexp :=
  Eval vm_compute in re "^(?:[0-9]{1,3}(?:,[0-9]{3})+|[0-9]+)(?:\.[0-9]+)?$" "u".
Definition isNumericToken (value : string) : bool := re_test RE_NUMERIC_TOKEN value.

Definition RE_LETTER : regexp := Eval vm_compute in re "[a-z]" "iu".
Definition RE_DIGIT : regexp := Eval vm_compute in re "[0-9]" "u".

(** A function has no method [startsWith]. *)
Definition isIdentifierToken (value : string) : result exn bool :=
  if re_test RE_LETTER value && re_test RE_DIGIT value then Ok true
  else if is_function value then Throw TypeError
  else Ok (startsWith "urn:" value).

(** ** Numbers *)

(** [s.replace(/%$/u, empty)], [s.replace(/^\+/u, empty)] *)
Fixpoint drop_last_percent (l : list ascii) : list ascii :=
  match l with
  | ["%"%char] => []
  | c :: l => c :: drop_last_percent l
  | [] => []
  end.

Definition drop_first (c : ascii) (l : list ascii) : list ascii :=
  match l with d :: l' => if Ascii.eqb d c then l' else l | [] => [] end.

(** [s.replace(/^0+(?=[0-9])/u, empty)] *)
Fixpoint drop_extra_zeros (l : list ascii) : list ascii :=
  match l with
  | z :: l' =>
      match l' with
      | d :: _ => if Ascii.eqb z "0"%char && bool_decide (is_digit d) then drop_extra_zeros l' else l
      | [] => l
      end
  | [] => []
  end.

Definition number_literal (value : list ascii) : list ascii :=
  let withoutDecoration := drop_first "+"%char (drop_last_percent (filter (fun c => c <> ","%char) value)) in
  let negative := match withoutDecoration with "-"%char :: _ => true | _ => false end in
  let unsigned := if negative then tail withoutDecoration else withoutDecoration in
  let parts := split_char "."%char unsigned in
  let integer := match drop_extra_zeros (default ["0"%char] (parts !! 0%nat)) with [] => ["0"%char] | l => l end in
  let fraction := match parts !! 1%nat with Some f => strip_trailing_zeros f | None => [] end in
  let magnitude := match fraction with [] => integer | _ => integer ++ "."%char :: fraction end in
  if negative && negb (bool_decide (magnitude = ["0"%char])) then "-"%char :: magnitude else magnitude.

Definition normalizeNumberLiteral (value : string) : string :=
  string_of_list_ascii (number_literal (list_ascii_of_string value)).

Definition units : list (string * Z) :=
  [("zero", 0); ("one", 1); ("two", 2); ("three", 3); ("four", 4); ("five", 5); ("six", 6); ("seven", 7);
   ("eight", 8); ("nine", 9); ("ten", 10); ("eleven", 11); ("twelve", 12); ("thirteen", 13); ("fourteen", 14);
   ("fifteen", 15); ("sixteen", 16); ("seventeen", 17); ("eighteen", 18); ("nineteen", 19)]%string.
Definition tens : list (string * Z) :=
  [("twenty", 20); ("thirty", 30); ("forty", 40); ("fifty", 50); ("sixty", 60); ("seventy", 70);
   ("eighty", 80); ("ninety", 90)]%string.

(** The value of a number word. The inherited [Object] joins the arithmetic as JavaScript
    has it: a sum with it is a text, a product with it is [NaN]. *)
Inductive word_value := WNumber (n : Z) | WNaN | WText (s : string).

Definition word_string (v : word_value) : string :=
  match v with WNumber n => number_to_string n | WNaN => "NaN" | WText s => s end.

Definition word_add (a b : word_value) : word_value :=
  match a, b with
  | WNumber x, WNumber y => WNumber (x + y)
  | WText _, _ | _, WText _ => WText (word_string a +:+ word_string b)
  | _, _ => WNaN
  end.

Definition word_times (a : word_value) (n : Z) : word_value :=
  match a with WNumber x => WNumber (x * n) | _ => WNaN end.

Definition word_below (a : word_value) (n : Z) : bool :=
  match a with WNumber x => x <? n | _ => false end.

Definition word_in (table : list (string * Z)) (word : option string) : option word_value :=
  match property table (default "" word) with
  | Own n => Some (WNumber n)
  | Inherited => Some (WText OBJECT_FUNCTION)
  | Absent => None
  end.

(** [result += units[next]] when the next word is a unit below ten *)
Definition add_small_unit (result : word_value) (words : list string) : word_value * list string :=
  match word_in units (head words) with
  | Some u => if word_below u 10 then (word_add result u, tail words) else (result, words)
  | None => (result, words)
  end.

(** What follows the word [hundred]. *)
Definition after_hundred (result : word_value) (words : list string) : word_value * list string :=
  let words := if bool_decide (head words = Some "and"%string) then tail words else words in
  match word_in tens (head words), word_in units (head words) with
  | Some t, _ => add_small_unit (word_add result t) (tail words)
  | None, Some u => (word_add result u, tail words)
  | None, None => (result, words)
  end.

(** The value that starts with the first word, and the words after it. *)
Definition word_step (word : string) (rest : list string) : option word_value * list string :=
  match word_in units (Some word), word_in tens (Some word) with
  | Some u, t =>
      if bool_decide (head rest = Some "hundred"%string)
      then let '(v, rest) := after_hundred (word_times u 100) (tail rest) in (Some v, rest)
      else match t with
           | Some t => let '(v, rest) := add_small_unit t rest in (Some v, rest)
           | None => (Some u, rest)
           end
  | None, Some t => let '(v, rest) := add_small_unit t rest in (Some v, rest)
  | None, None => (None, rest)
  end.

Fixpoint word_values (fuel : nat) (words : list string) : list word_value :=
  match fuel, words with
  | S fuel, word :: rest =>
      let '(v, rest) := word_step word rest in option_list v ++ word_values fuel rest
  | _, _ => []
  end.

(** The values as [String(number)] shows them. *)
Definition numberWordValues (value : string) : list string :=
  let words := re_match_all RE_WORDS (replaceAll "-"%char " " (expandContractions value)) in
  word_string <$> word_values (length words) words.

Definition RE_NUMBER : regexp :=
  Eval vm_compute in
    re "(?<![a-z0-9-])[-+]?(?:[0-9]{1,3}(?:,[0-9]{3})+|[0-9]+)(?:\.[0-9]+)?%?(?![a-z0-9-])" "giu".
Definition RE_LEADING_SIGN : regexp := Eval vm_compute in re "^[-+]" "u".
Definition RE_FINAL_PERCENT : regexp := Eval vm_compute in re "%$" "u".
Definition RE_ZERO_PADDED : regexp := Eval vm_compute in re "^0[0-9]+$" "u".

(** Identifiers with leading zeros are no numbers. *)
Definition zero_padded (literal : string) : bool :=
  re_test RE_ZERO_PADDED
    (re_replace RE_FINAL_PERCENT "" (replaceAll ","%char "" (re_replace RE_LEADING_SIGN "" literal))).

Definition numericTokens (value : string) : list string :=
  set_of ((normalizeNumberLiteral <$> filter (fun m => zero_padded m = false) (re_match_all RE_NUMBER value)) ++
          numberWordValues value).

Definition RE_QUANTITY : regexp :=
  Eval vm_compute in
    re "(?<![a-z0-9-])([-+]?(?:[0-9]{1,3}(?:,[0-9]{3})+|[0-9]+)(?:\.[0-9]+)?)\s*(%|percent(?:age)?|kg|g|mg|kwh|wh|km|miles?|eur|usd|cycles?|years?|days?|hours?)(?![a-z0-9-])" "giu".
Definition RE_PERCENT : regexp := Eval vm_compute in re "^(?:%|percent|percentage)$" "iu".

Definition quantitative_fact (m : RegExpMatch) : option string :=
  match group m 1, group m 2 with
  | Some number, Some unit_ =>
      Some (normalizeNumberLiteral number +:+ "|" +:+
            (if re_test RE_PERCENT unit_ then "percent" else toLowerCase unit_))%string
  | _, _ => None
  end.

Definition quantitativeFacts (value : string) : list string :=
  set_of (omap quantitative_fact (re_matchAll RE_QUANTITY value)).

(** ** Material tokens *)

Definition material (token : string) : bool :=
  negb (has NON_MATERIAL_TOKENS token) && negb (has NUMBER_WORD_TOKENS token) && negb (isNumericToken token) &&
  ((4 <=? token_length token) || has SHORT_SEMANTIC_TOKENS token).

Definition materialTokens (value : string) : list string :=
  set_of (filter (fun t => material t = true)
            (canonicalSemanticToken <$> (lexicalTokens value ≫= with_parts)) ++ numericTokens value).

(** The share of [left] in [right] as a numerator and a denominator; 0 for no tokens. The
    comparisons of the quotient with a half, three quarters and three fifths are exact: the
    rounded quotient is on the same side. *)
Record overlap := mkOverlap { ov_shared : Z; ov_size : Z }.

Definition tokenOverlap (left right : list string) : overlap :=
  mkOverlap (Z.of_nat (length (filter (fun t => has right t = true) left))) (Z.of_nat (length left)).

(** [o >= p / q] for a positive [p] *)
Definition at_least (o : overlap) (p q : Z) : bool := (0 <? ov_size o) && (p * ov_size o <=? q * ov_shared o).

Definition RE_BOILERPLATE : regexp :=
  Eval vm_compute in
    re "^(?:supported|response supported|none|n\/?a|not applicable|no (?:warnings?|missing requirements?|issues?))\.?$" "iu".
Definition isNonFactualBoilerplate (value : string) : bool := re_test RE_BOILERPLATE (trim value).

Definition RE_EMBEDDED_INSTRUCTION : regexp :=
  Eval vm_compute in
    re "\b(?:ignore|disregard|override)\b.{0,80}\b(?:instructions?|prompt|rules?)\b|\b(?:reveal|print|return|expose)\b.{0,80}\b(?:system prompt|developer message|private key|secret|credentials?)\b|\b(?:system prompt|developer message)\b|<script\b|\b(?:assistant|system)\s*:" "iu".
Definition looksLikeEmbeddedInstruction (value : string) : bool := re_test RE_EMBEDDED_INSTRUCTION value.

(** ** Disclosure *)

Definition GENERIC_DISCLOSURE : list string :=
  ["synthetic"; "predefined"; "record"; "records"; "fact"; "facts"; "current"; "battery"; "state"; "history"].

Definition disclosureLexicalTokens (value : string) : list string :=
  canonicalSemanticToken <$> (lexicalTokens value ≫= with_parts).

Definition disclosureTokens (value : string) : list string := set_of (disclosureLexicalTokens value).

Definition distinctive (token : string) : result exn bool :=
  if has GENERIC_DISCLOSURE token then Ok false
  else if (4 <=? token_length token) || has SHORT_SEMANTIC_TOKENS token || isNumericToken token then Ok true
  else isIdentifierToken token.

Definition distinctiveDisclosureTokens (value : string) : result exn (list string) :=
  set_of <$> filter_result distinctive (disclosureLexicalTokens value).

Definition shares (l l' : list string) : bool := existsb (has l') l.

(** An identifier of the secret is shown whole or by its parts. *)
Definition identifier_shown (output : list string) (token : string) : bool :=
  has output token ||
  forallb (has output) (filter (fun p => (1 <? length_ p) = true) (split "-"%char token)).

(** [Math.ceil(n * 0.4)]; the product of doubles is exact where [n] is a multiple of 5. *)
Definition ceil_two_fifths (n : Z) : Z := (2 * n + 4) / 5.

Definition disclosure_match (secret output : string) (secretTokens outputTokens : list string)
    (identifierMatched : bool) : bool :=
  let matching := Z.of_nat (length (filter (fun t => has outputTokens t = true) secretTokens)) in
  let secretQuantities := quantitativeFacts secret in
  let quantitativeFactMatched := shares secretQuantities (quantitativeFacts output) in
  let secretFields := filter (fun t => has secretTokens t = true) DISCLOSURE_FIELD_TOKENS in
  let outputFields := filter (fun t => has outputTokens t = true) DISCLOSURE_FIELD_TOKENS in
  let fieldMatched := shares secretFields outputFields in
  let outputNamesAnotherField :=
    negb (bool_decide (secretFields = [])) && negb (bool_decide (outputFields = [])) && negb fieldMatched in
  let secretNumbers := numericTokens secret in
  let outputNumbers := numericTokens output in
  let numericValueMatched := shares secretNumbers outputNumbers in
  let numericValueContradicted :=
    negb (bool_decide (secretNumbers = [])) && negb (bool_decide (outputNumbers = [])) && negb numericValueMatched in
  let qualitativeValueMatched :=
    existsb (fun t => has secretTokens t && has outputTokens t) DISCLOSURE_VALUE_TOKENS in
  if numericValueContradicted || outputNamesAnotherField then false
  else if negb (bool_decide (secretQuantities = [])) && quantitativeFactMatched
  then fieldMatched || (identifierMatched && negb outputNamesAnotherField)
  else if fieldMatched && (numericValueMatched || qualitativeValueMatched) then true
  else if identifierMatched && numericValueMatched then true
  else (Z.max 2 (ceil_two_fifths (Z.of_nat (length secretTokens))) <=? matching) ||
       (identifierMatched && (3 <=? matching)).

Definition semanticDisclosureMatch (secret output : string) : result exn bool :=
  let normalizedSecret := normalize secret in
  if negb (is_empty normalizedSecret) && contains normalizedSecret (normalize output) then Ok true
  else
    secretTokens ← distinctiveDisclosureTokens secret;
    let outputTokens := disclosureTokens output in
    if (length (filter (fun t => has outputTokens t = true) secretTokens) <? 2)%nat then Ok false
    else
      identifiers ← filter_result isIdentifierToken secretTokens;
      Ok (disclosure_match secret output secretTokens outputTokens
            (existsb (identifier_shown outputTokens) identifiers)).
