(* ===== verification/SemanticNumbers.v ===== *)
(** * The assistant's numbers

    What the number functions of SemanticTokens.v mean: literals normalize to the same text
    exactly when they are the same number. *)

From S2P Require Import Prelude Digits Decimal EcmaRegExp Text SemanticTokens.

Local Open Scope Z_scope.

(** ** Literals *)

(** The parts of a literal that [RE_NUMBER] finds: a sign, digits with separators, a
    fraction and a percent sign. *)
Record NumberText := mkNumberText {
  nt_sign : option bool;
  nt_int : list ascii;
  nt_frac : option (list ascii);
  nt_percent : bool
}.

Definition nt_digits (a : NumberText) : list ascii := filter (fun c => c <> ","%char) (nt_int a).
Definition nt_fraction (a : NumberText) : list ascii := default [] (nt_frac a).
Definition nt_negative (a : NumberText) : bool := default false (nt_sign a).

Definition nt_chars (a : NumberText) : list ascii :=
  match nt_sign a with Some true => ["-"%char] | Some false => ["+"%char] | None => [] end ++ nt_int a ++
  match nt_frac a with Some f => "."%char :: f | None => [] end ++ (if nt_percent a then ["%"%char] else []).

Definition nt_ok (a : NumberText) : Prop :=
  Forall is_digit (nt_digits a) /\ nt_digits a <> [] /\ Forall is_digit (nt_fraction a).

(** The number: a numerator over a power of ten. *)
Definition nt_value (a : NumberText) : Z := signed (nt_negative a) (digits_value (nt_digits a ++ nt_fraction a)).
Definition nt_scale (a : NumberText) : Z := Z.of_nat (length (nt_fraction a)).

Lemma digit_other c d : is_digit c -> ~ is_digit d -> c <> d.
Proof. by intros Hc Hd ->. Qed.

Lemma not_digits : ~ is_digit "+"%char /\ ~ is_digit "-"%char /\ ~ is_digit "%"%char /\ ~ is_digit ","%char /\ ~ is_digit "."%char.
Proof. unfold is_digit. by repeat split; intros [H1 H2]; vm_compute in H1, H2; try (by apply H1); apply H2. Qed.

Lemma drop_last_percent_none l : "%"%char ∉ l -> drop_last_percent l = l.
Proof.
  induction l as [|c l IH]; [done|]. intros [Hc Hl]%not_elem_of_cons. simpl. rewrite (IH Hl).
  destruct (decide (c = "%"%char)) as [->|]; [done|]. by destruct c as [[] [] [] [] [] [] [] []], l.
Qed.

Lemma drop_last_percent_end l : "%"%char ∉ l -> drop_last_percent (l ++ ["%"%char]) = l.
Proof.
  induction l as [|c l IH]; [done|]. intros [Hc Hl]%not_elem_of_cons. simpl. rewrite (IH Hl).
  by destruct c as [[] [] [] [] [] [] [] []], l.
Qed.

Lemma filter_no_comma l : Forall is_digit l -> filter (fun c => c <> ","%char) l = l.
Proof. intros Hl. apply filter_all. eapply Forall_impl; [exact Hl|]. intros c Hc. apply (digit_other c _ Hc), not_digits. Qed.

Lemma digits_no c l : Forall is_digit l -> ~ is_digit c -> c ∉ l.
Proof. intros Hl Hc Hin. rewrite Forall_forall in Hl. by apply Hc, Hl. Qed.

(** The digits without leading zeros, one kept. *)
Lemma drop_extra_zeros_spec l :
  Forall is_digit l -> l <> [] -> numeral (drop_extra_zeros l) /\ digits_value (drop_extra_zeros l) = digits_value l.
Proof.
  induction l as [|z l IH]; [done|]. intros [Hz Hl]%Forall_cons _. simpl. destruct l as [|d l].
  - split; [|done]. split; [by apply Forall_singleton|]. split; [done|]. by intros [= ->].
  - pose proof Hl as [Hd _]%Forall_cons. rewrite (bool_decide_eq_true_2 _ Hd), andb_true_r.
    destruct (Ascii.eqb_spec z "0"%char) as [->|Hne].
    + destruct (IH Hl) as [Hn Hv]; [done|]. split; [done|]. rewrite Hv. by rewrite (digits_value_cons "0"%char).
    + split; [|done]. split; [by apply Forall_cons|]. split; [done|]. by intros [= ->].
Qed.

Lemma parts_chars int frac :
  Forall is_digit int -> Forall is_digit (default [] frac) ->
  let parts := split_char "."%char (int ++ match frac with Some f => "."%char :: f | None => [] end) in
  parts !! 0%nat = Some int /\ default [] (parts !! 1%nat) = default [] frac.
Proof.
  intros [Hi _]%is_digit_not_dot Hf. destruct frac as [f|]; simpl in *.
  - apply is_digit_not_dot in Hf as [Hf _]. by rewrite split_char_app, split_char_none.
  - by rewrite app_nil_r, split_char_none.
Qed.

(** The literal without separators, percent sign and plus sign. *)
Lemma undecorated a :
  nt_ok a ->
  drop_first "+"%char (drop_last_percent (filter (fun c => c <> ","%char) (nt_chars a))) =
    (if nt_negative a then ["-"%char] else []) ++ nt_digits a ++
    match nt_frac a with Some f => "."%char :: f | None => [] end.
Proof.
  intros (Hd & Hne & Hf). destruct not_digits as (Hplus & Hminus & Hpct & Hcomma & Hdot).
  assert (exists body, body = nt_digits a ++ match nt_frac a with Some f => "."%char :: f | None => [] end /\
          filter (fun c => c <> ","%char) (nt_int a ++ match nt_frac a with Some f => "."%char :: f | None => [] end) = body /\
          "%"%char ∉ body /\ (forall c l, body = c :: l -> is_digit c)) as (body & Hb & Hfilter & Hno & Hhead).
  { eexists. split; [reflexivity|]. split_and!.
    - rewrite filter_app. f_equal. unfold nt_fraction in Hf. destruct (nt_frac a) as [f|]; [|done].
      rewrite filter_cons_True by done. by rewrite filter_no_comma.
    - intros [Hin|Hin]%elem_of_app; [by apply (digits_no "%"%char (nt_digits a))|].
      unfold nt_fraction in Hf. destruct (nt_frac a) as [f|]; [|by apply not_elem_of_nil in Hin].
      apply elem_of_cons in Hin as [|Hin]; [done|]. by apply (digits_no "%"%char f).
    - intros c l H. destruct (nt_digits a) as [|c' l']; [done|]. injection H as <- _. by apply Forall_cons in Hd as [? _]. }
  assert (drop_last_percent (filter (fun c => c <> ","%char) (nt_chars a)) =
          match nt_sign a with Some true => ["-"%char] | Some false => ["+"%char] | None => [] end ++ body) as ->.
  { unfold nt_chars. rewrite (app_assoc (nt_int a)), filter_app, (filter_app _ (nt_int a ++ _)), Hfilter.
    set (sg := match nt_sign a with Some true => _ | _ => _ end).
    assert (filter (fun c => c <> ","%char) sg = sg) as -> by by unfold sg; destruct (nt_sign a) as [[]|].
    assert ("%"%char ∉ sg ++ body) as Hno'.
    { intros [Hin|]%elem_of_app; [|done]. unfold sg in Hin. revert Hin. destruct (nt_sign a) as [[]|]; [by intros ?%list_elem_of_singleton..|].
      apply not_elem_of_nil. }
    destruct (nt_percent a).
    - change (filter _ ["%"%char]) with ["%"%char]. rewrite app_assoc. by apply drop_last_percent_end.
    - change (filter _ []) with (@nil ascii). rewrite app_nil_r. by apply drop_last_percent_none. }
  rewrite <- Hb. unfold nt_negative. destruct (nt_sign a) as [[]|]; simpl; [done..|].
  destruct body as [|c l]; [done|]. simpl. specialize (Hhead c l eq_refl).
  destruct (Ascii.eqb_spec c "+"%char) as [->|]; [by exfalso; apply Hplus|done].
Qed.

Lemma stripped_fraction f :
  Forall is_digit f ->
  exists k, f = strip_trailing_zeros f ++ replicate k "0"%char /\ Forall is_digit (strip_trailing_zeros f) /\
    last (strip_trailing_zeros f) <> Some "0"%char.
Proof.
  intros Hf. destruct (strip_trailing_zeros_spec f) as (k & Hk & Hl). exists k. split_and!; try done.
  rewrite Hk in Hf. by apply Forall_app in Hf as [? _].
Qed.

(** A literal normalizes to a well-formed decimal text of the same number. *)
Lemma number_literal_spec a :
  nt_ok a ->
  exists neg int frac, number_literal (nt_chars a) = decimal_text neg int frac /\ well_formed neg int frac /\
    signed neg (digits_value (int ++ frac)) * 10 ^ nt_scale a = nt_value a * 10 ^ Z.of_nat (length frac).
Proof.
  intros Ha. pose proof Ha as (Hd & Hne & Hf). unfold number_literal. rewrite undecorated by done.
  set (rest := nt_digits a ++ match nt_frac a with Some f => "."%char :: f | None => [] end).
  assert (match (if nt_negative a then ["-"%char] else []) ++ rest with "-"%char :: _ => true | _ => false end = nt_negative a) as ->.
  { destruct (nt_negative a); [done|]. unfold rest. destruct (nt_digits a) as [|c l] eqn:Hl; [done|].
    apply Forall_cons in Hd as [Hc _]. simpl. destruct (decide (c = "-"%char)) as [->|Hm]; [by destruct not_digits as (_ & ? & _)|].
    by destruct c as [[] [] [] [] [] [] [] []]. }
  assert ((if nt_negative a then tail ((if nt_negative a then ["-"%char] else []) ++ rest) else
           (if nt_negative a then ["-"%char] else []) ++ rest) = rest) as -> by by destruct (nt_negative a).
  destruct (parts_chars (nt_digits a) (nt_frac a) Hd Hf) as [H0 H1]. fold rest in H0, H1. rewrite H0. simpl default.
  destruct (drop_extra_zeros_spec _ Hd Hne) as [Hnum Hval].
  assert (match drop_extra_zeros (nt_digits a) with [] => ["0"%char] | l => l end = drop_extra_zeros (nt_digits a)) as ->.
  { destruct Hnum as (_ & Hn & _). by destruct (drop_extra_zeros _). }
  assert (match split_char "."%char rest !! 1%nat with Some f => strip_trailing_zeros f | None => [] end =
          strip_trailing_zeros (nt_fraction a)) as ->.
  { unfold nt_fraction. rewrite <- H1. by destruct (split_char _ _ !! 1%nat). }
  set (int := drop_extra_zeros _) in *. destruct (stripped_fraction _ Hf) as (k & Hk & Hsd & Hlast).
  set (frac := strip_trailing_zeros _) in *.
  set (magnitude := match frac with [] => int | _ => int ++ "."%char :: frac end).
  assert (magnitude = decimal_text false int frac) as Hmag.
  { unfold magnitude, decimal_text. simpl. destruct frac; simpl; [by rewrite app_nil_r|done]. }
  assert (magnitude = ["0"%char] <-> int = ["0"%char] /\ frac = []) as Hzero.
  { unfold magnitude. destruct frac as [|c frac']; [naive_solver|]. split; [|by intros [_ ?]].
    destruct int as [|d [|]]; by destruct Hnum as (_ & ? & _). }
  set (neg := nt_negative a && negb (bool_decide (magnitude = ["0"%char]))).
  exists neg, int, frac. split_and!.
  - unfold neg. destruct (nt_negative a); simpl; [|done]. rewrite Hmag. by case_bool_decide.
  - split_and!; try done. unfold neg. intros [_ H%negb_true_iff]%andb_true_iff. apply bool_decide_eq_false in H. tauto.
  - assert (signed neg (digits_value (int ++ frac)) = signed (nt_negative a) (digits_value (int ++ frac))) as ->.
    { unfold neg. destruct (nt_negative a); [|done]. simpl. case_bool_decide as Hm; [|done]. apply Hzero in Hm as [-> ->]. done. }
    unfold nt_value, nt_scale. rewrite Hk, !digits_value_app, digits_value_zeros, length_replicate, !length_app, length_replicate.
    rewrite Hval, !Nat2Z.inj_add, !Z.pow_add_r by lia. destruct (nt_negative a); simpl; ring.
Qed.

Lemma well_formed_lowest neg int frac :
  well_formed neg int frac -> length frac = 0%nat \/ signed neg (digits_value (int ++ frac)) mod 10 <> 0.
Proof.
  intros (_ & Hf & Hl & _). destruct frac as [|f fr _] using rev_ind; [by left|right].
  rewrite last_snoc in Hl. apply Forall_app in Hf as [_ [Hf _]%Forall_cons]. unfold is_digit in Hf.
  assert (digit_val f <> 0) by (rewrite digit_val_zero; by intros ->).
  rewrite app_assoc, digits_value_snoc. destruct neg; simpl; Z.div_mod_to_equations; lia.
Qed.

Lemma decimal_text_inj neg int frac neg' int' frac' :
  well_formed neg int frac -> well_formed neg' int' frac' ->
  decimal_text neg int frac = decimal_text neg' int' frac' -> neg = neg' /\ int = int' /\ frac = frac'.
Proof.
  intros Hw Hw' Heq. pose proof (head_sign _ _ _ Hw) as Hs. pose proof (head_sign _ _ _ Hw') as Hs'.
  rewrite Heq in Hs. assert (neg = neg') as -> by congruence. unfold decimal_text in Heq. apply app_inv_head in Heq.
  destruct Hw as ((Hi & _) & Hf & _), Hw' as ((Hi' & _) & Hf' & _).
  destruct (split_unsigned int frac Hi Hf) as [H0 H1]. destruct (split_unsigned int' frac' Hi' Hf') as [H0' H1'].
  rewrite Heq in H0, H1. split_and!; congruence.
Qed.

(** Fractions that equal fractions are equal. *)
Lemma cross_equal x y v w f g s t :
  0 < s -> 0 < t -> x * s = v * f -> y * t = w * g -> 0 < f -> 0 < g -> (v * t = w * s <-> x * g = y * f).
Proof.
  intros Hs Ht Hx Hy Hf Hg.
  assert (x * g * (s * t) = v * t * (f * g) /\ y * f * (s * t) = w * s * (f * g)) as [H1 H2].
  { split; [transitivity (x * s * (g * t))|transitivity (y * t * (f * s))]; [ring|rewrite Hx; ring|ring|rewrite Hy; ring]. }
  split; intros H.
  - apply (Z.mul_reg_r _ _ (s * t)); [nia|]. by rewrite H1, H2, H.
  - apply (Z.mul_reg_r _ _ (f * g)); [nia|]. by rewrite <- H1, <- H2, H.
Qed.

(** Literals are compared as numbers: whatever their signs, separators, leading and
    trailing zeros and percent signs, two literals normalize to the same text exactly when
    they are the same rational number, and that text is a decimal in lowest terms (no
    superfluous zero, no negative zero). *)
Theorem number_literal_correct a b (Ha : nt_ok a) (Hb : nt_ok b) :
  (normalizeNumberLiteral (string_of_list_ascii (nt_chars a)) = normalizeNumberLiteral (string_of_list_ascii (nt_chars b)) <->
   nt_value a * 10 ^ nt_scale b = nt_value b * 10 ^ nt_scale a) /\
  exists neg int frac,
    list_ascii_of_string (normalizeNumberLiteral (string_of_list_ascii (nt_chars a))) = decimal_text neg int frac /\
    well_formed neg int frac.
Proof.
  unfold normalizeNumberLiteral. rewrite !list_ascii_of_string_of_list_ascii.
  destruct (number_literal_spec a Ha) as (neg & int & frac & Hta & Hwa & Hva).
  destruct (number_literal_spec b Hb) as (neg' & int' & frac' & Htb & Hwb & Hvb). rewrite Hta, Htb.
  split; [|by exists neg, int, frac].
  assert (0 < 10 ^ nt_scale a /\ 0 < 10 ^ nt_scale b /\ 0 < 10 ^ Z.of_nat (length frac) /\ 0 < 10 ^ Z.of_nat (length frac'))
    as (Pa & Pb & Pf & Pf') by (unfold nt_scale; split_and!; apply pow10_pos; lia).
  rewrite (cross_equal _ _ _ _ _ _ _ _ Pa Pb Hva Hvb Pf Pf'). split.
  - intros Heq. apply (f_equal list_ascii_of_string) in Heq. rewrite !list_ascii_of_string_of_list_ascii in Heq.
    by destruct (decimal_text_inj _ _ _ _ _ _ Hwa Hwb Heq) as (-> & -> & ->).
  - intros Heq.
    destruct (canonical_form_unique _ _ _ _ (well_formed_lowest _ _ _ Hwa) (well_formed_lowest _ _ _ Hwb) Heq) as [Hxy Hlen].
    by destruct (well_formed_unique neg int frac neg' int' frac' Hwa Hwb Hlen Hxy) as (-> & -> & ->).
Qed.

Definition nt (s : option bool) (int : string) (frac : option string) (pct : bool) : NumberText :=
  mkNumberText s (list_ascii_of_string int) (list_ascii_of_string <$> frac) pct.

Lemma number_literal_correct_witness :
  (normalizeNumberLiteral "+1,020.50%" = normalizeNumberLiteral "01020.5" <-> 102050 * 10 = 10205 * 100) /\
  exists neg int frac, list_ascii_of_string (normalizeNumberLiteral "+1,020.50%") = decimal_text neg int frac /\
    well_formed neg int frac.
Proof.
  apply (number_literal_correct (nt (Some false) "1,020" (Some "50") true) (nt None "01020" (Some "5") false));
    (split; [|split]); try done; unfold nt_digits, nt_fraction, nt; simpl; repeat constructor; done.
Defined.
