(* ===== verification/SemanticRelations.v ===== *)
(** * Semantic support: relations

    The middle layer of [src/src/assistant/semantic-support.ts]: what a clause asserts
    (ratios, rank stability, quantities of fields, statuses of subjects, polarity) and the
    check of one clause against the supports, [hasClauseSemanticSupport]. *)

From S2P Require Import Prelude Digits EcmaRegExp Text SemanticTokens.

Local Open Scope Z_scope.

(** ** Ratios and rank stability *)

Definition RE_CIRCULARITY : regexp :=
  Eval vm_compute in
    re "\b(?:C|circularity)\s*(?:=|(?:component\s+)?(?:is|has))?\s*([-+]?[0-9]+(?:\.[0-9]+)?)\s*\/\s*([-+]?[0-9]+(?:\.[0-9]+)?)" "giu".

Definition ratio (m : RegExpMatch) : option string :=
  match group m 1, group m 2 with
  | Some a, Some b => Some (normalizeNumberLiteral a +:+ "/" +:+ normalizeNumberLiteral b)%string
  | _, _ => None
  end.

Definition circularityRatios (value : string) : list string := omap ratio (re_matchAll RE_CIRCULARITY value).

Definition circularityRatiosArePreserved (statement : string) (supportTexts : list string) : bool :=
  forallb (has (supportTexts ≫= circularityRatios)) (circularityRatios statement).

Definition RE_RANK_EQUALS : regexp := Eval vm_compute in re "\brank\s+stable\s*=\s*(true|false)\b" "giu".
Definition RE_RANK_STABLE : regexp := Eval vm_compute in re "\brank\s+(?:is\s+)?(not\s+)?stable\b(?!\s*=)" "giu".
Definition RE_STABLE_RANK : regexp := Eval vm_compute in re "\b(unstable|stable)\s+rank\b" "giu".
Definition RE_RANK_STABILITY : regexp :=
  Eval vm_compute in re "\brank\s+stability\s+(?:is\s+)?(unstable|stable)\b" "giu".

(** The values found so far with the intervals they occupy; a match that overlaps one of
    them is skipped. *)
Definition record_value (parse : RegExpMatch -> bool) (st : list (Z * Z) * list bool) (m : RegExpMatch) :
    list (Z * Z) * list bool :=
  let start := m_index m in
  let finish := start + length_ (whole m) in
  if existsb (fun o => (start <? o.2) && (o.1 <? finish)) st.1 then st
  else (st.1 ++ [(start, finish)], st.2 ++ [parse m]).

Definition group_is (i : nat) (s : string) (m : RegExpMatch) : bool :=
  match group m i with Some g => String.eqb (toLowerCase g) s | None => false end.

Definition rankStabilityValues (value : string) : list bool :=
  let record parse r st := fold_left (record_value parse) (re_matchAll r value) st in
  (record (group_is 1 "stable") RE_RANK_STABILITY
     (record (group_is 1 "stable") RE_STABLE_RANK
        (record (fun m => match group m 1 with None => true | Some _ => false end) RE_RANK_STABLE
           (record (group_is 1 "true") RE_RANK_EQUALS ([], []))))).2.

Definition rankStabilityRelationsArePreserved (statement : string) (supportTexts : list string) : bool :=
  forallb (fun v => existsb (Bool.eqb v) (supportTexts ≫= rankStabilityValues)) (rankStabilityValues statement).

(** ** Quantities and statuses *)

Record RelationToken := mkRelationToken { raw : string; canonical : string }.

Record QuantitativeRelation := mkQuantitativeRelation {
  q_entity : option string;
  q_field : string;
  q_value : string;
  q_unit : option string
}.

Record StatusRelation := mkStatusRelation {
  s_entity : option string;
  s_subject : list string;
  s_status : string
}.

Definition RE_SENTENCE : regexp :=
  Eval vm_compute in re "(?:[!?;]+|(?<![0-9])\.+|\.+(?![0-9])|\n+)" "gu".

Definition relationSentences (value : string) : list string :=
  filter (fun s => is_empty s = false) (trim <$> re_split RE_SENTENCE value).

Definition RE_RELATION_TOKEN : regexp :=
  Eval vm_compute in re "(?:[0-9]{1,3}(?:,[0-9]{3})+|[0-9]+)(?:\.[0-9]+)?|[a-z]+(?:-[a-z0-9]+)*" "gu".

(** The tokens of the pattern are no functions, so the test for an identifier is defined. *)
Definition is_identifier (token : string) : bool :=
  match isIdentifierToken token with Ok b => b | Throw _ => false end.

Definition relationTokens (value : string) : list RelationToken :=
  re_match_all RE_RELATION_TOKEN (replaceAll "%"%char " percent " (toLowerCase value)) ≫= (fun raw =>
    (fun part => mkRelationToken part (canonicalSemanticToken part)) <$>
      (if contains "-" raw && negb (is_identifier raw) then split "-"%char raw else [raw])).

Record Quantity := mkQuantity { qt_start : nat; qt_end : nat; qt_value : string; qt_unit : option string }.

Definition unit_at (tokens : list RelationToken) (i : nat) : option string :=
  match tokens !! i with
  | Some t => if has QUANTITY_UNITS (canonical t) then Some (canonical t) else None
  | None => None
  end.

(** The unit before a token, if there is one. *)
Definition unit_before (tokens : list RelationToken) (i : nat) : option string :=
  match i with O => None | S j => unit_at tokens j end.

(** The last of the number words, and the [and]s between them, from [i] on. *)
Fixpoint number_words_end (fuel : nat) (tokens : list RelationToken) (i : nat) : nat :=
  match fuel with
  | O => i
  | S fuel =>
      match tokens !! S i with
      | Some t =>
          if has NUMBER_WORD_TOKENS (raw t) || String.eqb (raw t) "and" then number_words_end fuel tokens (S i) else i
      | None => i
      end
  end.

Definition quantityAt (tokens : list RelationToken) (index : nat) : option Quantity :=
  match tokens !! index with
  | None => None
  | Some token =>
      if isNumericToken (raw token) then
        let following := unit_at tokens (S index) in
        Some (mkQuantity index (match following with Some _ => S index | None => index end)
                (normalizeNumberLiteral (raw token))
                (match following with Some u => Some u | None => unit_before tokens index end))
      else if negb (has NUMBER_WORD_TOKENS (raw token)) then None
      else
        let last_ := number_words_end (length tokens) tokens index in
        let words := take (S last_ - index) (drop index tokens) in
        match numberWordValues (join " " (raw <$> words)) with
        | [value] =>
            let following := unit_at tokens (S last_) in
            Some (mkQuantity index (match following with Some _ => S last_ | None => last_ end) value following)
        | _ => None
        end
  end.

(** The first field among the tokens, unless a boundary comes before it. *)
Fixpoint first_field (l : list RelationToken) : option string :=
  match l with
  | [] => None
  | t :: l =>
      if has DISCLOSURE_FIELD_TOKENS (canonical t) then Some (canonical t)
      else if has RELATION_BOUNDARIES (canonical t) then None
      else first_field l
  end.

(** Up to six tokens before the quantity, nearest first, then up to four after it. *)
Definition nearestField (tokens : list RelationToken) (quantityStart quantityEnd : nat) : option string :=
  match first_field (take 6 (reverse (take quantityStart tokens))) with
  | Some f => Some f
  | None => first_field (take 4 (drop (S quantityEnd) tokens))
  end.

Definition NOT_BATTERY_NAMES : list string := ["has"; "is"; "module"; "pack"; "record"; "state"].

(** The last entity named by the tokens of [l]; [next] is the token after each of them. *)
Fixpoint last_entity (l : list (RelationToken * option RelationToken)) (entity : option string) :
    result exn (option string) :=
  match l with
  | [] => Ok entity
  | (token, next) :: l =>
      let named :=
        match next with
        | Some n =>
            if String.eqb (canonical token) "battery" && negb (has NOT_BATTERY_NAMES (canonical n))
            then Some ("battery:" +:+ canonical n)%string else None
        | None => None
        end in
      match named with
      | Some e => last_entity l (Some e)
      | None =>
          identifier ← isIdentifierToken (canonical token);
          last_entity l (if identifier && negb (isNumericToken (canonical token))
                         then Some ("id:" +:+ canonical token)%string else entity)
      end
  end.

Definition explicitEntityBefore (tokens : list RelationToken) (index lowerBound : nat) :
    result exn (option string) :=
  last_entity (take (index - lowerBound)
                 (drop lowerBound (zip tokens ((Some <$> tail tokens) ++ [None])))) None.

(** The loop resumes after each quantity. *)
Fixpoint quantities_from (fuel : nat) (tokens : list RelationToken) (index : nat) :
    result exn (list QuantitativeRelation) :=
  match fuel with
  | O => Ok []
  | S fuel =>
      if (length tokens <=? index)%nat then Ok []
      else
        match quantityAt tokens index with
        | None => quantities_from fuel tokens (S index)
        | Some parsed =>
            match nearestField tokens (qt_start parsed) (qt_end parsed) with
            | None => quantities_from fuel tokens (S (qt_end parsed))
            | Some field =>
                entity ← explicitEntityBefore tokens (qt_start parsed) 0;
                rest ← quantities_from fuel tokens (S (qt_end parsed));
                Ok (mkQuantitativeRelation entity field (qt_value parsed) (qt_unit parsed) :: rest)
            end
        end
  end.

Definition quantitativeRelations (value : string) : result exn (list QuantitativeRelation) :=
  flat_map_result (fun sentence =>
    let tokens := relationTokens sentence in quantities_from (length tokens) tokens 0) (relationSentences value).

(** The start of the segment of tokens that ends before [index]: after the last boundary. *)
Fixpoint segment_start (tokens : list RelationToken) (index : nat) : nat :=
  match index with
  | O => O
  | S j =>
      match tokens !! j with
      | Some t => if has RELATION_BOUNDARIES (canonical t) then index else segment_start tokens j
      | None => segment_start tokens j
      end
  end.

Definition subject_token (candidate : string) : bool :=
  negb (has RELATION_SUBJECT_STOPWORDS candidate) && negb (has NEGATORS candidate) &&
  negb (has RELATIONAL_STATUS_TOKENS candidate) && negb (String.eqb candidate "route").

Definition status_at (tokens : list RelationToken) (index : nat) (token : RelationToken) :
    result exn (list StatusRelation) :=
  if negb (has RELATIONAL_STATUS_TOKENS (canonical token)) then Ok []
  else
    let start := segment_start tokens index in
    let subjectTokens := canonical <$> take (index - start) (drop start tokens) in
    entity ← explicitEntityBefore tokens index start;
    Ok [mkStatusRelation entity (set_of (filter (fun c => subject_token c = true) subjectTokens)) (canonical token)].

Definition statuses_of (tokens : list RelationToken) : result exn (list StatusRelation) :=
  flat_map_result (fun p => status_at tokens p.1 p.2) (zip (seq 0 (length tokens)) tokens).

Definition statusRelations (value : string) : result exn (list StatusRelation) :=
  flat_map_result (fun sentence => statuses_of (relationTokens sentence)) (relationSentences value).

Definition unit_aliases : list (string * string) :=
  [("%", "percent"); ("percentage", "percent"); ("mile", "miles"); ("cycle", "cycles"); ("year", "years");
   ("day", "days"); ("hour", "hours")]%string.
Definition canonicalUnit (value : string) : string := default value (map_get value unit_aliases).

Definition entitiesAreCompatible (left right : option string) : bool :=
  match left, right with Some l, Some r => String.eqb l r | _, _ => true end.

Definition unitsAreCompatible (left right : option string) : bool :=
  match left, right with Some l, Some r => String.eqb (canonicalUnit l) (canonicalUnit r) | _, _ => true end.

Definition quantitativeRelationMatches (claim support : QuantitativeRelation) : bool :=
  String.eqb (q_field claim) (q_field support) && String.eqb (q_value claim) (q_value support) &&
  unitsAreCompatible (q_unit claim) (q_unit support) && entitiesAreCompatible (q_entity claim) (q_entity support).

Definition statusRelationMatches (claim support : StatusRelation) : bool :=
  if negb (String.eqb (s_status claim) (s_status support)) ||
     negb (entitiesAreCompatible (s_entity claim) (s_entity support)) then false
  else if bool_decide (s_subject claim = []) || bool_decide (s_subject support = []) then true
  else at_least (tokenOverlap (s_subject claim) (s_subject support)) 1 2 ||
       at_least (tokenOverlap (s_subject support) (s_subject claim)) 1 2.

Definition factualRelationsArePreserved (statement : string) (supportTexts : list string) : result exn bool :=
  claimedQuantities ← quantitativeRelations statement;
  suppliedQuantities ← flat_map_result quantitativeRelations supportTexts;
  if negb (forallb (fun c => existsb (quantitativeRelationMatches c) suppliedQuantities) claimedQuantities)
  then Ok false
  else
    claimedStatuses ← statusRelations statement;
    suppliedStatuses ← flat_map_result statusRelations supportTexts;
    Ok (forallb (fun c => existsb (statusRelationMatches c) suppliedStatuses) claimedStatuses).

(** ** Clauses *)

Definition RE_CLAUSE : regexp :=
  Eval vm_compute in
    re "(?:[!?;]+|(?<![0-9])\.+|\.+(?![0-9])|,\s*(?:so|therefore|thus|hence|consequently)\b|\b(?:but|however)\b|(?<!not\s)\byet\b|\band\s+(?=(?:(?:it|they|this|that|the\s+[a-z0-9-]+|[a-z0-9-]+)\s+)?(?:is|are|was|were|has|have|had|can|could|will|would|must|may|should|confirm(?:s|ed)?|report(?:s|ed)?|record(?:s|ed)?|include(?:s|d)?|indicat(?:e|es|ed)|show(?:s|ed)?|establish(?:es|ed)?|prov(?:e|es|ed))\b)|\b(?:therefore|thus|hence|consequently|which means|meaning that|thereby|indicat(?:e|es|ed|ing)|show(?:s|ed|ing)?|prov(?:e|es|ed|ing)|demonstrat(?:e|es|ed|ing)|establish(?:es|ed|ing)?)\b)" "giu".
Definition RE_LETTER_OR_NUMBER : regexp := Eval vm_compute in re "[\p{L}\p{N}]" "u".

Definition factualClauses (value : string) : list string :=
  filter (fun c => re_test RE_LETTER_OR_NUMBER c = true) (trim <$> re_split RE_CLAUSE value).

Definition numbersArePreserved (statement support : string) : bool :=
  forallb (has (numericTokens support)) (numericTokens statement).

(** The concept of a word: [materialTokens] of the inherited function is a TypeError. *)
Definition word_concept (word : string) : result exn (option string) :=
  let concept := canonicalSemanticToken word in
  if is_function concept then Throw TypeError
  else Ok (if negb (has (materialTokens concept) concept) || has NEGATORS word then None else Some concept).

Definition polarity_of (words : list string) (index : nat) (word : string) : result exn (list (string * bool)) :=
  concept ← word_concept word;
  Ok (match concept with
      | Some c => [(c, existsb (has NEGATORS) (take (index - (index - 3)) (drop (index - 3) words)))]
      | None => []
      end).

(** A later occurrence of a concept replaces an earlier one in the map. *)
Definition polarityByConcept (value : string) : result exn (list (string * bool)) :=
  let words := lexicalTokens value ≫= (fun word => if contains "-" word then split "-"%char word else [word]) in
  pairs ← flat_map_result (fun p => polarity_of words p.1 p.2) (zip (seq 0 (length words)) words);
  Ok (fold_left (fun m p => map_set p.1 p.2 m) pairs []).

Definition polarityIsPreserved (statement : string) (supportTexts : list string) : result exn bool :=
  statementPolarity ← polarityByConcept statement;
  supportPolarities ← map_result polarityByConcept supportTexts;
  Ok (forallb (fun p =>
        let matching := omap (map_get p.1) supportPolarities in
        bool_decide (matching = []) || existsb (Bool.eqb p.2) matching) statementPolarity).

Definition incompatibleTermsArePreserved (statement : string) (supportTexts : list string) : bool :=
  let statementTokens := materialTokens statement in
  let supportTokens := materialTokens (join " " supportTexts) in
  forallb (fun terms =>
    let stated := filter (fun t => has statementTokens t = true) terms in
    let supplied := filter (fun t => has supportTokens t = true) terms in
    bool_decide (stated = []) || bool_decide (supplied = []) || shares stated supplied) INCOMPATIBLE_TERM_GROUPS.

Definition accountableAuthorityTermsArePreserved (statement : string) (supportTexts : list string) : bool :=
  let stated := materialTokens statement in
  let supplied := materialTokens (join " " supportTexts) in
  forallb (fun t => negb (has stated t) || has supplied t) ACCOUNTABLE_AUTHORITY_TOKENS.

Definition hasClauseSemanticSupport (clause : string) (supportTexts : list string) : result exn bool :=
  let clauseTokens := materialTokens clause in
  match clauseTokens with
  | [] => Ok (isNonFactualBoilerplate clause)
  | _ =>
      if negb (at_least (tokenOverlap clauseTokens (materialTokens (join " " supportTexts))) 1 2 &&
               numbersArePreserved clause (join " " supportTexts)) then Ok false
      else
        and_then (polarityIsPreserved clause supportTexts)
          (if negb (incompatibleTermsArePreserved clause supportTexts &&
                    accountableAuthorityTermsArePreserved clause supportTexts &&
                    circularityRatiosArePreserved clause supportTexts &&
                    rankStabilityRelationsArePreserved clause supportTexts) then Ok false
           else factualRelationsArePreserved clause supportTexts)
  end.

Definition semanticallySupportedAfterNormalization (statement : string) (supportTexts : list string)
    (requireEachSupportContribution : bool) : result exn bool :=
  and_then (every (fun clause => hasClauseSemanticSupport clause supportTexts) (factualClauses statement))
    (Ok (match materialTokens statement with
         | [] => isNonFactualBoilerplate statement
         | statementTokens =>
             let supportTokenSets := materialTokens <$> supportTexts in
             if negb (at_least (tokenOverlap statementTokens (set_of (concat supportTokenSets))) 1 2) then false
             else if negb requireEachSupportContribution || (length supportTokenSets <=? 1)%nat then true
             else
               forallb (fun p =>
                 let others := concat (omap (fun q => if (q.1 =? p.1)%nat then None else Some q.2)
                                          (zip (seq 0 (length supportTokenSets)) supportTokenSets)) in
                 existsb (fun t => has p.2 t && negb (has others t)) statementTokens)
                 (zip (seq 0 (length supportTokenSets)) supportTokenSets)
         end)).
