(* ===== verification/SemanticSupport.v ===== *)
(** * Semantic support: definitions, routes and the joint check

    The upper layer of [src/src/assistant/semantic-support.ts]: definitions of terms and
    abbreviations, the components of route assessments, the rewriting of equivalent
    wordings, and [hasJointSemanticSupport], the check that cited records support a
    statement. A call that ends with a TypeError is [Throw TypeError]. *)

From S2P Require Import Prelude Digits EcmaRegExp Text SemanticTokens SemanticRelations.

Local Open Scope Z_scope.

(** ** Rewriting of equivalent wordings *)

Definition RE_GATE_DEFINITION : regexp :=
  Eval vm_compute in
    re "\bG\s+(?:stands\s+for|means|denotes|represents|is\s+defined\s+as|is)\s+(?:the\s+)?technical\s+and\s+safety\s+gate\b" "giu".
Definition RE_CIRCULARITY_DEFINITION : regexp :=
  Eval vm_compute in
    re "\bC\s+(?:stands\s+for|means|denotes|represents|is\s+defined\s+as|is)\s+circularity\b" "giu".
Definition RE_INDICATORS_DEFINITION : regexp :=
  Eval vm_compute in
    re "\bI\s+(?:stands\s+for|means|denotes|represents|is\s+defined\s+as|is)\s+environmental\s+indicators?\b" "giu".
Definition RE_ECONOMICS_DEFINITION : regexp :=
  Eval vm_compute in
    re "\bE\s+(?:stands\s+for|means|denotes|represents|is\s+defined\s+as|is)\s+econom(?:ics?|ic)\b" "giu".
Definition RE_ADEQUACY_DEFINITION : regexp :=
  Eval vm_compute in
    re "\bA\s+(?:stands\s+for|means|denotes|represents|is\s+defined\s+as|is)\s+information\s+adequacy\b" "giu".
Definition RE_UNCERTAINTY_DEFINITION : regexp :=
  Eval vm_compute in
    re "\bU\s+(?:stands\s+for|means|denotes|represents|is\s+defined\s+as|is)\s+uncertainty\b" "giu".

(** [value.replace(..).replace(..)], the first replacement of the list first *)
Definition replaces (rs : list (regexp * string)) (value : string) : string :=
  fold_left (fun s p => re_replace p.1 p.2 s) rs value.

Definition normalizeScopedRouteDefinitions : string -> string :=
  replaces
    [(RE_GATE_DEFINITION, "technical and safety gate"); (RE_CIRCULARITY_DEFINITION, "circularity");
     (RE_INDICATORS_DEFINITION, "environmental indicators"); (RE_ECONOMICS_DEFINITION, "economics");
     (RE_ADEQUACY_DEFINITION, "information adequacy"); (RE_UNCERTAINTY_DEFINITION, "uncertainty")]%string.

Definition RE_MAPPING_TO : regexp :=
  Eval vm_compute in
    re "\b(?:mapping|maps?)\s+([^.;]{0,180}\b(?:abbreviation|acronym)\s+[A-Z][A-Z0-9-]{1,15})\s+to\b" "gu".
Definition RE_STANDS_FOR : regexp :=
  Eval vm_compute in
    re "\b((?:approved\s+)?(?:abbreviation|acronym)\s+[A-Z][A-Z0-9-]{1,15}(?:\s+for\s+battery\s+[A-Z0-9-]+)?)\s+(?:stands\s+for|refers\s+to|means|is\s+defined\s+as)\b" "giu".
Definition RE_USES_TO_MEAN : regexp :=
  Eval vm_compute in re "\buses\s+([A-Z][A-Z0-9-]{1,15})\b([^.;]{0,100}?)\s+to\s+mean\b" "gu".
Definition RE_ISSUER_GLOSSARY : regexp := Eval vm_compute in re "\bissuer-approved\s+glossary\b" "iu".
Definition RE_APPROVED_TERM : regexp :=
  Eval vm_compute in
    re "\bapproved\s+(?=(?:abbreviation|acronym)\s+[A-Z][A-Z0-9-]{1,15}\b[^.;]{0,100}\bhas\s+glossary-definition\b)" "giu".
Definition RE_ABBREVIATION : regexp :=
  Eval vm_compute in re "\b(?:abbreviation|acronym)\s+[A-Z][A-Z0-9-]{1,15}\b" "iu".
Definition RE_GLOSSARY : regexp := Eval vm_compute in re "\bglossary\b" "iu".
Definition RE_AS_DEFINED_IN : regexp := Eval vm_compute in re "\bas\s+defined\s+in\b" "giu".

Definition normalizeScopedGlossaryRelations (value : string) : string :=
  let normalized :=
    replaces
      [(RE_MAPPING_TO, "$1 has glossary-definition"); (RE_STANDS_FOR, "$1 has glossary-definition");
       (RE_USES_TO_MEAN, "uses abbreviation $1$2 with glossary-definition")]%string value in
  let normalized :=
    if re_test RE_ISSUER_GLOSSARY normalized then re_replace RE_APPROVED_TERM "" normalized else normalized in
  if re_test RE_ABBREVIATION value && re_test RE_GLOSSARY value
  then re_replace RE_AS_DEFINED_IN "as per" normalized else normalized.

Definition RE_NO_CONFLICT : regexp := Eval vm_compute in re "\bno conflicts?\b" "giu".
Definition RE_GATE_IS : regexp :=
  Eval vm_compute in
    re "\b(?:the\s+)?technical\s+and\s+safety\s+gate(?:\s*\(\s*G\s*\))?\s+(?:is|was|remains)\s+(PASS|FAIL)\b" "giu".
Definition RE_G_IS : regexp := Eval vm_compute in re "\b(?:the\s+)?G\s+(?:component\s+)?is\s+(PASS|FAIL)\b" "gu".
Definition RE_C_IS : regexp := Eval vm_compute in re "\bC\s+(?:component\s+)?is\s+(?=[0-9])" "gu".
Definition RE_I_INCLUDES : regexp := Eval vm_compute in re "\bI\s+(?:component\s+)?includes\s+" "gu".
Definition RE_E_HAS : regexp :=
  Eval vm_compute in re "\bE\s+(?:component\s+)?(?:has|is)\s+(?:an?\s+)?(?=NPV\b)" "gu".
Definition RE_A_SHOWS : regexp :=
  Eval vm_compute in re "\bA\s+(?:component\s+)?(?:shows|is|has)\s+(?=usable-field coverage\b)" "gu".
Definition RE_U_HAS : regexp :=
  Eval vm_compute in
    re "\bU\s+(?:component\s+)?(?:has|is|indicates)\s+(?:an?\s+)?(?=eligibility-pass frequency\b)" "gu".
Definition RE_COMMA_COMPONENT : regexp := Eval vm_compute in re ",\s*(?=(?:G|C|I|E|A|U)\s*=)" "gu".
Definition RE_COMMA_AS : regexp := Eval vm_compute in re ",\s*(?=as\s+(?:per|defined in|confirmed by)\b)" "giu".
Definition RE_BATTERY_NAMED : regexp := Eval vm_compute in re "\bbattery\s+[a-z0-9-]+\b" "iu".
Definition RE_AVAILABLE_FOR_LISTING : regexp :=
  Eval vm_compute in
    re "\bis\s+(?:currently\s+)?(?:in\s+a\s+marketplace\s+state\s+)?available(?:-|\s+)for(?:-|\s+)listing(?:\s+in\s+(?:the\s+)?marketplace)?\b" "giu".

Definition normalizeSemanticEquivalences (value : string) : string :=
  let normalized :=
    replaces
      [(RE_NO_CONFLICT, "conflicts 0"); (RE_GATE_IS, "G=$1"); (RE_G_IS, "G=$1"); (RE_C_IS, "C=");
       (RE_I_INCLUDES, "I="); (RE_E_HAS, "E="); (RE_A_SHOWS, "A="); (RE_U_HAS, "U=");
       (RE_COMMA_COMPONENT, "; "); (RE_COMMA_AS, "; ")]%string
      (normalizeScopedRouteDefinitions (normalizeScopedGlossaryRelations value)) in
  if re_test RE_BATTERY_NAMED normalized
  then re_replace RE_AVAILABLE_FOR_LISTING "has a marketplace state available-for-listing" normalized
  else normalized.

(** ** Definitions of abbreviations *)

Record GlossaryDefinitionTuple := mkGlossaryTuple {
  g_abbreviation : string;
  g_approved : bool;
  g_battery : option string;
  g_target : list string
}.

Definition RE_TARGET_TAIL : regexp :=
  Eval vm_compute in re ",\s*(?:as\s+(?:per|defined|confirmed)|according\s+to|not\b)" "iu".
Definition RE_OUTER_QUOTES : regexp := Eval vm_compute in re "^[\u0022']|[\u0022']$" "gu".

Definition definitionTargetTokens (value : string) : list string :=
  materialTokens
    (match head (re_split RE_TARGET_TAIL value) with
     | Some first => trim (re_replace RE_OUTER_QUOTES "" first)
     | None => ""
     end).

Definition definitionTargetsMatch (left right : list string) : bool :=
  at_least (tokenOverlap left right) 3 4 && at_least (tokenOverlap right left) 1 2.

Definition RE_BATTERY_IDENTIFIER : regexp := Eval vm_compute in re "\bbattery\s+([a-z0-9-]+)" "iu".
Definition batteryIdentifier (value : string) : option string :=
  m ← re_match RE_BATTERY_IDENTIFIER value; group m 1.

Definition RE_APPROVED : regexp := Eval vm_compute in re "\b(?:issuer-)?approved\b" "iu".

(** The local function [push] of [glossaryDefinitionTuples] *)
Definition glossary_tuple (abbreviation target : option string) (context : string)
    (explicitBattery : option string) : list GlossaryDefinitionTuple :=
  match abbreviation, target with
  | Some abbreviation, Some target =>
      match definitionTargetTokens target with
      | [] => []
      | tokens =>
          [mkGlossaryTuple (toLowerCase abbreviation) (re_test RE_APPROVED context)
             (toLowerCase <$> match explicitBattery with Some b => Some b | None => batteryIdentifier context end)
             tokens]
      end
  | _, _ => []
  end.

Definition RE_SEGMENT : regexp := Eval vm_compute in re "[.;\n]+" "gu".
Definition RE_TERM_STANDS_FOR : regexp :=
  Eval vm_compute in
    re "\b(?:the\s+)?(?:approved\s+)?(?:abbreviation|acronym)\s+([A-Z][A-Z0-9-]{1,15})(?:\s+for\s+battery\s+([A-Z0-9-]+))?\s+(?:stands\s+for|refers\s+to|means|is\s+defined\s+as)\s+(.+)$" "giu".
Definition RE_NAMED_TERM_STANDS_FOR : regexp :=
  Eval vm_compute in
    re "\b(?:the\s+)?(?:approved\s+)?([A-Z][A-Z0-9-]{1,15})\s+(?:abbreviation|acronym)(?:\s+for\s+battery\s+([A-Z0-9-]+))?\s+(?:stands\s+for|refers\s+to|means|is\s+defined\s+as)\s+(.+)$" "gu".
Definition RE_MAPS_TERM_TO : regexp :=
  Eval vm_compute in
    re "\b(?:mapping|maps?)\s+[^.;]{0,180}?\b(?:abbreviation|acronym)\s+([A-Z][A-Z0-9-]{1,15})\s+to\s+(.+)$" "giu".
Definition RE_BATTERY_USES_TERM : regexp :=
  Eval vm_compute in
    re "\bbattery\s+([A-Z0-9-]+)\s+uses\s+([A-Z][A-Z0-9-]{1,15})\b[^.;]{0,120}?\bto\s+mean\s+(.+)$" "giu".
Definition RE_TERM_IS_FOR : regexp :=
  Eval vm_compute in
    re "\b([A-Z][A-Z0-9-]{1,15})\s+is\s+the\s+(?:approved\s+)?(?:abbreviation|acronym)\s+for\s+(.+)$" "gu".

Definition glossary_tuples_of (segment : string) : list GlossaryDefinitionTuple :=
  (re_matchAll RE_TERM_STANDS_FOR segment ≫= fun m => glossary_tuple (group m 1) (group m 3) segment (group m 2)) ++
  (re_matchAll RE_NAMED_TERM_STANDS_FOR segment ≫= fun m => glossary_tuple (group m 1) (group m 3) segment (group m 2)) ++
  (re_matchAll RE_MAPS_TERM_TO segment ≫= fun m => glossary_tuple (group m 1) (group m 2) segment None) ++
  (re_matchAll RE_BATTERY_USES_TERM segment ≫= fun m => glossary_tuple (group m 2) (group m 3) segment (group m 1)) ++
  (re_matchAll RE_TERM_IS_FOR segment ≫= fun m => glossary_tuple (group m 1) (group m 2) segment None).

Definition glossaryDefinitionTuples (value : string) : list GlossaryDefinitionTuple :=
  re_split RE_SEGMENT value ≫= glossary_tuples_of.

Definition glossary_supports (claim support : GlossaryDefinitionTuple) : bool :=
  String.eqb (g_abbreviation claim) (g_abbreviation support) &&
  (negb (g_approved claim) || g_approved support) &&
  match g_battery claim with
  | None => true
  | Some b => match g_battery support with Some b' => String.eqb b' b | None => false end
  end &&
  definitionTargetsMatch (g_target claim) (g_target support).

Definition glossaryDefinitionTuplesArePreserved (statement : string) (supportTexts : list string) : bool :=
  let supplied := supportTexts ≫= glossaryDefinitionTuples in
  forallb (fun claim => existsb (glossary_supports claim) supplied) (glossaryDefinitionTuples statement).

(** ** Ordinary definitions *)

Inductive DefinitionKind := kind_define | kind_mean | kind_refer | kind_stand.

#[global] Instance DefinitionKind_eq_dec : EqDecision DefinitionKind.
Proof. solve_decision. Defined.

Record OrdinaryDefinitionTuple := mkOrdinaryTuple {
  o_kind : DefinitionKind;
  o_object : list string;
  o_subject : list string
}.

Definition RE_DEFINITION_SEGMENT : regexp :=
  Eval vm_compute in re "(?:[.;\n]+|\bwhile\b|\bwhereas\b)" "giu".
Definition RE_COMPONENT_DEFINITION : regexp :=
  Eval vm_compute in
    re "^\s*[GCIEAU]\s+(?:stands\s+for|means|denotes|represents|is\s+defined\s+as|is)\b" "iu".
Definition RE_GLOSSARY_WORD : regexp := Eval vm_compute in re "\b(?:abbreviation|acronym|glossary)\b" "iu".
Definition RE_USES_MEAN : regexp :=
  Eval vm_compute in re "\buses\s+[A-Z][A-Z0-9-]{1,15}\b[^.;]{0,120}\bto\s+mean\b" "u".
Definition RE_DEFINES : regexp :=
  Eval vm_compute in
    re "^\s*(.+?)\s+(defines?|means?|refers?\s+to|stands?\s+for)\s+(.+?)\s*$" "iu".

Definition definition_kind (relation : string) : DefinitionKind :=
  if startsWith "defin" relation then kind_define
  else if startsWith "mean" relation then kind_mean
  else if startsWith "refer" relation then kind_refer
  else kind_stand.

Definition ordinary_tuple (segment : string) : option OrdinaryDefinitionTuple :=
  if re_test RE_COMPONENT_DEFINITION segment || re_test RE_GLOSSARY_WORD segment || re_test RE_USES_MEAN segment
  then None
  else
    m ← re_match RE_DEFINES segment;
    subject ← group m 1; relation ← group m 2; object ← group m 3;
    match materialTokens subject, materialTokens object with
    | [], _ | _, [] => None
    | subject, object => Some (mkOrdinaryTuple (definition_kind (toLowerCase relation)) object subject)
    end.

Definition ordinaryDefinitionTuples (value : string) : list OrdinaryDefinitionTuple :=
  omap ordinary_tuple (re_split RE_DEFINITION_SEGMENT value).

Definition ordinary_supports (claim support : OrdinaryDefinitionTuple) : bool :=
  bool_decide (o_kind claim = o_kind support) &&
  at_least (tokenOverlap (o_subject claim) (o_subject support)) 3 5 &&
  at_least (tokenOverlap (o_subject support) (o_subject claim)) 1 2 &&
  at_least (tokenOverlap (o_object claim) (o_object support)) 3 5 &&
  at_least (tokenOverlap (o_object support) (o_object claim)) 1 2.

Definition ordinaryDefinitionTuplesArePreserved (statement : string) (supportTexts : list string) : bool :=
  let supplied := supportTexts ≫= ordinaryDefinitionTuples in
  forallb (fun claim => existsb (ordinary_supports claim) supplied) (ordinaryDefinitionTuples statement).

(** ** Routes *)

Record RouteSupportScope := mkScope { scope_subject : string; scope_content : string }.

(** [tokens.filter((token, index) => ...)] of the last token *)
Definition drop_last_if (p : string -> bool) (l : list string) : list string :=
  match last l with Some t => if p t then take (length l - 1) l else l | None => l end.

Definition canonicalRouteSubject (value : string) : string :=
  let tokens := lexicalTokens value ≫= split "-"%char in
  let tokens := match tokens with
                | first :: rest => (if String.eqb first "the" then [] else [first]) ++ rest
                | [] => []
                end in
  let tokens := filter (fun t => is_empty t = false) tokens in
  join " " (drop_last_if (has ["assessment"; "result"; "route"]%string) tokens).

Definition RE_SCOPE : regexp :=
  Eval vm_compute in re "(?:^|[\n.])\s*([^:\n.]{2,80}?)\s*:\s*G\s*=" "giu".

Definition scopes_of (content : string) : list RouteSupportScope :=
  omap (fun m =>
    let subject := canonicalRouteSubject (default "" (group m 1)) in
    if is_empty subject then None else Some (mkScope subject content)) (re_matchAll RE_SCOPE content).

Definition routeSupportScopes (supportTexts : list string) : list RouteSupportScope := supportTexts ≫= scopes_of.

Definition RE_ROUTE_COMPONENT : regexp :=
  Eval vm_compute in
    re "\b(?:[GCIEAU]\s*=|G\s+(?:component\s+)?is\s+(?:PASS|FAIL)|C\s+(?:component\s+)?is\s+[-+]?[0-9]|technical\s+and\s+safety\s+gate|circularity|environmental\s+indicators?|gwp|climate\s+change|mineral(?:-|\s+)depletion|NPV|net\s+present\s+value|usable-field\s+coverage|verified\s+fraction|conflicts?|eligibility-pass\s+frequency|rank\s+stable|stable\s+rank)\b" "iu".
Definition containsRouteComponentContent (value : string) : bool := re_test RE_ROUTE_COMPONENT value.

Definition RE_SYNTAX : regexp := Eval vm_compute in re "[.*+?^${}()|[\]\\]" "gu".
Definition escapeRegExp (value : string) : string := re_replace RE_SYNTAX "\$&" value.

Definition routeSubjectPattern (value : string) : string :=
  join "(?:\s+|-)+" (escapeRegExp <$> split " "%char (canonicalRouteSubject value)).

(** A subject consists of words, so its pattern is well-formed. *)
Definition route_subjects_pattern (subjects : list string) : regexp :=
  re ("\b(?:" +:+ join "|" (routeSubjectPattern <$>
        js_sort (fun l r => length_ r - length_ l) subjects) +:+ ")\b")%string "giu".

Record Mention := mkMention { mention_start : Z; mention_subject : string }.

Definition RE_FRAGMENT_TAIL : regexp := Eval vm_compute in re "\b(?:and|for|the|while|whereas)\s*$" "iu".

Definition contents_for (scopes : list RouteSupportScope) (subject : string) : list string :=
  (fun s => normalizeSemanticEquivalences (scope_content s)) <$>
    filter (fun s => String.eqb (scope_subject s) subject = true) scopes.

(** The fragment of a mention reaches to the next one. *)
Fixpoint mentions_preserved (statement : string) (scopes : list RouteSupportScope) (mentions : list Mention) :
    result exn bool :=
  match mentions with
  | [] => Ok true
  | mention :: rest =>
      let nextStart := match rest with m :: _ => mention_start m | [] => length_ statement end in
      let fragment :=
        trim (re_replace RE_FRAGMENT_TAIL "" (slice (Z.to_nat (mention_start mention)) (Z.to_nat nextStart) statement)) in
      if negb (containsRouteComponentContent fragment) then mentions_preserved statement scopes rest
      else
        match contents_for scopes (mention_subject mention) with
        | [] => Ok false
        | matching =>
            and_then (semanticallySupportedAfterNormalization (normalizeSemanticEquivalences fragment) matching false)
              (mentions_preserved statement scopes rest)
        end
  end.

Definition routeComponentScopesArePreserved (statement : string) (supportTexts : list string) : result exn bool :=
  let scopes := routeSupportScopes supportTexts in
  let subjects := set_of (scope_subject <$> scopes) in
  if bool_decide (subjects = []) || negb (containsRouteComponentContent statement) then Ok true
  else
    let mentions :=
      (fun m => mkMention (m_index m) (canonicalRouteSubject (whole m))) <$>
        re_matchAll (route_subjects_pattern subjects) statement in
    match mentions with
    | [] =>
        if (length subjects =? 1)%nat then Ok true
        else
          every (fun subject =>
            semanticallySupportedAfterNormalization (normalizeSemanticEquivalences statement)
              (contents_for scopes subject) false) subjects
    | _ => mentions_preserved statement scopes mentions
    end.

Definition RE_CONTINUED_USE : regexp :=
  Eval vm_compute in
    re "\b(?:continued\s+(?:compatible\s+)?(?:ev|electric\s+vehicle|automotive)\s+use)\b" "iu".
Definition RE_STATIONARY_STORAGE : regexp :=
  Eval vm_compute in
    re "\b(?:stationary(?:-|\s+)(?:storage|energy(?:-|\s+)storage)(?:-|\s+)repurposing)\b" "iu".
Definition RE_RECYCLING : regexp := Eval vm_compute in re "\brecycling\b" "iu".

Definition KNOWN_ROUTE_SUBJECTS : list (string * regexp) :=
  [("continued compatible ev use", RE_CONTINUED_USE); ("stationary storage repurposing", RE_STATIONARY_STORAGE);
   ("recycling", RE_RECYCLING)]%string.

Definition RE_COMPARISON : regexp :=
  Eval vm_compute in
    re "\b(?:same\s+as(?:\s+for)?|identical\s+to|(?:is|are)\s+equivalent\s+to|shares?|shared|both\s+routes?|tied(?:\s+with)?)\b" "iu".

(** The pattern built from [KNOWN_ROUTE_REFERENCE_SOURCE] *)
Definition RE_ROUTE_COMPARISON : regexp :=
  Eval vm_compute in
    re "\b(?:match(?:es)?|equals?|equivalent\s+to|mirror(?:s|ed|ing)?|compared\s+(?:with|to)|relative\s+to|as\s+(?:does|do)|in\s+common\s+with|on\s+par\s+with)\s+(?:the\s+)?(?:continued\s+(?:compatible\s+)?(?:ev|electric\s+vehicle|automotive)\s+use|stationary(?:-|\s+)(?:storage|energy(?:-|\s+)storage)(?:-|\s+)repurposing|recycling)\b" "iu".

Definition routeComparisonsUseCitedSubjects (statement : string) (supportTexts : list string) : bool :=
  let suppliedSubjects := set_of (scope_subject <$> routeSupportScopes supportTexts) in
  if bool_decide (suppliedSubjects = []) || negb (containsRouteComponentContent statement) then true
  else
    let mentionedSubjects := (filter (fun p => re_test p.2 statement = true) KNOWN_ROUTE_SUBJECTS).*1 in
    if existsb (fun s => negb (has suppliedSubjects s)) mentionedSubjects then false
    else if negb (re_test RE_COMPARISON statement || re_test RE_ROUTE_COMPARISON statement) then true
    else (2 <=? length suppliedSubjects)%nat.

(** ** Meanings of the route components *)

Definition GENERIC_ROUTE_COMPONENT_SUBJECTS : list string :=
  ["assessment"; "assessment result"; "component"; "it"; "result"; "route"; "route assessment"; "this";
   "this assessment"; "this component"; "this result"; "this route"; "value"].

Definition RE_LABEL_G : regexp := Eval vm_compute in re "^(?:the\s+)?technical\s+and\s+safety(?:\s+gate)?$" "iu".
Definition RE_LABEL_C : regexp := Eval vm_compute in re "^(?:the\s+)?circularity$" "iu".
Definition RE_LABEL_I : regexp := Eval vm_compute in re "^(?:the\s+)?environmental\s+indicators?$" "iu".
Definition RE_LABEL_E : regexp := Eval vm_compute in re "^(?:the\s+)?econom(?:ics?|ic)$" "iu".
Definition RE_LABEL_A : regexp := Eval vm_compute in re "^(?:the\s+)?information\s+adequacy$" "iu".
Definition RE_LABEL_U : regexp := Eval vm_compute in re "^(?:the\s+)?uncertainty$" "iu".

Definition ROUTE_COMPONENT_LABELS : list (string * regexp) :=
  [("G", RE_LABEL_G); ("C", RE_LABEL_C); ("I", RE_LABEL_I); ("E", RE_LABEL_E); ("A", RE_LABEL_A);
   ("U", RE_LABEL_U)]%string.

(** [ROUTE_COMPONENT_LABELS[component].test(label)]: the patterns that find the component
    ignore case, the table does not, and [undefined] has no method. *)
Definition label_matches (component label : string) : result exn bool :=
  match map_get component ROUTE_COMPONENT_LABELS with
  | Some r => Ok (re_test r label)
  | None => Throw TypeError
  end.

Definition RE_AND_PREFIX : regexp := Eval vm_compute in re "^\s*and\s+" "iu".
Definition RE_COMPONENT_WORD : regexp := Eval vm_compute in re "\bcomponent\b" "giu".
Definition RE_VERB_SUFFIX : regexp :=
  Eval vm_compute in re "\b(?:gives?|has|includes?|lists?|reports?|shows?)\s*$" "iu".

Definition isPermittedRouteComponentSubject (subject component : string) (routeSubjects : list string) :
    result exn bool :=
  let normalizedSubject :=
    canonicalRouteSubject
      (re_replace RE_VERB_SUFFIX "" (re_replace RE_COMPONENT_WORD "" (re_replace RE_AND_PREFIX "" subject))) in
  if is_empty normalizedSubject || has routeSubjects normalizedSubject ||
     has GENERIC_ROUTE_COMPONENT_SUBJECTS normalizedSubject ||
     String.eqb normalizedSubject (toLowerCase component) then Ok true
  else label_matches component normalizedSubject.

Definition RE_SUPPLIES_LETTERS : regexp :=
  Eval vm_compute in re "\bG\s*=.*\bC\s*=.*\bI\s*=.*\bE\s*=.*\bA\s*=.*\bU\s*=" "isu".
Definition RE_SUPPLIES_NAMES : regexp :=
  Eval vm_compute in
    re "\btechnical and safety gate\b.*\bcircularity\b.*\benvironmental indicators?\b.*\binformation adequacy\b.*\buncertainty\b" "isu".
Definition RE_LABEL_ASSERTION : regexp :=
  Eval vm_compute in
    re "\b([GCIEAU])\s+(?:stands\s+for|means|denotes|represents|is\s+defined\s+as|is)\s+(.+?)(?=\s+and\s+[GCIEAU]\s+(?:stands\s+for|means|denotes|represents|is\s+defined\s+as|is)\b|[,;.]|$)" "giu".
Definition RE_VALUE_LABEL : regexp := Eval vm_compute in re "^(?:(?:PASS|FAIL)\b|[-+]?[0-9])" "iu".
Definition RE_PARENTHESIS : regexp := Eval vm_compute in re "\b([GCIEAU])\s*\(\s*([^()]+?)\s*\)" "gu".
Definition RE_SUBJECT_EQUALS : regexp :=
  Eval vm_compute in
    re "(?:^|[;,]|\band\b)\s*(?:for\s+)?(?:the\s+)?([a-z][a-z-]*(?:\s+[a-z][a-z-]*){0,6}?)\s*:?\s+([GCIEAU])\s*=" "giu".
Definition RE_ASSERT_G : regexp :=
  Eval vm_compute in
    re "(?:^|[;,]|\band\b)\s*(?:for\s+[^,;]+,\s*)?(?:the\s+)?([a-z][a-z-]*(?:\s+[a-z][a-z-]*){0,4}?)\s+(?:component\s+)?(?:is|has|shows|indicates)\s+(?:a\s+)?(?:PASS|FAIL)\b" "giu".
Definition RE_ASSERT_C : regexp :=
  Eval vm_compute in
    re "(?:^|[;,]|\band\b)\s*(?:for\s+[^,;]+,\s*)?(?:the\s+)?([a-z][a-z-]*(?:\s+[a-z][a-z-]*){0,4}?)\s+(?:component\s+)?(?:is|has|shows|indicates)\s+(?:a\s+)?[-+]?[0-9]+(?:\.[0-9]+)?\s*\/\s*100\b" "giu".
Definition RE_ASSERT_I : regexp :=
  Eval vm_compute in
    re "(?:^|[;,]|\band\b)\s*(?:for\s+[^,;]+,\s*)?(?:the\s+)?([a-z][a-z-]*(?:\s+[a-z][a-z-]*){0,4}?)\s+(?:component\s+)?(?:includes|contains|has|shows)\s+[^.;]{0,80}\b(?:gwp|climate-change|climate\s+change|mineral-depletion|mineral\s+depletion|environmental\s+indicator)\b" "giu".
Definition RE_ASSERT_E : regexp :=
  Eval vm_compute in
    re "(?:^|[;,]|\band\b)\s*(?:for\s+[^,;]+,\s*)?(?:the\s+)?([a-z][a-z-]*(?:\s+[a-z][a-z-]*){0,4}?)\s+(?:component\s+)?(?:is|has|shows|includes)\s+(?:an?\s+)?(?:NPV|net\s+present\s+value)\b" "giu".
Definition RE_ASSERT_A : regexp :=
  Eval vm_compute in
    re "(?:^|[;,]|\band\b)\s*(?:for\s+[^,;]+,\s*)?(?:the\s+)?([a-z][a-z-]*(?:\s+[a-z][a-z-]*){0,4}?)\s+(?:component\s+)?(?:is|has|shows|includes)\s+(?:an?\s+)?usable-field\s+coverage\b" "giu".
Definition RE_ASSERT_U : regexp :=
  Eval vm_compute in
    re "(?:^|[;,]|\band\b)\s*(?:for\s+[^,;]+,\s*)?(?:the\s+)?([a-z][a-z-]*(?:\s+[a-z][a-z-]*){0,4}?)\s+(?:component\s+)?(?:is|has|shows|indicates|includes)\s+(?:an?\s+)?(?:eligibility-pass\s+frequency|stable\s+rank|rank\s+stability)\b" "giu".

Definition component_assertions : list (string * regexp) :=
  [("G", RE_ASSERT_G); ("C", RE_ASSERT_C); ("I", RE_ASSERT_I); ("E", RE_ASSERT_E); ("A", RE_ASSERT_A);
   ("U", RE_ASSERT_U)]%string.

Definition match_text (m : RegExpMatch) (i : nat) : string := default "" (group m i).

(** Each step tells whether it found an invalid mapping. *)
Definition invalid_label (m : RegExpMatch) : result exn bool :=
  let assertedLabel := normalize (trim (match_text m 2)) in
  if re_test RE_VALUE_LABEL assertedLabel then Ok false else not_ (label_matches (match_text m 1) assertedLabel).

Definition invalid_parenthesis (m : RegExpMatch) : result exn bool :=
  not_ (label_matches (match_text m 1) (normalize (match_text m 2))).

Definition invalid_subject (routeSubjects : list string) (component : string) (m : RegExpMatch) : result exn bool :=
  not_ (isPermittedRouteComponentSubject (trim (match_text m 1)) component routeSubjects).

Definition hasInvalidRouteComponentMapping (statement : string) (supportTexts : list string) : result exn bool :=
  let supplied := join " " supportTexts in
  if negb (re_test RE_SUPPLIES_LETTERS supplied || re_test RE_SUPPLIES_NAMES supplied) then Ok false
  else
    let routeSubjects := set_of (scope_subject <$> routeSupportScopes supportTexts) in
    or_else (some invalid_label (re_matchAll RE_LABEL_ASSERTION statement))
      (or_else (some invalid_parenthesis (re_matchAll RE_PARENTHESIS statement))
         (or_else (some (fun m => invalid_subject routeSubjects (match_text m 2) m) (re_matchAll RE_SUBJECT_EQUALS statement))
            (some (fun p => some (invalid_subject routeSubjects p.1) (re_matchAll p.2 statement)) component_assertions))).

(** ** The joint check *)

Definition hasJointSemanticSupport (statement : string) (supports : list string)
    (requireEachSupportContribution : bool) : result exn bool :=
  match supports with
  | [] => Ok false
  | _ =>
      and_then (not_ (hasInvalidRouteComponentMapping statement supports))
        (if negb (glossaryDefinitionTuplesArePreserved statement supports &&
                  ordinaryDefinitionTuplesArePreserved statement supports &&
                  routeComparisonsUseCitedSubjects statement supports) then Ok false
         else
           and_then (routeComponentScopesArePreserved statement supports)
             (semanticallySupportedAfterNormalization (normalizeSemanticEquivalences statement)
                (normalizeSemanticEquivalences <$> supports) requireEachSupportContribution))
  end.
