(* ===== verification/AssistantTypes.v ===== *)
(** * The assistant: queries, supports, decisions and answers

    [src/src/assistant/types.ts] and [src/src/assistant/support-commitment.ts]. A query
    arrives as an unknown value and is parsed; supports and candidates are records whose
    schema is a boolean, as in Schemas.v. [z.string().uuid()] of the package zod is the
    parameter [is_uuid]. *)

From S2P Require Import Prelude Regex Digits Base64 Schemas Storage Json Hex Signatures Protection Session AuditLedger EcmaRegExp Text.

Local Open Scope Z_scope.

(** The resource identifiers of the assistant: any kind, a UUID of version 4. *)
Definition assistant_urn : string -> bool :=
  rtest (rx "^urn:evllm:[a-z][a-z0-9-]*:[0-9a-f]{8}-[0-9a-f]{4}-4[0-9a-f]{3}-[89ab][0-9a-f]{3}-[0-9a-f]{12}$").

Definition assistantToolName (s : string) : option AssistantToolName :=
  map_get s
    [("facts", facts); ("history", tool_history); ("rules", tool_rules); ("assessment", tool_assessment);
     ("audit", tool_audit); ("protected-search", protected_search)]%string.

Definition tool_name_text (t : AssistantToolName) : string :=
  match t with
  | facts => "facts" | tool_history => "history" | tool_rules => "rules" | tool_assessment => "assessment"
  | tool_audit => "audit" | protected_search => "protected-search"
  end.

Definition assistantQueryMode (s : string) : option AssistantQueryMode :=
  map_get s
    [("explain_records", explain_records); ("explain_recorded_decision", explain_recorded_decision)]%string.

Definition mode_text (m : AssistantQueryMode) : string :=
  match m with explain_records => "explain_records" | explain_recorded_decision => "explain_recorded_decision" end.

#[global] Instance ToolName_eq_dec : EqDecision AssistantToolName.
Proof. solve_decision. Defined.
#[global] Instance QueryMode_eq_dec : EqDecision AssistantQueryMode.
Proof. solve_decision. Defined.
#[global] Instance AssistantOutcome_eq_dec : EqDecision AssistantOutcome.
Proof. solve_decision. Defined.
#[global] Instance RecordedDecision_eq_dec : EqDecision RecordedDecision.
Proof. solve_decision. Defined.

(** ** Queries *)

Record ToolRequest := mkToolRequest { rq_tool : AssistantToolName; rq_arguments : object }.

Record AssistantQuery := mkQuery {
  q_question : string;
  q_mode : AssistantQueryMode;
  q_purpose_id : string;
  q_as_of : Z;
  q_idempotency_key : option string;
  q_requests : list ToolRequest
}.

Definition guard (b : bool) : option unit := if b then Some tt else None.

Definition get_string (fs : object) (k : string) : option string :=
  match field fs k with Some (JStr s) => Some s | _ => None end.

(** [z.object(..).strict()]: no other key, none twice *)
Definition strict_keys (keys : list string) (fs : object) : bool :=
  bool_decide (NoDup fs.*1) && forallb (fun p => has keys p.1) fs.

Definition primitive_argument (v : json) : bool :=
  match v with JStr _ | JNum _ | JFloat _ | JBool _ => true | _ => false end.

Definition parse_request (v : json) : option ToolRequest :=
  match v with
  | JObj fs =>
      _ ← guard (strict_keys ["tool"; "arguments"]%string fs);
      name ← get_string fs "tool"; tool ← assistantToolName name;
      match field fs "arguments" with
      | Some (JObj arguments) =>
          _ ← guard (bool_decide (NoDup arguments.*1) && forallb (fun p => primitive_argument p.2) arguments);
          Some (mkToolRequest tool arguments)
      | _ => None
      end
  | _ => None
  end.

Section Query.
Context (is_uuid : string -> bool).

(** [assistantQuery.parse(raw)] *)
Definition assistantQuery (raw : json) : option AssistantQuery :=
  match raw with
  | JObj fs =>
      _ ← guard (strict_keys ["question"; "mode"; "purpose_id"; "as_of"; "idempotency_key"; "requests"]%string fs);
      question ← trim <$> get_string fs "question";
      _ ← guard (bounded_text 4000 question);
      mode ← match field fs "mode" with
             | None => Some explain_records
             | Some (JStr s) => assistantQueryMode s
             | Some _ => None
             end;
      purpose_id ← get_string fs "purpose_id";
      _ ← guard (assistant_urn purpose_id);
      as_of ← match field fs "as_of" with Some (JNum n) => Some n | _ => None end;
      _ ← guard (positiveSafeInteger as_of);
      key ← match field fs "idempotency_key" with
            | None => Some None
            | Some (JStr s) => if is_uuid s then Some (Some s) else None
            | Some _ => None
            end;
      requests ← match field fs "requests" with Some (JArr l) => mapM parse_request l | _ => None end;
      _ ← guard (array (fun _ => true) 1 12 requests);
      Some (mkQuery question mode purpose_id as_of key requests)
  | _ => None
  end.
End Query.

Definition request_json (r : ToolRequest) : json :=
  JObj [("tool", JStr (tool_name_text (rq_tool r))); ("arguments", JObj (rq_arguments r))].

Definition query_json (q : AssistantQuery) : json :=
  JObj ([("question", JStr (q_question q)); ("mode", JStr (mode_text (q_mode q)));
         ("purpose_id", JStr (q_purpose_id q)); ("as_of", JNum (q_as_of q));
         ("requests", JArr (request_json <$> q_requests q))] ++
        match q_idempotency_key q with Some k => [("idempotency_key", JStr k)] | None => [] end).

(** ** Recorded decisions *)

Definition evidenceReasonCodes : list string :=
  ["missing-evidence"; "conflicting-evidence"; "inactive-evidence"; "access-denied"; "prompt-injection";
   "external-decision-required"]%string.
Definition evidenceReasonCode (s : string) : bool := has evidenceReasonCodes s.

Definition outcome_text (o : AssistantOutcome) : string :=
  match o with
  | outcome_answer => "answer" | outcome_abstain => "abstain"
  | requires_external_decision => "requires_external_decision"
  end.

Definition assistantDecisionCode (s : string) : bool :=
  rtest (rx "^[a-z0-9]+(?:-[a-z0-9]+)*$") s && (Z.of_nat (String.length s) <=? 128).

Definition isSupportedAnswerDecisionCode (code : string) : bool :=
  rtest (rx "^eligible-for-[a-z0-9]+(?:-[a-z0-9]+)*$") code ||
  rtest (rx "^[a-z0-9]+(?:-[a-z0-9]+)*-(?:preferred|recommended|selected|permitted|allowed|authorized|applicable)$") code.

Definition recordedDecision (d : RecordedDecision) : bool :=
  let codes := rd_reason_codes d in
  let external := has codes "external-decision-required" in
  assistantDecisionCode (rd_code d) && array evidenceReasonCode 0 8 codes && bool_decide (NoDup codes) &&
  match rd_outcome d with
  | outcome_answer => bool_decide (codes = []) && isSupportedAnswerDecisionCode (rd_code d)
  | outcome_abstain =>
      negb (bool_decide (codes = [])) && String.eqb (rd_code d) "insufficient-evidence" && negb external
  | requires_external_decision => external && String.eqb (rd_code d) "external-decision-required"
  end.

(** ** Supports *)

Inductive SupportState := sup_active | sup_missing | sup_restricted | sup_stale | sup_revoked | sup_superseded | sup_conflicting.

#[global] Instance SupportState_eq_dec : EqDecision SupportState.
Proof. solve_decision. Defined.

Record AssistantSupport := mkSupport {
  support_id : string;
  sup_resource_id : string;
  sup_resource_version : Z;
  issuer_organization_id : string;
  custodian_organization_id : string;
  sup_as_of : Z;
  status : SupportState;
  sup_commitment : string;
  chain_reference : option string;
  content : string;
  recorded_decision : option RecordedDecision
}.

(** The fields a commitment binds, the reason codes sorted. *)
Definition committed (resource_id : string) (resource_version : Z) (issuer text : string) (d : RecordedDecision) : json :=
  JObj [("domain", JStr "EVLLM_RECORDED_DECISION_SUPPORT_COMMITMENT_V1"); ("resource_id", JStr resource_id);
        ("resource_version", JNum resource_version); ("issuer_organization_id", JStr issuer); ("content", JStr text);
        ("recorded_decision",
         JObj [("outcome", JStr (outcome_text (rd_outcome d))); ("code", JStr (rd_code d));
               ("reason_codes", JArr (JStr <$> sort_strings (rd_reason_codes d)))])]%string.

Section Commitment.
Context `{CanonicalJson, Sha256}.

(** [createHash("sha256").update(value).digest("base64url")] *)
Definition hash (value : bytes) : string := to_base64url (sha256 value).

Definition recordedDecisionSupportCommitment (s : AssistantSupport) (d : RecordedDecision) : string :=
  ("sha256:" +:+ hash (canonicalJsonBytes
     (committed (sup_resource_id s) (sup_resource_version s) (issuer_organization_id s) (content s) d)))%string.

Definition text_at_most (n : Z) (s : string) : bool := length_ s <=? n.

Definition assistantSupport (s : AssistantSupport) : bool :=
  bounded_text 128 (support_id s) && assistant_urn (sup_resource_id s) &&
  positiveSafeInteger (sup_resource_version s) && assistant_urn (issuer_organization_id s) &&
  assistant_urn (custodian_organization_id s) && positiveSafeInteger (sup_as_of s) &&
  (16 <=? length_ (sup_commitment s)) && text_at_most 256 (sup_commitment s) &&
  optional (text_at_most 256) (chain_reference s) && text_at_most 4000 (content s) &&
  optional recordedDecision (recorded_decision s) &&
  match recorded_decision s with
  | Some d => String.eqb (sup_commitment s) (recordedDecisionSupportCommitment s d)
  | None => true
  end.
End Commitment.

(** ** Candidates *)

Record Claim := mkClaim { claim_id : string; claim_text : string; citation_ids : list string }.

(** The order of the keys in the object, which [JSON.stringify] shows: a parsed candidate
    lists its claims last, the objects built in service.ts list them after the summary, and
    the one built in formal.ts the warnings before the reason codes. *)
Inductive KeyOrder := claims_last | claims_after_summary | reasons_before_claims.

Record AssistantCandidate := mkCandidate {
  cd_outcome : AssistantOutcome;
  cd_decision_code : option string;
  summary : string;
  claims : list Claim;
  evidence_reason_codes : list string;
  warnings : list string;
  missing_requirements : list string;
  key_order : KeyOrder
}.

#[global] Instance Claim_eq_dec : EqDecision Claim.
Proof. solve_decision. Defined.
#[global] Instance KeyOrder_eq_dec : EqDecision KeyOrder.
Proof. solve_decision. Defined.
#[global] Instance AssistantCandidate_eq_dec : EqDecision AssistantCandidate.
Proof. solve_decision. Defined.

Definition claim_schema (c : Claim) : bool :=
  rtest (rx "^claim-[1-9][0-9]*$") (claim_id c) && bounded_text 800 (claim_text c) &&
  array (bounded_text 128) 1 16 (citation_ids c).

Definition assistantModelOutputCandidate (c : AssistantCandidate) : bool :=
  optional assistantDecisionCode (cd_decision_code c) && text_at_most 1500 (summary c) &&
  array evidenceReasonCode 0 8 (evidence_reason_codes c) && array (bounded_text 300) 0 32 (warnings c) &&
  array (bounded_text 300) 0 32 (missing_requirements c) && array claim_schema 0 32 (claims c).

Definition assistantCandidate (c : AssistantCandidate) : bool :=
  assistantModelOutputCandidate c &&
  match cd_outcome c with
  | outcome_answer =>
      negb (bool_decide (claims c = [])) &&
      match cd_decision_code c with Some code => isSupportedAnswerDecisionCode code | None => true end
  | _ => true
  end.

Definition strings_json (l : list string) : string := json_array (quote <$> l).
Definition claim_json (c : Claim) : string :=
  json_object [("claim_id", quote (claim_id c)); ("text", quote (claim_text c));
               ("citation_ids", strings_json (citation_ids c))]%string.

(** [JSON.stringify(candidate)] *)
Definition candidate_json (c : AssistantCandidate) : string :=
  let claims_member := ("claims", json_array (claim_json <$> claims c))%string in
  let reasons := ("evidence_reason_codes", strings_json (evidence_reason_codes c))%string in
  let texts := [("warnings", strings_json (warnings c)); ("missing_requirements", strings_json (missing_requirements c))]%string in
  json_object
    ([("outcome", quote (outcome_text (cd_outcome c)));
      ("decision_code", match cd_decision_code c with Some s => quote s | None => "null" end);
      ("summary", quote (summary c))]%string ++
     match key_order c with
     | claims_last => [reasons] ++ texts ++ [claims_member]
     | claims_after_summary => [claims_member; reasons] ++ texts
     | reasons_before_claims => texts ++ [reasons; claims_member]
     end).

Record ModelResult := mkModelResult {
  mr_candidate : AssistantCandidate;
  mr_model : string;
  mr_provider : string;
  responseId : option string;
  inputTokens : option Z;
  outputTokens : option Z
}.

(** The [model] field of a response *)
Record ModelReference := mkModelReference {
  rm_provider : string; rm_model : string; rm_response_id : option string; rm_input_tokens : option Z;
  rm_output_tokens : option Z
}.

(** A support without its content. *)
Record Citation := mkCitation {
  ci_support_id : string; ci_resource_id : string; ci_resource_version : Z; ci_issuer : string; ci_custodian : string;
  ci_as_of : Z; ci_status : SupportState; ci_commitment : string; ci_chain_reference : option string;
  ci_recorded_decision : option RecordedDecision
}.

Inductive EvidenceState := state_active | state_defective | state_not_evaluated.

Record AssistantResponse := mkResponse {
  re_request_id : string;
  re_correlation_id : string;
  re_outcome : AssistantOutcome;
  re_decision_code : option string;
  re_summary : string;
  re_claims : list Claim;
  re_citations : list Citation;
  re_as_of : Z;
  re_evidence_state : EvidenceState;
  re_warnings : list string;
  re_missing_requirements : list string;
  re_evidence_reason_codes : list string;
  re_validation_passed : bool;
  re_validation_codes : list string;
  re_model : ModelReference;
  re_audit_event_id : string
}.

(** * Facts *)

(** ** The shape of answer codes *)

(** The text of a pattern without choices. *)
Fixpoint literal (r : regex) : option (list ascii) :=
  match r with
  | REps => Some []
  | RCls false [(c, d)] => if Ascii.eqb c d then Some [c] else None
  | RSeq a b => x ← literal a; y ← literal b; Some (x ++ y)
  | _ => None
  end.

Lemma literal_match r l l' : literal r = Some l -> rmatch r l' -> l' = l.
Proof.
  revert l l'. induction r as [| |n rs|a IHa b IHb| |]; intros l l'; simpl; try done.
  - intros [= <-] Hm. by apply rmatch_eps_iff in Hm.
  - destruct n; [done|]. destruct rs as [|[c d] [|]]; try done.
    destruct (Ascii.eqb_spec c d) as [->|]; [|done]. intros [= <-] (e & -> & He)%rmatch_cls_iff.
    unfold cls_test, in_range in He. simpl in He. rewrite orb_false_r, andb_true_iff, !Nat.leb_le in He.
    by rewrite <- (ascii_nat_embedding e), <- (ascii_nat_embedding d), (Nat.le_antisymm _ _ (proj2 He) (proj1 He)).
  - destruct (literal a) as [x|]; [|done]. destruct (literal b) as [y|]; [|done]. intros [= <-].
    intros (l1 & l2 & -> & H1 & H2)%rmatch_seq_iff. by rewrite (IHa x l1), (IHb y l2).
Qed.

Definition code_char (c : ascii) : bool := cls_test false [("a"%char, "z"%char); ("0"%char, "9"%char)] c.
Definition slug_char (c : ascii) : Prop := code_char c = true \/ c = "-"%char.

Definition word_regex : regex :=
  RSeq (RCls false [("a"%char, "z"%char); ("0"%char, "9"%char)])
    (RStar (RCls false [("a"%char, "z"%char); ("0"%char, "9"%char)])).
Definition words_regex : regex := RStar (RSeq (RCls false [("-"%char, "-"%char)]) word_regex).

(** Words joined by dashes: they neither begin nor end with one. *)
Definition slug (l : list ascii) : Prop :=
  Forall slug_char l /\ (exists c, head l = Some c /\ code_char c = true) /\
  (exists c, last l = Some c /\ code_char c = true).

Lemma word_slug l : rmatch word_regex l -> slug l.
Proof.
  intros (l1 & l2 & -> & (c & -> & Hc)%rmatch_cls_iff & Hl%rmatch_star_cls_iff)%rmatch_seq_iff. simpl.
  split; [|split].
  - constructor; [by left|]. apply (Forall_impl _ _ _ Hl). by left.
  - by exists c.
  - destruct (last l2) as [d|] eqn:Hd.
    + exists d. split; [by rewrite last_cons, Hd|]. apply last_Some in Hd as (l & ->).
      apply Forall_app in Hl as [_ Hl]. by inversion Hl.
    + apply last_None in Hd as ->. by exists c.
Qed.

Lemma slug_app l l' : slug l -> slug l' -> slug (l ++ l').
Proof.
  intros (Hf & (c & Hc & Hc') & _) (Hf' & _ & (d & Hd & Hd')). split; [by apply Forall_app|]. split.
  - exists c. by destruct l.
  - exists d. by rewrite last_app, Hd.
Qed.

Lemma slug_dash l l' : slug l -> slug l' -> slug (l ++ "-"%char :: l').
Proof.
  intros (Hf & (c & Hc & Hc') & _) (Hf' & _ & (d & Hd & Hd')). split.
  - apply Forall_app. split; [done|]. constructor; [by right|done].
  - split; [exists c; by destruct l|]. exists d. by rewrite last_app, last_cons, Hd.
Qed.

Lemma words_slug l l' : slug l -> rmatch words_regex l' -> slug (l ++ l').
Proof.
  intros Hl Hm. unfold words_regex in Hm. remember (RStar _) as r eqn:Hr. revert l Hl.
  induction Hm as [| | | | | |r a b Ha _ Hb IH]; simplify_eq; intros l Hl; [by rewrite app_nil_r|].
  rewrite app_assoc. apply IH; [done|].
  apply rmatch_seq_iff in Ha as (x & y & -> & Hx & Hy%word_slug).
  apply (literal_match _ ["-"%char]) in Hx as ->; [|done]. by apply slug_dash.
Qed.

Definition answer_suffixes : list string :=
  ["preferred"; "recommended"; "selected"; "permitted"; "allowed"; "authorized"; "applicable"].

Lemma slug_regex_match l : rmatch (RSeq word_regex words_regex) l -> slug l.
Proof. intros (a & b & -> & Ha%word_slug & Hb)%rmatch_seq_iff. by apply words_slug. Qed.

Lemma decision_code_regex : rx "^[a-z0-9]+(?:-[a-z0-9]+)*$" = RSeq word_regex words_regex.
Proof. vm_compute. reflexivity. Qed.

Definition eligible_prefix : regex :=
  Eval vm_compute in
    match rx "^eligible-for-[a-z0-9]+(?:-[a-z0-9]+)*$" with RSeq (RSeq p _) _ => p | _ => RVoid end.
Definition suffix_choice : regex :=
  Eval vm_compute in
    match rx "^[a-z0-9]+(?:-[a-z0-9]+)*-(?:preferred|recommended|selected|permitted|allowed|authorized|applicable)$" with
    | RSeq _ s => s
    | _ => RVoid
    end.

Lemma eligible_code_regex :
  rx "^eligible-for-[a-z0-9]+(?:-[a-z0-9]+)*$" = RSeq (RSeq eligible_prefix word_regex) words_regex.
Proof. vm_compute. reflexivity. Qed.

Lemma suffix_code_regex :
  rx "^[a-z0-9]+(?:-[a-z0-9]+)*-(?:preferred|recommended|selected|permitted|allowed|authorized|applicable)$" =
  RSeq (RSeq (RSeq word_regex words_regex) (RCls false [("-"%char, "-"%char)])) suffix_choice.
Proof. vm_compute. reflexivity. Qed.

Lemma decision_code_slug code : assistantDecisionCode code = true -> slug (list_ascii_of_string code).
Proof.
  unfold assistantDecisionCode. rewrite decision_code_regex.
  intros [H%rtest_spec _]%andb_true_iff. by apply slug_regex_match.
Qed.

Lemma suffix_choice_match s :
  rmatch suffix_choice s -> exists t, t ∈ answer_suffixes /\ s = list_ascii_of_string t.
Proof.
  unfold suffix_choice. intros Hs.
  repeat (apply rmatch_alt_iff in Hs as [Hs|Hs]);
    (eapply literal_match in Hs; [|vm_compute; reflexivity]); subst s;
    match goal with |- exists t, _ /\ ?l = _ => exists (string_of_list_ascii l) end;
    (split; [apply has_true; vm_compute; reflexivity|by rewrite list_ascii_of_string_of_list_ascii]).
Qed.

Lemma answer_code_shape code :
  isSupportedAnswerDecisionCode code = true ->
  exists l, slug l /\
    (list_ascii_of_string code = list_ascii_of_string "eligible-for-" ++ l \/
     exists s, s ∈ answer_suffixes /\ list_ascii_of_string code = l ++ "-"%char :: list_ascii_of_string s).
Proof.
  unfold isSupportedAnswerDecisionCode. rewrite eligible_code_regex, suffix_code_regex, orb_true_iff, !rtest_spec.
  intros [H|H]; apply rmatch_seq_iff in H as (x & y & -> & H & Hy); apply rmatch_seq_iff in H as (p & w & -> & Hp & Hw).
  - apply word_slug in Hw.
    apply (literal_match _ (list_ascii_of_string "eligible-for-")) in Hp as ->; [|vm_compute; reflexivity].
    exists (w ++ y). split; [by apply words_slug|]. left. by rewrite app_assoc.
  - apply slug_regex_match in Hp. apply (literal_match _ ["-"%char]) in Hw as ->; [|done].
    apply suffix_choice_match in Hy as (t & Ht & ->). exists p. split; [done|]. right. exists t.
    split; [done|]. by rewrite <- app_assoc.
Qed.

(** ** Commitments *)

(** What a support's commitment binds: all of the decision (its reason codes in any order)
    and the resource, version, issuer and content of the support. *)
Definition same_commitment (s : AssistantSupport) (d : RecordedDecision) (t : AssistantSupport) (e : RecordedDecision) : Prop :=
  sup_resource_id s = sup_resource_id t /\ sup_resource_version s = sup_resource_version t /\
  issuer_organization_id s = issuer_organization_id t /\ content s = content t /\
  rd_outcome d = rd_outcome e /\ rd_code d = rd_code e /\ rd_reason_codes d ≡ₚ rd_reason_codes e.

(** The text a support's commitment is the hash of. *)
Definition committed_bytes `{CanonicalJson} (s : AssistantSupport) (d : RecordedDecision) : bytes :=
  canonicalJsonBytes (committed (sup_resource_id s) (sup_resource_version s) (issuer_organization_id s) (content s) d).

Lemma norm_strings l : norm (JArr (JStr <$> l)) = JArr (JStr <$> l).
Proof. simpl. f_equal. rewrite <- list_fmap_compose. by apply list_fmap_ext. Qed.

Lemma outcome_text_inj o o' : outcome_text o = outcome_text o' -> o = o'.
Proof. by destruct o, o'. Qed.

Lemma norm_object_ext fs gs :
  Forall2 (fun m m' => m.1 = m'.1 /\ norm m.2 = norm m'.2) fs gs -> norm (JObj fs) = norm (JObj gs).
Proof.
  intros H. rewrite !norm_object. unfold norm_fields. do 2 f_equal. apply list_eq_Forall2, Forall2_fmap.
  eapply Forall2_impl; [exact H|]. by intros [k v] [k' v'] [-> ->].
Qed.

Lemma norm_field fs gs k v w :
  norm (JObj fs) = norm (JObj gs) -> NoDup fs.*1 -> NoDup gs.*1 ->
  field fs k = Some v -> field gs k = Some w -> norm v = norm w.
Proof.
  intros He Hf Hg Hv Hw. pose proof (norm_same_fields fs gs k Hf Hg He) as Hk. rewrite Hv, Hw in Hk. by injection Hk.
Qed.

(** The values of a key in two literals with the same normal form. *)
Ltac equal_at H k F :=
  pose proof (norm_field _ _ k%string _ _ H ltac:(apply (bool_decide_unpack _); vm_compute; reflexivity)
    ltac:(apply (bool_decide_unpack _); vm_compute; reflexivity) ltac:(reflexivity) ltac:(reflexivity)) as F.

Lemma norm_presence fs gs k :
  norm (JObj fs) = norm (JObj gs) -> NoDup fs.*1 -> NoDup gs.*1 -> bool_decide (is_Some (field fs k)) = bool_decide (is_Some (field gs k)).
Proof.
  intros He Hf Hg. pose proof (norm_same_fields fs gs k Hf Hg He) as Hk. apply bool_decide_ext.
  by rewrite <- (fmap_is_Some norm), Hk, fmap_is_Some.
Qed.

(** A key that only one of two literals with the same normal form has. *)
Ltac equal_missing H k :=
  exfalso; pose proof (norm_presence _ _ k%string H ltac:(apply (bool_decide_unpack _); vm_compute; reflexivity)
    ltac:(apply (bool_decide_unpack _); vm_compute; reflexivity)) as Hmissing; discriminate Hmissing.

Lemma support_committed_norm s d t e :
  norm (committed (sup_resource_id s) (sup_resource_version s) (issuer_organization_id s) (content s) d) =
  norm (committed (sup_resource_id t) (sup_resource_version t) (issuer_organization_id t) (content t) e) ->
  same_commitment s d t e.
Proof.
  unfold committed. intros H. equal_at H "resource_id" F1. equal_at H "resource_version" F2.
  equal_at H "issuer_organization_id" F3. equal_at H "content" F4. equal_at H "recorded_decision" F5.
  equal_at F5 "outcome" F6. equal_at F5 "code" F7. equal_at F5 "reason_codes" F8. rewrite !norm_strings in F8.
  injection F1 as F1. injection F2 as F2. injection F3 as F3. injection F4 as F4. injection F6 as F6. injection F7 as F7.
  assert (sort_strings (rd_reason_codes d) = sort_strings (rd_reason_codes e)) as Hr.
  { apply (list_fmap_eq_inj JStr); [by intros ? ? [= ->]|]. congruence. }
  unfold same_commitment. split_and!; try done; [by apply outcome_text_inj|].
  rewrite <- (js_sort_perm string_cmp (rd_reason_codes d)). unfold sort_strings in Hr. by rewrite Hr, js_sort_perm.
Qed.

(** C16. The commitment of a support binds its recorded decision: the same decision on the
    same resource, version, issuer and content has the same commitment whatever the order of
    its reason codes, and two supports with the same commitment agree in all of these,
    unless the canonical texts of these two very commitments collide. *)
Theorem support_commitment_binding `{CanonicalJson, Sha256} s d t e :
  (same_commitment s d t e -> recordedDecisionSupportCommitment s d = recordedDecisionSupportCommitment t e) /\
  (recordedDecisionSupportCommitment s d = recordedDecisionSupportCommitment t e ->
   same_commitment s d t e \/ collides (committed_bytes s d) (committed_bytes t e)).
Proof.
  unfold recordedDecisionSupportCommitment, hash. split.
  - intros (-> & -> & -> & -> & Ho & Hc & Hr). unfold committed. by rewrite Ho, Hc, (sort_strings_unique _ _ Hr).
  - intros Heq. apply (f_equal list_ascii_of_string) in Heq. rewrite !list_ascii_of_string_app in Heq.
    apply app_inv_head, list_ascii_of_string_inj, to_base64url_inj in Heq.
    destruct (decide (committed_bytes s d = committed_bytes t e)) as [Hb|Hb]; [left|by right].
    by apply support_committed_norm, canonicalJsonBytes_inj.
Qed.
