(* ===== verification/AssistantTools.v ===== *)
(** * The assistant: tools

    [src/src/assistant/tools.ts]: the registry of read-only tools, whose execution collects
    the supports of a query, and the protected search. What a tool or the authorization
    policy answers during a call is an argument: a function that returns or throws. *)

From S2P Require Import Prelude Regex Digits Base64 Schemas Storage Json Hex Signatures Protection Session AuditLedger EcmaRegExp Text SemanticTokens AssistantTypes.

Local Open Scope Z_scope.

(** The errors of the assistant; [external_error] is whatever else a collaborator throws. *)
Inductive AssistantError :=
| native (e : exn)
| zod_failure
| ToolAuthorizationError
| ProtectedRetrievalError
| AssistantSupportValidationError
| AssistantIdempotencyError
| request_store_error
| external_error (code : Z).

#[global] Instance exn_eq_dec : EqDecision exn.
Proof. solve_decision. Defined.
#[global] Instance AssistantError_eq_dec : EqDecision AssistantError.
Proof. solve_decision. Defined.

Record AssistantToolContext := mkToolContext {
  tc_session : ActorSession;
  tc_purposeId : string;
  tc_asOf : Z;
  tc_arguments : object
}.

Record ToolExecution := mkToolExecution {
  ex_supports : list AssistantSupport;
  ex_toolNames : list AssistantToolName;
  ex_injectionDetected : bool
}.

Record ProtectedRetrievalResult := mkRetrieval {
  authorizationAllowed : bool;
  repositoryAvailable : bool;
  envelopeDigestVerified : bool;
  packageCommitmentsVerified : bool;
  domainSignatureVerified : bool;
  keyReleaseAllowed : bool;
  decryptedInsideCustodyBoundary : bool;
  pr_supports : list AssistantSupport
}.

(** The two kinds of tools, each with what it queries. *)
Inductive AssistantTool :=
| ProtectedSearchTool (retrieve : AssistantToolContext -> result AssistantError ProtectedRetrievalResult)
| TypedQueryTool (name : AssistantToolName) (query : AssistantToolContext -> result AssistantError (list AssistantSupport)).

Definition tool_name (t : AssistantTool) : AssistantToolName :=
  match t with ProtectedSearchTool _ => protected_search | TypedQueryTool name _ => name end.

Definition retrieval_verified (r : ProtectedRetrievalResult) : bool :=
  authorizationAllowed r && repositoryAvailable r && envelopeDigestVerified r && packageCommitmentsVerified r &&
  domainSignatureVerified r && keyReleaseAllowed r && decryptedInsideCustodyBoundary r.

(** [tool.execute(context)] *)
Definition tool_execute (t : AssistantTool) (context : AssistantToolContext) :
    result AssistantError (list AssistantSupport) :=
  match t with
  | ProtectedSearchTool retrieve =>
      result ← retrieve context;
      _ ← require (retrieval_verified result) ProtectedRetrievalError;
      Ok (pr_supports result)
  | TypedQueryTool _ query => query context
  end.

(** The registry: its tools by name, in the order of registration. *)
Definition AssistantToolRegistry := list (AssistantToolName * AssistantTool).

(** The constructor; the error of a duplicate is a plain [Error]. *)
Definition new_registry (tools : list AssistantTool) : result AssistantError AssistantToolRegistry :=
  fold_result (fun reg t =>
    _ ← require (negb (map_has (tool_name t) reg)) (native (Error "Duplicate assistant tool"));
    Ok (map_set (tool_name t) t reg)) [] tools.

Definition names (reg : AssistantToolRegistry) : list string := sort_strings (tool_name_text <$> map_keys reg).

Section Execute.
Context `{CanonicalJson, Sha256}.
Context (reg : AssistantToolRegistry)
  (authorize : ActorSession -> string -> AssistantToolName -> object -> result AssistantError bool).

Record Collected := mkCollected {
  co_supports : list AssistantSupport;
  co_supportIds : list string;
  co_resourceVersions : list string;
  co_injection : bool
}.

(** [JSON.stringify([support.resource_id, support.resource_version])] *)
Definition resourceVersionIdentity (s : AssistantSupport) : string :=
  json_array [quote (sup_resource_id s); number_to_string (sup_resource_version s)].

Definition collect (c : Collected) (s : AssistantSupport) : result AssistantError Collected :=
  _ ← require (assistantSupport s) AssistantSupportValidationError;
  _ ← require (negb (has (co_supportIds c) (support_id s) || has (co_resourceVersions c) (resourceVersionIdentity s)))
        AssistantSupportValidationError;
  Ok (mkCollected (co_supports c ++ [s]) (co_supportIds c ++ [support_id s])
        (co_resourceVersions c ++ [resourceVersionIdentity s])
        (co_injection c || looksLikeEmbeddedInstruction (content s))).

Definition execute_request (query : AssistantQuery) (session : ActorSession) (c : Collected) (r : ToolRequest) :
    result AssistantError Collected :=
  tool ← defined (map_get (rq_tool r) reg) ToolAuthorizationError;
  allowed ← authorize session (q_purpose_id query) (rq_tool r) (rq_arguments r);
  _ ← require allowed ToolAuthorizationError;
  result ← tool_execute tool (mkToolContext session (q_purpose_id query) (q_as_of query) (rq_arguments r));
  fold_result collect c result.

Definition execute_tools (query : AssistantQuery) (session : ActorSession) : result AssistantError ToolExecution :=
  c ← fold_result (execute_request query session) (mkCollected [] [] [] false) (q_requests query);
  Ok (mkToolExecution (co_supports c) (rq_tool <$> q_requests query) (co_injection c)).
End Execute.

(** * Facts *)

(** Resource and version determine the identity. *)
Definition resource_version (s : AssistantSupport) : string * Z := (sup_resource_id s, sup_resource_version s).

Lemma resourceVersionIdentity_inj s t :
  resourceVersionIdentity s = resourceVersionIdentity t <-> resource_version s = resource_version t.
Proof.
  unfold resource_version. split; [|intros [= H1 H2]; unfold resourceVersionIdentity; by rewrite H1, H2].
  unfold resourceVersionIdentity, json_array. intros H. apply (f_equal list_ascii_of_string) in H.
  rewrite !join_cons, !join_one, !list_ascii_of_string_app, !quote_ascii, <- !app_assoc in H.
  apply app_inv_head in H. apply quote_prefix in H as [Hr H]. apply app_inv_head, app_inv_tail in H.
  unfold number_to_string in H. rewrite !list_ascii_of_string_of_list_ascii in H. apply number_chars_inj in H.
  by rewrite Hr, H.
Qed.

Section ExecuteFacts.
Context `{HJ : CanonicalJson, HS : Sha256}.
Context (reg : AssistantToolRegistry)
  (authorize : ActorSession -> string -> AssistantToolName -> object -> result AssistantError bool).
Context (query : AssistantQuery) (session : ActorSession).

Definition distinct (l : list AssistantSupport) : Prop := NoDup (support_id <$> l) /\ NoDup (resource_version <$> l).

(** What has been collected from a list of supports. *)
Definition collected (l : list AssistantSupport) : Collected :=
  mkCollected l (support_id <$> l) (resourceVersionIdentity <$> l) (existsb (fun s => looksLikeEmbeddedInstruction (content s)) l).


Lemma has_identity l s : has (resourceVersionIdentity <$> l) (resourceVersionIdentity s) = true <-> resource_version s ∈ resource_version <$> l.
Proof.
  rewrite has_true, !list_elem_of_fmap. setoid_rewrite resourceVersionIdentity_inj. done.
Qed.

Lemma distinct_snoc l s :
  distinct (l ++ [s]) <-> distinct l /\ support_id s ∉ support_id <$> l /\ resource_version s ∉ resource_version <$> l.
Proof.
  unfold distinct. rewrite !fmap_app, !NoDup_app. split.
  - intros [(H1 & H2 & _) (H3 & H4 & _)]. split_and!; try done; intros Hin; [apply (H2 _ Hin)|apply (H4 _ Hin)]; by constructor.
  - intros [[H1 H2] [H3 H4]]. split_and!; try done; try apply NoDup_singleton;
      intros x Hx ->%list_elem_of_singleton; done.
Qed.

Lemma collect_snoc l s c :
  collect (collected l) s = Ok c <->
  assistantSupport s = true /\ support_id s ∉ support_id <$> l /\ resource_version s ∉ resource_version <$> l /\
  c = collected (l ++ [s]).
Proof.
  assert (mkCollected (l ++ [s]) ((support_id <$> l) ++ [support_id s]) ((resourceVersionIdentity <$> l) ++ [resourceVersionIdentity s])
            (existsb (fun s => looksLikeEmbeddedInstruction (content s)) l || looksLikeEmbeddedInstruction (content s)) =
          collected (l ++ [s])) as Hsnoc.
  { unfold collected. rewrite !fmap_app, existsb_app. simpl. by rewrite orb_false_r. }
  unfold collect. simpl. rewrite Hsnoc, <- has_identity, <- has_true.
  destruct (assistantSupport s); simpl; [|by split; [|intros [? _]]].
  destruct (has _ _); simpl; [by split; [|intros (_ & [] & _)]|]. destruct (has _ _); simpl.
  - split; [done|by intros (_ & _ & [] & _)].
  - split; [intros [= <-]; by split_and!|by intros (_ & _ & _ & ->)].
Qed.

Lemma collect_all l l' c :
  distinct l ->
  fold_result collect (collected l) l' = Ok c <->
  Forall (fun s => assistantSupport s = true) l' /\ distinct (l ++ l') /\ c = collected (l ++ l').
Proof.
  revert l. induction l' as [|s l' IH]; intros l Hl; simpl.
  - rewrite app_nil_r. split; [intros [= <-]; by split_and!|by intros (_ & _ & ->)].
  - rewrite bind_Ok, Forall_cons. setoid_rewrite collect_snoc. split.
    + intros (c' & (Hs & Hid & Hr & ->) & H). apply IH in H; [|by apply distinct_snoc].
      rewrite <- app_assoc in H. tauto.
    + intros ([Hs Hl'] & Hd & ->). change (s :: l') with ([s] ++ l') in *. rewrite app_assoc in *.
      assert (distinct (l ++ [s])) as Hd'.
      { destruct Hd as [H1 H2]. rewrite fmap_app in H1. rewrite fmap_app in H2. by split; [apply NoDup_app in H1 as []|apply NoDup_app in H2 as []]. }
      exists (collected (l ++ [s])). split; [|by apply IH]. apply distinct_snoc in Hd' as (_ & ? & ?). by split_and!.
Qed.

(** A request that passes: its tool is registered, authorized and answers. *)
Definition answered (r : ToolRequest) (l : list AssistantSupport) : Prop :=
  exists tool, map_get (rq_tool r) reg = Some tool /\
    authorize session (q_purpose_id query) (rq_tool r) (rq_arguments r) = Ok true /\
    tool_execute tool (mkToolContext session (q_purpose_id query) (q_as_of query) (rq_arguments r)) = Ok l.

Lemma execute_request_Ok l r c :
  distinct l ->
  execute_request reg authorize query session (collected l) r = Ok c <->
  exists l', answered r l' /\ Forall (fun s => assistantSupport s = true) l' /\ distinct (l ++ l') /\ c = collected (l ++ l').
Proof.
  intros Hl. unfold execute_request, answered. split.
  - intros H. inv_result. subst a0. apply collect_all in H as (? & ? & ->); [|done]. exists a2. split_and!; try done. by exists a.
  - intros (l' & (tool & Ht & Ha & Hx) & Hf & Hd & ->). rewrite Ht. simpl. rewrite Ha. simpl. rewrite Hx. simpl.
    by apply collect_all.
Qed.

Lemma execute_requests_Ok l rs c :
  distinct l ->
  fold_result (execute_request reg authorize query session) (collected l) rs = Ok c <->
  exists ls, Forall2 answered rs ls /\ Forall (fun s => assistantSupport s = true) (concat ls) /\
    distinct (l ++ concat ls) /\ c = collected (l ++ concat ls).
Proof.
  revert l. induction rs as [|r rs IH]; intros l Hl; simpl.
  - split; [intros [= <-]; exists []; simpl; rewrite app_nil_r; by split_and!|].
    intros (ls & Hls%Forall2_nil_inv_l & _ & _ & ->). subst ls. simpl. by rewrite app_nil_r.
  - rewrite bind_Ok. setoid_rewrite execute_request_Ok; [|done]. split.
    + intros (c' & (l' & Ha & Hf & Hd & ->) & H). apply IH in H as (ls & Hls & Hf' & Hd' & ->); [|done].
      rewrite <- app_assoc in *. exists (l' :: ls). simpl. split_and!; [by constructor|by apply Forall_app|done|done].
    + intros (ls' & (l' & ls & Ha & Hls & ->)%Forall2_cons_inv_l & Hf & Hd & ->). simpl in *.
      apply Forall_app in Hf as [Hf Hf']. rewrite app_assoc in *.
      assert (distinct (l ++ l')) as Hd'.
      { destruct Hd as [H1 H2]. rewrite fmap_app in H1. rewrite fmap_app in H2.
        by split; [apply NoDup_app in H1 as []|apply NoDup_app in H2 as []]. }
      exists (collected (l ++ l')). split; [by exists l'|]. apply IH; [done|]. by exists ls.
Qed.
End ExecuteFacts.

(** Executing the tools of a query succeeds exactly when every request names a
    registered tool, is authorized and answered (a protected search only when all seven of
    its verifications passed), and the supports answered are all schema-valid, with no
    support identifier and no version of a resource twice; the execution then holds exactly
    these supports in order, the tools asked, and whether one carries an instruction. *)
Theorem execute_tools_correct `{CanonicalJson, Sha256} reg authorize query session execution :
  execute_tools reg authorize query session = Ok execution <->
  exists answers,
    Forall2 (answered reg authorize query session) (q_requests query) answers /\
    Forall (fun s => assistantSupport s = true) (concat answers) /\ distinct (concat answers) /\
    execution = mkToolExecution (concat answers) (rq_tool <$> q_requests query)
                  (existsb (fun s => looksLikeEmbeddedInstruction (content s)) (concat answers)).
Proof.
  assert (distinct []) as Hnil by by split; constructor.
  unfold execute_tools. rewrite bind_Ok. setoid_rewrite (execute_requests_Ok reg authorize query session [] _ _ Hnil). split.
  - intros (c & (ls & Hls & Hf & Hd & ->) & [= <-]). by exists ls.
  - intros (ls & Hls & Hf & Hd & ->). exists (collected (concat ls)). split; [by exists ls|done].
Qed.
