(* ===== verification/AssistantDecisions.v ===== *)
(** * The assistant: recorded decisions and decision prose

    [src/src/assistant/service.ts]: which typed decision the active supports record, the
    fixed sentence it is rendered with, and the tests for prose that contradicts it,
    repudiates it, or makes a decision of its own. *)

From S2P Require Import Prelude Regex Digits Base64 Schemas Storage Json Hex Signatures Protection Session AuditLedger EcmaRegExp Text SemanticTokens SemanticSupport AssistantTypes.

Local Open Scope Z_scope.

(** ** Which decision is recorded *)

Definition normalizeRecordedDecision (d : RecordedDecision) : RecordedDecision :=
  mkRecordedDecision (rd_outcome d) (rd_code d) (sort_strings (set_of (rd_reason_codes d))).

(** [JSON.stringify] of the normalized decision *)
Definition recordedDecisionKey (d : RecordedDecision) : string :=
  let d := normalizeRecordedDecision d in
  json_object [("outcome", quote (outcome_text (rd_outcome d))); ("code", quote (rd_code d));
               ("reason_codes", strings_json (rd_reason_codes d))]%string.

Inductive ActiveRecordedDecisionResolution :=
| absent
| consistent (decision : RecordedDecision)
| conflicting.

Definition is_active (s : AssistantSupport) : bool := bool_decide (status s = sup_active).

(** The decision of an active support *)
Definition active_decision (s : AssistantSupport) : option RecordedDecision :=
  if is_active s then recorded_decision s else None.

Definition resolveActiveRecordedDecision (supports : list AssistantSupport) : ActiveRecordedDecisionResolution :=
  match normalizeRecordedDecision <$> omap active_decision supports with
  | [] => absent
  | first :: rest =>
      if forallb (fun d => String.eqb (recordedDecisionKey d) (recordedDecisionKey first)) rest
      then consistent first else conflicting
  end.

(** [sameReasonCodes] *)
Definition sameReasonCodes (left right : list string) : bool :=
  bool_decide (sort_strings left = sort_strings right).

(** ** The fixed rendering *)

Inductive ExpectedRelation := preferred | eligible | permitted | applicable.

#[global] Instance ExpectedRelation_eq_dec : EqDecision ExpectedRelation.
Proof. solve_decision. Defined.

Record AnswerDecisionExpectation := mkExpectation { e_relation : ExpectedRelation; e_target : string }.

(** The target is what is left of a suffix; [None] goes on to the next one. *)
Definition with_suffix (relation : ExpectedRelation) (suffix normalized : string) :
    option (option AnswerDecisionExpectation) :=
  if endsWith suffix normalized then
    let target := slice 0 (String.length normalized - String.length suffix) normalized in
    Some (if is_empty target then None else Some (mkExpectation relation target))
  else None.

Definition with_prefix (relation : ExpectedRelation) (prefix normalized : string) :
    option (option AnswerDecisionExpectation) :=
  if startsWith prefix normalized then
    let target := slice_from (String.length prefix) normalized in
    Some (if is_empty target then None else Some (mkExpectation relation target))
  else None.

Fixpoint first_answer {A} (l : list (option (option A))) : option A :=
  match l with
  | [] => None
  | Some a :: _ => a
  | None :: l => first_answer l
  end.

Definition answerDecisionExpectation (decisionCode : string) : option AnswerDecisionExpectation :=
  let normalized := toLowerCase decisionCode in
  first_answer
    [with_suffix preferred "-preferred" normalized; with_suffix preferred "-recommended" normalized;
     with_suffix preferred "-selected" normalized; with_prefix eligible "eligible-for-" normalized;
     with_suffix permitted "-permitted" normalized; with_suffix permitted "-allowed" normalized;
     with_suffix permitted "-authorized" normalized; with_suffix applicable "-applicable" normalized].

Definition RE_CONTINUED_TARGET : regexp := Eval vm_compute in re "^continued-compatible-ev-use$" "u".
Definition RE_PASSPORT_TARGET : regexp := Eval vm_compute in re "^battery-passport-requirement$" "u".

Definition humanizeDecisionTarget (target : string) : string :=
  replaceAll "-"%char " "
    (re_replace RE_PASSPORT_TARGET "the battery passport requirement"
       (re_replace RE_CONTINUED_TARGET "continued compatible EV use" target)).

Definition capitalizeSentence (value : string) : string :=
  match value with String c s => String (upper_char c) s | EmptyString => EmptyString end.

Definition recordedDecisionStatement (d : RecordedDecision) : result exn string :=
  let code := (" The recorded decision code is " +:+ rd_code d +:+ ".")%string in
  match rd_outcome d with
  | outcome_abstain =>
      Ok ("The recorded decision withholds an answer because required evidence is insufficient." +:+ code)%string
  | requires_external_decision =>
      Ok ("The recorded decision requires review by a responsible organization." +:+ code)%string
  | outcome_answer =>
      match answerDecisionExpectation (rd_code d) with
      | None => Throw (Error ("Unsupported answer decision code: " +:+ rd_code d))
      | Some e =>
          let target := humanizeDecisionTarget (e_target e) in
          let conclusion :=
            match e_relation e with
            | preferred => capitalizeSentence target +:+ " is the recorded preferred route."
            | eligible => "The battery is recorded as eligible for " +:+ target +:+ "."
            | applicable => capitalizeSentence target +:+ " is recorded as applicable."
            | permitted => capitalizeSentence target +:+ " is recorded as permitted."
            end%string in
          Ok (conclusion +:+ code)%string
      end
  end.

(** ** Prose *)

Definition RE_CAN_T : regexp := Eval vm_compute in re "\bcan(?:'|\u2019)?t\b" "gu".
Definition RE_WON_T : regexp := Eval vm_compute in re "\bwon(?:'|\u2019)?t\b" "gu".
Definition RE_CANNOT : regexp := Eval vm_compute in re "\bcannot\b" "gu".
Definition RE_VERB_NT : regexp :=
  Eval vm_compute in re "\b(does|do|is|are|was|were|could|should|must|would|may)n(?:'|\u2019)?t\b" "gu".
Definition RE_NOT_ALNUM : regexp := Eval vm_compute in re "[^a-z0-9]+" "gu".

Definition normalizeDecisionProse (value : string) : string :=
  trim (replaces
    [(RE_CAN_T, "can not"); (RE_WON_T, "will not"); (RE_CANNOT, "can not"); (RE_VERB_NT, "$1 not");
     (RE_NOT_ALNUM, " ")]%string (toLowerCase value)).

Inductive Polarity := affirmative | negative.
Inductive DecisionRelation := preference | authorization | applicability | action.

#[global] Instance Polarity_eq_dec : EqDecision Polarity.
Proof. solve_decision. Defined.
#[global] Instance DecisionRelation_eq_dec : EqDecision DecisionRelation.
Proof. solve_decision. Defined.

Record DecisionAssertion := mkAssertion {
  da_polarity : Polarity;
  da_relation : DecisionRelation;
  da_target : string;
  da_source : string
}.

(** One step of the loop of [decisionAssertions]: the patterns tried in turn, the groups
    that must have matched, and the target as a template of the groups. *)
Record AssertionRule := mkRule {
  ar_polarity : Polarity;
  ar_relation : DecisionRelation;
  ar_patterns : list regexp;
  ar_required : list nat;
  ar_target : string
}.

Definition apply_rule (clause : string) (r : AssertionRule) : option DecisionAssertion :=
  m ← head (omap (fun p => re_match p clause) (ar_patterns r));
  if forallb (fun i => bool_decide (is_Some (group m i))) (ar_required r)
  then Some (mkAssertion (ar_polarity r) (ar_relation r)
               (string_of_list_ascii (expand m (list_ascii_of_string (ar_target r)))) clause)
  else None.

Definition negativeApplicability : AssertionRule :=
  Eval vm_compute in
    mkRule negative applicability
      [re "^(?:the\s+)?(.+?)\s+(?:does|do)\s+not\s+apply\b" "u";
       re "^(?:the\s+)?(.+?)\s+(?:is|was|remains)\s+not\s+applicable\b" "u"] [1]%nat "$1".

Definition affirmativeApplicability : AssertionRule :=
  Eval vm_compute in
    mkRule affirmative applicability
      [re "^(?:the\s+)?(.+?)\s+(?:does|do)\s+apply\b" "u";
       re "^(?:the\s+)?(.+?)\s+(?:is|was|remains)\s+applicable\b" "u"] [1]%nat "$1".

Definition negativePassiveAction : AssertionRule :=
  Eval vm_compute in
    mkRule negative action
      [re "^(?:the\s+)?(.+?)\s+(?:is|was|should be|must be|can be|may be|will be)\s+(?:not|never)\s+(used|reused|resold|sold|recycled|repurposed|recovered|listed|purchased|transferred|funded|settled)(?:\s+for\s+(.+))?$" "u"]
      [1; 2]%nat "$2 $1 $3".

Definition negativeModalAction : AssertionRule :=
  Eval vm_compute in
    mkRule negative action
      [re "^(?:the\s+)?(.+?)\s+(?:should|must|can|may|will)\s+not\s+(use|reuse|resell|sell|recycle|repurpose|recover|enter|perform|execute|proceed with|list|purchase|transfer|fund|settle)\s+(.+)$" "u"]
      [1; 2; 3]%nat "$2 $1 $3".

Definition negativeActive : AssertionRule :=
  Eval vm_compute in
    mkRule negative action
      [re "^(?:please\s+)?(?:avoid|reject|exclude|forbid|prohibit|rule out)\s+(.+)$" "u"] [1]%nat "$1".

Definition negatedVerb : AssertionRule :=
  Eval vm_compute in
    mkRule negative action
      [re "^(?:(?:the\s+)?(?:system|user|organization|operator|buyer|seller|you|we|i)\s+)?(?:do|does|should|must|can|may|will)\s+not\s+(use|reuse|resell|sell|recycle|repurpose|recover|enter|perform|execute|proceed with|go ahead with|move forward with|list|purchase|transfer|fund|settle|prefer|recommend|select|choose|permit|allow|authorize|approve)\s+(.+)$" "u"]
      [1; 2]%nat "$1 $2".

Definition negativeProceed : AssertionRule :=
  Eval vm_compute in
    mkRule negative action
      [re "^(?:the\s+)?(.+?)\s+(?:should|must|can|may|will)\s+not\s+(?:proceed|go ahead|move forward)$" "u"]
      [1]%nat "$1".

Definition noAuthorization : AssertionRule :=
  Eval vm_compute in
    mkRule negative authorization
      [re "^no\s+(.+?)\s+(?:is|was|remains|has been|should be|must be|can be|may be)\s+(?:preferred|recommended|selected|chosen|permitted|allowed|authorized|approved|eligible)\b" "u"]
      [1]%nat "$1".

Definition negativeEligibleFor : AssertionRule :=
  Eval vm_compute in
    mkRule negative authorization
      [re "^(?:the\s+)?(?:.+?)\s+(?:is|was|remains)\s+(?:not|never)\s+eligible\s+for\s+(.+)$" "u"] [1]%nat "$1".

Definition negativeSuitableFor : AssertionRule :=
  Eval vm_compute in
    mkRule negative authorization
      [re "^(?:the\s+)?(?:.+?)\s+(?:is|was|remains)\s+(?:not|never|un)suitable\s+for\s+(.+)$" "u"] [1]%nat "$1".

Definition negativePassive : AssertionRule :=
  Eval vm_compute in
    mkRule negative authorization
      [re "^(?:the\s+)?(.+?)\s+(?:is|was|remains|should be|must be)\s+(?:(?:not|never)\s+(?:preferred|recommended|selected|chosen|advisable|appropriate|permitted|allowed|authorized|approved|eligible)|prohibited|forbidden|rejected|excluded|ineligible|unavailable|unsuitable)\b" "u"]
      [1]%nat "$1".

Definition preferenceActive : AssertionRule :=
  Eval vm_compute in
    mkRule affirmative preference
      [re "^(?:(?:the\s+)?(?:system|assessment|record|records|we|i)\s+)?(?:prefer|recommend|select|choose)\s+(.+)$" "u"]
      [1]%nat "$1".

Definition namedPreference : AssertionRule :=
  Eval vm_compute in
    mkRule affirmative preference
      [re "^(?:the\s+)?(?:preferred|recommended|selected|chosen)\s+(?:route|option|alternative|choice)\s+(?:is|remains)\s+(.+)$" "u"]
      [1]%nat "$1".

Definition preferencePassive : AssertionRule :=
  Eval vm_compute in
    mkRule affirmative preference
      [re "^(?:the\s+)?(.+?)\s+(?:is|was|remains|should be|must be|has been)\s+(?:the\s+)?(?:preferred|recommended|selected|chosen|advisable|appropriate)\b" "u"]
      [1]%nat "$1".

Definition comparativePreference : AssertionRule :=
  Eval vm_compute in
    mkRule affirmative preference
      [re "^(?:the\s+)?(.+?)\s+(?:is|was|remains)\s+(?:the\s+)?(?:best|better|superior)(?:\s+(?:route|option|alternative|choice))?(?:\s+than|\s+to|$)" "u"]
      [1]%nat "$1".

Definition rankedFirst : AssertionRule :=
  Eval vm_compute in
    mkRule affirmative preference [re "^(?:the\s+)?(.+?)\s+(?:ranks|ranked)\s+first\b" "u"] [1]%nat "$1".

Definition authorizationActive : AssertionRule :=
  Eval vm_compute in
    mkRule affirmative authorization
      [re "^(?:(?:the\s+)?(?:system|assessment|record|records|we|i)\s+)?(?:permit|allow|authorize|approve)\s+(.+)$" "u"]
      [1]%nat "$1".

Definition eligibleFor : AssertionRule :=
  Eval vm_compute in
    mkRule affirmative authorization
      [re "^(?:the\s+)?(?:.+?)\s+(?:is|was|remains|has been|should be|must be)\s+eligible\s+for\s+(.+)$" "u"]
      [1]%nat "$1".

Definition suitableFor : AssertionRule :=
  Eval vm_compute in
    mkRule affirmative authorization
      [re "^(?:the\s+)?(?:.+?)\s+(?:is|was|remains|has been|should be|must be)\s+suitable\s+for\s+(.+)$" "u"]
      [1]%nat "$1".

Definition authorizationPassive : AssertionRule :=
  Eval vm_compute in
    mkRule affirmative authorization
      [re "^(?:the\s+)?(.+?)\s+(?:is|was|remains|has been|should be|must be)\s+(?:permitted|allowed|authorized|approved|eligible)\b" "u"]
      [1]%nat "$1".

Definition modalAction : AssertionRule :=
  Eval vm_compute in
    mkRule affirmative action
      [re "^(?:the\s+)?(.+?)\s+(?:should|must|can|may|will)\s+(use|reuse|resell|sell|recycle|repurpose|recover|enter|perform|execute|proceed with|go ahead with|move forward with|list|purchase|transfer|fund|settle)\s+(.+)$" "u"]
      [1; 2; 3]%nat "$2 $1 $3".

Definition affirmativeProceed : AssertionRule :=
  Eval vm_compute in
    mkRule affirmative action
      [re "^(?:the\s+)?(.+?)\s+(?:should|must|can|may|will)\s+(?:proceed|go ahead|move forward)$" "u"] [1]%nat "$1".

Definition passiveAction : AssertionRule :=
  Eval vm_compute in
    mkRule affirmative action
      [re "^(?:the\s+)?(.+?)\s+(?:is|was|should be|must be|can be|may be|will be)\s+(used|reused|resold|sold|recycled|repurposed|recovered|listed|purchased|transferred|funded|settled)(?:\s+for\s+(.+))?$" "u"]
      [1; 2]%nat "$2 $1 $3".

Definition subjectAction : AssertionRule :=
  Eval vm_compute in
    mkRule affirmative action
      [re "^(?:(?:the\s+)?(?:system|user|organization|operator|buyer|seller|you|we|i)\s+)?(?:should|must|can|may|will)\s+(use|reuse|resell|sell|recycle|repurpose|recover|enter|perform|execute|proceed with|go ahead with|move forward with|list|purchase|transfer|fund|settle)\s+(.+)$" "u"]
      [1; 2]%nat "$1 $2".

Definition gerundAction : AssertionRule :=
  Eval vm_compute in
    mkRule affirmative action
      [re "^(using|reusing|reselling|selling|recycling|repurposing|recovering|listing|purchasing|transferring|funding|settling)\s+(.+?)\s+(?:is|remains|would be)\s+(?:appropriate|recommended|preferred|permitted|allowed|authorized|approved)\b" "u"]
      [1; 2]%nat "$1 $2".

Definition actionDirective : AssertionRule :=
  Eval vm_compute in
    mkRule affirmative action
      [re "^(?:please\s+)?(use|reuse|resell|sell|recycle|repurpose|recover|enter|perform|execute|proceed with|go ahead with|move forward with|list|purchase|transfer|fund|settle)\s+(.+)$" "u"]
      [1; 2]%nat "$1 $2".

Definition assertion_rules : list AssertionRule :=
  [negativeApplicability; affirmativeApplicability; negativePassiveAction; negativeModalAction; negativeActive;
   negatedVerb; negativeProceed; noAuthorization; negativeEligibleFor; negativeSuitableFor; negativePassive;
   preferenceActive; namedPreference; preferencePassive; comparativePreference; rankedFirst; authorizationActive;
   eligibleFor; suitableFor; authorizationPassive; modalAction; affirmativeProceed; passiveAction; subjectAction;
   gerundAction; actionDirective].

Definition RE_SENTENCES : regexp := Eval vm_compute in re "[.!?;\n]+" "u".
Definition RE_CONJUNCTION : regexp :=
  Eval vm_compute in re "\s+(?:and|but|while|whereas|although|however|yet)\s+" "u".

Definition decision_clauses (text : string) : list string :=
  filter (fun c => is_empty c = false)
    (trim <$> (re_split RE_SENTENCES text ≫= fun sentence => re_split RE_CONJUNCTION (normalizeDecisionProse sentence))).

(** At most one assertion per clause: that of the first rule that applies. *)
Definition decisionAssertions (text : string) : list DecisionAssertion :=
  omap (fun clause => head (omap (apply_rule clause) assertion_rules)) (decision_clauses text).

(** * Facts *)

(** The key of a decision determines its normal form. *)
Lemma recordedDecisionKey_spec d d' :
  recordedDecisionKey d = recordedDecisionKey d' <-> normalizeRecordedDecision d = normalizeRecordedDecision d'.
Proof.
  split; [|unfold recordedDecisionKey; by intros ->].
  unfold recordedDecisionKey, json_object, json_member, strings_json, json_array.
  intros H. apply (f_equal list_ascii_of_string) in H. cbn [fmap list_fmap fst snd] in H.
  rewrite !join_cons, !join_one, !list_ascii_of_string_app, !quote_ascii, <- !app_assoc in H.
  apply app_inv_head in H. apply quote_prefix in H as [_ H]. apply app_inv_head in H.
  apply quote_prefix in H as [Ho H]. apply app_inv_head in H. apply quote_prefix in H as [_ H].
  apply app_inv_head in H. apply quote_prefix in H as [Hc H]. apply app_inv_head in H.
  apply quote_prefix in H as [_ H]. do 2 apply app_inv_head in H.
  change (list_ascii_of_string "]") with ["]"%char] in H. apply quoted_list_prefix in H as [Hr _].
  apply outcome_text_inj in Ho. unfold normalizeRecordedDecision in *. simpl in *. congruence.
Qed.

Lemma normalize_reasons l : sort_strings (set_of (sort_strings (set_of l))) = sort_strings (set_of l).
Proof.
  apply sort_strings_unique. rewrite set_of_id; [apply js_sort_perm|].
  unfold sort_strings. rewrite js_sort_perm. apply set_of_NoDup.
Qed.

Lemma normalize_idemp d : normalizeRecordedDecision (normalizeRecordedDecision d) = normalizeRecordedDecision d.
Proof. unfold normalizeRecordedDecision. simpl. by rewrite normalize_reasons. Qed.

Definition carries (d : RecordedDecision) (s : AssistantSupport) : Prop :=
  exists d', active_decision s = Some d' /\ normalizeRecordedDecision d' = d.

(** A decision is resolved when the active supports carry it and no other. *)
Lemma resolve_consistent supports d :
  resolveActiveRecordedDecision supports = consistent d <->
  (exists s, s ∈ supports /\ carries d s) /\
  (forall s d', s ∈ supports -> active_decision s = Some d' -> normalizeRecordedDecision d' = d).
Proof.
  unfold resolveActiveRecordedDecision.
  assert (forall e, e ∈ normalizeRecordedDecision <$> omap active_decision supports <->
                    exists s d', s ∈ supports /\ active_decision s = Some d' /\ normalizeRecordedDecision d' = e) as Hin.
  { intros e. rewrite list_elem_of_fmap. setoid_rewrite list_elem_of_omap. naive_solver. }
  destruct (normalizeRecordedDecision <$> omap active_decision supports) as [|first rest] eqn:Hl.
  { split; [done|]. intros [(s & Hs & d' & Ha & He) _]. exfalso. apply (not_elem_of_nil d), Hin. eauto. }
  assert (normalizeRecordedDecision first = first) as Hn.
  { destruct (proj1 (Hin first)) as (s & d' & _ & _ & <-); [constructor|]. apply normalize_idemp. }
  destruct (forallb _ rest) eqn:Hf.
  - rewrite forallb_forall in Hf. setoid_rewrite <- list_elem_of_In in Hf. setoid_rewrite String.eqb_eq in Hf.
    setoid_rewrite recordedDecisionKey_spec in Hf. split.
    + intros [= <-]. split.
      * destruct (proj1 (Hin first)) as (s & d' & ? & ? & ?); [constructor|]. exists s. split; [done|]. by exists d'.
      * intros s d' Hs Ha. assert (normalizeRecordedDecision d' ∈ first :: rest) as Hx by (apply Hin; eauto).
        apply elem_of_cons in Hx as [Hx|Hx]; [done|]. apply Hf in Hx. by rewrite normalize_idemp, Hn in Hx.
    + intros [_ Hall]. f_equal. destruct (proj1 (Hin first)) as (s & d' & ? & ? & <-); [constructor|]. eauto.
  - split; [done|]. intros [_ Hall]. exfalso. apply Bool.not_true_iff_false in Hf. apply Hf.
    apply forallb_forall. intros e He%list_elem_of_In. apply String.eqb_eq. f_equal.
    destruct (proj1 (Hin e)) as (s & d' & ? & ? & <-); [by constructor|].
    destruct (proj1 (Hin first)) as (s' & d'' & ? & ? & <-); [constructor|].
    by rewrite (Hall s d'), (Hall s' d'').
Qed.

Lemma resolve_absent supports :
  resolveActiveRecordedDecision supports = absent <-> forall s, s ∈ supports -> active_decision s = None.
Proof.
  unfold resolveActiveRecordedDecision. split.
  - destruct (normalizeRecordedDecision <$> omap active_decision supports) as [|first rest] eqn:Hl;
      [|by destruct (forallb _ rest)].
    intros _ s Hs. destruct (active_decision s) as [d|] eqn:Ha; [|done]. exfalso.
    apply fmap_nil_inv in Hl. apply (not_elem_of_nil d). rewrite <- Hl. apply list_elem_of_omap. eauto.
  - intros Hall. rewrite (elem_of_nil_inv (omap active_decision supports)); [done|].
    intros d (s & Hs & Ha)%list_elem_of_omap. rewrite Hall in Ha; done.
Qed.

(** ** Rendering *)

Lemma slug_lower s : Forall slug_char (list_ascii_of_string s) -> toLowerCase s = s.
Proof.
  assert (forall c, slug_char c -> lower_char c = c) as Hc.
  { intros c [H| ->]; [|done]. revert H. destruct c as [[] [] [] [] [] [] [] []]; vm_compute; done. }
  unfold toLowerCase. induction s as [|c s IH]; simpl; [done|]. intros [? ?]%Forall_cons.
  by rewrite Hc, IH.
Qed.

Lemma first_answer_Some {A} (l : list (option (option A))) :
  (forall x, x ∈ l -> x <> Some None) -> (exists x, x ∈ l /\ x <> None) -> exists a, first_answer l = Some a.
Proof.
  induction l as [|[[a|]|] l IH]; intros Hn (x & Hx & Hne).
  - by apply not_elem_of_nil in Hx.
  - by exists a.
  - exfalso. apply (Hn (Some None)); [constructor|done].
  - apply IH.
    + intros y Hy. apply Hn. by constructor.
    + apply elem_of_cons in Hx as [->|Hx]; [done|]. by exists x.
Qed.

Lemma with_suffix_total relation suffix code :
  slug (list_ascii_of_string code) -> head (list_ascii_of_string suffix) = Some "-"%char ->
  with_suffix relation suffix code <> Some None.
Proof.
  intros (_ & (c & Hc & Hcc) & _) Hd. unfold with_suffix. destruct (endsWith suffix code) eqn:He; [|done].
  apply endsWith_spec in He as [u ->]. rewrite append_length, Nat.add_sub, slice_app.
  destruct u as [|d u]; [|done]. change ("" +:+ suffix)%string with suffix in Hc. rewrite Hc in Hd. by injection Hd as ->.
Qed.

Lemma with_prefix_total relation code :
  slug (list_ascii_of_string code) -> with_prefix relation "eligible-for-" code <> Some None.
Proof.
  intros (_ & _ & (c & Hc & Hcc)). unfold with_prefix. destruct (startsWith _ _) eqn:He; [|done].
  apply prefix_spec in He as [u ->]. rewrite slice_from_app. destruct u as [|d u]; [|done].
  injection Hc as <-. done.
Qed.

(** Every code of an answer has a meaning. *)
Lemma expectation_total code :
  assistantDecisionCode code = true -> isSupportedAnswerDecisionCode code = true ->
  exists e, answerDecisionExpectation code = Some e.
Proof.
  intros Hslug%decision_code_slug Hcode. unfold answerDecisionExpectation.
  rewrite slug_lower by apply Hslug. apply first_answer_Some.
  - repeat setoid_rewrite elem_of_cons. intros x Hx.
    repeat (destruct Hx as [->|Hx]; [by (apply with_suffix_total || apply with_prefix_total)|]).
    by apply not_elem_of_nil in Hx.
  - destruct (answer_code_shape code Hcode) as (l & _ & [He%of_ascii|(t & Ht & He%of_ascii)]).
    + exists (with_prefix eligible "eligible-for-" code). split; [by repeat constructor|].
      unfold with_prefix. rewrite (proj2 (prefix_spec "eligible-for-" code)); [by case_all|].
      exists (string_of_list_ascii l). by rewrite He, string_of_app.
    + assert (forall r, with_suffix r (String "-" t) code <> None) as Hs.
      { intros r. unfold with_suffix. rewrite (proj2 (endsWith_spec (String "-" t) code)); [by case_all|].
        exists (string_of_list_ascii l). rewrite He, string_of_app. simpl. by rewrite string_of_list_ascii_of_string. }
      unfold answer_suffixes in Ht. repeat (apply elem_of_cons in Ht as [->|Ht]; [
        (eexists; split; [|apply (Hs preferred)]; by repeat constructor) ||
        (eexists; split; [|apply (Hs permitted)]; by repeat constructor) ||
        (eexists; split; [|apply (Hs applicable)]; by repeat constructor)|]).
      by apply not_elem_of_nil in Ht.
Qed.

(** The statement of a valid decision is defined. *)
Lemma statement_defined d : recordedDecision d = true -> exists s, recordedDecisionStatement d = Ok s.
Proof.
  unfold recordedDecision, recordedDecisionStatement. rewrite !andb_true_iff. intros (((Hc & _) & _) & Ho).
  destruct (rd_outcome d); [|by eexists..]. apply andb_true_iff in Ho as [_ Ha].
  destruct (expectation_total _ Hc Ha) as [e ->]. by eexists.
Qed.

Lemma statement_ends d s :
  recordedDecisionStatement d = Ok s ->
  exists u, list_ascii_of_string s = u ++ " "%char :: (list_ascii_of_string (rd_code d) ++ ["."%char]).
Proof.
  assert (forall t, exists u, list_ascii_of_string (t +:+ (" The recorded decision code is " +:+ rd_code d +:+ "."))%string =
    u ++ " "%char :: (list_ascii_of_string (rd_code d) ++ ["."%char])) as Hend.
  { intros t. exists (list_ascii_of_string t ++ list_ascii_of_string " The recorded decision code is").
    rewrite !append_ascii, <- !app_assoc. done. }
  unfold recordedDecisionStatement. destruct (rd_outcome d); [|by intros [= <-]..].
  destruct (answerDecisionExpectation (rd_code d)); [|done]. by intros [= <-].
Qed.

(** A slug has neither a space nor a dot. *)
Lemma slug_no_space l : slug l -> " "%char ∉ l ++ ["."%char].
Proof.
  intros (Hf & _) [Hin|Hin%list_elem_of_singleton]%elem_of_app; [|done].
  rewrite Forall_forall in Hf. by destruct (Hf _ Hin).
Qed.

(** The statement tells the code of its decision, and the code its outcome. *)
Lemma statement_code d d' s :
  recordedDecision d = true -> recordedDecision d' = true ->
  recordedDecisionStatement d = Ok s -> recordedDecisionStatement d' = Ok s ->
  rd_code d = rd_code d' /\ rd_outcome d = rd_outcome d'.
Proof.
  intros Hd Hd' [u Hu]%statement_ends [u' Hu']%statement_ends.
  assert (forall d, recordedDecision d = true -> slug (list_ascii_of_string (rd_code d))) as Hslug.
  { intros e. unfold recordedDecision. rewrite !andb_true_iff. intros (((? & _) & _) & _).
    by apply decision_code_slug. }
  rewrite Hu in Hu'. apply last_separator_inj in Hu' as [_ Hc%app_inv_tail]; [|by apply slug_no_space, Hslug..].
  apply list_ascii_of_string_inj in Hc. split; [done|].
  unfold recordedDecision in Hd, Hd'. rewrite !andb_true_iff in Hd, Hd'.
  destruct Hd as [_ Hd], Hd' as [_ Hd']. rewrite <- Hc in Hd'.
  destruct d as [[] c r], d' as [[] c' r']; simpl in *; try done; subst c';
    rewrite !andb_true_iff, ?String.eqb_eq in *; exfalso; destruct_and?; subst c;
    repeat match goal with H : isSupportedAnswerDecisionCode _ = true |- _ => vm_compute in H end; discriminate.
Qed.

(** The fixed rendering is total and faithful: every valid recorded decision has a
    statement, and two valid decisions rendered by the same statement have the same code
    and the same outcome. *)
Theorem statement_faithful :
  (forall d, recordedDecision d = true -> exists s, recordedDecisionStatement d = Ok s) /\
  (forall d d' s, recordedDecision d = true -> recordedDecision d' = true ->
     recordedDecisionStatement d = Ok s -> recordedDecisionStatement d' = Ok s ->
     rd_code d = rd_code d' /\ rd_outcome d = rd_outcome d').
Proof. split; [exact statement_defined|exact statement_code]. Qed.

(** Which decision the supports record depends only on the decisions of the active
    ones, not on their order: none when no active support has one; [d] when some active
    support carries [d], up to the order of its reason codes, and none carries another;
    and otherwise two active supports carry different decisions. *)
Theorem resolution_correct supports :
  match resolveActiveRecordedDecision supports with
  | absent => forall s, s ∈ supports -> active_decision s = None
  | consistent d =>
      (exists s, s ∈ supports /\ carries d s) /\ (forall s e, s ∈ supports -> carries e s -> e = d)
  | conflicting => exists s t d e, s ∈ supports /\ t ∈ supports /\ carries d s /\ carries e t /\ d <> e
  end /\
  (forall supports', supports ≡ₚ supports' ->
     resolveActiveRecordedDecision supports = resolveActiveRecordedDecision supports').
Proof.
  assert (forall l, resolveActiveRecordedDecision l = conflicting ->
          exists s t d e, s ∈ l /\ t ∈ l /\ carries d s /\ carries e t /\ d <> e) as Hconf.
  { intros l Hl. destruct (bool_decide_reflect (omap active_decision l = [])) as [Hn|Hn].
    - unfold resolveActiveRecordedDecision in Hl. by rewrite Hn in Hl.
    - destruct (omap active_decision l) as [|d0 ds] eqn:Ho; [done|].
      assert (exists s, s ∈ l /\ active_decision s = Some d0) as (s & Hs & Hd0).
      { apply list_elem_of_omap. rewrite Ho. constructor. }
      destruct (bool_decide_reflect (Forall (fun d => normalizeRecordedDecision d = normalizeRecordedDecision d0) (d0 :: ds)))
        as [Hall|Hex].
      + exfalso. assert (resolveActiveRecordedDecision l = consistent (normalizeRecordedDecision d0)) as Hc; [|congruence].
        apply resolve_consistent. split; [exists s; split; [done|by exists d0]|].
        intros t e Ht He. rewrite Forall_forall in Hall. apply Hall. rewrite <- Ho. apply list_elem_of_omap. by exists t.
      + apply not_Forall_Exists in Hex; [|apply _]. apply Exists_exists in Hex as (e & He & Hne).
        rewrite <- Ho in He. apply list_elem_of_omap in He as (t & Ht & He).
        exists t, s, (normalizeRecordedDecision e), (normalizeRecordedDecision d0). split_and!; try done; by eexists. }
  split.
  - destruct (resolveActiveRecordedDecision supports) as [|d|] eqn:Hr; [by apply resolve_absent| |by apply Hconf].
    apply resolve_consistent in Hr as [Hex Hall]. split; [done|]. intros s e Hs (e' & He' & <-). by apply (Hall s).
  - intros supports' Hp. destruct (resolveActiveRecordedDecision supports) as [|d|] eqn:Hr.
    + symmetry. rewrite resolve_absent in *. intros s Hs. apply Hr. by rewrite Hp.
    + symmetry. rewrite resolve_consistent in *. setoid_rewrite <- Hp. done.
    + apply Hconf in Hr as (s & t & d & e & Hs & Ht & Hd & He & Hne). rewrite Hp in Hs, Ht.
      destruct (resolveActiveRecordedDecision supports') as [|d'|] eqn:Hr'; [| |done].
      * rewrite resolve_absent in Hr'. destruct Hd as (d0 & Hd & _). by rewrite (Hr' s Hs) in Hd.
      * apply resolve_consistent in Hr' as [_ Hall]. destruct Hd as (d0 & Hd & <-), He as (e0 & He & <-).
        by rewrite (Hall s d0 Hs Hd), (Hall t e0 Ht He) in Hne.
Qed.
