(* ===== verification/AssistantProse.v ===== *)
(** * The assistant: decision prose

    [src/src/assistant/service.ts]: whether a text contradicts, repudiates or replaces a
    recorded decision, or makes an operative decision of its own. *)

From S2P Require Import Prelude Regex Digits Base64 Schemas Storage Json Hex Signatures Protection Session AuditLedger EcmaRegExp Text SemanticTokens SemanticSupport AssistantTypes AssistantDecisions.

Local Open Scope Z_scope.

(** ** Repudiation of the decision code *)

Definition RE_WITHOUT_AUTHORITY : regexp :=
  Eval vm_compute in
    re "^without\s+(?:(?:the|an?)\s+)?(?:(?:responsible|accountable|authorized|legal|regulatory|safety|transaction|ownership)\s+)*(?:organization|authority|actor|approval|review|decision|authorization|confirmation)\b" "u".
Definition RE_UNTIL : regexp := Eval vm_compute in re "^(?:until|unless|before|pending)\b" "u".
Definition RE_AS_LEGAL : regexp :=
  Eval vm_compute in
    re "^as\s+(?:legal|regulatory|safety|transaction|ownership)\b" "u".

Definition isQualifiedDecisionBoundaryCaveat (tail : string) : bool :=
  let normalized := trim tail in
  re_test RE_WITHOUT_AUTHORITY normalized || re_test RE_UNTIL normalized || re_test RE_AS_LEGAL normalized.

Definition RE_DIRECT_PREFIX : regexp :=
  Eval vm_compute in
    re "^(?:(?:is\s+)?the\s+(?:recorded\s+)?(?:decision|outcome|code)\s+)?(?:(?:and|but|yet|however)\s+)?(?:(?:it|this|that|the\s+(?:decision|outcome|code))\s+)?" "u".
Definition RE_DIRECT_REPUDIATION : regexp :=
  Eval vm_compute in
    re "^(?:(?:should|must|can|may|will)\s+not\s+(?:be\s+)?(?:followed|acted\s+on|applied|implemented|used|executed|relied\s+on|accepted|adopted|observed)|(?:is|was|remains)\s+not\s+to\s+be\s+(?:followed|acted\s+on|applied|implemented|used|executed|relied\s+on|accepted|adopted|observed)|(?:should|must|can|may|will)\s+be\s+(?:ignored|disregarded|rejected|overridden|dismissed))\b(.*)$" "u".
Definition RE_VERB_BEFORE : regexp :=
  Eval vm_compute in
    re "(?:^|\s)(?:(?:do|does|should|must|can|may|will)\s+not\s+)?(?:follow|act\s+on|apply|implement|use|execute|rely\s+on|accept|adopt|observe|ignore|disregard|reject|override|dismiss)\s*$" "u".
Definition RE_GERUND_BEFORE : regexp :=
  Eval vm_compute in
    re "(?:^|\s)(?:following|acting\s+on|applying|implementing|using|executing|relying\s+on|accepting|adopting|observing)\s*$" "u".
Definition RE_GERUND_REPUDIATION : regexp :=
  Eval vm_compute in
    re "^(?:(?:is|was|remains|would\s+be|should\s+be|must\s+be)\s+(?:(?:not|never)\s+(?:appropriate|recommended|permitted|allowed|authorized|valid|advisable|acceptable)|prohibited|forbidden|invalid|inappropriate|inadvisable|unacceptable))\b(.*)$" "u".

(** The match repudiates unless what follows it is a caveat. *)
Definition repudiates (r : regexp) (text : string) : bool :=
  match re_match r text with
  | Some m => negb (isQualifiedDecisionBoundaryCaveat (default "" (group m 1)))
  | None => false
  end.

Definition repudiatesExactDecisionCode (before after : string) : bool :=
  let prefix := match re_match RE_DIRECT_PREFIX after with Some m => String.length (whole m) | None => O end in
  repudiates RE_DIRECT_REPUDIATION (slice_from prefix after) ||
  re_test RE_VERB_BEFORE before ||
  (re_test RE_GERUND_BEFORE before && repudiates RE_GERUND_REPUDIATION after).

Definition RE_AFTER_INVALID : regexp :=
  Eval vm_compute in
    re "^(?:(?:is|was|remains)\s+)?(?:incorrect|invalid|wrong|false|inapplicable)\b" "u".
Definition RE_BEFORE_NOT : regexp :=
  Eval vm_compute in
    re "(?:^|\s)(?:(?:is|was|were|does|do|can)\s+not|cannot|never|not)$" "u".
Definition RE_AFTER_NOT : regexp :=
  Eval vm_compute in
    re "^(?:(?:[a-z0-9]+)\s+){0,4}(?:(?:does|do|is|was|were|can)\s+not|cannot|never)\s+(?:apply|applies|applicable|valid|supported|recorded|correct|(?:the\s+)?(?:recorded\s+)?(?:decision|outcome|code))\b" "u".

(** One sentence; the first occurrence of the code counts. *)
Definition sentence_contradicts (code rawSentence : string) : bool :=
  let sentence := normalizeDecisionProse rawSentence in
  match indexOf code sentence with
  | None => false
  | Some codeIndex =>
      let before := trim (slice 0 codeIndex sentence) in
      let after := trim (slice_from (codeIndex + String.length code) sentence) in
      re_test RE_AFTER_INVALID after || repudiatesExactDecisionCode before after || re_test RE_BEFORE_NOT before ||
      re_test RE_AFTER_NOT after
  end.

Definition contradictsRecordedDecision (text decisionCode : string) : bool :=
  let code := normalizeDecisionProse decisionCode in
  if is_empty code then false else existsb (sentence_contradicts code) (re_split RE_SENTENCES text).

(** ** Occurrences of decision codes *)

(** The code with its syntax characters escaped, between characters of no code. *)
Definition exact_code_pattern (decisionCode : string) : regexp :=
  re ("(?:^|[^a-z0-9-])" +:+ escapeRegExp decisionCode +:+ "(?:$|[^a-z0-9-])")%string "iu".

Definition containsExactDecisionCode (text decisionCode : string) : bool :=
  re_test (exact_code_pattern decisionCode) text.

Definition removeExactDecisionCode (text decisionCode : string) : string :=
  re_replace (re (escapeRegExp decisionCode) "giu") "recorded-code-token" text.

Definition RE_AUTOMATIC_APPROVAL : regexp :=
  Eval vm_compute in
    re "\b(?:automatic approval|automatically approve(?:d|s)?|approved automatically|approves automatically)\b" "gu".
Definition RE_NEGATED_BEFORE : regexp :=
  Eval vm_compute in
    re "\b(?:no|not|never|without|cannot|does not|is not|will not)$" "u".
Definition RE_NEGATED_AFTER : regexp :=
  Eval vm_compute in
    re "^(?:is|was|remains)\s+(?:not|prohibited|forbidden|blocked)\b" "u".

Definition affirms_approval (normalizedText : string) (m : RegExpMatch) : bool :=
  let index := Z.to_nat (m_index m) in
  negb (re_test RE_NEGATED_BEFORE (trimEnd (slice (index - 35) index normalizedText))) &&
  negb (re_test RE_NEGATED_AFTER (trimStart (slice_from (index + String.length (whole m)) normalizedText))).

Definition containsAffirmativeAutomaticApproval (normalizedText : string) : bool :=
  existsb (affirms_approval normalizedText) (re_matchAll RE_AUTOMATIC_APPROVAL normalizedText).

Definition opposites : list (string * list string) :=
  [("sufficient", ["insufficient"]); ("insufficient", ["sufficient"]); ("eligible", ["ineligible"]);
   ("ineligible", ["eligible"]); ("permitted", ["prohibited"]); ("prohibited", ["permitted"]);
   ("accepted", ["rejected"]); ("rejected", ["accepted"; "approved"]); ("approved", ["rejected"]);
   ("available", ["unavailable"]); ("unavailable", ["available"]); ("pass", ["fail"]); ("fail", ["pass"])]%string.

(** [for (const opposite of opposites[token] ?? [])]: what a token inherits is not iterable. *)
Definition opposites_of (token : string) : result exn (list string) :=
  match property opposites token with
  | Own l => Ok l
  | Inherited => Throw TypeError
  | Absent => Ok []
  end.

Definition has_alternate (normalizedText : string) (expectedTokens : list string) (index : nat) (token : string) :
    result exn bool :=
  l ← opposites_of token;
  Ok (existsb (fun opposite =>
        contains (" " +:+ join " " (<[index := opposite]> expectedTokens) +:+ " ")%string normalizedText) l).

Definition RE_DECISION_CODE_IS : regexp :=
  Eval vm_compute in
    re "\b(?:(?:recorded\s+)?decision\s+code(?:\s+is)?|the\s+code)\s+['\u0022]?([a-z0-9]+(?:-[a-z0-9]+)+)\b" "giu".

Definition containsAlternateDecisionCode (text expectedCode : string) : result exn bool :=
  let normalizedText := (" " +:+ normalizeDecisionProse text +:+ " ")%string in
  if String.eqb expectedCode "external-decision-required" && containsAffirmativeAutomaticApproval normalizedText
  then Ok true
  else
    let expectedTokens := split "-"%char (toLowerCase expectedCode) in
    or_else
      (some (fun p => has_alternate normalizedText expectedTokens p.1 p.2)
         (imap pair expectedTokens))
      (Ok (existsb (fun m => match group m 1 with
                             | Some code => negb (String.eqb (toLowerCase code) (toLowerCase expectedCode))
                             | None => false
                             end) (re_matchAll RE_DECISION_CODE_IS text))).

(** ** Operative decisions *)

Definition RE_COULD_BE_CONSIDERED : regexp := Eval vm_compute in re "\b(?:could|may) be considered\b" "u".
Definition RE_CANDIDATE_ROUTE : regexp :=
  Eval vm_compute in
    re "\b(?:possible|potential|candidate)\s+(?:route|option|alternative)\b" "u".
Definition RE_PENDING : regexp :=
  Eval vm_compute in
    re "\b(?:for consideration|pending (?:review|approval|a decision))\b" "u".

Definition isClearlyNonOperative (text : string) : bool :=
  let normalized := normalizeDecisionProse text in
  re_test RE_COULD_BE_CONSIDERED normalized || re_test RE_CANDIDATE_ROUTE normalized || re_test RE_PENDING normalized.

Definition isClearlyNonOperativeAssertion (relation : DecisionRelation) (source : string) : bool :=
  negb (bool_decide (relation = action)) && isClearlyNonOperative source.

Definition RE_UNAVAILABLE : regexp := Eval vm_compute in re "\bunavailable\b" "u".
Definition RE_OPERATIVE_TARGET : regexp :=
  Eval vm_compute in
    re "\b(?:resale|listing|reuse|recycling|repurposing|route|option|transaction|recovery|lifecycle\s+action)\b" "u".
Definition RE_USE_OF : regexp := Eval vm_compute in re "^(?:use|reuse)\s+of\b" "u".

Definition isOperativeDecisionAssertion (relation : DecisionRelation) (target source : string) : bool :=
  if bool_decide (relation = authorization) && re_test RE_UNAVAILABLE source && negb (re_test RE_OPERATIVE_TARGET target)
  then false
  else negb (bool_decide (relation = action)) || negb (re_test RE_USE_OF (trim target)).

Definition RE_CODE_IN_PROSE : regexp :=
  Eval vm_compute in
    re "\b(?:recorded\s+)?decision\s+code\b.{0,40}\b[a-z0-9]+(?:-[a-z0-9]+)+\b" "u".
Definition RE_ANSWER_CODE : regexp :=
  Eval vm_compute in
    re "\b(?:eligible-for-[a-z0-9]+(?:-[a-z0-9]+)*|[a-z0-9]+(?:-[a-z0-9]+)*-(?:preferred|recommended|selected|permitted|allowed|authorized|applicable))\b" "u".
Definition RE_ELIGIBILITY_RECORDED : regexp :=
  Eval vm_compute in
    re "\b(?:eligibility|permission|authorization|preference|recommendation|selection)\s+(?:of|for)\s+.{1,80}\s+(?:is|was|remains|has\s+been)\s+(?:recorded|established|confirmed|supported|approved)\b" "u".
Definition RE_QUALIFIES_FOR : regexp :=
  Eval vm_compute in
    re "\b(?:the\s+)?(?:battery|pack|module|it|this\s+(?:battery|pack|module))\s+(?:qualifies|is\s+fit)\s+for\s+(?:resale|reuse|recycling|repurposing|continued\s+(?:compatible\s+)?ev\s+use)\b" "u".
Definition RE_GREEN_LIGHT : regexp :=
  Eval vm_compute in
    re "\b(?:green\s+light|go\s+ahead)\s+(?:for|to)\s+(?:resale|reuse|recycling|repurposing|listing|continued\s+(?:compatible\s+)?ev\s+use)\b" "u".
Definition RE_WAY_FORWARD : regexp :=
  Eval vm_compute in
    re "\b(?:resale|reuse|recycling|repurposing|continued\s+(?:compatible\s+)?ev\s+use)\s+(?:is|remains)\s+the\s+way\s+forward\b" "u".
Definition RE_HAS_ELIGIBILITY : regexp :=
  Eval vm_compute in
    re "\b(?:resale|reuse|recycling|repurposing|listing|continued\s+(?:compatible\s+)?ev\s+use)\s+has\s+(?:recorded|confirmed|established)\s+(?:eligibility|permission|authorization|approval|preference)\b" "u".
Definition RE_RECEIVES_GREEN_LIGHT : regexp :=
  Eval vm_compute in
    re "\b(?:resale|reuse|recycling|repurposing|listing|continued\s+(?:compatible\s+)?ev\s+use)\s+(?:receives|gets|has)\s+the\s+(?:green\s+light|go\s+ahead)\b" "u".
Definition RE_CAN_GO_TO : regexp :=
  Eval vm_compute in
    re "\b(?:the\s+)?(?:battery|pack|module|it|this\s+(?:battery|pack|module))\s+can\s+go\s+to\s+(?:resale|reuse|recycling|repurposing)\b" "u".
Definition RE_PROCEEDING : regexp :=
  Eval vm_compute in
    re "\bproceeding(?:\s+with\s+.{1,80})?\s+(?:is|remains)\s+warranted\b" "u".
Definition RE_MODAL : regexp := Eval vm_compute in re "\b(?:should|must|can|may|will)\b" "u".
Definition RE_APPROVING : regexp :=
  Eval vm_compute in
    re "\b(?:appropriate|recommended|preferred|permitted|allowed|authorized|approved)\b" "u".
Definition RE_DIRECTIVE : regexp :=
  Eval vm_compute in
    re "^(?:please\s+)?(?:use|reuse|resell|sell|recycle|repurpose|recover|enter|perform|execute|proceed|list|purchase|transfer|fund|settle)\b" "u".

Definition unbound_patterns : list regexp :=
  [RE_ELIGIBILITY_RECORDED; RE_QUALIFIES_FOR; RE_GREEN_LIGHT; RE_WAY_FORWARD; RE_HAS_ELIGIBILITY;
   RE_RECEIVES_GREEN_LIGHT; RE_CAN_GO_TO; RE_PROCEEDING].

Definition operative (a : DecisionAssertion) : bool :=
  if isClearlyNonOperativeAssertion (da_relation a) (da_source a) then false
  else if negb (isOperativeDecisionAssertion (da_relation a) (da_target a) (da_source a)) then false
  else if negb (bool_decide (da_relation a = action)) then true
  else
    let normalized := normalizeDecisionProse (da_source a) in
    re_test RE_MODAL normalized || re_test RE_APPROVING normalized || re_test RE_DIRECTIVE normalized.

Definition containsUnboundOperativeDecision (text : string) : bool :=
  let normalized := normalizeDecisionProse text in
  let lowered := toLowerCase text in
  re_test RE_CODE_IN_PROSE lowered || re_test RE_ANSWER_CODE lowered ||
  existsb (fun r => re_test r normalized) unbound_patterns ||
  existsb operative (decisionAssertions text).

Definition RE_DECISION_CODE_WORDS : regexp := Eval vm_compute in re "\b(?:recorded\s+)?decision\s+code\b" "iu".

Definition isModelAuthoredExplanation (text decisionCode : string) : bool :=
  negb (containsExactDecisionCode text decisionCode) && negb (re_test RE_DECISION_CODE_WORDS text) &&
  negb (containsUnboundOperativeDecision text).

(** ** Targets of decisions *)

Definition RE_AUTOMOTIVE_USE : regexp := Eval vm_compute in re "\bcontinued automotive use\b" "gu".
Definition RE_EV_USE : regexp := Eval vm_compute in re "\bcontinued ev use\b" "gu".
Definition RE_ELECTRIC_VEHICLE : regexp := Eval vm_compute in re "\belectric vehicle\b" "gu".
Definition RE_ENERGY_STORAGE : regexp := Eval vm_compute in re "\bstationary energy storage\b" "gu".
Definition RE_RECOVER : regexp := Eval vm_compute in re "\b(?:recover|recovered|recovering)\b" "gu".
Definition RE_RESELL : regexp := Eval vm_compute in re "\b(?:resell|resold|reselling|sell|sold|selling)\b" "gu".
Definition RE_RECYCLE : regexp := Eval vm_compute in re "\b(?:recycle|recycled|recycling)\b" "gu".
Definition RE_REPURPOSE : regexp := Eval vm_compute in re "\b(?:repurpose|repurposed|repurposing)\b" "gu".
Definition RE_USE : regexp := Eval vm_compute in re "\b(?:use|used|using)\b" "gu".

Definition TARGET_STOPWORDS : list string :=
  ["a"; "an"; "the"; "this"; "that"; "route"; "option"; "alternative"; "choice"; "battery"; "for"; "to"; "with";
   "under"; "enter"; "perform"; "execute"; "proceed"; "list"].

Definition decisionTargetTokens (value : string) : list string :=
  filter (fun t => is_empty t = false /\ has TARGET_STOPWORDS t = false)
    (split " "%char
       (replaces
          [(RE_AUTOMOTIVE_USE, "continued compatible ev use"); (RE_EV_USE, "continued compatible ev use");
           (RE_ELECTRIC_VEHICLE, "ev"); (RE_ENERGY_STORAGE, "stationary storage repurposing");
           (RE_RECOVER, "recovery"); (RE_RESELL, "resale"); (RE_RECYCLE, "recycling");
           (RE_REPURPOSE, "repurposing"); (RE_USE, "use")]%string (normalizeDecisionProse value))).

Definition decisionTargetMatches (actual expected : string) : bool :=
  match decisionTargetTokens expected with
  | [] => false
  | expectedTokens => forallb (has (decisionTargetTokens actual)) expectedTokens
  end.

(** ** Semantic contradiction *)

Definition RE_NO_REVIEW : regexp :=
  Eval vm_compute in
    re "(?:^|\b)no\s+(?:accountable\s+)?external\s+(?:review|decision)\s+(?:is\s+)?(?:needed|required|necessary)\b" "u".
Definition RE_REVIEW_NOT : regexp :=
  Eval vm_compute in
    re "\b(?:accountable\s+)?external\s+(?:review|decision)\s+(?:is|was|remains)\s+not\s+(?:needed|required|necessary)\b" "u".
Definition RE_EVIDENCE_SUFFICIENT : regexp :=
  Eval vm_compute in
    re "\b(?:the\s+|all\s+|required\s+)?evidence\s+(?:is|was|remains)\s+(?:sufficient|complete|available)\b" "u".
Definition RE_NO_EVIDENCE_MISSING : regexp :=
  Eval vm_compute in
    re "\bno\s+(?:required\s+)?evidence\s+(?:is|was|remains)\s+missing\b" "u".

Definition contradictsNonAnswerDecisionSemantics (text : string) (d : RecordedDecision) : bool :=
  let normalized := normalizeDecisionProse text in
  let requiresExternalDecision :=
    bool_decide (rd_outcome d = requires_external_decision) || has (rd_reason_codes d) "external-decision-required" in
  let lacksEvidence :=
    bool_decide (rd_outcome d = outcome_abstain) &&
    (String.eqb (rd_code d) "insufficient-evidence" || has (rd_reason_codes d) "missing-evidence") in
  if requiresExternalDecision && (re_test RE_NO_REVIEW normalized || re_test RE_REVIEW_NOT normalized) then true
  else lacksEvidence && (re_test RE_EVIDENCE_SUFFICIENT normalized || re_test RE_NO_EVIDENCE_MISSING normalized).

(** An assertion against the answer the code stands for. *)
Definition contradicts_answer (e : AnswerDecisionExpectation) (a : DecisionAssertion) : bool :=
  let targetsExpectedAction := decisionTargetMatches (da_target a) (e_target e) in
  match da_polarity a with
  | negative => targetsExpectedAction
  | affirmative =>
      match e_relation e with
      | applicable => bool_decide (da_relation a = applicability) && negb targetsExpectedAction
      | preferred =>
          if negb (bool_decide (da_relation a = preference)) && negb (bool_decide (da_relation a = action))
          then false else negb targetsExpectedAction
      | eligible | permitted => negb targetsExpectedAction
      end
  end.

Definition contradictsRecordedDecisionSemantics (text : string) (d : RecordedDecision) : bool :=
  let prose := removeExactDecisionCode text (rd_code d) in
  let assertions := decisionAssertions prose in
  match rd_outcome d with
  | outcome_answer =>
      match answerDecisionExpectation (rd_code d) with
      | None => false
      | Some e => existsb (contradicts_answer e) assertions
      end
  | _ =>
      contradictsNonAnswerDecisionSemantics prose d ||
      existsb (fun a =>
        bool_decide (da_polarity a = affirmative) &&
        isOperativeDecisionAssertion (da_relation a) (da_target a) (da_source a) &&
        negb (isClearlyNonOperativeAssertion (da_relation a) (da_source a))) assertions
  end.
