(* ===== verification/AssistantValidation.v ===== *)
(** * The assistant: validation and release of candidates

    [src/src/assistant/service.ts]: the checks of a model's candidate against the supports,
    the rendering of a recorded decision with the explanations that pass, and the fixed
    results of the deterministic branches. [Throw] is an error the code does not catch. *)

From S2P Require Import Prelude Regex Digits Base64 Schemas Storage Json Hex Signatures Protection Session AuditLedger EcmaRegExp Text SemanticTokens SemanticSupport AssistantTypes AssistantDecisions AssistantProse.

Local Open Scope Z_scope.

(** [[...new Set(codes)].sort()] *)
Definition unique_codes (codes : list string) : list string := sort_strings (set_of codes).

Definition code_if (b : bool) (code : string) : list string := if b then [code] else [].

(** ** Claims *)

(** [new Map(supports.map((item) => [item.support_id, item]))] *)
Definition support_map (supports : list AssistantSupport) : list (string * AssistantSupport) :=
  fold_left (fun m s => map_set (support_id s) s m) supports [].

Definition cited_support (supports : list AssistantSupport) (id : string) : option AssistantSupport :=
  s ← map_get id (support_map supports); if is_active s then Some s else None.

(** The text of a cited support, with the statement of its decision. *)
Definition support_text (s : AssistantSupport) : result exn string :=
  match recorded_decision s with
  | None => Ok (content s)
  | Some d => statement ← recordedDecisionStatement d; Ok (content s +:+ String "010" statement)%string
  end.

Definition validateAssistantClaim (claim : Claim) (supports : list AssistantSupport) : result exn (list string) :=
  let citationIds := set_of (citation_ids claim) in
  match citationIds with
  | [] => Ok ["uncited-claim"]
  | _ =>
      let citedSupports := omap (cited_support supports) citationIds in
      if (length citedSupports =? length citationIds)%nat then
        texts ← map_result support_text citedSupports;
        supported ← hasJointSemanticSupport (claim_text claim) texts true;
        Ok (code_if (negb supported) "unsupported-claim")
      else Ok ["invalid-citation"]
  end.

(** ** What a candidate shows *)

Definition userVisibleTexts (c : AssistantCandidate) : list string :=
  [summary c] ++ (claim_text <$> claims c) ++ warnings c ++ missing_requirements c.

(** A text outside the claims that no support carries. *)
Definition unsupported_text (supports : list string) (text : string) : result exn bool :=
  if is_empty (trim text) || isNonFactualBoilerplate text then Ok false
  else not_ (hasJointSemanticSupport text supports false).

Definition unsupported_texts (c : AssistantCandidate) (supports : list string) : result exn (list string) :=
  flat_map_result (fun text => b ← unsupported_text supports text; Ok (code_if b "unsupported-user-visible-text"))
    ([summary c] ++ warnings c ++ missing_requirements c).

Definition RE_SECRET : regexp :=
  Eval vm_compute in
    re "(?:-----begin (?:rsa |ec )?private key-----|sk-[a-z0-9_-]{16,}|0x[0-9a-f]{64}\b|document_encryption_key|openai_api_key)" "iu".

Definition containsSecretLikeOutput (c : AssistantCandidate) : bool := re_test RE_SECRET (candidate_json c).

Definition containsProhibitedSupportDisclosure (c : AssistantCandidate) (supports : list AssistantSupport) :
    result exn bool :=
  let output := candidate_json c in
  some (fun s => and_then (Ok (negb (is_active s))) (semanticDisclosureMatch (content s) output)) supports.

Definition RE_NO_OVERALL_SCORE : regexp := Eval vm_compute in re "no overall sustainability score" "iu".
Definition RE_NEGATED_SCORE : regexp :=
  Eval vm_compute in
    re "(?:no overall sustainability score(?: (?:is |was )?(?:calculated|computed|reported|produced))?|does not (?:calculate|compute|report|produce) an? overall sustainability score)" "giu".
Definition RE_SCORE_OF_100 : regexp :=
  Eval vm_compute in
    re "\b(?:score(?: of)?\s+)?[0-9]+(?:\.[0-9]+)?\s*\/\s*100\b" "iu".
Definition RE_CIRCULARITY_SCORE : regexp :=
  Eval vm_compute in
    re "\bcircularity\b|\bC\s*(?:=|(?:component\s+)?is)\s*[0-9]+(?:\.[0-9]+)?\s*\/\s*100\b" "iu".
Definition RE_COMPONENT_INFERENCE : regexp :=
  Eval vm_compute in
    re "\b(?:circularity|component)\b.{0,100}\b(?:indicat|show|demonstrat)[a-z]*\b.{0,80}\b(?:sustainability performance|overall performance|more sustainable|most sustainable|optimal(?:ity)?)\b" "iu".
Definition RE_OVERALL_SCORE : regexp :=
  Eval vm_compute in
    re "(?:scores? (?:the )?highest overall|highest overall score|overall sustainability score (?:of|is|equals)|overall score (?:of|is|equals))" "iu".

Definition claimsUnsupportedCompositeScore (c : AssistantCandidate) (supports : list AssistantSupport) : bool :=
  existsb (fun s => re_test RE_NO_OVERALL_SCORE (content s)) supports &&
  let candidateText := re_replace RE_NEGATED_SCORE "" (candidate_json c) in
  let ambiguousComponentScore :=
    existsb (fun cl => re_test RE_SCORE_OF_100 (claim_text cl) && negb (re_test RE_CIRCULARITY_SCORE (claim_text cl)))
      (claims c) in
  ambiguousComponentScore || re_test RE_COMPONENT_INFERENCE candidateText || re_test RE_OVERALL_SCORE candidateText.

Definition RE_EXACT_CODE : regexp :=
  Eval vm_compute in
    re "(?:recorded deterministic outcome code|exact decision code) is '([a-z0-9-]+)'" "iu".

Definition expectedDeterministicOutcome (supports : list AssistantSupport) : option string :=
  match resolveActiveRecordedDecision supports with
  | consistent d => Some (rd_code d)
  | _ => head (omap (fun s => m ← re_match RE_EXACT_CODE (content s); toLowerCase <$> group m 1) supports)
  end.

(** ** Reason codes *)

Definition RE_MISSING_EVIDENCE : regexp :=
  Eval vm_compute in
    re "\b(?:missing|no current)\b.{0,80}\b(?:evidence|record|report|inspection)\b" "iu".
Definition RE_CONFLICT : regexp := Eval vm_compute in re "\b(?:conflict|conflicting|disagree|incompatible)\b" "iu".

Definition status_in (l : list SupportState) (s : AssistantSupport) : bool := bool_decide (status s ∈ l).

(** The reason codes the supports and the outcome justify. *)
Definition justified_reasons (c : AssistantCandidate) (supports : list AssistantSupport) : list string :=
  let recordedOutcome := expectedDeterministicOutcome supports in
  code_if (bool_decide (supports = []) || existsb (status_in [sup_missing]) supports) "missing-evidence" ++
  code_if (existsb (status_in [sup_conflicting]) supports) "conflicting-evidence" ++
  code_if (existsb (status_in [sup_restricted; sup_stale; sup_revoked; sup_superseded]) supports) "inactive-evidence" ++
  code_if (existsb (fun s => looksLikeEmbeddedInstruction (content s)) supports) "prompt-injection" ++
  code_if (bool_decide (recordedOutcome = Some "insufficient-evidence"%string) ||
           existsb (fun s => re_test RE_MISSING_EVIDENCE (content s)) supports) "missing-evidence" ++
  code_if (bool_decide (recordedOutcome = Some "external-decision-required"%string) ||
           existsb (fun s => re_test RE_CONFLICT (content s)) supports) "conflicting-evidence" ++
  code_if (bool_decide (cd_outcome c = requires_external_decision)) "external-decision-required".

Definition reasonCodesAreCoherent (c : AssistantCandidate) (supports : list AssistantSupport) : bool :=
  let reported := evidence_reason_codes c in
  match resolveActiveRecordedDecision supports with
  | conflicting => false
  | consistent d => sameReasonCodes reported (rd_reason_codes d)
  | absent => true
  end &&
  negb (bool_decide (cd_outcome c = outcome_answer) && negb (bool_decide (reported = []))) &&
  forallb (has (justified_reasons c supports)) reported &&
  negb (bool_decide (cd_outcome c = requires_external_decision) &&
        negb (has reported "external-decision-required") && negb (has reported "conflicting-evidence")).

(** ** Validation of a candidate *)

Definition RE_PREFERRED_SUFFIX : regexp := Eval vm_compute in re "-preferred$" "u".
Definition RE_PREFERS : regexp := Eval vm_compute in re "\b(?:preferred|recommended|selected)\b" "iu".
Definition RE_PERMITTED_LIFECYCLE : regexp :=
  Eval vm_compute in
    re "\b(?:lifecycle|workflow|action)\b.{0,50}\b(?:is )?permitted\b" "iu".
Definition RE_ASSESSMENT_QUESTION : regexp := Eval vm_compute in re "(?:route|assessment|workflow|lifecycle)" "iu".

Definition deterministic_mismatch (c : AssistantCandidate) (supports : list AssistantSupport) (question : string) : bool :=
  match expectedDeterministicOutcome supports with
  | None => false
  | Some code =>
      let normalizedSummary := trim (re_replace RE_NOT_ALNUM " " (toLowerCase (summary c))) in
      let expectedNaturalOutcome := replaceAll "-"%char " " (re_replace RE_PREFERRED_SUFFIX "" code) in
      let naturallyStatesExpectedOutcome :=
        contains expectedNaturalOutcome normalizedSummary &&
        (negb (endsWith "-preferred" code) || re_test RE_PREFERS normalizedSummary) in
      let naturallyStatesPermittedLifecycle :=
        String.eqb code "lifecycle-action-permitted" && re_test RE_PERMITTED_LIFECYCLE normalizedSummary in
      re_test RE_ASSESSMENT_QUESTION question && negb (contains code (toLowerCase (summary c))) &&
      negb naturallyStatesExpectedOutcome && negb naturallyStatesPermittedLifecycle
  end.

Definition has_decision (d : RecordedDecision) (s : AssistantSupport) : bool :=
  match active_decision s with
  | Some d' => String.eqb (recordedDecisionKey d') (recordedDecisionKey d)
  | None => false
  end.

Definition decision_support_ids (d : RecordedDecision) (supports : list AssistantSupport) : list string :=
  support_id <$> filter (fun s => has_decision d s = true) supports.

(** The codes about a recorded decision; [validated] pairs the claims with their codes. *)
Definition decision_codes (c : AssistantCandidate) (supports : list AssistantSupport) (d : RecordedDecision)
    (validated : list (Claim * list string)) : result exn (list string) :=
  let ids := decision_support_ids d supports in
  let passed := (filter (fun p => p.2 = []) validated).*1 in
  let citedDecisionClaim :=
    existsb (fun cl =>
      containsExactDecisionCode (claim_text cl) (rd_code d) && negb (contradictsRecordedDecision (claim_text cl) (rd_code d)) &&
      existsb (has ids) (citation_ids cl)) passed in
  alternate ← some (fun text => containsAlternateDecisionCode text (rd_code d)) (userVisibleTexts c);
  let semanticDecisionTexts := [summary c] ++ (claim_text <$> passed) ++ warnings c ++ missing_requirements c in
  Ok (code_if (existsb (fun text => contradictsRecordedDecision text (rd_code d)) (userVisibleTexts c))
        "recorded-decision-contradiction" ++
      code_if (negb (containsExactDecisionCode (summary c) (rd_code d))) "recorded-decision-summary-code-missing" ++
      code_if (negb citedDecisionClaim) "recorded-decision-cited-claim-missing" ++
      code_if alternate "recorded-decision-user-visible-code-mismatch" ++
      code_if (existsb (fun text => contradictsRecordedDecisionSemantics text d) semanticDecisionTexts)
        "recorded-decision-semantic-contradiction").

(** The codes of the tuple (outcome, code, reasons). *)
Definition tuple_codes (c : AssistantCandidate) (r : ActiveRecordedDecisionResolution) : list string :=
  match r with
  | conflicting => ["conflicting-recorded-decision"]
  | absent => code_if (bool_decide (is_Some (cd_decision_code c))) "unexpected-decision-code"
  | consistent d =>
      code_if (negb (bool_decide (cd_outcome c = rd_outcome d)) || negb (bool_decide (cd_decision_code c = Some (rd_code d))) ||
               negb (sameReasonCodes (evidence_reason_codes c) (rd_reason_codes d))) "recorded-decision-mismatch"
  end%string.

(** What the texts outside the claims may rest on. *)
Definition visible_supports (supports : list AssistantSupport) (validated : list (Claim * list string))
    (r : ActiveRecordedDecisionResolution) : result exn (list string) :=
  statement ← match r with
              | consistent d => s ← recordedDecisionStatement d; Ok [s]
              | _ => Ok []
              end;
  Ok ((content <$> filter (fun s => is_active s = true) supports) ++
      ((fun p => claim_text p.1) <$> filter (fun p => p.2 = []) validated) ++ statement).

Definition validate_claims (c : AssistantCandidate) (supports : list AssistantSupport) :
    result exn (list (Claim * list string)) :=
  map_result (fun cl => codes ← validateAssistantClaim cl supports; Ok (cl, codes)) (claims c).

Definition validateAssistantCandidate (c : AssistantCandidate) (supports : list AssistantSupport) (question : string) :
    result exn (list string) :=
  validated ← validate_claims c supports;
  let recordedDecision := resolveActiveRecordedDecision supports in
  decision ← match recordedDecision with
             | consistent d => decision_codes c supports d validated
             | absent => Ok (code_if (existsb containsUnboundOperativeDecision (userVisibleTexts c)) "unbound-decision-assertion")
             | conflicting => Ok []
             end;
  visible ← visible_supports supports validated recordedDecision;
  unsupported ← unsupported_texts c visible;
  disclosure ← containsProhibitedSupportDisclosure c supports;
  Ok (unique_codes
        (code_if (bool_decide (cd_outcome c = outcome_answer) && bool_decide (claims c = [])) "empty-answer" ++
         concat validated.*2 ++ tuple_codes c recordedDecision ++ decision ++ unsupported ++
         code_if (negb (reasonCodesAreCoherent c supports)) "incoherent-reason-code" ++
         code_if (containsSecretLikeOutput c) "prohibited-disclosure" ++ code_if disclosure "prohibited-disclosure" ++
         code_if (claimsUnsupportedCompositeScore c supports) "composite-score-claim" ++
         code_if (deterministic_mismatch c supports question) "deterministic-outcome-mismatch")).

Definition validateAssistantExplanationCandidate (c : AssistantCandidate) (supports : list AssistantSupport) :
    result exn (list string) :=
  validated ← validate_claims c supports;
  visible ← visible_supports supports validated absent;
  unsupported ← unsupported_texts c visible;
  disclosure ← containsProhibitedSupportDisclosure c supports;
  Ok (unique_codes
        (code_if (bool_decide (claims c = [])) "empty-explanation" ++ concat validated.*2 ++
         code_if (existsb containsUnboundOperativeDecision (userVisibleTexts c)) "model-authored-decision-assertion" ++
         unsupported ++
         code_if (containsSecretLikeOutput c) "prohibited-disclosure" ++ code_if disclosure "prohibited-disclosure" ++
         code_if (claimsUnsupportedCompositeScore c supports) "composite-score-claim")).

(** ** Rendering and release *)

Section Release.
Context `{HL : LocaleCompare}.

Definition claim_number (n : nat) : string := ("claim-" +:+ number_to_string (Z.of_nat n))%string.

(** The model's explanations that may be shown, numbered from 2. *)
Definition explanatory_claims (screenExplanation : bool) (c : AssistantCandidate) (supports : list AssistantSupport)
    (code : string) : result exn (list Claim) :=
  kept ← filter_result (fun cl =>
           if screenExplanation then codes ← validateAssistantClaim cl supports; Ok (bool_decide (codes = []))
           else Ok true)
         (filter (fun cl => isModelAuthoredExplanation (claim_text cl) code = true) (claims c));
  Ok (imap (fun i cl => mkClaim (claim_number (i + 2)) (claim_text cl) (citation_ids cl)) kept).

Definition retainVisibleExplanation (screenExplanation : bool) (code : string) (explanatorySupports : list string)
    (text : string) : result exn bool :=
  if negb (isModelAuthoredExplanation text code) then Ok false
  else if negb screenExplanation || isNonFactualBoilerplate text then Ok true
  else hasJointSemanticSupport text explanatorySupports false.

Definition by_support_id (s t : AssistantSupport) : Z := localeCompare (support_id s) (support_id t).

Definition materializeAssistantCandidateWithRecordedDecision (c : AssistantCandidate) (supports : list AssistantSupport)
    (screenExplanation : bool) : result exn (AssistantCandidate * ActiveRecordedDecisionResolution) :=
  let resolution := resolveActiveRecordedDecision supports in
  match resolution with
  | consistent d =>
      let decisionSupportIds := support_id <$> js_sort by_support_id (filter (fun s => has_decision d s = true) supports) in
      fixedDecisionText ← recordedDecisionStatement d;
      explanatoryClaims ← explanatory_claims screenExplanation c supports (rd_code d);
      let explanatorySupports := (content <$> filter (fun s => is_active s = true) supports) ++ [fixedDecisionText] in
      let retain := retainVisibleExplanation screenExplanation (rd_code d) explanatorySupports in
      warnings_ ← filter_result retain (warnings c);
      missing ← filter_result retain (missing_requirements c);
      Ok (mkCandidate (rd_outcome d) (Some (rd_code d)) fixedDecisionText
            (mkClaim "claim-1" fixedDecisionText decisionSupportIds :: explanatoryClaims)
            (rd_reason_codes d) warnings_ missing claims_after_summary, resolution)
  | _ => Ok (c, resolution)
  end.

Definition bindAssistantCandidateToRecordedDecision (c : AssistantCandidate) (supports : list AssistantSupport) :
    result exn (AssistantCandidate * ActiveRecordedDecisionResolution) :=
  materializeAssistantCandidateWithRecordedDecision c supports false.

Definition emptyExplanationCandidate : AssistantCandidate :=
  mkCandidate outcome_abstain None "" [] ["missing-evidence"] [] [] claims_after_summary.

Record Release := mkRelease {
  rl_candidate : AssistantCandidate;
  rl_validation_candidate : AssistantCandidate;
  rl_validation_codes : list string;
  rl_resolution : ActiveRecordedDecisionResolution;
  rl_explanation_withheld : bool
}.

Definition is_consistent (r : ActiveRecordedDecisionResolution) : bool :=
  match r with consistent _ => true | _ => false end.

Definition releaseAssistantCandidateWithRecordedDecision (c : AssistantCandidate) (supports : list AssistantSupport)
    (question : string) (screenExplanation : bool) : result exn Release :=
  '(candidate, resolution) ← materializeAssistantCandidateWithRecordedDecision c supports screenExplanation;
  if negb screenExplanation then Ok (mkRelease candidate candidate [] resolution false)
  else
    validationCodes ← validateAssistantCandidate candidate supports question;
    if bool_decide (validationCodes = []) || negb (is_consistent resolution)
    then Ok (mkRelease candidate candidate validationCodes resolution false)
    else
      '(fixedOnly, _) ← materializeAssistantCandidateWithRecordedDecision emptyExplanationCandidate supports true;
      fixedValidationCodes ← validateAssistantCandidate fixedOnly supports question;
      if bool_decide (fixedValidationCodes = [])
      then Ok (mkRelease fixedOnly fixedOnly [] resolution true)
      else Throw (Error ("Deterministic recorded-decision rendering failed validation: " +:+
                         join "," fixedValidationCodes)).
End Release.

(** ** The deterministic branches *)

Record Defect := mkDefect { df_outcome : AssistantOutcome; df_code : string; df_message : string }.

Definition precondition (supports : list AssistantSupport) (injection : bool) : option Defect :=
  if injection then
    Some (mkDefect outcome_abstain "prompt-injection" "Untrusted support contained instruction-like content.")
  else if bool_decide (supports = []) then
    Some (mkDefect outcome_abstain "missing-support" "No authorized support was available.")
  else if existsb (status_in [sup_missing]) supports then
    Some (mkDefect outcome_abstain "missing-support" "A required current support record is missing.")
  else if existsb (status_in [sup_conflicting]) supports then
    Some (mkDefect requires_external_decision "conflicting-support"
            "Conflicting support requires accountable external review.")
  else if existsb (fun s => negb (is_active s)) supports then
    Some (mkDefect outcome_abstain "inactive-support"
            "Required support is missing, restricted, stale, revoked, or superseded.")
  else None.

Definition totalContent (supports : list AssistantSupport) : Z :=
  fold_left (fun total s => total + length_ (content s)) supports 0.

Definition RE_AUTHORITY_ESCALATION : regexp :=
  Eval vm_compute in
    re "(?:sign (?:the )?transaction|submit (?:the )?transaction|fund (?:the )?(?:agreement|escrow|transaction)|settle (?:the )?(?:agreement|escrow|transaction)|refund (?:the )?(?:buyer|payment|funds|escrow)|send (?:the )?(?:payment|funds)|release escrow|transfer ownership|resolve (?:the )?dispute|reveal (?:the )?(?:key|token|system prompt))" "iu".
Definition RE_EXTERNAL_DECISION : regexp :=
  Eval vm_compute in
    re "(?:(?:can|could|will|would) (?:you|the system|the assistant) .{0,60}(?:legally |formally )?(?:certify|approve|accredit)|should .{0,80}(?:legally |formally )?(?:certify|approve|accredit)|(?:legal |formal )?(?:certification|accreditation|liability|arbitration) decision)" "iu".
Definition RE_SUMMARY_CONFLICT : regexp := Eval vm_compute in re "conflict" "iu".
Definition RE_SUMMARY_MISSING : regexp := Eval vm_compute in re "missing|no authorized support" "iu".
Definition RE_SUMMARY_INACTIVE : regexp := Eval vm_compute in re "inactive|restricted|stale|revoked|superseded" "iu".
Definition RE_SUMMARY_INJECTION : regexp := Eval vm_compute in re "injection" "iu".

Definition looksLikeAuthorityEscalation (question : string) : bool := re_test RE_AUTHORITY_ESCALATION question.
Definition isExternalDecisionRequest (question : string) : bool := re_test RE_EXTERNAL_DECISION question.

Definition reasonCodesForOutcome (outcome : AssistantOutcome) (summary : string) : list string :=
  if re_test RE_SUMMARY_CONFLICT summary then ["conflicting-evidence"]
  else if re_test RE_SUMMARY_MISSING summary then ["missing-evidence"]
  else if re_test RE_SUMMARY_INACTIVE summary then ["inactive-evidence"]
  else if re_test RE_SUMMARY_INJECTION summary then ["prompt-injection"]
  else if bool_decide (outcome = requires_external_decision) then ["external-decision-required"]
  else [].

Definition deterministic_result (outcome : AssistantOutcome) (summary : string) (claims : list Claim)
    (reasonCodes : list string) : ModelResult :=
  mkModelResult (mkCandidate outcome None summary claims reasonCodes [summary] [] claims_after_summary)
    "deterministic-precondition-engine-v1" "evllm" None None None.

(** [deterministicResult(outcome, summary, claims)] with the default reason codes *)
Definition deterministicResult (outcome : AssistantOutcome) (summary : string) (claims : list Claim) : ModelResult :=
  deterministic_result outcome summary claims (reasonCodesForOutcome outcome summary).

Definition citedActiveClaims (supports : list AssistantSupport) : list Claim :=
  imap (fun i s => mkClaim (claim_number (i + 1)) (content s) [support_id s])
    (filter (fun s => is_active s = true) supports).
