(* ===== verification/AssistantService.v ===== *)
(** * The assistant: the service

    [src/src/assistant/service.ts]: [AssistantRequestStore] and
    [GovernedAssistantService]. An answer awaits the tools and then the model; between its
    awaits it runs without interruption, so a run of [answerOnce] is three steps (start,
    tools, model), calls of [answer] with an idempotency key share a run, and the service is
    a state that these steps change in any order. What the tools and the model answer, the
    clock and the random identifiers are arguments of the steps. *)

From S2P Require Import Prelude Regex Digits Base64 Schemas Storage Json Hex Signatures Protection Session AuditLedger EcmaRegExp Text SemanticTokens SemanticSupport AssistantTypes AssistantTools AssistantDecisions AssistantProse AssistantValidation.

Local Open Scope Z_scope.

(** ** The request store *)

Inductive ResponseState := rs_completed | rs_refused.

Record AssistantRequestRecord := mkRequestRecord {
  ar_request_id : string;
  ar_requesting_actor_id : string;
  ar_requesting_organization_id : string;
  ar_minimized_question_metadata : list string;
  ar_minimized_result_metadata : list string;
  ar_response_state : ResponseState;
  ar_validation_event_ids : list string;
  ar_audit_event_id : string;
  ar_created_at : Z
}.

(** [assistantRequest] of [src/src/schemas/domain-records.ts] *)
Definition assistantRequest (r : AssistantRequestRecord) : bool :=
  urn "assistant" (ar_request_id r) && urn "actor" (ar_requesting_actor_id r) &&
  urn "org" (ar_requesting_organization_id r) && array shortText 0 64 (ar_minimized_question_metadata r) &&
  array shortText 0 64 (ar_minimized_result_metadata r) && array (urn "event") 0 256 (ar_validation_event_ids r) &&
  urn "event" (ar_audit_event_id r) && timestamp (ar_created_at r).

Definition AssistantRequestStore := list (string * AssistantRequestRecord).

Definition put (store : AssistantRequestStore) (r : AssistantRequestRecord) :
    result AssistantError AssistantRequestStore :=
  _ ← require (assistantRequest r) zod_failure;
  _ ← require (negb (map_has (ar_request_id r) store)) request_store_error;
  Ok (map_set (ar_request_id r) r store).

Definition get (store : AssistantRequestStore) (requestId : string) : result AssistantError AssistantRequestRecord :=
  defined (map_get requestId store) request_store_error.

(** ** One answer *)

Definition source_text (s : AssistantDecisionSource) : string :=
  match s with
  | typed_record => "typed-record" | deterministic_control => "deterministic-control"
  | model_candidate => "model-candidate" | validation_fallback => "validation-fallback"
  end.

Definition supportsForQueryMode (supports : list AssistantSupport) (mode : AssistantQueryMode) : list AssistantSupport :=
  match mode with
  | explain_recorded_decision => supports
  | explain_records => filter (fun s => recorded_decision s = None) supports
  end.

Definition activeRecordedDecisionSupportReferences (supports : list AssistantSupport) :
    list AssistantRecordedDecisionAuditReference :=
  omap (fun s => d ← active_decision s;
    Some (mkAuditReference (support_id s) (sup_resource_id s) (sup_resource_version s) (sup_commitment s)
            (normalizeRecordedDecision d))) supports.

Definition stripContent (s : AssistantSupport) : Citation :=
  mkCitation (support_id s) (sup_resource_id s) (sup_resource_version s) (issuer_organization_id s)
    (custodian_organization_id s) (sup_as_of s) (status s) (sup_commitment s) (chain_reference s) (recorded_decision s).

(** What a run has decided once its result is final. *)
Record Verdict := mkVerdict {
  v_codes : list string;
  v_result : ModelResult;
  v_source : AssistantDecisionSource
}.

Record ModelInput := mkModelInput {
  mi_question : string;
  mi_purposeId : string;
  mi_asOf : Z;
  mi_session : ActorSession;
  mi_supports : list AssistantSupport
}.

(** After the tools: a verdict, or the model is asked. *)
Inductive Plan := Conclude (v : Verdict) | AskModel (input : ModelInput).

Section Service.
Context `{CanonicalJson, Sha256} `{HL : LocaleCompare}.
Context (hash_event : UnsignedAuditEvent -> string) (is_uuid : string -> bool).
Context (maxContextCharacters : Z).

Definition conclude_with (codes : list string) (result : ModelResult) : Plan :=
  Conclude (mkVerdict codes result deterministic_control).

Definition decide (query : AssistantQuery) (session : ActorSession) (supports : list AssistantSupport) : Plan :=
  let injection := existsb (fun s => looksLikeEmbeddedInstruction (content s)) supports in
  match precondition supports injection with
  | Some defect => conclude_with [df_code defect] (deterministicResult (df_outcome defect) (df_message defect) [])
  | None =>
      if maxContextCharacters <? totalContent supports then
        conclude_with ["context-limit"]
          (deterministicResult outcome_abstain "Authorized support exceeds the bounded model context." [])
      else if looksLikeAuthorityEscalation (q_question query) then
        conclude_with ["authority-boundary"]
          (deterministicResult outcome_abstain "The request crosses the read-only assistant authority boundary." [])
      else if isExternalDecisionRequest (q_question query) then
        conclude_with ["external-decision-boundary"]
          (deterministicResult requires_external_decision
             "The request requires a decision by an accountable external authority." (citedActiveClaims supports))
      else
        let recorded := resolveActiveRecordedDecision supports in
        match q_mode query, recorded with
        | explain_recorded_decision, absent =>
            conclude_with ["missing-recorded-decision"]
              (deterministicResult outcome_abstain "No active recorded decision is available for explanation." [])
        | _, conflicting =>
            conclude_with ["conflicting-recorded-decision"]
              (deterministic_result requires_external_decision
                 "Active supports contain conflicting recorded decisions and require accountable external review."
                 [] ["conflicting-evidence"; "external-decision-required"])
        | _, _ =>
            AskModel (mkModelInput (q_question query) (q_purpose_id query) (q_as_of query) session supports)
        end
  end.

(** The errors that [answerOnce] turns into an abstention, with their codes. *)
Definition caught (e : AssistantError) : option string :=
  match e with
  | ProtectedRetrievalError => Some "retrieval-verification-failed"
  | AssistantSupportValidationError => Some "invalid-support"
  | ToolAuthorizationError => Some "access-denied"
  | _ => None
  end%string.

(** The [catch] of [answerOnce]: an error it does not know is thrown again. *)
Definition catch {A} (inj : Verdict -> A) (m : result AssistantError A) : result AssistantError A :=
  match m with
  | Throw e =>
      match caught e with
      | Some code =>
          Ok (inj (mkVerdict [code]
            (deterministicResult outcome_abstain "Authorized support is unavailable for this request." [])
            deterministic_control))
      | None => Throw e
      end
  | Ok a => Ok a
  end.

(** What a run keeps while it awaits the model and when it concludes. *)
Record Gathered := mkGathered { ga_supports : list AssistantSupport; ga_toolNames : list AssistantToolName }.

(** The tools have answered. *)
Definition after_tools (query : AssistantQuery) (session : ActorSession) (execution : result AssistantError ToolExecution) :
    result AssistantError (Gathered * Plan) :=
  catch (fun v => (mkGathered [] [], Conclude v))
    (ex ← execution;
     let supports := supportsForQueryMode (ex_supports ex) (q_mode query) in
     Ok (mkGathered supports (ex_toolNames ex), decide query session supports)).

(** The model has answered. *)
Definition after_model (query : AssistantQuery) (supports : list AssistantSupport)
    (generated : result AssistantError ModelResult) : result AssistantError Verdict :=
  catch id
    (result ← generated;
     release ← lift_err native
       (releaseAssistantCandidateWithRecordedDecision (mr_candidate result) supports (q_question query) true);
     let codes := rl_validation_codes release in
     Ok (if bool_decide (codes = []) then
           mkVerdict [] (mkModelResult (rl_candidate release) (mr_model result) (mr_provider result)
                           (responseId result) (inputTokens result) (outputTokens result))
             (if is_consistent (rl_resolution release) then typed_record else model_candidate)
         else
           mkVerdict codes (deterministicResult outcome_abstain "The generated response failed support validation." [])
             validation_fallback)).

Definition request_record (query : AssistantQuery) (session : ActorSession) (requestId : string) (toolNames : list AssistantToolName)
    (v : Verdict) (eventId : string) (now : Z) : AssistantRequestRecord :=
  let c := mr_candidate (v_result v) in
  mkRequestRecord requestId (actorId (s_identity session)) (organizationId (s_identity session))
    ([hash (text_encode (q_question query)); q_purpose_id query; ("query-mode:" +:+ mode_text (q_mode query))%string] ++
     (tool_name_text <$> toolNames))
    [outcome_text (cd_outcome c); ("decision-code:" +:+ default "none" (cd_decision_code c))%string;
     ("decision-source:" +:+ source_text (v_source v))%string; mr_provider (v_result v); mr_model (v_result v)]
    (if bool_decide (cd_outcome c = outcome_answer) then rs_completed else rs_refused)
    [eventId] eventId now.

Definition evidence_state (supports : list AssistantSupport) : EvidenceState :=
  match supports with
  | [] => state_not_evaluated
  | _ => if forallb is_active supports then state_active else state_defective
  end.

Definition response (query : AssistantQuery) (correlationId requestId : string) (supports : list AssistantSupport)
    (v : Verdict) (eventId : string) : AssistantResponse :=
  let c := mr_candidate (v_result v) in
  mkResponse requestId correlationId (cd_outcome c) (cd_decision_code c) (summary c) (claims c)
    (stripContent <$> filter (fun s => existsb (fun cl => has (citation_ids cl) (support_id s)) (claims c) = true) supports)
    (q_as_of query) (evidence_state supports) (warnings c) (missing_requirements c) (evidence_reason_codes c)
    (bool_decide (v_codes v = [])) (v_codes v)
    (mkModelReference (mr_provider (v_result v)) (mr_model (v_result v)) (responseId (v_result v))
       (inputTokens (v_result v)) (outputTokens (v_result v)))
    eventId.

Definition audit_input (query : AssistantQuery) (session : ActorSession) (correlationId requestId : string)
    (g : Gathered) (v : Verdict) (now : Z) : AuditInput :=
  let c := mr_candidate (v_result v) in
  mkAuditInput requestId correlationId session (q_purpose_id query) (q_mode query) (q_question query) (ga_toolNames g)
    (support_id <$> ga_supports g) (mr_model (v_result v), mr_provider (v_result v)) (cd_outcome c) (cd_decision_code c)
    (v_source v) (activeRecordedDecisionSupportReferences (ga_supports g)) (v_codes v) now.

(** What answers share. *)
Record Shared := mkShared { audit : AssistantAuditLedger; requests : AssistantRequestStore }.

(** The end of [answerOnce]: the audit event is appended before the request is put, so a
    request the store refuses leaves its event. [uuid] and the two times are the random
    identifier of the event and what the clock shows for the event and the request. *)
Definition conclude (query : AssistantQuery) (session : ActorSession) (correlationId requestId : string) (g : Gathered)
    (v : Verdict) (uuid : string) (recordedAt createdAt : Z) (s : Shared) : Shared * result AssistantError AssistantResponse :=
  let '(events, event) :=
    append hash_event (fun q => hash (text_encode q)) (audit s)
      (audit_input query session correlationId requestId g v recordedAt) uuid in
  let eventId := event_id (unsigned event) in
  match put (requests s) (request_record query session requestId (ga_toolNames g) v eventId createdAt) with
  | Ok store => (mkShared events store, Ok (response query correlationId requestId (ga_supports g) v eventId))
  | Throw e => (mkShared events (requests s), Throw e)
  end.

(** ** Calls of [answer] *)

(** A run of [answerOnce]: a promise. *)
Inductive Phase :=
| awaiting_tools
| awaiting_model (g : Gathered)
| settled (r : result AssistantError AssistantResponse).

Record Run := mkRun {
  run_query : AssistantQuery;
  run_session : ActorSession;
  run_correlationId : string;
  run_requestId : string;
  run_key : option string;
  run_phase : Phase
}.

(** A call of [answer]: waiting for a run (which it started under a key, or alone, or which
    it found), or finished. *)
Inductive Call :=
| waiting (run : nat) (owned_key : option string)
| finished (r : result AssistantError AssistantResponse).

Record Service := mkService {
  shared : Shared;
  idempotentAnswers : list (string * (string * nat));
  runs : list Run;
  calls : list Call
}.

Definition new_service : Service := mkService (mkShared [] []) [] [] [].

Definition idempotency_key (session : ActorSession) (key : string) : string :=
  join NUL [actorId (s_identity session); organizationId (s_identity session); credentialId (s_identity session); key].

Definition fingerprint_json (query : AssistantQuery) (session : ActorSession) : json :=
  JObj [("query", query_json query); ("actor_id", JStr (actorId (s_identity session)));
        ("organization_id", JStr (organizationId (s_identity session)));
        ("credential_id", JStr (credentialId (s_identity session)))].

Definition fingerprint (query : AssistantQuery) (session : ActorSession) : string :=
  hash (canonicalJsonBytes (fingerprint_json query session)).

Definition add_call (c : Call) (s : Service) : Service :=
  mkService (shared s) (idempotentAnswers s) (runs s) (calls s ++ [c]).

Definition start_run (query : AssistantQuery) (session : ActorSession) (correlationId uuid : string) (key : option string)
    (s : Service) : Service :=
  mkService (shared s) (idempotentAnswers s)
    (runs s ++ [mkRun query session correlationId ("urn:evllm:assistant:" +:+ uuid) key awaiting_tools]) (calls s).

(** [answer(raw, session, correlationId)] up to its first await *)
Definition answer (raw : json) (session : ActorSession) (correlationId uuid : string) (s : Service) : Service :=
  match assistantQuery is_uuid raw with
  | None => add_call (finished (Throw zod_failure)) s
  | Some query =>
      match q_idempotency_key query with
      | None => add_call (waiting (length (runs s)) None) (start_run query session correlationId uuid None s)
      | Some k =>
          let key := idempotency_key session k in
          match map_get key (idempotentAnswers s) with
          | Some (existing, run) =>
              if String.eqb existing (fingerprint query session)
              then add_call (waiting run None) s
              else add_call (finished (Throw AssistantIdempotencyError)) s
          | None =>
              let run := length (runs s) in
              let s := start_run query session correlationId uuid (Some key) s in
              add_call (waiting run (Some key))
                (mkService (shared s) (map_set key (fingerprint query session, run) (idempotentAnswers s)) (runs s) (calls s))
          end
      end
  end.

Definition set_phase (i : nat) (p : Phase) (s : Service) : Service :=
  mkService (shared s) (idempotentAnswers s)
    (alter (fun r => mkRun (run_query r) (run_session r) (run_correlationId r) (run_requestId r) (run_key r) p) i (runs s))
    (calls s).

Definition with_shared (sh : Shared) (s : Service) : Service :=
  mkService sh (idempotentAnswers s) (runs s) (calls s).

(** A run concludes and its promise is settled. *)
Definition finish_run (i : nat) (r : Run) (g : Gathered) (v : Verdict) (uuid : string) (recordedAt createdAt : Z)
    (s : Service) : Service :=
  let '(sh, res) :=
    conclude (run_query r) (run_session r) (run_correlationId r) (run_requestId r) g v uuid recordedAt createdAt (shared s) in
  set_phase i (settled res) (with_shared sh s).

(** Run [i] resumes with what the tools answered. *)
Definition tools_answered (i : nat) (execution : result AssistantError ToolExecution) (uuid : string)
    (recordedAt createdAt : Z) (s : Service) : Service :=
  match runs s !! i with
  | Some r =>
      match run_phase r with
      | awaiting_tools =>
          match after_tools (run_query r) (run_session r) execution with
          | Throw e => set_phase i (settled (Throw e)) s
          | Ok (g, Conclude v) => finish_run i r g v uuid recordedAt createdAt s
          | Ok (g, AskModel _) => set_phase i (awaiting_model g) s
          end
      | _ => s
      end
  | None => s
  end.

(** Run [i] resumes with what the model answered. *)
Definition model_answered (i : nat) (generated : result AssistantError ModelResult) (uuid : string)
    (recordedAt createdAt : Z) (s : Service) : Service :=
  match runs s !! i with
  | Some r =>
      match run_phase r with
      | awaiting_model g =>
          match after_model (run_query r) (ga_supports g) generated with
          | Throw e => set_phase i (settled (Throw e)) s
          | Ok v => finish_run i r g v uuid recordedAt createdAt s
          end
      | _ => s
      end
  | None => s
  end.

(** Call [c] resumes when its run is settled. A failed run is forgotten by the call that
    started it, unless its key has another run by then. *)
Definition resume (c : nat) (s : Service) : Service :=
  match calls s !! c with
  | Some (waiting i owned) =>
      match run_phase <$> runs s !! i with
      | Some (settled res) =>
          let answers :=
            match res, owned with
            | Throw _, Some key =>
                match map_get key (idempotentAnswers s) with
                | Some (_, i') => if (i' =? i)%nat then map_delete key (idempotentAnswers s) else idempotentAnswers s
                | None => idempotentAnswers s
                end
            | _, _ => idempotentAnswers s
            end in
          mkService (shared s) answers (runs s) (<[c := finished res]> (calls s))
      | _ => s
      end
  | _ => s
  end.

(** The steps of the service, in any order and with any answers of its collaborators. *)
Inductive event :=
| ev_answer (raw : json) (session : ActorSession) (correlationId uuid : string)
| ev_tools (i : nat) (reg : AssistantToolRegistry)
    (authorize : ActorSession -> string -> AssistantToolName -> object -> result AssistantError bool)
    (uuid : string) (recordedAt createdAt : Z)
| ev_model (i : nat) (generate : ModelInput -> result AssistantError ModelResult) (uuid : string) (recordedAt createdAt : Z)
| ev_resume (c : nat).

(** The input of the model, rebuilt from what the run holds. *)
Definition model_input (r : Run) (g : Gathered) : ModelInput :=
  mkModelInput (q_question (run_query r)) (q_purpose_id (run_query r)) (q_as_of (run_query r)) (run_session r)
    (ga_supports g).

Definition step_service (e : event) (s : Service) : Service :=
  match e with
  | ev_answer raw session correlationId uuid => answer raw session correlationId uuid s
  | ev_tools i reg authorize uuid t1 t2 =>
      match runs s !! i with
      | Some r => tools_answered i (execute_tools reg authorize (run_query r) (run_session r)) uuid t1 t2 s
      | None => s
      end
  | ev_model i generate uuid t1 t2 =>
      match runs s !! i with
      | Some r =>
          match run_phase r with
          | awaiting_model g => model_answered i (generate (model_input r g)) uuid t1 t2 s
          | _ => s
          end
      | None => s
      end
  | ev_resume c => resume c s
  end.

Definition run_service (es : list event) : Service := fold_left (fun s e => step_service e s) es new_service.
End Service.
