(* ===== verification/AssistantRelease.v ===== *)
(** * The assistant: what may be released

    Facts on AssistantValidation.v and AssistantDecisions.v: what a valid claim is, what a
    released candidate shows, which decision the supports record, and when the model is
    asked at all. *)

From S2P Require Import Prelude Regex Digits Base64 Schemas Storage Json Hex Signatures Protection Session AuditLedger EcmaRegExp Text SemanticTokens SemanticSupport AssistantTypes AssistantTools AssistantDecisions AssistantProse AssistantValidation AssistantService.

Local Open Scope Z_scope.

(** ** Valid claims *)

Lemma code_if_nil b code : code_if b code = [] <-> b = false.
Proof. by destruct b. Qed.

Lemma unique_codes_nil codes : unique_codes codes = [] <-> codes = [].
Proof.
  unfold unique_codes, sort_strings. split; [|by intros ->]. destruct codes as [|x l]; [done|].
  intros H. apply (f_equal length) in H. by rewrite js_sort_length in H.
Qed.

Lemma indexed_get {X} (key : X -> string) l m id x :
  map_get id (fold_left (fun m y => map_set (key y) y m) l m) = Some x ->
  map_get id m = Some x \/ (x ∈ l /\ key x = id).
Proof.
  revert m. induction l as [|t l IH]; intros m; simpl; [by left|].
  intros [H|[Hs Hid]]%IH; [|right; split; [by constructor|done]].
  rewrite map_get_set in H. case_match; [|by left]. injection H as ->. right. split; [constructor|done].
Qed.

(** A citation that resolves names an active support. *)
Lemma cited_support_Some supports id s :
  cited_support supports id = Some s -> s ∈ supports /\ support_id s = id /\ is_active s = true.
Proof.
  unfold cited_support, support_map. intros (t & Ht & H)%bind_Some. destruct (is_active t) eqn:Ha; [|done].
  injection H as ->. apply indexed_get in Ht as [|[? ?]]; done.
Qed.

Lemma omap_length_all {A B} (f : A -> option B) l :
  length (omap f l) = length l -> forall x, x ∈ l -> exists y, f x = Some y /\ y ∈ omap f l.
Proof.
  assert (forall l', (length (omap f l') <= length l')%nat) as Hle.
  { induction l' as [|x l' IH]; csimpl; [lia|]. destruct (f x); csimpl; lia. }
  induction l as [|x l IH]; csimpl; [intros _ x Hx; by apply not_elem_of_nil in Hx|].
  destruct (f x) as [y|] eqn:Hf; csimpl; [|intros; specialize (Hle l); lia]. intros [= H] z [->|Hz]%elem_of_cons.
  - exists y. split; [done|constructor].
  - destruct (IH H z Hz) as (y' & ? & ?). exists y'. split; [done|by constructor].
Qed.

(** A claim is valid when it cites something, every support it cites is there and active,
    and the texts of the cited supports together support it. *)
Lemma valid_claim cl supports :
  validateAssistantClaim cl supports = Ok [] ->
  citation_ids cl <> [] /\
  (forall id, id ∈ citation_ids cl -> exists s, s ∈ supports /\ support_id s = id /\ is_active s = true) /\
  exists texts, map_result support_text (omap (cited_support supports) (set_of (citation_ids cl))) = Ok texts /\
    hasJointSemanticSupport (claim_text cl) texts true = Ok true.
Proof.
  unfold validateAssistantClaim. destruct (set_of (citation_ids cl)) as [|id0 l] eqn:Hset; [done|]. rewrite <- Hset.
  case_match eqn:Hlen; [|done]. apply Nat.eqb_eq in Hlen.
  intros (texts & Htexts & (b & Hb & [= Hn%code_if_nil])%bind_Ok)%bind_Ok. apply negb_false_iff in Hn as ->. split_and!.
  - intros Hnil. by rewrite Hnil in Hset.
  - intros id Hid. destruct (omap_length_all _ _ Hlen id) as (s & Hs & _); [by apply elem_of_set_of|].
    exists s. by apply cited_support_Some.
  - by exists texts.
Qed.

(** ** Valid candidates *)

Lemma validate_claims_Forall2 c supports validated :
  validate_claims c supports = Ok validated ->
  Forall2 (fun cl p => p.1 = cl /\ validateAssistantClaim cl supports = Ok p.2) (claims c) validated.
Proof.
  intros H%map_result_Ok. eapply Forall2_impl; [exact H|]. intros cl [cl' codes] (codes' & Hc & [= -> ->])%bind_Ok. done.
Qed.

Lemma concat_nil {A} (ls : list (list A)) : concat ls = [] <-> Forall (fun l => l = []) ls.
Proof. induction ls as [|l ls IH]; simpl; [done|]. rewrite app_nil, Forall_cons. by rewrite IH. Qed.

Lemma existsb_false {A} (f : A -> bool) l : existsb f l = false <-> Forall (fun x => f x = false) l.
Proof. induction l as [|x l IH]; simpl; [done|]. rewrite orb_false_iff, Forall_cons. by rewrite IH. Qed.

(** What the empty list of codes means. *)
Record valid_candidate (c : AssistantCandidate) (supports : list AssistantSupport) (question : string) : Prop := {
  vc_claims cl : cl ∈ claims c -> validateAssistantClaim cl supports = Ok [];
  vc_answer : cd_outcome c = outcome_answer -> claims c <> [];
  vc_not_conflicting : resolveActiveRecordedDecision supports <> conflicting;
  vc_absent : resolveActiveRecordedDecision supports = absent ->
    cd_decision_code c = None /\ Forall (fun t => containsUnboundOperativeDecision t = false) (userVisibleTexts c);
  vc_consistent d : resolveActiveRecordedDecision supports = consistent d ->
    cd_outcome c = rd_outcome d /\ cd_decision_code c = Some (rd_code d) /\
    evidence_reason_codes c ≡ₚ rd_reason_codes d /\ containsExactDecisionCode (summary c) (rd_code d) = true /\
    Forall (fun t => contradictsRecordedDecision t (rd_code d) = false) (userVisibleTexts c);
  vc_visible : exists visible,
    (forall t, t ∈ content <$> filter (fun s => is_active s = true) supports -> t ∈ visible) /\
    Forall (fun t => unsupported_text visible t = Ok false) ([summary c] ++ warnings c ++ missing_requirements c);
  vc_secret : containsSecretLikeOutput c = false;
  vc_disclosure : containsProhibitedSupportDisclosure c supports = Ok false;
  vc_score : claimsUnsupportedCompositeScore c supports = false;
  vc_deterministic : deterministic_mismatch c supports question = false
}.

Lemma unsupported_texts_nil c visible :
  unsupported_texts c visible = Ok [] ->
  Forall (fun t => unsupported_text visible t = Ok false) ([summary c] ++ warnings c ++ missing_requirements c).
Proof.
  unfold unsupported_texts, flat_map_result. intros (ls & Hf%map_result_Ok & [= Hnil])%bind_Ok.
  apply concat_nil in Hnil. apply Forall_lookup_2. intros i t Ht.
  destruct (Forall2_lookup_l _ _ _ _ _ Hf Ht) as (l & Hl & (b & Hb & [= H])%bind_Ok).
  rewrite Forall_lookup in Hnil. rewrite (Hnil i l Hl) in H. apply code_if_nil in H. by rewrite Hb, H.
Qed.

Lemma sameReasonCodes_perm l l' : sameReasonCodes l l' = true -> l ≡ₚ l'.
Proof.
  unfold sameReasonCodes. intros H%bool_decide_eq_true. unfold sort_strings in H.
  by rewrite <- (js_sort_perm string_cmp l), H, js_sort_perm.
Qed.

Lemma Ok_inj {E A} (a b : A) : @Ok E A a = Ok b -> a = b.
Proof. by intros [= ->]. Qed.

Lemma decision_codes_nil c supports d validated :
  decision_codes c supports d validated = Ok [] ->
  containsExactDecisionCode (summary c) (rd_code d) = true /\
  Forall (fun t => contradictsRecordedDecision t (rd_code d) = false) (userVisibleTexts c).
Proof.
  unfold decision_codes. cbv zeta. intros H. apply bind_Ok in H as (b & _ & H). apply Ok_inj in H.
  apply app_nil in H as [Hc%code_if_nil H]. apply app_nil in H as [Hs%code_if_nil _].
  apply negb_false_iff in Hs. apply existsb_false in Hc. done.
Qed.

Lemma validate_valid c supports question :
  validateAssistantCandidate c supports question = Ok [] -> valid_candidate c supports question.
Proof.
  unfold validateAssistantCandidate.
  intros (validated & Hvc & (decision & Hd & (visible & Hvis & (unsupported & Hun & (disclosure & Hdis & H%Ok_inj)%bind_Ok)%bind_Ok)%bind_Ok)%bind_Ok)%bind_Ok.
  apply (proj1 (unique_codes_nil _)) in H. rewrite !app_nil, !code_if_nil in H.
  destruct H as (He & Hcl & Ht & -> & -> & Hr & Hs & -> & Hsc & Hm).
  pose proof (validate_claims_Forall2 _ _ _ Hvc) as Hf. split; try done.
  - intros cl [i Hi]%list_elem_of_lookup. apply concat_nil in Hcl.
    destruct (Forall2_lookup_l _ _ _ _ _ Hf Hi) as (p & Hp & <- & ->).
    f_equal. rewrite Forall_forall in Hcl. apply Hcl. apply list_elem_of_fmap. exists p. split; [done|].
    by eapply list_elem_of_lookup_2.
  - intros Ho Hnil. by rewrite bool_decide_eq_true_2, bool_decide_eq_true_2 in He.
  - intros Hres. by rewrite Hres in Ht.
  - intros Hres. rewrite Hres in Ht, Hd. injection Hd as Hd. apply code_if_nil in Ht, Hd. split.
    + apply bool_decide_eq_false in Ht. by apply eq_None_not_Some.
    + by apply existsb_false.
  - intros d Hres. rewrite Hres in Ht, Hd. apply code_if_nil in Ht. rewrite !orb_false_iff in Ht. destruct_and?.
    repeat match goal with H : negb _ = false |- _ => apply negb_false_iff in H end.
    repeat match goal with H : bool_decide _ = true |- _ => apply bool_decide_eq_true in H end.
    apply decision_codes_nil in Hd as [? ?]. split_and!; try done. by apply sameReasonCodes_perm.
  - exists visible. split; [|by apply unsupported_texts_nil].
    intros t Ht'. unfold visible_supports in Hvis. apply bind_Ok in Hvis as (st & _ & [= <-]).
    apply elem_of_app. by left.
Qed.

(** ** Rendering and release *)

Section Release.
Context `{HL : LocaleCompare}.

(** The candidate is the typed decision: its outcome, code and reasons, its fixed statement
    as summary and as first claim with the supports that carry it, and explanations of the
    model that make no decision. *)
Definition renders (c : AssistantCandidate) (d : RecordedDecision) (supports : list AssistantSupport) : Prop :=
  exists statement rest,
    recordedDecisionStatement d = Ok statement /\ cd_outcome c = rd_outcome d /\ cd_decision_code c = Some (rd_code d) /\
    evidence_reason_codes c = rd_reason_codes d /\ summary c = statement /\
    claims c = mkClaim "claim-1" statement
                 (support_id <$> js_sort by_support_id (filter (fun s => has_decision d s = true) supports)) :: rest /\
    (forall cl, cl ∈ rest -> isModelAuthoredExplanation (claim_text cl) (rd_code d) = true).

Lemma explanatory_claims_spec screen c supports code cls :
  explanatory_claims screen c supports code = Ok cls ->
  forall cl, cl ∈ cls -> isModelAuthoredExplanation (claim_text cl) code = true.
Proof.
  unfold explanatory_claims. intros (kept & Hk & [= <-])%bind_Ok cl (i & Hi)%list_elem_of_lookup.
  rewrite list_lookup_imap in Hi. apply fmap_Some in Hi as (cl' & Hcl & ->). simpl.
  apply list_elem_of_lookup_2 in Hcl. apply filter_result_Ok in Hk as [Hsub _].
  apply (sublist_subseteq _ _ Hsub) in Hcl. by apply list_elem_of_filter in Hcl as [? _].
Qed.

Lemma materialize_spec c supports screen c' r :
  materializeAssistantCandidateWithRecordedDecision c supports screen = Ok (c', r) ->
  r = resolveActiveRecordedDecision supports /\
  match r with consistent d => renders c' d supports | _ => c' = c end.
Proof.
  unfold materializeAssistantCandidateWithRecordedDecision.
  destruct (resolveActiveRecordedDecision supports) as [|d|] eqn:Hr; [by intros [= <- <-]| |by intros [= <- <-]].
  intros (st & Hst & (cls & Hcls & (w & _ & (m & _ & [= <- <-])%bind_Ok)%bind_Ok)%bind_Ok)%bind_Ok.
  split; [done|]. exists st, cls. split_and!; try done. by eapply explanatory_claims_spec.
Qed.

(** A screened release without codes is a valid candidate that renders the recorded
    decision when there is one; otherwise it is the model's own. *)
Lemma release_spec c supports question r :
  releaseAssistantCandidateWithRecordedDecision c supports question true = Ok r ->
  rl_resolution r = resolveActiveRecordedDecision supports /\
  (rl_validation_codes r = [] ->
   valid_candidate (rl_candidate r) supports question /\
   match rl_resolution r with consistent d => renders (rl_candidate r) d supports | _ => rl_candidate r = c end).
Proof.
  unfold releaseAssistantCandidateWithRecordedDecision.
  intros ([candidate res] & Hm & (codes & Hc & H)%bind_Ok)%bind_Ok. simpl in Hc.
  apply materialize_spec in Hm as [-> Hm]. destruct (bool_decide (codes = []) || _) eqn:Hd.
  - apply Ok_inj in H as <-. simpl. split; [done|]. intros ->. split; [by apply validate_valid|done].
  - apply orb_false_iff in Hd as [_ Hres%negb_false_iff].
    apply bind_Ok in H as ([fixed res'] & Hm' & H). apply bind_Ok in H as (codes' & Hc' & H).
    apply materialize_spec in Hm' as [-> Hm']. case_bool_decide as Hnil; [|done]. apply Ok_inj in H as <-. simpl.
    split; [done|]. intros _. split; [apply validate_valid; by rewrite Hc', Hnil|].
    by destruct (resolveActiveRecordedDecision supports).
Qed.

(** With a consistent decision a release never has codes: it is valid or an error is thrown. *)
Lemma release_consistent c supports question r d :
  releaseAssistantCandidateWithRecordedDecision c supports question true = Ok r ->
  resolveActiveRecordedDecision supports = consistent d -> rl_validation_codes r = [].
Proof.
  unfold releaseAssistantCandidateWithRecordedDecision.
  intros ([candidate res] & Hm & (codes & _ & H)%bind_Ok)%bind_Ok Hd.
  apply materialize_spec in Hm as [-> _]. rewrite Hd in H. case_bool_decide as Hn; simpl in H.
  - by apply Ok_inj in H as <-.
  - apply bind_Ok in H as ([fixed res'] & _ & H). apply bind_Ok in H as (codes' & _ & H).
    case_bool_decide; [|done]. by apply Ok_inj in H as <-.
Qed.

(** When the claim that renders the decision is not valid, nothing is ever released. *)
Lemma fixed_claim_needed c supports question d statement :
  resolveActiveRecordedDecision supports = consistent d -> recordedDecisionStatement d = Ok statement ->
  validateAssistantClaim
    (mkClaim "claim-1" statement
       (support_id <$> js_sort by_support_id (filter (fun s => has_decision d s = true) supports))) supports <> Ok [] ->
  exists e, releaseAssistantCandidateWithRecordedDecision c supports question true = Throw e.
Proof.
  intros Hd Hst Hclaim. destruct (releaseAssistantCandidateWithRecordedDecision _ _ _ _) as [r|e] eqn:Hr; [|by exists e].
  exfalso. pose proof (release_consistent _ _ _ _ _ Hr Hd) as Hcodes. apply release_spec in Hr as [Hres Hspec].
  destruct (Hspec Hcodes) as [Hvalid Hshow]. rewrite Hres, Hd in Hshow.
  destruct Hshow as (st & rest & Hst' & _ & _ & _ & _ & Hcl & _). rewrite Hst in Hst'. injection Hst' as <-.
  apply Hclaim, (vc_claims _ _ _ Hvalid). rewrite Hcl. constructor.
Qed.

(** Without a recorded decision an error in the validation of a claim is an error of the release. *)
Lemma claim_error c cl supports question e :
  resolveActiveRecordedDecision supports = absent -> cl ∈ claims c -> validateAssistantClaim cl supports = Throw e ->
  exists e', releaseAssistantCandidateWithRecordedDecision c supports question true = Throw e'.
Proof.
  intros Hd Hin He. destruct (releaseAssistantCandidateWithRecordedDecision _ _ _ _) as [r|e'] eqn:Hr; [|by exists e'].
  exfalso. unfold releaseAssistantCandidateWithRecordedDecision, materializeAssistantCandidateWithRecordedDecision in Hr.
  rewrite Hd in Hr. simpl in Hr. apply bind_Ok in Hr as (codes & Hc & _). unfold validateAssistantCandidate in Hc.
  apply bind_Ok in Hc as (validated & Hv & _). apply validate_claims_Forall2 in Hv.
  apply list_elem_of_lookup in Hin as [i Hi]. destruct (Forall2_lookup_l _ _ _ _ _ Hv Hi) as (p & _ & _ & Hp). congruence.
Qed.
End Release.

(** ** When the model is asked *)

Lemma status_in_one (st : SupportState) s : status_in [st] s = true <-> status s = st.
Proof. unfold status_in. by rewrite bool_decide_eq_true, list_elem_of_singleton. Qed.

(** No precondition fails exactly when there are supports, all active, without instructions. *)
Lemma precondition_None supports injection :
  precondition supports injection = None <->
  injection = false /\ supports <> [] /\ Forall (fun s => is_active s = true) supports.
Proof.
  unfold precondition. destruct injection; [by split; [|intros [? _]]|]. case_bool_decide as Hnil; [by split; [|intros (_ & ? & _)]|].
  assert (Forall (fun s => is_active s = true) supports ->
          forall st, st <> sup_active -> existsb (status_in [st]) supports = false) as Hall.
  { intros Hf st Hst. apply existsb_false. eapply Forall_impl; [exact Hf|]. intros s Hs.
    apply bool_decide_eq_true in Hs. unfold status_in. apply bool_decide_eq_false.
    rewrite list_elem_of_singleton, Hs. done. }
  split.
  - repeat (case_match; [done|]). intros _. split_and!; try done.
    match goal with H : existsb (fun s => negb _) _ = false |- _ => apply existsb_false in H; rename H into Hn end.
    eapply Forall_impl; [exact Hn|]. simpl. intros s. apply negb_false_iff.
  - intros (_ & _ & Hf). rewrite !Hall by done.
    replace (existsb (fun s => negb (is_active s)) supports) with false; [done|].
    symmetry. apply existsb_false. eapply Forall_impl; [exact Hf|]. simpl. by intros s ->.
Qed.

(** What the mode of a query wants of the recorded decision. *)
Definition mode_fits (mode : AssistantQueryMode) (supports : list AssistantSupport) : Prop :=
  match resolveActiveRecordedDecision supports with
  | conflicting => False
  | absent => mode = explain_records
  | consistent _ => True
  end.

(** The model is asked exactly when the deterministic controls leave nothing to decide:
    there are supports, all active and none with an embedded instruction, they fit the
    context, the question neither asks for an action of authority nor for an external
    decision, and the active supports record no two decisions (and one, if the query wants
    one explained). It then gets that question and those supports. *)
Theorem model_gate maxContextCharacters query session supports input :
  decide maxContextCharacters query session supports = AskModel input <->
  supports <> [] /\ Forall (fun s => is_active s = true) supports /\
  Forall (fun s => looksLikeEmbeddedInstruction (content s) = false) supports /\
  totalContent supports <= maxContextCharacters /\
  looksLikeAuthorityEscalation (q_question query) = false /\ isExternalDecisionRequest (q_question query) = false /\
  mode_fits (q_mode query) supports /\
  input = mkModelInput (q_question query) (q_purpose_id query) (q_as_of query) session supports.
Proof.
  unfold decide. destruct (precondition _ _) as [defect|] eqn:Hp.
  - split; [done|]. intros (Hn & Ha & Hi & _). exfalso. apply existsb_false in Hi.
    assert (precondition supports (existsb (fun s => looksLikeEmbeddedInstruction (content s)) supports) = None) by
      by apply precondition_None. congruence.
  - apply precondition_None in Hp as (Hi%existsb_false & Hn & Ha). unfold mode_fits.
    destruct (Z.ltb_spec maxContextCharacters (totalContent supports)); [split; [done|intros; destruct_and!; lia]|].
    destruct (looksLikeAuthorityEscalation _); [split; [done|by intros; destruct_and!]|].
    destruct (isExternalDecisionRequest _); [split; [done|by intros; destruct_and!]|].
    destruct (q_mode query), (resolveActiveRecordedDecision supports);
      (split; [try done; intros [= <-]; by split_and!|intros; destruct_and!; by subst]).
Qed.
