(* ===== verification/AssistantRuns.v ===== *)
(** * The assistant: what every run keeps

    Invariants of the service of AssistantService.v over all interleavings of its steps:
    where a verdict comes from, that an answer has its audit event and its request record,
    that runs end, and that a key has at most one run that has not failed. *)

From S2P Require Import Prelude Regex Digits Base64 Schemas Storage Json Hex Signatures Protection Session AuditLedger EcmaRegExp Text SemanticTokens SemanticSupport AssistantTypes AssistantTools AssistantDecisions AssistantProse AssistantValidation AssistantService AssistantRelease.

Local Open Scope Z_scope.

Section Runs.
Context `{HJ : CanonicalJson, HS : Sha256, HL : LocaleCompare}.
Context (hash_event : UnsignedAuditEvent -> string) (is_uuid : string -> bool).
Context (maxContextCharacters : Z).

Notation step := (step_service hash_event is_uuid maxContextCharacters).
Notation run := (run_service hash_event is_uuid maxContextCharacters).
Notation tools := (after_tools maxContextCharacters).

(** ** Reachable states *)

(** A property of the states that every step preserves holds in every reachable one. *)
Lemma run_service_ind (P : Service -> Prop) :
  P new_service -> (forall e s, P s -> P (step e s)) -> forall es, P (run es).
Proof.
  intros H0 Hstep es. unfold run_service. induction es as [|e es IH] using rev_ind; [done|].
  rewrite fold_left_app. by apply Hstep.
Qed.

Lemma run_snoc es e : run (es ++ [e]) = step e (run es).
Proof. unfold run_service. by rewrite fold_left_app. Qed.

Lemma run_app es es' : run (es ++ es') = fold_left (fun s e => step e s) es' (run es).
Proof. unfold run_service. by rewrite fold_left_app. Qed.

(** ** The effects of a step *)

Definition with_phase (p : Phase) (r : Run) : Run :=
  mkRun (run_query r) (run_session r) (run_correlationId r) (run_requestId r) (run_key r) p.

Definition is_settled (p : Phase) : bool := match p with settled _ => true | _ => false end.

(** How a run that has not settled reaches a verdict. *)
Inductive reaches (r : Run) (g : Gathered) (v : Verdict) : Prop :=
| reaches_by_tools execution :
    run_phase r = awaiting_tools -> tools (run_query r) (run_session r) execution = Ok (g, Conclude v) -> reaches r g v
| reaches_by_model generated :
    run_phase r = awaiting_model g -> after_model (run_query r) (ga_supports g) generated = Ok v -> reaches r g v.

(** The entry a failed run's starter deletes. *)
Definition forget (i : nat) (res : result AssistantError AssistantResponse) (owned : option string)
    (answers : list (string * (string * nat))) : list (string * (string * nat)) :=
  match res, owned with
  | Throw _, Some key =>
      match map_get key answers with
      | Some (_, i') => if (i' =? i)%nat then map_delete key answers else answers
      | None => answers
      end
  | _, _ => answers
  end.

Inductive effect (s : Service) : Service -> Prop :=
| eff_none : effect s s
| eff_refuse e : effect s (add_call (finished (Throw e)) s)
| eff_start query session correlationId uuid :
    q_idempotency_key query = None ->
    effect s (add_call (waiting (length (runs s)) None) (start_run query session correlationId uuid None s))
| eff_share query session k i :
    q_idempotency_key query = Some k ->
    map_get (idempotency_key session k) (idempotentAnswers s) = Some (fingerprint query session, i) ->
    effect s (add_call (waiting i None) s)
| eff_start_keyed query session correlationId uuid k :
    q_idempotency_key query = Some k ->
    map_get (idempotency_key session k) (idempotentAnswers s) = None ->
    effect s
      (add_call (waiting (length (runs s)) (Some (idempotency_key session k)))
         (mkService (shared s)
            (map_set (idempotency_key session k) (fingerprint query session, length (runs s)) (idempotentAnswers s))
            (runs (start_run query session correlationId uuid (Some (idempotency_key session k)) s)) (calls s)))
| eff_ask i r g input execution :
    runs s !! i = Some r -> run_phase r = awaiting_tools ->
    tools (run_query r) (run_session r) execution = Ok (g, AskModel input) ->
    effect s (set_phase i (awaiting_model g) s)
| eff_fail i r e :
    runs s !! i = Some r -> is_settled (run_phase r) = false -> effect s (set_phase i (settled (Throw e)) s)
| eff_conclude i r g v uuid t1 t2 :
    runs s !! i = Some r -> reaches r g v -> effect s (finish_run hash_event i r g v uuid t1 t2 s)
| eff_resume c i owned r res :
    calls s !! c = Some (waiting i owned) -> runs s !! i = Some r -> run_phase r = settled res ->
    effect s (mkService (shared s) (forget i res owned (idempotentAnswers s)) (runs s) (<[c := finished res]> (calls s))).

#[local] Hint Constructors effect reaches : assistant.

Lemma answer_effect raw session correlationId uuid s : effect s (answer is_uuid raw session correlationId uuid s).
Proof.
  unfold answer. destruct (assistantQuery _ _) as [query|]; [|constructor].
  destruct (q_idempotency_key query) as [k|] eqn:Hk; [|by constructor].
  destruct (map_get _ _) as [[fp i]|] eqn:Hm; [|exact (eff_start_keyed _ query session correlationId uuid k Hk Hm)].
  case (String.eqb_spec fp (fingerprint query session)) as [->|]; [|constructor]. by eapply eff_share.
Qed.

Lemma tools_effect i execution uuid t1 t2 s :
  effect s (tools_answered hash_event maxContextCharacters i execution uuid t1 t2 s).
Proof.
  unfold tools_answered. destruct (runs s !! i) as [r|] eqn:Hr; [|constructor].
  destruct (run_phase r) eqn:Hp; try constructor.
  destruct (tools _ _ _) as [[g [v|input]]|e] eqn:Ht; [|by eapply eff_ask|].
  - eapply eff_conclude; [done|]. by eapply reaches_by_tools.
  - eapply eff_fail; [done|]. by rewrite Hp.
Qed.

Lemma model_effect i generated uuid t1 t2 s : effect s (model_answered hash_event i generated uuid t1 t2 s).
Proof.
  unfold model_answered. destruct (runs s !! i) as [r|] eqn:Hr; [|constructor].
  destruct (run_phase r) as [|g|] eqn:Hp; try constructor.
  destruct (after_model _ _ _) as [v|e] eqn:Ht.
  - eapply eff_conclude; [done|]. by eapply reaches_by_model.
  - eapply eff_fail; [done|]. by rewrite Hp.
Qed.

Lemma resume_effect c s : effect s (resume c s).
Proof.
  unfold resume. destruct (calls s !! c) as [[i owned|]|] eqn:Hc; try constructor.
  destruct (runs s !! i) as [r|] eqn:Hr; simpl; [|constructor].
  destruct (run_phase r) as [| |res] eqn:Hp; try constructor. by eapply eff_resume.
Qed.

(** Every step has one of these effects. *)
Lemma step_effect e s : effect s (step e s).
Proof.
  destruct e as [raw session correlationId uuid|i reg authorize uuid t1 t2|i generate uuid t1 t2|c]; simpl.
  - apply answer_effect.
  - destruct (runs s !! i); [apply tools_effect|constructor].
  - destruct (runs s !! i) as [r|]; [|constructor]. destruct (run_phase r); [constructor|apply model_effect|constructor].
  - apply resume_effect.
Qed.

Lemma run_service_invariant (P : Service -> Prop) :
  P new_service -> (forall s s', P s -> effect s s' -> P s') -> forall es, P (run es).
Proof. intros H0 Hstep. apply run_service_ind; [done|]. intros e s Hs. eapply Hstep; [done|]. apply step_effect. Qed.

(** ** Runs *)

Lemma set_phase_runs i p s j :
  runs (set_phase i p s) !! j = (if bool_decide (j = i) then with_phase p else id) <$> runs s !! j.
Proof.
  unfold set_phase. simpl. rewrite list_lookup_alter. case_bool_decide; case_decide; subst; try done.
  by destruct (runs s !! j).
Qed.

Lemma start_runs query session correlationId uuid key s j r :
  runs (start_run query session correlationId uuid key s) !! j = Some r ->
  runs s !! j = Some r \/ run_phase r = awaiting_tools.
Proof.
  unfold start_run. simpl. intros [Hr|[_ [_ <-]%list_lookup_singleton_Some]]%lookup_app_Some; [by left|by right].
Qed.

(** ** Concluding *)

(** The audit event of a run with a verdict, appended to some ledger. *)
Definition event_for (e : AssistantAuditEvent) (r : Run) (g : Gathered) (v : Verdict) : Prop :=
  exists events uuid t,
    e = audit_event hash_event (fun q => hash (text_encode q)) events
          (audit_input (run_query r) (run_session r) (run_correlationId r) (run_requestId r) g v t) uuid.

Definition response_for (e : AssistantAuditEvent) (r : Run) (g : Gathered) (v : Verdict) : AssistantResponse :=
  response (run_query r) (run_correlationId r) (run_requestId r) (ga_supports g) v (event_id (unsigned e)).

Definition record_for (e : AssistantAuditEvent) (r : Run) (g : Gathered) (v : Verdict) (t : Z) : AssistantRequestRecord :=
  request_record (run_query r) (run_session r) (run_requestId r) (ga_toolNames g) v (event_id (unsigned e)) t.

(** The event is appended whatever the store says; the store gets a new record or refuses. *)
Lemma finish_run_spec i r g v uuid t1 t2 s :
  exists e sh res,
    finish_run hash_event i r g v uuid t1 t2 s = set_phase i (settled res) (with_shared sh s) /\
    event_for e r g v /\
    audit sh = (append hash_event (fun q => hash (text_encode q)) (audit (shared s))
                  (audit_input (run_query r) (run_session r) (run_correlationId r) (run_requestId r) g v t1) uuid).1 /\
    audit sh = audit (shared s) ++ [e] /\
    ((res = Ok (response_for e r g v) /\ map_get (run_requestId r) (requests (shared s)) = None /\
      requests sh = map_set (run_requestId r) (record_for e r g v t2) (requests (shared s))) \/
     (exists err, res = Throw err) /\ requests sh = requests (shared s)).
Proof.
  unfold finish_run, conclude, append. cbn [fst].
  set (e := audit_event _ _ _ _ _). exists e. destruct (put _ _) as [store|err] eqn:Hput.
  - unfold put in Hput. inv_result. apply map_has_false in Ha0.
    do 2 eexists. split; [done|]. split; [by do 3 eexists|]. split_and!; [done..|]. left. done.
  - do 2 eexists. split; [done|]. split; [by do 3 eexists|]. split_and!; [done..|]. right. eauto.
Qed.

(** ** Where an answer comes from *)

Definition gathered_by (r : Run) (g : Gathered) : Prop :=
  exists execution input, tools (run_query r) (run_session r) execution = Ok (g, AskModel input).

Inductive verdict_of (r : Run) (g : Gathered) (v : Verdict) : Prop :=
| by_tools execution : tools (run_query r) (run_session r) execution = Ok (g, Conclude v) -> verdict_of r g v
| by_model generated :
    gathered_by r g -> after_model (run_query r) (ga_supports g) generated = Ok v -> verdict_of r g v.

Definition accounts (r : Run) (s : Service) : Prop :=
  match run_phase r with
  | awaiting_model g => gathered_by r g
  | settled (Ok re) =>
      exists g v e t, verdict_of r g v /\ e ∈ audit (shared s) /\ event_for e r g v /\ re = response_for e r g v /\
        map_get (run_requestId r) (requests (shared s)) = Some (record_for e r g v t)
  | _ => True
  end.

Definition accounted (s : Service) : Prop :=
  verifyAssistantAuditEvents hash_event (audit (shared s)) = true /\
  (forall i r, runs s !! i = Some r -> accounts r s).

Lemma accounts_shared r s s' :
  (forall e, e ∈ audit (shared s) -> e ∈ audit (shared s')) ->
  (forall k x, map_get k (requests (shared s)) = Some x -> map_get k (requests (shared s')) = Some x) ->
  accounts r s -> accounts r s'.
Proof.
  unfold accounts. intros Ha Hq. destruct (run_phase r) as [| |[re|]]; try done.
  intros (g & v & e & t & ? & ? & ? & ? & ?). exists g, v, e, t. split_and!; auto.
Qed.

Lemma reaches_verdict r g v s : accounts r s -> reaches r g v -> verdict_of r g v.
Proof.
  unfold accounts. intros Ha [execution Hp Ht|generated Hp Ht]; [by eapply by_tools|].
  rewrite Hp in Ha. by eapply by_model.
Qed.

Lemma accounted_effect s s' : accounted s -> effect s s' -> accounted s'.
Proof.
  intros [Hv Hr] He. destruct He as [| | | | |i r g input ex Hi Hp Ht|i r e Hi Hp|i r g v uuid t1 t2 Hi Hreach|]; try by split.
  - split; [done|]. intros j r' [Hj|Hp]%start_runs; [by eapply (Hr j)|]. unfold accounts. by rewrite Hp.
  - split; [done|]. intros j r' [Hj|Hp]%start_runs; [by eapply (Hr j)|]. unfold accounts. by rewrite Hp.
  - split; [done|]. intros j r'. rewrite set_phase_runs. case_bool_decide as Hd.
    + subst j. rewrite Hi. intros [= <-]. unfold accounts. simpl. by exists ex, input.
    + intros Hj. rewrite option_fmap_id in Hj. by eapply (Hr j).
  - split; [done|]. intros j r'. rewrite set_phase_runs. case_bool_decide as Hd.
    + subst j. rewrite Hi. by intros [= <-].
    + intros Hj. rewrite option_fmap_id in Hj. by eapply (Hr j).
  - destruct (finish_run_spec i r g v uuid t1 t2 s) as (e & sh & res & -> & Hev & Happ & Hau & Hres).
    split; [simpl; rewrite Happ; by apply append_verifies|]. intros j r'. rewrite set_phase_runs. case_bool_decide as Hd.
    + subst j. simpl. rewrite Hi. intros [= <-]. unfold accounts. simpl.
      destruct Hres as [(-> & Hnone & Hreq)|([err ->] & _)]; [|done].
      exists g, v, e, t2. split_and!; [|rewrite Hau; apply elem_of_app; right; by constructor|done|done|].
      * pose proof (reaches_verdict r g v s (Hr i r Hi) Hreach) as []; [by eapply by_tools|by eapply by_model].
      * rewrite Hreq. apply map_get_set_eq.
    + rewrite option_fmap_id. simpl. intros Hj. eapply accounts_shared; [| |by eapply (Hr j)]; simpl.
      * intros e' He'. rewrite Hau. apply elem_of_app. by left.
      * intros k x Hk. destruct Hres as [(_ & Hnone & ->)|(_ & ->)]; [|done]. rewrite map_get_set. case_decide; congruence.
Qed.

(** A settled promise stays as it is. *)
Lemma effect_settled s s' i r :
  effect s s' -> runs s !! i = Some r -> is_settled (run_phase r) = true -> runs s' !! i = Some r.
Proof.
  intros He Hr Hs.
  assert (forall j p r0, runs s !! j = Some r0 -> is_settled (run_phase r0) = false -> runs (set_phase j p s) !! i = Some r)
    as Hset.
  { intros j p r0 Hj Hn. rewrite set_phase_runs, Hr. case_bool_decide; [|done]. subst. congruence. }
  destruct He as [| | | | |j r0 g input ex Hj Hp Ht|j r0 e Hj Hp|j r0 g v uuid t1 t2 Hj Hreach|]; try done.
  - simpl. by apply lookup_app_l_Some.
  - simpl. by apply lookup_app_l_Some.
  - eapply Hset; [done|]. by rewrite Hp.
  - by eapply Hset.
  - destruct (finish_run_spec j r0 g v uuid t1 t2 s) as (e & sh & res & -> & _).
    eapply (Hset j); [done|]. by destruct Hreach as [? ->|? ->].
Qed.

(** Every audit event is that of a settled run. *)
Definition events_owned (s : Service) : Prop :=
  accounted s /\
  forall e, e ∈ audit (shared s) ->
    exists i r g v res, runs s !! i = Some r /\ run_phase r = settled res /\ event_for e r g v /\ verdict_of r g v /\
      (forall re, res = Ok re -> re = response_for e r g v).

Lemma owned_kept s s' : events_owned s -> effect s s' -> audit (shared s') = audit (shared s) -> events_owned s'.
Proof.
  intros [Ha Ho] He Heq. split; [by eapply accounted_effect|]. intros e. rewrite Heq.
  intros (i & r & g & v & res & Hr & Hp & ? & ? & ?)%Ho. exists i, r, g, v, res. split_and!; try done.
  eapply effect_settled; [done..|]. by rewrite Hp.
Qed.

Lemma owned_step s s' : events_owned s -> effect s s' -> events_owned s'.
Proof.
  intros Hs He. destruct (id He) as [| | | | | | |i r g v uuid t1 t2 Hi Hreach|]; try by eapply owned_kept.
  destruct Hs as [Ha Ho]. split; [by eapply accounted_effect|].
  destruct (finish_run_spec i r g v uuid t1 t2 s) as (e & sh & res & Hf & Hev & _ & Hau & Hres).
  pose proof (fun j r' => effect_settled s _ j r' He) as Hkept. rewrite Hf in Hkept |- *.
  intros e'. cbn [shared set_phase with_shared]. rewrite Hau. intros [He'|He'%list_elem_of_singleton]%elem_of_app.
  - destruct (Ho e' He') as (j & r' & g' & v' & res' & Hr & Hp & ? & ? & ?). exists j, r', g', v', res'. split_and!; try done.
    apply Hkept; [done|]. by rewrite Hp.
  - subst e'. exists i, (with_phase (settled res) r), g, v, res. split_and!; try done.
    + rewrite set_phase_runs. rewrite bool_decide_eq_true_2 by done. simpl. by rewrite Hi.
    + pose proof (reaches_verdict r g v s (proj2 Ha i r Hi) Hreach) as []; [by eapply by_tools|by eapply by_model].
    + intros re ->. by destruct Hres as [([= ->] & _)|([? [=]] & _)].
Qed.

Lemma service_owned es : events_owned (run es).
Proof.
  apply run_service_invariant; [|exact owned_step]. split; [|intros e He; by apply not_elem_of_nil in He].
  split; [done|]. intros i r. change (runs new_service) with (@nil Run). by rewrite lookup_nil.
Qed.

(** What the audit event and the request record say of an answer. *)
Definition tells (e : AssistantAuditEvent) (record : AssistantRequestRecord) (r : Run) (re : AssistantResponse) : Prop :=
  let u := unsigned e in
  event_id u = re_audit_event_id re /\ ar_audit_event_id record = re_audit_event_id re /\
  request_id u = run_requestId r /\ re_request_id re = run_requestId r /\ ar_request_id record = run_requestId r /\
  ae_actor_id u = actorId (s_identity (run_session r)) /\ ar_requesting_actor_id record = actorId (s_identity (run_session r)) /\
  ae_session_id u = sessionId (run_session r) /\ purpose_id u = q_purpose_id (run_query r) /\
  question_digest u = hash (text_encode (q_question (run_query r))) /\
  outcome u = re_outcome re /\ decision_code u = re_decision_code re /\ validation_codes u = re_validation_codes re /\
  (re_validation_passed re = true <-> re_validation_codes re = []) /\
  (forall c, c ∈ re_citations re -> ci_support_id c ∈ support_ids u) /\
  (ar_response_state record = rs_completed <-> re_outcome re = outcome_answer).

Lemma tells_of e r g v t : event_for e r g v -> tells e (record_for e r g v t) r (response_for e r g v).
Proof.
  intros (events & uuid & t' & ->). unfold tells. cbn -[join]. split_and!; try done.
  - by rewrite bool_decide_eq_true.
  - intros c (s & -> & Hs)%list_elem_of_fmap. apply list_elem_of_filter in Hs as [_ Hs].
    apply js_sort_elem_of, list_elem_of_fmap. by exists s.
  - case_bool_decide; split; done.
Qed.

(** C5. Answers are accountable, under every interleaving of the calls and whatever the
    tools, the model and the clock answer: the audit chain verifies; an answer given has
    its event in the chain and its record in the request store, both telling the request,
    the actor, the question's digest, the outcome, the decision code and the validation
    codes that were released, and every citation shown is among the audited supports; and
    every event of the chain is that of a run that has settled, with the released answer's
    identifier if it released one. *)
Theorem every_answer_audited es :
  verifyAssistantAuditEvents hash_event (audit (shared (run es))) = true /\
  (forall i r re, runs (run es) !! i = Some r -> run_phase r = settled (Ok re) ->
     exists e record, e ∈ audit (shared (run es)) /\
       map_get (run_requestId r) (requests (shared (run es))) = Some record /\ tells e record r re) /\
  (forall e, e ∈ audit (shared (run es)) ->
     exists i r res, runs (run es) !! i = Some r /\ run_phase r = settled res /\ request_id (unsigned e) = run_requestId r /\
       (forall re, res = Ok re -> re_audit_event_id re = event_id (unsigned e))).
Proof.
  destruct (service_owned es) as [[Hv Hacc] Ho]. split; [done|]. split.
  - intros i r re Hr Hp. specialize (Hacc i r Hr). unfold accounts in Hacc. rewrite Hp in Hacc.
    destruct Hacc as (g & v & e & t & _ & He & Hev & -> & Hrec). do 2 eexists. split; [done|]. split; [done|].
    by apply tells_of.
  - intros e (i & r & g & v & res & Hr & Hp & Hev & _ & Hre)%Ho. exists i, r, res. split_and!; try done.
    + by destruct Hev as (? & ? & ? & ->).
    + by intros re ->%Hre.
Qed.

(** ** What an answer shows *)

Definition shows (re : AssistantResponse) (c : AssistantCandidate) : Prop :=
  re_outcome re = cd_outcome c /\ re_decision_code re = cd_decision_code c /\ re_summary re = summary c /\
  re_claims re = claims c /\ re_warnings re = warnings c /\ re_missing_requirements re = missing_requirements c /\
  re_evidence_reason_codes re = evidence_reason_codes c.

(** A claim that repeats an active support. *)
Definition verbatim (supports : list AssistantSupport) (cl : Claim) : Prop :=
  exists s, s ∈ supports /\ is_active s = true /\ claim_text cl = content s /\ citation_ids cl = [support_id s].

(** A result of the deterministic controls. *)
Definition refuses (v : Verdict) (supports : list AssistantSupport) : Prop :=
  v_codes v <> [] /\ cd_outcome (mr_candidate (v_result v)) <> outcome_answer /\
  cd_decision_code (mr_candidate (v_result v)) = None /\ Forall (verbatim supports) (claims (mr_candidate (v_result v))).

Lemma cited_verbatim supports : Forall (verbatim supports) (citedActiveClaims supports).
Proof.
  unfold citedActiveClaims. apply Forall_lookup_2. intros i cl Hi. rewrite list_lookup_imap in Hi.
  apply fmap_Some in Hi as (s & Hs%list_elem_of_lookup_2%list_elem_of_filter & ->). exists s. by destruct Hs.
Qed.

Lemma precondition_refuses supports injection defect :
  precondition supports injection = Some defect -> df_outcome defect <> outcome_answer.
Proof. unfold precondition. by repeat case_match; intros [= <-]. Qed.

Lemma decide_refuses query session supports v :
  decide maxContextCharacters query session supports = Conclude v -> refuses v supports.
Proof.
  unfold decide, conclude_with, refuses. destruct (precondition _ _) as [defect|] eqn:Hp.
  - intros [= <-]. simpl. split_and!; [done|by eapply precondition_refuses|done|constructor].
  - repeat case_match; intros Hv; try discriminate Hv; injection Hv as <-; simpl; split_and!; try done; apply cited_verbatim.
Qed.

Lemma catch_Ok {A} (inj : Verdict -> A) m a :
  catch inj m = Ok a ->
  m = Ok a \/ exists code, a = inj (mkVerdict [code]
    (deterministicResult outcome_abstain "Authorized support is unavailable for this request." []) deterministic_control).
Proof.
  destruct m as [b|e]; simpl; [intros [= ->]; by left|]. destruct (caught e) as [code|]; [|done]. intros [= <-].
  right. by exists code.
Qed.

Lemma tools_conclude r execution g v :
  tools (run_query r) (run_session r) execution = Ok (g, Conclude v) -> refuses v (ga_supports g).
Proof.
  unfold after_tools. intros [(ex & _ & H)%bind_Ok|(code & [= -> ->])]%catch_Ok.
  - injection H as <- H. by apply decide_refuses in H.
  - by split_and!.
Qed.

Lemma gathered_gate r g :
  gathered_by r g -> exists input, decide maxContextCharacters (run_query r) (run_session r) (ga_supports g) = AskModel input.
Proof.
  intros (execution & input & H). unfold after_tools in H.
  apply catch_Ok in H as [(ex & _ & Hex)%bind_Ok|(code & [=])]. injection Hex as <- Hd. by exists input.
Qed.

(** The verdict on a model's candidate: it is valid, and the typed decision when there is
    one, or the answer is withheld. *)
Lemma model_verdict query supports generated v :
  after_model query supports generated = Ok v ->
  (v_codes v = [] /\ valid_candidate (mr_candidate (v_result v)) supports (q_question query) /\
   forall d, resolveActiveRecordedDecision supports = consistent d -> renders (mr_candidate (v_result v)) d supports) \/
  refuses v supports.
Proof.
  unfold after_model. intros H. apply catch_Ok in H as [H|(code & ->)]; [|right; by split_and!].
  apply bind_Ok in H as (result & _ & H). apply bind_Ok in H as (rl & Hrl & H). apply Ok_inj in H as <-.
  destruct (releaseAssistantCandidateWithRecordedDecision _ _ _ _) as [rl'|e] eqn:Hr; [|done]. injection Hrl as ->.
  apply release_spec in Hr as [Hres Hspec]. case_bool_decide as Hc; [left|right; by split_and!].
  destruct (Hspec Hc) as [Hvalid Hshow]. split_and!; [done..|]. simpl. intros d Hd. rewrite Hres, Hd in Hshow. done.
Qed.

Definition released (r : Run) (re : AssistantResponse) (supports : list AssistantSupport) : Prop :=
  (forall ci, ci ∈ re_citations re -> exists s, s ∈ supports /\ ci = stripContent s) /\
  ((re_validation_passed re = true /\ Forall (fun s => is_active s = true) supports /\
    Forall (fun s => looksLikeEmbeddedInstruction (content s) = false) supports /\
    exists c, shows re c /\ valid_candidate c supports (q_question (run_query r)) /\
      (forall d, resolveActiveRecordedDecision supports = consistent d -> renders c d supports)) \/
   (re_validation_passed re = false /\ re_outcome re <> outcome_answer /\ re_decision_code re = None /\
    Forall (verbatim supports) (re_claims re))).

Lemma verdict_released r g v e : verdict_of r g v -> released r (response_for e r g v) (ga_supports g).
Proof.
  intros Hv. split.
  { intros ci (s & -> & Hs%list_elem_of_filter)%list_elem_of_fmap. exists s. by destruct Hs. }
  assert (refuses v (ga_supports g) \/ gathered_by r g /\ v_codes v = [] /\
          valid_candidate (mr_candidate (v_result v)) (ga_supports g) (q_question (run_query r)) /\
          forall d, resolveActiveRecordedDecision (ga_supports g) = consistent d ->
            renders (mr_candidate (v_result v)) d (ga_supports g)) as [(Hc & Ho & Hd & Hcl)|(Hg & Hc & Hvalid & Hd)].
  { destruct Hv as [execution Ht|generated Hg Hm]; [left; by eapply tools_conclude|].
    apply model_verdict in Hm as [(? & ? & ?)|?]; [right|left]; by split_and?. }
  - right. simpl. rewrite bool_decide_eq_false_2 by done. by split_and!.
  - left. simpl. rewrite bool_decide_eq_true_2 by done. apply gathered_gate in Hg as [input (_ & Ha & Hi & _)%model_gate].
    split_and!; [done..|]. by exists (mr_candidate (v_result v)).
Qed.

(** *** The supports of a run are what its own tools answered *)

Definition gathered (query : AssistantQuery) (execution : result AssistantError ToolExecution) : list AssistantSupport :=
  match execution with Ok ex => supportsForQueryMode (ex_supports ex) (q_mode query) | Throw _ => [] end.

(** Among the events there is the one with which the tools answered the run [i], when it
    awaited them, and [supports] is what they answered for its query and session. *)
Definition read_by (es : list event) (i : nat) (r : Run) (supports : list AssistantSupport) : Prop :=
  exists es1 es2 reg authorize uuid t1 t2 r0,
    es = es1 ++ ev_tools i reg authorize uuid t1 t2 :: es2 /\
    runs (run es1) !! i = Some r0 /\ run_phase r0 = awaiting_tools /\ r = with_phase (run_phase r) r0 /\
    supports = gathered (run_query r) (execute_tools reg authorize (run_query r) (run_session r)).

Lemma tools_gathered query session execution g plan :
  tools query session execution = Ok (g, plan) -> ga_supports g = gathered query execution.
Proof.
  unfold after_tools, gathered. destruct execution as [ex|e]; simpl; [by intros [= <- _]|].
  destruct (caught e); [|done]. by intros [= <- _].
Qed.

(** A step settles a run with its response for a verdict, or with an error. *)
Definition settles (r : Run) (g : Gathered) (v : Verdict) (p : Phase) : Prop :=
  (exists ev, p = settled (Ok (response_for ev r g v))) \/ (exists err, p = settled (Throw err)).

(** What the event [e] makes of the run [i], from [r] to the phase [p] *)
Inductive moves (i : nat) (r : Run) (p : Phase) : event -> Prop :=
| moves_tools reg authorize uuid t1 t2 :
    run_phase r = awaiting_tools ->
    match tools (run_query r) (run_session r) (execute_tools reg authorize (run_query r) (run_session r)) with
    | Ok (g, AskModel _) => p = awaiting_model g
    | Ok (g, Conclude v) => settles r g v p
    | Throw err => p = settled (Throw err)
    end -> moves i r p (ev_tools i reg authorize uuid t1 t2)
| moves_model generate uuid t1 t2 g :
    run_phase r = awaiting_model g ->
    match after_model (run_query r) (ga_supports g) (generate (model_input r g)) with
    | Ok v => settles r g v p
    | Throw err => p = settled (Throw err)
    end -> moves i r p (ev_model i generate uuid t1 t2).

Lemma finish_run_moves i r g v uuid t1 t2 s j r' :
  runs s !! i = Some r -> runs (finish_run hash_event i r g v uuid t1 t2 s) !! j = Some r' ->
  runs s !! j = Some r' \/ (j = i /\ r' = with_phase (run_phase r') r /\ settles r g v (run_phase r')).
Proof.
  intros Hi. destruct (finish_run_spec i r g v uuid t1 t2 s) as (e & sh & res & -> & _ & _ & _ & Hres).
  rewrite set_phase_runs. simpl. case_bool_decide as Hd; [|rewrite option_fmap_id; by left]. subst j.
  rewrite Hi. intros [= <-]. right. split_and!; [done..|]. simpl.
  destruct Hres as [(-> & _)|([err ->] & _)]; [left|right]; eauto.
Qed.

Lemma set_phase_moves i r p s j r' :
  runs s !! i = Some r -> runs (set_phase i p s) !! j = Some r' ->
  runs s !! j = Some r' \/ (j = i /\ r' = with_phase (run_phase r') r /\ run_phase r' = p).
Proof.
  intros Hi. rewrite set_phase_runs. case_bool_decide as Hd; [|rewrite option_fmap_id; by left]. subst j.
  rewrite Hi. intros [= <-]. by right.
Qed.

(** What a step does to one run *)
Lemma step_moves e s i r' :
  runs (step e s) !! i = Some r' ->
  runs s !! i = Some r' \/ run_phase r' = awaiting_tools \/
  exists r, runs s !! i = Some r /\ r' = with_phase (run_phase r') r /\ moves i r (run_phase r') e.
Proof.
  destruct e as [raw session correlationId uuid|j reg authorize uuid t1 t2|j generate uuid t1 t2|c]; simpl.
  - intros H. unfold answer in H. repeat case_match; simpl in H; try (by left); apply start_runs in H as [?|?]; auto.
  - destruct (runs s !! j) as [r|] eqn:Hj; [|by left]. unfold tools_answered. rewrite Hj.
    destruct (run_phase r) eqn:Hp; try (by left).
    destruct (tools _ _ _) as [[g [v|input]]|err] eqn:Ht; intros H;
      [apply (finish_run_moves _ r) in H as [|(-> & Hr & Hs)]|apply (set_phase_moves _ r) in H as [|(-> & Hr & Hs)]..]; auto;
      right; right; exists r; (split; [done|]); (split; [done|]); apply moves_tools; [done|by rewrite Ht|done|by rewrite Ht|done|by rewrite Ht].
  - destruct (runs s !! j) as [r|] eqn:Hj; [|by left]. destruct (run_phase r) as [|g|] eqn:Hp; try (by left).
    unfold model_answered. rewrite Hj, Hp.
    destruct (after_model _ _ _) as [v|err] eqn:Ht; intros H;
      [apply (finish_run_moves _ r) in H as [|(-> & Hr & Hs)]|apply (set_phase_moves _ r) in H as [|(-> & Hr & Hs)]]; auto;
      right; right; exists r; (split; [done|]); (split; [done|]); apply (moves_model _ _ _ _ _ _ _ g); [done|by rewrite Ht|done|by rewrite Ht].
  - intros H. unfold resume in H. repeat case_match; by left.
Qed.

(** Every run that awaits the model, or has answered, does so with the supports its own
    tools answered. *)
Definition traced (es : list event) (i : nat) (r : Run) : Prop :=
  match run_phase r with
  | awaiting_model g => read_by es i r (ga_supports g) /\ gathered_by r g
  | settled (Ok re) => exists supports, read_by es i r supports /\ released r re supports
  | _ => True
  end.

Lemma read_by_snoc es e i r supports : read_by es i r supports -> read_by (es ++ [e]) i r supports.
Proof.
  intros (es1 & es2 & reg & authorize & uuid & t1 & t2 & r0 & -> & ?). exists es1, (es2 ++ [e]), reg, authorize, uuid, t1, t2, r0.
  split; [|done]. by rewrite <- app_assoc.
Qed.

Lemma read_by_phase es i r p supports : read_by es i r supports -> read_by es i (with_phase p r) supports.
Proof.
  intros (es1 & es2 & reg & authorize & uuid & t1 & t2 & r0 & ? & ? & ? & Hr & ?).
  exists es1, es2, reg, authorize, uuid, t1, t2, r0. split_and!; try done. simpl. rewrite Hr at 1. done.
Qed.

Lemma traced_snoc es e i r : traced es i r -> traced (es ++ [e]) i r.
Proof.
  unfold traced. destruct (run_phase r) as [|g|[re|]]; [done| | |done].
  - intros [? ?]. split; [by apply read_by_snoc|done].
  - intros (supports & ? & ?). exists supports. split; [by apply read_by_snoc|done].
Qed.

Lemma settles_traced es i r r' g v :
  read_by es i r' (ga_supports g) -> r' = with_phase (run_phase r') r -> verdict_of r g v -> settles r g v (run_phase r') ->
  traced es i r'.
Proof.
  intros Hread Hr Hv [[ev Hp]|[err Hp]]; unfold traced; rewrite Hp; [|done]. exists (ga_supports g). split; [done|].
  rewrite Hr. exact (verdict_released r g v ev Hv).
Qed.

Lemma runs_traced es i r : runs (run es) !! i = Some r -> traced es i r.
Proof.
  revert i r. induction es as [|e es IH] using rev_ind; intros i r'.
  { change (runs (run [])) with (@nil Run). by rewrite lookup_nil. }
  rewrite run_snoc. intros [Hr|[Hp|(r & Hr & Heq & Hm)]]%step_moves; [by apply traced_snoc, IH|unfold traced; by rewrite Hp|].
  pose proof (IH i r Hr) as Hi. destruct Hm as [reg authorize uuid t1 t2 Hp Hm|generate uuid t1 t2 g Hp Hm].
  - destruct (tools _ _ _) as [[g plan]|err] eqn:Ht; [|unfold traced; by rewrite Hm].
    assert (Hread : read_by (es ++ [ev_tools i reg authorize uuid t1 t2]) i r' (ga_supports g)).
    { exists es, [], reg, authorize, uuid, t1, t2, r. split_and!; [done..|]. rewrite Heq. by eapply tools_gathered. }
    destruct plan as [v|input]; [|unfold traced; rewrite Hm; split; [done|]; rewrite Heq; by exists (execute_tools reg authorize (run_query r) (run_session r)), input].
    eapply settles_traced; [done..| |done]. by eapply by_tools.
  - unfold traced in Hi. rewrite Hp in Hi. destruct Hi as [Hread Hg]. destruct (after_model _ _ _) as [v|err] eqn:Ht; [|unfold traced; by rewrite Hm].
    eapply settles_traced; [|done| |done]; [|by eapply by_model]. rewrite Heq. by apply read_by_phase, read_by_snoc.
Qed.

(** C1. No text of a model is released unvalidated, under every interleaving and whatever
    tools and model answer. Every answer rests on the supports that the tools answered for
    the query and the session of its own run, at the event with which they answered it. The
    citations of an answer are among those supports. An answer that passed validation rests
    on supports that are all active and carry no embedded instruction; it shows a candidate
    whose every claim cites active supports that support it, and when the supports record a
    decision it shows exactly that decision: its typed outcome, code and reasons, its fixed
    statement, and explanations that decide nothing. Any other answer abstains or refers to
    an external decision, names no decision, and its claims repeat active supports word by
    word. *)
Theorem answers_released es i r re :
  runs (run es) !! i = Some r -> run_phase r = settled (Ok re) ->
  exists supports, read_by es i r supports /\ released r re supports.
Proof. intros Hr Hp. apply runs_traced in Hr. unfold traced in Hr. by rewrite Hp in Hr. Qed.

(** ** Runs end *)

(** The steps of its own that a run still has to take. *)
Definition remaining (p : Phase) : nat :=
  match p with awaiting_tools => 2 | awaiting_model _ => 1 | settled _ => 0 end.

Definition remaining_at (i : nat) (s : Service) : option nat := (fun r => remaining (run_phase r)) <$> runs s !! i.

Lemma remaining_set_phase i j p s :
  remaining_at i (set_phase j p s) = if bool_decide (i = j) then (fun _ => remaining p) <$> runs s !! i else remaining_at i s.
Proof.
  unfold remaining_at. rewrite set_phase_runs. case_bool_decide; [|by rewrite option_fmap_id].
  by destruct (runs s !! i).
Qed.

(** No step of another run or of a call delays a run. *)
Lemma effect_remaining s s' i n :
  effect s s' -> remaining_at i s = Some n -> exists n', remaining_at i s' = Some n' /\ (n' <= n)%nat.
Proof.
  intros He Hn.
  assert (forall j p r, runs s !! j = Some r -> (remaining p <= remaining (run_phase r))%nat ->
          exists n', remaining_at i (set_phase j p s) = Some n' /\ (n' <= n)%nat) as Hset.
  { intros j p r Hj Hle. rewrite remaining_set_phase. case_bool_decide; [|by exists n]. subst j.
    unfold remaining_at in Hn. rewrite Hj in *. injection Hn as <-. by eexists. }
  assert (forall q se c u k, remaining_at i (start_run q se c u k s) = Some n) as Hstart.
  { intros q se c u k. unfold remaining_at, start_run in *. simpl. apply fmap_Some in Hn as (r & Hr & ->).
    by rewrite (lookup_app_l_Some _ _ _ _ Hr). }
  destruct He as [| |q se c u Hk| |q se c u k Hk Hm|j r g input ex Hj Hp Ht|j r e Hj Hp|j r g v uuid t1 t2 Hj Hreach|];
    try (by exists n).
  - exists n. split; [apply (Hstart q se c u None)|done].
  - exists n. split; [apply (Hstart q se c u (Some (idempotency_key se k)))|done].
  - eapply Hset; [done|]. rewrite Hp. simpl. lia.
  - eapply Hset; [done|]. simpl. lia.
  - destruct (finish_run_spec j r g v uuid t1 t2 s) as (e & sh & res & -> & _).
    eapply (Hset j); [done|]. simpl. lia.
Qed.

Lemma remaining_later es i n s :
  remaining_at i s = Some n -> exists n', remaining_at i (fold_left (fun s e => step e s) es s) = Some n' /\ (n' <= n)%nat.
Proof.
  revert s n. induction es as [|e es IH]; intros s n Hn; [by exists n|].
  destruct (effect_remaining _ _ _ _ (step_effect e s) Hn) as (n' & Hn' & Hle).
  destruct (IH _ _ Hn') as (n'' & ? & ?). exists n''. split; [done|lia].
Qed.

Lemma remaining_finish i r g v uuid t1 t2 s :
  is_Some (runs s !! i) -> remaining_at i (finish_run hash_event i r g v uuid t1 t2 s) = Some 0%nat.
Proof.
  intros [r' Hr]. destruct (finish_run_spec i r g v uuid t1 t2 s) as (e & sh & res & -> & _).
  rewrite remaining_set_phase, bool_decide_eq_true_2 by done. simpl. by rewrite Hr.
Qed.

Lemma remaining_set_same i p s : is_Some (runs s !! i) -> remaining_at i (set_phase i p s) = Some (remaining p).
Proof. intros [r Hr]. rewrite remaining_set_phase, bool_decide_eq_true_2 by done. by rewrite Hr. Qed.

(** When the tools answer a run has at most the model to await. *)
Lemma tools_progress i reg authorize uuid t1 t2 s n :
  remaining_at i s = Some n ->
  exists n', remaining_at i (step (ev_tools i reg authorize uuid t1 t2) s) = Some n' /\ (n' <= 1)%nat.
Proof.
  unfold remaining_at at 1. destruct (runs s !! i) as [r|] eqn:Hr; [|done]. intros [= <-]. simpl. rewrite Hr.
  unfold tools_answered. rewrite Hr. destruct (run_phase r) eqn:Hp.
  - destruct (tools _ _ _) as [[g [v|input]]|e].
    + rewrite remaining_finish by done. exists 0%nat. split; [done|lia].
    + rewrite remaining_set_same by done. by exists 1%nat.
    + rewrite remaining_set_same by done. exists 0%nat. split; [done|lia].
  - exists 1%nat. unfold remaining_at. by rewrite Hr; simpl; rewrite Hp.
  - exists 0%nat. unfold remaining_at. rewrite Hr. simpl. rewrite Hp. split; [done|lia].
Qed.

(** When the model answers it settles. *)
Lemma model_progress i generate uuid t1 t2 s n :
  remaining_at i s = Some n -> (n <= 1)%nat -> remaining_at i (step (ev_model i generate uuid t1 t2) s) = Some 0%nat.
Proof.
  unfold remaining_at at 1. destruct (runs s !! i) as [r|] eqn:Hr; [|done]. intros [= <-] Hle. simpl. rewrite Hr.
  destruct (run_phase r) as [|g|] eqn:Hp; simpl in Hle; [lia| |unfold remaining_at; by rewrite Hr; simpl; rewrite Hp].
  unfold model_answered. rewrite Hr, Hp. destruct (after_model _ _ _).
  - by rewrite remaining_finish.
  - by rewrite remaining_set_same.
Qed.

(** C13. Every answer ends, under any interleaving: a run that exists settles once the tools
    have answered it and then the model, whatever they answer and whatever else happens
    before, between and after; and from then on each call waiting for it finishes with its
    result when it resumes. *)
Theorem runs_end es1 es2 es3 i reg authorize uuid1 t1 t2 generate uuid2 t3 t4
    (Hrun : is_Some (runs (run es1) !! i)) :
  let s := run (es1 ++ ev_tools i reg authorize uuid1 t1 t2 :: es2 ++ ev_model i generate uuid2 t3 t4 :: es3) in
  exists r res, runs s !! i = Some r /\ run_phase r = settled res /\
    forall c owned, calls s !! c = Some (waiting i owned) ->
      calls (resume c s) !! c = Some (finished res).
Proof.
  intros s. destruct Hrun as [r1 Hr1].
  assert (exists n, remaining_at i (run es1) = Some n) as [n Hn] by (unfold remaining_at; rewrite Hr1; by eexists).
  assert (remaining_at i s = Some 0%nat) as Hend.
  { unfold s. rewrite run_app. cbn [fold_left]. rewrite fold_left_app. cbn [fold_left].
    destruct (tools_progress i reg authorize uuid1 t1 t2 _ n Hn) as (n1 & Hn1 & Hle1).
    destruct (remaining_later es2 _ _ _ Hn1) as (n2 & Hn2 & Hle2).
    pose proof (model_progress i generate uuid2 t3 t4 _ n2 Hn2 ltac:(lia)) as H3.
    destruct (remaining_later es3 _ _ _ H3) as (n4 & Hn4 & Hle4). rewrite Hn4. f_equal. lia. }
  unfold remaining_at in Hend. destruct (runs s !! i) as [r|] eqn:Hr; [|done]. injection Hend as Hend.
  destruct (run_phase r) as [| |res] eqn:Hp; try done. exists r, res. split_and!; try done.
  intros c owned Hc. unfold resume. rewrite Hc, Hr. simpl. rewrite Hp. simpl.
  rewrite list_lookup_insert_eq; [done|]. by eapply lookup_lt_Some.
Qed.

(** ** Idempotency *)

Definition failed (p : Phase) : bool := match p with settled (Throw _) => true | _ => false end.

(** The table names runs of its keys, and every run that has not failed is there. *)
Definition keys_ok (s : Service) : Prop :=
  (forall k fp i, map_get k (idempotentAnswers s) = Some (fp, i) ->
     exists r, runs s !! i = Some r /\ run_key r = Some k /\ fp = fingerprint (run_query r) (run_session r)) /\
  (forall i r k, runs s !! i = Some r -> run_key r = Some k -> failed (run_phase r) = false ->
     exists fp, map_get k (idempotentAnswers s) = Some (fp, i)).

Lemma keys_set_phase i p s r :
  keys_ok s -> runs s !! i = Some r -> is_settled (run_phase r) = false -> keys_ok (set_phase i p s).
Proof.
  intros [H1 H2] Hr Hs. split.
  - intros k fp j (r' & Hr' & Hk & Hfp)%H1. rewrite set_phase_runs, Hr'. case_bool_decide; eexists; by split_and!.
  - intros j r' k. rewrite set_phase_runs. case_bool_decide as Hd.
    + subst j. rewrite Hr. intros [= <-]. simpl. intros Hk _. eapply H2; [done..|]. by destruct (run_phase r).
    + rewrite option_fmap_id. by apply H2.
Qed.

Lemma keys_start query session correlationId uuid s :
  keys_ok s -> keys_ok (start_run query session correlationId uuid None s).
Proof.
  intros [H1 H2]. split.
  - intros k fp j (r' & Hr' & Hk & Hfp)%H1. exists r'. split_and!; try done. simpl. by apply lookup_app_l_Some.
  - intros j r' k. simpl. intros [Hr|[_ [_ <-]%list_lookup_singleton_Some]]%lookup_app_Some; [by apply H2|done].
Qed.

Lemma keys_start_keyed query session correlationId uuid k s :
  keys_ok s -> map_get k (idempotentAnswers s) = None ->
  keys_ok (mkService (shared s) (map_set k (fingerprint query session, length (runs s)) (idempotentAnswers s))
             (runs (start_run query session correlationId uuid (Some k) s)) (calls s)).
Proof.
  intros [H1 H2] Hnone. split; simpl.
  - intros k' fp j. rewrite map_get_set. case_match eqn:Hd.
    + intros [= <- <-]. subst k'. eexists. split; [by rewrite lookup_app_r, Nat.sub_diag by lia|done].
    + intros (r' & Hr' & Hk & Hfp)%H1. exists r'. split_and!; try done. by apply lookup_app_l_Some.
  - intros j r' k' [Hr|[Hj [Hz <-]%list_lookup_singleton_Some]]%lookup_app_Some.
    + intros Hk Hf. destruct (H2 j r' k' Hr Hk Hf) as [fp Hfp]. exists fp. rewrite map_get_set. case_match; congruence.
    + simpl. intros [= <-] _. eexists. rewrite map_get_set_eq. do 2 f_equal. lia.
Qed.

Lemma keys_forget i res owned s r :
  keys_ok s -> runs s !! i = Some r -> run_phase r = settled res ->
  keys_ok (mkService (shared s) (forget i res owned (idempotentAnswers s)) (runs s) (calls s)).
Proof.
  intros [H1 H2] Hr Hp. unfold forget. destruct res as [re|e]; [by split|]. destruct owned as [k|]; [|by split].
  destruct (map_get k (idempotentAnswers s)) as [[fp i']|] eqn:Hm; [|by split].
  destruct (Nat.eqb_spec i' i) as [->|]; [|by split]. split; simpl.
  - intros k' fp' j. rewrite map_delete_get. case_match; [done|]. apply H1.
  - intros j r' k' Hj Hk Hf. destruct (H2 j r' k' Hj Hk Hf) as [fp' Hfp]. exists fp'. rewrite map_delete_get.
    case_match eqn:Hd; [|done]. exfalso. subst k'. rewrite Hm in Hfp. injection Hfp as <- <-.
    rewrite Hr in Hj. injection Hj as <-. by rewrite Hp in Hf.
Qed.

Lemma keys_step s s' : keys_ok s -> effect s s' -> keys_ok s'.
Proof.
  intros Hs He. destruct He as [| |q se c u Hk| |q se c u k Hk Hm|j r g input ex Hj Hp Ht|j r e Hj Hp|j r g v uuid t1 t2 Hj Hreach|c i owned r res Hc Hr Hp];
    try done.
  - by apply (keys_start q se c u).
  - by apply (keys_start_keyed q se c u).
  - eapply keys_set_phase; [done..|]. by rewrite Hp.
  - by eapply keys_set_phase.
  - destruct (finish_run_spec j r g v uuid t1 t2 s) as (e & sh & res & -> & _).
    apply (keys_set_phase j (settled res) (with_shared sh s) r); [done..|]. by destruct Hreach as [? ->|? ->].
  - exact (keys_forget i res owned s r Hs Hr Hp).
Qed.

Lemma service_keys es : keys_ok (run es).
Proof.
  apply run_service_invariant; [|exact keys_step]. split; [done|]. intros i r k.
  change (runs new_service) with (@nil Run). by rewrite lookup_nil.
Qed.

(** *** What is one request *)

(** One question of one caller: the same query, with the same tools asked with the same
    arguments (as JSON documents), for the same actor, organization and credential. *)
Definition same_request (q : AssistantQuery) (se : ActorSession) (q' : AssistantQuery) (se' : ActorSession) : Prop :=
  q_question q = q_question q' /\ q_mode q = q_mode q' /\ q_purpose_id q = q_purpose_id q' /\ q_as_of q = q_as_of q' /\
  q_idempotency_key q = q_idempotency_key q' /\
  Forall2 (fun x y => rq_tool x = rq_tool y /\ norm (JObj (rq_arguments x)) = norm (JObj (rq_arguments y)))
    (q_requests q) (q_requests q') /\
  actorId (s_identity se) = actorId (s_identity se') /\
  organizationId (s_identity se) = organizationId (s_identity se') /\
  credentialId (s_identity se) = credentialId (s_identity se').

Lemma norm_array xs ys : norm (JArr xs) = norm (JArr ys) -> Forall2 (fun x y => norm x = norm y) xs ys.
Proof. intros [= H]. apply list_eq_Forall2 in H. by rewrite Forall2_fmap in H. Qed.

Lemma norm_array_intro xs ys : Forall2 (fun x y => norm x = norm y) xs ys -> norm (JArr xs) = norm (JArr ys).
Proof. intros H. simpl. f_equal. by apply list_eq_Forall2, Forall2_fmap. Qed.

Lemma request_norm x y :
  norm (request_json x) = norm (request_json y) <->
  rq_tool x = rq_tool y /\ norm (JObj (rq_arguments x)) = norm (JObj (rq_arguments y)).
Proof.
  unfold request_json. split.
  - intros H. equal_at H "tool" F1. equal_at H "arguments" F2. split; [|done].
    injection F1 as F1. by destruct (rq_tool x), (rq_tool y).
  - intros [-> H]. apply norm_object_ext. repeat constructor; simpl; done.
Qed.

Lemma query_norm q q' :
  norm (query_json q) = norm (query_json q') <->
  q_question q = q_question q' /\ q_mode q = q_mode q' /\ q_purpose_id q = q_purpose_id q' /\ q_as_of q = q_as_of q' /\
  q_idempotency_key q = q_idempotency_key q' /\
  Forall2 (fun x y => norm (request_json x) = norm (request_json y)) (q_requests q) (q_requests q').
Proof.
  unfold query_json. split.
  - intros H.
    assert (q_idempotency_key q = q_idempotency_key q') as Hk.
    { destruct (q_idempotency_key q) as [k|], (q_idempotency_key q') as [k'|]; [| | |done].
      - equal_at H "idempotency_key" F. by injection F as ->.
      - equal_missing H "idempotency_key".
      - equal_missing H "idempotency_key". }
    rewrite Hk in H.
    assert (norm (JStr (q_question q)) = norm (JStr (q_question q')) /\ norm (JStr (mode_text (q_mode q))) = norm (JStr (mode_text (q_mode q'))) /\
            norm (JStr (q_purpose_id q)) = norm (JStr (q_purpose_id q')) /\ norm (JNum (q_as_of q)) = norm (JNum (q_as_of q')) /\
            norm (JArr (request_json <$> q_requests q)) = norm (JArr (request_json <$> q_requests q'))) as (F1 & F2 & F3 & F4 & F5).
    { destruct (q_idempotency_key q') as [k|]; equal_at H "question" F1; equal_at H "mode" F2; equal_at H "purpose_id" F3;
        equal_at H "as_of" F4; equal_at H "requests" F5; done. }
    injection F1 as F1. injection F2 as F2. injection F3 as F3. injection F4 as F4. apply norm_array in F5.
    split_and!; try done; [by destruct (q_mode q), (q_mode q')|]. by rewrite Forall2_fmap in F5.
  - intros (H1 & H2 & H3 & H4 & H5 & H6). apply norm_object_ext. rewrite H1, H2, H3, H4, H5.
    apply Forall2_app; [|by apply Forall_Forall2_diag, Forall_true]. repeat constructor; try done. cbn [snd].
    apply norm_array_intro. by apply Forall2_fmap_2.
Qed.

Lemma fingerprint_norm q se q' se' :
  norm (fingerprint_json q se) = norm (fingerprint_json q' se') <-> same_request q se q' se'.
Proof.
  unfold fingerprint_json, same_request. split.
  - intros H. equal_at H "query" F1. equal_at H "actor_id" F2. equal_at H "organization_id" F3. equal_at H "credential_id" F4.
    injection F2 as F2. injection F3 as F3. injection F4 as F4. apply query_norm in F1 as (H1 & H2 & H3 & H4 & H5 & H6).
    split_and!; try done. eapply Forall2_impl; [exact H6|]. by intros x y ?%request_norm.
  - intros (H1 & H2 & H3 & H4 & H5 & H6 & -> & -> & ->). apply norm_object_ext.
    repeat constructor; try done. cbn [snd]. apply query_norm. split_and!; try done.
    eapply Forall2_impl; [exact H6|]. by intros x y ?%request_norm.
Qed.

(** The text a request is recognized by. *)
Definition request_bytes (q : AssistantQuery) (se : ActorSession) : bytes := canonicalJsonBytes (fingerprint_json q se).

Lemma fingerprints_equal q se q' se' :
  (same_request q se q' se' -> fingerprint q se = fingerprint q' se') /\
  (fingerprint q se = fingerprint q' se' ->
   same_request q se q' se' \/ collides (request_bytes q se) (request_bytes q' se')).
Proof.
  unfold fingerprint, hash. split.
  - intros H%fingerprint_norm. apply canonicalJsonBytes_inj in H. by rewrite H.
  - intros H%to_base64url_inj. destruct (bool_decide_reflect (request_bytes q se = request_bytes q' se')) as [Hb|Hb]; [left|by right].
    by apply fingerprint_norm, canonicalJsonBytes_inj.
Qed.

(** C9. An idempotency key answers once: in every reachable state two runs under the same
    key of the same actor are one run, unless one of them has failed. While a run under a
    key has not failed, a call under the key starts nothing: one that asks the same
    question, in every part of it, for the same caller waits for that run, and any other is
    refused (unless the texts of these two very requests collide); only a run's failure
    makes its key free again. *)
Theorem one_run_per_key es :
  (forall i j r r' k, runs (run es) !! i = Some r -> runs (run es) !! j = Some r' ->
     run_key r = Some k -> run_key r' = Some k -> failed (run_phase r) = false -> failed (run_phase r') = false -> i = j) /\
  (forall i r raw query session k correlationId uuid,
     runs (run es) !! i = Some r -> failed (run_phase r) = false ->
     assistantQuery is_uuid raw = Some query -> q_idempotency_key query = Some k ->
     run_key r = Some (idempotency_key session k) ->
     (same_request (run_query r) (run_session r) query session ->
      answer is_uuid raw session correlationId uuid (run es) = add_call (waiting i None) (run es)) /\
     (~ same_request (run_query r) (run_session r) query session ->
      answer is_uuid raw session correlationId uuid (run es) = add_call (finished (Throw AssistantIdempotencyError)) (run es) \/
      collides (request_bytes (run_query r) (run_session r)) (request_bytes query session))) /\
  (forall k, map_get k (idempotentAnswers (run es)) = None ->
     forall i r, runs (run es) !! i = Some r -> run_key r = Some k -> failed (run_phase r) = true).
Proof.
  destruct (service_keys es) as [H1 H2]. split_and!.
  - intros i j r r' k Hi Hj Hk Hk' Hf Hf'. destruct (H2 i r k Hi Hk Hf) as [fp Hfp].
    destruct (H2 j r' k Hj Hk' Hf') as [fp' Hfp']. congruence.
  - intros i r raw query session k correlationId uuid Hi Hf Hq Hk Hkey.
    destruct (H2 i r _ Hi Hkey Hf) as [fp Hfp]. destruct (H1 _ _ _ Hfp) as (r' & Hr' & _ & ->).
    rewrite Hi in Hr'. injection Hr' as <-. unfold answer. rewrite Hq, Hk, Hfp.
    destruct (fingerprints_equal (run_query r) (run_session r) query session) as [Hsame Hdiff]. split.
    + intros He%Hsame. by rewrite He, String.eqb_refl.
    + intros Hn. destruct (String.eqb_spec (fingerprint (run_query r) (run_session r)) (fingerprint query session)) as [He|He]; [|by left].
      right. by destruct (Hdiff He).
  - intros k Hk i r Hi Hkey. destruct (failed (run_phase r)) eqn:Hf; [done|].
    destruct (H2 i r k Hi Hkey Hf) as [fp Hfp]. congruence.
Qed.

End Runs.
