(* ===== verification/AssistantSample.v ===== *)
(** * The assistant: concrete runs

    A service with one tool and a model that repeats its support, the witnesses of the
    theorems on runs, and inputs on which the validation fails with an error. *)

From S2P Require Import Prelude Regex Digits Base64 Schemas Storage Json Hex Signatures Protection Session AuditLedger EcmaRegExp Text SemanticTokens SemanticSupport AssistantTypes AssistantTools AssistantDecisions AssistantProse AssistantValidation AssistantService AssistantRelease AssistantRuns.

Local Open Scope string_scope.
#[local] Existing Instance code_unit_locale.

Module Sample.

Definition uuid : string := "00000000-0000-4000-8000-000000000001".
Definition id (kind : string) : string := "urn:evllm:" +:+ kind +:+ ":" +:+ uuid.

Definition session : ActorSession :=
  mkSession "session" (mkIdentity (id "actor") (id "org") (id "credential") "0x0000000000000000000000000000000000000001") 1 2.

Definition raw : json :=
  JObj [("question", JStr "What is it?"); ("purpose_id", JStr (id "purpose")); ("as_of", JNum 1);
        ("idempotency_key", JStr uuid);
        ("requests", JArr [JObj [("tool", JStr "facts"); ("arguments", JObj [])]])].

Definition support (name text : string) (d : option RecordedDecision) : AssistantSupport :=
  let s c := mkSupport name (id name) 1 (id "org") (id "org") 1 sup_active c None text d in
  match d with
  | Some d' => s (recordedDecisionSupportCommitment (s "") d')
  | None => s "commitment-000000"
  end.

Definition registry (supports : list AssistantSupport) : AssistantToolRegistry :=
  [(facts, TypedQueryTool facts (fun _ => Ok supports))].

Definition allow : ActorSession -> string -> AssistantToolName -> object -> result AssistantError bool :=
  fun _ _ _ _ => Ok true.

Definition candidate (text : string) (ids : list string) : AssistantCandidate :=
  mkCandidate outcome_answer None text [mkClaim "claim-1" text ids] [] [] [] claims_last.

Definition model_says (c : AssistantCandidate) : ModelInput -> result AssistantError ModelResult :=
  fun _ => Ok (mkModelResult c "model" "provider" None None None).

Definition ask : event := ev_answer raw session "correlation" uuid.
Definition tools (supports : list AssistantSupport) : event := ev_tools 0 (registry supports) allow uuid 5 6.
Definition model (c : AssistantCandidate) : event := ev_model 0 (model_says c) uuid 7 8.

Notation service := (run_service event_id (fun _ => true) 12000).

Definition supports : list AssistantSupport := [support "facts" "It is 5." None].
Definition events : list event := [ask; tools supports; model (candidate "It is 5." ["facts"])].

Definition answered_run : option (Run * AssistantResponse) :=
  Eval vm_compute in
    r ← runs (service events) !! 0%nat;
    match run_phase r with settled (Ok re) => Some (r, re) | _ => None end.

Lemma answers_released_witness :
  exists r re, runs (service events) !! 0%nat = Some r /\ run_phase r = settled (Ok re) /\ re_validation_passed re = true /\
    exists supports, read_by event_id (fun _ => true) 12000 events 0 r supports /\ released r re supports.
Proof.
  destruct answered_run as [[r re]|] eqn:He; [|done]. injection He as Hr Hre. exists r, re.
  assert (runs (service events) !! 0%nat = Some r) as H1 by (subst r; vm_compute; reflexivity).
  assert (run_phase r = settled (Ok re)) as H2 by (subst r re; vm_compute; reflexivity).
  assert (re_validation_passed re = true) as H3 by (subst re; vm_compute; reflexivity).
  split; [exact H1|]. split; [exact H2|]. split; [exact H3|].
  exact (answers_released event_id (fun _ => true) 12000 events 0 r re H1 H2).
Defined.

Lemma runs_end_witness :
  is_Some (runs (service [ask]) !! 0%nat) /\
  let s := service ([ask] ++ tools supports :: [ask] ++ model (candidate "It is 5." ["facts"]) :: [ask]) in
  exists r res, runs s !! 0%nat = Some r /\ run_phase r = settled res /\
    forall c owned, calls s !! c = Some (waiting 0 owned) ->
      calls (resume c s) !! c = Some (finished res).
Proof.
  assert (is_Some (runs (service [ask]) !! 0%nat)) as H by (vm_compute; eexists; reflexivity).
  split; [exact H|].
  exact (runs_end event_id (fun _ => true) 12000 [ask] [ask] [ask] 0 (registry supports) allow uuid 5 6
           (model_says (candidate "It is 5." ["facts"])) uuid 7 8 H).
Defined.

(** ** Errors of the validation *)

Definition decision : RecordedDecision := mkRecordedDecision outcome_answer "reuse-preferred" [].

(** Two records of one decision. *)
Definition pair_of_records : list AssistantSupport :=
  [support "first" "Record." (Some decision); support "second" "Record." (Some decision)].

Definition query : AssistantQuery :=
  mkQuery "Which route?" explain_recorded_decision (id "purpose") 1 None [mkToolRequest facts []].

End Sample.

(** Two active supports that record the same decision make every answer fail. They pass
    the schema and the registry, the decision they record is consistent, and the model is
    asked; but the claim that renders the decision cites both, the validation of a claim
    wants from each cited support a word that no other has, and both have the whole
    statement. So whatever the model answers, the release throws, and the service rethrows. *)
Theorem duplicate_decision_unanswerable :
  Forall (fun s => assistantSupport s = true) Sample.pair_of_records /\ distinct Sample.pair_of_records /\
  resolveActiveRecordedDecision Sample.pair_of_records = consistent Sample.decision /\
  (exists input, decide 12000 Sample.query Sample.session Sample.pair_of_records = AskModel input) /\
  forall query result, exists e, after_model query Sample.pair_of_records (Ok result) = Throw (native e).
Proof.
  assert (resolveActiveRecordedDecision Sample.pair_of_records = consistent Sample.decision) as Hd by (vm_compute; reflexivity).
  split_and!; try done.
  - repeat constructor; vm_compute; reflexivity.
  - split; apply (bool_decide_unpack _); vm_compute; reflexivity.
  - eexists. vm_compute. reflexivity.
  - intros query result. unfold after_model. simpl.
    destruct (fixed_claim_needed (mr_candidate result) Sample.pair_of_records (q_question query) Sample.decision
      "Reuse is the recorded preferred route. The recorded decision code is reuse-preferred." Hd) as [e ->];
      [vm_compute; reflexivity|by vm_compute|]. by exists e.
Qed.

(** The supports and claims of two failures: a component letter in lower case, and a word
    that every object of the language inherits. *)
Definition crashing_claims : list (AssistantSupport * Claim) :=
  [(Sample.support "facts" "G = PASS, C = 80/100, I = low, E = 5, A = 0.9, U = stable." None,
    mkClaim "claim-1" "c means circularity." ["facts"]);
   (Sample.support "facts" "The constructor signed." None, mkClaim "claim-1" "The constructor signed." ["facts"])].

(** There are schema-valid supports and claims, the second claim even repeating its
    support, on which the validation throws a TypeError: a table keyed by capital letters is
    asked for a lower-case one, or a lookup finds the inherited [constructor]. A request in
    which the model makes such a claim is neither answered nor refused: the service throws,
    whatever else the candidate says. *)
Theorem claim_text_crashes s cl (Hin : (s, cl) ∈ crashing_claims) :
  assistantSupport s = true /\ claim_schema cl = true /\ validateAssistantClaim cl [s] = Throw TypeError /\
  forall query result, cl ∈ claims (mr_candidate result) ->
    exists e, after_model query [s] (Ok result) = Throw (native e).
Proof.
  assert (assistantSupport s = true /\ claim_schema cl = true /\ validateAssistantClaim cl [s] = Throw TypeError /\
          resolveActiveRecordedDecision [s] = absent) as (H1 & H2 & H3 & H4).
  { unfold crashing_claims in Hin. repeat (apply elem_of_cons in Hin as [[= -> ->]|Hin]; [vm_compute; by split_and!|]).
    by apply not_elem_of_nil in Hin. }
  split_and!; [done..|]. intros query result Hcl. unfold after_model. simpl.
  destruct (claim_error (mr_candidate result) cl [s] (q_question query) TypeError H4 Hcl H3) as [e ->]. by exists e.
Qed.

Lemma claim_text_crashes_witness :
  let p := (Sample.support "facts" "The constructor signed." None, mkClaim "claim-1" "The constructor signed." ["facts"]) in
  p ∈ crashing_claims /\ assistantSupport p.1 = true.
Proof.
  intros p. assert (p ∈ crashing_claims) as H by (right; left).
  split; [exact H|]. exact (proj1 (claim_text_crashes p.1 p.2 H)).
Defined.
