(* ===== verification/Conditions.v ===== *)
(** * The conditions of the formal evaluation

    [src/src/evaluation/conditions.ts]: the eight model conditions, each a profile of
    controls, and the adapter that runs a case under one of them. The model is a function of
    the request that may throw; [context.session] is only read for the organization. *)

From S2P Require Import Prelude Regex Digits Base64 Schemas Storage Json Hex Signatures Protection Session AuditLedger EcmaRegExp Text SemanticTokens SemanticSupport AssistantTypes AssistantTools AssistantDecisions AssistantProse AssistantValidation Formal.

Local Open Scope Z_scope.

Definition ModelConditionId := FormalConfigurationId.

Definition MODEL_CONDITION_IDS : list ModelConditionId :=
  [ungrounded_model; ordinary_rag; governed_evllm; ablation_access_enforcement; ablation_source_status_integrity;
   ablation_conflict_precondition; ablation_deterministic_rules; ablation_output_validation].

Record ConditionControls := controls {
  grounding : bool;
  access_enforcement : bool;
  provenance_enforcement : bool;
  conflict_precondition : bool;
  deterministic_rules : bool;
  output_validation : bool
}.

Record ConditionExecution := mkExecution {
  ex_condition_id : ModelConditionId;
  ex_controls : ConditionControls;
  ex_result : ModelResult;
  ex_validation_codes : list string;
  ex_model_invoked : bool;
  ex_model_invocation : option ModelResult;
  ex_validation_candidate : option AssistantCandidate;
  ex_presented_support_ids : list string
}.

Record GovernedFormalReference := mkReference {
  gr_outcome : AssistantOutcome;
  gr_decision_code : option string;
  gr_summary : string;
  gr_claims : list Claim;
  gr_evidence_reason_codes : list string;
  gr_validation_codes : list string
}.

(** What the model is given, [instructions] included *)
Record GenerateInput := mkGenerateInput {
  gi_question : string;
  gi_purposeId : string;
  gi_asOf : Z;
  gi_session : ActorSession;
  gi_supports : list AssistantSupport;
  gi_instructions : option string
}.

Record ConditionContext := mkContext {
  cx_model : GenerateInput -> result exn ModelResult;
  cx_purposeId : string;
  cx_asOf : Z;
  cx_session : ActorSession
}.

Definition RAG_INSTRUCTIONS : string :=
  "Answer from the supplied context and cite bracketed support IDs. Return the required structured response.".
Definition UNGROUNDED_INSTRUCTIONS : string :=
  "Answer the question using your existing knowledge. Return the required structured response.".

Definition profiles (id : ModelConditionId) : ConditionControls :=
  match id with
  | ungrounded_model => controls false false false false false false
  | ordinary_rag => controls true false false false false false
  | governed_evllm => controls true true true true true true
  | ablation_access_enforcement => controls true false true true true true
  | ablation_source_status_integrity => controls true true false true true true
  | ablation_conflict_precondition => controls true true true false true true
  | ablation_deterministic_rules => controls true true true true false true
  | ablation_output_validation => controls true true true true true false
  end.

(** [new FormalModelConditionAdapter(id)]: its only state is the condition and its profile. *)
Record FormalModelConditionAdapter := mkAdapter { ad_id : ModelConditionId; ad_controls : ConditionControls }.
Definition newAdapter (id : ModelConditionId) : FormalModelConditionAdapter := mkAdapter id (profiles id).

Definition createFormalModelConditionAdapters : list (ModelConditionId * FormalModelConditionAdapter) :=
  (fun id => (id, newAdapter id)) <$> MODEL_CONDITION_IDS.

(** ** Results without a model *)

Definition reasonCodes (summary : string) (outcome : AssistantOutcome) : list string :=
  if String.eqb summary "missing-support" then ["missing-evidence"]
  else if String.eqb summary "missing-recorded-decision" then ["missing-evidence"]
  else if String.eqb summary "conflicting-support" then ["conflicting-evidence"; "external-decision-required"]
  else if String.eqb summary "conflicting-recorded-decision" then ["conflicting-evidence"; "external-decision-required"]
  else if String.eqb summary "inactive-support" then ["inactive-evidence"]
  else if String.eqb summary "access-denied" then ["access-denied"]
  else if String.eqb summary "prompt-injection" then ["prompt-injection"]
  else if bool_decide (outcome = requires_external_decision) then ["external-decision-required"]
  else [].

Definition deterministicResult (outcome : AssistantOutcome) (summary : string) (claims : list Claim) : ModelResult :=
  mkModelResult
    (mkCandidate outcome None summary claims (reasonCodes summary outcome) [summary] [] claims_after_summary)
    "deterministic-condition-engine-v1" "evllm" None None None.

Definition activeClaims (item : FormalCase) : list Claim :=
  imap (fun i s => mkClaim (claim_number (i + 1)) (fs_content s) [fs_support_id s])
    (filter (fun s => fs_active s = true) (fc_supports item)).

(** A status the provenance control lets through *)
Definition current_status (s : FormalSupport) : bool :=
  bool_decide (fs_status s ∈ [sup_active; sup_conflicting; sup_restricted]).

Definition formalPrecondition (item : FormalCase) (profile : ConditionControls) (accessRequest : Access) :
    option (AssistantOutcome * string) :=
  if negb (grounding profile) then None
  else if access_enforcement profile && negb (isFormalAccessPermitted item accessRequest)
  then Some (outcome_abstain, "access-denied")
  else if provenance_enforcement profile && bool_decide (fc_supports item = [])
  then Some (outcome_abstain, "missing-support")
  else if provenance_enforcement profile && existsb (fun s => looksLikeEmbeddedInstruction (fs_content s)) (fc_supports item)
  then Some (outcome_abstain, "prompt-injection")
  else if provenance_enforcement profile && existsb (fun s => negb (current_status s)) (fc_supports item)
  then Some (outcome_abstain, "inactive-support")
  else if conflict_precondition profile &&
          existsb (fun s => bool_decide (fs_status s = sup_conflicting)) (fc_supports item)
  then Some (requires_external_decision, "conflicting-support")
  else if deterministic_rules profile && isExternalDecisionRequest (fc_prompt item)
  then Some (requires_external_decision, "external-decision-boundary")
  else None.

Definition deriveGovernedFormalReference (item : FormalCase) : GovernedFormalReference :=
  match formalPrecondition item (profiles governed_evllm) (fc_access_request item) with
  | None =>
      let recorded := head (activeDecisionRecords item) in
      mkReference (default outcome_answer (rd_outcome <$> recorded)) (rd_code <$> recorded)
        (match recorded with
         | None => "The permitted records are available for explanation."
         | Some d => "The recorded decision code is " +:+ rd_code d +:+ "."
         end)%string
        (activeClaims item) (default [] (rd_reason_codes <$> recorded)) []
  | Some (outcome, code) =>
      mkReference outcome None code
        (if String.eqb code "external-decision-boundary" then activeClaims item else [])
        (reasonCodes code outcome) [code]
  end.

(** ** The adapter *)

Section Adapter.
Context `{CanonicalJson, Sha256} `{HL : LocaleCompare}.

Definition condition_request (context : ConditionContext) : Access :=
  mkAccess (organizationId (s_identity (cx_session context))) (cx_purposeId context).

(** What the adapter shows of a support: without the provenance control, made-up references
    and no status; without the rules, no recorded decision. *)
Definition projectSupport (c : ConditionControls) (index : nat) (s : FormalSupport) : AssistantSupport :=
  let provenance := provenance_enforcement c in
  let org := formal_urn "org" (if provenance then 2 else 9) in
  let decision := if deterministic_rules c then fs_recorded_decision s else None in
  let projected (commitment : string) :=
    mkSupport (fs_support_id s) (if provenance then fs_resource_id s else formal_urn "evidence" (index + 1))
      (if provenance then fs_resource_version s else 1) org org (if provenance then 200 else 1)
      (if provenance then fs_status s else sup_active) commitment
      (if provenance then Some ("formal:" +:+ fs_support_id s)%string else None) (fs_content s) decision in
  projected (match decision with
             | None => if provenance then "sha256:" +:+ repeat_char 48 "b"%char else "metadata-withheld"
             | Some d => recordedDecisionSupportCommitment (projected "") d
             end)%string.

Definition projectSupports (a : FormalModelConditionAdapter) (item : FormalCase) : list AssistantSupport :=
  if negb (grounding (ad_controls a)) then []
  else imap (projectSupport (ad_controls a))
         (if bool_decide (ad_id a = ablation_deterministic_rules)
          then filter (fun s => fs_recorded_decision s = None) (fc_supports item) else fc_supports item).

Definition instructions (a : FormalModelConditionAdapter) : option string :=
  match ad_id a with
  | ungrounded_model => Some UNGROUNDED_INSTRUCTIONS
  | ordinary_rag => Some RAG_INSTRUCTIONS
  | _ => None
  end.

Definition execution (a : FormalModelConditionAdapter) (result : ModelResult) (validationCodes : list string)
    (modelInvoked : bool) (supports : list AssistantSupport) (modelInvocation : option ModelResult)
    (validationCandidate : option AssistantCandidate) : ConditionExecution :=
  mkExecution (ad_id a) (ad_controls a) result validationCodes modelInvoked modelInvocation validationCandidate
    (support_id <$> supports).

(** The claims that repeat the active supports *)
Definition active_support_claims (supports : list AssistantSupport) : list Claim :=
  imap (fun i s => mkClaim (claim_number (i + 1)) (content s) [support_id s]) (filter (fun s => is_active s = true) supports).

(** The private method [deterministic] *)
Definition deterministic (a : FormalModelConditionAdapter) (item : FormalCase) (outcome : AssistantOutcome) (code : string) :
    ConditionExecution :=
  let supports := projectSupports a item in
  let claims := if String.eqb code "external-decision-boundary" then active_support_claims supports else [] in
  execution a (deterministicResult outcome code claims) [code] false supports None None.

(** The private method [precondition] *)
Definition formal_precondition (a : FormalModelConditionAdapter) (item : FormalCase) (context : ConditionContext) :
    option ConditionExecution :=
  '(outcome, code) ← formalPrecondition item (ad_controls a) (condition_request context);
  Some (deterministic a item outcome code).

Definition asks_decision (a : FormalModelConditionAdapter) (item : FormalCase) : bool :=
  bool_decide (fc_query_mode item = explain_recorded_decision) && deterministic_rules (ad_controls a).

Definition recordedDecisionPrecondition (a : FormalModelConditionAdapter) (item : FormalCase)
    (supports : list AssistantSupport) : option ConditionExecution :=
  if negb (asks_decision a item) then None
  else
    let refuse outcome code := Some (execution a (deterministicResult outcome code []) [code] false supports None None) in
    match resolveActiveRecordedDecision supports with
    | consistent _ => None
    | conflicting => refuse requires_external_decision "conflicting-recorded-decision"
    | absent => refuse outcome_abstain "missing-recorded-decision"
    end%string.

Definition willInvokeModel (a : FormalModelConditionAdapter) (item : FormalCase) (context : ConditionContext) : bool :=
  match formalPrecondition item (ad_controls a) (condition_request context) with
  | Some _ => false
  | None =>
      if negb (asks_decision a item) then true
      else is_consistent (resolveActiveRecordedDecision (projectSupports a item))
  end.

Definition generate_input (a : FormalModelConditionAdapter) (item : FormalCase) (context : ConditionContext) : GenerateInput :=
  mkGenerateInput (fc_prompt item) (cx_purposeId context) (cx_asOf context) (cx_session context) (projectSupports a item)
    (instructions a).

(** [{ ...generated, candidate }] *)
Definition with_candidate (c : AssistantCandidate) (m : ModelResult) : ModelResult :=
  mkModelResult c (mr_model m) (mr_provider m) (responseId m) (inputTokens m) (outputTokens m).

(** [execute] once the model has answered *)
Definition after_generation (a : FormalModelConditionAdapter) (item : FormalCase) (supports : list AssistantSupport)
    (generated : ModelResult) : result exn ConditionExecution :=
  release ←
    (if deterministic_rules (ad_controls a)
     then r ← releaseAssistantCandidateWithRecordedDecision (mr_candidate generated) supports (fc_prompt item)
                (output_validation (ad_controls a));
          Ok (Some r)
     else Ok None);
  let processed := with_candidate (default (mr_candidate generated) (rl_candidate <$> release)) generated in
  let validationCandidate := default (mr_candidate processed) (rl_validation_candidate <$> release) in
  if negb (output_validation (ad_controls a)) then
    Ok (execution a processed [] true supports (Some generated) (Some validationCandidate))
  else
    validationCodes ←
      match release with
      | Some r => Ok (rl_validation_codes r)
      | None => validateAssistantCandidate validationCandidate supports (fc_prompt item)
      end;
    if bool_decide (validationCodes = []) then
      Ok (execution a processed [] true supports (Some generated) (Some validationCandidate))
    else
      Ok (execution a (deterministicResult outcome_abstain "Generated response failed support validation." [])
            validationCodes true supports (Some generated) (Some validationCandidate)).

Definition execute (a : FormalModelConditionAdapter) (item : FormalCase) (context : ConditionContext) :
    result exn ConditionExecution :=
  match formal_precondition a item context with
  | Some e => Ok e
  | None =>
      let supports := projectSupports a item in
      match recordedDecisionPrecondition a item supports with
      | Some e => Ok e
      | None =>
          generated ← cx_model context (generate_input a item context);
          after_generation a item supports generated
      end
  end.

End Adapter.
