(* ===== verification/ConditionsProperties.v ===== *)
(** * The conditions of the formal evaluation: facts

    What an adapter asks the model and what it releases, and that the governed condition
    executes its reference. *)

From S2P Require Import Prelude Regex Digits Base64 Schemas Storage Json Hex Signatures Protection Session AuditLedger EcmaRegExp Text SemanticTokens SemanticSupport AssistantTypes AssistantTools AssistantDecisions AssistantProse AssistantValidation AssistantRelease Formal FormalProperties Conditions.

Local Open Scope Z_scope.

Section Adapter.
Context `{CanonicalJson, Sha256} `{HL : LocaleCompare}.

(** ** The call of the model *)

Lemma recordedDecisionPrecondition_None a item supports :
  recordedDecisionPrecondition a item supports = None <->
  asks_decision a item = false \/ is_consistent (resolveActiveRecordedDecision supports) = true.
Proof.
  unfold recordedDecisionPrecondition. destruct (asks_decision a item); simpl; [|by split; [left|]].
  destruct (resolveActiveRecordedDecision supports); simpl; (split; [try done; by right|by intros [|]]).
Qed.

Lemma willInvokeModel_true a item context :
  willInvokeModel a item context = true <->
  formal_precondition a item context = None /\ recordedDecisionPrecondition a item (projectSupports a item) = None.
Proof.
  unfold willInvokeModel, formal_precondition. rewrite recordedDecisionPrecondition_None.
  destruct (formalPrecondition _ _ _) as [[o c]|]; simpl; [by split; [|intros [? _]]|].
  destruct (asks_decision a item); simpl; [|by split; auto]. split; [auto|by intros [_ [|]]].
Qed.

(** A result of the controls alone. *)
Definition controlled (a : FormalModelConditionAdapter) (item : FormalCase) (e : ConditionExecution) : Prop :=
  exists outcome code claims, e = execution a (deterministicResult outcome code claims) [code] false (projectSupports a item) None None.

Lemma execute_controlled a item context :
  willInvokeModel a item context = false ->
  exists e, controlled a item e /\ forall model, execute a item (mkContext model (cx_purposeId context) (cx_asOf context) (cx_session context)) = Ok e.
Proof.
  intros Hw. unfold willInvokeModel in Hw. unfold execute, formal_precondition, condition_request in *. simpl.
  destruct (formalPrecondition _ _ _) as [[outcome code]|]; simpl.
  - eexists. split; [|done]. by do 3 eexists.
  - unfold recordedDecisionPrecondition. destruct (asks_decision a item); simpl in *; [|done].
    destruct (resolveActiveRecordedDecision _); [|done|]; (eexists; split; [by do 3 eexists|done]).
Qed.

Lemma execute_asks a item context :
  willInvokeModel a item context = true ->
  execute a item context =
    (generated ← cx_model context (generate_input a item context); after_generation a item (projectSupports a item) generated).
Proof. unfold execute. by intros [-> ->]%willInvokeModel_true. Qed.

Lemma after_generation_invoked a item supports generated e :
  after_generation a item supports generated = Ok e ->
  ex_model_invoked e = true /\ ex_model_invocation e = Some generated /\
  ex_presented_support_ids e = support_id <$> supports.
Proof.
  unfold after_generation. intros (release & _ & He)%bind_Ok. destruct (output_validation _); simpl in He.
  - apply bind_Ok in He as (codes & _ & He). case_match; by injection He as <-.
  - by injection He as <-.
Qed.

(** [willInvokeModel] tells what [execute] does. When it is false the result is the same
    whatever the model would say, and shows that no model was invoked, with the code of the
    control that decided. When it is true the model is asked once, with the question and the
    supports as the condition shows them, and the result is its answer released: it keeps
    what the model said, or fails when the model or the release does. *)
Theorem invocation_as_predicted a item context :
  (willInvokeModel a item context = false ->
   exists e, controlled a item e /\
     forall model, execute a item (mkContext model (cx_purposeId context) (cx_asOf context) (cx_session context)) = Ok e) /\
  (willInvokeModel a item context = true ->
   execute a item context =
     (generated ← cx_model context (generate_input a item context); after_generation a item (projectSupports a item) generated) /\
   forall e, execute a item context = Ok e ->
     ex_model_invoked e = true /\
     exists generated, cx_model context (generate_input a item context) = Ok generated /\ ex_model_invocation e = Some generated).
Proof.
  split; [apply execute_controlled|]. intros Hw. apply execute_asks in Hw. split; [done|].
  intros e He. rewrite Hw in He. apply bind_Ok in He as (g & Hg & (? & ? & _)%after_generation_invoked).
  split; [done|]. by exists g.
Qed.

(** ** What is released *)

Definition refusal : ModelResult := deterministicResult outcome_abstain "Generated response failed support validation." [].

(** With the validation on, an answer of the model leaves the adapter only when every check
    accepts it; it then renders the recorded decision of the supports, if the rules are on
    and there is one. *)
Lemma after_generation_validated a item supports generated e :
  output_validation (ad_controls a) = true -> after_generation a item supports generated = Ok e ->
  (ex_validation_codes e = [] /\ valid_candidate (mr_candidate (ex_result e)) supports (fc_prompt item) /\
   (deterministic_rules (ad_controls a) = true ->
    match resolveActiveRecordedDecision supports with
    | consistent d => renders (mr_candidate (ex_result e)) d supports
    | _ => mr_candidate (ex_result e) = mr_candidate generated
    end)) \/
  (ex_validation_codes e <> [] /\ ex_result e = refusal /\
   (deterministic_rules (ad_controls a) = true -> forall d, resolveActiveRecordedDecision supports <> consistent d)).
Proof.
  unfold after_generation. intros ->. simpl. intros (release & Hr & (codes & Hc & He)%bind_Ok)%bind_Ok.
  destruct (deterministic_rules (ad_controls a)).
  - apply bind_Ok in Hr as (r & Hr & [= <-]). simpl in *. injection Hc as <-.
    pose proof (fun d => release_consistent _ _ _ _ d Hr) as Hcodes.
    apply release_spec in Hr as [Hres Hspec]. case_bool_decide as Hn; injection He as <-; simpl;
      [left|right; split_and!; [done|done|]; by intros _ d Hd; apply Hn, (Hcodes d)].
    destruct (Hspec Hn) as [Hv Hshow]. rewrite Hres in Hshow. done.
  - injection Hr as <-. simpl in *. case_bool_decide as Hn; injection He as <-; simpl; [left|by right].
    subst codes. split_and!; [done|by apply validate_valid|done].
Qed.

(** In a condition with the output validation, no answer of the model is released
    unchecked: an execution in which the model took part either carries no code, and its
    candidate passes every check of the assistant on the supports the condition shows, or
    carries codes and is the fixed refusal. *)
Theorem validated_or_refused a item context e :
  output_validation (ad_controls a) = true -> execute a item context = Ok e -> ex_model_invoked e = true ->
  (ex_validation_codes e = [] /\
   valid_candidate (mr_candidate (ex_result e)) (projectSupports a item) (fc_prompt item)) \/
  (ex_validation_codes e <> [] /\ ex_result e = refusal).
Proof.
  intros Ho He Hi. destruct (willInvokeModel a item context) eqn:Hw.
  - rewrite (execute_asks _ _ _ Hw) in He. apply bind_Ok in He as (g & _ & He).
    destruct (after_generation_validated _ _ _ _ _ Ho He) as [(? & ? & _)|(? & ? & _)]; auto.
  - destruct (execute_controlled _ _ _ Hw) as (e' & (o & c & cls & ->) & He'). specialize (He' (cx_model context)).
    destruct context as [model p t session]. simpl in He'. rewrite He' in He. by injection He as <-.
Qed.

(** ** The governed reference *)

Lemma imap_fmap_of {A B C} (f : nat -> A -> B) (g : B -> C) (h : A -> C) l :
  (forall i x, g (f i x) = h x) -> g <$> imap f l = h <$> l.
Proof.
  intros Hg. revert f Hg. induction l as [|x l IH]; intros f Hg; [done|]. rewrite imap_cons, !fmap_cons. f_equal; [apply Hg|].
  apply IH. intros i. apply (Hg (S i)).
Qed.

Lemma omap_imap_of {A B C} (f : nat -> A -> B) (g : B -> option C) (h : A -> option C) l :
  (forall i x, g (f i x) = h x) -> omap g (imap f l) = omap h l.
Proof.
  intros Hg. revert f Hg. induction l as [|x l IH]; intros f Hg; [done|]. rewrite imap_cons. csimpl. rewrite Hg.
  rewrite (IH (f ∘ S)); [done|]. intros i. apply (Hg (S i)).
Qed.

Lemma filter_imap_of {A B C} (f : nat -> A -> B) (p : B -> bool) (q : A -> bool) (g : B -> C) (h : A -> C) l :
  (forall i x, p (f i x) = q x /\ g (f i x) = h x) ->
  g <$> filter (fun y => p y = true) (imap f l) = h <$> filter (fun x => q x = true) l.
Proof.
  intros Hg. revert f Hg. induction l as [|x l IH]; intros f Hg; [done|]. rewrite imap_cons, !filter_cons.
  destruct (Hg 0%nat x) as [Hp Hx]. rewrite Hp. destruct (q x); simpl; [f_equal; [done|]|];
    (apply IH; intros i; apply (Hg (S i))).
Qed.

Notation governed := (newAdapter governed_evllm).

Lemma governed_records item : omap active_decision (projectSupports governed item) = activeDecisionRecords item.
Proof. unfold projectSupports. simpl. apply omap_imap_of. by intros i []. Qed.

Lemma governed_claims item : active_support_claims (projectSupports governed item) = activeClaims item.
Proof.
  unfold active_support_claims, activeClaims, projectSupports. simpl.
  pose proof (filter_imap_of (projectSupport (profiles governed_evllm)) is_active fs_active
    (fun s => (content s, [support_id s])) (fun s => (fs_content s, [fs_support_id s])) (fc_supports item)) as Heq.
  specialize (Heq ltac:(done)). apply (f_equal (imap (fun i p => mkClaim (claim_number (i + 1)) p.1 p.2))) in Heq.
  by rewrite !imap_fmap in Heq.
Qed.

Lemma precondition_frozen item profile request outcome code :
  formalPrecondition item profile request = Some (outcome, code) ->
  map_get code FORMAL_EXPECTED_VALIDATION_TO_RELEASED_REASON_CODES = Some (reasonCodes code outcome).
Proof. unfold formalPrecondition. repeat case_match; intros Heq; simplify_eq; reflexivity. Qed.

(** The decision an explaining case is about. *)
Lemma explained_decision item :
  formalCase item = true -> fc_query_mode item = explain_recorded_decision -> exists d, activeDecisionRecords item = [d].
Proof.
  unfold formalCase. rewrite !andb_true_iff. intros Hf Hm. rewrite Hm in Hf. destruct_and?.
  destruct (activeDecisionRecords item) as [|d [|]]; try done. by exists d.
Qed.

Lemma governed_resolution item d :
  activeDecisionRecords item = [d] ->
  resolveActiveRecordedDecision (projectSupports governed item) = consistent (normalizeRecordedDecision d).
Proof. intros Hd. unfold resolveActiveRecordedDecision. rewrite governed_records, Hd. reflexivity. Qed.

Lemma governed_invokes item context :
  formalCase item = true ->
  willInvokeModel governed item context = bool_decide (formalPrecondition item (profiles governed_evllm) (condition_request context) = None).
Proof.
  intros Hf. unfold willInvokeModel. simpl. destruct (formalPrecondition _ _ _) as [p|]; [done|].
  rewrite (bool_decide_true (None = None)) by done. unfold asks_decision.
  destruct (fc_query_mode item) eqn:Hm; [done|]. simpl. destruct (explained_decision _ Hf Hm) as [d Hd]. by rewrite (governed_resolution _ _ Hd).
Qed.

(** What a reference promises of an execution that the controls decide. *)
Definition agrees (r : GovernedFormalReference) (e : ConditionExecution) : Prop :=
  let c := mr_candidate (ex_result e) in
  cd_outcome c = gr_outcome r /\ cd_decision_code c = gr_decision_code r /\ summary c = gr_summary r /\
  claims c = gr_claims r /\ evidence_reason_codes c = gr_evidence_reason_codes r /\
  ex_validation_codes e = gr_validation_codes r.

(** C17. The reference answer of a case is what the governed condition does with it, asked for
    the access of the case: the model is asked exactly when the reference has no code.
    When it is not, the execution is the reference in every field, and its reason codes are
    the frozen ones of its validation code. When it is, a case that explains a recorded
    decision has the outcome and the decision code of the reference, and its reason codes
    as a set, whatever the model said, unless the run fails. *)
Theorem governed_reference_executed item context :
  formalCase item = true -> condition_request context = fc_access_request item ->
  let r := deriveGovernedFormalReference item in
  (willInvokeModel governed item context = true <-> gr_validation_codes r = []) /\
  (willInvokeModel governed item context = false ->
   exists e code, execute governed item context = Ok e /\ agrees r e /\ gr_validation_codes r = [code] /\
     map_get code FORMAL_EXPECTED_VALIDATION_TO_RELEASED_REASON_CODES = Some (gr_evidence_reason_codes r)) /\
  (willInvokeModel governed item context = true -> fc_query_mode item = explain_recorded_decision ->
   forall e, execute governed item context = Ok e ->
     let c := mr_candidate (ex_result e) in
     cd_outcome c = gr_outcome r /\ cd_decision_code c = gr_decision_code r /\
     evidence_reason_codes c ≡ₚ set_of (gr_evidence_reason_codes r)).
Proof.
  intros Hf Hreq r. rewrite (governed_invokes _ _ Hf), Hreq. subst r. unfold deriveGovernedFormalReference.
  destruct (formalPrecondition item (profiles governed_evllm) (fc_access_request item)) as [[outcome code]|] eqn:Hp.
  - split_and!; [done| |done]. intros _.
    assert (execute governed item context = Ok (deterministic governed item outcome code)) as ->.
    { unfold execute, formal_precondition. change (ad_controls governed) with (profiles governed_evllm). by rewrite Hreq, Hp. }
    eexists _, code. split; [reflexivity|]. split_and!; [|done|by eapply precondition_frozen].
    unfold agrees, deterministic. simpl. by rewrite governed_claims.
  - split_and!; [done|done|]. intros _ Hm e He. destruct (explained_decision _ Hf Hm) as [d Hd].
    pose proof (governed_resolution _ _ Hd) as Hres. rewrite Hd. simpl.
    assert (willInvokeModel governed item context = true) as Hw by (rewrite governed_invokes, Hreq, Hp; done).
    rewrite (execute_asks _ _ _ Hw) in He. apply bind_Ok in He as (g & _ & He).
    destruct (after_generation_validated governed _ _ _ _ eq_refl He) as [(_ & _ & Hshow)|(_ & _ & Hno)];
      [|by destruct (Hno eq_refl _ Hres)].
    specialize (Hshow eq_refl). rewrite Hres in Hshow. destruct Hshow as (st & rest & _ & -> & -> & -> & _).
    split_and!; [done|done|]. apply js_sort_perm.
Qed.

End Adapter.

(** ** Concrete executions *)

#[local] Existing Instance code_unit_locale.

Module ConditionsSample.
Local Open Scope string_scope.

Definition session : ActorSession :=
  mkSession "session" (mkIdentity "actor" "org" "credential" "0x0000000000000000000000000000000000000001") 1 2.

(** A model that answers every question with the same text *)
Definition context (text : string) : ConditionContext :=
  mkContext (fun _ => Ok (mkModelResult (mkCandidate outcome_answer None text [mkClaim "claim-1" text ["facts"]] [] [] [] claims_last)
                            "model" "provider" None None None)) "purpose" 200 session.

Definition decision : RecordedDecision := mkRecordedDecision outcome_answer "reuse-preferred" [].

(** A case that explains a recorded decision *)
Definition explained : FormalCase :=
  mkFormalCase "formal-002" "stratum" "variant" "fixture" "Which route?" outcome_answer ["facts"] None
    [mkFormalSupport "facts" "record" 1 sup_active "It is 5." (Some decision)] explain_recorded_decision
    FormalSample.grant_ [FormalSample.grant_] (configuration_text ∘ cf_id <$> FORMAL_CONFIGURATIONS) true None.

Definition governed : FormalModelConditionAdapter := newAdapter governed_evllm.

Definition executed (item : FormalCase) (text : string) : option ConditionExecution :=
  match execute governed item (context text) with Ok e => Some e | Throw _ => None end.

Definition supported : option ConditionExecution := Eval vm_compute in executed FormalSample.item "It is 5.".
Definition unsupported : option ConditionExecution := Eval vm_compute in executed FormalSample.item "It is 6.".
Definition rendered : option ConditionExecution := Eval vm_compute in executed explained "It is 5.".

End ConditionsSample.

Lemma validated_or_refused_witness :
  (ex_validation_codes <$> ConditionsSample.supported) = Some [] /\
  (ex_result <$> ConditionsSample.unsupported) = Some refusal /\
  exists e, ConditionsSample.supported = Some e /\
    ((ex_validation_codes e = [] /\
      valid_candidate (mr_candidate (ex_result e)) (projectSupports ConditionsSample.governed FormalSample.item)
        (fc_prompt FormalSample.item)) \/
     (ex_validation_codes e <> [] /\ ex_result e = refusal)).
Proof.
  split; [reflexivity|]. split; [reflexivity|].
  destruct ConditionsSample.supported as [e|] eqn:He; [|discriminate]. exists e. split; [reflexivity|].
  apply (validated_or_refused ConditionsSample.governed FormalSample.item (ConditionsSample.context "It is 5.") e);
    injection He as <-; vm_compute; reflexivity.
Defined.

Lemma invocation_as_predicted_witness :
  willInvokeModel ConditionsSample.governed FormalSample.item (ConditionsSample.context "It is 5.") = true /\
  exists e, ConditionsSample.supported = Some e /\ ex_model_invoked e = true /\
    exists generated, ex_model_invocation e = Some generated.
Proof.
  destruct (invocation_as_predicted ConditionsSample.governed FormalSample.item (ConditionsSample.context "It is 5.")) as [_ H].
  assert (willInvokeModel ConditionsSample.governed FormalSample.item (ConditionsSample.context "It is 5.") = true) as Hw
    by (vm_compute; reflexivity).
  destruct (H Hw) as [_ Hrun]. split; [exact Hw|].
  destruct ConditionsSample.supported as [e|] eqn:He; [|discriminate]. exists e. split; [reflexivity|].
  destruct (Hrun e) as (Hi & g & _ & Hg); [injection He as <-; vm_compute; reflexivity|].
  split; [exact Hi|]. exists g. exact Hg.
Defined.

Lemma governed_reference_executed_witness :
  let c := ConditionsSample.context "It is 5." in
  let r := deriveGovernedFormalReference ConditionsSample.explained in
  willInvokeModel ConditionsSample.governed ConditionsSample.explained c = true /\ gr_decision_code r = Some "reuse-preferred"%string /\
  exists e, ConditionsSample.rendered = Some e /\
    cd_outcome (mr_candidate (ex_result e)) = gr_outcome r /\ cd_decision_code (mr_candidate (ex_result e)) = gr_decision_code r.
Proof.
  intros c r.
  assert (formalCase ConditionsSample.explained = true) as Hf by (vm_compute; reflexivity).
  assert (condition_request c = fc_access_request ConditionsSample.explained) as Hreq by reflexivity.
  destruct (governed_reference_executed ConditionsSample.explained c Hf Hreq) as (_ & _ & H).
  assert (willInvokeModel ConditionsSample.governed ConditionsSample.explained c = true) as Hw by (vm_compute; reflexivity).
  split; [exact Hw|]. split; [vm_compute; reflexivity|].
  destruct ConditionsSample.rendered as [e|] eqn:He; [|discriminate]. exists e. split; [reflexivity|].
  destruct (H Hw eq_refl e) as (H1 & H2 & _); [injection He as <-; vm_compute; reflexivity|].
  split; [exact H1|exact H2].
Defined.
