(* ===== verification/Complementary.v ===== *)
(** * The complementary evaluation: synthesis cases and their scores

    [src/src/evaluation/complementary.ts]: the corpus of synthesis cases with the checks it
    passes before a model is asked, and the two scores of an answer. A case is a record
    whose schema is a boolean. A score is a count or a fraction: the program only compares
    a fraction with 0 and 1. *)

From S2P Require Import Prelude Regex Digits Base64 Schemas Storage Json Hex Signatures Protection Session AuditLedger EcmaRegExp Text SemanticTokens SemanticSupport AssistantTypes AssistantTools AssistantDecisions AssistantProse AssistantValidation Formal.

Local Open Scope Z_scope.

(** ** The corpus *)

Record ComplementarySynthesisRecord := mkSynthesisRecord {
  sr_support_id : string;
  sr_resource_id : string;
  sr_resource_version : Z;
  sr_status : SupportState;
  sr_content : string;
  sr_recorded_decision : option RecordedDecision
}.

Inductive ExpectedDetection := detection_missing | detection_conflict.

#[global] Instance ExpectedDetection_eq_dec : EqDecision ExpectedDetection.
Proof. solve_decision. Defined.

(** [ComplementaryEvaluationCase]; the interface [ComplementarySynthesisCase], with which
    answers are scored, may lack the expected outcome. *)
Record ComplementaryCase := mkComplementaryCase {
  cs_case_id : string;
  cs_stratum : string;
  cs_variant : Z;
  cs_prompt : string;
  cs_expected_conclusion : string;
  cs_expected_detection : option ExpectedDetection;
  cs_expected_outcome : option AssistantOutcome;
  cs_records : list ComplementarySynthesisRecord;
  raw_record_operations : Z;
  sequential_deterministic_operations : Z;
  evllm_operations : Z
}.

Record ComplementaryEvaluationCorpus := mkComplementaryCorpus {
  cc_generated_from_seed : string;
  cc_generator : string;
  cc_case_count : Z;
  cc_strata : list string;
  cc_cases : list ComplementaryCase;
  cc_corpus_sha256 : string
}.

Definition positive_int (n : Z) : bool := (0 <? n) && isSafeInteger n.

Definition complementarySynthesisRecordSchema (r : ComplementarySynthesisRecord) : bool :=
  some_text (sr_support_id r) && some_text (sr_resource_id r) && positive_int (sr_resource_version r) &&
  some_text (sr_content r) && optional recordedDecision (sr_recorded_decision r).

Definition complementaryEvaluationCaseSchema (c : ComplementaryCase) : bool :=
  some_text (cs_case_id c) && some_text (cs_stratum c) && positive_int (cs_variant c) && some_text (cs_prompt c) &&
  some_text (cs_expected_conclusion c) && bool_decide (is_Some (cs_expected_outcome c)) &&
  forallb complementarySynthesisRecordSchema (cs_records c) && negb (bool_decide (cs_records c = [])) &&
  positive_int (raw_record_operations c) && positive_int (sequential_deterministic_operations c) &&
  positive_int (evllm_operations c).

Definition complementaryEvaluationCorpusSchema (c : ComplementaryEvaluationCorpus) : bool :=
  some_text (cc_generated_from_seed c) && some_text (cc_generator c) && positive_int (cc_case_count c) &&
  forallb some_text (cc_strata c) && (1 <=? length (cc_strata c))%nat && forallb complementaryEvaluationCaseSchema (cc_cases c) &&
  (1 <=? length (cc_cases c))%nat && rtest (rx "^0x[0-9a-f]{64}$") (cc_corpus_sha256 c).

(** ** What a case expects *)

Definition detectionReasonCode (expected : option ExpectedDetection) : option string :=
  match expected with
  | Some detection_missing => Some "missing-evidence"%string
  | Some detection_conflict => Some "conflicting-evidence"%string
  | None => None
  end.

Definition expectedSynthesisOutcome (item : ComplementaryCase) : AssistantOutcome :=
  match cs_expected_outcome item with
  | Some outcome => outcome
  | None =>
      match cs_expected_detection item with
      | Some detection_missing => outcome_abstain
      | Some detection_conflict => requires_external_decision
      | None => outcome_answer
      end
  end.

Definition bound_decisions (item : ComplementaryCase) : list (string * RecordedDecision) :=
  omap (fun r => d ← sr_recorded_decision r; Some (sr_support_id r, d)) (cs_records item).

(** The one decision of a case, on its final record, as the case declares it *)
Definition recordedDecisionForCase (item : ComplementaryCase) : result exn (string * RecordedDecision) :=
  bound ← match bound_decisions item with
          | [bound] => Ok bound
          | _ => Throw (Error "A complementary synthesis case must contain one recorded decision")
          end;
  let decision := bound.2 in
  _ ← require (bool_decide (sr_support_id <$> last (cs_records item) = Some bound.1))
        (Error "The recorded decision must be attached to the final deterministic record");
  _ ← require (String.eqb (rd_code decision) (toLowerCase (cs_expected_conclusion item)))
        (Error "The typed decision code conflicts with the declared expected conclusion");
  _ ← require (match cs_expected_outcome item with Some o => bool_decide (rd_outcome decision = o) | None => true end)
        (Error "The typed decision outcome conflicts with the declared expected outcome");
  _ ← require (negb (bool_decide (cs_expected_detection item = Some detection_missing)) ||
               has (rd_reason_codes decision) "missing-evidence")
        (Error "The typed decision lacks the expected missing-evidence reason");
  _ ← require (negb (bool_decide (cs_expected_detection item = Some detection_conflict)) ||
               has (rd_reason_codes decision) "conflicting-evidence")
        (Error "The typed decision lacks the expected conflicting-evidence reason");
  _ ← require (negb (bool_decide (cs_expected_detection item = None)) || bool_decide (rd_reason_codes decision = []))
        (Error "The typed answer decision unexpectedly contains evidence reason codes");
  Ok bound.

Section Supports.
Context `{CanonicalJson, Sha256}.

Definition synthesis_support (asOf : Z) (r : ComplementarySynthesisRecord) : AssistantSupport :=
  let projected (commitment : string) :=
    mkSupport (sr_support_id r) (sr_resource_id r) (sr_resource_version r) (formal_urn "org" 2) (formal_urn "org" 2) asOf
      (sr_status r) commitment (Some ("complementary:" +:+ sr_support_id r)%string) (sr_content r) (sr_recorded_decision r) in
  projected (match sr_recorded_decision r with
             | None => "sha256:" +:+ repeat_char 48 "c"%char
             | Some d => recordedDecisionSupportCommitment (projected "") d
             end)%string.

(** [supportsForSynthesisCase(item)], by default as of 200 *)
Definition supportsForSynthesisCase (item : ComplementaryCase) : list AssistantSupport := synthesis_support 200 <$> cs_records item.
End Supports.

(** ** The checks before a run *)

(** A text quoted for a pattern: each special character after a backslash *)
Definition escape_pattern (s : string) : string :=
  string_of_list_ascii (list_ascii_of_string s ≫= fun c => if char_in ".*+?^${}()|[]\" c then ["\"%char; c] else [c]).

Definition quote_mark : string := String "034"%char EmptyString.

(** [new RegExp(pattern, "iu").test(text)]; a malformed pattern throws. *)
Definition dynamic_test (pattern text : string) : result exn bool :=
  r ← defined (new_RegExp pattern "iu") (Error "Invalid regular expression");
  Ok (re_test r text).

Definition code_pattern (code : string) : string :=
  ("\b(?:exact\s+|recorded\s+)?decision\s+code\s+is\s+['" +:+ quote_mark +:+ "]?" +:+ escape_pattern code +:+
   "(?:['" +:+ quote_mark +:+ "]|\b)")%string.

Definition outcome_pattern (outcome : string) : string :=
  ("\b(?:structured\s+outcome|assessment\s+state)\s+(?:is\s+)?" +:+ escape_pattern outcome +:+ "\b")%string.

Definition RE_STATES_MISSING : regexp :=
  Eval vm_compute in re "\b(?:missing|absent|unavailable|not\s+available|no\s+current)\b" "iu".
Definition RE_STATES_CONFLICT : regexp :=
  Eval vm_compute in re "\b(?:conflict|conflicting|disagree|disagreement|inconsistent)\b" "iu".
Definition RE_SYNTHESIS_BATTERY : regexp := Eval vm_compute in re "\bBattery\s+(SYN-[0-9]{3})\b" "giu".
Definition RE_THREE_ROUTES : regexp := Eval vm_compute in re "\bthree(?:\s+recorded)?\s+routes\b" "iu".
Definition RE_SIX_COMPONENTS : regexp := Eval vm_compute in re "\bsix\s+components\s+separately\b" "iu".

Definition componentDefinitions : list regexp := Eval vm_compute in
  (fun p => re p "iu") <$>
    ["\bG\s+is\s+the\s+technical\s+and\s+safety\s+gate\b"; "\bC\s+is\s+circularity\b";
     "\bI\s+contains\s+the\s+environmental\s+indicators\b"; "\bE\s+is\s+economics\b";
     "\bA\s+is\s+information\s+adequacy\b"; "\bU\s+is\s+uncertainty\b"]%string.

(** The wording each decision code calls for *)
Definition decision_meanings : list (string * regexp) := Eval vm_compute in
  (fun p => (p.1, re p.2 "iu")) <$>
    [("eligible-for-resale", "\b(?:eligible|eligibility)\b.{0,80}\b(?:resale|resell)\b");
     ("insufficient-evidence",
      "(?:\b(?:missing|absent|unavailable|no\s+current)\b.{0,80}\b(?:evidence|inspection|record)\b|\b(?:evidence|inspection|record)\b.{0,80}\b(?:is\s+)?(?:missing|absent|unavailable)\b)");
     ("external-decision-required",
      "\b(?:external|accountable|responsible)\b.{0,80}\b(?:decision|review|verifier|referral)\b");
     ("lifecycle-action-permitted", "\blifecycle\b.{0,80}\b(?:permitted|permits|allowed)\b");
     ("continued-compatible-ev-use-preferred", "\bcontinued\s+compatible\s+EV\s+use\b.{0,80}\bprefer(?:red|ence)?\b");
     ("replica-recovery-permitted", "\b(?:replica|recovery)\b.{0,80}\b(?:is\s+)?(?:permitted|allowed|authorized)\b")]%string.

(** An inherited property is no pattern: it has no [test] to call. *)
Definition recordAffirmsDecisionMeaning (text code : string) : result exn bool :=
  match property decision_meanings code with
  | Own r => Ok (re_test r text)
  | Inherited => Throw TypeError
  | Absent => Ok false
  end.

Definition battery_ids (item : ComplementaryCase) : list string :=
  set_of (cs_records item ≫= fun r =>
    omap (fun m => string_map upper_char <$> group m 1) (re_matchAll RE_SYNTHESIS_BATTERY (sr_content r))).

Definition case_error (item : ComplementaryCase) (what : string) : exn :=
  Error ("Complementary case " +:+ cs_case_id item +:+ " " +:+ what).
Definition route_error (item : ComplementaryCase) (what : string) : exn :=
  Error ("Complementary route case " +:+ cs_case_id item +:+ " " +:+ what).

(** The reasons of the decision against the expected detection *)
Definition detection_consistent (item : ComplementaryCase) (d : RecordedDecision) : bool :=
  let detectionReasons := filter (fun code => has ["missing-evidence"; "conflicting-evidence"] code = true) (rd_reason_codes d) in
  match detectionReasonCode (cs_expected_detection item) with
  | None => (length detectionReasons =? 0)%nat
  | Some code => has detectionReasons code && (length detectionReasons =? 1)%nat
  end.

(** What the final record says of its decision *)
Definition check_final_record (item : ComplementaryCase) (text : string) (d : RecordedDecision) : result exn unit :=
  code ← dynamic_test (code_pattern (rd_code d)) text;
  _ ← require code (case_error item "final record does not affirm its typed decision code");
  outcome ← dynamic_test (outcome_pattern (outcome_text (rd_outcome d))) text;
  _ ← require outcome (case_error item "final record does not state its typed outcome");
  _ ← require (negb (has (rd_reason_codes d) "missing-evidence") || re_test RE_STATES_MISSING text)
        (case_error item "final record does not state its missing evidence");
  _ ← require (negb (has (rd_reason_codes d) "conflicting-evidence") || re_test RE_STATES_CONFLICT text)
        (case_error item "final record does not state its conflicting evidence");
  meaning ← recordAffirmsDecisionMeaning text (rd_code d);
  require meaning (case_error item "final record conflicts with the meaning of its typed decision").

(** What the prompt of a route comparison has to say *)
Definition check_route_prompt (item : ComplementaryCase) : result exn unit :=
  if negb (String.eqb (cs_stratum item) "route-comparison") then Ok tt
  else
    _ ← require (re_test RE_THREE_ROUTES (cs_prompt item)) (route_error item "does not state three routes");
    _ ← require (re_test RE_SIX_COMPONENTS (cs_prompt item)) (route_error item "does not state six components");
    require (forallb (fun r => re_test r (cs_prompt item)) componentDefinitions)
      (route_error item "does not define all six components").

(** The battery a prompt names *)
Definition check_prompt (item : ComplementaryCase) : result exn unit :=
  batteryId ← match battery_ids item with
              | [batteryId] => Ok batteryId
              | _ => Throw (case_error item "does not identify one supported battery")
              end;
  _ ← require (contains ("Battery " +:+ batteryId) (cs_prompt item))
        (case_error item "prompt does not name its supported battery");
  require (negb (contains (toLowerCase (cs_case_id item)) (toLowerCase (cs_prompt item))))
    (case_error item "prompt exposes its evaluation case ID").

Section Preflight.
Context `{CanonicalJson, Sha256}.

Definition validateComplementaryCasePreflight (item : ComplementaryCase) : result exn unit :=
  '(_, decision) ← recordedDecisionForCase item;
  finalRecord ← defined (r ← last (cs_records item); if bool_decide (sr_status r = sup_active) then Some r else None)
                  (case_error item "lacks a final active recorded decision");
  _ ← require (bool_decide (rd_outcome decision = expectedSynthesisOutcome item))
        (case_error item "has inconsistent expected outcome fields");
  _ ← require (detection_consistent item decision)
        (case_error item "expected detection does not match its typed decision reasons");
  _ ← check_final_record item (sr_content finalRecord) decision;
  _ ← require (bool_decide (NoDup (sr_support_id <$> cs_records item))) (case_error item "repeats a support identifier");
  _ ← for_each (fun s => require (assistantSupport s) (Error "Invalid support")) (supportsForSynthesisCase item);
  let records := Z.of_nat (length (cs_records item)) in
  _ ← require ((raw_record_operations item =? records) && (sequential_deterministic_operations item =? records + 1) &&
               (evllm_operations item =? 1))
        (case_error item "has inconsistent operation counts");
  _ ← check_prompt item;
  check_route_prompt item.

(** One case of a corpus, after those with the identifiers [seen] *)
Definition check_corpus_case (strata seen : list string) (item : ComplementaryCase) : result exn (list string) :=
  _ ← require (negb (has seen (cs_case_id item))) (Error ("Duplicate complementary case " +:+ cs_case_id item));
  _ ← require (has strata (cs_stratum item)) (case_error item "has an undeclared stratum");
  _ ← validateComplementaryCasePreflight item;
  Ok (cs_case_id item :: seen).

Definition parseAndValidateComplementaryCorpus (corpus : ComplementaryEvaluationCorpus) :
    result exn ComplementaryEvaluationCorpus :=
  _ ← require (complementaryEvaluationCorpusSchema corpus) (Error "Invalid corpus");
  _ ← require (cc_case_count corpus =? Z.of_nat (length (cc_cases corpus)))
        (Error "Complementary corpus case_count does not match its cases");
  _ ← require (bool_decide (NoDup (cc_strata corpus))) (Error "Complementary corpus strata must be unique");
  _ ← fold_result (check_corpus_case (cc_strata corpus)) [] (cc_cases corpus);
  Ok corpus.

(** [logicalCorpusSha256] is the digest of the stored document without its own digest. *)
Definition parseAndVerifyComplementaryCorpus (corpus : ComplementaryEvaluationCorpus) (logicalCorpusSha256 : string) :
    result exn (ComplementaryEvaluationCorpus * string) :=
  c ← parseAndValidateComplementaryCorpus corpus;
  _ ← require (String.eqb (cc_corpus_sha256 c) logicalCorpusSha256)
        (Error "Complementary corpus logical digest is not reproducible");
  Ok (c, logicalCorpusSha256).
End Preflight.

(** ** Scores *)

(** [asserted_outcome] and the rest of the answer that is scored; the claims have no
    identifiers yet. *)
Record SynthesisObservation := mkSynthesisObservation {
  so_outcome : AssistantOutcome;
  so_decision_code : option string;
  so_summary : string;
  so_warnings : list string;
  so_missing_requirements : list string;
  so_evidence_reason_codes : list string;
  so_validation_passed : option bool;
  so_validation_codes : option (list string);
  so_claims : list ScorableClaim
}.

Record ComplementaryRawGenerationScore := mkRawScore {
  raw_required_record_coverage : rate;
  all_required_records_covered : bool;
  raw_deterministic_record_binding : bool;
  decision_code_accuracy : bool;
  raw_structured_outcome_accuracy : bool;
  required_reason_accuracy : bool;
  raw_candidate_validation_accuracy : bool;
  generation_success : bool;
  raw_claim_count : nat
}.

Record ComplementarySynthesisScore := mkSynthesisScore {
  operation_count : Z;
  synthesis_record_coverage : rate;
  deterministic_record_binding : bool;
  recorded_decision_preservation : bool;
  structured_outcome_accuracy : bool;
  recorded_decision_and_outcome_accuracy : bool;
  synthesis_citation_validity : rate;
  synthesis_unsupported_rate : rate;
  unsupported_claim_count : nat;
  claim_count : nat;
  missing_information_detection : option bool;
  conflicting_information_detection : option bool;
  pipeline_validation_accuracy : bool;
  single_response_supported_synthesis_success : bool
}.

(** [condition], with the two counts of the non-response interfaces; its other fields are
    all null. *)
Inductive ComplementaryAnalyticReferenceCondition := raw_structured_record_access | sequential_deterministic_query.

Record AnalyticReference := mkAnalyticReference {
  an_condition : ComplementaryAnalyticReferenceCondition;
  an_case_id : string;
  an_stratum : string;
  an_operation_count : Z
}.

Definition complementaryAnalyticReference (item : ComplementaryCase) (condition : ComplementaryAnalyticReferenceCondition) :
    AnalyticReference :=
  mkAnalyticReference condition (cs_case_id item) (cs_stratum item)
    (match condition with
     | sequential_deterministic_query => sequential_deterministic_operations item
     | raw_structured_record_access => raw_record_operations item
     end).

Definition isEvidenceReasonCode : string -> bool :=
  has ["missing-evidence"; "conflicting-evidence"; "inactive-evidence"; "access-denied"; "prompt-injection";
       "external-decision-required"]%string.

(** The same codes in any order, each as often *)
Definition sameCodes (left right : list string) : bool :=
  (length left =? length right)%nat && bool_decide (sort_strings left = sort_strings right).

Definition candidateClaims (o : SynthesisObservation) : list Claim :=
  imap (fun i c => mkClaim (claim_number (i + 1)) (sc_text c) (sc_citation_ids c)) (so_claims o).

Definition invalid_reason_code (o : SynthesisObservation) : bool :=
  existsb (fun code => negb (isEvidenceReasonCode code)) (so_evidence_reason_codes o).

(** The answer as a candidate of the assistant, without the unknown reason codes *)
Definition synthesis_candidate (o : SynthesisObservation) : AssistantCandidate :=
  mkCandidate (so_outcome o) (so_decision_code o) (so_summary o) (candidateClaims o)
    (filter (fun code => isEvidenceReasonCode code = true) (so_evidence_reason_codes o)) (so_warnings o)
    (so_missing_requirements o) reasons_before_claims.

(** [part / whole], or a constant when there is nothing to count *)
Definition rate_or (otherwise : nat) (part whole : nat) : rate :=
  if (whole =? 0)%nat then mkRate otherwise 1 else mkRate part whole.
Definition rate_is_one (r : rate) : bool := (rt_part r =? rt_whole r)%nat.
Definition rate_is_zero (r : rate) : bool := (rt_part r =? 0)%nat.

(** The records a claim covers, if the supports bear it out *)
Definition cover_claim (supports : list AssistantSupport) (state : list string * nat) (claim : Claim) :
    result exn (list string * nat) :=
  codes ← validateAssistantClaim claim supports;
  let '(covered, unsupported) := state in
  Ok (if bool_decide (codes = [])
      then (set_of (covered ++ filter (fun id => has (support_id <$> supports) id = true) (citation_ids claim)), unsupported)
      else (covered, S unsupported)).

(** The records covered by supported claims, and how many claims are not supported *)
Definition cover_claims (supports : list AssistantSupport) (cls : list Claim) : result exn (list string * nat) :=
  fold_result (cover_claim supports) ([], 0%nat) cls.

Definition required_supports (supports : list AssistantSupport) : list string := set_of (support_id <$> supports).

Definition supportedRecordCoverage (cls : list Claim) (supports : list AssistantSupport) : result exn rate :=
  covered ← cover_claims supports cls;
  Ok (rate_or 1 (length covered.1) (length (required_supports supports))).

(** [new Map(supports.map((support) => [support.support_id, support]))]: the last one wins. *)
Definition support_by_id (supports : list AssistantSupport) : list (string * AssistantSupport) :=
  fold_left (fun m s => map_set (support_id s) s m) supports [].

Definition cites_active (supports : list AssistantSupport) (citationId : string) : bool :=
  match map_get citationId (support_by_id supports) with Some s => is_active s | None => false end.

Definition count_citations (cls : list Claim) : nat := sum_list_with (fun c => length (set_of (citation_ids c))) cls.
Definition count_valid_citations (supports : list AssistantSupport) (cls : list Claim) : nat :=
  sum_list_with (fun c => length (filter (fun id => cites_active supports id = true) (set_of (citation_ids c)))) cls.

Section Score.
Context `{CanonicalJson, Sha256}.

Definition validateComplementaryRawGeneration (o : SynthesisObservation) (item : ComplementaryCase) : result exn (list string) :=
  codes ← validateAssistantExplanationCandidate (synthesis_candidate o) (supportsForSynthesisCase item);
  Ok (unique_codes (codes ++ if invalid_reason_code o then ["unknown-evidence-reason-code"] else [])).

Definition scoreComplementaryRawGeneration (o : SynthesisObservation) (item : ComplementaryCase) :
    result exn ComplementaryRawGenerationScore :=
  '(_, decision) ← recordedDecisionForCase item;
  coverage ← supportedRecordCoverage (candidateClaims o) (supportsForSynthesisCase item);
  let decisionCodeCorrect := bool_decide (so_decision_code o = Some (rd_code decision)) in
  let outcomeCorrect := bool_decide (so_outcome o = rd_outcome decision) in
  let reasonCorrect := sameCodes (so_evidence_reason_codes o) (rd_reason_codes decision) in
  let decisionBinding := decisionCodeCorrect && outcomeCorrect && reasonCorrect in
  codes ← validateComplementaryRawGeneration o item;
  let validationPassed := bool_decide (codes = []) in
  Ok (mkRawScore coverage (rate_is_one coverage) decisionBinding decisionCodeCorrect outcomeCorrect reasonCorrect
        validationPassed (rate_is_one coverage && decisionBinding && validationPassed) (length (so_claims o))).

Definition scoreComplementarySynthesis (o : SynthesisObservation) (item : ComplementaryCase) :
    result exn ComplementarySynthesisScore :=
  '(_, decision) ← recordedDecisionForCase item;
  let supports := supportsForSynthesisCase item in
  let cls := candidateClaims o in
  '(covered, unsupportedClaims) ← cover_claims supports cls;
  let coverage := rate_or 1 (length covered) (length (required_supports supports)) in
  let citationValidity := rate_or 0 (count_valid_citations supports cls) (count_citations cls) in
  let unsupported := rate_or 0 unsupportedClaims (length cls) in
  let conclusion := bool_decide (so_decision_code o = Some (rd_code decision)) in
  let outcomeCorrect := bool_decide (so_outcome o = rd_outcome decision) in
  let reasonCorrect := sameCodes (so_evidence_reason_codes o) (rd_reason_codes decision) in
  let detection := has (so_evidence_reason_codes o) <$> detectionReasonCode (cs_expected_detection item) in
  let recordedValidationPassed :=
    bool_decide (so_validation_passed o = Some true) && bool_decide (so_validation_codes o = Some []) in
  rescoredValidationPassed ←
    and_then (Ok (negb (invalid_reason_code o)))
      (codes ← validateAssistantCandidate (synthesis_candidate o) supports (cs_prompt item); Ok (bool_decide (codes = [])));
  let pipelineValidationPassed := recordedValidationPassed && rescoredValidationPassed in
  let decisionCorrect := conclusion && outcomeCorrect in
  Ok (mkSynthesisScore (evllm_operations item) coverage (conclusion && outcomeCorrect && reasonCorrect) conclusion
        outcomeCorrect decisionCorrect citationValidity unsupported unsupportedClaims (length cls)
        (if bool_decide (cs_expected_detection item = Some detection_missing) then detection else None)
        (if bool_decide (cs_expected_detection item = Some detection_conflict) then detection else None)
        pipelineValidationPassed
        ((evllm_operations item =? 1) && rate_is_one coverage && rate_is_one citationValidity && rate_is_zero unsupported &&
         decisionCorrect && match detection with Some b => b | None => true end && pipelineValidationPassed)).
End Score.
