(* ===== verification/ComplementaryProperties.v ===== *)
(** * The complementary evaluation: facts

    What the checks of a corpus guarantee: the governed assistant releases an answer that is
    bound to the recorded decision of its case; and what a successful synthesis is. *)

From S2P Require Import Prelude Regex Digits Base64 Schemas Storage Json Hex Signatures Protection Session AuditLedger EcmaRegExp Text SemanticTokens SemanticSupport AssistantTypes AssistantTools AssistantDecisions AssistantProse AssistantValidation AssistantRelease Formal Complementary.

Local Open Scope Z_scope.

(** ** The recorded decision of a case *)

Lemma omap_singleton {A B} (f : A -> option B) l y :
  omap f l = [y] -> exists l1 x l2, l = l1 ++ x :: l2 /\ f x = Some y /\ Forall (fun z => f z = None) (l1 ++ l2).
Proof.
  induction l as [|a l IH]; csimpl; [done|]. destruct (f a) as [b|] eqn:Ha.
  - intros [= -> Hl]. exists [], a, l. split_and!; [done|done|]. apply Forall_forall. intros z Hz.
    destruct (f z) as [c|] eqn:Hc; [|done]. exfalso. apply (not_elem_of_nil c). rewrite <- Hl. apply list_elem_of_omap. eauto.
  - intros (l1 & x & l2 & -> & Hx & Hall)%IH. exists (a :: l1), x, l2. split_and!; [done|done|by constructor].
Qed.

(** The record of the decision is the only one with a decision. *)
Record decided (item : ComplementaryCase) (id : string) (d : RecordedDecision) : Prop := {
  de_record : exists r, r ∈ cs_records item /\ sr_support_id r = id /\ sr_recorded_decision r = Some d;
  de_only r d' : r ∈ cs_records item -> sr_recorded_decision r = Some d' -> d' = d /\ sr_support_id r = id;
  de_last : sr_support_id <$> last (cs_records item) = Some id;
  de_code : rd_code d = toLowerCase (cs_expected_conclusion item);
  de_reasons : match detectionReasonCode (cs_expected_detection item) with
               | Some code => code ∈ rd_reason_codes d
               | None => rd_reason_codes d = []
               end
}.

Lemma recorded_decided item id d : recordedDecisionForCase item = Ok (id, d) -> decided item id d.
Proof.
  unfold recordedDecisionForCase. intros (bound & Hb & H)%bind_Ok.
  destruct (bound_decisions item) as [|b [|]] eqn:Hbound; try done. injection Hb as ->.
  apply bind_Ok in H as (? & Hlast%require_Ok & H). apply bind_Ok in H as (? & Hcode%require_Ok & H).
  apply bind_Ok in H as (? & _ & H). apply bind_Ok in H as (? & Hm%require_Ok & H).
  apply bind_Ok in H as (? & Hc%require_Ok & H). apply bind_Ok in H as (? & Hn%require_Ok & H). injection H as ->. simpl in *.
  apply bool_decide_eq_true in Hlast. apply String.eqb_eq in Hcode.
  unfold bound_decisions in Hbound. pose proof Hbound as (l1 & r & l2 & Heq & Hr & Hall)%omap_singleton.
  apply bind_Some in Hr as (d0 & Hd & [= Hid <-]).
  constructor; [|intros r' d' Hin Hd'|done|done|].
  - exists r. split_and!; [rewrite Heq; apply elem_of_app; right; constructor|done|done].
  - assert ((sr_support_id r', d') ∈ [(id, d0)]) as [= -> ->]%list_elem_of_singleton.
    { rewrite <- Hbound. apply list_elem_of_omap. exists r'. by rewrite Hd'. }
    done.
  - destruct (cs_expected_detection item) as [[]|]; simpl in *.
    + by apply has_true.
    + by apply has_true.
    + by apply bool_decide_eq_true in Hn.
Qed.

Section Facts.
Context `{CanonicalJson, Sha256}.

(** What the governed assistant reads off the supports of a case that passed the checks *)
Lemma preflight_resolution item :
  validateComplementaryCasePreflight item = Ok tt ->
  exists id d, recordedDecisionForCase item = Ok (id, d) /\
    resolveActiveRecordedDecision (supportsForSynthesisCase item) = consistent (normalizeRecordedDecision d).
Proof.
  unfold validateComplementaryCasePreflight. intros ([id d] & Hd & Hx)%bind_Ok. exists id, d. split; [done|].
  apply bind_Ok in Hx as (r & Hr%defined_Ok & Hx). apply bind_Some in Hr as (r' & Hlast & Hr).
  destruct (bool_decide (sr_status r' = sup_active)) eqn:Ha; [|done]. apply bool_decide_eq_true in Ha. injection Hr as ->.
  apply bind_Ok in Hx as (? & _ & Hx). apply bind_Ok in Hx as (? & _ & Hx). apply bind_Ok in Hx as (? & _ & Hx).
  apply bind_Ok in Hx as (? & Hnd%require_Ok%bool_decide_eq_true & _).
  destruct (recorded_decided _ _ _ Hd) as [(s & Hs & Hid & Hsd) Honly Hl _ _].
  rewrite Hlast in Hl. injection Hl as Hl. apply last_Some in Hlast as [l' Heq].
  assert (s = r) as ->.
  { assert (r ∈ cs_records item) as Hr by (rewrite Heq; apply elem_of_app; right; constructor).
    apply list_elem_of_lookup in Hs as [i Hi]. apply list_elem_of_lookup in Hr as [j Hj].
    assert (i = j) as ->.
    { eapply NoDup_lookup; [exact Hnd| |]; rewrite list_lookup_fmap; [by rewrite Hi; simpl; rewrite Hid|].
      by rewrite Hj; simpl; rewrite Hl. }
    rewrite Hi in Hj. by injection Hj. }
  apply resolve_consistent. split.
  - exists (synthesis_support 200 r). split; [by apply list_elem_of_fmap_2|]. exists d.
    unfold active_decision, is_active. simpl. by rewrite bool_decide_true.
  - intros y d' (r0 & -> & Hr')%list_elem_of_fmap Had. unfold active_decision in Had. destruct (is_active _); [|done]. simpl in Had.
    by apply (Honly _ _ Hr') in Had as [-> _].
Qed.

Lemma corpus_case corpus corpus' item :
  parseAndValidateComplementaryCorpus corpus = Ok corpus' -> item ∈ cc_cases corpus ->
  validateComplementaryCasePreflight item = Ok tt /\ complementaryEvaluationCaseSchema item = true.
Proof.
  unfold parseAndValidateComplementaryCorpus. intros (? & Hs%require_Ok & Hx)%bind_Ok Hin.
  apply bind_Ok in Hx as (? & _ & Hx). apply bind_Ok in Hx as (? & _ & Hx). apply bind_Ok in Hx as (seen & Hf & _). split.
  - revert Hin. refine (fold_result_inv (check_corpus_case (cc_strata corpus))
      (fun done_ _ => item ∈ done_ -> validateComplementaryCasePreflight item = Ok tt) _ _ _ _ _ Hf).
    + intros Hin. by apply not_elem_of_nil in Hin.
    + intros done_ s0 y s' IH Hc [Hin| ->%list_elem_of_singleton]%elem_of_app; [by apply IH|].
      unfold check_corpus_case in Hc. apply bind_Ok in Hc as (? & _ & Hc). apply bind_Ok in Hc as (? & _ & Hc).
      by apply bind_Ok in Hc as ([] & Hp & _).
  - unfold complementaryEvaluationCorpusSchema in Hs. rewrite !andb_true_iff in Hs. destruct Hs as [[[_ Hs] _] _].
    rewrite forallb_forall in Hs. by apply Hs, list_elem_of_In.
Qed.

Lemma sorted_reasons l : NoDup l -> sameCodes (sort_strings (set_of l)) l = true.
Proof.
  intros Hnd. rewrite set_of_id by done. pose proof (js_sort_perm string_cmp l) as Hp.
  unfold sameCodes. rewrite andb_true_iff, Nat.eqb_eq, bool_decide_eq_true.
  split; [by apply Permutation_length|]. by apply sort_strings_unique.
Qed.

(** The answer that is scored has the outcome, the decision code and the reasons of a
    candidate. *)
Definition answers_as (o : SynthesisObservation) (c : AssistantCandidate) : Prop :=
  so_outcome o = cd_outcome c /\ so_decision_code o = cd_decision_code c /\ so_evidence_reason_codes o = evidence_reason_codes c.

(** C18. In every case of a corpus that passes the checks, the governed assistant preserves the
    recorded decision whatever the model said: the supports it is shown record exactly the
    decision of the case, and an answer it releases on them scores the deterministic binding
    of outcome, decision code and reasons, and the detection of missing or conflicting
    information where the case has some to detect. *)
Theorem governed_synthesis_binds `{HL : LocaleCompare} corpus corpus' item candidate r o s :
  parseAndValidateComplementaryCorpus corpus = Ok corpus' -> item ∈ cc_cases corpus ->
  releaseAssistantCandidateWithRecordedDecision candidate (supportsForSynthesisCase item) (cs_prompt item) true = Ok r ->
  answers_as o (rl_candidate r) -> scoreComplementarySynthesis o item = Ok s ->
  rl_validation_codes r = [] /\ deterministic_record_binding s = true /\ recorded_decision_and_outcome_accuracy s = true /\
  (missing_information_detection s = if bool_decide (cs_expected_detection item = Some detection_missing) then Some true else None) /\
  (conflicting_information_detection s =
     if bool_decide (cs_expected_detection item = Some detection_conflict) then Some true else None).
Proof.
  intros Hc Hin Hr (Ho & Hcode & Hreasons) Hs. destruct (corpus_case _ _ _ Hc Hin) as [Hpre Hschema].
  destruct (preflight_resolution _ Hpre) as (id & d & Hd & Hres).
  pose proof (release_consistent _ _ _ _ _ Hr Hres) as Hcodes. split; [done|].
  apply release_spec in Hr as [Hres' Hshow]. destruct (Hshow Hcodes) as [_ Hrender]. rewrite Hres', Hres in Hrender.
  destruct Hrender as (st & rest & _ & Heo & Hec & Her & _). simpl in *.
  destruct (recorded_decided _ _ _ Hd) as [(rec & Hrec & _ & Hrd) _ _ _ Hreason].
  assert (NoDup (rd_reason_codes d)) as Hnd.
  { unfold complementaryEvaluationCaseSchema in Hschema. rewrite !andb_true_iff in Hschema.
    destruct Hschema as [[[[[_ Hrs] _] _] _] _]. rewrite forallb_forall in Hrs. apply list_elem_of_In, Hrs in Hrec.
    unfold complementarySynthesisRecordSchema in Hrec. rewrite Hrd in Hrec. apply andb_true_iff in Hrec as [_ Hrec]. simpl in Hrec.
    unfold recordedDecision in Hrec. rewrite !andb_true_iff in Hrec. by destruct Hrec as [[_ Hn%bool_decide_eq_true] _]. }
  unfold scoreComplementarySynthesis in Hs. rewrite Hd in Hs. simpl in Hs.
  apply bind_Ok in Hs as ([covered n] & _ & Hs). apply bind_Ok in Hs as (v & _ & [= <-]). simpl.
  rewrite Ho, Hcode, Hreasons, Heo, Hec, Her. rewrite !bool_decide_true by done. simpl.
  split_and!; [by apply sorted_reasons|done| |];
    destruct (cs_expected_detection item) as [[]|]; simpl in *; try done; f_equal; apply has_true;
    unfold sort_strings; rewrite js_sort_elem_of; by apply elem_of_set_of.
Qed.

(** ** The score of a synthesis *)

Definition supported (supports : list AssistantSupport) (c : Claim) : Prop := validateAssistantClaim c supports = Ok [].

Lemma rate_or_proper k n m : (k <= 1)%nat -> (n <= m)%nat ->
  (rt_part (rate_or k n m) <= rt_whole (rate_or k n m))%nat /\ (0 < rt_whole (rate_or k n m))%nat.
Proof. unfold rate_or. destruct (Nat.eqb_spec m 0); simpl; lia. Qed.

(** What is kept while the claims are gone through *)
Record covering (supports : list AssistantSupport) (l : list Claim) (state : list string * nat) : Prop := {
  cg_distinct : NoDup state.1;
  cg_covered x : x ∈ state.1 <-> x ∈ support_id <$> supports /\ exists c, c ∈ l /\ supported supports c /\ x ∈ citation_ids c;
  cg_count : (state.2 <= length l)%nat;
  cg_all : state.2 = 0%nat <-> Forall (supported supports) l
}.

Lemma covering_snoc supports l state c state' :
  covering supports l state -> cover_claim supports state c = Ok state' -> covering supports (l ++ [c]) state'.
Proof.
  destruct state as [covered n]. intros [Hnd Hcov Hn Hall] (codes & Hc & [= <-])%bind_Ok. simpl in *.
  assert (forall (P : Claim -> Prop), (exists c', c' ∈ l ++ [c] /\ P c') <-> (exists c', c' ∈ l /\ P c') \/ P c) as Hex.
  { intros P. setoid_rewrite elem_of_app. setoid_rewrite list_elem_of_singleton. naive_solver. }
  destruct (decide (codes = [])) as [->|Hne].
  - rewrite bool_decide_true by done. constructor; cbn [fst snd].
    + apply set_of_NoDup.
    + intros x. rewrite Hex, elem_of_set_of, elem_of_app, list_elem_of_filter, has_true, Hcov. unfold supported at 3. naive_solver.
    + rewrite length_app. simpl. lia.
    + rewrite Hall, Forall_app, Forall_singleton. naive_solver.
  - rewrite bool_decide_false by done. assert (~ supported supports c) as Hno by (unfold supported; rewrite Hc; congruence).
    constructor; cbn [fst snd].
    + done.
    + intros x. rewrite Hex, Hcov. naive_solver.
    + rewrite length_app. simpl. lia.
    + rewrite Forall_app, Forall_singleton. split; [done|tauto].
Qed.

Lemma cover_claims_covering supports cls state : cover_claims supports cls = Ok state -> covering supports cls state.
Proof.
  apply fold_result_inv; [|by intros; eapply covering_snoc].
  constructor; simpl; [constructor| |lia|by split]. intros x. split; [intros Hx; by apply not_elem_of_nil in Hx|].
  intros (_ & c & Hc & _). by apply not_elem_of_nil in Hc.
Qed.

(** All records are covered when their number is reached. *)
Lemma covering_full supports cls state :
  covering supports cls state ->
  (length state.1 <= length (required_supports supports))%nat /\
  (length state.1 = length (required_supports supports) <->
   forall x, x ∈ support_id <$> supports -> exists c, c ∈ cls /\ supported supports c /\ x ∈ citation_ids c).
Proof.
  intros [Hnd Hcov _ _]. unfold required_supports.
  assert (state.1 ⊆+ set_of (support_id <$> supports)) as Hsub
    by (apply NoDup_submseteq; [done|]; intros x Hx%Hcov; apply elem_of_set_of, Hx).
  split; [by apply submseteq_length|]. split.
  - intros Hlen x Hx%elem_of_set_of. apply submseteq_length_Permutation in Hsub; [|lia]. rewrite <- Hsub in Hx. by apply Hcov.
  - intros Hall. apply Permutation_length, NoDup_Permutation; [done|apply set_of_NoDup|].
    intros x. rewrite Hcov, elem_of_set_of. split; [by intros [? _]|]. intros Hx. split; [done|]. by apply Hall.
Qed.

Lemma filter_length_full {A} (p : A -> bool) (l : list A) :
  length (filter (fun x => p x = true) l) = length l <-> forall x, x ∈ l -> p x = true.
Proof.
  rewrite <- Forall_forall. split; [|intros Hall; by rewrite filter_all]. intros Hlen. apply Forall_forall. intros x Hx.
  rewrite <- (submseteq_length_Permutation (filter (fun x => p x = true) l) l) in Hx;
    [|apply sublist_submseteq, sublist_filter|lia].
  by apply list_elem_of_filter in Hx as [? _].
Qed.

Lemma count_valid_le supports cls :
  (count_valid_citations supports cls <= count_citations cls)%nat /\
  (count_valid_citations supports cls = count_citations cls <->
   forall c id, c ∈ cls -> id ∈ citation_ids c -> cites_active supports id = true).
Proof.
  unfold count_valid_citations, count_citations. induction cls as [|c cls [IHle IH]]; simpl; [split; [lia|]|].
  { split; [|done]. intros _ c id Hc. by apply not_elem_of_nil in Hc. }
  pose proof (length_filter (fun id => cites_active supports id = true) (set_of (citation_ids c))) as Hle. split; [lia|].
  pose proof (filter_length_full (cites_active supports) (set_of (citation_ids c))) as Hf. setoid_rewrite elem_of_set_of in Hf.
  setoid_rewrite elem_of_cons. split.
  - intros Heq. assert (Hc : length (filter (fun id => cites_active supports id = true) (set_of (citation_ids c))) =
      length (set_of (citation_ids c))) by lia. intros c' id [->|Hin]; [by apply Hf|]. apply IH; [lia|done].
  - intros Hall. rewrite (proj2 Hf) by naive_solver. f_equal. apply IH. naive_solver.
Qed.

(** What makes a synthesis a success. *)
Record synthesized (item : ComplementaryCase) (o : SynthesisObservation) : Prop := {
  sy_operations : evllm_operations item = 1;
  sy_decision : exists id d, recordedDecisionForCase item = Ok (id, d) /\
                  so_outcome o = rd_outcome d /\ so_decision_code o = Some (rd_code d);
  sy_claims : Forall (supported (supportsForSynthesisCase item)) (candidateClaims o);
  sy_records r : r ∈ cs_records item -> exists c, c ∈ candidateClaims o /\ sr_support_id r ∈ citation_ids c;
  sy_citations c id : c ∈ candidateClaims o -> id ∈ citation_ids c -> cites_active (supportsForSynthesisCase item) id = true;
  sy_detection : match detectionReasonCode (cs_expected_detection item) with
                 | Some code => code ∈ so_evidence_reason_codes o
                 | None => True
                 end;
  sy_recorded : so_validation_passed o = Some true /\ so_validation_codes o = Some [];
  sy_codes : Forall (fun code => isEvidenceReasonCode code = true) (so_evidence_reason_codes o);
  sy_validation : validateAssistantCandidate (synthesis_candidate o) (supportsForSynthesisCase item) (cs_prompt item) = Ok []
}.

Lemma invalid_reason_false o :
  invalid_reason_code o = false <-> Forall (fun code => isEvidenceReasonCode code = true) (so_evidence_reason_codes o).
Proof.
  unfold invalid_reason_code. rewrite existsb_false, !Forall_forall. setoid_rewrite negb_false_iff. done.
Qed.

Lemma support_ids_of_case item : support_id <$> supportsForSynthesisCase item = sr_support_id <$> cs_records item.
Proof. unfold supportsForSynthesisCase. by rewrite <- list_fmap_compose. Qed.

Lemma detection_true (d : option string) codes :
  match has codes <$> d with Some b => b | None => true end = true <-> match d with Some code => code ∈ codes | None => True end.
Proof. destruct d; simpl; [apply has_true|done]. Qed.

Lemma rate_or_one k n m : rate_is_one (rate_or k n m) = true <-> if decide (m = 0%nat) then k = 1%nat else n = m.
Proof. unfold rate_or, rate_is_one. destruct (Nat.eqb_spec m 0); case_decide; simpl; try done; apply Nat.eqb_eq. Qed.

Lemma rate_or_zero n m : (n <= m)%nat -> rate_is_zero (rate_or 0 n m) = true <-> n = 0%nat.
Proof.
  intros Hle. unfold rate_or, rate_is_zero. destruct (Nat.eqb_spec m 0); simpl; [|apply Nat.eqb_eq]. split; [lia|done].
Qed.

Lemma cited_counted cls c id : c ∈ cls -> id ∈ citation_ids c -> count_citations cls <> 0%nat.
Proof.
  intros Hc Hid%elem_of_set_of. unfold count_citations. induction cls as [|c' cls IH]; [by apply not_elem_of_nil in Hc|].
  simpl. apply elem_of_cons in Hc as [->|Hc]; [|specialize (IH Hc); lia].
  destruct (set_of (citation_ids c')); [by apply not_elem_of_nil in Hid|simpl; lia].
Qed.

(** The validation when the answer is scored *)
Lemma rescored_true o supports question v :
  and_then (Ok (negb (invalid_reason_code o)))
    (codes ← validateAssistantCandidate (synthesis_candidate o) supports question; Ok (bool_decide (codes = []))) = Ok v ->
  v = true <-> Forall (fun code => isEvidenceReasonCode code = true) (so_evidence_reason_codes o) /\
               validateAssistantCandidate (synthesis_candidate o) supports question = Ok [].
Proof.
  intros Hv. rewrite <- invalid_reason_false. split.
  - intros ->. destruct (invalid_reason_code o); [done|]. simpl in Hv. split; [done|].
    apply bind_Ok in Hv as (codes & Hc & [= Hb%bool_decide_eq_true]). by rewrite Hc, Hb.
  - intros [Hi Hc]. rewrite Hi, Hc in Hv. simpl in Hv. by injection Hv as <-.
Qed.

(** What the three rates say of the claims *)
Lemma rates_perfect item o covered n :
  cover_claims (supportsForSynthesisCase item) (candidateClaims o) = Ok (covered, n) -> cs_records item <> [] ->
  rate_is_one (rate_or 1 (length covered) (length (required_supports (supportsForSynthesisCase item)))) = true /\
  rate_is_one (rate_or 0 (count_valid_citations (supportsForSynthesisCase item) (candidateClaims o))
                 (count_citations (candidateClaims o))) = true /\
  rate_is_zero (rate_or 0 n (length (candidateClaims o))) = true <->
  Forall (supported (supportsForSynthesisCase item)) (candidateClaims o) /\
  (forall r, r ∈ cs_records item -> exists c, c ∈ candidateClaims o /\ sr_support_id r ∈ citation_ids c) /\
  (forall c id, c ∈ candidateClaims o -> id ∈ citation_ids c -> cites_active (supportsForSynthesisCase item) id = true).
Proof.
  intros Hcov%cover_claims_covering Hne. destruct (covering_full _ _ _ Hcov) as [_ Hfull].
  destruct (count_valid_le (supportsForSynthesisCase item) (candidateClaims o)) as [_ Hvalid].
  pose proof (cg_all _ _ _ Hcov) as Hall. pose proof (cg_count _ _ _ Hcov) as Hn. simpl in *.
  rewrite rate_or_zero, Hall, !rate_or_one by done.
  destruct (cs_records item) as [|r0 rs] eqn:Hrs; [done|].
  assert (Hr0 : forall r, r ∈ r0 :: rs -> sr_support_id r ∈ support_id <$> supportsForSynthesisCase item).
  { intros r Hr. rewrite support_ids_of_case, Hrs. by apply list_elem_of_fmap_2. }
  rewrite decide_False.
  2: { intros Hz%nil_length_inv. apply (not_elem_of_nil (sr_support_id r0)). rewrite <- Hz. apply elem_of_set_of, Hr0. constructor. }
  rewrite Hfull. split.
  - intros (Hc & Hv & Hcl). split_and!; [done| |].
    + intros r Hr. destruct (Hc _ (Hr0 r Hr)) as (c & ? & _ & ?). by exists c.
    + case_decide; [done|]. by apply Hvalid.
  - intros (Hcl & Hc & Hv). split_and!; [| |done].
    + intros x Hx. rewrite support_ids_of_case, Hrs in Hx. apply list_elem_of_fmap in Hx as (r & -> & Hr).
      destruct (Hc r Hr) as (c & Hin & ?). exists c. split_and!; try done. rewrite Forall_forall in Hcl. by apply Hcl.
    + destruct (Hc r0) as (c & Hin & Hid); [constructor|]. rewrite decide_False by by eapply cited_counted. by apply Hvalid.
Qed.

(** The rates of a scored synthesis are proper fractions, and the synthesis counts as a
    success exactly when it is one: the recorded outcome and decision code, every claim
    supported by the records it cites, every record of the case cited, no citation of
    anything else, the detection the case expects, and an answer that was validated when it
    was given and is valid again when it is scored. *)
Theorem synthesis_score_correct item o s :
  scoreComplementarySynthesis o item = Ok s ->
  (forall r, r ∈ [synthesis_record_coverage s; synthesis_citation_validity s; synthesis_unsupported_rate s] ->
     (rt_part r <= rt_whole r)%nat /\ (0 < rt_whole r)%nat) /\
  (single_response_supported_synthesis_success s = true <-> synthesized item o).
Proof.
  unfold scoreComplementarySynthesis. intros ([id d] & Hd & Hs)%bind_Ok.
  apply bind_Ok in Hs as ([covered n] & Hcov & Hs). apply bind_Ok in Hs as (v & Hv%rescored_true & [= <-]). split.
  - apply cover_claims_covering in Hcov. destruct (covering_full _ _ _ Hcov) as [Hle _].
    destruct (count_valid_le (supportsForSynthesisCase item) (candidateClaims o)) as [Hvle _].
    pose proof (cg_count _ _ _ Hcov) as Hn. simpl in *.
    intros r Hr. rewrite !elem_of_cons in Hr. destruct Hr as [->|[->|[->|Hr]]]; [..|by apply not_elem_of_nil in Hr];
      apply rate_or_proper; lia.
  - destruct (recorded_decided _ _ _ Hd) as [(r0 & Hr0 & _ & _) _ _ _ _].
    assert (cs_records item <> []) as Hne by (intros Hz; rewrite Hz in Hr0; by apply not_elem_of_nil in Hr0).
    pose proof (rates_perfect _ _ _ _ Hcov Hne) as Hrates.
    simpl. rewrite !andb_true_iff, detection_true, Hv, !bool_decide_eq_true, Z.eqb_eq. split.
    + intros ((((((Hop & Hc) & Hci) & Hz) & (Hcode & Ho)) & Hdet) & (Hrecd & Hi & Hvd)).
      destruct (proj1 Hrates) as (Hcl & Hrecs & Hcites); [done|]. constructor; try done. by exists id, d.
    + intros [Hop (id' & d' & Hd' & Ho & Hcode) Hcl Hrecs Hcites Hdet Hrecd Hi Hvd]. rewrite Hd in Hd'. injection Hd' as <- <-.
      destruct (proj2 Hrates) as (Hc & Hci & Hz); done.
Qed.
End Facts.

(** ** A case of the stored corpus *)

Module SynthesisSample.
Local Open Scope string_scope.
#[local] Existing Instance code_unit_locale.

(** The case synthesis-106 of [evaluation/complementary/synthesis-corpus-v2.json] *)
Definition item : ComplementaryCase := mkComplementaryCase "synthesis-106" "missing-evidence" 1
  "Using all permitted records, explain the source facts underlying the separately displayed recorded decision for Battery SYN-106. Use the structured outcome, decision code, and reason fields for the recorded tuple, and keep the prose to source-linked factual explanation. Place source IDs in the structured claim citations, cite every material fact, and identify missing or conflicting information when present."
  "insufficient-evidence" (Some detection_missing) (Some outcome_abstain)
  [mkSynthesisRecord "synthesis-106-record-1" "urn:evllm:evidence:00000000-0000-4000-8004-000000001060" 1 sup_active
      "Battery SYN-106 has recorded owner Organization Seller-106." None;
    mkSynthesisRecord "synthesis-106-record-2" "urn:evllm:evidence:00000000-0000-4000-8004-000000001061" 1 sup_active
      "Battery SYN-106 has active verifier status and state of health 77 percent." None;
    mkSynthesisRecord "synthesis-106-record-3" "urn:evllm:evidence:00000000-0000-4000-8004-000000001062" 1 sup_active
      "Battery SYN-106 has no current transport inspection record." None;
    mkSynthesisRecord "synthesis-106-record-4" "urn:evllm:evidence:00000000-0000-4000-8004-000000001063" 1 sup_active
      "For Battery SYN-106, because the current transport inspection is missing and the active resale rule requires it, the deterministic service records structured outcome abstain and exact decision code is 'insufficient-evidence'." (Some (mkRecordedDecision outcome_abstain "insufficient-evidence" ["missing-evidence"]))]
  4 5 1.

Definition corpus : ComplementaryEvaluationCorpus :=
  mkComplementaryCorpus "evllm-complementary-synthesis-v2-2026-08-27" "scripts/generate-complementary-evaluation.ts" 1
    ["missing-evidence"] [item] ("0x" +:+ repeat_char 64 "a"%char).

(** A model that reports another decision and explains nothing *)
Definition model_candidate : AssistantCandidate :=
  mkCandidate outcome_answer (Some "eligible-for-resale") "The records are explained." [] [] [] [] claims_last.

Definition release (i : ComplementaryCase) : option Release :=
  match releaseAssistantCandidateWithRecordedDecision model_candidate (supportsForSynthesisCase i) (cs_prompt i) true with
  | Ok r => Some r | Throw _ => None end.

Definition observation_of (c : AssistantCandidate) : SynthesisObservation :=
  mkSynthesisObservation (cd_outcome c) (cd_decision_code c) (summary c) (warnings c) (missing_requirements c)
    (evidence_reason_codes c) (Some true) (Some []) ((fun cl => mkScorableClaim (claim_text cl) (citation_ids cl)) <$> claims c).

Definition score (o : SynthesisObservation) (i : ComplementaryCase) : option ComplementarySynthesisScore :=
  match scoreComplementarySynthesis o i with Ok s => Some s | Throw _ => None end.

Definition released : option Release := Eval vm_compute in release item.
Definition scored : option ComplementarySynthesisScore := Eval vm_compute in
  r ← released; score (observation_of (rl_candidate r)) item.

(** The same case with its last record alone: the rendering of the decision covers it. *)
Definition alone : ComplementaryCase :=
  mkComplementaryCase "synthesis-106" "missing-evidence" 1 (cs_prompt item) "insufficient-evidence" (Some detection_missing)
    (Some outcome_abstain) (drop 3 (cs_records item)) 1 2 1.
Definition rendered : option SynthesisObservation := Eval vm_compute in observation_of ∘ rl_candidate <$> release alone.
Definition success : option ComplementarySynthesisScore := Eval vm_compute in o ← rendered; score o alone.
End SynthesisSample.

Lemma governed_synthesis_binds_witness :
  exists r s, SynthesisSample.released = Some r /\ SynthesisSample.scored = Some s /\
    rl_validation_codes r = [] /\ deterministic_record_binding s = true /\ recorded_decision_and_outcome_accuracy s = true /\
    missing_information_detection s = Some true /\ conflicting_information_detection s = None.
Proof.
  destruct SynthesisSample.released as [r|] eqn:Hr; [|discriminate].
  destruct SynthesisSample.scored as [s|] eqn:Hs; [|discriminate]. exists r, s. split; [reflexivity|]. split; [reflexivity|].
  apply (governed_synthesis_binds (HL := code_unit_locale) SynthesisSample.corpus SynthesisSample.corpus SynthesisSample.item
           SynthesisSample.model_candidate r (SynthesisSample.observation_of (rl_candidate r)) s).
  - vm_compute. reflexivity.
  - constructor.
  - injection Hr as <-. vm_compute. reflexivity.
  - split; [|split]; reflexivity.
  - injection Hr as <-. injection Hs as <-. vm_compute. reflexivity.
Defined.

Lemma synthesis_score_correct_witness :
  exists o s, SynthesisSample.rendered = Some o /\ SynthesisSample.success = Some s /\
    single_response_supported_synthesis_success s = true /\
    (single_response_supported_synthesis_success s = true <-> synthesized SynthesisSample.alone o).
Proof.
  destruct SynthesisSample.rendered as [o|] eqn:Ho; [|discriminate].
  destruct SynthesisSample.success as [s|] eqn:Hs; [|discriminate]. exists o, s. split; [reflexivity|]. split; [reflexivity|].
  injection Ho as <-. injection Hs as <-. split; [reflexivity|].
  apply (synthesis_score_correct SynthesisSample.alone). vm_compute. reflexivity.
Defined.
