(* ===== verification/Live.v ===== *)
(** * Live evaluation runs

    [src/src/evaluation/live.ts]: what a stored observation has to satisfy, the file of
    observations, the directory of a run and the bounded retries. The score schema is in
    Formal.v. The datetime format of zod is a parameter. A line of the file stands for what
    [JSON.parse] makes of it; a write has the outcomes of Journal.v. A directory is the
    names in it with what the manifest file holds. *)

From S2P Require Import Prelude Regex Digits Base64 Schemas Storage Journal Json Hex Signatures Protection Session AuditLedger EcmaRegExp Text SemanticTokens SemanticSupport AssistantTypes AssistantTools AssistantDecisions AssistantProse AssistantValidation Formal.

Local Open Scope Z_scope.

(** ** Observations *)

Record CandidateSnapshot := mkSnapshot {
  cs_outcome : AssistantOutcome;
  cs_decision_code : option string;
  cs_summary : string;
  cs_warnings : list string;
  cs_missing_requirements : list string;
  cs_evidence_reason_codes : list string;
  cs_claims : list Claim
}.

Definition candidateSnapshot (c : CandidateSnapshot) : bool :=
  optional assistantDecisionCode (cs_decision_code c) &&
  forallb (fun cl => rtest (rx "^claim-[1-9][0-9]*$") (claim_id cl)) (cs_claims c).

Definition strings (l : list string) : json := JArr (JStr <$> l).
Definition claim_value (c : Claim) : json :=
  JObj [("claim_id", JStr (claim_id c)); ("text", JStr (claim_text c)); ("citation_ids", strings (citation_ids c))]%string.
Definition code_value (o : option string) : json := match o with Some s => JStr s | None => JNull end.
Definition snapshot_fields (c : CandidateSnapshot) : object :=
  [("outcome", JStr (outcome_text (cs_outcome c)));
        ("decision_code", code_value (cs_decision_code c));
        ("summary", JStr (cs_summary c)); ("warnings", strings (cs_warnings c));
        ("missing_requirements", strings (cs_missing_requirements c));
        ("evidence_reason_codes", strings (cs_evidence_reason_codes c)); ("claims", JArr (claim_value <$> cs_claims c))]%string.
Definition snapshot_value (c : CandidateSnapshot) : json := JObj (snapshot_fields c).

(** What the two kinds of observation share; [co_response] are the seven fields of the
    response that was scored. *)
Record Collected := mkCollected {
  cl_observation_id : string;
  cl_evaluation_set_id : string;
  cl_source_commit : string;
  cl_freeze_sha256 : string;
  cl_corpus_file_sha256 : string;
  cl_logical_corpus_sha256 : string;
  cl_case_id : string;
  cl_repetition : Z;
  cl_started_at : string;
  cl_completed_at : string;
  cl_duration_ms : Z;
  cl_attempts : Z;
  cl_transport_attempts : Z;
  cl_model_invoked : bool;
  cl_provider : string;
  cl_model : string;
  cl_response_id : option string;
  cl_input_tokens : option Z;
  cl_output_tokens : option Z;
  cl_raw_model_candidate : option CandidateSnapshot;
  cl_released_candidate : CandidateSnapshot;
  cl_raw_validation_codes : list string;
  cl_presented_support_ids : list string;
  cl_model_input_sha256 : option string;
  cl_response : CandidateSnapshot;
  cl_validation_codes : list string
}.

Record StoredObservation := mkStored {
  so_schema : string;
  so_collected : Collected;
  so_formal_evidence : bool;
  so_configuration_id : string;
  so_score : FormalScore
}.

Inductive ValidationStatus := status_passed | status_rejected.

Record ComplementarySynthesisStoredObservation := mkComplementary {
  cm_schema : string;
  cm_collected : Collected;
  cm_stratum : string;
  cm_validation_status : ValidationStatus
}.

Definition non_negative (n : Z) : bool := Journal.int_min 0 n.
Definition hash_text : string -> bool := rtest (rx "^0x[0-9a-f]{64}$").

Section Live.
Context `{CanonicalJson} (is_datetime : string -> bool).

(** [assertReleasedCandidateMatches], and its copy for the other kind *)
Definition released_matches (c : Collected) : bool :=
  canonicalBytesEqual (snapshot_value (cl_released_candidate c)) (snapshot_value (cl_response c)).

(** What a model observation has to keep, and one without a model must not have. *)
Definition invocation_consistent (c : Collected) : bool :=
  if cl_model_invoked c
  then negb (bool_decide (cl_raw_model_candidate c = None)) && negb (bool_decide (cl_model_input_sha256 c = None)) &&
       (cl_attempts c <=? cl_transport_attempts c)
  else bool_decide (cl_raw_model_candidate c = None) && bool_decide (cl_model_input_sha256 c = None) &&
       (cl_transport_attempts c =? 0).

Definition collected (c : Collected) : bool :=
  some_text (cl_observation_id c) && some_text (cl_evaluation_set_id c) &&
  rtest (rx "^[0-9a-f]{40}$") (cl_source_commit c) && hash_text (cl_freeze_sha256 c) && hash_text (cl_corpus_file_sha256 c) &&
  hash_text (cl_logical_corpus_sha256 c) && some_text (cl_case_id c) && Journal.int_min 1 (cl_repetition c) &&
  is_datetime (cl_started_at c) && is_datetime (cl_completed_at c) && non_negative (cl_duration_ms c) &&
  (Journal.int_min 1 (cl_attempts c) && (cl_attempts c <=? 3)) && non_negative (cl_transport_attempts c) &&
  some_text (cl_provider c) && some_text (cl_model c) && optional non_negative (cl_input_tokens c) &&
  optional non_negative (cl_output_tokens c) && optional candidateSnapshot (cl_raw_model_candidate c) &&
  candidateSnapshot (cl_released_candidate c) && optional hash_text (cl_model_input_sha256 c) && candidateSnapshot (cl_response c) &&
  released_matches c && bool_decide (NoDup (cl_presented_support_ids c)) && invocation_consistent c.

Definition storedObservationSchema (o : StoredObservation) : bool :=
  String.eqb (so_schema o) "EVLLM_LIVE_EVALUATION_OBSERVATION_V2" && some_text (so_configuration_id o) &&
  formalScore (so_score o) && collected (so_collected o) &&
  Bool.eqb (bool_decide (cs_claims (cl_response (so_collected o)) = [])) (bool_decide (unsupported_claim_rate (so_score o) = None)).

Definition complementarySynthesisObservationSchema (o : ComplementarySynthesisStoredObservation) : bool :=
  String.eqb (cm_schema o) "EVLLM_COMPLEMENTARY_SYNTHESIS_OBSERVATION_V2" && some_text (cm_stratum o) && collected (cm_collected o) &&
  Bool.eqb (match cm_validation_status o with status_passed => true | status_rejected => false end)
    (bool_decide (cl_validation_codes (cm_collected o) = [])).

(** ** The file of observations *)

Inductive StoreError := invalid_jsonl (line : nat) | duplicate_stored (id : string) | already_stored (id : string) | parse_error | write_error.

Definition observation_key (o : StoredObservation) : string := cl_observation_id (so_collected o).

Record JsonlObservationStore := mkObservationStore {
  records : list (string * StoredObservation);
  store_file : Journal.File StoredObservation
}.

Definition load_observation (recs : list (string * StoredObservation)) (p : nat * Journal.Line StoredObservation) :
    result StoreError (list (string * StoredObservation)) :=
  let '(index, line) := p in
  match line with
  | Journal.blank _ => Ok recs
  | Journal.garbage => Throw (invalid_jsonl (S index))
  | Journal.line_of o =>
      _ ← require (storedObservationSchema o) (invalid_jsonl (S index));
      _ ← require (negb (map_has (observation_key o) recs)) (duplicate_stored (observation_key o));
      Ok (map_set (observation_key o) o recs)
  end.

(** [initialize] of a new store; a file that is not there has no lines. *)
Definition initialize_store (f : Journal.File StoredObservation) : result StoreError JsonlObservationStore :=
  recs ← fold_result load_observation [] (imap pair (Journal.lines_of f));
  Ok (mkObservationStore recs f).

Definition get_observation (s : JsonlObservationStore) (id : string) : option StoredObservation := map_get id (records s).
Definition observation_values (s : JsonlObservationStore) : list StoredObservation := (records s).*2.

(** [append], up to the opening of the file *)
Definition start_append (s : JsonlObservationStore) (raw : StoredObservation) : result StoreError unit :=
  _ ← require (storedObservationSchema raw) parse_error;
  require (negb (map_has (observation_key raw) (records s))) (already_stored (observation_key raw)).

(** The write, and the record kept when it is done *)
Definition finish_append (s : JsonlObservationStore) (o : StoredObservation) (w : Journal.WriteOutcome) :
    JsonlObservationStore * result StoreError unit :=
  let f := Journal.append_line (store_file s) o w in
  match w with
  | Journal.written => (mkObservationStore (map_set (observation_key o) o (records s)) f, Ok tt)
  | _ => (mkObservationStore (records s) f, Throw write_error)
  end.

Definition append_observation (s : JsonlObservationStore) (raw : StoredObservation) (w : Journal.WriteOutcome) :
    JsonlObservationStore * result StoreError unit :=
  match start_append s raw with
  | Throw e => (s, Throw e)
  | Ok _ => finish_append s raw w
  end.

(** ** The directory of a run *)

(** The manifest is not there, does not parse, or parses to a value. *)
Inductive ManifestFile := no_manifest | broken_manifest | manifest_file (v : json).

Record RunDirectory := mkDirectory { entries : list string; manifest : ManifestFile }.

Record EvaluationRunDirectoryOptions := mkDirectoryOptions {
  manifest_name : string;
  expectedManifest : json;
  finalRun : bool;
  resume_run : bool;
  allowedResumeEntries : list string
}.

Inductive RunMode := fresh | resumed.

Inductive DirectoryError := not_empty | unexpected_files (names : list string) | manifest_required | manifest_differs
| manifest_unreadable | manifest_exists | manifest_missing | metadata_without_observations.

(** [assertExactManifest] *)
Definition assertExactManifest (m : ManifestFile) (expected : json) : result DirectoryError unit :=
  match m with
  | no_manifest => Throw manifest_missing
  | broken_manifest => Throw manifest_unreadable
  | manifest_file v => require (canonicalBytesEqual v expected) manifest_differs
  end.

(** [writeFile(path, ..., { flag: "wx" })] *)
Definition write_new (m : ManifestFile) (v : json) : result DirectoryError ManifestFile :=
  match m with no_manifest => Ok (manifest_file v) | _ => Throw manifest_exists end.

(** [establishExactManifest] *)
Definition establishExactManifest (m : ManifestFile) (expected : json) : result DirectoryError ManifestFile :=
  match assertExactManifest m expected with
  | Ok _ => Ok m
  | Throw manifest_missing => write_new m expected
  | Throw e => Throw e
  end.

(** The manifest afterwards, and the mode of the run *)
Definition prepareEvaluationRunDirectory (d : RunDirectory) (o : EvaluationRunDirectoryOptions) :
    result DirectoryError (ManifestFile * RunMode) :=
  if negb (finalRun o) then
    m ← establishExactManifest (manifest d) (expectedManifest o);
    Ok (m, if bool_decide (entries d = []) then fresh else resumed)
  else if negb (resume_run o) then
    _ ← require (bool_decide (entries d = [])) not_empty;
    m ← write_new (manifest d) (expectedManifest o);
    Ok (m, fresh)
  else
    let unexpected := filter (fun e => has (allowedResumeEntries o) e = false) (entries d) in
    _ ← require (bool_decide (unexpected = [])) (unexpected_files unexpected);
    _ ← require (has (entries d) (manifest_name o)) manifest_required;
    _ ← assertExactManifest (manifest d) (expectedManifest o);
    _ ← require (has (entries d) "observations.jsonl" ||
                 negb (has (entries d) "progress.json" || has (entries d) "run-summary.json")) metadata_without_observations;
    Ok (manifest d, resumed).

End Live.

(** ** Bounded retries *)

Inductive RetryError := bad_budget | failed_with (e : Journal.ErrorValue) | unreachable.

Record Retried (T : Type) := mkRetried { rt_value : T; rt_attempts : Z }.
Arguments mkRetried {T} _ _.

(** The loop of [withBoundedTransportRetries]: [operation] is its calls in order, [transient]
    is [isTransientTransportError]; the delays waited for come with the result. *)
Fixpoint transport_retries {T} (transient : Journal.ErrorValue -> bool) (operation : Z -> result Journal.ErrorValue T)
    (maximumAttempts : Z) (fuel : nat) (attempts : Z) : result RetryError (Retried T) * list Z :=
  match fuel with
  | O => (Throw unreachable, [])
  | S fuel =>
      if maximumAttempts <=? attempts then (Throw unreachable, [])
      else
        let attempts := attempts + 1 in
        match operation attempts with
        | Ok v => (Ok (mkRetried v attempts), [])
        | Throw e =>
            if (maximumAttempts <=? attempts) || negb (transient e) then (Throw (failed_with e), [])
            else
              let '(r, delays) := transport_retries transient operation maximumAttempts fuel attempts in
              (r, 250 * 2 ^ (attempts - 1) :: delays)
        end
  end.

(** [maximumAttempts] is an integer; four rounds are more than it allows. *)
Definition withBoundedTransportRetries {T} (heap : list Journal.ErrorObject) (operation : Z -> result Journal.ErrorValue T)
    (maximumAttempts : Z) : result RetryError (Retried T) * list Z :=
  if (maximumAttempts <? 1) || (3 <? maximumAttempts) then (Throw bad_budget, [])
  else transport_retries (Journal.isTransientTransportError heap) operation maximumAttempts 4 0.

(** * Facts *)

(** ** Retries *)

Lemma transport_retries_spec {T} transient (operation : Z -> result Journal.ErrorValue T) maximum fuel attempts r delays :
  0 <= attempts < maximum -> (Z.to_nat (maximum - attempts) < fuel)%nat ->
  transport_retries transient operation maximum fuel attempts = (r, delays) ->
  exists n, attempts < n <= maximum /\
    (forall m, attempts < m < n -> exists e, operation m = Throw e /\ transient e = true) /\
    delays = (fun i => 250 * 2 ^ (attempts + Z.of_nat i)) <$> List.seq 0 (Z.to_nat (n - attempts - 1)) /\
    ((exists v, operation n = Ok v /\ r = Ok (mkRetried v n)) \/
     (exists e, operation n = Throw e /\ r = Throw (failed_with e) /\ (n = maximum \/ transient e = false))).
Proof.
  revert attempts r delays. induction fuel as [|fuel IH]; intros attempts r delays Hat Hfuel; [lia|]. simpl.
  destruct (Z.leb_spec maximum attempts); [lia|].
  destruct (operation (attempts + 1)) as [v|e] eqn:Ho.
  - intros [= <- <-]. exists (attempts + 1). replace (attempts + 1 - attempts - 1) with 0 by lia.
    split_and!; [lia|lia|lia|done|]. left. by exists v.
  - destruct (Z.leb_spec maximum (attempts + 1)) as [Hlast|Hmore]; simpl; [|destruct (transient e) eqn:Ht; simpl].
    + intros [= <- <-]. exists (attempts + 1). replace (attempts + 1 - attempts - 1) with 0 by lia.
      split_and!; [lia|lia|lia|done|]. right. exists e. split_and!; try done. left. lia.
    + destruct (transport_retries _ _ _ fuel _) as [r' ds] eqn:Hr. intros [= <- <-].
      apply IH in Hr as (n & Hn & Hf & -> & Hres); [|lia|lia]. exists n. split_and!; [lia|lia| | |done].
      * intros m Hm. destruct (decide (m = attempts + 1)) as [->|]; [by exists e|]. apply Hf. lia.
      * replace (Z.to_nat (n - attempts - 1)) with (S (Z.to_nat (n - (attempts + 1) - 1))) by lia. simpl. f_equal; [f_equal; f_equal; lia|].
        rewrite <- seq_shift, <- (list_fmap_compose S). apply list_fmap_ext. intros. simpl. do 2 f_equal. lia.
    + intros [= <- <-]. exists (attempts + 1). replace (attempts + 1 - attempts - 1) with 0 by lia.
      split_and!; [lia|lia|lia|done|]. right. exists e. split_and!; try done. by right.
Qed.

(** The bounded retry of a model call makes at most the attempts it is given, and never
    runs out of its loop. It returns the first success with the number of the attempt; it
    repeats only transport failures, after 250 ms, 500 ms; and an error of another kind, or
    the last one, is thrown as it is. *)
Theorem transport_retries_correct {T} heap (operation : Z -> result Journal.ErrorValue T) maximum r delays :
  1 <= maximum <= 3 -> withBoundedTransportRetries heap operation maximum = (r, delays) ->
  exists n, 1 <= n <= maximum /\
    (forall m, 1 <= m < n -> exists e, operation m = Throw e /\ Journal.isTransientTransportError heap e = true) /\
    delays = take (Z.to_nat (n - 1)) [250; 500] /\
    ((exists v, operation n = Ok v /\ r = Ok (mkRetried v n)) \/
     (exists e, operation n = Throw e /\ r = Throw (failed_with e) /\
        (n = maximum \/ Journal.isTransientTransportError heap e = false))).
Proof.
  intros Hm. unfold withBoundedTransportRetries.
  destruct (Z.ltb_spec maximum 1); [lia|]. destruct (Z.ltb_spec 3 maximum); [lia|]. simpl orb. cbv iota.
  intros (n & Hn & Hf & -> & Hres)%transport_retries_spec; [|lia|lia]. exists n. split_and!; [lia|lia| | |done].
  - intros m Hm'. apply Hf. lia.
  - assert (n = 1 \/ n = 2 \/ n = 3) as [-> | [-> | ->]] by lia; reflexivity.
Qed.

Lemma transport_retries_correct_witness :
  let heap := [Journal.mkErrorObject Journal.plain_error None (Some 429) None None] in
  let operation := fun n => if n <? 3 then Throw (Journal.object 0) else Ok n in
  (withBoundedTransportRetries heap operation 3 = (Ok (mkRetried 3 3), [250; 500])) /\
  exists n, 1 <= n <= 3 /\ [250; 500] = take (Z.to_nat (n - 1)) [250; 500].
Proof.
  intros heap operation.
  assert (withBoundedTransportRetries heap operation 3 = (Ok (mkRetried 3 3), [250; 500])) as Hr by (vm_compute; reflexivity).
  split; [exact Hr|].
  destruct (transport_retries_correct heap operation 3 (Ok (mkRetried 3 3)) [250; 500] ltac:(lia) Hr) as (n & Hn & _ & Hd & _).
  exists n. split; [exact Hn|exact Hd].
Defined.

(** ** The file *)

Section Store.
Context `{CanonicalJson} (is_datetime : string -> bool).

Notation schema := (storedObservationSchema is_datetime).

(** What some lines hold. *)
Definition file_observations (lines : list (Journal.Line StoredObservation)) : list StoredObservation :=
  omap (fun l => match l with Journal.line_of o => Some o | _ => None end) lines.

(** Lines that load as records: every observation once, in order. *)
Record lines_ok (lines : list (Journal.Line StoredObservation)) (recs : list (string * StoredObservation)) : Prop := {
  ok_readable : Journal.garbage ∉ lines;
  ok_schema : Forall (fun o => schema o = true) (file_observations lines);
  ok_once : NoDup (observation_key <$> file_observations lines);
  ok_records : recs = (fun o => (observation_key o, o)) <$> file_observations lines
}.

(** The store in memory is its file, which ends with a newline. *)
Definition store_ok (s : JsonlObservationStore) : Prop :=
  lines_ok (Journal.ended_lines (store_file s)) (records s) /\ Journal.terminated (store_file s).

Lemma load_lines lines recs recs' n :
  fold_result (load_observation is_datetime) recs (imap (fun i l => (i + n, l)%nat) lines) = Ok recs' <->
  Journal.garbage ∉ lines /\ Forall (fun o => schema o = true) (file_observations lines) /\
  NoDup (observation_key <$> file_observations lines) /\
  (forall o, o ∈ file_observations lines -> map_get (observation_key o) recs = None) /\
  recs' = recs ++ ((fun o => (observation_key o, o)) <$> file_observations lines).
Proof.
  revert recs n. induction lines as [|l lines IH]; intros recs n; [simpl|].
  - rewrite app_nil_r. split; [intros [= <-]|by intros (_ & _ & _ & _ & ->)].
    split_and!; [apply not_elem_of_nil|constructor|constructor| |done]. intros o Ho. by apply not_elem_of_nil in Ho.
  - rewrite imap_cons. simpl fold_result.
    replace (imap ((fun (i : nat) (l0 : Journal.Line StoredObservation) => ((i + n)%nat, l0)) ∘ S) lines)
      with (imap (fun i l0 => ((i + S n)%nat, l0)) lines) by (apply imap_ext; intros; simpl; f_equal; lia).
    rewrite bind_Ok. setoid_rewrite IH. clear IH. destruct l as [js| |o].
    + simpl. rewrite not_elem_of_cons. split; [intros (r & [= <-] & ?); naive_solver|]. intros ([_ ?] & ?). exists recs. naive_solver.
    + split; [by intros (r & ? & _)|]. intros [Hin _]. by destruct Hin; constructor.
    + change (file_observations (Journal.line_of o :: lines)) with (o :: file_observations lines).
      rewrite !fmap_cons, Forall_cons, NoDup_cons, not_elem_of_cons. split.
      * intros (r & (u & Hs%require_Ok & (u' & Hh & [= <-])%bind_Ok)%bind_Ok & Hun & Hsch & Hnd & Hfresh & ->).
        apply require_Ok, negb_true_iff, map_has_false in Hh. rewrite map_set_fresh by done. split_and!; try done.
        -- intros (o' & Heq & Ho')%list_elem_of_fmap. specialize (Hfresh o' Ho'). rewrite map_set_fresh in Hfresh by done.
           rewrite <- Heq in Hfresh. apply map_get_None in Hfresh. apply Hfresh. rewrite fmap_app. apply elem_of_app. right. constructor.
        -- intros o' [->|Ho']%elem_of_cons; [done|]. specialize (Hfresh o' Ho'). rewrite map_get_set in Hfresh. by case_decide.
        -- by rewrite <- app_assoc.
      * intros ([_ Hun] & [Hs Hsch] & [Hnew Hnd] & Hfresh & ->). exists (map_set (observation_key o) o recs).
        assert (map_get (observation_key o) recs = None) as Hnone by (apply Hfresh; constructor).
        split_and!; try done.
        -- simpl. rewrite Hs, (proj2 (map_has_false _ _) Hnone). done.
        -- intros o' Ho'. rewrite map_get_set_ne; [apply Hfresh; by constructor|]. intros Heq. apply Hnew.
           rewrite <- Heq. by apply list_elem_of_fmap_2.
        -- rewrite map_set_fresh by done. by rewrite <- app_assoc.
Qed.

Definition load_all (lines : list (Journal.Line StoredObservation)) : result StoreError (list (string * StoredObservation)) :=
  fold_result (load_observation is_datetime) [] (imap pair lines).

Lemma load_all_Ok lines recs : load_all lines = Ok recs <-> lines_ok lines recs.
Proof.
  unfold load_all.
  replace (imap pair lines) with (imap (fun i l => ((i + 0)%nat, l)) lines) by (apply imap_ext; intros; by rewrite Nat.add_0_r).
  rewrite load_lines. split; [intros (Hun & Hsch & Hnd & _ & ->)|intros [Hun Hsch Hnd ->]].
  - by split.
  - split_and!; try done.
Qed.

Lemma load_all_snoc lines x :
  load_all (lines ++ [x]) = (recs ← load_all lines; load_observation is_datetime recs (length lines, x)).
Proof. unfold load_all. rewrite imap_app. simpl. rewrite Journal.fold_result_snoc. by rewrite Nat.add_0_r. Qed.

Lemma initialize_store_lines f s :
  initialize_store is_datetime f = Ok s <-> load_all (Journal.lines_of f) = Ok (records s) /\ store_file s = f.
Proof.
  unfold initialize_store. fold (load_all (Journal.lines_of f)). rewrite bind_Ok. split.
  - by intros (recs & Hr & [= <-]).
  - intros [Hr <-]. exists (records s). split; [done|by destruct s].
Qed.

Lemma initialize_store_Ok f s :
  Journal.terminated f -> initialize_store is_datetime f = Ok s <-> store_ok s /\ store_file s = f.
Proof.
  intros Ht. rewrite initialize_store_lines. unfold store_ok, Journal.lines_of. rewrite <- load_all_Ok, load_all_snoc, Ht. split.
  - intros [(recs & Hr & [= ->])%bind_Ok Hf]. by rewrite Hf.
  - intros [[Hr _] Hf]. rewrite Hf in Hr. split; [|done]. by rewrite Hr.
Qed.

(** An append that is done, refused, or fails before it writes. *)
Inductive appended (s : JsonlObservationStore) : JsonlObservationStore -> Prop :=
| appended_one o w : w = Journal.written \/ w = Journal.not_written -> appended s (append_observation is_datetime s o w).1.

Lemma appended_written s o s' : append_observation is_datetime s o Journal.written = (s', Ok tt) -> appended s s'.
Proof. intros Ha. pose proof (appended_one s o Journal.written (or_introl eq_refl)) as H1. by rewrite Ha in H1. Qed.

Lemma start_append_Ok s o : start_append is_datetime s o = Ok tt <-> schema o = true /\ map_get (observation_key o) (records s) = None.
Proof.
  unfold start_append. rewrite <- map_has_false. destruct (schema o), (map_has (observation_key o) (records s)); simpl; naive_solver.
Qed.

Lemma finish_append_ok s o :
  store_ok s -> schema o = true -> map_get (observation_key o) (records s) = None ->
  store_ok (finish_append s o Journal.written).1.
Proof.
  intros [[Hun Hsch Hnd Hrec] Ht] Hs Hnew. unfold finish_append. simpl. split; [|done]. simpl. rewrite Ht. simpl. split.
  - by intros [?|?%list_elem_of_singleton]%elem_of_app.
  - unfold file_observations. rewrite omap_app, Forall_app. split; [done|by constructor].
  - unfold file_observations in *. rewrite omap_app, fmap_app. apply NoDup_app. split_and!; [done| |apply NoDup_singleton].
    intros k Hk ->%list_elem_of_singleton. apply map_get_None in Hnew. apply Hnew. rewrite Hrec.
    rewrite <- list_fmap_compose. exact Hk.
  - rewrite map_set_fresh by done. unfold file_observations in *. by rewrite omap_app, fmap_app, Hrec.
Qed.

Lemma append_ok s s' : store_ok s -> appended s s' -> store_ok s' /\ records s `prefix_of` records s'.
Proof.
  intros Hok [o w Hw]. unfold append_observation. destruct (start_append is_datetime s o) as [[]|e] eqn:Hst; [|by split].
  apply start_append_Ok in Hst as [Hs Hnew]. destruct Hw as [-> | ->]; [|by split; [destruct s|]].
  split; [by apply finish_append_ok|]. simpl. rewrite map_set_fresh by done. by apply prefix_app_r.
Qed.

(** *** A missing newline *)

(** The store was opened on a file whose last line is not ended. *)
Definition opened_on (f : Journal.File StoredObservation) (s : JsonlObservationStore) : Prop :=
  is_ok (load_all (Journal.ended_lines f)) = true /\
  (store_file s = f \/ exists more, Journal.ended_lines (store_file s) = Journal.ended_lines f ++ [Journal.garbage] ++ more).

Lemma opened_append f s s' : ~ Journal.terminated f -> appended s s' -> opened_on f s -> opened_on f s'.
Proof.
  intros Hf [o w Hw] [Hl Hs]. split; [done|]. unfold append_observation.
  destruct (start_append is_datetime s o) as [[]|e]; [|done]. destruct Hw as [-> | ->]; [|by destruct s].
  right. simpl. destruct Hs as [-> |(more & ->)].
  - exists []. unfold Journal.terminated, Journal.glue in *. by destruct (Journal.rest f) as [[]| |].
  - exists (more ++ [Journal.glue (Journal.rest (store_file s)) o]). by rewrite <- !app_assoc.
Qed.

Lemma load_all_garbage lines more :
  is_ok (load_all lines) = true -> load_all (lines ++ [Journal.garbage] ++ more) = Throw (invalid_jsonl (S (length lines))).
Proof.
  intros Hl. induction more as [|x more IH] using rev_ind.
  - rewrite app_nil_r, load_all_snoc. by destruct (load_all lines).
  - by rewrite !app_assoc, load_all_snoc, <- !app_assoc, IH.
Qed.

(** C25. Observations are durable and unique. A store opened on any file that ends with a
    newline (or is empty), and appended to one call at a time, with calls refused or failing
    before they write in between, is exactly what its file reads back as; nothing stored is
    dropped or changed, and each identifier is stored once. A file whose last line has lost
    its newline opens as well, but then the first observation appended to it is written on
    that line, and the file does not open again. (A write that fails half way, or after it
    is done, and two overlapping appends of one observation are not covered:
    [observation_file_lost].) *)
Theorem observations_reload f s0 s :
  initialize_store is_datetime f = Ok s0 -> rtc appended s0 s ->
  (Journal.terminated f ->
     initialize_store is_datetime (store_file s) = Ok s /\ records s0 `prefix_of` records s /\ NoDup (records s).*1) /\
  (~ Journal.terminated f ->
     store_file s = f \/ exists n, initialize_store is_datetime (store_file s) = Throw (invalid_jsonl n)).
Proof.
  intros H0 Hr. split; intros Ht.
  - apply initialize_store_Ok in H0 as [H0 _]; [|done].
    assert (store_ok s /\ records s0 `prefix_of` records s) as [Hok Hp].
    { induction Hr as [|s1 s2 s3 H12 _ IH]; [done|]. destruct (append_ok _ _ H0 H12) as [H2 Hp].
      destruct (IH H2) as [H3 Hp']. split; [done|]. by etrans. }
    split_and!; [by apply initialize_store_Ok; [apply Hok|]|done|]. destruct Hok as [[_ _ Hnd Hrec] _]. rewrite Hrec.
    rewrite <- list_fmap_compose. exact Hnd.
  - assert (opened_on f s0) as Hopen.
    { apply initialize_store_lines in H0 as [Hl Hf]. split; [|by left]. unfold Journal.lines_of in Hl.
      rewrite load_all_snoc in Hl. apply bind_Ok in Hl as (recs & Hl & _). by rewrite Hl. }
    assert (opened_on f s) as [Hl [Hs|(more & Hm)]]; [|by left|right].
    { clear H0. induction Hr as [|s1 s2 s3 H12 _ IH]; [done|]. apply IH. by eapply opened_append. }
    exists (S (length (Journal.ended_lines f))). unfold initialize_store, Journal.lines_of. rewrite Hm.
    fold (load_all ((Journal.ended_lines f ++ [Journal.garbage] ++ more) ++ [Journal.rest (store_file s)])).
    by rewrite <- !app_assoc, load_all_garbage.
Qed.

(** A line that repeats a stored observation. *)
Lemma load_repeated lines recs o :
  load_all lines = Ok recs -> schema o = true -> is_Some (map_get (observation_key o) recs) ->
  load_all (lines ++ [Journal.line_of o]) = Throw (duplicate_stored (observation_key o)).
Proof.
  intros Hl Hs [o' Ho']. rewrite load_all_snoc, Hl. simpl. rewrite Hs. simpl.
  by rewrite (proj2 (map_has_true _ _) (ex_intro _ o' Ho')).
Qed.

(** Two ways to lose the file. [append] checks for a stored record before it awaits the
    write and files it only after, so two overlapping appends of one observation both
    succeed; and a write that is flushed but fails in [sync] or [close] is in the file but
    not in the store, so the append can be repeated. Either way the observation is in
    the file twice, and no store can be opened on it again. *)
Theorem observation_file_lost s o :
  store_ok s -> start_append is_datetime s o = Ok tt ->
  let once := (finish_append s o Journal.written).1 in
  let twice := finish_append once o Journal.written in
  let unacknowledged := finish_append s o Journal.written_but_failed in
  twice.2 = Ok tt /\ initialize_store is_datetime (store_file twice.1) = Throw (duplicate_stored (observation_key o)) /\
  unacknowledged.2 = Throw write_error /\
  (append_observation is_datetime unacknowledged.1 o Journal.written).2 = Ok tt /\
  initialize_store is_datetime (store_file (append_observation is_datetime unacknowledged.1 o Journal.written).1) =
    Throw (duplicate_stored (observation_key o)).
Proof.
  intros Hok Hst once twice unacknowledged. pose proof Hok as [_ Ht].
  set (f2 := Journal.mkFile ((Journal.ended_lines (store_file s) ++ [Journal.line_of o]) ++ [Journal.line_of o]) (Journal.blank true)).
  assert (append_observation is_datetime unacknowledged.1 o Journal.written =
            (mkObservationStore (map_set (observation_key o) o (records s)) f2, Ok tt)) as Happ.
  { unfold append_observation, unacknowledged. simpl. unfold start_append in *. simpl records. rewrite Hst, Ht. done. }
  assert (store_file twice.1 = f2) as Htwice by (simpl; by rewrite Ht).
  rewrite Happ, Htwice. apply start_append_Ok in Hst as [Hs Hnew].
  assert (initialize_store is_datetime f2 = Throw (duplicate_stored (observation_key o))) as Hlost; [|by split_and!].
  pose proof (finish_append_ok s o Hok Hs Hnew) as [Hone%load_all_Ok _]. simpl in Hone. rewrite Ht in Hone.
  unfold initialize_store, Journal.lines_of.
  fold (load_all (Journal.ended_lines f2 ++ [Journal.rest f2])). subst f2. simpl.
  rewrite load_all_snoc. erewrite load_repeated; [done|exact Hone|done|]. by rewrite map_get_set_eq.
Qed.

(** ** The released candidate *)

Lemma norm_text_array l : norm (strings l) = strings l.
Proof. unfold strings. simpl. f_equal. rewrite <- list_fmap_compose. by apply list_fmap_ext. Qed.

#[local] Instance JStr_inj : Inj (=) (=) JStr.
Proof. by intros ? ? [=]. Qed.

Lemma strings_inj l l' : strings l = strings l' -> l = l'.
Proof. intros [= Hl]. by apply (inj (fmap JStr)) in Hl. Qed.

Lemma claim_value_norm_inj c d : norm (claim_value c) = norm (claim_value d) -> c = d.
Proof.
  intros Hn. assert (forall k, norm <$> field [("claim_id", JStr (claim_id c)); ("text", JStr (claim_text c));
                       ("citation_ids", strings (citation_ids c))]%string k =
                     norm <$> field [("claim_id", JStr (claim_id d)); ("text", JStr (claim_text d));
                       ("citation_ids", strings (citation_ids d))]%string k) as Hk.
  { intros k. apply norm_same_fields; [apply (bool_decide_unpack _); vm_compute; reflexivity..|exact Hn]. }
  destruct c as [c1 c2 c3], d as [d1 d2 d3]. 
  assert (Some (norm (JStr c1)) = Some (norm (JStr d1))) as H1 by exact (Hk "claim_id"%string).
  assert (Some (norm (JStr c2)) = Some (norm (JStr d2))) as H2 by exact (Hk "text"%string).
  assert (Some (norm (strings c3)) = Some (norm (strings d3))) as H3 by exact (Hk "citation_ids"%string).
  rewrite !norm_text_array in H3. injection H1 as ->. injection H2 as ->. apply Some_inj, strings_inj in H3. by subst.
Qed.

Lemma claims_value_norm_inj l l' : norm (JArr (claim_value <$> l)) = norm (JArr (claim_value <$> l')) -> l = l'.
Proof.
  intros Hl. assert (forall v w, JArr v = JArr w -> v = w) as Harr by (by intros v w [=]).
  cbn [norm] in Hl. apply Harr in Hl. rewrite <- !list_fmap_compose in Hl.
  assert (Inj (=) (=) (norm ∘ claim_value)) as Hinj by (intros c d; apply claim_value_norm_inj).
  by apply (inj (fmap (norm ∘ claim_value))) in Hl.
Qed.

(** The check of the released candidate is equality with the response. *)
Lemma released_matches_eq c : released_matches c = true -> cl_released_candidate c = cl_response c.
Proof.
  unfold released_matches. intros Hn%canonicalBytesEqual_true.
  assert (forall a, NoDup (snapshot_fields a).*1) as Hnd by (intros a; apply (bool_decide_unpack _); vm_compute; reflexivity).
  pose proof (fun k => norm_same_fields _ _ k (Hnd _) (Hnd _) Hn) as Hk. clear Hn.
  destruct (cl_released_candidate c) as [a1 a2 a3 a4 a5 a6 a7], (cl_response c) as [b1 b2 b3 b4 b5 b6 b7].
  assert (Some (norm (JStr (outcome_text a1))) = Some (norm (JStr (outcome_text b1)))) as H1 by exact (Hk "outcome"%string).
  pose proof (Hk "decision_code"%string) as H2. change (Some (norm (code_value a2)) = Some (norm (code_value b2))) in H2.
  assert (Some (norm (JStr a3)) = Some (norm (JStr b3))) as H3 by exact (Hk "summary"%string).
  assert (Some (norm (strings a4)) = Some (norm (strings b4))) as H4 by exact (Hk "warnings"%string).
  assert (Some (norm (strings a5)) = Some (norm (strings b5))) as H5 by exact (Hk "missing_requirements"%string).
  assert (Some (norm (strings a6)) = Some (norm (strings b6))) as H6 by exact (Hk "evidence_reason_codes"%string).
  assert (Some (norm (JArr (claim_value <$> a7))) = Some (norm (JArr (claim_value <$> b7)))) as H7 by exact (Hk "claims"%string).
  clear Hk. rewrite !norm_text_array in H4, H5, H6. injection H1 as H1%outcome_text_inj. injection H3 as H3.
  apply Some_inj, strings_inj in H4, H5, H6. apply Some_inj, claims_value_norm_inj in H7.
  assert (a2 = b2) by (destruct a2, b2; simpl in H2; congruence). by subst.
Qed.

(** ** The directory *)

(** A run starts or resumes only where it may. A final run starts only in an empty
    directory without a manifest, and resumes only on request, in a directory with
    nothing but the files it allows, with its manifest there and canonically equal to the
    expected one, and with its observations if there is progress. In every mode a manifest
    that exists is never replaced: the run has it, and it is the expected one. *)
Theorem run_directory_correct d o m mode :
  prepareEvaluationRunDirectory d o = Ok (m, mode) ->
  (manifest d = no_manifest /\ m = manifest_file (expectedManifest o) \/
   m = manifest d /\ exists v, manifest d = manifest_file v /\ norm v = norm (expectedManifest o)) /\
  (finalRun o = true -> mode = fresh -> resume_run o = false /\ entries d = [] /\ manifest d = no_manifest) /\
  (finalRun o = true -> mode = resumed ->
     resume_run o = true /\ (forall e, e ∈ entries d -> e ∈ allowedResumeEntries o) /\ manifest_name o ∈ entries d /\
     ("observations.jsonl"%string ∈ entries d \/ "progress.json"%string ∉ entries d /\ "run-summary.json"%string ∉ entries d)).
Proof.
  assert (forall m, assertExactManifest m (expectedManifest o) = Ok tt ->
            exists v, m = manifest_file v /\ norm v = norm (expectedManifest o)) as Hexact.
  { intros [| |v]; simpl; try done. intros Hv%require_Ok%canonicalBytesEqual_true. by exists v. }
  unfold prepareEvaluationRunDirectory. destruct (finalRun o); simpl; [destruct (resume_run o); simpl|].
  - intros (u1 & Hun%require_Ok%bool_decide_eq_true & (u2 & Hname%require_Ok%has_true & ([] & Hm%Hexact & (u4 & Hobs%require_Ok & [= <- <-])%bind_Ok)%bind_Ok)%bind_Ok)%bind_Ok.
    split_and!; [by right|done|]. intros _ _. split_and!; [done| |done|].
    + intros e He. destruct (has (allowedResumeEntries o) e) eqn:Ha; [by apply has_true|].
      assert (e ∈ filter (fun e => has (allowedResumeEntries o) e = false) (entries d)) as Hin by by apply list_elem_of_filter.
      rewrite Hun in Hin. by apply not_elem_of_nil in Hin.
    + apply orb_true_iff in Hobs as [Ho|[Hp Hs]%negb_true_iff%orb_false_iff]; [left; by apply has_true|right].
      split; by apply has_false.
  - intros (u1 & He%require_Ok%bool_decide_eq_true & (m' & Hm & [= <- <-])%bind_Ok)%bind_Ok.
    unfold write_new in Hm. destruct (manifest d); try done. injection Hm as <-. split_and!; try done. by left.
  - intros (m' & Hm & [= <- <-])%bind_Ok. split_and!; [|done|done].
    unfold establishExactManifest in Hm. destruct (assertExactManifest (manifest d) (expectedManifest o)) as [[]|e] eqn:Ha.
    + injection Hm as <-. right. split; [done|]. by apply Hexact.
    + destruct (manifest d) as [| |v]; simpl in Ha.
      * injection Ha as <-. injection Hm as <-. by left.
      * by injection Ha as <-.
      * destruct (canonicalBytesEqual v (expectedManifest o)); [done|]. by injection Ha as <-.
Qed.
End Store.

(** ** A stored observation *)

Module LiveSample.
Local Open Scope string_scope.

Definition hash64 : string := ("0x" +:+ repeat_char 64 "a"%char)%string.

Definition response : CandidateSnapshot := mkSnapshot outcome_answer None "It is 5." [] [] [] [].

Definition score : FormalScore := mkScore None None None false true true None 0 true 0 0 0 0.

Definition observation : StoredObservation :=
  mkStored "EVLLM_LIVE_EVALUATION_OBSERVATION_V2"
    (mkCollected "formal-001:governed-evllm:1" "set" (repeat_char 40 "b"%char) hash64 hash64 hash64 "formal-001" 1 "t" "t" 0 1 0
       false "evllm" "engine" None None None None response [] [] None response []) true "governed-evllm" score.

Definition datetime : string -> bool := fun _ => true.
Definition empty_store : JsonlObservationStore := mkObservationStore [] Journal.no_lines.
Definition one : JsonlObservationStore := Eval vm_compute in (append_observation datetime empty_store observation Journal.written).1.

End LiveSample.

Lemma observations_reload_witness :
  records LiveSample.one = [("formal-001:governed-evllm:1"%string, LiveSample.observation)] /\
  initialize_store LiveSample.datetime (store_file LiveSample.one) = Ok LiveSample.one.
Proof.
  split; [vm_compute; reflexivity|].
  assert (initialize_store LiveSample.datetime Journal.no_lines = Ok LiveSample.empty_store) as H0 by reflexivity.
  refine (proj1 (proj1 (observations_reload LiveSample.datetime Journal.no_lines LiveSample.empty_store LiveSample.one H0 _) eq_refl)).
  apply rtc_once. apply (appended_written LiveSample.datetime LiveSample.empty_store LiveSample.observation LiveSample.one).
  vm_compute. reflexivity.
Defined.

Lemma observation_file_lost_witness :
  initialize_store LiveSample.datetime
    (store_file (finish_append (finish_append LiveSample.empty_store LiveSample.observation Journal.written).1
                   LiveSample.observation Journal.written).1) =
  Throw (duplicate_stored (observation_key LiveSample.observation)).
Proof.
  assert (store_ok LiveSample.datetime LiveSample.empty_store) as Hok by (apply (initialize_store_Ok LiveSample.datetime Journal.no_lines); reflexivity).
  assert (start_append LiveSample.datetime LiveSample.empty_store LiveSample.observation = Ok tt) as Hst by (vm_compute; reflexivity).
  destruct (observation_file_lost LiveSample.datetime LiveSample.empty_store LiveSample.observation Hok Hst) as (_ & Hl & _).
  exact Hl.
Defined.

Lemma run_directory_correct_witness :
  prepareEvaluationRunDirectory (mkDirectory [] no_manifest) (mkDirectoryOptions "m" (JNum 1) true false []) =
    Ok (manifest_file (JNum 1), fresh) /\
  (true = true -> fresh = fresh -> false = false /\ ([] : list string) = [] /\ no_manifest = no_manifest).
Proof.
  assert (prepareEvaluationRunDirectory (mkDirectory [] no_manifest) (mkDirectoryOptions "m" (JNum 1) true false []) =
    Ok (manifest_file (JNum 1), fresh)) as Hp by (vm_compute; reflexivity).
  split; [exact Hp|]. exact (proj1 (proj2 (run_directory_correct _ _ _ _ Hp))).
Defined.
