(* ===== verification/Gateway.v ===== *)
(** * The marketplace gateway

    [src/src/marketplace/gateway.ts] and the answers of [http.ts]. [submit] awaits the
    verification, the policy and the execution of a command: it is four uninterrupted
    segments, so that several calls can be between two of them. The three callbacks are the
    answers the events bring; one that rejects ends the call with its error. [executed] is
    no state of the program: it lists the calls of [execute] in order, for the theorems. *)

From S2P Require Import Prelude Regex Digits Base64 Schemas Storage Json Hex Signatures Protection.

Local Open Scope Z_scope.
Local Open Scope string_scope.

(** ** Commands *)

Definition command_kinds : list string :=
  ["create-listing"; "withdraw-listing"; "submit-offer"; "withdraw-offer"; "reject-offer"; "expire-listing";
   "expire-offer"; "select-offer"; "confirm-agreement"; "fund-agreement"; "record-dispatch"; "record-delivery";
   "accept-delivery"; "open-dispute"; "resolve-dispute"; "apply-timeout"; "settle"; "withdraw-credit"].

(** [z.record(z.string(), z.unknown())] *)
Definition z_record (v : json) : bool :=
  match v with JObj fs => bool_decide (NoDup fs.*1) | _ => false end.

Definition command_shape : shape :=
  [("schema", z_literal "EVLLM_MARKETPLACE_COMMAND_V1"); ("command_id", z_urn "command"); ("kind", z_enum command_kinds);
   ("signer_actor_id", z_urn "actor"); ("signer_organization_id", z_urn "org"); ("signer_credential_id", z_urn "credential");
   ("signer_address", z_string canonicalAddress); ("issued_at", z_positive); ("expires_at", z_positive);
   ("nonce", z_uint256); ("idempotency_key_hash", z_bytes32); ("payload", z_record);
   ("signature", z_string (rtest (rx "^0x[0-9a-f]{130}$")))].

Definition number_of (v : json) (name : string) : Z :=
  match v with JObj fs => match field fs name with Some (JNum n) => n | _ => 0 end | _ => 0 end.

(** A command is the object as parsed. *)
Definition MarketplaceCommand := json.
Definition command_id (c : MarketplaceCommand) : string := text_of c "command_id".
Definition issued_at (c : MarketplaceCommand) : Z := number_of c "issued_at".
Definition expires_at (c : MarketplaceCommand) : Z := number_of c "expires_at".

Definition marketplaceCommand (v : json) : bool := z_strict command_shape v && (issued_at v <? expires_at v)%Z.

(** [status] is always [submitted]. *)
Record MarketplaceCommandResult := mkCommandResult { commandId : string; transactionHash : string }.

Inductive GatewayCode := gw_conflict | gw_expired | gw_invalid | gw_signature | gw_unknown.

(** ** The gateway *)

Section Gateway.
Context `{CanonicalJson, Sha256} {Error_ : Type}.

(** What [submit] throws: its own error, or one of a callback. *)
Inductive SubmitError := MarketplaceGatewayError (code : GatewayCode) | callback_error (e : Error_).

Definition fingerprint (c : MarketplaceCommand) : string := to_base64url (sha256 (canonicalJsonBytes c)).

Definition Commands := list (string * (string * MarketplaceCommandResult)).

Inductive Call :=
| verifying (c : MarketplaceCommand)
| validating (c : MarketplaceCommand)
| executing (c : MarketplaceCommand)
| returned (r : result SubmitError MarketplaceCommandResult).

Definition reject (code : GatewayCode) : Call := returned (Throw (MarketplaceGatewayError code)).

(** Up to [await this.verify(command)] *)
Definition start_submit (commands : Commands) (input : json) (at_ : Z) : Call :=
  if negb (marketplaceCommand input) then reject gw_invalid
  else
    match map_get (command_id input) commands with
    | Some (prior, result) => if String.eqb prior (fingerprint input) then returned (Ok result) else reject gw_conflict
    | None => if (at_ <? issued_at input)%Z || (expires_at input <=? at_)%Z then reject gw_expired else verifying input
    end.

(** After the verification, up to [await this.validatePolicy(command)] *)
Definition after_verify (c : MarketplaceCommand) (answer : result Error_ bool) : Call :=
  match answer with
  | Throw e => returned (Throw (callback_error e))
  | Ok false => reject gw_signature
  | Ok true => validating c
  end.

(** Up to [await this.execute(command)] *)
Definition after_policy (c : MarketplaceCommand) (answer : result Error_ bool) : Call :=
  match answer with
  | Throw e => returned (Throw (callback_error e))
  | Ok false => reject gw_signature
  | Ok true => executing c
  end.

Definition is_hash : string -> bool := rtest (rx "^0x[0-9a-f]{64}$").

(** To the end *)
Definition after_execute (commands : Commands) (c : MarketplaceCommand) (answer : result Error_ string) : Commands * Call :=
  match answer with
  | Throw e => (commands, returned (Throw (callback_error e)))
  | Ok hash =>
      if is_hash hash then
        let result := mkCommandResult (command_id c) hash in
        (map_set (command_id c) (fingerprint c, result) commands, returned (Ok result))
      else (commands, reject gw_invalid)
  end.

(** [result(commandId)] *)
Definition result_of (commands : Commands) (commandId : string) : result GatewayCode MarketplaceCommandResult :=
  defined (snd <$> map_get commandId commands) gw_unknown.

Record Gateway := mkGateway { commands : Commands; calls : list Call; executed : list MarketplaceCommand }.

Definition new_gateway : Gateway := mkGateway [] [] [].

(** A submission at a time of the clock, or the answer to the callback a call awaits *)
Inductive Event :=
| submit (input : json) (at_ : Z)
| verified (call : nat) (answer : result Error_ bool)
| policed (call : nat) (answer : result Error_ bool)
| submitted (call : nat) (answer : result Error_ string).

Definition set_call (i : nat) (p : Call) (g : Gateway) : Gateway := mkGateway (commands g) (<[i := p]> (calls g)) (executed g).

(** An answer that the call does not await changes nothing. *)
Definition step (g : Gateway) (e : Event) : Gateway :=
  match e with
  | submit input at_ => mkGateway (commands g) (calls g ++ [start_submit (commands g) input at_]) (executed g)
  | verified i answer =>
      match calls g !! i with Some (verifying c) => set_call i (after_verify c answer) g | _ => g end
  | policed i answer =>
      match calls g !! i with
      | Some (validating c) =>
          let p := after_policy c answer in
          mkGateway (commands g) (<[i := p]> (calls g)) (executed g ++ match p with executing c => [c] | _ => [] end)
      | _ => g
      end
  | submitted i answer =>
      match calls g !! i with
      | Some (executing c) =>
          let '(cs, p) := after_execute (commands g) c answer in mkGateway cs (<[i := p]> (calls g)) (executed g)
      | _ => g
      end
  end.

Definition run_gateway (events : list Event) : Gateway := fold_left step events new_gateway.

(** ** The answers over HTTP *)

Definition http_status (code : GatewayCode) : Z :=
  match code with gw_invalid => 400 | gw_signature => 403 | _ => 409 end.

(** [POST /api/v1/commands]: an error of a callback is thrown on. *)
Definition submit_status (authorized : bool) (r : result SubmitError MarketplaceCommandResult) : result Error_ Z :=
  if negb authorized then Ok 403
  else
    match r with
    | Ok _ => Ok 202
    | Throw (MarketplaceGatewayError code) => Ok (http_status code)
    | Throw (callback_error e) => Throw e
    end.

(** [GET /api/v1/query/commands/:id] *)
Definition result_status (authorized : bool) (cs : Commands) (id : string) : Z :=
  if negb authorized then 403 else match result_of cs id with Ok _ => 200 | Throw _ => 404 end.

(** [GET /api/v1/query/marketplace]: exactly one record identifier; 200 is the answer of a
    query that resolves. *)
Definition query_text (v : option json) : option string :=
  match v with Some (JStr s) => if String.eqb s "" then None else Some s | _ => None end.
Definition query_status (authorized : bool) (query : object) : Z :=
  if negb authorized then 403
  else if (length (omap (fun name => query_text (field query name)) ["agreement_id"; "listing_id"; "offer_id"]) =? 1)%nat
  then 200 else 400.

(** ** Runs *)

Local Open Scope list_scope.

(** An answer comes to a call that awaits it. *)
Definition awaited (g : Gateway) (e : Event) : Prop :=
  match e with
  | submit _ _ => True
  | verified i _ => exists c, calls g !! i = Some (verifying c)
  | policed i _ => exists c, calls g !! i = Some (validating c)
  | submitted i _ => exists c, calls g !! i = Some (executing c)
  end.

(** The command of a call that has not returned *)
Definition pending (p : Call) : option MarketplaceCommand :=
  match p with verifying c | validating c | executing c => Some c | returned _ => None end.

(** The runs of the gateway, and those in which no command is submitted while a call for its
    identifier is under way. *)
Inductive reach : list Event -> Gateway -> Prop :=
| reach_new : reach [] new_gateway
| reach_step events g e : reach events g -> awaited g e -> reach (events ++ [e]) (step g e).

Definition alone (g : Gateway) (e : Event) : Prop :=
  match e with
  | submit input _ => forall i p c, calls g !! i = Some p -> pending p = Some c -> command_id c <> command_id input
  | _ => True
  end.

Inductive serial : list Event -> Gateway -> Prop :=
| serial_new : serial [] new_gateway
| serial_step events g e : serial events g -> awaited g e -> alone g e -> serial (events ++ [e]) (step g e).

(** The submissions of a run, in order: the [i]th is the [i]th call's. *)
Definition submission (e : Event) : option (json * Z) :=
  match e with submit input at_ => Some (input, at_) | _ => None end.
Definition submissions (events : list Event) : list (json * Z) := omap submission events.

Definition admitted_ (events : list Event) (i : nat) (c : MarketplaceCommand) : Prop :=
  marketplaceCommand c = true /\ exists at_, submissions events !! i = Some (c, at_) /\ (issued_at c <= at_ < expires_at c)%Z.

(** What has to have happened before call [i] executes a command: it is the command that
    this call submitted, and the verification and the policy that this call asked said yes. *)
Record cleared (events : list Event) (i : nat) (c : MarketplaceCommand) : Prop := {
  cl_valid : marketplaceCommand c = true;
  cl_submitted : exists at_, submissions events !! i = Some (c, at_) /\ (issued_at c <= at_ < expires_at c)%Z;
  cl_verified : verified i (Ok true) ∈ events;
  cl_policed : policed i (Ok true) ∈ events
}.

(** A result answers the command that call [i] executed, with the transaction hash that
    this execution gave. *)
Definition earned (events : list Event) (i : nat) (c : MarketplaceCommand) (r : MarketplaceCommandResult) : Prop :=
  cleared events i c /\ r = mkCommandResult (command_id c) (transactionHash r) /\
  is_hash (transactionHash r) = true /\ submitted i (Ok (transactionHash r)) ∈ events.

(** What a call has behind it. *)
Definition call_ok (events : list Event) (i : nat) (p : Call) : Prop :=
  match p with
  | verifying c => admitted_ events i c
  | validating c => admitted_ events i c /\ verified i (Ok true) ∈ events
  | executing c => cleared events i c
  | returned (Ok r) => exists j c input at_, earned events j c r /\ submissions events !! i = Some (input, at_) /\
                         command_id input = command_id c /\ fingerprint input = fingerprint c
  | returned (Throw _) => True
  end.

(** A call that has handed its command to [execute]. *)
Definition past_execute (p : Call) : Prop :=
  match p with executing _ | returned _ => True | _ => False end.

Record traced (events : list Event) (g : Gateway) : Prop := {
  tr_length : length (calls g) = length (submissions events);
  tr_calls i p : calls g !! i = Some p -> call_ok events i p;
  tr_executed : exists owners, NoDup owners /\ Forall2 (cleared events) owners (executed g) /\
    forall i p, i ∈ owners -> calls g !! i = Some p -> past_execute p;
  tr_commands id fp r : map_get id (commands g) = Some (fp, r) ->
    exists i c, earned events i c r /\ fp = fingerprint c /\ command_id c = id
}.

Lemma submissions_mono events e i x : submissions events !! i = Some x -> submissions (events ++ [e]) !! i = Some x.
Proof. intros Hi. unfold submissions. rewrite omap_app. by apply lookup_app_l_Some. Qed.

Lemma elem_of_mono {A} (l : list A) x y : x ∈ l -> x ∈ l ++ [y].
Proof. intros Hx. apply elem_of_app. by left. Qed.

Lemma admitted_mono events e i c : admitted_ events i c -> admitted_ (events ++ [e]) i c.
Proof. intros (Hv & at_ & Hs & ?). split; [done|]. exists at_. split; [by apply submissions_mono|done]. Qed.

Lemma cleared_mono events e i c : cleared events i c -> cleared (events ++ [e]) i c.
Proof. intros [Hv (at_ & Hs & ?) Hver Hpol]. split; auto using elem_of_mono. exists at_. auto using submissions_mono. Qed.

Lemma earned_mono events e i c r : earned events i c r -> earned (events ++ [e]) i c r.
Proof. intros (Hc & ? & ? & Hs). split_and!; auto using elem_of_mono, cleared_mono. Qed.

Lemma call_ok_mono events e i p : call_ok events i p -> call_ok (events ++ [e]) i p.
Proof.
  destruct p as [c|c|c|[r|err]]; simpl; [apply admitted_mono| |apply cleared_mono| |done].
  - intros [? ?]. auto using admitted_mono, elem_of_mono.
  - intros (j & c & input & at_ & ? & ? & ?). exists j, c, input, at_. auto using earned_mono, submissions_mono.
Qed.

Lemma submissions_last events input at_ : submissions (events ++ [submit input at_]) !! length (submissions events) = Some (input, at_).
Proof. unfold submissions. rewrite omap_app. simpl. by apply list_lookup_middle. Qed.

Lemma start_submit_ok events g input at_ :
  traced events g -> call_ok (events ++ [submit input at_]) (length (submissions events)) (start_submit (commands g) input at_).
Proof.
  intros [_ _ _ Hcs]. unfold start_submit. destruct (marketplaceCommand input) eqn:Hv; simpl; [|done].
  destruct (map_get _ _) as [[fp r]|] eqn:Hg.
  - destruct (String.eqb_spec fp (fingerprint input)) as [Hfp|Hfp]; simpl; [|done].
    apply Hcs in Hg as (j & c & Hr & Hf & Hid). exists j, c, input, at_. split; [by apply earned_mono|].
    split; [apply submissions_last|]. split; [done|congruence].
  - destruct (Z.ltb_spec at_ (issued_at input)); simpl; [done|]. destruct (Z.leb_spec (expires_at input) at_); simpl; [done|].
    split; [done|]. exists at_. split; [apply submissions_last|lia].
Qed.

Lemma elem_of_last {A} (l : list A) x : x ∈ l ++ [x].
Proof. apply elem_of_app. right. constructor. Qed.

(** An answer that a call awaited: what is known of the events before holds after it. *)
Lemma submissions_answer events e : submission e = None -> submissions (events ++ [e]) = submissions events.
Proof. intros He. unfold submissions. rewrite omap_app. simpl. by rewrite He, app_nil_r. Qed.

Lemma executed_mono events e g i p :
  (exists owners, NoDup owners /\ Forall2 (cleared events) owners (executed g) /\
     forall j q, j ∈ owners -> calls g !! j = Some q -> past_execute q) ->
  (forall q, calls g !! i = Some q -> past_execute q -> past_execute p) ->
  exists owners, NoDup owners /\ Forall2 (cleared (events ++ [e])) owners (executed g) /\
    forall j q, j ∈ owners -> <[i:=p]> (calls g) !! j = Some q -> past_execute q.
Proof.
  intros (owners & Hnd & Hall & Hpast) Hp. exists owners. split; [done|]. split.
  - eapply Forall2_impl; [exact Hall|]. intros j c. apply cleared_mono.
  - intros j q Hj [(<- & <- & Hlt)|[_ Hq]]%list_lookup_insert_Some; [|by eapply Hpast].
    apply lookup_lt_is_Some in Hlt as [q Hq]. eapply Hp; [exact Hq|by eapply Hpast].
Qed.

(** A call that goes on, in a gateway that is otherwise the same. *)
Lemma traced_set_call events g i q p e :
  traced events g -> submission e = None -> calls g !! i = Some q -> (past_execute q -> past_execute p) ->
  call_ok (events ++ [e]) i p -> traced (events ++ [e]) (set_call i p g).
Proof.
  intros [Hlen Hcalls Hx Hcs] He Hq Hpast Hp. split; simpl.
  - by rewrite length_insert, submissions_answer.
  - intros j x Hj. apply list_lookup_insert_Some in Hj as [(<- & <- & _)|[_ Hj]]; [done|]. by apply call_ok_mono, Hcalls.
  - apply executed_mono; [done|]. intros q' Hq'. simplify_eq. done.
  - intros id fp r (j & c & ? & ?)%Hcs. exists j, c. auto using earned_mono.
Qed.

Lemma traced_submit events g input at_ : traced events g -> traced (events ++ [submit input at_]) (step g (submit input at_)).
Proof.
  intros Ht. pose proof Ht as [Hlen Hcalls (owners & Hnd & Hall & Hpast) Hcs]. split; simpl.
  - unfold submissions in *. rewrite omap_app, !length_app. simpl. lia.
  - intros i p [Hi|(Hle & Hi)]%lookup_app_Some; [by apply call_ok_mono, Hcalls|]. pose proof (lookup_lt_Some _ _ _ Hi) as Hlt.
    apply list_lookup_singleton_Some in Hi as [Hi <-]. assert (i = length (submissions events)) as -> by lia. by apply start_submit_ok.
  - exists owners. split; [done|]. split; [eapply Forall2_impl; [exact Hall|]; intros j c; apply cleared_mono|].
    intros i p Hi Hp. destruct (list_elem_of_lookup_1 _ _ Hi) as [k Hk].
    destruct (Forall2_lookup_l _ _ _ _ _ Hall Hk) as (c & _ & [_ (at' & Hs & _) _ _]). apply lookup_lt_Some in Hs.
    rewrite lookup_app_l in Hp by (by rewrite Hlen). by eapply Hpast.
  - intros id fp r (j & c & ? & ?)%Hcs. exists j, c. auto using earned_mono.
Qed.

Lemma traced_policed events g i c :
  traced events g -> calls g !! i = Some (validating c) ->
  traced (events ++ [policed i (Ok true)]) (step g (policed i (Ok true))).
Proof.
  intros [Hlen Hcalls (owners & Hnd & Hall & Hpast) Hcs] Hc. simpl. rewrite Hc. simpl.
  destruct (Hcalls _ _ Hc) as [(Hv & at_ & Hs & Hat) Hver].
  assert (cleared (events ++ [policed i (Ok true)]) i c) as Hcl.
  { split; auto using elem_of_last, elem_of_mono. exists at_. auto using submissions_mono. }
  split; simpl.
  - by rewrite length_insert, submissions_answer.
  - intros j q Hj. apply list_lookup_insert_Some in Hj as [(<- & <- & _)|[_ Hj]]; [done|]. by apply call_ok_mono, Hcalls.
  - exists (owners ++ [i]). split; [|split].
    + apply NoDup_app. split; [done|]. split; [|apply NoDup_singleton]. intros j Hj ->%list_elem_of_singleton.
      by apply (Hpast i (validating c)).
    + apply Forall2_app; [|by constructor]. eapply Forall2_impl; [exact Hall|]. intros j d. apply cleared_mono.
    + intros j q Hj Hq. apply list_lookup_insert_Some in Hq as [(<- & <- & _)|[Hne Hq]]; [done|].
      apply elem_of_app in Hj as [Hj|Hj%list_elem_of_singleton]; [by eapply Hpast|by destruct Hne].
  - intros id fp r (j & d & ? & ?)%Hcs. exists j, d. auto using earned_mono.
Qed.

Lemma traced_step events g e : traced events g -> awaited g e -> traced (events ++ [e]) (step g e).
Proof.
  intros Ht. pose proof Ht as [Hlen Hcalls Hx Hcs].
  destruct e as [input at_|i answer|i answer|i answer]; simpl; [by intros _; apply traced_submit|..]; intros (c & Hc).
  - rewrite Hc. eapply traced_set_call; [done|done|exact Hc|done|]. apply Hcalls in Hc.
    destruct answer as [[]|]; simpl; try done. split; [by apply admitted_mono|apply elem_of_last].
  - destruct answer as [[]|]; [by eapply traced_policed|..]; rewrite Hc; simpl; rewrite app_nil_r;
      by apply (traced_set_call events g i (validating c)).
  - rewrite Hc. destruct answer as [hash|]; simpl; [|by apply (traced_set_call events g i (executing c))].
    destruct (is_hash hash) eqn:Hh; [|by apply (traced_set_call events g i (executing c))].
    pose proof (Hcalls _ _ Hc) as Hcl. pose proof Hcl as [_ (at_ & Hs & _) _ _].
    assert (earned (events ++ [submitted i (Ok hash)]) i c (mkCommandResult (command_id c) hash)) as Hr.
    { split_and!; try done; [by apply cleared_mono|apply elem_of_last]. }
    destruct (traced_set_call events g i (executing c) (returned (Ok (mkCommandResult (command_id c) hash))) (submitted i (Ok hash)))
      as [H1 H2 H3 H4]; [done|done|done|done| |].
    { exists i, c, c, at_. split; [done|]. split; [by apply submissions_mono|done]. }
    split; [exact H1|exact H2|exact H3|]. simpl in *.
    intros id fp r. rewrite map_get_set. case_match; [|apply H4]. intros [= <- <-]. by exists i, c.
Qed.

Lemma traced_run events g : reach events g -> traced events g.
Proof.
  induction 1 as [|events g e _ IH Ha]; [|by apply traced_step]. split; simpl; [done|done| |done].
  exists []. split; [constructor|]. split; [constructor|done].
Qed.

(** Commands of one identifier and fingerprint are one, or their texts collide. *)
Lemma fingerprint_same c d :
  fingerprint c = fingerprint d -> norm c = norm d \/ collides (canonicalJsonBytes c) (canonicalJsonBytes d).
Proof.
  intros Heq%to_base64url_inj. destruct (bool_decide_reflect (canonicalJsonBytes c = canonicalJsonBytes d)) as [He|He];
    [left; by apply canonicalJsonBytes_inj|by right].
Qed.

(** C20. The gateway executes only what it was shown to be allowed. The commands handed to
    [execute] are, in order, commands of different calls: each is the schema-valid command
    that its own call submitted, within its window, and that the verification and the
    policy asked by that very call accepted. Every result it returns or keeps was earned:
    some call executed a command in this way, and the result has the identifier of that
    command and the well-formed transaction hash that this execution gave; a call is given
    a result only for a command with that identifier and content (unless the texts of the
    two commands collide). This holds however the calls interleave. *)
Theorem gateway_safety events g :
  reach events g ->
  (exists owners, NoDup owners /\ Forall2 (cleared events) owners (executed g)) /\
  (forall i r, calls g !! i = Some (returned (Ok r)) ->
     exists j c input at_, earned events j c r /\ submissions events !! i = Some (input, at_) /\ command_id input = command_id c /\
       (norm input = norm c \/ collides (canonicalJsonBytes input) (canonicalJsonBytes c))) /\
  (forall id r, result_of (commands g) id = Ok r -> exists j c, earned events j c r /\ command_id c = id).
Proof.
  intros [_ Hcalls (owners & Hnd & Hall & _) Hcs]%traced_run. split_and!.
  - by exists owners.
  - intros i r (j & c & input & at_ & Hr & Hi & Hid & Hf)%Hcalls. exists j, c, input, at_.
    split_and!; try done. by apply fingerprint_same.
  - unfold result_of. intros id r Hr%defined_Ok. apply fmap_Some in Hr as ([fp r'] & Hr & ->).
    apply Hcs in Hr as (j & c & Hr & _ & Hid). by exists j, c.
Qed.

(** ** One call at a time for a command *)

Record lone (g : Gateway) : Prop := {
  lo_distinct i j p q c d : calls g !! i = Some p -> calls g !! j = Some q -> pending p = Some c -> pending q = Some d ->
    command_id c = command_id d -> i = j;
  lo_fresh i p c : calls g !! i = Some p -> pending p = Some c -> map_get (command_id c) (commands g) = None;
  lo_results i r : calls g !! i = Some (returned (Ok r)) -> exists fp, map_get (commandId r) (commands g) = Some (fp, r);
  lo_filed id fp r : map_get id (commands g) = Some (fp, r) -> commandId r = id
}.

Lemma lone_forward g i p p' :
  lone g -> calls g !! i = Some p -> (pending p' = pending p \/ pending p' = None) ->
  (forall r, p' = returned (Ok r) -> exists fp, map_get (commandId r) (commands g) = Some (fp, r)) -> lone (set_call i p' g).
Proof.
  intros [Hd Hf Hr Hid] Hi Hp Hres.
  assert (forall j q, <[i:=p']> (calls g) !! j = Some q -> exists q', calls g !! j = Some q' /\
            forall c, pending q = Some c -> pending q' = Some c) as Hold.
  { intros j q [(<- & <- & _)|[_ Hj]]%list_lookup_insert_Some; [|by exists q]. exists p. split; [done|].
    intros c Hc. destruct Hp as [Hp|Hp]; congruence. }
  split; simpl; [| | |exact Hid].
  - intros a b q q' c d Ha Hb Hc Hd'. apply Hold in Ha as (qa & Ha & Hca). apply Hold in Hb as (qb & Hb & Hcb). eauto.
  - intros j q c Hj Hc. apply Hold in Hj as (q' & Hj & Hq). eauto.
  - intros j r [(<- & Heq & _)|[_ Hj]]%list_lookup_insert_Some; [by apply Hres|by eapply Hr].
Qed.

Lemma lone_ext g g' : calls g' = calls g -> commands g' = commands g -> lone g -> lone g'.
Proof. intros Hc Hs [Hd Hf Hr Hid]. split; rewrite ?Hc, ?Hs; assumption. Qed.

Lemma start_submit_cases cs input at_ :
  (exists c, pending (start_submit cs input at_) = Some c /\ c = input /\ map_get (command_id input) cs = None) \/
  (pending (start_submit cs input at_) = None /\
   forall r, start_submit cs input at_ = returned (Ok r) -> exists fp, map_get (command_id input) cs = Some (fp, r)).
Proof.
  unfold start_submit. destruct (marketplaceCommand input); simpl; [|by right].
  destruct (map_get _ _) as [[fp r]|] eqn:Hg.
  - right. case_match; (split; [done|]; intros r' Heq; simplify_eq; by eexists).
  - case_match; [by right|]. left. by exists input.
Qed.

Lemma lone_submit g input at_ : lone g -> alone g (submit input at_) -> lone (step g (submit input at_)).
Proof.
  intros [Hd Hf Hr Hid] Ha. simpl in *. split; simpl; [| | |exact Hid].
  - intros i j p q c d [Hi|[Hi Hp]]%lookup_app_Some [Hj|[Hj Hq]]%lookup_app_Some Hc Hd' Heq.
    + eauto.
    + apply list_lookup_singleton_Some in Hq as [_ <-].
      destruct (start_submit_cases (commands g) input at_) as [(x & Hx & -> & _)|[Hn _]]; [|congruence].
      assert (d = input) as -> by congruence. by destruct (Ha i p c).
    + apply list_lookup_singleton_Some in Hp as [_ <-].
      destruct (start_submit_cases (commands g) input at_) as [(x & Hx & -> & _)|[Hn _]]; [|congruence].
      assert (c = input) as -> by congruence. by destruct (Ha j q d).
    + apply list_lookup_singleton_Some in Hp as [? _], Hq as [? _]. lia.
  - intros i p c [Hi|[Hi Hp]]%lookup_app_Some Hc; [eauto|]. apply list_lookup_singleton_Some in Hp as [_ <-].
    destruct (start_submit_cases (commands g) input at_) as [(x & Hx & -> & Hg)|[Hn _]]; congruence.
  - intros i r [Hi|[Hi Hp]]%lookup_app_Some; [eauto|]. apply list_lookup_singleton_Some in Hp as [_ Hp].
    destruct (start_submit_cases (commands g) input at_) as [(x & Hx & _)|[_ Hs]]; [by rewrite Hp in Hx|].
    destruct (Hs r Hp) as [fp Hg]. exists fp. by rewrite (Hid _ _ _ Hg).
Qed.

Lemma lone_execute g i c hash :
  lone g -> calls g !! i = Some (executing c) -> is_hash hash = true -> lone (step g (submitted i (Ok hash))).
Proof.
  intros [Hd Hf Hr Hid] Hi Hh. simpl. rewrite Hi. simpl. rewrite Hh. split; simpl.
  - intros a b p q x y [(<- & <- & _)|[_ Ha]]%list_lookup_insert_Some [(<- & <- & _)|[_ Hb]]%list_lookup_insert_Some Hx Hy;
      try done. eauto.
  - intros j p x [(<- & <- & _)|[Hne Hj]]%list_lookup_insert_Some Hx; [done|]. rewrite map_get_set_ne; [eauto|].
    intros Heq. by apply Hne, (Hd i j (executing c) p c x).
  - intros j r [(<- & Heq & _)|[Hne Hj]]%list_lookup_insert_Some.
    + injection Heq as <-. simpl. rewrite map_get_set_eq. by eexists.
    + destruct (Hr j r Hj) as [fp Hg]. exists fp. rewrite map_get_set_ne; [done|]. intros Heq.
      rewrite Heq, (Hf i (executing c) c Hi eq_refl) in Hg. done.
  - intros id fp r. rewrite map_get_set. case_match eqn:Heq; [|apply Hid]. intros [= <- <-]. simpl. by subst.
Qed.

Lemma lone_step g e : lone g -> awaited g e -> alone g e -> lone (step g e).
Proof.
  intros Hl. destruct e as [input at_|i answer|i answer|i [hash|e]]; [by intros _; apply lone_submit| | | |]; simpl;
    intros (c & Hc) _; rewrite Hc.
  - apply (lone_forward g i (verifying c)); [done..| |]; destruct answer as [[]|]; simpl; auto; done.
  - eapply (lone_ext (set_call i (after_policy c answer) g)); [done..|].
    apply (lone_forward g i (validating c)); [done..| |]; destruct answer as [[]|]; simpl; auto; done.
  - destruct (is_hash hash) eqn:Hh; simpl; [|apply (lone_forward g i (executing c)); auto; done].
    pose proof (lone_execute g i c hash Hl Hc Hh) as Hs. simpl in Hs. rewrite Hc in Hs. simpl in Hs. by rewrite Hh in Hs.
  - apply (lone_forward g i (executing c)); auto; done.
Qed.

Lemma lone_serial events g : serial events g -> lone g.
Proof. induction 1; [by split|by apply lone_step]. Qed.

Lemma serial_reach events g : serial events g -> reach events g.
Proof. induction 1; by constructor. Qed.

(** C21. Commands are idempotent as long as no two calls for one command overlap: all its
    calls that succeed return one result, the one the gateway keeps. A command that has a
    result is not executed again: the result is that of a command some call executed, and a
    submission under its identifier with the same content returns it, while one with
    another content is refused as a conflict (unless the texts of the two commands
    collide). *)
Theorem gateway_idempotent events g :
  serial events g ->
  (forall i j r r', calls g !! i = Some (returned (Ok r)) -> calls g !! j = Some (returned (Ok r')) ->
     commandId r = commandId r' -> r = r' /\ result_of (commands g) (commandId r) = Ok r) /\
  (forall input at_ r, marketplaceCommand input = true -> result_of (commands g) (command_id input) = Ok r ->
     exists i c, earned events i c r /\ command_id c = command_id input /\
       (norm input = norm c -> start_submit (commands g) input at_ = returned (Ok r)) /\
       (norm input <> norm c -> start_submit (commands g) input at_ = reject gw_conflict \/
          collides (canonicalJsonBytes c) (canonicalJsonBytes input))).
Proof.
  intros Hs. pose proof (lone_serial _ _ Hs) as [_ _ Hr _].
  destruct (traced_run _ _ (serial_reach _ _ Hs)) as [_ _ _ Hcs]. split.
  - intros i j r r' [fp Hi]%Hr [fp' Hj]%Hr Heq. rewrite <- Heq, Hi in Hj. injection Hj as _ <-.
    split; [done|]. unfold result_of. by rewrite Hi.
  - unfold result_of, start_submit. intros input at_ r -> ([fp r'] & Hg & ->)%defined_Ok%fmap_Some.
    destruct (Hcs _ _ _ Hg) as (i & c & He & -> & Hid). exists i, c. split; [done|]. split; [done|]. rewrite Hg. simpl. split.
    + intros Hn%canonicalJsonBytes_inj. unfold fingerprint. by rewrite Hn, String.eqb_refl.
    + intros Hn. destruct (String.eqb_spec (fingerprint c) (fingerprint input)) as [Hf|Hf]; [|by left].
      right. by destruct (fingerprint_same _ _ Hf) as [Hf'|].
Qed.

Fixpoint awaited_all (g : Gateway) (events : list Event) : Prop :=
  match events with
  | [] => True
  | e :: events => awaited g e /\ awaited_all (step g e) events
  end.

Lemma reach_from before g events : reach before g -> awaited_all g events -> reach (before ++ events) (fold_left step events g).
Proof.
  revert before g. induction events as [|e events IH]; simpl; intros before g Hr Ha; [by rewrite app_nil_r|].
  destruct Ha as [He Ha]. rewrite (app_assoc before [e] events : before ++ e :: events = _). apply IH; [by constructor|done].
Qed.

(** Whether a run is serial, decided along it. *)
Definition serial_event (g : Gateway) (e : Event) : bool :=
  match e with
  | submit input _ =>
      forallb (fun p => match pending p with Some c => negb (String.eqb (command_id c) (command_id input)) | None => true end) (calls g)
  | verified i _ => match calls g !! i with Some (verifying _) => true | _ => false end
  | policed i _ => match calls g !! i with Some (validating _) => true | _ => false end
  | submitted i _ => match calls g !! i with Some (executing _) => true | _ => false end
  end.

Fixpoint serial_events (g : Gateway) (events : list Event) : bool :=
  match events with
  | [] => true
  | e :: events => serial_event g e && serial_events (step g e) events
  end.

Lemma serial_event_true g e : serial_event g e = true -> awaited g e /\ alone g e.
Proof.
  destruct e; simpl; try (case_match; [|done]; case_match; try done; intros _; split; [by eexists|done]).
  intros Hf. split; [done|]. intros i p c Hi Hp Heq. rewrite forallb_forall in Hf.
  assert (In p (calls g)) as Hin by by apply list_elem_of_In, (list_elem_of_lookup_2 _ i). apply Hf in Hin.
  rewrite Hp, Heq, String.eqb_refl in Hin. done.
Qed.

Lemma serial_run before g events :
  serial before g -> serial_events g events = true -> serial (before ++ events) (fold_left step events g).
Proof.
  revert before g. induction events as [|e events IH]; simpl; intros before g Hs; [by rewrite app_nil_r|].
  intros [[? ?]%serial_event_true Hr]%andb_true_iff.
  rewrite (app_assoc before [e] events : before ++ e :: events = _). apply IH; [by constructor|done].
Qed.

Lemma serial_awaited g events : serial_events g events = true -> awaited_all g events.
Proof.
  revert g. induction events as [|e events IH]; simpl; intros g; [done|]. intros [[? ?]%serial_event_true Hr]%andb_true_iff. auto.
Qed.

Lemma reach_to events g e g' : reach events g -> awaited g e -> step g e = g' -> reach (events ++ [e]) g'.
Proof. intros Hr Ha <-. by constructor. Qed.

(** Two calls that overlap. *)
Definition overlapping (c : MarketplaceCommand) (at_ : Z) (first second : string) : list Event :=
  [submit c at_; submit c at_; verified 0 (Ok true); verified 1 (Ok true); policed 0 (Ok true); policed 1 (Ok true);
   submitted 0 (Ok first); submitted 1 (Ok second)].

(** Idempotency is lost when two calls for one command overlap: [submit] looks for an
    earlier result before it awaits the verification, and files its own only after the
    execution. The same command, submitted twice at once, is executed twice, both calls
    succeed with their own transaction, and only the last one is kept. *)
Theorem overlapping_calls_execute_twice c at_ first second :
  marketplaceCommand c = true -> (issued_at c <= at_ < expires_at c)%Z -> is_hash first = true -> is_hash second = true ->
  exists g, reach (overlapping c at_ first second) g /\ executed g = [c; c] /\
    calls g = [returned (Ok (mkCommandResult (command_id c) first)); returned (Ok (mkCommandResult (command_id c) second))] /\
    result_of (commands g) (command_id c) = Ok (mkCommandResult (command_id c) second).
Proof.
  intros Hv Hat H1 H2.
  assert (start_submit [] c at_ = verifying c) as Hs.
  { unfold start_submit. rewrite Hv. simpl. destruct (Z.ltb_spec at_ (issued_at c)); [lia|].
    destruct (Z.leb_spec (expires_at c) at_); [lia|done]. }
  pose proof (reach_to [] new_gateway (submit c at_) (mkGateway [] [verifying c] []) reach_new I ltac:(simpl; by rewrite Hs)) as R.
  eapply (reach_to _ _ (submit c at_) (mkGateway [] [verifying c; verifying c] [])) in R; [|exact I|simpl; by rewrite Hs].
  eapply (reach_to _ _ (verified 0 (Ok true)) (mkGateway [] [validating c; verifying c] [])) in R; [|by eexists|reflexivity].
  eapply (reach_to _ _ (verified 1 (Ok true)) (mkGateway [] [validating c; validating c] [])) in R; [|by eexists|reflexivity].
  eapply (reach_to _ _ (policed 0 (Ok true)) (mkGateway [] [executing c; validating c] [c])) in R; [|by eexists|reflexivity].
  eapply (reach_to _ _ (policed 1 (Ok true)) (mkGateway [] [executing c; executing c] [c; c])) in R; [|by eexists|reflexivity].
  pose (result hash := mkCommandResult (command_id c) hash).
  eapply (reach_to _ _ (submitted 0 (Ok first))
    (mkGateway [(command_id c, (fingerprint c, result first))] [returned (Ok (result first)); executing c] [c; c])) in R;
    [|by eexists|simpl; by rewrite H1].
  eapply (reach_to _ _ (submitted 1 (Ok second)) (mkGateway [(command_id c, (fingerprint c, result second))]
    [returned (Ok (result first)); returned (Ok (result second))] [c; c])) in R;
    [|by eexists|simpl; rewrite H2; simpl; by rewrite decide_True].
  eexists. split; [exact R|]. split; [done|]. split; [done|]. unfold result_of. simpl. by rewrite decide_True.
Qed.

End Gateway.
Arguments SubmitError : clear implicits.
Arguments Call : clear implicits.
Arguments Gateway : clear implicits.
Arguments Event : clear implicits.

(** ** Concrete calls *)

Module GatewaySample.

Definition id (kind : string) : string := ("urn:evllm:" +:+ kind +:+ ":00000000-0000-4000-8000-000000000001")%string.
Definition hex_ (n : nat) (c : ascii) : string := ("0x" +:+ string_of_list_ascii (repeat c n))%string.

Definition command : MarketplaceCommand :=
  JObj [("schema", JStr "EVLLM_MARKETPLACE_COMMAND_V1"); ("command_id", JStr (id "command")); ("kind", JStr "settle");
        ("signer_actor_id", JStr (id "actor")); ("signer_organization_id", JStr (id "org"));
        ("signer_credential_id", JStr (id "credential")); ("signer_address", JStr (hex_ 40 "1"%char));
        ("issued_at", JNum 10); ("expires_at", JNum 20); ("nonce", JStr (hex_ 64 "1"%char));
        ("idempotency_key_hash", JStr (hex_ 64 "2"%char)); ("payload", JObj []); ("signature", JStr (hex_ 130 "3"%char))]%string.

Definition events : list (Event unit) :=
  [submit command 10; verified 0 (Ok true); policed 0 (Ok true); submitted 0 (Ok (hex_ 64 "a"%char)); submit command 30].

Definition result_ : MarketplaceCommandResult := mkCommandResult (id "command") (hex_ 64 "a"%char).

Definition final : Gateway unit := Eval vm_compute in run_gateway events.

End GatewaySample.

Lemma gateway_safety_witness :
  reach GatewaySample.events GatewaySample.final /\ executed GatewaySample.final = [GatewaySample.command] /\
  exists owners, NoDup owners /\ Forall2 (cleared GatewaySample.events) owners [GatewaySample.command].
Proof.
  assert (reach GatewaySample.events GatewaySample.final) as Hr.
  { assert (run_gateway GatewaySample.events = GatewaySample.final) as Hf by (vm_compute; reflexivity). rewrite <- Hf.
    apply (reach_from [] new_gateway GatewaySample.events); [constructor|apply serial_awaited; vm_compute; reflexivity]. }
  split; [exact Hr|]. split; [vm_compute; reflexivity|].
  destruct (gateway_safety GatewaySample.events GatewaySample.final Hr) as [Hx _].
  assert (executed GatewaySample.final = [GatewaySample.command]) as <- by (vm_compute; reflexivity). exact Hx.
Defined.

Lemma gateway_idempotent_witness :
  serial GatewaySample.events GatewaySample.final /\
  calls GatewaySample.final = [returned (Ok GatewaySample.result_); returned (Ok GatewaySample.result_)] /\
  result_of (commands GatewaySample.final) (commandId GatewaySample.result_) = Ok GatewaySample.result_.
Proof.
  assert (serial GatewaySample.events GatewaySample.final) as Hs.
  { assert (run_gateway GatewaySample.events = GatewaySample.final) as Hf by (vm_compute; reflexivity). rewrite <- Hf.
    apply (serial_run [] new_gateway GatewaySample.events); [constructor|vm_compute; reflexivity]. }
  assert (calls GatewaySample.final = [returned (Ok GatewaySample.result_); returned (Ok GatewaySample.result_)]) as Hc
    by (vm_compute; reflexivity).
  split; [exact Hs|]. split; [exact Hc|].
  destruct (gateway_idempotent GatewaySample.events GatewaySample.final Hs) as [Hr _].
  destruct (Hr 0%nat 1%nat GatewaySample.result_ GatewaySample.result_) as [_ Hk]; [rewrite Hc; reflexivity..|reflexivity|].
  exact Hk.
Defined.

Lemma overlapping_calls_execute_twice_witness :
  exists g : Gateway unit, executed g = [GatewaySample.command; GatewaySample.command].
Proof.
  destruct (overlapping_calls_execute_twice (Error_ := unit) GatewaySample.command 10
    (GatewaySample.hex_ 64 "a"%char) (GatewaySample.hex_ 64 "b"%char)) as (g & _ & Hx & _);
    [vm_compute; reflexivity|split; [vm_compute; discriminate|vm_compute; reflexivity]|vm_compute; reflexivity|vm_compute; reflexivity|].
  exists g. exact Hx.
Defined.
