(* ===== verification/HttpControls.v ===== *)
(** * Operational controls

    [src/src/operations/http-controls.ts]: the rate limit, the request metrics and the
    bounded retry. A request is its address and path; a handler either passes it on or
    answers 429. The clock is the argument of a step; the theorem on the limit wants it
    not to run backwards. *)

From S2P Require Import Prelude Regex Digits Base64 Schemas Storage Json Hex EcmaRegExp Text.

Local Open Scope Z_scope.

(** ** Metrics *)

Section Metrics.
Context `{HL : LocaleCompare}.

Definition Counts := list (string * Z).

Definition label_char (c : ascii) : ascii :=
  if rtest (rx "^[a-zA-Z0-9_.-]$") (String c EmptyString) then c else "_"%char.

(** [value.replaceAll(/[^a-zA-Z0-9_.-]/gu, "_")] *)
Definition label_value (value : string) : string := string_of_list_ascii (label_char <$> list_ascii_of_string value).

Definition label_text (label : string * string) : string :=
  (label.1 +:+ "=" +:+ String "034"%char (label_value label.2 +:+ String "034"%char EmptyString))%string.

Definition series (metric : string) (labels : list (string * string)) : string :=
  let suffix := join "," (label_text <$> js_sort (fun l r => localeCompare l.1 r.1) labels) in
  if is_empty suffix then metric else (metric +:+ "{" +:+ suffix +:+ "}")%string.

Definition increment (metric : string) (labels : list (string * string)) (counts : Counts) : Counts :=
  let key := series metric labels in map_set key (default 0 (map_get key counts) + 1) counts.

Definition render (counts : Counts) : string :=
  join (String "010" EmptyString)
    ((fun p => (p.1 +:+ " " +:+ number_to_string p.2)%string) <$> js_sort (fun l r => localeCompare l.1 r.1) counts).

(** What [requestMetrics] adds when a response is finished, [elapsed] milliseconds after
    the request came *)
Definition request_finished (method_ : string) (statusCode elapsed : Z) (counts : Counts) : Counts :=
  let counts := increment "evllm_http_requests_total" [("method", method_); ("status", number_to_string statusCode)]%string counts in
  if 5000 <=? elapsed then increment "evllm_http_slow_total" [] counts else counts.
End Metrics.

(** ** The rate limit *)

Record RateLimitOptions := mkRateLimit {
  rl_limit : Z;
  rl_windowMs : Z;
  rl_maxBuckets : option Z;
  rl_cleanupEvery : option Z
}.

Definition positiveInteger (value : Z) (name : string) : result exn Z :=
  _ ← require (isSafeInteger value && (0 <? value)) (Error (name +:+ " must be positive")); Ok value.

Record Bucket := mkBucket { bk_count : Z; bk_resetAt : Z }.
Notation Buckets := (list (string * Bucket)).

Record Limiter := mkLimiter {
  lm_limit : Z;
  lm_windowMs : Z;
  lm_maxBuckets : Z;
  lm_cleanupEvery : Z;
  buckets : Buckets;
  requestCount : Z
}.

(** [rateLimit(options)] *)
Definition rateLimit (o : RateLimitOptions) : result exn Limiter :=
  maxBuckets ← positiveInteger (default 10000 (rl_maxBuckets o)) "rate-limit bucket capacity";
  cleanupEvery ← positiveInteger (default 256 (rl_cleanupEvery o)) "rate-limit cleanup interval";
  _ ← positiveInteger (rl_limit o) "rate limit";
  _ ← positiveInteger (rl_windowMs o) "rate-limit window";
  Ok (mkLimiter (rl_limit o) (rl_windowMs o) maxBuckets cleanupEvery [] 0).

Record Request := mkRequest { rq_ip : string; rq_path : string }.

Definition bucket_key (r : Request) : string :=
  (rq_ip r +:+ ":" +:+ (if startsWith "/api/v1/auth" (rq_path r) then "auth" else "api"))%string.

Definition removeExpiredBuckets (bs : Buckets) (currentTime : Z) : Buckets :=
  filter (fun p => negb (bk_resetAt p.2 <=? currentTime) = true) bs.

(** [Math.min] of the resets: [Infinity], here [None], of none. *)
Definition earliest_reset (bs : Buckets) : option Z :=
  match bk_resetAt ∘ snd <$> bs with
  | [] => None
  | t :: ts => Some (fold_left Z.min ts t)
  end.

(** What the handler answers: [next()] with the remaining requests in a header, or 429 with
    the seconds to wait. *)
Inductive Answer := passed (remaining : Z) | limited (retry_after : Z).

(** [Math.ceil(milliseconds / 1000)] *)
Definition seconds_up (milliseconds : Z) : Z := - (- milliseconds / 1000).

Definition rejectRateLimited (resetAt currentTime : Z) : Answer := limited (Z.max 1 (seconds_up (resetAt - currentTime))).

Definition with_buckets (bs : Buckets) (l : Limiter) : Limiter :=
  mkLimiter (lm_limit l) (lm_windowMs l) (lm_maxBuckets l) (lm_cleanupEvery l) bs (requestCount l + 1).

(** Counting the request in its bucket *)
Definition count_request (l : Limiter) (bs : Buckets) (key : string) (time : Z) : Limiter * Answer :=
  let bucket :=
    match map_get key bs with
    | Some b => if bk_resetAt b <=? time then mkBucket 0 (time + lm_windowMs l) else b
    | None => mkBucket 0 (time + lm_windowMs l)
    end in
  let bucket := mkBucket (bk_count bucket + 1) (bk_resetAt bucket) in
  (with_buckets (map_set key bucket bs) l,
   if lm_limit l <? bk_count bucket then rejectRateLimited (bk_resetAt bucket) time
   else passed (Z.max 0 (lm_limit l - bk_count bucket))).

(** The handler *)
Definition handle (l : Limiter) (request : Request) (time : Z) : Limiter * Answer :=
  let key := bucket_key request in
  let bs := if (requestCount l + 1) mod lm_cleanupEvery l =? 0 then removeExpiredBuckets (buckets l) time else buckets l in
  if negb (map_has key bs) && (lm_maxBuckets l <=? map_size bs) then
    let bs := removeExpiredBuckets bs time in
    if lm_maxBuckets l <=? map_size bs
    then (with_buckets bs l,
          rejectRateLimited (match earliest_reset bs with Some t => Z.max (time + 1000) t | None => time + 1000 end) time)
    else count_request l bs key time
  else count_request l bs key time.

(** A run of the limiter, with the answers it gave: the key, the time and the answer. *)
Notation Log := (list (string * Z * Answer)).

Definition handle_one (state : Limiter * Log) (request : Request * Z) : Limiter * Log :=
  let '(l, log) := state in
  let '(r, t) := request in
  let '(l, a) := handle l r t in (l, log ++ [(bucket_key r, t, a)]).

Definition handle_all (l : Limiter) (requests : list (Request * Z)) : Limiter * Log := fold_left handle_one requests (l, []).

(** ** Bounded retries *)

(** [retryTransient]: the result, with the delays waited for. Without attempts it throws
    [undefined], here [None]. *)
Fixpoint retry_from {E T} (operation : Z -> result E T) (attempts baseDelayMs : Z) (left_ : nat) (attempt : Z)
    (lastError : option E) : result (option E) T * list Z :=
  match left_ with
  | O => (Throw lastError, [])
  | S left_ =>
      match operation attempt with
      | Ok v => (Ok v, [])
      | Throw e =>
          if attempt =? attempts then (Throw (Some e), [])
          else
            let '(r, delays) := retry_from operation attempts baseDelayMs left_ (attempt + 1) (Some e) in
            (r, baseDelayMs * attempt :: delays)
      end
  end.

Definition retryTransient {E T} (operation : Z -> result E T) (attempts baseDelayMs : Z) : result (option E) T * list Z :=
  retry_from operation attempts baseDelayMs (Z.to_nat attempts) 1 None.

(** * Facts *)

(** ** What a step does to the buckets *)

(** Buckets without some that have expired. *)
Definition cleaned (t : Z) (bs bs' : Buckets) : Prop :=
  forall k, map_get k bs' = map_get k bs \/
    (map_get k bs' = None /\ exists b, map_get k bs = Some b /\ bk_resetAt b <= t).

Lemma cleaned_refl t bs : cleaned t bs bs.
Proof. intros k. by left. Qed.

Lemma cleaned_trans t bs bs' bs'' : cleaned t bs bs' -> cleaned t bs' bs'' -> cleaned t bs bs''.
Proof.
  intros H1 H2 k. destruct (H2 k) as [->|(-> & b & Hb & Ht)]; [apply H1|]. right. split; [done|].
  exists b. split; [|done]. destruct (H1 k) as [Heq|(Heq & _)]; congruence.
Qed.

Lemma removeExpired_cons k b bs t :
  removeExpiredBuckets ((k, b) :: bs) t =
    if bk_resetAt b <=? t then removeExpiredBuckets bs t else (k, b) :: removeExpiredBuckets bs t.
Proof. unfold removeExpiredBuckets. rewrite filter_cons. simpl. by destruct (bk_resetAt b <=? t). Qed.

Lemma removeExpired_sublist bs t : removeExpiredBuckets bs t `sublist_of` bs.
Proof. apply sublist_filter. Qed.

Lemma removeExpired_cleaned t bs : map_ok bs ->
  cleaned t bs (removeExpiredBuckets bs t) /\ map_ok (removeExpiredBuckets bs t) /\
  map_size (removeExpiredBuckets bs t) <= map_size bs.
Proof.
  intros Hok. split_and!.
  - intros k. induction bs as [|[k0 b] bs IH]; [by left|]. rewrite removeExpired_cons.
    unfold map_ok in Hok. csimpl in Hok. apply NoDup_cons in Hok as [Hk0 Hok]. specialize (IH Hok).
    destruct (Z.leb_spec (bk_resetAt b) t) as [Ht|Ht]; csimpl.
    + case_decide as Hk; [subst|exact IH]. right. split; [|by exists b]. apply map_get_None.
      intros Hin. apply Hk0. apply list_elem_of_fmap in Hin as (p & -> & Hp).
      apply list_elem_of_fmap. exists p. split; [done|]. by eapply elem_of_sublist, removeExpired_sublist.
    + case_decide; [by left|exact IH].
  - unfold map_ok in *. eapply sublist_NoDup; [exact Hok|]. apply fmap_sublist, removeExpired_sublist.
  - unfold map_size. pose proof (sublist_length _ _ (removeExpired_sublist bs t)). lia.
Qed.

(** The two ways a request goes: it is turned away by a full table, or counted. *)
Lemma handle_cases l r t l' a :
  map_ok (buckets l) -> handle l r t = (l', a) ->
  exists bs, cleaned t (buckets l) bs /\ map_ok bs /\ map_size bs <= map_size (buckets l) /\
    ((exists s, a = limited s /\ l' = with_buckets bs l) \/
     ((map_has (bucket_key r) bs = true \/ map_size bs < lm_maxBuckets l) /\ (l', a) = count_request l bs (bucket_key r) t)).
Proof.
  unfold handle. intros Hok.
  set (bs0 := if _ =? 0 then removeExpiredBuckets (buckets l) t else buckets l).
  assert (cleaned t (buckets l) bs0 /\ map_ok bs0 /\ map_size bs0 <= map_size (buckets l)) as (Hc & Hok0 & Hsz).
  { unfold bs0. case_match; [by apply removeExpired_cleaned|]. split_and!; [apply cleaned_refl|done|done]. }
  clearbody bs0. destruct (removeExpired_cleaned t bs0 Hok0) as (Hc' & Hok' & Hsz').
  destruct (map_has (bucket_key r) bs0) eqn:Hh; simpl; [intros <-; exists bs0; auto 10|].
  destruct (Z.leb_spec (lm_maxBuckets l) (map_size bs0)); [|intros <-; exists bs0; auto 10].
  pose proof (cleaned_trans _ _ _ _ Hc Hc').
  destruct (Z.leb_spec (lm_maxBuckets l) (map_size (removeExpiredBuckets bs0 t))); [intros [= <- <-]|intros <-];
    exists (removeExpiredBuckets bs0 t); (split_and!; [done|done|lia|]); [left; by eexists|right; auto].
Qed.

(** ** How many requests pass *)

(** The requests of a key that passed at a time of which [p] holds *)
Definition passes (log : Log) (k : string) (p : Z -> bool) : Z :=
  Z.of_nat (length (filter (fun e : string * Z * Answer =>
    String.eqb e.1.1 k && p e.1.2 && match e.2 with passed _ => true | limited _ => false end = true) log)).

Definition since (a t : Z) : bool := a <=? t.
Definition within (a b t : Z) : bool := (a <=? t) && (t <? b).

Lemma passes_snoc log k p k' t a :
  passes (log ++ [(k', t, a)]) k p =
    passes log k p + if String.eqb k' k && p t && match a with passed _ => true | limited _ => false end then 1 else 0.
Proof.
  unfold passes. rewrite filter_app, length_app, filter_cons, filter_nil. simpl. case_decide as H.
  - rewrite H. simpl. lia.
  - apply not_true_is_false in H. rewrite H. simpl. lia.
Qed.

Lemma passes_nonneg log k p : 0 <= passes log k p.
Proof. unfold passes. lia. Qed.

Lemma passes_cover log k p q r :
  (forall t, p t = true -> q t = true \/ r t = true) -> passes log k p <= passes log k q + passes log k r.
Proof.
  intros Hpqr. induction log as [|[[k' t] a] log IH] using rev_ind; [done|]. rewrite !passes_snoc.
  destruct (String.eqb k' k); simpl; [|lia]. destruct (p t) eqn:Hp; simpl; [|repeat case_match; lia].
  destruct (Hpqr t Hp) as [-> | ->]; simpl; repeat case_match; lia.
Qed.

Lemma passes_le log k p q : (forall t, p t = true -> q t = true) -> passes log k p <= passes log k q.
Proof.
  intros Hpq. induction log as [|[[k' t] a] log IH] using rev_ind; [done|]. rewrite !passes_snoc.
  destruct (String.eqb k' k); simpl; [|lia]. destruct (p t) eqn:Hp; simpl; [rewrite (Hpq t Hp); simpl; lia|repeat case_match; lia].
Qed.

(** What holds of a key: [s] is the start of its last window of [w] milliseconds. *)
Record windowed (w limit : Z) (log : Log) (now : Z) (k : string) (b : option Bucket) (s : Z) : Prop := {
  wi_last : passes log k (since s) <= limit;
  wi_before : passes log k (within (s - w) s) <= limit;
  wi_over : passes log k (since (s + w)) = 0;
  wi_any a : passes log k (within a (a + w)) <= 2 * limit;
  wi_bucket : match b with
              | Some b => bk_resetAt b = s + w /\ s <= now /\ passes log k (since s) <= bk_count b
              | None => s + w <= now
              end
}.

Ltac bools :=
  unfold since, within in *; repeat match goal with
  | H : andb _ _ = true |- _ => apply andb_true_iff in H as [? ?]
  | |- andb _ _ = true => apply andb_true_iff; split
  | H : (_ <=? _) = true |- _ => apply Z.leb_le in H
  | H : (_ <? _) = true |- _ => apply Z.ltb_lt in H
  | |- (_ <=? _) = true => apply Z.leb_le
  | |- (_ <? _) = true => apply Z.ltb_lt
  end.

Lemma windowed_later w limit log now now' k b s : now <= now' -> windowed w limit log now k b s -> windowed w limit log now' k b s.
Proof. intros Hn [H1 H2 H3 H4 H5]. split; try done. destruct b; lia. Qed.

(** A log entry that does not count for the key. *)
Lemma windowed_ignore w limit log now k b s k' t a :
  (k' <> k \/ exists n, a = limited n) -> windowed w limit log now k b s -> windowed w limit (log ++ [(k', t, a)]) now k b s.
Proof.
  intros Hig [H1 H2 H3 H4 H5].
  assert (forall p, passes (log ++ [(k', t, a)]) k p = passes log k p) as Hsame.
  { intros p. rewrite passes_snoc. destruct Hig as [Hne|[n ->]].
    - apply String.eqb_neq in Hne. rewrite Hne. simpl. lia.
    - rewrite andb_false_r. lia. }
  split; intros; rewrite ?Hsame; auto.
Qed.

(** A bucket that has expired is as good as none. *)
Lemma windowed_expire w limit log now k b s :
  windowed w limit log now k (Some b) s -> bk_resetAt b <= now -> windowed w limit log now k None s.
Proof. intros [H1 H2 H3 H4 (Hr & _)] Hexp. split; try done. lia. Qed.

(** A window starts at [t]. *)
Lemma windowed_start w limit log now k s c :
  0 < w -> 0 <= limit -> 0 <= c -> windowed w limit log now k None s -> windowed w limit log now k (Some (mkBucket c (now + w))) now.
Proof.
  intros Hw Hl Hc [H1 H2 H3 H4 H5]. pose proof (passes_nonneg log k).
  assert (passes log k (since now) <= 0) as Hz by (rewrite <- H3; apply passes_le; intros; bools; lia).
  split; simpl; try done.
  - lia.
  - transitivity (passes log k (since s)); [|done]. apply passes_le. intros; bools; lia.
  - apply Z.le_antisymm; [|done]. rewrite <- H3. apply passes_le. intros; bools; lia.
  - lia.
Qed.

(** A request that passes in the window it is in. *)
Lemma windowed_pass w limit log now k b s rest :
  0 < w -> windowed w limit log now k (Some b) s -> s <= now < s + w -> bk_count b < limit ->
  windowed w limit (log ++ [(k, now, passed rest)]) now k (Some (mkBucket (bk_count b + 1) (bk_resetAt b))) s.
Proof.
  intros Hw [H1 H2 H3 H4 (Hr & Hs & Hc)] Hnow Hlt.
  assert (forall p, passes (log ++ [(k, now, passed rest)]) k p = passes log k p + if p now then 1 else 0) as Hadd.
  { intros p. by rewrite passes_snoc, String.eqb_refl, andb_true_r. }
  assert (passes (log ++ [(k, now, passed rest)]) k (since s) <= bk_count b + 1) as Hlast by (rewrite Hadd; case_match; lia).
  assert (passes (log ++ [(k, now, passed rest)]) k (within (s - w) s) <= limit) as Hbefore.
  { rewrite Hadd. destruct (within (s - w) s now) eqn:Hin; [bools; lia|lia]. }
  split; simpl.
  - lia.
  - done.
  - rewrite Hadd, H3. destruct (since (s + w) now) eqn:Hin; [bools; lia|done].
  - intros a. destruct (within a (a + w) now) eqn:Hin; [|rewrite Hadd, Hin; specialize (H4 a); lia].
    transitivity (passes (log ++ [(k, now, passed rest)]) k (within (s - w) s) + passes (log ++ [(k, now, passed rest)]) k (since s));
      [|lia]. apply passes_cover. intros u Hu. destruct (Z.le_gt_cases s u); [right|left]; bools; lia.
  - done.
Qed.

(** A request that its bucket refuses still counts there. *)
Lemma windowed_count w limit log now k b s :
  windowed w limit log now k (Some b) s -> windowed w limit log now k (Some (mkBucket (bk_count b + 1) (bk_resetAt b))) s.
Proof. intros [H1 H2 H3 H4 (Hr & Hs & Hc)]. split; simpl; try done. lia. Qed.

Record limiter_ok (limit w maxBuckets : Z) (l : Limiter) (log : Log) (now : Z) : Prop := {
  lk_limit : lm_limit l = limit;
  lk_window : lm_windowMs l = w;
  lk_max : lm_maxBuckets l = maxBuckets;
  lk_map : map_ok (buckets l);
  lk_size : map_size (buckets l) <= maxBuckets;
  lk_windows k : exists s, windowed w limit log now k (map_get k (buckets l)) s
}.

Lemma windowed_cleaned w limit log now bs bs' k :
  cleaned now bs bs' -> (exists s, windowed w limit log now k (map_get k bs) s) ->
  exists s, windowed w limit log now k (map_get k bs') s.
Proof.
  intros Hc (s & Hs). exists s. destruct (Hc k) as [->|(-> & b & Hb & Ht)]; [done|]. rewrite Hb in Hs. by eapply windowed_expire.
Qed.

(** The bucket a request is counted in. *)
Lemma windowed_current w limit log now k ob s :
  0 < w -> 0 <= limit -> windowed w limit log now k ob s ->
  exists s', windowed w limit log now k
    (Some match ob with
          | Some b => if bk_resetAt b <=? now then mkBucket 0 (now + w) else b
          | None => mkBucket 0 (now + w)
          end) s' /\ s' <= now < s' + w.
Proof.
  intros Hw Hl Hs. destruct ob as [b|]; [destruct (Z.leb_spec (bk_resetAt b) now) as [Hexp|Hlive]|].
  - exists now. split; [|lia]. eapply windowed_start; [done|done|done|]. by eapply windowed_expire.
  - exists s. split; [done|]. destruct (wi_bucket _ _ _ _ _ _ _ Hs) as (? & ? & _). lia.
  - exists now. split; [|lia]. by eapply windowed_start.
Qed.

Lemma handle_one_ok limit w maxBuckets l log now r t :
  0 < w -> 0 <= limit -> limiter_ok limit w maxBuckets l log now -> now <= t ->
  let '(l', log') := handle_one (l, log) (r, t) in limiter_ok limit w maxBuckets l' log' t.
Proof.
  intros Hw Hl [Hlim Hwin Hmax Hok Hsz Hws] Hnow. unfold handle_one. destruct (handle l r t) as [l' a] eqn:Hh.
  apply handle_cases in Hh as (bs & Hc & Hok' & Hsz' & Hcase); [|done].
  assert (forall k, exists s, windowed w limit log t k (map_get k bs) s) as Hbs.
  { intros k. eapply windowed_cleaned; [done|]. destruct (Hws k) as (s & Hs). exists s. by eapply windowed_later. }
  destruct Hcase as [(n & -> & ->)|(Hroom & Hadm)].
  - split; simpl; try done; [lia|]. intros k. destruct (Hbs k) as (s & Hs). exists s. apply windowed_ignore; [|done]. right. by eexists.
  - unfold count_request in Hadm. rewrite Hlim, Hwin in Hadm.
    destruct (Hbs (bucket_key r)) as (s0 & Hs0). apply (windowed_current w limit log t) in Hs0 as (s & Hs & Hin); [|done..].
    revert Hadm. set (b := match map_get (bucket_key r) bs with Some b => _ | None => _ end) in *. clearbody b.
    intros [= -> ->]. split; simpl; try done; [by apply map_set_ok| |].
    + rewrite map_set_size. case_match eqn:Hhas; [lia|]. destruct Hroom as [Hroom|Hroom]; [congruence|lia].
    + intros k. rewrite map_get_set. case_decide as Hk.
      * subst k. exists s. destruct (Z.ltb_spec limit (bk_count b + 1)).
        -- apply windowed_ignore; [right; by eexists|]. by apply windowed_count.
        -- apply windowed_pass; [done|done|done|lia].
      * destruct (Hbs k) as (s' & Hs'). exists s'. apply windowed_ignore; [by left|done].
Qed.

(** Times that do not run backwards *)
Fixpoint ordered (now : Z) (requests : list (Request * Z)) : Prop :=
  match requests with
  | [] => True
  | (_, t) :: requests => now <= t /\ ordered t requests
  end.

Lemma handle_all_ok limit w maxBuckets requests l log now :
  0 < w -> 0 <= limit -> limiter_ok limit w maxBuckets l log now -> ordered now requests ->
  exists now', limiter_ok limit w maxBuckets (fold_left handle_one requests (l, log)).1 (fold_left handle_one requests (l, log)).2 now'.
Proof.
  intros Hw Hl. revert l log now. induction requests as [|[r t] requests IH]; intros l log now Hok Ho; [by exists now|].
  destruct Ho as [Ht Ho]. pose proof (handle_one_ok _ _ _ _ _ _ r t Hw Hl Hok Ht) as Hstep.
  simpl. destruct (handle_one (l, log) (r, t)) as [l' log'] eqn:Hh. simpl in Hh. rewrite Hh. by apply (IH l' log' t).
Qed.

(** C23. The rate limit limits: as long as the clock does not run backwards, no key gets more
    than twice the limit of requests through in any period as long as the window (a
    fixed window can meet two), and no more than the limit within a window of its bucket;
    and the table of buckets never outgrows its capacity, whatever the keys. *)
Theorem rate_bounded options l requests t0 :
  rateLimit options = Ok l -> ordered t0 requests ->
  let '(l', log) := handle_all l requests in
  map_size (buckets l') <= default 10000 (rl_maxBuckets options) /\
  forall k, (forall a, passes log k (within a (a + rl_windowMs options)) <= 2 * rl_limit options) /\
    (forall b, map_get k (buckets l') = Some b ->
       passes log k (within (bk_resetAt b - rl_windowMs options) (bk_resetAt b)) <= rl_limit options).
Proof.
  unfold rateLimit, positiveInteger. intros Hl Ho. inv_result.
  repeat match goal with H : (0 <? _) = true |- _ => apply Z.ltb_lt in H end.
  unfold handle_all. set (l0 := mkLimiter _ _ _ _ _ _).
  destruct (handle_all_ok (rl_limit options) (rl_windowMs options) (default 10000 (rl_maxBuckets options)) requests l0 [] t0)
    as (now & Hok); [lia|lia| |done|].
  - split; simpl; try done; [constructor|unfold map_size; simpl; lia|]. intros k. exists (t0 - rl_windowMs options).
    split; intros; unfold passes; simpl; lia.
  - destruct (fold_left handle_one requests (l0, [])) as [l' log]. simpl in Hok. destruct Hok as [_ _ _ _ Hsz Hws].
    split; [done|]. intros k. destruct (Hws k) as (s & [Hlast _ _ Hany Hbk]). split; [done|].
    intros b Hb. rewrite Hb in Hbk. destruct Hbk as (Hr & _). rewrite Hr.
    transitivity (passes log k (since s)); [|done]. apply passes_le. intros u Hu. bools. lia.
Qed.

Lemma rate_bounded_witness :
  let options := mkRateLimit 1 1000 (Some 1) None in
  let requests := [(mkRequest "a" "/api/v1/auth/challenge", 0); (mkRequest "a" "/api/v1/auth/session", 10);
                   (mkRequest "b" "/", 20); (mkRequest "a" "/api/v1/auth/session", 1000)]%string in
  exists l, rateLimit options = Ok l /\
    snd <$> (handle_all l requests).2 = [passed 0; limited 1; limited 1; passed 0] /\
    map_size (buckets (handle_all l requests).1) <= 1 /\
    passes (handle_all l requests).2 "a:auth" (within 0 1000) <= 2.
Proof.
  intros options requests. destruct (rateLimit options) as [l|] eqn:Hl; [|discriminate]. exists l. split; [reflexivity|].
  assert (ordered 0 requests) as Ho by (simpl; lia).
  pose proof (rate_bounded options l requests 0 Hl Ho) as H.
  injection Hl as <-. split; [vm_compute; reflexivity|].
  destruct (handle_all _ requests) as [l' log] eqn:Hh. destruct H as [Hsz Hk]. split; [exact Hsz|].
  destruct (Hk "a:auth"%string) as [Ha _]. exact (Ha 0).
Defined.

(** ** Retries *)

Definition failed {E T} (operation : Z -> result E T) (n : Z) : Prop := exists e, operation n = Throw e.

Lemma retry_from_spec {E T} (operation : Z -> result E T) attempts base left_ attempt last r delays :
  (0 < left_)%nat -> attempts = attempt + Z.of_nat left_ - 1 ->
  retry_from operation attempts base left_ attempt last = (r, delays) ->
  exists n, (n < left_)%nat /\ (forall m, (m < n)%nat -> failed operation (attempt + Z.of_nat m)) /\
    delays = (fun i => base * (attempt + Z.of_nat i)) <$> List.seq 0 n /\
    ((exists v, operation (attempt + Z.of_nat n) = Ok v /\ r = Ok v) \/
     (S n = left_ /\ exists e, operation (attempt + Z.of_nat n) = Throw e /\ r = Throw (Some e))).
Proof.
  revert attempt last r delays. induction left_ as [|left_ IH]; intros attempt last r delays Hpos Heq; [lia|]. simpl.
  destruct (operation attempt) as [v|e] eqn:Ho.
  - intros [= <- <-]. exists 0%nat. rewrite Z.add_0_r. split_and!; [lia|lia|done|]. left. by exists v.
  - destruct (Z.eqb_spec attempt attempts) as [Ha|Ha].
    + intros [= <- <-]. exists 0%nat. rewrite Z.add_0_r. split_and!; [lia|lia|done|]. right. split; [lia|]. by exists e.
    + destruct (retry_from _ _ _ left_ _ _) as [r' ds] eqn:Hr. intros [= <- <-].
      apply IH in Hr as (n & Hn & Hf & -> & Hres); [|lia|lia]. exists (S n). split_and!.
      * lia.
      * intros [|m] Hm; [rewrite Z.add_0_r; by exists e|].
        replace (attempt + Z.of_nat (S m)) with (attempt + 1 + Z.of_nat m) by lia. apply Hf. lia.
      * simpl. rewrite Z.add_0_r. f_equal. rewrite <- seq_shift, <- (list_fmap_compose S). apply list_fmap_ext. intros. simpl. lia.
      * replace (attempt + Z.of_nat (S n)) with (attempt + 1 + Z.of_nat n) by lia.
        destruct Hres as [Hok|[Hs He]]; [by left|right]. split; [lia|done].
Qed.

(** A bounded retry ends with the first attempt that succeeds, or with the error of the
    last one: every earlier attempt failed, no attempt follows, and before each further
    attempt it waited one base delay more than before. *)
Theorem retry_correct {E T} (operation : Z -> result E T) attempts base r delays :
  0 < attempts -> retryTransient operation attempts base = (r, delays) ->
  exists n, 1 <= n <= attempts /\ (forall m, 1 <= m < n -> failed operation m) /\
    delays = (fun i => base * Z.of_nat i) <$> List.seq 1 (Z.to_nat (n - 1)) /\
    ((exists v, operation n = Ok v /\ r = Ok v) \/ (n = attempts /\ exists e, operation n = Throw e /\ r = Throw (Some e))).
Proof.
  unfold retryTransient. intros Hpos Hr. apply retry_from_spec in Hr as (n & Hn & Hf & -> & Hres); [|lia|lia].
  exists (1 + Z.of_nat n). split_and!.
  - lia.
  - lia.
  - intros m Hm. replace m with (1 + Z.of_nat (Z.to_nat (m - 1))) by lia. apply Hf. lia.
  - replace (Z.to_nat (1 + Z.of_nat n - 1)) with n by lia. rewrite <- seq_shift, <- (list_fmap_compose S).
    apply list_fmap_ext. intros. simpl. lia.
  - destruct Hres as [Hok|[Hs He]]; [by left|right]. split; [lia|done].
Qed.

Lemma retry_correct_witness :
  exists n, 1 <= n <= 3 /\ (forall m, 1 <= m < n -> failed (fun k => if k <? 2 then Throw tt else Ok k) m).
Proof.
  destruct (retry_correct (fun k => if k <? 2 then Throw tt else Ok k) 3 100 (Ok 2) [100]) as (n & Hn & Hf & _);
    [lia|reflexivity|]. exists n. split; [exact Hn|exact Hf].
Defined.
