(* ===== verification/Recovery.v ===== *)
(** * Backup and recovery of an object store

    [src/src/operations/recovery.ts]. Both functions are written against the interface
    [OpaqueObjectStore], here a class of the operations they call on the state of a store,
    with the laws the in-memory store is shown to satisfy. [restoreRepository] has the state
    it leaves in its result, since a restoration that fails keeps what it restored.
    [Buffer]'s base64 is written out: decoding stops at the first [=], skips what is in
    neither alphabet, and reads both. *)

From S2P Require Import Prelude Regex Digits Base64 Schemas Storage Json Hex Signatures Protection.

Local Open Scope Z_scope.

(** ** Base64 *)

Definition std_char (c : ascii) : ascii := if decide (c = "-"%char) then "+"%char else if decide (c = "_"%char) then "/"%char else c.
Definition url_char (c : ascii) : ascii := if decide (c = "+"%char) then "-"%char else if decide (c = "/"%char) then "_"%char else c.

(** [Buffer.from(b).toString("base64")] *)
Definition to_base64 (b : bytes) : string :=
  let chars := std_char <$> base64_encode (code_of_byte <$> b) in
  string_of_list_ascii (chars ++ repeat "="%char ((4 - length chars mod 4) mod 4)).

Fixpoint before_padding (l : list ascii) : list ascii :=
  match l with
  | [] => []
  | c :: l => if decide (c = "="%char) then [] else c :: before_padding l
  end.

(** [Buffer.from(s, "base64")] *)
Definition from_base64 (s : string) : bytes :=
  byte_of_code <$> base64_decode (filter (fun c => c ∈ base64_alphabet) (url_char <$> before_padding (list_ascii_of_string s))).

(** ** The interface *)

Class OpaqueObjectStore (W : Type) := {
  store_namespace : string;
  store_head : W -> string -> result ObjectStoreErrorCode (option Z);
  store_get : W -> string -> result ObjectStoreErrorCode (list bytes);
  store_putIfAbsent : W -> string -> list bytes -> result ObjectStoreErrorCode (W * PutIfAbsentResult)
}.
Arguments store_namespace W {_}.

(** What a store promises: its answers are of the bytes it holds, and a put adds an object
    that is not there, and changes nothing else. *)
Class LawfulStore (W : Type) `{OpaqueObjectStore W} := {
  held : W -> string -> option bytes;
  head_law w id n : store_head w id = Ok n -> n = byteLength <$> held w id;
  get_law w id cs : store_get w id = Ok cs -> concat cs = default [] (held w id);
  put_law w id source w' r : store_putIfAbsent w id source = Ok (w', r) ->
    held w' id = Some (default (concat source) (held w id)) /\ (forall id', id' <> id -> held w' id' = held w id') /\
    (put_status r = created <-> held w id = None)
}.

(** ** Backups *)

Record BackupEntry := mkEntry { be_object_id : string; be_length : Z; be_sha256 : string; be_stored_envelope_base64 : string }.
Record RepositoryBackup := mkBackup { rb_namespace : string; rb_created_at : string; rb_entries : list BackupEntry }.

Inductive RecoveryCode := rc_conflict | rc_integrity | rc_namespace.
(** A [RecoveryError], or an error of the store *)
Inductive RecoveryFailure := RecoveryError (code : RecoveryCode) | store_failed (e : ObjectStoreErrorCode).

Definition from_store {A} (r : result ObjectStoreErrorCode A) : result RecoveryFailure A :=
  match r with Ok a => Ok a | Throw e => Throw (store_failed e) end.

Section Recovery.
Context `{Sha256} {W : Type} `{OpaqueObjectStore W}.

Definition hex_digest (value : bytes) : string := ("0x" +:+ to_hex (sha256 value))%string.

(** [collect(store.get(objectId))] *)
Definition collect (w : W) (objectId : string) : result RecoveryFailure bytes := cs ← from_store (store_get w objectId); Ok (concat cs).

Definition backup_entry (w : W) (objectId : string) : result RecoveryFailure BackupEntry :=
  b ← collect w objectId;
  head ← from_store (store_head w objectId);
  _ ← require (bool_decide (head = Some (byteLength b))) (RecoveryError rc_integrity);
  Ok (mkEntry objectId (byteLength b) (hex_digest b) (to_base64 b)).

(** [created_at] is [now().toISOString()]. *)
Definition backupRepository (w : W) (inventory : list string) (created_at : string) : result RecoveryFailure RepositoryBackup :=
  entries ← map_result (backup_entry w) (sort_strings (set_of inventory));
  Ok (mkBackup (store_namespace W) created_at entries).

Definition matches (b : bytes) (entry : BackupEntry) : bool :=
  (byteLength b =? be_length entry) && String.eqb (hex_digest b) (be_sha256 entry).

(** One entry: the state it leaves, and the outcome of its put *)
Definition restore_entry (w : W) (entry : BackupEntry) : W * result RecoveryFailure PutStatus :=
  let b := from_base64 (be_stored_envelope_base64 entry) in
  if negb (matches b entry) then (w, Throw (RecoveryError rc_integrity))
  else
    match store_putIfAbsent w (be_object_id entry) [b] with
    | Throw e => (w, Throw (store_failed e))
    | Ok (w', r) =>
        (w', verified ← collect w' (be_object_id entry);
             _ ← require (matches verified entry) (RecoveryError rc_conflict);
             Ok (put_status r))
    end.

Record RestoreCounts := mkCounts { restored : Z; reused : Z }.

Definition count (n : RestoreCounts) (s : PutStatus) : RestoreCounts :=
  match s with created => mkCounts (restored n + 1) (reused n) | exists_ => mkCounts (restored n) (reused n + 1) end.

Fixpoint restore_entries (w : W) (n : RestoreCounts) (entries : list BackupEntry) : W * result RecoveryFailure RestoreCounts :=
  match entries with
  | [] => (w, Ok n)
  | entry :: entries =>
      match restore_entry w entry with
      | (w', Ok s) => restore_entries w' (count n s) entries
      | (w', Throw e) => (w', Throw e)
      end
  end.

Definition restoreRepository (w : W) (backup : RepositoryBackup) : W * result RecoveryFailure RestoreCounts :=
  if String.eqb (rb_namespace backup) (store_namespace W) then restore_entries w (mkCounts 0 0) (rb_entries backup)
  else (w, Throw (RecoveryError rc_namespace)).

End Recovery.

(** ** The in-memory store as an implementation *)

Section Memory.
Context (s : Memory.MemoryObjectStore).

#[export] Instance memory_store : OpaqueObjectStore Memory.Objects := {|
  store_namespace := Memory.namespace s;
  store_head := Memory.head s;
  store_get w id := Memory.get s w id false;
  store_putIfAbsent w id source := Memory.putIfAbsent s w id ((fun c => (c, false)) <$> source)
|}.

End Memory.

(** * Facts *)

(** ** Base64 round trip *)

Lemma sextet_char_in n : sextet_char n ∈ base64_alphabet.
Proof.
  unfold sextet_char. apply list_elem_of_In. destruct (nth_in_or_default (Z.to_nat n) base64_alphabet "A"%char) as [| ->]; [done|].
  by left.
Qed.

Lemma base64_encode_in l : Forall (fun c => c ∈ base64_alphabet) (base64_encode l).
Proof.
  induction l as [|a|a b|a b c l IH] using list_ind3; simpl;
    repeat (apply Forall_cons_2; [apply sextet_char_in|]); by try apply Forall_nil_2.
Qed.

Lemma std_url c : c ∈ base64_alphabet -> url_char (std_char c) = c /\ std_char c <> "="%char.
Proof.
  assert (Forall (fun c => url_char (std_char c) = c /\ std_char c <> "="%char) base64_alphabet) as Hall
    by (apply (bool_decide_unpack _); vm_compute; reflexivity).
  rewrite Forall_forall in Hall. apply Hall.
Qed.

Lemma before_padding_app l n : "="%char ∉ l -> before_padding (l ++ repeat "="%char n) = l.
Proof.
  induction l as [|c l IH]; simpl; [by destruct n|]. intros [Hc Hl]%not_elem_of_cons.
  rewrite decide_False by done. by rewrite IH.
Qed.

Lemma from_to_base64 b : from_base64 (to_base64 b) = b.
Proof.
  unfold from_base64, to_base64. rewrite list_ascii_of_string_of_list_ascii.
  pose proof (base64_encode_in (code_of_byte <$> b)) as Hin. set (l := base64_encode _) in *.
  assert (url_char <$> (std_char <$> l) = l) as Hurl.
  { clear -Hin. induction Hin as [|c l Hc _ IH]; [done|]. csimpl. f_equal; [by apply std_url|exact IH]. }
  rewrite before_padding_app, Hurl.
  - rewrite (filter_all _ l) by done. unfold l. rewrite base64_decode_encode by apply codes_are_bytes.
    rewrite <- list_fmap_compose. rewrite <- (list_fmap_id b) at 2. apply list_fmap_ext. intros _ x _. apply byte_of_code_of_byte.
  - intros (c & Hc & Hl)%list_elem_of_fmap. rewrite Forall_forall in Hin. by destruct (std_url c (Hin c Hl)) as [_ []].
Qed.

(** ** Restoring *)

Section Restore.
Context `{Sha256} {W : Type} `{LawfulStore W}.

Lemma collect_held w id b : collect w id = Ok b -> b = default [] (held w id).
Proof.
  unfold collect. intros (cs & Hcs & [= <-])%bind_Ok. destruct (store_get w id) as [cs'|] eqn:Hg; [|done].
  injection Hcs as <-. by apply get_law.
Qed.

Lemma backup_entry_Ok w id entry :
  backup_entry w id = Ok entry ->
  exists v, held w id = Some v /\ entry = mkEntry id (byteLength v) (hex_digest v) (to_base64 v).
Proof.
  unfold backup_entry. intros (b & Hb%collect_held & (head & Hh & (u & Hr%require_Ok & [= <-])%bind_Ok)%bind_Ok)%bind_Ok.
  apply bool_decide_eq_true in Hr. subst head. destruct (store_head w id) as [n|] eqn:Hn; [|done]. injection Hh as ->.
  apply head_law in Hn. destruct (held w id) as [v|]; [|done]. simpl in Hb. subst b. by exists v.
Qed.

(** What one entry does to the store, whatever comes of it. *)
Lemma restore_entry_spec w entry w' r :
  restore_entry w entry = (w', r) ->
  (forall id, id <> be_object_id entry -> held w' id = held w id) /\
  (forall id v, held w id = Some v -> held w' id = Some v) /\
  (held w (be_object_id entry) = None -> held w' (be_object_id entry) = None \/
     held w' (be_object_id entry) = Some (from_base64 (be_stored_envelope_base64 entry))) /\
  (forall s, r = Ok s ->
     (exists v, held w' (be_object_id entry) = Some v /\ matches v entry = true) /\
     (s = created <-> held w (be_object_id entry) = None)).
Proof.
  unfold restore_entry. case_match; [by intros [= <- <-]; split_and!; auto|].
  destruct (store_putIfAbsent w (be_object_id entry) _) as [[w1 put]|e] eqn:Hp; [|by intros [= <- <-]; split_and!; auto].
  intros [= <- <-]. apply put_law in Hp as (Hheld & Hother & Hst). simpl in Hheld. rewrite app_nil_r in Hheld.
  split_and!; [done| | |].
  - intros id v Hv. destruct (decide (id = be_object_id entry)) as [->|Hne]; [by rewrite Hheld, Hv|by rewrite Hother].
  - intros Hn. right. by rewrite Hheld, Hn.
  - intros s (b & Hb%collect_held & (u & Hm%require_Ok & [= <-])%bind_Ok)%bind_Ok. split; [|done].
    rewrite Hheld in Hb |- *. simpl in Hb. subst b. by eexists.
Qed.

Lemma restore_entries_spec entries w n w' r :
  restore_entries w n entries = (w', r) ->
  (forall id, id ∉ be_object_id <$> entries -> held w' id = held w id) /\
  (forall id v, held w id = Some v -> held w' id = Some v) /\
  (forall n', r = Ok n' ->
     Forall (fun entry => exists v, held w' (be_object_id entry) = Some v /\ matches v entry = true) entries /\
     restored n' + reused n' = restored n + reused n + Z.of_nat (length entries)).
Proof.
  revert w n. induction entries as [|entry entries IH]; simpl; intros w n.
  - intros [= <- <-]. split_and!; try done. intros n' [= <-]. split; [constructor|lia].
  - destruct (restore_entry w entry) as [w1 [s|e]] eqn:He; apply restore_entry_spec in He as (Hother & Hkeep & _ & Hres).
    + intros (IHo & IHk & IHr)%IH. split_and!.
      * intros id [Hne Hid]%not_elem_of_cons. by rewrite IHo, Hother.
      * auto.
      * intros n' Hn'. apply IHr in Hn' as [Hall Hsum]. destruct (Hres s eq_refl) as [(v & Hv & Hm) _]. split.
        -- constructor; [|done]. exists v. auto.
        -- rewrite Hsum. destruct s; simpl; lia.
    + intros [= <- <-]. split_and!; [|done|done]. intros id [Hne _]%not_elem_of_cons. auto.
Qed.

(** What was not there is restored byte for byte. *)
Lemma restore_entries_exact entries w n w' n' entry :
  restore_entries w n entries = (w', Ok n') -> NoDup (be_object_id <$> entries) -> entry ∈ entries ->
  held w (be_object_id entry) = None -> held w' (be_object_id entry) = Some (from_base64 (be_stored_envelope_base64 entry)).
Proof.
  revert w n. induction entries as [|e entries IH]; intros w n Hr Hnd Hin Hnone; [by apply not_elem_of_nil in Hin|].
  simpl in Hr. destruct (restore_entry w e) as [w1 [st|]] eqn:He; [|done]. csimpl in Hnd. apply NoDup_cons in Hnd as [Hnew Hnd].
  apply restore_entry_spec in He as (Hother & _ & Hbytes & Hres). apply elem_of_cons in Hin as [->|Hin].
  - destruct (Hres st eq_refl) as [(v & Hv & _) _]. apply restore_entries_spec in Hr as (_ & Hkeep & _). apply Hkeep.
    destruct (Hbytes Hnone) as [Hn|Hb]; [congruence|done].
  - apply (IH w1 (count n st)); [done..|]. rewrite Hother; [done|]. intros Heq. apply Hnew. rewrite <- Heq.
    by apply list_elem_of_fmap_2.
Qed.

End Restore.

Lemma sorted_inventory inventory id : id ∈ sort_strings (set_of inventory) <-> id ∈ inventory.
Proof. unfold sort_strings. by rewrite (js_sort_perm string_cmp), elem_of_set_of. Qed.

Lemma backup_NoDup entries inventory : be_object_id <$> entries = sort_strings (set_of inventory) -> NoDup (be_object_id <$> entries).
Proof. intros ->. unfold sort_strings. rewrite (js_sort_perm string_cmp). apply set_of_NoDup. Qed.

Section Recover.
Context `{Sha256} {V W : Type} `{LawfulStore V} `{LawfulStore W}.

Lemma backup_entries (v : V) inventory at_ b :
  backupRepository v inventory at_ = Ok b ->
  rb_namespace b = store_namespace V /\ be_object_id <$> rb_entries b = sort_strings (set_of inventory) /\
  Forall (fun entry => exists o, held v (be_object_id entry) = Some o /\
            entry = mkEntry (be_object_id entry) (byteLength o) (hex_digest o) (to_base64 o)) (rb_entries b).
Proof.
  unfold backupRepository. intros (entries & Hf%map_result_Ok & [= <-])%bind_Ok. simpl. split; [done|].
  induction Hf as [|id entry ids entries He _ [IHid IHall]]; [by split|].
  apply backup_entry_Ok in He as (o & Ho & ->). csimpl. rewrite IHid. split; [done|]. constructor; [|done]. by exists o.
Qed.

(** A restoration never destroys: what the target held stays as it was, restored or not,
    also when the restoration fails in the middle, and objects that are not in the backup
    are not touched. When it succeeds, every object of the inventory is in the target with
    the length and the digest it had, and with its very bytes where the target had none;
    each is counted once, as restored or as reused. *)
Theorem recovery_faithful (v : V) inventory at_ b (w w' : W) r :
  backupRepository v inventory at_ = Ok b -> restoreRepository w b = (w', r) ->
  (forall id o, held w id = Some o -> held w' id = Some o) /\
  (forall id, id ∉ inventory -> held w' id = held w id) /\
  (forall n, r = Ok n ->
     store_namespace W = store_namespace V /\ restored n + reused n = set_size inventory /\
     forall id, id ∈ inventory -> exists o o', held v id = Some o /\ held w' id = Some o' /\
       byteLength o' = byteLength o /\ hex_digest o' = hex_digest o /\ (held w id = None -> o' = o)).
Proof.
  intros (Hns & Hids & Hall)%backup_entries. unfold restoreRepository.
  case_match eqn:Hn; [|intros [= <- <-]; by split_and!]. apply String.eqb_eq in Hn.
  intros Hrun. pose proof (restore_entries_spec _ _ _ _ _ Hrun) as (Hother & Hkeep & Hres). rewrite Hids in Hother.
  split_and!; [done| |].
  - intros id Hid. apply Hother. by rewrite sorted_inventory.
  - intros n Hok. destruct (Hres n Hok) as [Hf Hsum]. split_and!; [by rewrite <- Hn| |].
    + rewrite Hsum. unfold set_size. simpl. rewrite <- (length_fmap be_object_id), Hids. unfold sort_strings.
      by rewrite js_sort_length.
    + intros id Hid. apply sorted_inventory in Hid. rewrite <- Hids in Hid. apply list_elem_of_fmap in Hid as (e & -> & He).
      rewrite Forall_forall in Hall, Hf. destruct (Hall e He) as (o & Ho & Heq). destruct (Hf e He) as (o' & Ho' & Hm).
      rewrite Heq in Hm. apply andb_true_iff in Hm as [Hl%Z.eqb_eq Hd%String.eqb_eq].
      exists o, o'. split_and!; try done. intros Hnone. rewrite Hok in Hrun.
      rewrite (restore_entries_exact _ _ _ _ _ e Hrun (backup_NoDup _ _ Hids) He Hnone) in Ho'. injection Ho' as <-.
      rewrite Heq. apply from_to_base64.
Qed.
End Recover.

(** ** The in-memory store *)

Lemma chunks_concat (source : list bytes) : ((fun c => (c, false)) <$> source) ≫= fst = concat source.
Proof. induction source as [|c source IH]; [done|]. csimpl. by rewrite IH. Qed.

Lemma append_inj s t u : (s +:+ t)%string = (s +:+ u)%string -> t = u.
Proof.
  intros H. apply (f_equal list_ascii_of_string) in H. rewrite !list_ascii_of_string_app in H.
  by apply app_inv_head, list_ascii_of_string_inj in H.
Qed.

Section MemoryLaws.
Context (s : Memory.MemoryObjectStore).

#[export] Program Instance memory_lawful : LawfulStore Memory.Objects (H := memory_store s) := {|
  held w id := if Memory.opaqueObjectId id then map_get (Memory.prefix s +:+ id)%string w else None
|}.
Next Obligation.
  intros w id n Hh. simpl in Hh. unfold Memory.head in Hh. apply bind_Ok in Hh as (k & [Hid ->]%Memory.store_key_Ok & [= <-]).
  simpl. by rewrite Hid.
Qed.
Next Obligation.
  intros w id cs Hg. simpl in Hg. unfold Memory.get in Hg. simpl in Hg.
  apply bind_Ok in Hg as (k & [Hid ->]%Memory.store_key_Ok & [= <-]). simpl. rewrite Hid. case_match; simpl; [by rewrite app_nil_r|done].
Qed.
Next Obligation.
  intros w id source w' r Hp. simpl in Hp. unfold Memory.putIfAbsent, Memory.start_put in Hp.
  apply bind_Ok in Hp as (p & (k & [Hid ->]%Memory.store_key_Ok & Hp)%bind_Ok & [= Hw]). simpl. rewrite Hid.
  destruct (map_get (Memory.prefix s +:+ id)%string w) as [o|] eqn:Hget.
  - injection Hp as <-. injection Hw as <- <-. simpl. by rewrite Hget.
  - apply bind_Ok in Hp as (v & Hc & [= <-]). unfold Memory.collect in Hc. apply Memory.collect_from_Ok in Hc as [-> _].
    rewrite chunks_concat in Hw. simpl in Hw. unfold Memory.finish_put in Hw. rewrite Hget in Hw. injection Hw as <- <-. simpl.
    rewrite map_get_set_eq. split_and!; [done| |done]. intros id' Hne. rewrite map_get_set_ne; [done|].
    intros Heq. by apply append_inj in Heq.
Qed.

(** A put of bytes that fit succeeds. *)
Lemma memory_put w id v :
  Memory.opaqueObjectId id = true -> byteLength v <= Memory.maxObjectBytes s ->
  exists w' r, store_putIfAbsent (OpaqueObjectStore := memory_store s) w id [v] = Ok (w', r).
Proof.
  intros Hid Hv. simpl. unfold Memory.putIfAbsent, Memory.start_put.
  rewrite (proj2 (Memory.store_key_Ok s id (Memory.prefix s +:+ id)%string) (conj Hid eq_refl)). simpl.
  destruct (map_get _ w) as [o|]; simpl; [by do 2 eexists|]. unfold Memory.collect. simpl.
  assert (Memory.maxObjectBytes s <? 0 + byteLength v = false) as -> by (apply Z.ltb_ge; lia). simpl.
  match goal with |- context [Memory.finish_put ?a ?b ?c] => destruct (Memory.finish_put a b c) as [w' r] end. by exists w', r.
Qed.

Lemma memory_get w id :
  Memory.opaqueObjectId id = true -> exists cs, store_get (OpaqueObjectStore := memory_store s) w id = Ok cs.
Proof.
  intros Hid. simpl. unfold Memory.get. simpl.
  rewrite (proj2 (Memory.store_key_Ok s id (Memory.prefix s +:+ id)%string) (conj Hid eq_refl)). simpl. by eexists.
Qed.
End MemoryLaws.

Section MemoryRecovery.
Context `{Sha256} (s t : Memory.MemoryObjectStore).

Notation held_in store := (@held _ (memory_store store) (memory_lawful store)).

(** The restoration of entries that are intact, fit, and do not clash with the target. *)
Lemma memory_restore_entries entries w n :
  NoDup (be_object_id <$> entries) ->
  Forall (fun entry => Memory.opaqueObjectId (be_object_id entry) = true /\
    exists o, entry = mkEntry (be_object_id entry) (byteLength o) (hex_digest o) (to_base64 o) /\
      byteLength o <= Memory.maxObjectBytes t /\
      (held_in t w (be_object_id entry) = None \/ held_in t w (be_object_id entry) = Some o)) entries ->
  exists w' n', restore_entries (H0 := memory_store t) w n entries = (w', Ok n').
Proof.
  revert w n. induction entries as [|entry entries IH]; intros w n Hnd Hall; [by do 2 eexists|].
  apply Forall_cons in Hall as [(Hid & o & He & Hfit & Hheld) Hall]. csimpl in Hnd. apply NoDup_cons in Hnd as [Hnew Hnd].
  assert (matches o entry = true) as Hm.
  { rewrite He. unfold matches. simpl. by rewrite Z.eqb_refl, String.eqb_refl. }
  assert (from_base64 (be_stored_envelope_base64 entry) = o) as Hb by (rewrite He; apply from_to_base64).
  assert (exists w' st, restore_entry (H0 := memory_store t) w entry = (w', Ok st)) as (w' & st & Hstep).
  { unfold restore_entry. rewrite Hb, Hm. simpl negb. cbv iota.
    destruct (memory_put t w (be_object_id entry) o Hid Hfit) as (w' & r & Hp). rewrite Hp.
    destruct (memory_get t w' (be_object_id entry) Hid) as (cs & Hcs).
    pose proof (@put_law _ (memory_store t) (memory_lawful t) _ _ _ _ _ Hp) as (Hh & _ & _).
    pose proof (@get_law _ (memory_store t) (memory_lawful t) _ _ _ Hcs) as Hg.
    exists w', (put_status r). unfold collect. rewrite Hcs. simpl from_store. cbn [mbind result_bind]. rewrite Hg, Hh.
    replace (default (concat [o]) (held_in t w (be_object_id entry))) with o; [simpl default; by rewrite Hm|].
    destruct Hheld as [-> | ->]; simpl; [by rewrite app_nil_r|done]. }
  destruct (restore_entry_spec (H0 := memory_store t) (H1 := memory_lawful t) _ _ _ _ Hstep) as (Hother & _).
  destruct (IH w' (count n st) Hnd) as (w2 & n2 & Hrest).
  - eapply Forall_impl; [apply Forall_and; split; [exact Hall|apply Forall_forall; intros e He'; exact He']|].
    intros e [(Hid' & o' & He' & Hfit' & Hh') Hin]. split; [done|]. exists o'. split_and!; try done. rewrite Hother; [done|].
    intros Heq. apply Hnew. rewrite <- Heq. by apply list_elem_of_fmap_2.
  - exists w2, n2. simpl. by rewrite Hstep.
Qed.

(** C24. A backup of an in-memory store restores: in a store of the same namespace in which the
    objects fit, and that holds none of them or the same, the restoration succeeds, and
    then holds every object of the inventory byte for byte. *)
Theorem recovery_roundtrip v inventory at_ b w :
  Memory.namespace s = Memory.namespace t -> backupRepository (H0 := memory_store s) v inventory at_ = Ok b ->
  (forall id o, id ∈ inventory -> held_in s v id = Some o ->
     byteLength o <= Memory.maxObjectBytes t /\ (held_in t w id = None \/ held_in t w id = Some o)) ->
  exists w' n, restoreRepository (H0 := memory_store t) w b = (w', Ok n) /\
    forall id, id ∈ inventory -> is_Some (held_in s v id) /\ held_in t w' id = held_in s v id.
Proof.
  intros Hns Hb Hfit. pose proof (backup_entries (H0 := memory_store s) (H1 := memory_lawful s) _ _ _ _ Hb) as (Hn & Hids & Hall).
  pose proof (backup_NoDup _ _ Hids) as Hnd.
  assert (forall e, e ∈ rb_entries b -> be_object_id e ∈ inventory) as Hin.
  { intros e He. apply sorted_inventory. rewrite <- Hids. by apply list_elem_of_fmap_2. }
  rewrite Forall_forall in Hall.
  destruct (memory_restore_entries (rb_entries b) w (mkCounts 0 0) Hnd) as (w' & n & Hrun).
  { apply Forall_forall. intros e He. destruct (Hall e He) as (o & Ho & Heq).
    destruct (Hfit _ o (Hin e He) Ho) as [Hsz Hclash]. split; [|by exists o].
    simpl in Ho. by destruct (Memory.opaqueObjectId (be_object_id e)). }
  assert (restoreRepository (H0 := memory_store t) w b = (w', Ok n)) as Hrest.
  { unfold restoreRepository. rewrite Hn. cbn [store_namespace memory_store]. by rewrite Hns, String.eqb_refl. }
  exists w', n. split; [done|]. intros id Hid.
  destruct (recovery_faithful (H1 := memory_lawful s) (H3 := memory_lawful t) _ _ _ _ _ _ _ Hb Hrest) as (Hkeep & _ & Hok).
  destruct (Hok n eq_refl) as (_ & _ & Heach). destruct (Heach id Hid) as (o & o' & Ho & Ho' & _ & _ & Hexact).
  rewrite Ho, Ho'. split; [done|]. f_equal. destruct (Hfit id o Hid Ho) as [_ [Hnone|Hsame]]; [by apply Hexact|].
  apply Hkeep in Hsame. congruence.
Qed.
End MemoryRecovery.

(** ** A backup *)

Module RecoverySample.

Definition id : string := string_of_list_ascii (repeat "A"%char 43).
Definition store : Memory.MemoryObjectStore := Memory.mkStore "org" "org:" 100.
Definition object_ : bytes := [Byte.x01; Byte.xff; Byte.x02; Byte.x03].
Definition content : Memory.Objects := [(("org:" +:+ id)%string, object_)].

Definition backup : result RecoveryFailure RepositoryBackup :=
  backupRepository (H0 := memory_store store) content [id; id] "2026-01-01T00:00:00.000Z".

End RecoverySample.

Lemma recovery_roundtrip_witness :
  exists b, RecoverySample.backup = Ok b /\
  exists w n, restoreRepository (H0 := memory_store RecoverySample.store) [] b = (w, Ok n) /\
    forall id, id ∈ [RecoverySample.id; RecoverySample.id] ->
      is_Some (@held _ (memory_store RecoverySample.store) (memory_lawful RecoverySample.store) RecoverySample.content id) /\
      @held _ (memory_store RecoverySample.store) (memory_lawful RecoverySample.store) w id =
      @held _ (memory_store RecoverySample.store) (memory_lawful RecoverySample.store) RecoverySample.content id.
Proof.
  destruct RecoverySample.backup as [b|] eqn:Hb; [|vm_compute in Hb; discriminate]. exists b. split; [reflexivity|].
  apply (recovery_roundtrip RecoverySample.store RecoverySample.store RecoverySample.content
           [RecoverySample.id; RecoverySample.id] "2026-01-01T00:00:00.000Z" b [] eq_refl Hb).
  intros id o Hid Ho. apply elem_of_cons in Hid. destruct Hid as [->|Hid%list_elem_of_singleton]; [|subst id];
    vm_compute in Ho; injection Ho as <-; (split; [vm_compute; discriminate|left; vm_compute; reflexivity]).
Defined.

Lemma recovery_faithful_witness :
  exists b w n, RecoverySample.backup = Ok b /\
    restoreRepository (H0 := memory_store RecoverySample.store) [] b = (w, Ok n) /\ restored n + reused n = 1.
Proof.
  destruct RecoverySample.backup as [b|] eqn:Hb; [|vm_compute in Hb; discriminate].
  destruct (restoreRepository (H0 := memory_store RecoverySample.store) [] b) as [w [n|e]] eqn:Hr.
  - exists b, w, n. split; [reflexivity|]. split; [exact Hr|].
    destruct (recovery_faithful (H1 := memory_lawful RecoverySample.store) (H3 := memory_lawful RecoverySample.store)
      RecoverySample.content [RecoverySample.id; RecoverySample.id] "2026-01-01T00:00:00.000Z" b [] w (Ok n) Hb Hr) as (_ & _ & H).
    destruct (H n eq_refl) as (_ & Hsum & _). rewrite Hsum. vm_compute. reflexivity.
  - exfalso. vm_compute in Hb. injection Hb as <-. vm_compute in Hr. discriminate.
Defined.
