(* ===== verification/InterfaceCases.v ===== *)
(** * The controlled cases of the research interface

    [src/src/interface/cases.ts], with the tool registry of [runtime.ts] and [runAssistant]
    of [service.ts]: five cases of a corpus, what question belongs to which, and the
    records and permissions the assistant has for them. The corpus file is given parsed; of
    its records every status is [active]. *)

From S2P Require Import Prelude Regex Digits Base64 Schemas Storage Json Hex Signatures Protection Session AuditLedger EcmaRegExp Text SemanticTokens SemanticSupport AssistantTypes AssistantTools.

Local Open Scope Z_scope.
Local Open Scope string_scope.

(** ** Cases *)

Inductive ControlledCaseId := synthesis_101 | synthesis_106 | synthesis_111 | synthesis_116 | synthesis_121.

#[global] Instance ControlledCaseId_eq_dec : EqDecision ControlledCaseId.
Proof. solve_decision. Defined.

Definition requiredCaseIds : list ControlledCaseId := [synthesis_101; synthesis_106; synthesis_111; synthesis_116; synthesis_121].

Definition case_text (c : ControlledCaseId) : string :=
  match c with
  | synthesis_101 => "synthesis-101" | synthesis_106 => "synthesis-106" | synthesis_111 => "synthesis-111"
  | synthesis_116 => "synthesis-116" | synthesis_121 => "synthesis-121"
  end.

Definition presentationBatteryIds (c : ControlledCaseId) : string :=
  match c with
  | synthesis_101 => "Battery ID 101" | synthesis_106 => "Battery ID 106" | synthesis_111 => "Battery ID 111"
  | synthesis_116 => "Battery ID 116" | synthesis_121 => "Battery ID 121"
  end.

Definition evaluationBatteryIds (c : ControlledCaseId) : string :=
  match c with
  | synthesis_101 => "SYN-101" | synthesis_106 => "SYN-106" | synthesis_111 => "SYN-111"
  | synthesis_116 => "SYN-116" | synthesis_121 => "SYN-121"
  end.

Definition controlled_urn (kind : string) (n : nat) : string :=
  "urn:evllm:" +:+ kind +:+ ":00000000-0000-4000-8000-" +:+ string_of_list_ascii (pad_start 12 (number_chars (Z.of_nat n))).

Definition CONTROLLED_PURPOSE_ID : string := controlled_urn "policy" 1.
Definition CONTROLLED_ACTOR_ID : string := controlled_urn "actor" 1.
Definition CONTROLLED_ORGANIZATION_ID : string := controlled_urn "org" 1.
Definition CONTROLLED_CREDENTIAL_ID : string := controlled_urn "credential" 1.

Inductive Detection := detect_missing | detect_conflict.

Record CorpusRecord := mkCorpusRecord {
  cr_support_id : string;
  cr_resource_id : string;
  cr_resource_version : Z;
  cr_content : string;
  cr_recorded_decision : option RecordedDecision
}.

Record CorpusCase := mkCorpusCase { cc_case_id : string; cc_expected_detection : option Detection; cc_records : list CorpusRecord }.

Definition recordSchema (r : CorpusRecord) : bool :=
  negb (is_empty (cr_support_id r)) && negb (is_empty (cr_resource_id r)) && positiveSafeInteger (cr_resource_version r) &&
  negb (is_empty (cr_content r)) && optional recordedDecision (cr_recorded_decision r).

Definition caseSchema (c : CorpusCase) : bool :=
  negb (is_empty (cc_case_id c)) && forallb recordSchema (cc_records c) && negb (match cc_records c with [] => true | _ => false end).

Definition corpusSchema (cases : list CorpusCase) : bool := forallb caseSchema cases.

(** [#cases] *)
Definition ControlledCaseCatalog := list (ControlledCaseId * CorpusCase).

Definition add_case (cases : list CorpusCase) (catalog : ControlledCaseCatalog) (caseId : ControlledCaseId) :
    result exn ControlledCaseCatalog :=
  item ← defined (head (filter (fun c => cc_case_id c = case_text caseId) cases))
           (Error ("Required controlled case " +:+ case_text caseId +:+ " is missing"));
  Ok (map_set caseId item catalog).

(** The constructor *)
Definition newCatalog (cases : list CorpusCase) : result exn ControlledCaseCatalog := fold_result (add_case cases) [] requiredCaseIds.

(** ** Questions *)

Definition RE_101 : regexp := Eval vm_compute in re "(?:\bSYN-101\b|\bbattery\s+(?:ID\s+)?101\b)" "iu".
Definition RE_106 : regexp := Eval vm_compute in re "(?:\bSYN-106\b|\bbattery\s+(?:ID\s+)?106\b)" "iu".
Definition RE_111 : regexp := Eval vm_compute in re "(?:\bSYN-111\b|\bbattery\s+(?:ID\s+)?111\b)" "iu".
Definition RE_116 : regexp := Eval vm_compute in re "(?:\bSYN-116\b|\bbattery\s+(?:ID\s+)?116\b)" "iu".
Definition RE_121 : regexp := Eval vm_compute in re "(?:\bSYN-121\b|\bbattery\s+(?:ID\s+)?121\b)" "iu".
Definition RE_CERTIFY : regexp := Eval vm_compute in re "(?:legally certify|formal(?:ly)? approve|accredit)" "iu".
Definition RE_DECISION_QUESTION : regexp :=
  Eval vm_compute in
    re "\b(?:recorded\s+(?:decision|outcome|conclusion)|decision\s+code|eligible|eligibility|ready\s+to\s+(?:be\s+)?(?:list(?:ed|ing)?|resell)|(?:can|may|should)\b.{0,60}\b(?:list(?:ed|ing)?|resell|recover|enter|proceed)|(?:routes?|options?)\b.{0,50}\b(?:preferred|recommended|selected|supported)|(?:preferred|recommended|selected)\s+(?:routes?|options?)|workflow\s+action\b.{0,40}\b(?:permitted|allowed|authorized)|information\s+(?:is\s+)?still\s+needed|inspections?\s+disagree)\b" "iu".

Definition isDecisionExplanationQuestion (question : string) : bool := re_test RE_DECISION_QUESTION question.

Definition caseIdForQuestion (question : string) : option ControlledCaseId :=
  if re_test RE_101 question then Some synthesis_101
  else if re_test RE_106 question then Some synthesis_106
  else if re_test RE_111 question then Some synthesis_111
  else if re_test RE_116 question then Some synthesis_116
  else if re_test RE_121 question then Some synthesis_121
  else if re_test RE_CERTIFY question then Some synthesis_101
  else None.

Definition case_label (c : ControlledCaseId) : string :=
  match c with
  | synthesis_101 => "Resale readiness"
  | synthesis_106 => "Missing required information"
  | synthesis_111 => "Conflicting current information"
  | synthesis_116 => "Marketplace workflow explanation"
  | synthesis_121 => "Second-life route explanation"
  end.

Record ResolvedControlledQuestion := mkResolved {
  rs_caseId : option ControlledCaseId;
  rs_caseLabel : string;
  rs_query : AssistantQuery
}.

Definition case_request (tool : AssistantToolName) (id : string) : ToolRequest := mkToolRequest tool [("case_id", JStr id)].

Definition resolve (question : string) (asOf : Z) : ResolvedControlledQuestion :=
  let caseId := caseIdForQuestion question in
  let mode :=
    if bool_decide (is_Some caseId) && isDecisionExplanationQuestion question then explain_recorded_decision
    else explain_records in
  let id := match caseId with Some c => case_text c | None => "unresolved" end in
  mkResolved caseId (match caseId with None => "No matching controlled record" | Some c => case_label c end)
    (mkQuery question mode CONTROLLED_PURPOSE_ID asOf None
       (if bool_decide (caseId = Some synthesis_121) then [case_request tool_assessment id]
        else [case_request facts id; case_request tool_rules id])).

(** ** Supports *)

Definition controlled_case (v : option json) : option ControlledCaseId :=
  match v with
  | Some (JStr s) => head (filter (fun c => case_text c = s) requiredCaseIds)
  | _ => None
  end.

Definition recordBelongsToTool (caseId : ControlledCaseId) (tool : AssistantToolName) (index lastIndex : nat) : bool :=
  if bool_decide (caseId = synthesis_121) then bool_decide (tool = tool_assessment)
  else
    match tool with
    | facts => (index <? lastIndex)%nat
    | tool_rules => (index =? lastIndex)%nat
    | _ => false
    end.

Definition RE_SELLER : regexp := Eval vm_compute in re "Organization Seller-([0-9]+)" "gu".

(** The identifiers hold nothing special in a pattern or a replacement, so a global match
    replaces what [replaceAll] does. *)
Definition presented_content (caseId : ControlledCaseId) (text : string) : string :=
  let evaluation := evaluationBatteryIds caseId in
  let presentation := presentationBatteryIds caseId in
  re_replace RE_SELLER "Seller organization $1"
    (re_replace (re evaluation "gu") presentation (re_replace (re ("battery " +:+ evaluation) "gu") presentation text)).

Section Catalog.
Context `{CanonicalJson, Sha256}.

Definition toSupport (caseId : ControlledCaseId) (record : CorpusRecord) : AssistantSupport :=
  let text := presented_content caseId (cr_content record) in
  let projected (commitment : string) :=
    mkSupport (cr_support_id record) (cr_resource_id record) (cr_resource_version record) (controlled_urn "org" 2)
      (controlled_urn "org" 3) 1776033600 sup_active commitment
      (Some ("controlled-corpus:" +:+ case_text caseId +:+ ":" +:+ cr_support_id record)) text (cr_recorded_decision record) in
  projected (match cr_recorded_decision record with
             | None => "sha256:" +:+ hash (text_encode text)
             | Some d => recordedDecisionSupportCommitment (projected "") d
             end).

(** [catalog.supports(caseId, tool)] *)
Definition supports (catalog : ControlledCaseCatalog) (caseId : option json) (tool : AssistantToolName) : list AssistantSupport :=
  match controlled_case caseId with
  | None => []
  | Some c =>
      match map_get c catalog with
      | None => []
      | Some item =>
          let lastIndex := (length (cc_records item) - 1)%nat in
          toSupport c ∘ snd <$>
            filter (fun p => recordBelongsToTool c tool p.1 lastIndex = true) (imap pair (cc_records item))
      end
  end.

(** [catalog.authorizes(session, purposeId, tool, arguments)] *)
Definition authorizes (session : ActorSession) (purposeId : string) (tool : AssistantToolName) (arguments : object) : bool :=
  let identity := s_identity session in
  if negb (String.eqb (actorId identity) CONTROLLED_ACTOR_ID) ||
     negb (String.eqb (organizationId identity) CONTROLLED_ORGANIZATION_ID) ||
     negb (String.eqb (credentialId identity) CONTROLLED_CREDENTIAL_ID) || negb (String.eqb purposeId CONTROLLED_PURPOSE_ID)
  then false
  else
    let caseId := field arguments "case_id" in
    if strict_equal caseId (Some (JStr "unresolved")) then bool_decide (tool = facts) || bool_decide (tool = tool_rules)
    else bool_decide (is_Some (controlled_case caseId)).

Definition controlledActorSession (now : Z) : ActorSession :=
  mkSession (controlled_urn "session" 1)
    (mkIdentity CONTROLLED_ACTOR_ID CONTROLLED_ORGANIZATION_ID CONTROLLED_CREDENTIAL_ID
       ("0x" +:+ string_of_list_ascii (repeat "1"%char 40))) now (now + 900).

(** ** The registry of the runtime *)

Definition case_tool (catalog : ControlledCaseCatalog) (name : AssistantToolName) : AssistantTool :=
  TypedQueryTool name (fun context => Ok (supports catalog (field (tc_arguments context) "case_id") name)).

(** Its protected search has none of the checks behind it. *)
Definition protected_tool (catalog : ControlledCaseCatalog) : AssistantTool :=
  ProtectedSearchTool (fun context =>
    Ok (mkRetrieval false false false false false false false
          (supports catalog (field (tc_arguments context) "case_id") protected_search))).

Definition controlledToolRegistry (catalog : ControlledCaseCatalog) : result AssistantError AssistantToolRegistry :=
  new_registry [case_tool catalog facts; case_tool catalog tool_history; case_tool catalog tool_rules;
                case_tool catalog tool_assessment; case_tool catalog tool_audit; protected_tool catalog].

(** What the registry is given to authorize a request with *)
Definition controlled_authorizer (session : ActorSession) (purposeId : string) (tool : AssistantToolName) (arguments : object) :
    result AssistantError bool := Ok (authorizes session purposeId tool arguments).

(** [runAssistant], up to the call of the assistant: the query it passes on *)
Definition interface_query (submittedQuestion : string) (idempotencyKey : option string) (now : Z) : AssistantQuery :=
  let query := rs_query (resolve (trim submittedQuestion) now) in
  match idempotencyKey with
  | None => query
  | Some key => mkQuery (q_question query) (q_mode query) (q_purpose_id query) (q_as_of query) (Some key) (q_requests query)
  end.

End Catalog.

(** * Facts *)

Local Open Scope list_scope.

Lemma controlled_case_text c : controlled_case (Some (JStr (case_text c))) = Some c.
Proof. destruct c; vm_compute; reflexivity. Qed.

Lemma case_text_resolved c : strict_equal (Some (JStr (case_text c))) (Some (JStr "unresolved"%string)) = false.
Proof. destruct c; vm_compute; reflexivity. Qed.

(** The identifier a resolved question passes to the tools. *)
Definition resolved_id (question : string) : string :=
  match caseIdForQuestion question with Some c => case_text c | None => "unresolved" end.

(** A session of the controlled identity *)
Record controlled (session : ActorSession) : Prop := {
  ct_actor : actorId (s_identity session) = CONTROLLED_ACTOR_ID;
  ct_organization : organizationId (s_identity session) = CONTROLLED_ORGANIZATION_ID;
  ct_credential : credentialId (s_identity session) = CONTROLLED_CREDENTIAL_ID
}.

Lemma authorizes_true session purposeId tool arguments :
  authorizes session purposeId tool arguments = true <->
  controlled session /\ purposeId = CONTROLLED_PURPOSE_ID /\
  if strict_equal (field arguments "case_id") (Some (JStr "unresolved"%string)) then tool = facts \/ tool = tool_rules
  else is_Some (controlled_case (field arguments "case_id")).
Proof.
  unfold authorizes.
  destruct (String.eqb_spec (actorId (s_identity session)) CONTROLLED_ACTOR_ID); simpl; [|by split; [|intros [[] _]]].
  destruct (String.eqb_spec (organizationId (s_identity session)) CONTROLLED_ORGANIZATION_ID); simpl; [|by split; [|intros [[] _]]].
  destruct (String.eqb_spec (credentialId (s_identity session)) CONTROLLED_CREDENTIAL_ID); simpl; [|by split; [|intros [[] _]]].
  destruct (String.eqb_spec purposeId CONTROLLED_PURPOSE_ID); simpl; [|by split; [|intros (_ & ? & _)]].
  case_match; [rewrite orb_true_iff, !bool_decide_eq_true|rewrite bool_decide_eq_true];
    (split; [intros Hc; split_and!; [by split|done|done]|by intros (_ & _ & ?)]).
Qed.

Lemma resolved_requests question now :
  q_requests (rs_query (resolve question now)) =
    if bool_decide (caseIdForQuestion question = Some synthesis_121) then [case_request tool_assessment (resolved_id question)]
    else [case_request facts (resolved_id question); case_request tool_rules (resolved_id question)].
Proof. done. Qed.

Lemma request_authorized session question now r :
  controlled session -> r ∈ q_requests (rs_query (resolve question now)) ->
  authorizes session CONTROLLED_PURPOSE_ID (rq_tool r) (rq_arguments r) = true.
Proof.
  intros Hc Hr. rewrite resolved_requests in Hr. apply authorizes_true. split_and!; [done|done|].
  assert (field (rq_arguments r) "case_id" = Some (JStr (resolved_id question)) /\
          (caseIdForQuestion question = None -> rq_tool r = facts \/ rq_tool r = tool_rules)) as [-> Htool].
  { case_bool_decide as H121.
    - apply list_elem_of_singleton in Hr as ->. split; [done|]. by rewrite H121.
    - apply elem_of_cons in Hr as [->|Hr%list_elem_of_singleton]; [|subst r]; (split; [done|auto]). }
  unfold resolved_id in *. destruct (caseIdForQuestion question) as [c|].
  - rewrite case_text_resolved, controlled_case_text. done.
  - by apply Htool.
Qed.

(** ** The catalog *)

Lemma catalog_case cases catalog c :
  newCatalog cases = Ok catalog ->
  exists item, map_get c catalog = Some item /\ head (filter (fun x => cc_case_id x = case_text c) cases) = Some item.
Proof.
  unfold newCatalog, requiredCaseIds, add_case. cbn [fold_result]. intros Hc.
  repeat match type of Hc with
  | (_ ≫= _) = Ok _ =>
      let m := fresh "m" in let i := fresh "i" in let Hi := fresh "Hi" in
      apply bind_Ok in Hc as (m & (i & Hi%defined_Ok & [= <-])%bind_Ok & Hc)
  end.
  injection Hc as <-. destruct c; eexists; (split; [vm_compute; reflexivity|done]).
Qed.

Lemma filter_none {A} (P : A -> Prop) `{!forall x, Decision (P x)} (l : list A) : Forall (fun x => ~ P x) l -> filter P l = [].
Proof. induction 1 as [|x l Hx _ IH]; [done|]. by rewrite filter_cons, decide_False. Qed.

(** The first records answer the facts, the last one the rules. *)
Lemma indexed_split {A} (l : list A) :
  (snd <$> filter (fun p => (p.1 <? length l - 1)%nat = true) (imap pair l)) ++
  (snd <$> filter (fun p => (p.1 =? length l - 1)%nat = true) (imap pair l)) = l.
Proof.
  destruct l as [|x l _] using rev_ind; [done|]. rewrite length_app, Nat.add_sub, imap_app, !filter_app, !fmap_app. simpl.
  rewrite Nat.add_0_r. assert (Forall (fun p => (p.1 < length l)%nat) (imap pair l)) as Hlt.
  { apply Forall_forall. intros [i y] (j & z & Heq & Hj)%elem_of_lookup_imap. injection Heq as -> ->. by apply lookup_lt_Some in Hj. }
  rewrite (filter_all _ (imap pair l)), (filter_none _ (imap pair l)).
  - rewrite !filter_cons, !filter_nil. rewrite decide_False by (simpl; rewrite Nat.ltb_irrefl; done).
    rewrite decide_True by (simpl; apply Nat.eqb_refl). simpl. rewrite app_nil_r. f_equal.
    rewrite <- (list_fmap_id l) at 2. apply list_eq. intros i. rewrite !list_lookup_fmap, list_lookup_imap. by destruct (l !! i).
  - eapply Forall_impl; [exact Hlt|]. intros [i y] Hi. simpl in *. intros Heq%Nat.eqb_eq. lia.
  - eapply Forall_impl; [exact Hlt|]. intros [i y] Hi. simpl in *. by apply Nat.ltb_lt.
Qed.

Section Execution.
Context `{CanonicalJson, Sha256}.

(** What the assistant is shown of a question: all the records of its case. *)
Definition case_supports (catalog : ControlledCaseCatalog) (question : string) : list AssistantSupport :=
  match caseIdForQuestion question with
  | None => []
  | Some c => match map_get c catalog with None => [] | Some item => toSupport c <$> cc_records item end
  end.

Definition request_supports (catalog : ControlledCaseCatalog) (r : ToolRequest) : list AssistantSupport :=
  supports catalog (field (rq_arguments r) "case_id") (rq_tool r).

Lemma belongs_all c (l : list CorpusRecord) last_ :
  c = synthesis_121 -> filter (fun p => recordBelongsToTool c tool_assessment p.1 last_ = true) (imap pair l) = imap pair l.
Proof. intros ->. apply filter_all, Forall_true. done. Qed.

Lemma snd_imap {A} (l : list A) : snd <$> imap pair l = l.
Proof. rewrite <- (list_fmap_id l) at 2. apply list_eq. intros i. rewrite !list_lookup_fmap, list_lookup_imap. by destruct (l !! i). Qed.

Lemma case_supports_split catalog question now :
  concat (request_supports catalog <$> q_requests (rs_query (resolve question now))) = case_supports catalog question.
Proof.
  rewrite resolved_requests. unfold case_supports, resolved_id. destruct (caseIdForQuestion question) as [c|] eqn:Hq.
  - case_bool_decide as H121.
    + injection H121 as ->. unfold request_supports, supports, case_request. cbn [fmap list_fmap concat rq_arguments rq_tool].
      cbn [field map_get]. rewrite decide_True by done. rewrite controlled_case_text. destruct (map_get _ catalog) as [item|]; [|done].
      rewrite belongs_all, app_nil_r by done. rewrite list_fmap_compose. by rewrite snd_imap.
    + unfold request_supports, supports, case_request. cbn [fmap list_fmap concat rq_arguments rq_tool].
      cbn [field map_get]. rewrite decide_True by done. rewrite controlled_case_text. destruct (map_get _ catalog) as [item|]; [|done].
      rewrite app_nil_r, !list_fmap_compose, <- fmap_app. f_equal. rewrite <- (indexed_split (cc_records item)) at 3.
      assert (c <> synthesis_121) as Hc by (intros ->; by apply H121).
      f_equal; f_equal; apply list_filter_iff; intros [i r]; unfold recordBelongsToTool; rewrite bool_decide_false by done; done.
  - rewrite bool_decide_false by done. reflexivity.
Qed.

Lemma registry_tool catalog reg tool :
  controlledToolRegistry catalog = Ok reg ->
  map_get tool reg = Some (if decide (tool = protected_search) then protected_tool catalog else case_tool catalog tool).
Proof. unfold controlledToolRegistry, new_registry. cbn. intros [= <-]. by destruct tool. Qed.

(** The same, read off the corpus: its first case of that name. *)
Definition corpus_supports (cases : list CorpusCase) (question : string) : list AssistantSupport :=
  match caseIdForQuestion question with
  | None => []
  | Some c =>
      match head (filter (fun item => cc_case_id item = case_text c) cases) with
      | None => []
      | Some item => toSupport c <$> cc_records item
      end
  end.

Lemma corpus_supports_catalog cases catalog question :
  newCatalog cases = Ok catalog -> case_supports catalog question = corpus_supports cases question.
Proof.
  intros Hcat. unfold case_supports, corpus_supports. destruct (caseIdForQuestion question) as [c|]; [|done].
  by destruct (catalog_case _ _ c Hcat) as (item & -> & ->).
Qed.

Lemma answered_controlled catalog reg query session r l :
  controlledToolRegistry catalog = Ok reg ->
  answered reg controlled_authorizer query session r l <->
  authorizes session (q_purpose_id query) (rq_tool r) (rq_arguments r) = true /\ rq_tool r <> protected_search /\
  l = request_supports catalog r.
Proof.
  intros Hreg. unfold answered, controlled_authorizer. setoid_rewrite (registry_tool _ _ (rq_tool r) Hreg). split.
  - intros (tool & [= <-] & [= Ha] & Hx). case_decide as Hp; [done|]. simpl in Hx. injection Hx as <-. by split_and!.
  - intros (Ha & Hp & ->). eexists. split; [reflexivity|]. rewrite decide_False by done. by rewrite Ha.
Qed.

(** C22. A question to the research interface is answered from the records of its case and
    from nothing else. For the controlled identity every request of the resolved query is
    authorized, and the tools give exactly the records of the case the question names, each
    once and in the order of the corpus (none if it names none), provided they are valid
    supports without repetition. Nobody else and no other purpose gets a record, and the
    protected search, which has no verification behind it, never answers. *)
Theorem controlled_execution cases catalog reg :
  newCatalog cases = Ok catalog -> controlledToolRegistry catalog = Ok reg ->
  (forall question now session execution, controlled session ->
     execute_tools reg controlled_authorizer (rs_query (resolve question now)) session = Ok execution <->
     let shown := corpus_supports cases question in
     Forall (fun s => assistantSupport s = true) shown /\ distinct shown /\
     execution = mkToolExecution shown (rq_tool <$> q_requests (rs_query (resolve question now)))
                   (existsb (fun s => looksLikeEmbeddedInstruction (content s)) shown)) /\
  (forall query session r l, answered reg controlled_authorizer query session r l ->
     controlled session /\ q_purpose_id query = CONTROLLED_PURPOSE_ID /\ rq_tool r <> protected_search).
Proof.
  intros Hcat Hreg. split.
  - intros question now session execution Hc. cbv zeta. rewrite <- (corpus_supports_catalog _ _ question Hcat).
    assert (distinct []) as Hnil by by split; constructor.
    assert (forall ls, Forall2 (answered reg controlled_authorizer (rs_query (resolve question now)) session)
                         (q_requests (rs_query (resolve question now))) ls <->
                       ls = request_supports catalog <$> q_requests (rs_query (resolve question now))) as Hans.
    { intros ls.
      assert (Forall (fun r => forall l, answered reg controlled_authorizer (rs_query (resolve question now)) session r l <->
                l = request_supports catalog r) (q_requests (rs_query (resolve question now)))) as Hall.
      { apply Forall_forall. intros r Hr l. rewrite (answered_controlled catalog) by done. split; [by intros (_ & _ & ->)|].
        intros ->. split_and!; [by eapply request_authorized| |done]. rewrite resolved_requests in Hr.
        case_bool_decide; [by apply list_elem_of_singleton in Hr as ->|].
        by apply elem_of_cons in Hr as [->|Hr%list_elem_of_singleton]; [|subst r]. }
      revert ls. induction Hall as [|r rs Hr _ IH]; intros ls; csimpl.
      - split; [by intros ->%Forall2_nil_inv_l|intros ->; constructor].
      - split; [intros (l & ls' & Hl & Hls & ->)%Forall2_cons_inv_l|intros ->; constructor; [by apply Hr|by apply IH]].
        apply Hr in Hl as ->. f_equal. by apply IH. }
    unfold execute_tools. rewrite bind_Ok. setoid_rewrite (execute_requests_Ok reg controlled_authorizer _ session [] _ _ Hnil).
    setoid_rewrite Hans. rewrite <- (case_supports_split catalog question now). split.
    + intros (c & (ls & -> & Hf & Hd & ->) & [= <-]). by split_and!.
    + intros (Hf & Hd & ->). eexists. split; [eexists; split; [reflexivity|by split_and!]|done].
  - intros query session r l (Ha & Hp & _)%(answered_controlled catalog); [|done].
    by apply authorizes_true in Ha as (? & ? & _).
Qed.

End Execution.

(** ** A corpus *)

Module CasesSample.

Definition record (n : nat) : CorpusRecord :=
  mkCorpusRecord ("support-" +:+ number_to_string (Z.of_nat n)) (controlled_urn "evidence" n) 1 "Battery SYN-101 is at 80 percent." None.

Definition cases : list CorpusCase :=
  (fun c => mkCorpusCase (case_text c) None (if bool_decide (c = synthesis_101) then [record 1; record 2] else [record 3])) <$> requiredCaseIds.

Definition question : string := "What is recorded for battery 101?".

Definition catalog : ControlledCaseCatalog := Eval vm_compute in match newCatalog cases with Ok c => c | Throw _ => [] end.

End CasesSample.

Lemma controlled_execution_witness :
  corpusSchema CasesSample.cases = true /\
  exists reg, controlledToolRegistry CasesSample.catalog = Ok reg /\
  exists execution, execute_tools reg controlled_authorizer (rs_query (resolve CasesSample.question 1)) (controlledActorSession 1) = Ok execution /\
    support_id <$> ex_supports execution = ["support-1"; "support-2"]%string.
Proof.
  split; [vm_compute; reflexivity|].
  assert (newCatalog CasesSample.cases = Ok CasesSample.catalog) as Hcat by (vm_compute; reflexivity).
  destruct (controlledToolRegistry CasesSample.catalog) as [reg|] eqn:Hreg; [|discriminate]. exists reg. split; [reflexivity|].
  destruct (controlled_execution CasesSample.cases CasesSample.catalog reg Hcat Hreg) as [H _].
  assert (controlled (controlledActorSession 1)) as Hc by (split; reflexivity).
  eexists. split.
  - apply (H CasesSample.question 1 (controlledActorSession 1) _ Hc). split; [|split; [|reflexivity]].
    + apply (bool_decide_unpack _). vm_compute. reflexivity.
    + split; apply (bool_decide_unpack _); vm_compute; reflexivity.
  - vm_compute. reflexivity.
Defined.
