(* ===== verification/InterfaceAssessment.v ===== *)
(** * The controlled assessments of the research interface

    [runAssessment] of [src/src/interface/service.ts]: three scenarios of one assessment, run
    through [RouteAssessmentService] (Assessment.v). The order of two categories in
    [localeCompare] is that of their code units. *)

From S2P Require Import Prelude Regex Digits Decimal Base64 Schemas Rules Assessment.

Local Open Scope Z_scope.

Inductive AssessmentScenario := nominal | scenario_missing | scenario_conflicting.

Definition ASSESSMENT_SCENARIOS : list AssessmentScenario := [nominal; scenario_missing; scenario_conflicting].

#[local] Instance AssessmentScenario_eq : EqDecision AssessmentScenario := ltac:(solve_decision).

Record AssessmentPresentation := mkPresentation {
  ap_scenario : AssessmentScenario;
  ap_scenarioLabel : string;
  ap_result : AssessmentResult
}.

Definition NOW : Z := 1776033600.

Definition interface_urn (kind : string) (n : nat) : string :=
  ("urn:evllm:" +:+ kind +:+ ":00000000-0000-4000-8000-" +:+
   string_of_list_ascii (pad_start 12 (number_chars (Z.of_nat n))))%string.

(** [FORMAL_ROUTES.indexOf(routeId)] *)
Definition route_index (r : FormalRoute) : Z :=
  match r with continued_use => 0 | stationary_storage => 1 | recycling => 2 end.

Definition text_number (n : Z) : string := number_to_string n.

Definition field_state (name : string) (is_verified is_critical : bool) : EvidenceFieldState :=
  mkEvidenceFieldState true false is_critical true name true false is_verified.

(** [route(routeId, rating)] *)
Definition route (r : FormalRoute) (rating : Z) : RouteAssessmentInput :=
  let routeIndex := route_index r in
  let cashFlow := 60 - routeIndex * 2 in
  mkRouteAssessmentInput
    [mkCriterion "resource-retention" (Some rating) "0.5"; mkCriterion "information-availability" (Some rating) "0.5"]
    (mkEconomicScenario [mkCashFlow "50" 1; mkCashFlow (text_number cashFlow) 2] "EUR" "0" "-100")
    [mkTerm "climate-change" "2" "processing" false "5" "kg-co2e/service";
     mkTerm "climate-change" "1" "recovery-credit" true "2" "kg-co2e/service";
     mkTerm "mineral-depletion" "1" "materials" false "2" "kg-sb-e/service"]
    [field_state "diagnostic-condition" true true; field_state "service-history" false false]
    "2" r
    (mkRuleEvaluation PASS [("technical-condition"%string, PASS)] [] (mkReference (interface_urn "rule" 40) 1)
       [mkReference (interface_urn "source" 41) 1])
    ((fun id => mkScenario PASS id (Some (routeIndex + 1))) <$> ["low"; "central"; "high"]%string)
    (Some [mkPercentilePoint "0.025" (text_number (9 - routeIndex)); mkPercentilePoint "0.5" (text_number (11 - routeIndex));
           mkPercentilePoint "0.975" (text_number (13 - routeIndex))]).

Definition with_evidence (l : list EvidenceFieldState) (i : RouteAssessmentInput) : RouteAssessmentInput :=
  mkRouteAssessmentInput (circularity i) (economics i) (environmental i) l (functionalUnit i) (routeId i) (ruleEvaluation i)
    (uncertaintyScenarios i) (uncertaintyPercentiles i).

Definition with_scenarios (l : list UncertaintyScenario) (i : RouteAssessmentInput) : RouteAssessmentInput :=
  mkRouteAssessmentInput (circularity i) (economics i) (environmental i) (evidence i) (functionalUnit i) (routeId i)
    (ruleEvaluation i) l (uncertaintyPercentiles i).

Definition not_present (e : EvidenceFieldState) : EvidenceFieldState :=
  mkEvidenceFieldState (authorized e) (conflicting e) (critical e) (current e) (field e) false (revoked e) (verified e).
Definition in_conflict (e : EvidenceFieldState) : EvidenceFieldState :=
  mkEvidenceFieldState (authorized e) true (critical e) (current e) (field e) (present e) (revoked e) (verified e).

(** The first evidence item of the first route, changed *)
Definition change_first (f : EvidenceFieldState -> EvidenceFieldState) (routes : list RouteAssessmentInput) :
    list RouteAssessmentInput :=
  alter (fun r => with_evidence (alter f 0%nat (evidence r)) r) 0%nat routes.

Definition setScenarioRank (routeIndex : nat) (routeRank_ : Z) (routes : list RouteAssessmentInput) : list RouteAssessmentInput :=
  alter (fun r => with_scenarios
    ((fun s => mkScenario (scenario_gate s) (scenario_id s) (Some routeRank_)) <$> uncertaintyScenarios r) r) routeIndex routes.

(** The inputs of a scenario *)
Definition scenario_routes (scenario : AssessmentScenario) : list RouteAssessmentInput :=
  let routes := (fun r => route r (5 - route_index r)) <$> FORMAL_ROUTES in
  match scenario with
  | nominal => routes
  | scenario_missing => setScenarioRank 2 2 (setScenarioRank 1 1 (change_first not_present routes))
  | scenario_conflicting => setScenarioRank 2 2 (setScenarioRank 1 1 (change_first in_conflict routes))
  end.

Definition routeName (r : FormalRoute) : string :=
  match r with
  | continued_use => "Continued compatible EV use"
  | stationary_storage => "Stationary storage repurposing"
  | recycling => "Recycling"
  end.

Definition route_context (r : FormalRoute) : RouteContext :=
  mkRouteContext (route_text r) (routeName r) "EU controlled scenario" (mkDecimalQuantity "2" (interface_urn "unit" 5) 1)
    "Controlled second-life duty context" (mkDecimalRange "1" "2") (mkDecimalQuantity "1" (interface_urn "unit" 6) 1)
    (mkDecimalQuantity "1" (interface_urn "unit" 7) 1) "EU grid scenario" "Declared alternative" "Declared recovery process"
    [] [] [] [].

Definition basis_with (calculation_inputs : Digest) : AssessmentInputPayload :=
  let inputId := interface_urn "assessment" 1 in
  mkAssessmentInputPayload "EVLLM_ASSESSMENT_INPUT_PAYLOAD_V1" inputId 1 (interface_urn "battery" 14) "EU" NOW
    [mkReference (interface_urn "evidence" 14) 1] [mkReference (interface_urn "rule" 40) 1]
    (mkReference "contextual-route-assessment" 1) calculation_inputs
    (route_context continued_use, route_context stationary_storage, route_context recycling)
    (interface_urn "org" 8) (interface_urn "role" 9) NOW
    (mkProtectedBundleRef "EVLLM_PROTECTED_BUNDLE_REF_V1" (interface_urn "bundle" 10) 1 1 (interface_urn "org" 8)
       (interface_urn "schema" 11) "1.0.0" "decision-critical" (interface_urn "profile" 12) 1 bt_assessment inputId).

Section Run.
#[local] Existing Instance code_unit_locale.
Context {HI : CanonicalHash (list RouteAssessmentInput)} {HR : CanonicalHash Reproduction}.

Definition assessmentBasis (routes : list RouteAssessmentInput) : AssessmentInputPayload :=
  basis_with (routeCalculationInputsDigest routes).

Definition scenario_label (s : AssessmentScenario) : string :=
  match s with
  | nominal => "Complete compatible records"
  | scenario_missing => "Missing critical record"
  | scenario_conflicting => "Conflicting critical records"
  end.

Definition runAssessment (scenario : AssessmentScenario) : result AssessmentError AssessmentPresentation :=
  let routes := scenario_routes scenario in
  result_ ← assess (assessmentBasis routes) routes;
  Ok (mkPresentation scenario (scenario_label scenario) result_).

(** ** What the scenarios show *)

Lemma basis_valid d : digest d = true -> assessmentInputPayload (basis_with d) = true.
Proof.
  intros Hd. unfold assessmentInputPayload, basis_with. cbn [candidate_routes calculation_inputs_digest]. rewrite Hd.
  vm_compute. reflexivity.
Qed.

Lemma check_scenario scenario :
  (forall l : list RouteAssessmentInput, digest (canonical_hash l) = true) ->
  check_basis (assessmentBasis (scenario_routes scenario)) (scenario_routes scenario) = Ok tt.
Proof.
  intros Hd.
  assert (Hv : assessmentInputPayload (assessmentBasis (scenario_routes scenario)) = true) by (apply basis_valid, Hd).
  unfold check_basis. rewrite Hv.
  change (calculation_inputs_digest (assessmentBasis (scenario_routes scenario)))
    with (routeCalculationInputsDigest (scenario_routes scenario)).
  rewrite (bool_decide_true (routeCalculationInputsDigest _ = _)) by done. unfold assessmentBasis.
  generalize (routeCalculationInputsDigest (scenario_routes scenario)). intros d.
  destruct scenario; vm_compute; reflexivity.
Qed.

(** The state, the recommendation, the gates and the warnings a scenario's name announces *)
Definition expected_state (s : AssessmentScenario) : DecisionState :=
  match s with nominal => answer | scenario_missing => abstain | scenario_conflicting => requires_external_decision end.

Definition expected_gates (s : AssessmentScenario) : list Outcome :=
  match s with nominal => [PASS; PASS; PASS] | _ => [UNKNOWN; PASS; PASS] end.

Definition expected_warnings (s : AssessmentScenario) : list string :=
  match s with
  | nominal => []
  | scenario_missing => ["MISSING_OR_INSUFFICIENT_CRITICAL_EVIDENCE"]
  | scenario_conflicting => ["MISSING_OR_INSUFFICIENT_CRITICAL_EVIDENCE"; "CRITICAL_EVIDENCE_CONFLICT"]
  end%string.

Definition as_announced (s : AssessmentScenario) (u : UnsignedResult) : Prop :=
  decisionState u = expected_state s /\
  preferredRoute u = (if bool_decide (s = nominal) then Some continued_use else None) /\
  G <$> routes u = expected_gates s /\ warnings u = expected_warnings s.

(** The routes are assessed independently of the digest. *)
Lemma decide_scenario scenario :
  exists rs, map_result assessRoute (scenario_routes scenario) = Ok rs /\
    validateEnvironmentalResultUnits rs = Ok tt /\
    forall d, exists u, decide_routes (basis_with d) (scenario_routes scenario) rs = Ok u /\ as_announced scenario u.
Proof.
  destruct scenario; eexists; (split; [vm_compute; reflexivity|]); (split; [vm_compute; reflexivity|]);
    intros d; eexists; (split; [vm_compute; reflexivity|]); vm_compute; repeat split; reflexivity.
Qed.

(** Whatever scenario the page submits, [runAssessment] returns a presentation and never throws:
    the basis and the inputs it builds pass every check of [RouteAssessmentService.assess] (the schema,
    the route order, the units, the digest of the calculation inputs it recomputes), and the decision is
    the one the scenario announces. Complete records recommend continued use; a missing critical record
    makes the first route's gate unknown and the service abstains with a warning; a conflicting one makes
    it require an external decision; neither recommends a route. *)
Theorem scenarios_as_announced scenario :
  (forall l : list RouteAssessmentInput, digest (canonical_hash l) = true) ->
  exists p, runAssessment scenario = Ok p /\ ap_scenario p = scenario /\
    as_announced scenario (unsigned (ap_result p)).
Proof.
  intros Hd. destruct (decide_scenario scenario) as (rs & Hrs & Hu & Hdec).
  destruct (Hdec (routeCalculationInputsDigest (scenario_routes scenario))) as (u & Hok & Ha).
  assert (Hrun : runAssessment scenario = Ok (mkPresentation scenario (scenario_label scenario)
    (mkAssessmentResult u (canonical_hash (mkReproduction (assessmentBasis (scenario_routes scenario))
       (scenario_routes scenario) u))))).
  { unfold runAssessment, assess. rewrite check_scenario by done. simpl. rewrite Hrs. simpl. rewrite Hu. simpl.
    unfold assessmentBasis. rewrite Hok. reflexivity. }
  eexists. split; [exact Hrun|]. by split.
Qed.
End Run.

(** A constant digest of 32 bytes stands for SHA-256. *)
Module ScenarioSample.
#[local] Existing Instance code_unit_locale.
Definition sample_digest : Digest := mkDigest "SHA-256" "AAAAAAAAAAAAAAAAAAAAAAAAAAAAAAAAAAAAAAAAAAA".
#[local] Instance inputs_hash : CanonicalHash (list RouteAssessmentInput) := fun _ => sample_digest.
#[local] Instance reproduction_hash : CanonicalHash Reproduction := fun _ => sample_digest.

Lemma scenarios_as_announced_witness :
  exists p, runAssessment scenario_conflicting = Ok p /\ ap_scenario p = scenario_conflicting /\
    as_announced scenario_conflicting (unsigned (ap_result p)).
Proof. apply scenarios_as_announced. intros l. vm_compute. reflexivity. Defined.
End ScenarioSample.
