(* ===== verification/Observability.v ===== *)
(** * Logging, readiness and the migration policy

    [src/src/observability/redaction.ts] and [logger.ts], [src/src/health/readiness.ts] and
    [src/src/db/migration-policy.ts]. What is logged is a graph of objects, which may be
    cyclic: a value is a primitive or the address of an object in a heap. The members of an
    object come in the order of [Object.entries]. *)

From S2P Require Import Prelude Regex EcmaRegExp Text.

(** ** Values that are logged *)

Inductive LogValue :=
| log_text (s : string)
| log_number (n : Z)
| log_boolean (b : bool)
| log_null
| log_undefined
| log_object (address : nat).

(** An [Error] holds its message, its stack and what else was set on it besides its name. *)
Inductive LogNode :=
| error_node (name : string) (rest : list (string * LogValue))
| array_node (items : list LogValue)
| object_node (members : list (string * LogValue)).

Definition LogHeap := nat -> LogNode.

(** What a line shows *)
Inductive Redacted :=
| shown_text (s : string)
| shown_number (n : Z)
| shown_boolean (b : bool)
| shown_null
| shown_undefined
| shown_array (items : list Redacted)
| shown_object (members : list (string * Redacted)).

Definition redacted : string := "[REDACTED]".

Definition sensitiveKey : regexp := Eval vm_compute in
  re "(?:password|secret|token|private.?key|plaintext|\bdek\b|salt|prompt|domain.?payload|protected.?content|recipient.?envelope|controller.?envelope|object.?id|locator|credential)" "iu".

Definition is_sensitive (key : string) : bool := re_test sensitiveKey key.

(** [redactForLog(value, depth)], [levels] being 9 - [depth]: at depth 9 nothing more is
    looked at. *)
Fixpoint redact_levels (h : LogHeap) (levels : nat) (v : LogValue) : Redacted :=
  match levels with
  | O => shown_text "[DEPTH_LIMIT]"
  | S levels =>
      match v with
      | log_text s => shown_text s
      | log_number n => shown_number n
      | log_boolean b => shown_boolean b
      | log_null => shown_null
      | log_undefined => shown_undefined
      | log_object a =>
          match h a with
          | error_node name _ =>
              shown_object [("name", shown_text name); ("error_code", shown_text "INTERNAL_DEPENDENCY_ERROR")]%string
          | array_node items => shown_array (redact_levels h levels <$> items)
          | object_node members =>
              shown_object ((fun m => (m.1, if is_sensitive m.1 then shown_text redacted else redact_levels h levels m.2)) <$> members)
          end
      end
  end.

Definition redactForLog (h : LogHeap) (v : LogValue) : Redacted := redact_levels h 9 v.

(** ** The logger *)

Inductive LogLevel := level_info | level_warn | level_error.

Definition level_text (l : LogLevel) : string :=
  match l with level_info => "info" | level_warn => "warn" | level_error => "error" end.

(** The object of a line, which [JSON.stringify] writes *)
Definition log_line (timestamp : string) (level : LogLevel) (event : string) (correlationId : option string)
    (h : LogHeap) (fields : LogValue) : Redacted :=
  shown_object
    [("timestamp", shown_text timestamp); ("level", shown_text (level_text level)); ("event", shown_text event);
     ("correlation_id", match correlationId with Some id => shown_text id | None => shown_null end);
     ("fields", redactForLog h fields)]%string.

Definition correlationIdPattern : string -> bool :=
  rtest (rx "^[0-9a-f]{8}-[0-9a-f]{4}-4[0-9a-f]{3}-[89ab][0-9a-f]{3}-[0-9a-f]{12}$").

(** [candidate] is the header, if there is one; [random] is [randomUUID()]. *)
Definition canonicalCorrelationId (candidate : option string) (random : string) : string :=
  match candidate with Some s => if correlationIdPattern s then s else random | None => random end.

(** ** Readiness *)

(** How a probe stands when it or its timer settles first *)
Inductive ProbeOutcome := probe_fulfilled | probe_rejected | probe_timed_out.

Record ReadinessCheck := mkCheck { check_name : string; probe : ProbeOutcome }.

Record ReadinessResult := mkReadiness { readiness_checks : list (string * bool); readiness_ready : bool }.

(** [probeWithin] rejects with the probe, or when the timer does. *)
Definition probeWithin (c : ReadinessCheck) : result unit unit :=
  match probe c with probe_fulfilled => Ok tt | probe_rejected | probe_timed_out => Throw tt end.

(** [Promise.allSettled] keeps the order of the checks; [true] is [ready]. *)
Definition evaluateReadiness (checks : list ReadinessCheck) : ReadinessResult :=
  let results := probeWithin <$> checks in
  let evaluated := imap (fun i c => (check_name c, match results !! i with Some (Ok _) => true | _ => false end)) checks in
  mkReadiness evaluated (forallb snd evaluated).

Definition readiness_status (r : ReadinessResult) : Z := if readiness_ready r then 200 else 503.

(** ** The migration policy *)

Inductive AppEnvironment := env_development | env_test | env_production.
Inductive MigrationDirection := migrate_up | migrate_down.
Inductive MigrationPolicyDecision :=
| migration_allowed (direction : MigrationDirection)
| rollback_prohibited (message : string).

#[global] Instance AppEnvironment_eq_dec : EqDecision AppEnvironment.
Proof. solve_decision. Defined.
#[global] Instance MigrationDirection_eq_dec : EqDecision MigrationDirection.
Proof. solve_decision. Defined.

Definition decideMigrationPolicy (environment : AppEnvironment) (direction : MigrationDirection) : MigrationPolicyDecision :=
  if bool_decide (environment = env_production) && bool_decide (direction = migrate_down)
  then rollback_prohibited "Destructive database rollback is prohibited in production."
  else migration_allowed direction.

(** * Facts *)

(** Two graphs a reader of the log may not tell apart: they may differ below sensitive keys,
    in everything of an error but its name, and in where their objects lie. *)
Definition alike (h h' : LogHeap) (R : LogValue -> LogValue -> Prop) (v w : LogValue) : Prop :=
  match v, w with
  | log_object a, log_object b =>
      match h a, h' b with
      | error_node name _, error_node name' _ => name = name'
      | array_node l, array_node l' => Forall2 R l l'
      | object_node ms, object_node ms' => Forall2 (fun m m' => m.1 = m'.1 /\ (is_sensitive m.1 = false -> R m.2 m'.2)) ms ms'
      | _, _ => False
      end
  | log_object _, _ | _, log_object _ => False
  | _, _ => v = w
  end.

Lemma redact_alike h h' R levels v w :
  (forall v w, R v w -> alike h h' R v w) -> R v w -> redact_levels h levels v = redact_levels h' levels w.
Proof.
  intros HR. revert v w. induction levels as [|levels IH]; intros v w Hvw; [done|].
  apply HR in Hvw. destruct v as [s|n|x| | |a], w as [s'|n'|x'| | |a']; simpl in *; try done; try congruence.
  destruct (h a), (h' a'); try done; [by rewrite Hvw| |]; f_equal.
  - induction Hvw as [|x y l l' Hxy _ IHl]; csimpl; [done|]. by rewrite (IH _ _ Hxy), IHl.
  - induction Hvw as [|x y l l' [Hk Hxy] _ IHl]; csimpl; [done|]. rewrite IHl, <- Hk.
    destruct (is_sensitive x.1); [done|]. by rewrite (IH _ _ (Hxy eq_refl)).
Qed.

(** [r] lies [n] levels below [whole]. *)
Inductive part_at : nat -> Redacted -> Redacted -> Prop :=
| part_whole whole : part_at 0 whole whole
| part_item n whole items r : part_at n whole (shown_array items) -> r ∈ items -> part_at (S n) whole r
| part_member n whole members k r : part_at n whole (shown_object members) -> (k, r) ∈ members -> part_at (S n) whole r.

(** What is shown at a level *)
Definition at_level (h : LogHeap) (levels : nat) (r : Redacted) : Prop :=
  (exists v, r = redact_levels h levels v) \/ exists s, r = shown_text s.

Lemma shown_parts h levels r :
  at_level h levels r ->
  (forall items x, r = shown_array items -> x ∈ items -> (0 < levels)%nat /\ at_level h (levels - 1) x) /\
  (forall members k x, r = shown_object members -> (k, x) ∈ members ->
     (0 < levels)%nat /\ at_level h (levels - 1) x /\ (is_sensitive k = true -> x = shown_text redacted)).
Proof.
  intros [[v ->]|[s ->]]; [|done]. destruct levels as [|levels]; [done|]. simpl. rewrite Nat.sub_0_r.
  destruct v as [| | | | |a]; try done. destruct (h a) as [name rest|items|members].
  - split; [done|]. intros ms k x [= <-] [[= -> ->]|[[= -> ->]|Hx%not_elem_of_nil]%elem_of_cons]%elem_of_cons; [..|done];
      (split; [lia|]; split; [by right; eexists|by vm_compute]).
  - split; [|done]. intros its x [= <-] (v & -> & _)%list_elem_of_fmap. split; [lia|]. left. by exists v.
  - split; [done|]. intros ms k x [= <-] ([k' v] & [= -> ->] & _)%list_elem_of_fmap. simpl. split; [lia|].
    destruct (is_sensitive k'); [split; [right; by eexists|done]|]. split; [|done]. left. by exists v.
Qed.

Lemma part_level h v n r : part_at n (redactForLog h v) r -> (n <= 9)%nat /\ at_level h (9 - n) r.
Proof.
  intros Hp. remember (redactForLog h v) as whole eqn:Hw. induction Hp as [whole|n whole items r _ IH Hr|n whole ms k r _ IH Hr].
  - split; [lia|]. subst. left. by exists v.
  - destruct (IH Hw) as [Hn Ha]. apply shown_parts in Ha as [Ha _]. destruct (Ha _ _ eq_refl Hr) as [Hl Hx].
    split; [lia|]. by replace (9 - S n)%nat with (9 - n - 1)%nat by lia.
  - destruct (IH Hw) as [Hn Ha]. apply shown_parts in Ha as [_ Ha]. destruct (Ha _ _ _ eq_refl Hr) as (Hl & Hx & _).
    split; [lia|]. by replace (9 - S n)%nat with (9 - n - 1)%nat by lia.
Qed.

(** C29. The log does not tell secrets, whatever graph of objects it is given. Two graphs that
    differ only below sensitive keys, in the message or any other part of an error, or in
    where their objects lie, are logged the same; every member with a sensitive key is
    shown redacted, however deep it is; and nothing lies more than nine levels deep, so that
    logging ends even when the graph is cyclic. *)
Theorem redaction_sound h h' R v w :
  (forall v w, R v w -> alike h h' R v w) -> R v w ->
  redactForLog h v = redactForLog h' w /\
  (forall n members k r, part_at n (redactForLog h v) (shown_object members) -> (k, r) ∈ members ->
     is_sensitive k = true -> r = shown_text redacted) /\
  (forall n r, part_at n (redactForLog h v) r -> (n <= 9)%nat).
Proof.
  intros HR Hvw. split; [by eapply redact_alike|]. split; [|by intros n r [? _]%part_level].
  intros n ms k r [_ Ha]%part_level Hr Hk. apply shown_parts in Ha as [_ Ha]. by destruct (Ha _ _ _ eq_refl Hr) as (_ & _ & ?); auto.
Qed.

(** A cyclic object with a password, an error and itself *)
Module RedactionSample.
Local Open Scope string_scope.
Definition graph (password message : string) : LogHeap := fun a =>
  match a with
  | O => object_node [("user", log_text "ann"); ("Password", log_text password); ("cause", log_object 1); ("self", log_object 0)]
  | _ => error_node "TypeError" [("message", log_text message)]
  end.
Definition same (v w : LogValue) : Prop := v = w.
End RedactionSample.

Lemma redaction_sound_witness :
  redactForLog (RedactionSample.graph "a" "b") (log_object 0) = redactForLog (RedactionSample.graph "c" "d") (log_object 0).
Proof.
  apply (redaction_sound (RedactionSample.graph "a" "b") (RedactionSample.graph "c" "d") RedactionSample.same); [|reflexivity].
  intros v w ->. destruct w as [| | | | |[|a]]; try reflexivity. simpl.
  repeat constructor; intros Hs; try reflexivity. vm_compute in Hs. discriminate.
Defined.

(** The service is ready exactly when every probe answered in time, and every check is
    reported under its name, in order. *)
Theorem readiness_correct checks :
  (evaluateReadiness checks).(readiness_checks) = (fun c => (check_name c, match probe c with probe_fulfilled => true | _ => false end)) <$> checks /\
  ((evaluateReadiness checks).(readiness_ready) = true <-> Forall (fun c => probe c = probe_fulfilled) checks).
Proof.
  assert ((evaluateReadiness checks).(readiness_checks) =
    (fun c => (check_name c, match probe c with probe_fulfilled => true | _ => false end)) <$> checks) as Heq.
  { simpl. apply list_eq. intros i. rewrite list_lookup_imap, !list_lookup_fmap. destruct (checks !! i) as [c|]; [|done].
    simpl. unfold probeWithin. by destruct (probe c). }
  split; [done|]. change (readiness_ready (evaluateReadiness checks)) with (forallb snd (readiness_checks (evaluateReadiness checks))).
  rewrite Heq, forallb_forall, Forall_forall. split.
  - intros H c Hc. specialize (H _ (proj1 (list_elem_of_In _ _) (list_elem_of_fmap_2 _ _ _ Hc))). simpl in H. by destruct (probe c).
  - intros H x (c & -> & Hc)%list_elem_of_In%list_elem_of_fmap. simpl. by rewrite (H c Hc).
Qed.
