(* ===== verification/Zod.v ===== *)
(** * Schemas as values

    The files of [src/src/schemas] build their record schemas with the package zod: a schema
    is a value, put together by combinators, extended with further fields and used to parse
    a document. This file holds that language of schemas and what a document must be to be
    parsed, which is a boolean: what a parse returns is the document it is given, but for
    a default value (see EvaluationRecords.v) and the text of [z.url()]. The formats that zod checks with patterns of its own are parameters. *)

From S2P Require Import Prelude Regex Digits Base64 Schemas Json.

Local Open Scope Z_scope.

(** ** Schemas *)

(** A field of an object: its name, whether it is [optional()], and its schema. *)
Inductive zod :=
| ZString (check : string -> bool)
| ZInt (check : Z -> bool)
| ZBoolean
| ZLiteral (value : json)
| ZArray (item : zod) (lower : Z) (upper : option Z)
| ZTuple (items : list zod)
| ZObject (fields : list (string * (bool * zod)))
| ZRecord (key : string -> bool) (item : zod)
| ZUnion (options : list zod)
| ZRefine (base : zod) (refinement : json -> bool).

Definition fields_of := list (string * (bool * zod)).

Declare Scope zod_scope.
Delimit Scope zod_scope with zod.
Bind Scope zod_scope with zod.

Notation "k ⇒ s" := (k%string, (false, s)) (at level 60) : zod_scope.
Notation "k ⇒? s" := (k%string, (true, s)) (at level 60) : zod_scope.
Local Open Scope zod_scope.

(** [z.number().int()] takes the integers that a number holds exactly. *)
Definition safe_integer (n : Z) : bool := (- MAX_SAFE_INTEGER <=? n) && (n <=? MAX_SAFE_INTEGER).

Definition z_bounded (lower : Z) (upper : option Z) (n : nat) : bool :=
  (lower <=? Z.of_nat n) && match upper with Some u => Z.of_nat n <=? u | None => true end.

(** [schema.safeParse(v).success]. A list of members with a name twice is no object. What a
    parse returns is not modelled: it is the document, except that [z.url()] returns its
    text without the white space around it ([content_schema_uri] of a schema record and
    [url] of a licensed source), which does not change what is accepted. *)
Fixpoint accepts (s : zod) (v : json) {struct s} : bool :=
  match s with
  | ZString check => z_string check v
  | ZInt check => z_number (fun n => safe_integer n && check n) v
  | ZBoolean => match v with JBool _ => true | _ => false end
  | ZLiteral l => strict_equal (Some l) (Some v)
  | ZArray item lower upper =>
      match v with JArr l => forallb (accepts item) l && z_bounded lower upper (length l) | _ => false end
  | ZTuple items =>
      match v with
      | JArr l =>
          (fix go (ss : list zod) (vs : list json) : bool :=
             match ss, vs with [], [] => true | s :: ss, v :: vs => accepts s v && go ss vs | _, _ => false end) items l
      | _ => false
      end
  | ZObject fields =>
      match v with
      | JObj ms =>
          bool_decide (NoDup ms.*1) && forallb (fun m => includes m.1 fields.*1) ms &&
          forallb (fun f => match map_get f.1 ms with Some x => accepts f.2.2 x | None => f.2.1 end) fields
      | _ => false
      end
  | ZRecord key item =>
      match v with
      | JObj ms => bool_decide (NoDup ms.*1) && forallb (fun m => key m.1 && accepts item m.2) ms
      | _ => false
      end
  | ZUnion options => existsb (fun s => accepts s v) options
  | ZRefine base refinement => accepts base v && refinement v
  end.

(** [z.tuple(items)] takes the arrays of that length. *)
Fixpoint tuple_accepts (ss : list zod) (vs : list json) : bool :=
  match ss, vs with [], [] => true | s :: ss, v :: vs => accepts s v && tuple_accepts ss vs | _, _ => false end.

(** [schema.extend(more)]: a field given again replaces the earlier one. *)
Definition extend (s : zod) (more : fields_of) : zod :=
  match s with
  | ZObject fields => ZObject (filter (fun f => f.1 ∉ more.*1) fields ++ more)
  | _ => s
  end.

(** ** The leaves the schema files share *)

(** Formats that zod checks: [z.uuid()], [z.url()] and [z.string().datetime({ offset: true })] *)
Class ZodFormats := { z_uuid : string -> bool; z_url : string -> bool; z_datetime : string -> bool }.

Definition s_urn (kind : string) : zod := ZString (urn kind).
Definition s_positive : zod := ZInt positiveSafeInteger.
Definition s_nonnegative : zod := ZInt (fun n => 0 <=? n).
Definition s_timestamp : zod := ZInt timestamp.
Definition s_short : zod := ZString shortText.
Definition s_text : zod := ZString text.
Definition s_nonempty : zod := ZString (fun s => (1 <=? String.length s)%nat).
Definition s_prefix (prefix_ : string) : zod := ZString (String.prefix prefix_).
Definition s_lit (s : string) : zod := ZLiteral (JStr s).
Definition s_enum (l : list string) : zod := ZString (fun s => includes s l).
Definition s_digest : zod := ZObject ["alg" ⇒ s_lit "SHA-256"; "value" ⇒ ZString base64Url32].
Definition s_ref : zod := ZObject ["id" ⇒ s_nonempty; "version" ⇒ s_positive].
Definition s_chainLocator : zod :=
  ZObject ["chain_id" ⇒ s_positive; "transaction_hash" ⇒ ZString bytes32Hex;
           "block_number" ⇒ s_nonnegative; "log_index" ⇒ s_nonnegative].
Definition s_array (item : zod) (upper : Z) : zod := ZArray item 0 (Some upper).

(** ** What parsing promises *)

(** Messages that every reader understands alike (RFC 7493): no object has a name twice and
    every number is an integer that a double holds exactly. *)
Fixpoint interoperable (v : json) : bool :=
  match v with
  | JNull | JBool _ | JStr _ => true
  | JNum n => safe_integer n
  | JFloat _ => false
  | JArr l => forallb interoperable l
  | JObj ms => bool_decide (NoDup ms.*1) && forallb (fun m => interoperable m.2) ms
  end.

(** The literals of a schema are texts, booleans and integers; its refinements do not look at
    the order of members. *)
Fixpoint schema_ok (s : zod) : Prop :=
  match s with
  | ZString _ | ZInt _ | ZBoolean => True
  | ZLiteral l => match l with JStr _ | JBool _ => True | JNum n => safe_integer n = true | _ => False end
  | ZArray item _ _ | ZRecord _ item => schema_ok item
  | ZTuple items | ZUnion items => foldr (fun s P => schema_ok s /\ P) True items
  | ZObject fields => NoDup fields.*1 /\ foldr (fun f P => schema_ok f.2.2 /\ P) True fields
  | ZRefine base refinement => schema_ok base /\ forall v, interoperable v = true -> refinement (norm v) = refinement v
  end.

(** The text a document of the schema has as its ["schema"], if every one has the same *)
Fixpoint schema_tag (s : zod) : option string :=
  match s with
  | ZObject fields => match map_get "schema" fields with Some (false, ZLiteral (JStr t)) => Some t | _ => None end
  | ZRefine base _ => schema_tag base
  | ZUnion (s :: ss) =>
      t ← schema_tag s; if forallb (fun s => bool_decide (schema_tag s = Some t)) ss then Some t else None
  | _ => None
  end.

(** * Facts *)

Section ZodInd.
Context (P : zod -> Prop).
Context (Hstring : forall p, P (ZString p)) (Hint : forall p, P (ZInt p)) (Hbool : P ZBoolean).
Context (Hlit : forall l, P (ZLiteral l)) (Harr : forall s lo up, P s -> P (ZArray s lo up)).
Context (Htuple : forall l, Forall P l -> P (ZTuple l)) (Hobj : forall fs, Forall (fun f => P f.2.2) fs -> P (ZObject fs)).
Context (Hrec : forall k s, P s -> P (ZRecord k s)) (Hunion : forall l, Forall P l -> P (ZUnion l)).
Context (Hrefine : forall s r, P s -> P (ZRefine s r)).

Lemma zod_ind' : forall s, P s.
Proof.
  fix IH 1. intros [p|p| |l|s lo up|l|fs|k s|l|s r]; [apply Hstring|apply Hint|apply Hbool|apply Hlit|apply Harr, IH|..].
  - apply Htuple. induction l; constructor; [apply IH|done].
  - apply Hobj. induction fs as [|[k [o s]] fs IHfs]; constructor; [apply IH|done].
  - apply Hrec, IH.
  - apply Hunion. induction l; constructor; [apply IH|done].
  - apply Hrefine, IH.
Qed.
End ZodInd.

#[global] Arguments accepts : simpl never.

(** ** What each combinator takes *)

Lemma accepts_string p v : accepts (ZString p) v = z_string p v.
Proof. done. Qed.

Lemma accepts_int p v : accepts (ZInt p) v = z_number (fun n => safe_integer n && p n) v.
Proof. done. Qed.

Lemma accepts_literal l v : accepts (ZLiteral l) v = strict_equal (Some l) (Some v).
Proof. done. Qed.

Lemma accepts_array item lo up v :
  accepts (ZArray item lo up) v =
  match v with JArr l => forallb (accepts item) l && z_bounded lo up (length l) | _ => false end.
Proof. done. Qed.

Lemma accepts_tuple items v : accepts (ZTuple items) v = match v with JArr l => tuple_accepts items l | _ => false end.
Proof. done. Qed.

Lemma accepts_object fields v :
  accepts (ZObject fields) v =
  match v with
  | JObj ms =>
      bool_decide (NoDup ms.*1) && forallb (fun m => includes m.1 fields.*1) ms &&
      forallb (fun f => match map_get f.1 ms with Some x => accepts f.2.2 x | None => f.2.1 end) fields
  | _ => false
  end.
Proof. done. Qed.

Lemma accepts_record key item v :
  accepts (ZRecord key item) v =
  match v with JObj ms => bool_decide (NoDup ms.*1) && forallb (fun m => key m.1 && accepts item m.2) ms | _ => false end.
Proof. done. Qed.

Lemma accepts_union options v : accepts (ZUnion options) v = existsb (fun s => accepts s v) options.
Proof. done. Qed.

Lemma accepts_refine base r v : accepts (ZRefine base r) v = accepts base v && r v.
Proof. done. Qed.

Lemma foldr_and {A} (P : A -> Prop) l : foldr (fun x Q => P x /\ Q) True l <-> Forall P l.
Proof. induction l as [|x l IH]; simpl; [by split; [constructor|]|]. by rewrite Forall_cons, IH. Qed.

Lemma forallb_Forall {A} (f : A -> bool) l : forallb f l = true <-> Forall (fun x => f x = true) l.
Proof. rewrite forallb_forall, Forall_forall. by setoid_rewrite list_elem_of_In. Qed.

Lemma forallb_perm {A} (f : A -> bool) l k : l ≡ₚ k -> forallb f l = forallb f k.
Proof.
  intros Hp. apply eq_true_iff_eq. rewrite !forallb_Forall. split; intros H; [by rewrite <- Hp|by rewrite Hp].
Qed.

Lemma forallb_ext_Forall {A} (f g : A -> bool) l : Forall (fun x => f x = g x) l -> forallb f l = forallb g l.
Proof. induction 1 as [|x l Hx _ IH]; simpl; [done|]. by rewrite Hx, IH. Qed.

Lemma forallb_fmap {A B} (f : B -> bool) (g : A -> B) l : forallb f (g <$> l) = forallb (fun x => f (g x)) l.
Proof. induction l as [|x l IH]; csimpl; [done|]. by rewrite IH. Qed.

(** ** Accepted documents are interoperable *)

Lemma strict_equal_literal l v :
  strict_equal (Some l) (Some v) = true -> v = l.
Proof.
  destruct l, v; simpl; try done; [by intros ->%eqb_prop|by intros ->%Z.eqb_eq|by intros ->%String.eqb_eq..].
Qed.

Lemma accepts_interoperable s v : schema_ok s -> accepts s v = true -> interoperable v = true.
Proof.
  revert v. induction s as [p|p| |l|s lo up IH|l IH|fs IH|k s IH|l IH|s r IH] using zod_ind'; intros v Hok Ha.
  - by destruct v.
  - rewrite accepts_int in Ha. destruct v; simpl in *; try done. by apply andb_true_iff in Ha as [? _].
  - by destruct v.
  - apply strict_equal_literal in Ha as ->. by destruct l.
  - rewrite accepts_array in Ha. destruct v as [| | | | |vs|]; try done. apply andb_true_iff in Ha as [Ha _]. simpl.
    rewrite forallb_Forall in Ha. rewrite forallb_Forall. eapply Forall_impl; [exact Ha|auto].
  - rewrite accepts_tuple in Ha. destruct v as [| | | | |vs|]; try done. simpl in *. apply foldr_and in Hok.
    revert vs Ha. induction l as [|s l IHl]; intros [|v vs]; try done. simpl. intros [Ha Hr]%andb_true_iff.
    inversion_clear Hok. inversion_clear IH. apply andb_true_iff. auto.
  - rewrite accepts_object in Ha. destruct v as [| | | | | |ms]; try done. simpl in *. destruct Hok as [Hnd Hok].
    apply andb_true_iff in Ha as [[Hms Hkeys]%andb_true_iff Ha]. rewrite Hms. simpl. apply foldr_and in Hok.
    rewrite forallb_Forall in Hkeys. rewrite forallb_Forall in Ha. rewrite forallb_Forall. rewrite Forall_forall in Hkeys. rewrite Forall_forall in Ha. rewrite Forall_forall in Hok. rewrite Forall_forall in IH. apply Forall_forall.
    intros [k x] Hx. simpl. specialize (Hkeys _ Hx). simpl in Hkeys. apply includes_true in Hkeys.
    apply list_elem_of_fmap in Hkeys as ([k' [o s]] & -> & Hf). specialize (Ha _ Hf). simpl in Ha.
    apply bool_decide_eq_true in Hms. rewrite (elem_of_map_get _ _ _ Hms Hx) in Ha. apply (IH _ Hf), Ha. apply (Hok _ Hf).
  - rewrite accepts_record in Ha. destruct v as [| | | | | |ms]; try done. simpl in *. apply andb_true_iff in Ha as [-> Ha]. simpl.
    rewrite forallb_Forall in Ha. rewrite forallb_Forall. eapply Forall_impl; [exact Ha|]. intros m [_ Hm]%andb_true_iff. auto.
  - rewrite accepts_union in Ha. simpl in *. apply foldr_and in Hok. apply existsb_exists in Ha as (s & Hs & Ha). apply list_elem_of_In in Hs.
    rewrite Forall_forall in IH. rewrite Forall_forall in Hok. eauto.
  - rewrite accepts_refine in Ha. simpl in *. apply andb_true_iff in Ha as [Ha _]. destruct Hok. auto.
Qed.

(** ** The order of members does not matter *)

Lemma strict_equal_norm l v : strict_equal (Some l) (Some (norm v)) = strict_equal (Some l) (Some v).
Proof. by destruct l, v. Qed.

Lemma interoperable_object ms :
  interoperable (JObj ms) = true <-> NoDup ms.*1 /\ Forall (fun m => interoperable m.2 = true) ms.
Proof. simpl. by rewrite andb_true_iff, bool_decide_eq_true, forallb_Forall. Qed.

Lemma interoperable_norm v : interoperable (norm v) = interoperable v.
Proof.
  induction v as [| | | | |l IH|fs IH] using json_ind'; try done.
  - simpl. rewrite forallb_fmap. by apply forallb_ext_Forall.
  - rewrite norm_object. change (interoperable (JObj (norm_fields fs))) with
      (bool_decide (NoDup (norm_fields fs).*1) && forallb (fun m => interoperable m.2) (norm_fields fs)). simpl.
    f_equal; [apply bool_decide_ext; by rewrite norm_fields_keys|].
    unfold norm_fields. rewrite (forallb_perm _ _ _ (js_sort_perm _ _)), forallb_fmap. by apply forallb_ext_Forall.
Qed.

(** The members of a document in canonical form *)
Lemma accepts_norm_members fields ms :
  NoDup ms.*1 ->
  Forall (fun f => forall x, map_get f.1 ms = Some x -> accepts f.2.2 (norm x) = accepts f.2.2 x) fields ->
  accepts (ZObject fields) (norm (JObj ms)) = accepts (ZObject fields) (JObj ms).
Proof.
  intros Hnd Hf. rewrite norm_object, !accepts_object. f_equal; [f_equal|].
  - apply bool_decide_ext. by rewrite norm_fields_keys.
  - transitivity (forallb (fun k => includes k fields.*1) (norm_fields ms).*1); [by rewrite forallb_fmap|].
    rewrite (forallb_perm _ _ _ (norm_fields_keys ms)). by rewrite forallb_fmap.
  - apply forallb_ext_Forall. eapply Forall_impl; [exact Hf|]. intros f Hx. rewrite norm_fields_get by done.
    destruct (map_get f.1 ms) as [x|] eqn:Hg; [by apply Hx|done].
Qed.

Lemma accepts_norm s v : schema_ok s -> interoperable v = true -> accepts s (norm v) = accepts s v.
Proof.
  revert v. induction s as [p|p| |l|s lo up IH|l IH|fs IH|k s IH|l IH|s r IH] using zod_ind'; intros v Hok Hv.
  - by destruct v.
  - by destruct v.
  - by destruct v.
  - rewrite !accepts_literal. apply strict_equal_norm.
  - rewrite !accepts_array. destruct v as [| | | | |vs|]; try done. simpl in *. rewrite length_fmap. f_equal.
    rewrite forallb_fmap. apply forallb_ext_Forall. apply forallb_Forall in Hv. eapply Forall_impl; [exact Hv|auto].
  - rewrite !accepts_tuple. destruct v as [| | | | |vs|]; try done. simpl in *. apply foldr_and in Hok.
    apply forallb_Forall in Hv. revert vs Hv. induction l as [|s l IHl]; intros [|v vs] Hv; try done. csimpl.
    inversion_clear Hok. inversion_clear IH. inversion_clear Hv. f_equal; auto.
  - destruct v as [| | | | | |ms]; try done. destruct Hok as [_ Hok%foldr_and]. apply interoperable_object in Hv as [Hnd Hv].
    apply accepts_norm_members; [done|]. apply Forall_forall. intros [k [o s]] Hf x Hx%map_get_elem_of.
    rewrite Forall_forall in IH. rewrite Forall_forall in Hok. rewrite Forall_forall in Hv. apply (IH _ Hf); [apply (Hok _ Hf)|apply (Hv _ Hx)].
  - rewrite !accepts_record. destruct v as [| | | | | |ms]; try done. apply interoperable_object in Hv as [Hnd Hv]. rewrite norm_object.
    f_equal; [apply bool_decide_ext; by rewrite norm_fields_keys|]. unfold norm_fields.
    rewrite (forallb_perm _ _ _ (js_sort_perm _ _)), forallb_fmap. apply forallb_ext_Forall.
    eapply Forall_impl; [exact Hv|]. intros m Hm. simpl. f_equal. auto.
  - rewrite !accepts_union. simpl in Hok. apply foldr_and in Hok. induction l as [|s l IHl]; [done|].
    inversion_clear Hok. inversion_clear IH. simpl. f_equal; auto.
  - rewrite !accepts_refine. destruct Hok as [Hok Hr]. f_equal; auto.
Qed.

(** ** Reading members *)

Lemma accepts_field fields ms k o s :
  accepts (ZObject fields) (JObj ms) = true -> map_get k fields = Some (o, s) ->
  match map_get k ms with Some x => accepts s x = true | None => o = true end.
Proof.
  rewrite accepts_object. intros [_ Hf]%andb_true_iff Hk%map_get_elem_of. rewrite forallb_Forall, Forall_forall in Hf.
  specialize (Hf _ Hk). simpl in Hf. by destruct (map_get k ms).
Qed.

Lemma accepts_is_object fields v : accepts (ZObject fields) v = true -> exists ms, v = JObj ms /\ NoDup ms.*1.
Proof.
  rewrite accepts_object. destruct v as [| | | | | |ms]; try done. intros [[Hnd _]%andb_true_iff _]%andb_true_iff.
  exists ms. split; [done|]. by apply bool_decide_eq_true in Hnd.
Qed.

(** A document has no member its schema does not name. *)
Lemma accepts_known fields ms k : accepts (ZObject fields) (JObj ms) = true -> k ∈ ms.*1 -> k ∈ fields.*1.
Proof.
  rewrite accepts_object. intros [[_ Hk]%andb_true_iff _]%andb_true_iff (m & -> & Hm)%list_elem_of_fmap.
  rewrite forallb_Forall, Forall_forall in Hk. by apply includes_true, (Hk _ Hm).
Qed.

Lemma accepts_tag s t v :
  schema_tag s = Some t -> accepts s v = true -> exists ms, v = JObj ms /\ map_get "schema" ms = Some (JStr t).
Proof.
  revert t v. induction s as [p|p| |l|s lo up _|l _|fs _|k s _|l IH|s r IH] using zod_ind'; intros t v Ht Ha; try done.
  - destruct (accepts_is_object _ _ Ha) as (ms & -> & _). exists ms. split; [done|]. simpl in Ht.
    destruct (map_get "schema" fs) as [[[] [| | |[| | | |t'| |]| | | | | |]]|] eqn:Hs; try done. injection Ht as [= ->].
    pose proof (accepts_field _ _ _ _ _ Ha Hs) as Hx. destruct (map_get "schema" ms) as [x|]; [|done].
    rewrite accepts_literal in Hx. by apply strict_equal_literal in Hx as ->.
  - rewrite accepts_union in Ha. apply existsb_exists in Ha as (s & Hs%list_elem_of_In & Ha).
    rewrite Forall_forall in IH. apply (IH s Hs); [|done]. destruct l as [|s0 l]; [done|]. simpl in Ht.
    destruct (schema_tag s0) as [t0|] eqn:H0; [|done]. simpl in Ht. destruct (forallb _ l) eqn:Hl; [|done]. injection Ht as [= ->].
    apply elem_of_cons in Hs as [->|Hs]; [done|]. rewrite forallb_Forall, Forall_forall in Hl. by apply Hl, bool_decide_eq_true in Hs.
  - rewrite accepts_refine in Ha. apply andb_true_iff in Ha as [Ha _]. auto.
Qed.
