(* ===== verification/BundleSchemas.v ===== *)
(** * Schemas of protected bundles

    [src/src/schemas/protected-bundle.ts]: references to protected bundles, replica policies,
    the request that prepares a bundle, the descriptor of its staging and the challenge that
    its author signs; and the leaves that the schema files share. A discriminated union is
    the union of its variants, whose discriminators are distinct literals. *)

From S2P Require Import Prelude Regex Digits Decimal Base64 Schemas Json Protection KeyOperations Zod.

Local Open Scope Z_scope.
Local Open Scope zod_scope.

(** ** Leaves *)

Definition s_address : zod := ZString canonicalAddress.
Definition s_bytes32 : zod := ZString bytes32Hex.
Definition s_semver : zod := ZString semver.
Definition s_base64Url : zod := ZString base64Url.
Definition s_base64Url32 : zod := ZString base64Url32.
Definition s_mediaType : zod := ZString mediaType.
Definition s_decimal : zod := ZString canonicalDecimal.
Definition s_bundleType : zod := s_enum (bundle_type_text <$> bundleTypes).

(** [base64Url.refine((value) => Buffer.from(value, "base64url").length === 65)] *)
Definition s_signature : zod :=
  ZRefine s_base64Url (z_string (fun s => (length (from_base64url s) =? 65)%nat)).

(** [weiAmount] of numeric.ts *)
Definition weiAmount : zod := ZString (rtest (rx "^0x[0-9a-f]{64}$")).

(** [recipientJwe] of crypto.ts *)
Definition s_recipientJwe : zod :=
  ZObject ["protected" ⇒ s_base64Url; "aad" ⇒ s_base64Url; "encrypted_key" ⇒ s_base64Url;
           "iv" ⇒ ZString jwe_iv; "ciphertext" ⇒ s_base64Url; "tag" ⇒ ZString jwe_tag].

(** ** References and policies *)

Definition protectedBundleRefBase : fields_of :=
  ["schema" ⇒ s_lit "EVLLM_PROTECTED_BUNDLE_REF_V1"; "bundle_id" ⇒ s_urn "bundle"; "bundle_version" ⇒ s_positive;
   "domain_resource_version" ⇒ s_positive; "custody_controller_org_id" ⇒ s_urn "org";
   "content_schema_id" ⇒ s_urn "schema"; "content_schema_version" ⇒ s_semver;
   "initial_criticality_class" ⇒ s_enum ["decision-critical"; "supplementary"];
   "criticality_profile_id" ⇒ s_urn "profile"; "criticality_profile_version" ⇒ s_positive].

Definition protectedBundleRefVariant (t : BundleType) : zod :=
  ZObject (protectedBundleRefBase ++
    ["bundle_type" ⇒ s_lit (bundle_type_text t); "domain_resource_id" ⇒ s_urn (domainKindByBundleType t)]).

Definition protectedBundleRef : zod := ZUnion (protectedBundleRefVariant <$> bundleTypes).

Definition replicaPolicy : zod :=
  ZObject
    ["schema" ⇒ s_lit "EVLLM_REPLICA_POLICY_V1"; "replica_policy_id" ⇒ s_urn "profile";
     "replica_policy_version" ⇒ s_positive; "required_when_decision_critical" ⇒ ZLiteral (JBool true);
     "replica_count" ⇒ ZLiteral (JNum 1); "replica_custodian_org_id" ⇒ s_urn "org";
     "replica_repository_id" ⇒ s_urn "repository"; "retention_profile_id" ⇒ s_urn "profile";
     "retention_profile_version" ⇒ s_positive].

(** ** Requests, descriptors and challenges *)

Definition accessClass : zod := s_lit "restricted".

Definition prepareProtectedBundleRequestBase : fields_of :=
  ["schema" ⇒ s_lit "EVLLM_PREPARE_PROTECTED_BUNDLE_REQUEST_V1"; "bundle_id" ⇒ s_urn "bundle";
   "bundle_version" ⇒ s_positive; "domain_resource_version" ⇒ s_positive; "content_media_type" ⇒ s_mediaType;
   "content_bytes" ⇒ s_base64Url; "domain_payload_bytes" ⇒ s_base64Url;
   "custody_controller_actor_id" ⇒ s_urn "actor"; "custody_controller_org_id" ⇒ s_urn "org";
   "custody_controller_credential_id" ⇒ s_urn "credential"; "custody_controller_address" ⇒ s_address;
   "intended_author_actor_id" ⇒ s_urn "actor"; "intended_author_org_id" ⇒ s_urn "org";
   "intended_author_credential_id" ⇒ s_urn "credential"; "intended_author_address" ⇒ s_address;
   "author_binding_profile_id" ⇒ s_urn "profile"; "author_binding_profile_version" ⇒ s_positive;
   "primary_repository_id" ⇒ s_urn "repository"; "content_schema_id" ⇒ s_urn "schema";
   "content_schema_version" ⇒ s_semver; "access_class" ⇒ accessClass;
   "initial_criticality_class" ⇒ s_enum ["decision-critical"; "supplementary"];
   "criticality_profile_id" ⇒ s_urn "profile"; "criticality_profile_version" ⇒ s_positive;
   "encryption_profile_id" ⇒ s_urn "profile"; "encryption_profile_version" ⇒ s_positive;
   "controller_encryption_key_id" ⇒ s_urn "key"; "controller_envelope_profile_id" ⇒ s_urn "profile";
   "controller_envelope_profile_version" ⇒ s_positive; "replica_policy" ⇒ replicaPolicy].

Definition prepareProtectedBundleRequestVariant (t : BundleType) : zod :=
  ZObject (prepareProtectedBundleRequestBase ++
    ["bundle_type" ⇒ s_lit (bundle_type_text t); "domain_resource_id" ⇒ s_urn (domainKindByBundleType t)]).

Definition prepareProtectedBundleRequest : zod := ZUnion (prepareProtectedBundleRequestVariant <$> bundleTypes).

Definition protectedBundleStagingDescriptorBase : fields_of :=
  ["schema" ⇒ s_lit "EVLLM_PROTECTED_BUNDLE_STAGING_V1"; "staging_id" ⇒ s_urn "staging";
   "repository_receipt_id" ⇒ s_urn "receipt"; "bundle_id" ⇒ s_urn "bundle"; "bundle_version" ⇒ s_positive;
   "domain_resource_version" ⇒ s_positive; "domain_payload_commitment" ⇒ s_digest;
   "custody_controller_org_id" ⇒ s_urn "org"; "primary_repository_id" ⇒ s_urn "repository";
   "staging_object_id" ⇒ s_base64Url32; "primary_object_id" ⇒ s_base64Url32; "content_schema_id" ⇒ s_urn "schema";
   "content_schema_version" ⇒ s_semver; "author_binding_profile_id" ⇒ s_urn "profile";
   "author_binding_profile_version" ⇒ s_positive; "author_binding_decision_id" ⇒ s_urn "decision";
   "author_binding_decision_digest" ⇒ s_digest; "access_class" ⇒ accessClass;
   "initial_criticality_class" ⇒ s_enum ["decision-critical"; "supplementary"];
   "criticality_profile_id" ⇒ s_urn "profile"; "criticality_profile_version" ⇒ s_positive;
   "content_commitment" ⇒ s_digest; "content_envelope_digest" ⇒ s_digest;
   "encryption_profile_id" ⇒ s_urn "profile"; "encryption_profile_version" ⇒ s_positive;
   "controller_key_authorization_id" ⇒ s_urn "authorization"; "controller_envelope_id" ⇒ s_urn "envelope";
   "controller_encryption_key_id" ⇒ s_urn "key"; "controller_envelope_profile_id" ⇒ s_urn "profile";
   "controller_envelope_profile_version" ⇒ s_positive; "controller_envelope_commitment" ⇒ s_digest;
   "stored_envelope_length" ⇒ s_positive; "replica_policy" ⇒ replicaPolicy; "prepared_at" ⇒ s_positive;
   "expires_at" ⇒ s_positive; "preparation_idempotency_key_hash" ⇒ s_bytes32].

(** A member that is a number, for a refinement *)
Definition number_member (k : string) (v : json) : Z :=
  match v with JObj ms => match map_get k ms with Some (JNum n) => n | _ => 0 end | _ => 0 end.

Definition protectedBundleStagingDescriptorVariant (t : BundleType) : zod :=
  ZRefine
    (ZObject (protectedBundleStagingDescriptorBase ++
      ["bundle_type" ⇒ s_lit (bundle_type_text t); "domain_resource_id" ⇒ s_urn (domainKindByBundleType t)]))
    (fun v => number_member "prepared_at" v <? number_member "expires_at" v).

Definition protectedBundleStagingDescriptor : zod := ZUnion (protectedBundleStagingDescriptorVariant <$> bundleTypes).

Definition eip712Domain : zod :=
  ZObject
    ["name" ⇒ s_lit "EVLLM Domain Manifest"; "version" ⇒ s_lit "1"; "chain_id" ⇒ s_positive;
     "verifying_contract" ⇒ s_address].

Definition domainAttestationChallengeBase : fields_of :=
  ["schema" ⇒ s_lit "EVLLM_DOMAIN_ATTESTATION_CHALLENGE_V1"; "challenge_id" ⇒ s_urn "challenge";
   "staging_id" ⇒ s_urn "staging"; "staging_descriptor_digest" ⇒ s_digest; "bundle_id" ⇒ s_urn "bundle";
   "bundle_version" ⇒ s_positive; "domain_resource_version" ⇒ s_positive; "domain_payload_bytes" ⇒ s_base64Url;
   "domain_payload_salt" ⇒ s_base64Url32; "domain_payload_commitment" ⇒ s_digest;
   "author_binding_profile_id" ⇒ s_urn "profile"; "author_binding_profile_version" ⇒ s_positive;
   "eip712_profile_id" ⇒ s_urn "profile"; "eip712_profile_version" ⇒ s_positive; "eip712_domain" ⇒ eip712Domain;
   "signer_actor_id" ⇒ s_urn "actor"; "signer_org_id" ⇒ s_urn "org"; "signer_credential_id" ⇒ s_urn "credential";
   "signer_address" ⇒ s_address; "nonce" ⇒ s_bytes32; "issued_at" ⇒ s_positive; "expires_at" ⇒ s_positive;
   "prepared_at" ⇒ s_positive; "staging_expires_at" ⇒ s_positive].

Definition domainAttestationChallengeVariant (t : BundleType) : zod :=
  ZObject (domainAttestationChallengeBase ++
    ["bundle_type" ⇒ s_lit (bundle_type_text t); "domain_resource_id" ⇒ s_urn (domainKindByBundleType t)]).

Definition domainAttestationChallenge : zod := ZUnion (domainAttestationChallengeVariant <$> bundleTypes).

