(* ===== verification/BundleRecords.v ===== *)
(** * Records of protected bundles

    [src/src/schemas/bundle-records.ts], in the order of the file. *)

From S2P Require Import Prelude Regex Digits Decimal Base64 Schemas Json Protection KeyOperations Zod BundleSchemas.

Local Open Scope Z_scope.
Local Open Scope zod_scope.

Section Records.
Context `{ZodFormats}.

Definition claimVersion : zod :=
  ZObject
    ["schema" ⇒ s_lit "EVLLM_CLAIM_VERSION_V1"; "claim_version_id" ⇒ s_urn "evidence"; "claim_id" ⇒ s_urn "claim";
     "sequence" ⇒ s_positive; "prior_version_id" ⇒? s_urn "evidence"; "correction_reason" ⇒? s_text;
     "evidence_payload_commitment" ⇒ s_digest; "status" ⇒ s_enum ["active"; "superseded"; "revoked"];
     "issuer_signature_id" ⇒ s_urn "assertion"; "recorded_at" ⇒ s_timestamp].

Definition verificationAssertion : zod :=
  ZObject
    ["schema" ⇒ s_lit "EVLLM_VERIFICATION_ASSERTION_V1"; "verification_id" ⇒ s_urn "verification";
     "verification_version" ⇒ s_positive; "verification_payload_ref" ⇒ s_ref;
     "domain_signature_record_id" ⇒ s_urn "assertion"; "assertion_type" ⇒ s_enum ["corroboration"; "certification"];
     "assertion_commitment" ⇒ s_digest; "status" ⇒ s_enum ["active"; "withdrawn"; "superseded"];
     "status_reason" ⇒? s_short; "status_time" ⇒ s_timestamp; "support_links" ⇒ s_array s_ref 256].

Definition protectedBundleStagingState : zod :=
  ZObject
    ["schema" ⇒ s_lit "EVLLM_PROTECTED_BUNDLE_STAGING_STATE_V1"; "staging_id" ⇒ s_urn "staging";
     "state" ⇒ s_enum ["preparing"; "prepared"; "finalized"; "expired"; "rejected"]; "state_revision" ⇒ s_positive;
     "materialization_revision" ⇒ s_positive; "preparation_idempotency_key_hash" ⇒ s_bytes32;
     "preparation_request_fingerprint" ⇒ s_digest; "reserved_ids" ⇒ ZArray (s_prefix "urn:evllm:") 1 (Some 32);
     "staging_descriptor_digest" ⇒? s_digest; "preparation_command_id" ⇒ s_urn "command";
     "finalization_command_id" ⇒? s_urn "command"; "retained_result_ref" ⇒? s_ref; "preparing_at" ⇒ s_timestamp;
     "materialization_expires_at" ⇒ s_timestamp; "prepared_at" ⇒? s_timestamp; "expires_at" ⇒ s_timestamp;
     "finalized_at" ⇒? s_timestamp; "closed_at" ⇒? s_timestamp; "reason" ⇒? s_short;
     "correlation_id" ⇒ ZString z_uuid; "audit_event_id" ⇒ s_urn "event"].

Definition domainAttestationChallengeDeliveryRecord : zod :=
  ZObject
    ["schema" ⇒ s_lit "EVLLM_DOMAIN_ATTESTATION_CHALLENGE_DELIVERY_RECORD_V1"; "challenge_id" ⇒ s_urn "challenge";
     "staging_id" ⇒ s_urn "staging"; "staging_descriptor_digest" ⇒ s_digest; "challenge_digest" ⇒ s_digest;
     "intended_author_actor_id" ⇒ s_urn "actor"; "intended_author_organization_id" ⇒ s_urn "org";
     "intended_author_credential_id" ⇒ s_urn "credential"; "intended_author_address" ⇒ s_address;
     "author_binding_profile_id" ⇒ s_urn "profile"; "author_binding_profile_version" ⇒ s_positive;
     "eip712_profile_id" ⇒ s_urn "profile"; "eip712_profile_version" ⇒ s_positive; "domain_name" ⇒ s_short;
     "domain_version" ⇒ s_short; "chain_id" ⇒ s_positive; "protected_bundle_registry_address" ⇒ s_address;
     "attribution_nonce" ⇒ s_bytes32; "issued_at" ⇒ s_timestamp; "expires_at" ⇒ s_timestamp;
     "state" ⇒ s_enum ["prepared"; "delivered"; "expired"]; "prepared_at" ⇒ s_timestamp;
     "delivered_at" ⇒? s_timestamp; "correlation_id" ⇒ ZString z_uuid; "audit_event_id" ⇒ s_urn "event"].

Definition domainSignatureRecord : zod :=
  ZObject
    ["schema" ⇒ s_lit "EVLLM_DOMAIN_SIGNATURE_RECORD_V1"; "signature_record_id" ⇒ s_urn "assertion";
     "signature_record_version" ⇒ s_positive; "bundle_id" ⇒ s_urn "bundle"; "bundle_version" ⇒ s_positive;
     "bundle_type" ⇒ s_bundleType; "domain_resource_id" ⇒ s_prefix "urn:evllm:";
     "domain_resource_version" ⇒ s_positive; "payload_type" ⇒ s_short; "eip712_profile_id" ⇒ s_urn "profile";
     "eip712_profile_version" ⇒ s_positive; "author_binding_profile_id" ⇒ s_urn "profile";
     "author_binding_profile_version" ⇒ s_positive; "author_binding_decision_id" ⇒ s_urn "decision";
     "signer_actor_id" ⇒ s_urn "actor"; "signer_organization_id" ⇒ s_urn "org";
     "signer_credential_id" ⇒ s_urn "credential"; "signer_address" ⇒ s_address; "chain_id" ⇒ s_positive;
     "verifying_contract" ⇒ s_address; "nonce" ⇒ s_bytes32; "issued_at" ⇒ s_timestamp; "expires_at" ⇒ s_timestamp;
     "domain_payload_commitment" ⇒ s_digest; "signature" ⇒ s_signature; "typed_data_digest" ⇒ s_bytes32;
     "signature_digest" ⇒ s_digest; "signed_domain_envelope_digest" ⇒ s_digest;
     "state" ⇒ s_enum ["accepted"; "reorganized"; "rejected"]; "accepted_at" ⇒ s_timestamp;
     "chain_locator" ⇒? s_chainLocator; "audit_event_id" ⇒ s_urn "event"].

Definition protectedBundleManifest : zod :=
  ZObject
    ["schema" ⇒ s_lit "EVLLM_PROTECTED_BUNDLE_MANIFEST_V1"; "protected_bundle_ref" ⇒ protectedBundleRef;
     "domain_payload_commitment" ⇒ s_digest; "domain_signature_record_id" ⇒ s_urn "assertion";
     "domain_typed_data_digest" ⇒ s_bytes32; "domain_signature_digest" ⇒ s_digest;
     "signed_domain_envelope_digest" ⇒ s_digest; "author_binding_decision_id" ⇒ s_urn "decision";
     "author_binding_decision_digest" ⇒ s_digest; "staging_descriptor_digest" ⇒ s_digest;
     "finalization_command_id" ⇒ s_urn "command"; "finalization_typed_data_digest" ⇒ s_bytes32;
     "finalization_signature_digest" ⇒ s_digest; "custody_controller_organization_id" ⇒ s_urn "org";
     "primary_repository_id" ⇒ s_urn "repository"; "access_class" ⇒ s_lit "restricted";
     "content_schema_id" ⇒ s_urn "schema"; "content_schema_uri" ⇒ ZString z_url;
     "content_schema_version" ⇒ s_semver; "schema_binding_digest" ⇒ s_digest;
     "author_binding_profile_id" ⇒ s_urn "profile"; "author_binding_profile_version" ⇒ s_positive;
     "encryption_profile_id" ⇒ s_urn "profile"; "encryption_profile_version" ⇒ s_positive;
     "controller_key_authorization_id" ⇒ s_urn "authorization"; "controller_envelope_id" ⇒ s_urn "envelope";
     "controller_encryption_key_id" ⇒ s_urn "key"; "controller_envelope_profile_id" ⇒ s_urn "profile";
     "controller_envelope_profile_version" ⇒ s_positive; "recipient_envelope_commitment" ⇒ s_digest;
     "content_commitment" ⇒ s_digest; "content_envelope_digest" ⇒ s_digest; "primary_object_id" ⇒ s_base64Url32;
     "stored_envelope_length" ⇒ s_positive; "object_state" ⇒ s_lit "finalized"; "replica_policy" ⇒ replicaPolicy;
     "provenance_links" ⇒ s_array s_ref 256; "finalized_at" ⇒ s_timestamp].

Definition resolvedProtectedBundleView : zod :=
  ZObject
    ["schema" ⇒ s_lit "EVLLM_RESOLVED_PROTECTED_BUNDLE_VIEW_V1"; "protected_bundle_ref" ⇒ protectedBundleRef;
     "domain_payload_commitment" ⇒ s_digest; "content_commitment" ⇒ s_digest; "content_envelope_digest" ⇒ s_digest;
     "stored_envelope_length" ⇒ s_positive; "schema_binding_digest" ⇒ s_digest;
     "author_binding_profile_id" ⇒ s_urn "profile"; "author_binding_profile_version" ⇒ s_positive;
     "encryption_profile_id" ⇒ s_urn "profile"; "encryption_profile_version" ⇒ s_positive;
     "replica_policy" ⇒ replicaPolicy; "replica_policy_digest" ⇒ s_digest;
     "primary_repository_id" ⇒ s_urn "repository"; "access_class" ⇒ s_lit "restricted";
     "access_result" ⇒ s_enum ["allow"; "deny"];
     "current_criticality" ⇒ s_enum ["supplementary"; "decision-critical"];
     "replica_state" ⇒ s_enum ["not-required"; "pending"; "verified"; "unavailable"];
     "availability_state" ⇒ s_enum ["available"; "unavailable"; "unknown"];
     "registry_status" ⇒ s_enum ["confirmed"; "reorganized"]; "chain_locator" ⇒ s_chainLocator;
     "as_of_block" ⇒ s_nonnegative; "as_of_time" ⇒ s_timestamp].

Definition evidenceManifest : zod :=
  ZObject
    ["schema" ⇒ s_lit "EVLLM_EVIDENCE_MANIFEST_V1"; "evidence_id" ⇒ s_urn "evidence";
     "evidence_version" ⇒ s_positive; "evidence_claim_payload_ref" ⇒ s_ref;
     "protected_bundle_ref" ⇒ protectedBundleRef; "claim_id" ⇒ s_urn "claim"; "subject_id" ⇒ s_prefix "urn:evllm:";
     "issuer_organization_id" ⇒ s_urn "org"; "content_schema_id" ⇒ s_urn "schema";
     "content_schema_version" ⇒ s_semver; "method" ⇒ s_ref; "source_class" ⇒ s_short;
     "provenance" ⇒ s_array s_ref 256; "domain_signature_record_id" ⇒ s_urn "assertion";
     "signed_domain_envelope_digest" ⇒ s_digest; "signature_digest" ⇒ s_digest;
     "lifecycle" ⇒ s_enum ["active"; "superseded"; "revoked"]; "support_links" ⇒ s_array s_ref 256].

Definition protectedDomainActivationAttempt : zod :=
  ZObject
    ["schema" ⇒ s_lit "EVLLM_PROTECTED_DOMAIN_ACTIVATION_ATTEMPT_V1"; "attempt_id" ⇒ s_urn "attempt";
     "attempt_version" ⇒ s_positive; "bundle_type" ⇒ s_bundleType; "bundle_id" ⇒ s_urn "bundle";
     "bundle_version" ⇒ s_positive; "domain_resource_id" ⇒ s_prefix "urn:evllm:";
     "domain_resource_version" ⇒ s_positive; "staging_id" ⇒ s_urn "staging";
     "finalization_command_id" ⇒ s_urn "command"; "proof_expires_at" ⇒ s_timestamp;
     "state" ⇒ s_enum ["prepared"; "finalized-awaiting-bundle"; "bundle-confirmed-awaiting-domain"; "active"; "expired-before-finalization"; "rejected-before-finalization"; "abandoned-before-registry-commit"; "stranded-by-authority-revocation"; "domain-rejected-after-bundle-confirmation"];
     "command_ids" ⇒ s_array (s_urn "command") 16; "transaction_hashes" ⇒ s_array s_bytes32 16; "reason" ⇒? s_short;
     "created_at" ⇒ s_timestamp; "updated_at" ⇒ s_timestamp].

Definition protectedBundleCriticalityTransition : zod :=
  ZObject
    ["schema" ⇒ s_lit "EVLLM_PROTECTED_BUNDLE_CRITICALITY_TRANSITION_V1"; "transition_id" ⇒ s_urn "transition";
     "transition_version" ⇒ s_positive; "bundle_id" ⇒ s_urn "bundle"; "bundle_version" ⇒ s_positive;
     "prior_class" ⇒ s_lit "supplementary"; "new_class" ⇒ s_lit "decision-critical"; "reason" ⇒ s_text;
     "policy_id" ⇒ s_urn "policy"; "policy_version" ⇒ s_positive; "controller_command_id" ⇒ s_urn "command";
     "replica_receipt_id" ⇒ s_urn "receipt"; "status" ⇒ s_enum ["pending-replica"; "confirmed"; "reorganized"];
     "chain_locator" ⇒? s_chainLocator; "recorded_at" ⇒ s_timestamp].

(** Exactly one of the two references to an authority is given. *)
Definition one_authority (v : json) : bool :=
  match v with
  | JObj ms => negb (Bool.eqb (bool_decide (map_get "grant_id" ms = None)) (bool_decide (map_get "controller_authorization_id" ms = None)))
  | _ => false
  end.

Definition recipientKeyEnvelope : zod :=
  ZRefine
    (ZObject
      ["schema" ⇒ s_lit "EVLLM_RECIPIENT_KEY_ENVELOPE_V1"; "envelope_id" ⇒ s_urn "envelope";
       "envelope_version" ⇒ s_positive; "bundle_id" ⇒ s_urn "bundle"; "bundle_version" ⇒ s_positive;
       "recipient_organization_id" ⇒ s_urn "org"; "recipient_key_id" ⇒ s_urn "key";
       "recipient_key_thumbprint_uri" ⇒ s_short; "grant_id" ⇒? s_urn "grant";
       "controller_authorization_id" ⇒? s_urn "authorization"; "purpose_id" ⇒ s_urn "policy";
       "scope" ⇒ ZArray s_short 1 (Some 64); "policy_id" ⇒ s_urn "policy"; "policy_version" ⇒ s_positive;
       "jwe" ⇒ s_recipientJwe; "envelope_commitment" ⇒ s_digest;
       "status" ⇒ s_enum ["staged"; "active"; "retired"; "revoked"; "unavailable"]; "created_at" ⇒ s_timestamp;
       "activated_at" ⇒? s_timestamp; "retired_at" ⇒? s_timestamp])
    one_authority.

Definition controllerKeyAuthorization : zod :=
  ZObject
    ["schema" ⇒ s_lit "EVLLM_CONTROLLER_KEY_AUTHORIZATION_V1"; "authorization_id" ⇒ s_urn "authorization";
     "authorization_version" ⇒ s_positive; "bundle_id" ⇒ s_urn "bundle"; "bundle_version" ⇒ s_positive;
     "controller_organization_id" ⇒ s_urn "org"; "controller_key_id" ⇒ s_urn "key";
     "envelope_id" ⇒ s_urn "envelope"; "status" ⇒ s_enum ["staged"; "active"; "retired"; "revoked"; "unavailable"];
     "predecessor_authorization_id" ⇒? s_urn "authorization"; "successor_authorization_id" ⇒? s_urn "authorization";
     "created_at" ⇒ s_timestamp; "activated_at" ⇒? s_timestamp; "retired_at" ⇒? s_timestamp].

Definition accessGrant : zod :=
  ZObject
    ["schema" ⇒ s_lit "EVLLM_ACCESS_GRANT_V1"; "grant_id" ⇒ s_urn "grant"; "grant_version" ⇒ s_positive;
     "bundle_id" ⇒ s_urn "bundle"; "bundle_version" ⇒ s_positive; "domain_resource_id" ⇒ s_prefix "urn:evllm:";
     "domain_resource_version" ⇒ s_positive; "recipient_actor_id" ⇒ s_urn "actor";
     "recipient_organization_id" ⇒ s_urn "org"; "purpose_id" ⇒ s_urn "policy";
     "operations" ⇒ ZArray s_short 1 (Some 32); "policy_id" ⇒ s_urn "policy"; "policy_version" ⇒ s_positive;
     "effective_at" ⇒ s_timestamp; "expires_at" ⇒ s_timestamp; "envelope_id" ⇒? s_urn "envelope";
     "status" ⇒ s_enum ["prepared"; "active"; "revoked"]; "revocation_reason" ⇒? s_short].

Definition authorizationDecision : zod :=
  ZObject
    ["schema" ⇒ s_lit "EVLLM_AUTHORIZATION_DECISION_V1"; "decision_id" ⇒ s_urn "decision";
     "decision_version" ⇒ s_positive; "actor_id" ⇒ s_urn "actor"; "organization_id" ⇒ s_urn "org";
     "credential_id" ⇒ s_urn "credential"; "session_id" ⇒ s_urn "session"; "repository_id" ⇒ s_urn "repository";
     "bundle_id" ⇒ s_urn "bundle"; "bundle_version" ⇒ s_positive; "bundle_type" ⇒ s_bundleType;
     "domain_resource_id" ⇒ s_prefix "urn:evllm:"; "domain_resource_version" ⇒ s_positive; "operation" ⇒ s_short;
     "purpose_id" ⇒ s_urn "policy"; "policy_id" ⇒ s_urn "policy"; "policy_version" ⇒ s_positive;
     "result" ⇒ s_enum ["allow"; "deny"]; "reason" ⇒ s_short; "issued_at" ⇒ s_timestamp; "expires_at" ⇒ s_timestamp;
     "correlation_id" ⇒ ZString z_uuid; "decision_digest" ⇒ s_digest; "grant_id" ⇒? s_urn "grant";
     "envelope_id" ⇒? s_urn "envelope"; "release_mode" ⇒? s_enum ["full"; "excerpt"; "ciphertext"];
     "preparation_request_fingerprint" ⇒? s_digest].

Definition keyOperationAuthorization : zod :=
  ZObject
    ["schema" ⇒ s_lit "EVLLM_KEY_OPERATION_AUTHORIZATION_V1"; "authorization_id" ⇒ s_urn "authorization";
     "authorization_version" ⇒ s_positive; "issuer_service_actor_id" ⇒ s_urn "actor";
     "issuer_service_organization_id" ⇒ s_urn "org"; "issuer_service_credential_id" ⇒ s_urn "credential";
     "issuer_service_address" ⇒ s_address; "repository_id" ⇒ s_urn "repository"; "operation" ⇒ s_short;
     "requesting_actor_id" ⇒ s_urn "actor"; "requesting_organization_id" ⇒ s_urn "org";
     "requesting_credential_id" ⇒ s_urn "credential"; "bundle_id" ⇒ s_urn "bundle"; "bundle_version" ⇒ s_positive;
     "bundle_type" ⇒ s_bundleType; "domain_resource_id" ⇒ s_prefix "urn:evllm:";
     "domain_resource_version" ⇒ s_positive; "purpose_id" ⇒ s_urn "policy"; "policy_id" ⇒ s_urn "policy";
     "policy_version" ⇒ s_positive; "source_authority_ids" ⇒ ZArray (s_prefix "urn:evllm:") 1 (Some 16);
     "source_authority_digest" ⇒ s_digest; "operation_context_digest" ⇒ s_digest; "nonce" ⇒ s_bytes32;
     "issued_at" ⇒ s_timestamp; "expires_at" ⇒ s_timestamp; "idempotency_key_hash" ⇒ s_bytes32;
     "signature" ⇒ s_signature; "typed_data_digest" ⇒ s_bytes32; "signature_digest" ⇒ s_digest;
     "state" ⇒ s_enum ["issued"; "consumed"; "expired"; "rejected"]; "result_ref" ⇒? s_ref].

Definition rotationItem : zod :=
  ZObject
    ["grant_id" ⇒ s_urn "grant"; "envelope_id" ⇒ s_urn "envelope"; "bundle_id" ⇒ s_urn "bundle";
     "bundle_version" ⇒ s_positive; "outcome" ⇒ s_enum ["pending"; "complete"; "unavailable"; "failed"]].

Definition recipientKeyRotationCampaign : zod :=
  ZObject
    ["schema" ⇒ s_lit "EVLLM_RECIPIENT_KEY_ROTATION_CAMPAIGN_V1"; "campaign_id" ⇒ s_urn "campaign";
     "campaign_version" ⇒ s_positive; "recipient_organization_id" ⇒ s_urn "org";
     "administrator_actor_id" ⇒ s_urn "actor"; "administrator_credential_id" ⇒ s_urn "credential";
     "predecessor_key_id" ⇒ s_urn "key"; "successor_key_id" ⇒ s_urn "key";
     "required_items" ⇒ ZArray rotationItem 1 (Some 4096); "required_set_digest" ⇒ s_digest;
     "required_count" ⇒ s_positive; "nonce" ⇒ s_bytes32; "issued_at" ⇒ s_timestamp; "expires_at" ⇒ s_timestamp;
     "idempotency_key_hash" ⇒ s_bytes32; "signature" ⇒ s_signature;
     "state" ⇒ s_enum ["prepared"; "in-progress"; "complete"; "expired"; "failed"]].

Definition replicaRecord : zod :=
  ZObject
    ["schema" ⇒ s_lit "EVLLM_REPLICA_RECORD_V1"; "replica_id" ⇒ s_urn "replica"; "replica_version" ⇒ s_positive;
     "bundle_id" ⇒ s_urn "bundle"; "bundle_version" ⇒ s_positive; "primary_repository_id" ⇒ s_urn "repository";
     "replica_repository_id" ⇒ s_urn "repository"; "primary_object_id" ⇒ s_base64Url32;
     "replica_object_id" ⇒ s_base64Url32; "content_envelope_digest" ⇒ s_digest;
     "stored_envelope_length" ⇒ s_positive;
     "state" ⇒ s_enum ["pending"; "stored"; "verified"; "failed"; "reorganized"]; "attempt" ⇒ s_positive;
     "attempted_at" ⇒ s_timestamp; "verification_result" ⇒ s_enum ["pass"; "fail"]; "receipt_nonce" ⇒ s_bytes32;
     "observed_at" ⇒ s_timestamp; "expires_at" ⇒ s_timestamp; "custodian_organization_id" ⇒ s_urn "org";
     "signer_credential_id" ⇒ s_urn "credential"; "receipt_signature" ⇒ s_signature; "receipt_digest" ⇒ s_digest;
     "failure_reason" ⇒? s_short].

Definition replicaReceipt : zod :=
  ZObject
    ["schema" ⇒ s_lit "EVLLM_REPLICA_RECEIPT_V1"; "receipt_id" ⇒ s_urn "receipt"; "receipt_version" ⇒ s_positive;
     "eip712_profile_id" ⇒ s_urn "profile"; "eip712_profile_version" ⇒ s_positive; "chain_id" ⇒ s_positive;
     "verifying_contract" ⇒ s_address; "bundle_id" ⇒ s_urn "bundle"; "bundle_version" ⇒ s_positive;
     "bundle_type" ⇒ s_bundleType; "domain_resource_id" ⇒ s_prefix "urn:evllm:";
     "domain_resource_version" ⇒ s_positive; "content_envelope_digest" ⇒ s_digest;
     "stored_envelope_length" ⇒ s_positive; "replica_repository_id" ⇒ s_urn "repository";
     "replica_custodian_organization_id" ⇒ s_urn "org"; "criticality_profile_id" ⇒ s_urn "profile";
     "criticality_profile_version" ⇒ s_positive; "signer_credential_id" ⇒ s_urn "credential";
     "signer_address" ⇒ s_address; "nonce" ⇒ s_bytes32; "observed_at" ⇒ s_timestamp; "expires_at" ⇒ s_timestamp;
     "signature" ⇒ s_signature; "receipt_digest" ⇒ s_digest].

Definition derivedArtifactDescriptor : zod :=
  ZObject
    ["schema" ⇒ s_lit "EVLLM_DERIVED_ARTIFACT_DESCRIPTOR_V1"; "artifact_id" ⇒ s_urn "link";
     "artifact_version" ⇒ s_positive; "source_bundle_id" ⇒ s_urn "bundle"; "source_bundle_version" ⇒ s_positive;
     "source_bundle_type" ⇒ s_bundleType; "source_domain_resource_id" ⇒ s_prefix "urn:evllm:";
     "source_domain_resource_version" ⇒ s_positive; "artifact_type" ⇒ s_short;
     "custodian_organization_id" ⇒ s_urn "org"; "purpose_id" ⇒ s_urn "policy"; "policy_id" ⇒ s_urn "policy";
     "policy_version" ⇒ s_positive; "method_profile_id" ⇒ s_urn "profile"; "method_profile_version" ⇒ s_positive;
     "model_profile_id" ⇒? s_urn "profile"; "model_profile_version" ⇒? s_positive;
     "status" ⇒ s_enum ["active"; "invalidated"]; "retention_profile_id" ⇒ s_urn "profile";
     "retention_profile_version" ⇒ s_positive; "artifact_digest" ⇒ s_digest; "index_namespace" ⇒ s_short;
     "invalidation_reason" ⇒? s_short; "invalidated_at" ⇒? s_timestamp].

Definition bundleRecordSchemas : list (string * zod) :=
  [("claimVersion"%string, claimVersion); ("verificationAssertion"%string, verificationAssertion);
   ("protectedBundleStagingState"%string, protectedBundleStagingState);
   ("domainAttestationChallengeDeliveryRecord"%string, domainAttestationChallengeDeliveryRecord);
   ("protectedBundleManifest"%string, protectedBundleManifest);
   ("resolvedProtectedBundleView"%string, resolvedProtectedBundleView);
   ("domainSignatureRecord"%string, domainSignatureRecord); ("evidenceManifest"%string, evidenceManifest);
   ("protectedDomainActivationAttempt"%string, protectedDomainActivationAttempt);
   ("protectedBundleCriticalityTransition"%string, protectedBundleCriticalityTransition);
   ("recipientKeyEnvelope"%string, recipientKeyEnvelope);
   ("controllerKeyAuthorization"%string, controllerKeyAuthorization); ("accessGrant"%string, accessGrant);
   ("authorizationDecision"%string, authorizationDecision);
   ("keyOperationAuthorization"%string, keyOperationAuthorization);
   ("recipientKeyRotationCampaign"%string, recipientKeyRotationCampaign); ("replicaRecord"%string, replicaRecord);
   ("replicaReceipt"%string, replicaReceipt); ("derivedArtifactDescriptor"%string, derivedArtifactDescriptor)].
End Records.
