(* ===== verification/IdentityPolicy.v ===== *)
(** * Identities, policies and ownership

    [src/src/schemas/identity-policy.ts], in the order of the file. *)

From S2P Require Import Prelude Regex Digits Decimal Base64 Schemas Json Protection KeyOperations Zod BundleSchemas.

Local Open Scope Z_scope.
Local Open Scope zod_scope.

Definition statusTime : fields_of :=
  ["effective_at" ⇒ s_timestamp; "recorded_at" ⇒ s_timestamp].

Definition scope : zod :=
  ZObject
    ["resource_id" ⇒ s_nonempty; "resource_version" ⇒? s_positive].

Definition unitDefinition : zod :=
  ZObject
    (["schema" ⇒ s_lit "EVLLM_UNIT_DEFINITION_V1"; "unit_id" ⇒ s_urn "unit"; "unit_version" ⇒ s_positive;
     "symbol" ⇒ s_short; "dimension_vector" ⇒ ZRecord (rtest (rx "^[A-Z][A-Za-z0-9_-]*$")) (ZInt (fun _ => true));
     "decimal_scale" ⇒ s_decimal; "decimal_offset" ⇒? s_decimal; "source" ⇒ s_short; "external_mapping" ⇒? s_short;
     "status" ⇒ s_enum ["pending"; "active"; "retired"]] ++
     statusTime).

Definition organization : zod :=
  ZObject
    (["schema" ⇒ s_lit "EVLLM_ORGANIZATION_V1"; "organization_id" ⇒ s_urn "org"; "organization_version" ⇒ s_positive;
     "name" ⇒ s_short; "status" ⇒ s_enum ["pending"; "active"; "suspended"; "revoked"];
     "admitted_role_ids" ⇒ s_array (s_urn "role") 128; "administrator_actor_ids" ⇒ s_array (s_urn "actor") 128;
     "repository_ids" ⇒ s_array (s_urn "repository") 128; "legal_identity_limitation" ⇒ s_text] ++
     statusTime).

Definition actorCredential : zod :=
  ZObject
    (["schema" ⇒ s_lit "EVLLM_ACTOR_CREDENTIAL_V1"; "credential_id" ⇒ s_urn "credential";
     "credential_version" ⇒ ZLiteral (JNum 1); "actor_id" ⇒ s_urn "actor"; "organization_id" ⇒ s_urn "org";
     "wallet_address" ⇒ s_address; "status" ⇒ s_enum ["pending"; "active"; "retired"; "revoked"; "compromised"];
     "predecessor_credential_id" ⇒? s_urn "credential"; "successor_credential_id" ⇒? s_urn "credential";
     "role_ids" ⇒ s_array (s_urn "role") 128] ++
     statusTime ++
     ["revocation_reason" ⇒? s_short]).

Definition rsaPublicJwk : zod :=
  ZObject
    ["kty" ⇒ s_lit "RSA"; "kid" ⇒ s_nonempty; "n" ⇒ ZString (rtest (rx "^[A-Za-z0-9_-]{512}$")); "e" ⇒ s_lit "AQAB";
     "alg" ⇒ s_lit "RSA-OAEP-256"; "use" ⇒ s_lit "enc"; "key_ops" ⇒ ZTuple [s_lit "wrapKey"]].

Definition organizationEncryptionKey : zod :=
  ZObject
    (["schema" ⇒ s_lit "EVLLM_ORGANIZATION_ENCRYPTION_KEY_V1"; "organization_id" ⇒ s_urn "org";
     "key_id" ⇒ s_urn "key"; "key_version" ⇒ s_positive;
     "thumbprint_uri" ⇒ ZString (rtest (rx "^urn:ietf:params:oauth:jwk-thumbprint:sha-256:[A-Za-z0-9_-]{43}$"));
     "public_jwk" ⇒ rsaPublicJwk;
     "status" ⇒ s_enum ["pending"; "active"; "retired"; "revoked"; "lost"; "compromised"];
     "key_authority_actor_id" ⇒ s_urn "actor"; "predecessor_key_id" ⇒? s_urn "key";
     "successor_key_id" ⇒? s_urn "key"] ++
     statusTime ++
     ["status_reason" ⇒? s_short]).

Definition capabilityGrant : zod :=
  ZObject
    ["schema" ⇒ s_lit "EVLLM_CAPABILITY_GRANT_V1"; "grant_id" ⇒ s_urn "grant"; "grant_version" ⇒ s_positive;
     "actor_id" ⇒ s_urn "actor"; "organization_id" ⇒ s_urn "org"; "role_id" ⇒ s_urn "role";
     "capability_id" ⇒ s_urn "capability"; "resource_scope" ⇒ ZArray scope 1 (Some 256);
     "claim_method_scope" ⇒ s_array s_short 256; "effective_at" ⇒ s_timestamp; "expires_at" ⇒ s_timestamp;
     "grantor_actor_id" ⇒ s_urn "actor"; "status" ⇒ s_enum ["prepared"; "active"; "revoked"]; "reason" ⇒ s_short;
     "policy_id" ⇒ s_urn "policy"; "policy_version" ⇒ s_positive].

Definition roleCapabilityDefinition : zod :=
  ZObject
    (["schema" ⇒ s_lit "EVLLM_ROLE_CAPABILITY_DEFINITION_V1"; "definition_id" ⇒ s_urn "policy";
     "definition_version" ⇒ s_positive; "role_id" ⇒ s_urn "role";
     "role_code" ⇒ ZString (rtest (rx "^[a-z][a-z0-9.-]*$")); "capability_id" ⇒ s_urn "capability";
     "capability_code" ⇒ ZString (rtest (rx "^[a-z][a-z0-9.-]*$"));
     "permitted_bundle_types" ⇒ s_array s_bundleType 10; "permitted_actions" ⇒ ZArray s_short 1 (Some 256);
     "required_scope" ⇒ s_array s_short 256; "policy_version" ⇒ s_positive;
     "status" ⇒ s_enum ["pending"; "active"; "retired"]] ++
     statusTime).

Definition dispatch : zod :=
  ZObject
    ["discriminator" ⇒ s_short; "capability_id" ⇒ s_urn "capability"; "relationship_predicate" ⇒ s_short].

Definition authorBindingProfileV1 : zod :=
  ZObject
    ["schema" ⇒ s_lit "EVLLM_AUTHOR_BINDING_PROFILE_V1"; "profile_id" ⇒ s_urn "profile";
     "profile_version" ⇒ s_positive; "bundle_type" ⇒ s_bundleType; "payload_schema_id" ⇒ s_urn "schema";
     "payload_schema_version" ⇒ s_semver; "resource_id_pointer" ⇒ s_prefix "/";
     "resource_version_pointer" ⇒ s_prefix "/"; "author_field_pointers" ⇒ ZArray (s_prefix "/") 1 (Some 16);
     "allowed_role_ids" ⇒ ZArray (s_urn "role") 1 (Some 32);
     "allowed_capability_ids" ⇒ ZArray (s_urn "capability") 1 (Some 32); "dispatch" ⇒ ZArray dispatch 1 (Some 32);
     "relationship_context_fields" ⇒ s_array s_short 64;
     "separation_of_duty" ⇒ s_enum ["none"; "different-actor"; "different-organization"];
     "revalidate_at" ⇒ ZTuple [s_lit "prepare"; s_lit "domain-activation"];
     "status" ⇒ s_enum ["pending"; "active"; "retired"]].

Definition authorBindingDecision : zod :=
  ZObject
    ["schema" ⇒ s_lit "EVLLM_AUTHOR_BINDING_DECISION_V1"; "decision_id" ⇒ s_urn "decision";
     "decision_version" ⇒ s_positive; "bundle_id" ⇒ s_urn "bundle"; "bundle_version" ⇒ s_positive;
     "bundle_type" ⇒ s_bundleType; "domain_resource_id" ⇒ s_prefix "urn:evllm:";
     "domain_resource_version" ⇒ s_positive; "domain_payload_commitment" ⇒ s_digest;
     "preparation_request_fingerprint" ⇒ s_digest; "author_binding_profile_id" ⇒ s_urn "profile";
     "author_binding_profile_version" ⇒ s_positive; "intended_author_actor_id" ⇒ s_urn "actor";
     "intended_author_organization_id" ⇒ s_urn "org"; "intended_author_credential_id" ⇒ s_urn "credential";
     "intended_author_address" ⇒ s_address; "selected_role_id" ⇒ s_urn "role";
     "selected_capability_id" ⇒ s_urn "capability"; "discriminator" ⇒ s_short;
     "relationship_operands" ⇒ ZRecord (fun _ => true) (ZString (fun _ => true)); "relationship_source" ⇒ scope;
     "equality_result" ⇒ s_lit "allow"; "relationship_result" ⇒ s_lit "allow"; "evaluated_at" ⇒ s_timestamp;
     "decision_digest" ⇒ s_digest].

Definition purposeDefinition : zod :=
  ZObject
    (["schema" ⇒ s_lit "EVLLM_PURPOSE_DEFINITION_V1"; "purpose_id" ⇒ s_urn "policy"; "purpose_version" ⇒ s_positive;
     "code" ⇒ ZString (rtest (rx "^[a-z][a-z0-9.-]*$")); "description" ⇒ s_text;
     "status" ⇒ s_enum ["pending"; "active"; "retired"]] ++
     statusTime).

Definition accessPolicy : zod :=
  ZObject
    ["schema" ⇒ s_lit "EVLLM_ACCESS_POLICY_V1"; "policy_id" ⇒ s_urn "policy"; "policy_version" ⇒ s_positive;
     "purpose_id" ⇒ s_urn "policy"; "bundle_types" ⇒ ZArray s_bundleType 1 (Some 10);
     "access_class" ⇒ s_lit "restricted"; "domain_scope" ⇒ s_array scope 256;
     "permitted_role_ids" ⇒ s_array (s_urn "role") 128; "permitted_organization_ids" ⇒ s_array (s_urn "org") 128;
     "permitted_operations" ⇒ ZArray s_short 1 (Some 64); "minimization_rule" ⇒ s_text;
     "retention_profile_id" ⇒ s_urn "profile"; "retention_profile_version" ⇒ s_positive;
     "controller_organization_id" ⇒ s_urn "org"; "delegation_allowed" ⇒ ZBoolean;
     "fail_closed" ⇒ ZLiteral (JBool true); "status" ⇒ s_enum ["pending"; "active"; "retired"]].

Definition replicaPolicyProfile : zod :=
  extend replicaPolicy
    ["canonical_digest" ⇒ s_digest; "status" ⇒ s_enum ["pending"; "active"; "retired"]; "effective_at" ⇒ s_timestamp].

Definition repositoryRegistration : zod :=
  ZObject
    ["schema" ⇒ s_lit "EVLLM_REPOSITORY_REGISTRATION_V1"; "repository_id" ⇒ s_urn "repository";
     "repository_version" ⇒ s_positive; "custody_controller_organization_id" ⇒ s_urn "org";
     "infrastructure_operator_organization_id" ⇒ s_urn "org"; "protocol_version" ⇒ s_semver;
     "adapter_version" ⇒ s_semver; "endpoint_alias" ⇒ s_short; "supported_operations" ⇒ ZArray s_short 1 (Some 64);
     "conformance_result" ⇒ s_enum ["pass"; "fail"];
     "status" ⇒ s_enum ["pending"; "active"; "unavailable"; "retired"];
     "approved_replica_scopes" ⇒ s_array scope 128].

Definition custodyRelationship : zod :=
  ZObject
    ["schema" ⇒ s_lit "EVLLM_CUSTODY_RELATIONSHIP_V1"; "relationship_id" ⇒ s_urn "policy";
     "relationship_version" ⇒ s_positive; "bundle_controller_organization_id" ⇒ s_urn "org";
     "domain_controller_organization_id" ⇒ s_urn "org"; "primary_repository_id" ⇒ s_urn "repository";
     "primary_operator_organization_id" ⇒ s_urn "org"; "replica_controller_organization_id" ⇒ s_urn "org";
     "replica_operator_organization_id" ⇒ s_urn "org"; "permitted_bundle_types" ⇒ ZArray s_bundleType 1 None;
     "resource_scope" ⇒ s_array scope 256; "effective_at" ⇒ s_timestamp;
     "status" ⇒ s_enum ["pending"; "active"; "retired"]].

Definition batterySubject : zod :=
  ZObject
    ["schema" ⇒ s_lit "EVLLM_BATTERY_SUBJECT_V1"; "battery_id" ⇒ s_urn "battery"; "battery_version" ⇒ s_positive;
     "granularity" ⇒ s_enum ["pack"; "module"; "cell"]; "registration_issuer_organization_id" ⇒ s_urn "org";
     "subject_schema_id" ⇒ s_urn "schema"; "subject_schema_version" ⇒ s_semver;
     "status" ⇒ s_enum ["pending"; "active"; "locked"; "retired"]; "parent_battery_id" ⇒? s_urn "battery";
     "parent_relation_version" ⇒? s_positive].

Definition identifierBinding : zod :=
  ZObject
    ["schema" ⇒ s_lit "EVLLM_IDENTIFIER_BINDING_V1"; "binding_id" ⇒ s_urn "link"; "binding_version" ⇒ s_positive;
     "battery_id" ⇒ s_urn "battery"; "external_identifier" ⇒ s_short; "identifier_scheme" ⇒ s_short;
     "issuer_organization_id" ⇒ s_urn "org"; "source_evidence_id" ⇒ s_urn "evidence";
     "source_evidence_version" ⇒ s_positive; "uncertainty" ⇒ s_enum ["none"; "estimated"; "conflicting"];
     "effective_at" ⇒ s_timestamp; "status" ⇒ s_enum ["active"; "superseded"; "withdrawn"]].

Definition ownershipTransition : zod :=
  ZObject
    ["schema" ⇒ s_lit "EVLLM_OWNERSHIP_TRANSITION_V1"; "transition_id" ⇒ s_urn "transition";
     "transition_version" ⇒ s_positive; "battery_id" ⇒ s_urn "battery"; "previous_organization_id" ⇒? s_urn "org";
     "new_organization_id" ⇒ s_urn "org"; "reason" ⇒ s_short; "agreement_id" ⇒? s_urn "agreement";
     "registration_id" ⇒? s_urn "ownership"; "event_time" ⇒ s_timestamp; "chain_id" ⇒ s_positive;
     "transaction_hash" ⇒ ZString (rtest (rx "^0x[0-9a-f]{64}$")); "log_index" ⇒ s_nonnegative].

Definition initialOwnershipBinding : zod :=
  ZObject
    ["schema" ⇒ s_lit "EVLLM_INITIAL_OWNERSHIP_BINDING_V1"; "ownership_proposal_id" ⇒ s_urn "ownership";
     "ownership_proposal_version" ⇒ ZLiteral (JNum 1); "battery_id" ⇒ s_urn "battery";
     "registrar_actor_id" ⇒ s_urn "actor"; "nominated_organization_id" ⇒ s_urn "org";
     "supporting_evidence_id" ⇒ s_urn "evidence"; "supporting_evidence_version" ⇒ s_positive;
     "supporting_commitment" ⇒ s_digest; "registrar_confirmation_id" ⇒ s_urn "transition";
     "owner_confirmation_id" ⇒? s_urn "transition"; "terminal_transition_id" ⇒? s_urn "transition";
     "nonce" ⇒ ZString (rtest (rx "^0x[0-9a-f]{64}$")); "expires_at" ⇒ s_timestamp;
     "state" ⇒ s_enum ["proposed"; "accepted"; "rejected"; "expired"]; "reason" ⇒? s_short; "chain_id" ⇒ s_positive;
     "transaction_hash" ⇒? ZString (rtest (rx "^0x[0-9a-f]{64}$"))].

Definition identityPolicySchemas : list (string * zod) :=
  [("unitDefinition"%string, unitDefinition); ("organization"%string, organization);
   ("actorCredential"%string, actorCredential); ("organizationEncryptionKey"%string, organizationEncryptionKey);
   ("capabilityGrant"%string, capabilityGrant); ("roleCapabilityDefinition"%string, roleCapabilityDefinition);
   ("authorBindingProfileV1"%string, authorBindingProfileV1);
   ("authorBindingDecision"%string, authorBindingDecision); ("purposeDefinition"%string, purposeDefinition);
   ("accessPolicy"%string, accessPolicy); ("replicaPolicyProfile"%string, replicaPolicyProfile);
   ("repositoryRegistration"%string, repositoryRegistration); ("custodyRelationship"%string, custodyRelationship);
   ("batterySubject"%string, batterySubject); ("identifierBinding"%string, identifierBinding);
   ("ownershipTransition"%string, ownershipTransition); ("initialOwnershipBinding"%string, initialOwnershipBinding)].
