(* ===== verification/DomainRecords.v ===== *)
(** * Domain records

    [src/src/schemas/domain-records.ts], in the order of the file. *)

From S2P Require Import Prelude Regex Digits Decimal Base64 Schemas Json Protection KeyOperations Zod BundleSchemas.

Local Open Scope Z_scope.
Local Open Scope zod_scope.

Section Records.
Context `{ZodFormats}.

Definition signatureRef : zod :=
  ZObject
    ["record_id" ⇒ s_urn "assertion"; "signature_digest" ⇒ s_digest; "typed_data_digest" ⇒ s_bytes32].

Definition authoritativeSource : zod :=
  ZObject
    ["schema" ⇒ s_lit "EVLLM_AUTHORITATIVE_SOURCE_V1"; "source_id" ⇒ s_urn "source"; "source_version" ⇒ s_positive;
     "predecessor_source_version" ⇒? s_positive; "successor_source_version" ⇒? s_positive;
     "public_metadata_ref" ⇒? s_ref; "licensed_payload_ref" ⇒? s_ref;
     "domain_signature_record_id" ⇒? s_urn "assertion"; "source_class" ⇒ s_enum ["legal"; "technical"];
     "access_state" ⇒ s_enum ["public"; "licensed"; "metadata-only"];
     "licence_state" ⇒ s_enum ["permitted"; "restricted"; "unavailable"]; "review_due_at" ⇒ s_timestamp;
     "lifecycle" ⇒ s_enum ["pending"; "active"; "unavailable"; "superseded"; "withdrawn"; "expired"];
     "transition_actor_id" ⇒ s_urn "actor"; "transition_reason" ⇒ s_short; "effective_at" ⇒ s_timestamp;
     "reviewed_at" ⇒ s_timestamp; "permitted_rule_ids" ⇒ s_array (s_urn "rule") 256;
     "dependent_rule_ids" ⇒ s_array (s_urn "rule") 256].

Definition ruleProfile : zod :=
  ZObject
    ["schema" ⇒ s_lit "EVLLM_RULE_PROFILE_V1"; "rule_id" ⇒ s_urn "rule"; "rule_version" ⇒ s_positive;
     "source_clauses" ⇒ ZArray s_ref 1 (Some 256); "jurisdiction" ⇒ s_short; "effective_from" ⇒ s_timestamp;
     "effective_until" ⇒? s_timestamp; "subject_scope" ⇒ ZArray s_short 1 (Some 128);
     "predicates" ⇒ ZArray s_short 1 (Some 256); "required_evidence" ⇒ s_array s_short 256;
     "outcomes" ⇒ ZArray s_short 1 (Some 128); "reason_codes" ⇒ ZArray s_short 1 (Some 128);
     "status" ⇒ s_enum ["pending"; "active"; "disabled"; "superseded"; "retired"]; "review_due_at" ⇒ s_timestamp].

Definition routeAssessmentProfile : zod :=
  ZObject
    ["schema" ⇒ s_lit "EVLLM_ROUTE_ASSESSMENT_PROFILE_V1"; "assessment_result_id" ⇒ s_urn "assessment";
     "assessment_result_version" ⇒ s_positive; "result_payload_ref" ⇒ s_ref;
     "domain_signature_record_id" ⇒ s_urn "assertion"; "input_basis_id" ⇒ s_urn "assessment";
     "input_basis_version" ⇒ s_positive; "resolved_evidence" ⇒ ZArray s_ref 1 (Some 512);
     "issuer_status" ⇒ s_enum ["active"; "superseded"; "revoked"];
     "protected_bundle_state" ⇒ s_enum ["confirmed"; "reorganized"; "unavailable"];
     "summary_reason_codes" ⇒ s_array s_short 128].

Definition listing : zod :=
  ZObject
    ["schema" ⇒ s_lit "EVLLM_LISTING_V1"; "listing_id" ⇒ s_urn "listing"; "listing_version" ⇒ ZLiteral (JNum 1);
     "terms_payload_ref" ⇒ s_ref; "domain_signature_record_id" ⇒ s_urn "assertion";
     "state" ⇒ s_enum ["active"; "matched"; "withdrawn"; "expired"; "closed-settled"; "closed-cancelled"];
     "accepted_offer_id" ⇒? s_urn "offer"; "history" ⇒ s_array (s_urn "transition") 256;
     "chain_locators" ⇒ s_array s_chainLocator 256].

Definition offer : zod :=
  ZObject
    ["schema" ⇒ s_lit "EVLLM_OFFER_V1"; "offer_id" ⇒ s_urn "offer"; "offer_version" ⇒ ZLiteral (JNum 1);
     "listing_id" ⇒ s_urn "listing"; "listing_version" ⇒ ZLiteral (JNum 1); "buyer_organization_id" ⇒ s_urn "org";
     "amount" ⇒ weiAmount; "buyer_refund_address" ⇒ s_address; "binding_actor_id" ⇒ s_urn "actor";
     "binding_time" ⇒ s_timestamp; "expires_at" ⇒ s_timestamp; "terms_commitment" ⇒ s_digest;
     "state" ⇒ s_enum ["submitted"; "accepted"; "rejected"; "withdrawn"; "expired"]].

Definition agreement : zod :=
  ZObject
    ["schema" ⇒ s_lit "EVLLM_AGREEMENT_V1"; "agreement_id" ⇒ s_urn "agreement";
     "agreement_version" ⇒ ZLiteral (JNum 1); "terms_payload_ref" ⇒ s_ref;
     "domain_signature_record_id" ⇒ s_urn "assertion"; "seller_selection_id" ⇒ s_urn "transition";
     "buyer_confirmation_id" ⇒? s_urn "transition"; "escrow_amount" ⇒ weiAmount; "seller_credit" ⇒ weiAmount;
     "buyer_credit" ⇒ weiAmount; "confirmation_deadline" ⇒ s_timestamp; "delivery_deadline" ⇒ s_timestamp;
     "state" ⇒ s_enum ["awaiting-buyer-confirmation"; "awaiting-funding"; "funded"; "in-delivery"; "delivered"; "accepted"; "settled"; "cancelled"; "refund-and-cancel"; "disputed"; "timed-out-referred"; "release-and-transfer"];
     "chain_locators" ⇒ s_array s_chainLocator 256].

Definition deliveryRecord : zod :=
  ZObject
    ["schema" ⇒ s_lit "EVLLM_DELIVERY_RECORD_V1"; "delivery_id" ⇒ s_urn "delivery"; "delivery_version" ⇒ s_positive;
     "logistics_payload_refs" ⇒ ZArray s_ref 1 (Some 256);
     "domain_signature_record_ids" ⇒ ZArray (s_urn "assertion") 1 (Some 256);
     "recipient_response" ⇒ s_enum ["pending"; "accepted"; "rejected"];
     "state" ⇒ s_enum ["dispatched"; "delivered"; "disputed"; "closed"]; "dispute_id" ⇒? s_urn "dispute";
     "chain_locators" ⇒ s_array s_chainLocator 256].

Definition disputeRecord : zod :=
  ZObject
    ["schema" ⇒ s_lit "EVLLM_DISPUTE_RECORD_V1"; "dispute_id" ⇒ s_urn "dispute"; "dispute_version" ⇒ s_positive;
     "submission_payload_refs" ⇒ ZArray s_ref 1 (Some 256);
     "domain_signature_record_ids" ⇒ ZArray (s_urn "assertion") 1 (Some 256);
     "state" ⇒ s_enum ["open"; "under-review"; "resolved"; "rejected"; "withdrawn"];
     "resolver_actor_id" ⇒? s_urn "actor"; "outcome" ⇒? s_enum ["upheld"; "rejected"; "settled"; "withdrawn"];
     "opened_at" ⇒ s_timestamp; "resolved_at" ⇒? s_timestamp; "chain_locators" ⇒ s_array s_chainLocator 256].

Definition eip712Domain : zod :=
  ZObject
    ["name" ⇒ s_short; "version" ⇒ s_short; "chain_id" ⇒ s_positive; "verifying_contract" ⇒ s_address].

Definition commandIntent : zod :=
  ZObject
    ["schema" ⇒ s_lit "EVLLM_COMMAND_INTENT_V1"; "command_id" ⇒ s_urn "command"; "command_type" ⇒ s_short;
     "command_version" ⇒ s_positive; "kind" ⇒ s_enum ["on-chain-transaction"; "off-chain-signed"];
     "origin_type" ⇒ s_enum ["registered-actor"; "permissionless-wallet"; "service-process"];
     "caller_address" ⇒? s_address; "caller_process" ⇒? s_short; "actor_id" ⇒? s_urn "actor";
     "organization_id" ⇒? s_urn "org"; "resource_id" ⇒ s_prefix "urn:evllm:"; "resource_version" ⇒ s_positive;
     "purpose_id" ⇒ s_urn "policy"; "preconditions" ⇒ s_array s_short 256;
     "policy_result" ⇒ s_enum ["allow"; "deny"]; "nonce" ⇒ s_bytes32; "issued_at" ⇒ s_timestamp;
     "expires_at" ⇒ s_timestamp; "idempotency_key_hash" ⇒ s_bytes32; "eip712_domain" ⇒? eip712Domain;
     "eip712_type" ⇒? s_short; "eip712_payload_digest" ⇒? s_bytes32; "signer_actor_id" ⇒? s_urn "actor";
     "signer_organization_id" ⇒? s_urn "org"; "signer_credential_id" ⇒? s_urn "credential";
     "signer_address" ⇒? s_address; "signature" ⇒? s_base64Url; "typed_data_digest" ⇒? s_bytes32;
     "signature_digest" ⇒? s_digest;
     "state" ⇒ s_enum ["prepared"; "signature-accepted"; "executing"; "executed"; "failed-retryable"; "failed-terminal"; "expired"; "transaction-submitted"; "transaction-confirmed"; "transaction-orphaned"; "transaction-replaced"; "rejected"];
     "correlation_id" ⇒ ZString z_uuid; "resulting_event_ids" ⇒ s_array (s_urn "event") 256].

Definition auditEvent : zod :=
  ZObject
    ["schema" ⇒ s_lit "EVLLM_AUDIT_EVENT_V1"; "correlation_id" ⇒ ZString z_uuid; "event_id" ⇒ s_urn "event";
     "event_version" ⇒ ZLiteral (JNum 1); "sequence" ⇒ s_positive; "process" ⇒ s_short;
     "origin_type" ⇒ s_enum ["registered-actor"; "permissionless-wallet"; "service-process"];
     "caller_address" ⇒? s_address; "caller_process" ⇒? s_short; "actor_id" ⇒? s_urn "actor";
     "organization_id" ⇒? s_urn "org"; "purpose_id" ⇒ s_urn "policy"; "operation" ⇒ s_short;
     "resource_refs" ⇒ s_array s_ref 256; "policy_result" ⇒ s_enum ["allow"; "deny"; "not-applicable"];
     "result_status" ⇒ s_short; "permitted_digests" ⇒ s_array s_digest 256; "recorded_at" ⇒ s_timestamp;
     "previous_event_hash" ⇒? s_digest; "event_hash" ⇒ s_digest;
     "privacy_class" ⇒ s_enum ["public"; "minimized"; "restricted-reference"]].

Definition auditBatchAnchor : zod :=
  ZRefine
    (ZObject
      ["schema" ⇒ s_lit "EVLLM_AUDIT_BATCH_ANCHOR_V1"; "batch_id" ⇒ s_urn "batch"; "batch_version" ⇒ s_positive;
       "first_event_sequence" ⇒ s_positive; "last_event_sequence" ⇒ s_positive; "event_count" ⇒ s_positive;
       "final_event_hash" ⇒ s_digest; "batch_commitment" ⇒ s_digest; "preceding_closed_batch_commitment" ⇒? s_digest;
       "profile_id" ⇒ s_urn "profile"; "profile_version" ⇒ s_positive; "closed_at" ⇒ s_timestamp;
       "anchor_attempt_ids" ⇒ s_array (s_urn "attempt") 256;
       "confirmation_state" ⇒ s_enum ["closed"; "submitted"; "confirmed"; "orphaned"];
       "open_tail_first_sequence" ⇒? s_positive])
    (fun v => negb (number_member "last_event_sequence" v <? number_member "first_event_sequence" v)).

Definition assistantRequest : zod :=
  ZObject
    ["schema" ⇒ s_lit "EVLLM_ASSISTANT_REQUEST_V1"; "request_id" ⇒ s_urn "assistant";
     "request_version" ⇒ s_positive; "requesting_actor_id" ⇒ s_urn "actor";
     "requesting_organization_id" ⇒ s_urn "org"; "minimized_question_metadata" ⇒ s_array s_short 64;
     "minimized_result_metadata" ⇒ s_array s_short 64; "response_state" ⇒ s_enum ["completed"; "refused"; "failed"];
     "validation_event_ids" ⇒ s_array (s_urn "event") 256; "audit_event_id" ⇒ s_urn "event";
     "created_at" ⇒ s_timestamp].

Definition assistantSupportRetentionLink : zod :=
  ZObject
    ["schema" ⇒ s_lit "EVLLM_ASSISTANT_SUPPORT_RETENTION_LINK_V1"; "link_id" ⇒ s_urn "link";
     "link_version" ⇒ s_positive; "assistant_request_id" ⇒ s_urn "assistant";
     "assistant_request_version" ⇒ s_positive; "assistant_support_id" ⇒ s_urn "assistant";
     "assistant_support_version" ⇒ s_positive; "protected_bundle_ref" ⇒ protectedBundleRef;
     "attribution_signature_ref" ⇒ signatureRef; "finalization_command_id" ⇒ s_urn "command";
     "retention_purpose_id" ⇒ s_urn "policy"; "created_at" ⇒ s_timestamp].

Definition sensitiveAuditRetentionLink : zod :=
  ZObject
    ["schema" ⇒ s_lit "EVLLM_SENSITIVE_AUDIT_RETENTION_LINK_V1"; "link_id" ⇒ s_urn "link";
     "link_version" ⇒ s_positive; "source_audit_event_id" ⇒ s_urn "event";
     "source_audit_event_version" ⇒ ZLiteral (JNum 1); "sensitive_audit_id" ⇒ s_urn "audit";
     "sensitive_audit_version" ⇒ s_positive; "protected_bundle_ref" ⇒ protectedBundleRef;
     "attribution_signature_ref" ⇒ signatureRef; "finalization_command_id" ⇒ s_urn "command";
     "retention_purpose_id" ⇒ s_urn "policy"; "created_at" ⇒ s_timestamp].

Definition evaluationCase : zod :=
  ZObject
    ["schema" ⇒ s_lit "EVLLM_EVALUATION_CASE_V1"; "case_id" ⇒ s_urn "case"; "case_version" ⇒ s_positive;
     "source_class" ⇒ s_enum ["public-data-replay"; "synthetic-generator"; "scripted-report"]; "licence" ⇒ s_short;
     "actor_id" ⇒ s_urn "actor"; "task" ⇒ s_text; "fixture_refs" ⇒ ZArray s_ref 1 (Some 256);
     "adverse_condition" ⇒? s_short; "expected_state" ⇒ s_short; "adjudication_basis" ⇒ s_text;
     "allowed_outputs" ⇒ ZArray s_short 1 (Some 256); "metrics" ⇒ ZArray s_short 1 (Some 256);
     "exclusion_flags" ⇒ s_array s_short 256; "schema_version" ⇒ s_semver].

Definition domainRecordSchemas : list (string * zod) :=
  [("authoritativeSource"%string, authoritativeSource); ("ruleProfile"%string, ruleProfile);
   ("routeAssessmentProfile"%string, routeAssessmentProfile); ("listing"%string, listing); ("offer"%string, offer);
   ("agreement"%string, agreement); ("deliveryRecord"%string, deliveryRecord);
   ("disputeRecord"%string, disputeRecord); ("commandIntent"%string, commandIntent);
   ("auditEvent"%string, auditEvent); ("auditBatchAnchor"%string, auditBatchAnchor);
   ("assistantRequest"%string, assistantRequest);
   ("assistantSupportRetentionLink"%string, assistantSupportRetentionLink);
   ("sensitiveAuditRetentionLink"%string, sensitiveAuditRetentionLink); ("evaluationCase"%string, evaluationCase)].
End Records.
