(* ===== verification/DomainPayloads.v ===== *)
(** * Domain payloads

    [src/src/schemas/domain-payloads.ts] and the numeric schemas of [numeric.ts]: what is
    protected in a bundle, which names the bundle it is in. *)

From S2P Require Import Prelude Regex Digits Decimal Base64 Schemas Json Protection KeyOperations Zod BundleSchemas.

Local Open Scope Z_scope.
Local Open Scope zod_scope.

Section Payloads.
Context `{ZodFormats}.

(** A member that is a text, for a refinement *)
Definition text_member (k : string) (v : json) : string :=
  match v with JObj ms => match map_get k ms with Some (JStr s) => s | _ => "" end | _ => "" end%string.

Definition decimalQuantity : zod :=
  ZObject
    ["value" ⇒ s_decimal; "unit_id" ⇒ s_urn "unit"; "unit_version" ⇒ s_positive].

Definition decimalRange : zod :=
  ZRefine
    (ZObject
      ["lower" ⇒ s_decimal; "upper" ⇒ s_decimal])
    (fun v => negb (0 <? compareCanonicalDecimals (text_member "lower" v) (text_member "upper" v))).

Definition moneyValue : zod :=
  ZObject
    ["amount" ⇒ s_decimal; "currency" ⇒ ZString (rtest (rx "^[A-Z]{3}$")); "currency_profile_id" ⇒ s_urn "profile";
     "currency_profile_version" ⇒ s_positive].

Definition percentilePoint : zod :=
  ZObject
    ["probability" ⇒ ZRefine s_decimal (z_string (fun s =>
       (0 <=? compareCanonicalDecimals s "0") && (compareCanonicalDecimals s "1" <=? 0))); "value" ⇒ s_decimal].

(** [bindReference]: a payload names its own protected bundle. *)
Definition names_own_bundle (bundleType : BundleType) (resourceField : string) (v : json) : bool :=
  match v with
  | JObj ms =>
      match map_get "protected_bundle_ref" ms with
      | Some (JObj r) =>
          strict_equal (map_get "bundle_type" r) (Some (JStr (bundle_type_text bundleType))) &&
          strict_equal (map_get "domain_resource_id" r) (map_get resourceField ms)
      | _ => false
      end
  | _ => false
  end.

Definition bindReference (shape : fields_of) (bundleType : BundleType) (resourceField : string) : zod :=
  ZRefine (ZObject (shape ++ ["protected_bundle_ref" ⇒ protectedBundleRef])) (names_own_bundle bundleType resourceField).

Definition typedValue : zod :=
  ZUnion
    [ZObject ["type" ⇒ s_lit "quantity"; "quantity" ⇒ decimalQuantity];
     ZObject ["type" ⇒ s_lit "text"; "value" ⇒ s_text];
     ZObject ["type" ⇒ s_lit "boolean"; "value" ⇒ ZBoolean]].

Definition uncertainty : zod :=
  ZUnion
    [ZObject ["type" ⇒ s_lit "none"];
     ZObject ["type" ⇒ s_lit "range"; "range" ⇒ decimalRange]].

Definition evidenceClaimPayload : zod :=
  bindReference
    ["schema" ⇒ s_lit "EVLLM_EVIDENCE_CLAIM_PAYLOAD_V1"; "evidence_id" ⇒ s_urn "evidence";
     "evidence_version" ⇒ s_positive; "claim_id" ⇒ s_urn "claim"; "claim_version" ⇒ s_positive;
     "claim_type" ⇒ s_short; "subject_id" ⇒ ZUnion [s_urn "battery"; s_urn "claim"];
     "subject_granularity" ⇒ s_enum ["pack"; "module"; "cell"]; "issuer_organization_id" ⇒ s_urn "org";
     "issuer_role_id" ⇒ s_urn "role"; "observed_at" ⇒ s_timestamp; "submitted_at" ⇒ s_timestamp;
     "capture_method" ⇒ s_ref; "value" ⇒ typedValue; "uncertainty" ⇒ uncertainty;
     "source_class" ⇒ s_enum ["primary"; "secondary"; "derived"]; "provenance" ⇒ s_array s_ref 256]
    bt_evidence "evidence_id".

Definition verificationPayload : zod :=
  bindReference
    ["schema" ⇒ s_lit "EVLLM_VERIFICATION_PAYLOAD_V1"; "verification_id" ⇒ s_urn "verification";
     "verification_version" ⇒ s_positive; "assertion_type" ⇒ s_enum ["corroboration"; "certification"];
     "claim_id" ⇒ s_urn "claim"; "claim_version" ⇒ s_positive; "verifier_organization_id" ⇒ s_urn "org";
     "verifier_role_id" ⇒ s_urn "role"; "verifier_credential_id" ⇒ s_urn "credential";
     "basis_evidence" ⇒ ZArray s_ref 1 (Some 256); "method" ⇒ s_ref; "reason" ⇒ s_text; "verified_at" ⇒ s_timestamp;
     "valid_until" ⇒? s_timestamp]
    bt_verification "verification_id".

Definition routeContext (routeId : string) : zod :=
  ZObject
    ["route_id" ⇒ s_lit routeId; "application" ⇒ s_short; "location" ⇒ s_short; "functional_unit" ⇒ decimalQuantity;
     "duty_context" ⇒ s_text; "service_life" ⇒ decimalRange; "transport_burden" ⇒ decimalQuantity;
     "testing_burden" ⇒ decimalQuantity; "energy_context" ⇒ s_text; "displaced_alternative" ⇒ s_text;
     "recovery_process" ⇒ s_text; "inventories" ⇒ s_array decimalQuantity 512;
     "factors" ⇒ s_array decimalQuantity 512; "economic_assumptions" ⇒ s_array moneyValue 128;
     "uncertainty" ⇒ s_array percentilePoint 101].

Definition assessmentInputPayload : zod :=
  bindReference
    ["schema" ⇒ s_lit "EVLLM_ASSESSMENT_INPUT_PAYLOAD_V1"; "assessment_input_id" ⇒ s_urn "assessment";
     "assessment_input_version" ⇒ s_positive; "battery_id" ⇒ s_urn "battery"; "jurisdiction" ⇒ s_short;
     "as_of" ⇒ s_timestamp; "evidence" ⇒ ZArray s_ref 1 (Some 512); "rules" ⇒ s_array s_ref 256; "method" ⇒ s_ref;
     "calculation_inputs_digest" ⇒ s_digest;
     "candidate_routes" ⇒ ZTuple [routeContext "continued-compatible-ev-use"; routeContext "stationary-storage-repurposing"; routeContext "recycling"];
     "issuer_organization_id" ⇒ s_urn "org"; "issuer_role_id" ⇒ s_urn "role"; "issued_at" ⇒ s_timestamp]
    bt_assessment "assessment_input_id".

Definition routeResult (routeId : string) : zod :=
  ZObject
    ["route_id" ⇒ s_lit routeId; "G" ⇒ decimalRange; "C" ⇒ decimalRange; "I" ⇒ decimalRange; "E" ⇒ decimalRange;
     "A" ⇒ decimalRange; "U" ⇒ decimalRange; "percentiles" ⇒ s_array percentilePoint 101;
     "reason_codes" ⇒ s_array s_short 128; "missing_inputs" ⇒ s_array s_short 128;
     "conflicting_inputs" ⇒ s_array s_short 128].

Definition assessmentResultPayload : zod :=
  bindReference
    ["schema" ⇒ s_lit "EVLLM_ASSESSMENT_RESULT_PAYLOAD_V1"; "assessment_result_id" ⇒ s_urn "assessment";
     "assessment_result_version" ⇒ s_positive; "input_basis_id" ⇒ s_urn "assessment";
     "input_basis_version" ⇒ s_positive;
     "route_results" ⇒ ZTuple [routeResult "continued-compatible-ev-use"; routeResult "stationary-storage-repurposing"; routeResult "recycling"];
     "dominance" ⇒ s_array s_short 128; "rank_stability" ⇒ s_array s_short 128; "arithmetic_profile" ⇒ s_ref;
     "rounding_profile" ⇒ s_ref; "unit_profile" ⇒ s_ref; "method" ⇒ s_ref; "reproduction_hash" ⇒ s_digest;
     "issuer_organization_id" ⇒ s_urn "org"; "issuer_role_id" ⇒ s_urn "role"; "supersedes" ⇒? s_ref]
    bt_assessment "assessment_result_id".

Definition listingTermsPayload : zod :=
  bindReference
    ["schema" ⇒ s_lit "EVLLM_LISTING_TERMS_PAYLOAD_V1"; "listing_id" ⇒ s_urn "listing";
     "listing_version" ⇒ ZLiteral (JNum 1); "battery_id" ⇒ s_urn "battery"; "owner_organization_id" ⇒ s_urn "org";
     "terms_commitment" ⇒ s_digest; "evidence_access_policy" ⇒ s_ref; "test_price" ⇒ weiAmount;
     "seller_payout_address" ⇒ s_address; "binding_actor_id" ⇒ s_urn "actor"; "binding_time" ⇒ s_timestamp;
     "expires_at" ⇒ s_timestamp]
    bt_listing "listing_id".

Definition agreementTermsPayload : zod :=
  bindReference
    ["schema" ⇒ s_lit "EVLLM_AGREEMENT_TERMS_PAYLOAD_V1"; "agreement_id" ⇒ s_urn "agreement";
     "agreement_version" ⇒ ZLiteral (JNum 1); "accepted_offer_id" ⇒ s_urn "offer";
     "accepted_offer_version" ⇒ ZLiteral (JNum 1); "buyer_organization_id" ⇒ s_urn "org";
     "seller_organization_id" ⇒ s_urn "org"; "seller_binding_actor_id" ⇒ s_urn "actor"; "amount" ⇒ weiAmount;
     "terms_commitment" ⇒ s_digest; "seller_payout_address" ⇒ s_address; "buyer_refund_address" ⇒ s_address;
     "confirmation_deadline" ⇒ s_timestamp; "delivery_deadline" ⇒ s_timestamp]
    bt_agreement "agreement_id".

Definition logisticsReportPayload : zod :=
  bindReference
    ["schema" ⇒ s_lit "EVLLM_LOGISTICS_REPORT_PAYLOAD_V1"; "delivery_id" ⇒ s_urn "delivery";
     "delivery_version" ⇒ s_positive; "agreement_id" ⇒ s_urn "agreement"; "agreement_version" ⇒ ZLiteral (JNum 1);
     "issuer_actor_id" ⇒ s_urn "actor"; "issuer_organization_id" ⇒ s_urn "org"; "issuer_role_id" ⇒ s_urn "role";
     "assertion" ⇒ s_enum ["dispatch"; "delivery"]; "observed_at" ⇒ s_timestamp;
     "basis_evidence_commitment" ⇒ s_digest]
    bt_logistics "delivery_id".

(** A dispute is about a claim or about an agreement, as its type says. *)
Definition dispute_scope (v : json) : bool :=
  match v with
  | JObj ms =>
      let claim_scope := bool_decide (map_get "claim_scope" ms = None) in
      let agreement_scope := bool_decide (map_get "agreement_scope" ms = None) in
      if String.eqb (text_member "dispute_type" v) "evidence" then negb claim_scope && agreement_scope
      else negb agreement_scope && claim_scope
  | _ => false
  end.

Definition disputeSubmissionPayload : zod :=
  ZRefine
    (bindReference
     ["schema" ⇒ s_lit "EVLLM_DISPUTE_SUBMISSION_PAYLOAD_V1"; "dispute_id" ⇒ s_urn "dispute";
     "dispute_version" ⇒ s_positive; "dispute_type" ⇒ s_enum ["evidence"; "transaction"]; "claim_scope" ⇒? s_ref;
     "agreement_scope" ⇒? s_ref; "opener_actor_id" ⇒ s_urn "actor"; "opener_organization_id" ⇒ s_urn "org";
     "reason" ⇒ s_text; "evidence_commitments" ⇒ s_array s_digest 256; "submitted_at" ⇒ s_timestamp]
    bt_dispute "dispute_id")
    dispute_scope.

Definition sensitiveAuditPayload : zod :=
  bindReference
    ["schema" ⇒ s_lit "EVLLM_SENSITIVE_AUDIT_PAYLOAD_V1"; "sensitive_audit_id" ⇒ s_urn "audit";
     "sensitive_audit_version" ⇒ s_positive; "source_audit_event_id" ⇒ s_urn "event";
     "source_audit_event_version" ⇒ ZLiteral (JNum 1); "responsible_actor_id" ⇒ s_urn "actor";
     "responsible_organization_id" ⇒ s_urn "org"; "purpose" ⇒ s_short; "sensitive_detail_commitment" ⇒ s_digest;
     "period_start" ⇒ s_timestamp; "period_end" ⇒ s_timestamp]
    bt_audit "sensitive_audit_id".

Definition assistantSupportPayload : zod :=
  bindReference
    ["schema" ⇒ s_lit "EVLLM_ASSISTANT_SUPPORT_PAYLOAD_V1"; "assistant_support_id" ⇒ s_urn "assistant";
     "assistant_support_version" ⇒ s_positive; "source_assistant_request_id" ⇒ s_urn "assistant";
     "source_assistant_request_version" ⇒ s_positive; "requesting_actor_id" ⇒ s_urn "actor";
     "requesting_organization_id" ⇒ s_urn "org"; "purpose" ⇒ s_short; "question" ⇒ s_text;
     "allowed_tools" ⇒ s_array s_ref 64; "configuration" ⇒ s_ref; "support_references" ⇒ s_array s_ref 512;
     "deterministic_outputs" ⇒ s_array s_digest 512; "response" ⇒ s_text;
     "validation_results" ⇒ s_array s_short 256; "model" ⇒ s_short; "provider" ⇒ s_short;
     "token_count" ⇒ s_positive; "latency_ms" ⇒ s_positive; "audit_event_id" ⇒ s_urn "event"]
    bt_assistant_support "assistant_support_id".

Definition licensedSourcePayload : zod :=
  bindReference
    ["schema" ⇒ s_lit "EVLLM_LICENSED_SOURCE_PAYLOAD_V1"; "source_id" ⇒ s_urn "source";
     "source_version" ⇒ s_positive; "external_authority" ⇒ s_text; "source_profile_author_actor_id" ⇒ s_urn "actor";
     "source_profile_author_organization_id" ⇒ s_urn "org"; "source_profile_author_role_id" ⇒ s_urn "role";
     "external_title" ⇒ s_text; "external_version" ⇒ s_short; "external_edition" ⇒ s_short;
     "jurisdiction" ⇒ s_short; "url" ⇒ ZString z_url; "published_at" ⇒ s_timestamp; "in_force_at" ⇒ s_timestamp;
     "applies_at" ⇒ s_timestamp; "licence_terms" ⇒ s_text; "permitted_use" ⇒ s_text; "snapshot_at" ⇒ s_timestamp]
    bt_authoritative_source "source_id".

Definition domainPayloadSchemas : list (string * zod) :=
  [("evidenceClaimPayload"%string, evidenceClaimPayload); ("verificationPayload"%string, verificationPayload);
   ("assessmentInputPayload"%string, assessmentInputPayload);
   ("assessmentResultPayload"%string, assessmentResultPayload); ("listingTermsPayload"%string, listingTermsPayload);
   ("agreementTermsPayload"%string, agreementTermsPayload);
   ("logisticsReportPayload"%string, logisticsReportPayload);
   ("disputeSubmissionPayload"%string, disputeSubmissionPayload);
   ("sensitiveAuditPayload"%string, sensitiveAuditPayload);
   ("assistantSupportPayload"%string, assistantSupportPayload);
   ("licensedSourcePayload"%string, licensedSourcePayload)].
End Payloads.
