(* ===== verification/RecordSchemas.v ===== *)
(** * What the record schemas promise

    The facts about the schemas of [src/src/schemas] that hold for all of them at once: a
    document has the type of at most one record, the same documents are accepted after they
    were stored in canonical form, and a payload names the bundle it is in. *)

From S2P Require Import Prelude Regex Digits Decimal Base64 Schemas Json Protection KeyOperations Zod BundleSchemas BundleRecords IdentityPolicy DomainRecords DomainPayloads.

Local Open Scope Z_scope.

Section Registry.
Context `{ZodFormats}.

(** The four registries that the schema files export *)
Definition recordSchemas : list (string * zod) :=
  bundleRecordSchemas ++ identityPolicySchemas ++ domainRecordSchemas ++ domainPayloadSchemas.

(** ** Refinements do not look at the order of members *)

Definition order_free (r : json -> bool) : Prop := forall v, interoperable v = true -> r (norm v) = r v.

Lemma members_norm ms k : interoperable (JObj ms) = true -> map_get k (norm_fields ms) = norm <$> map_get k ms.
Proof. intros [Hnd _]%interoperable_object. by apply norm_fields_get. Qed.

Lemma number_member_norm k v : interoperable v = true -> number_member k (norm v) = number_member k v.
Proof.
  destruct v as [| | | | | |ms]; intros Hv; try done. rewrite norm_object. simpl. rewrite members_norm by done.
  by destruct (map_get k ms) as [[]|].
Qed.

Lemma text_member_norm k v : interoperable v = true -> text_member k (norm v) = text_member k v.
Proof.
  destruct v as [| | | | | |ms]; intros Hv; try done. rewrite norm_object. simpl. rewrite members_norm by done.
  by destruct (map_get k ms) as [[]|].
Qed.

Lemma absent_norm k ms :
  interoperable (JObj ms) = true ->
  bool_decide (map_get k (norm_fields ms) = None) = bool_decide (map_get k ms = None).
Proof. intros Hv. rewrite members_norm by done. apply bool_decide_ext. by rewrite fmap_None. Qed.

Lemma strict_equal_norm_both a b : strict_equal (norm <$> a) (norm <$> b) = strict_equal a b.
Proof. by destruct a as [[]|], b as [[]|]. Qed.

Lemma z_string_order_free p : order_free (z_string p).
Proof. by intros [] _. Qed.

Lemma one_authority_order_free : order_free one_authority.
Proof. intros [| | | | | |ms] Hv; try done. rewrite norm_object. simpl. by rewrite !absent_norm. Qed.

Lemma dispute_scope_order_free : order_free dispute_scope.
Proof.
  intros [| | | | | |ms] Hv; try done. unfold dispute_scope. rewrite text_member_norm by done. rewrite norm_object. by rewrite !absent_norm.
Qed.

Lemma names_own_bundle_order_free t k : order_free (names_own_bundle t k).
Proof.
  intros [| | | | | |ms] Hv; try done. rewrite norm_object. simpl. rewrite !members_norm by done.
  destruct (map_get "protected_bundle_ref" ms) as [[| | | | | |rs]|] eqn:Hr; try done.
  assert (interoperable (JObj rs) = true) as Hrs.
  { apply interoperable_object in Hv as [_ Hv]. rewrite Forall_forall in Hv. apply map_get_elem_of in Hr. apply (Hv _ Hr). }
  change (norm <$> Some (JObj rs)) with (Some (JObj (norm_fields rs))). cbv iota. rewrite !members_norm by done.
  f_equal; [|apply strict_equal_norm_both]. exact (strict_equal_norm_both (map_get "bundle_type" rs) (Some (JStr (bundle_type_text t)))).
Qed.

Lemma number_before_order_free k k' : order_free (fun v => number_member k v <? number_member k' v).
Proof. intros v Hv. by rewrite !number_member_norm. Qed.

Lemma number_not_before_order_free k k' : order_free (fun v => negb (number_member k v <? number_member k' v)).
Proof. intros v Hv. by rewrite !number_member_norm. Qed.

Lemma range_order_free :
  order_free (fun v => negb (0 <? compareCanonicalDecimals (text_member "lower" v) (text_member "upper" v))).
Proof. intros v Hv. by rewrite !text_member_norm. Qed.

(** Shows that a schema is put together as it should be. *)
Ltac schema_ok :=
  repeat first
    [ exact I
    | apply z_string_order_free | apply one_authority_order_free | apply dispute_scope_order_free
    | apply names_own_bundle_order_free | apply number_before_order_free | apply number_not_before_order_free
    | apply range_order_free
    | match goal with |- NoDup _ => apply (bool_decide_unpack _); vm_compute; exact I end
    | match goal with |- safe_integer _ = true => reflexivity end
    | split ].

Lemma bundle_records_ok : Forall (fun e => schema_ok e.2) bundleRecordSchemas.
Proof. repeat (apply Forall_cons_2; [cbv [snd]; schema_ok|]). apply Forall_nil_2. Qed.

Lemma identity_records_ok : Forall (fun e => schema_ok e.2) identityPolicySchemas.
Proof. repeat (apply Forall_cons_2; [cbv [snd]; schema_ok|]). apply Forall_nil_2. Qed.

Lemma domain_records_ok : Forall (fun e => schema_ok e.2) domainRecordSchemas.
Proof. repeat (apply Forall_cons_2; [cbv [snd]; schema_ok|]). apply Forall_nil_2. Qed.

Lemma payloads_ok : Forall (fun e => schema_ok e.2) domainPayloadSchemas.
Proof. repeat (apply Forall_cons_2; [cbv [snd]; schema_ok|]). apply Forall_nil_2. Qed.

Lemma evidence_schema_ok : schema_ok evidenceClaimPayload.
Proof. schema_ok. Qed.

Lemma verification_schema_ok : schema_ok verificationPayload.
Proof. schema_ok. Qed.

Lemma records_ok : Forall (fun e => schema_ok e.2) recordSchemas.
Proof. unfold recordSchemas. rewrite !Forall_app. auto using bundle_records_ok, identity_records_ok, domain_records_ok, payloads_ok. Qed.

(** The types of the records, in the order of the registries *)
Definition record_tags : list (option string) := Eval vm_compute in (fun e => schema_tag e.2) <$> recordSchemas.

Lemma record_tags_eq : (fun e => schema_tag e.2) <$> recordSchemas = record_tags.
Proof. vm_compute. reflexivity. Qed.

Lemma record_tags_distinct : NoDup record_tags /\ None ∉ record_tags.
Proof. split; apply (bool_decide_unpack _); vm_compute; exact I. Qed.

Lemma same_record e e' v :
  e ∈ recordSchemas -> e' ∈ recordSchemas -> accepts e.2 v = true -> accepts e'.2 v = true -> e = e'.
Proof.
  intros [i Hi]%list_elem_of_lookup [j Hj]%list_elem_of_lookup Ha Ha'. destruct record_tags_distinct as [Hnd Hnone].
  assert (forall i e, recordSchemas !! i = Some e -> accepts e.2 v = true -> exists t ms,
            record_tags !! i = Some (Some t) /\ v = JObj ms /\ map_get "schema" ms = Some (JStr t)) as Htag.
  { intros i' e'' Hi' Ha''. assert (record_tags !! i' = Some (schema_tag e''.2)) as Ht by (rewrite <- record_tags_eq, list_lookup_fmap, Hi'; done).
    destruct (schema_tag e''.2) as [t|] eqn:Hs; [|destruct Hnone; by eapply list_elem_of_lookup_2].
    destruct (accepts_tag _ _ _ Hs Ha'') as (ms & -> & Hm). by exists t, ms. }
  destruct (Htag _ _ Hi Ha) as (t & ms & Ht & -> & Hm), (Htag _ _ Hj Ha') as (t' & ms' & Ht' & [= <-] & Hm').
  assert (t' = t) as -> by congruence. assert (i = j) as -> by (eapply NoDup_lookup; eauto). congruence.
Qed.

(** C26. A document that a record schema accepts has one type, and keeps it in storage. No
    other record schema accepts it; it has no member twice and no number that a reader could
    take for another one; its canonical bytes parse to a document that the same schema
    accepts, with the same canonical bytes; and the order of its members never matters. *)
Theorem record_typing `{CanonicalJson} name s v :
  (name, s) ∈ recordSchemas -> accepts s v = true ->
  (forall name' s', (name', s') ∈ recordSchemas -> accepts s' v = true -> name' = name) /\
  interoperable v = true /\
  (exists w, parseExactCanonicalJson (canonicalJsonBytes v) = Some w /\ accepts s w = true /\
     canonicalJsonBytes w = canonicalJsonBytes v) /\
  (forall w, interoperable w = true -> norm w = norm v -> accepts s w = true).
Proof.
  intros Hin Ha. pose proof records_ok as Hok. rewrite Forall_forall in Hok. specialize (Hok _ Hin). simpl in Hok.
  pose proof (accepts_interoperable _ _ Hok Ha) as Hv. split_and!.
  - intros name' s' Hin' Ha'. by injection (same_record _ _ _ Hin' Hin Ha' Ha).
  - done.
  - exists (norm v). rewrite parseExact_canonical. split; [done|]. split; [by rewrite accepts_norm|].
    apply canonicalJsonBytes_inj, norm_norm.
  - intros w Hw Hn. by rewrite <- accepts_norm, Hn, accepts_norm.
Qed.
(** ** Payloads and their bundles *)

(** [v] names, as its bundle, one of type [t] that holds the resource in its member [k]. *)
Definition bound (t : BundleType) (k : string) (v : json) : Prop :=
  exists ms rs id, v = JObj ms /\ map_get "protected_bundle_ref" ms = Some (JObj rs) /\
    accepts (protectedBundleRefVariant t) (JObj rs) = true /\ map_get "bundle_type" rs = Some (JStr (bundle_type_text t)) /\
    map_get "domain_resource_id" rs = Some (JStr id) /\ map_get k ms = Some (JStr id) /\ urn (domainKindByBundleType t) id = true.

(** The type of the bundle of a payload and the member with its identifier, in the order of
    [domainPayloadSchemas] *)
Definition payload_bindings : list (BundleType * string) :=
  [(bt_evidence, "evidence_id"); (bt_verification, "verification_id"); (bt_assessment, "assessment_input_id");
   (bt_assessment, "assessment_result_id"); (bt_listing, "listing_id"); (bt_agreement, "agreement_id");
   (bt_logistics, "delivery_id"); (bt_dispute, "dispute_id"); (bt_audit, "sensitive_audit_id");
   (bt_assistant_support, "assistant_support_id"); (bt_authoritative_source, "source_id")]%string.

Lemma bundle_type_text_eq t t' : bundle_type_text t = bundle_type_text t' -> t = t'.
Proof. by destruct t, t'. Qed.

(** The members of a reference that say what it refers to *)
Lemma reference_variant t rs :
  accepts (protectedBundleRefVariant t) (JObj rs) = true ->
  map_get "bundle_type" rs = Some (JStr (bundle_type_text t)) /\
  exists id, map_get "domain_resource_id" rs = Some (JStr id) /\ urn (domainKindByBundleType t) id = true.
Proof.
  intros Ha. split.
  - pose proof (accepts_field _ _ "bundle_type" false (s_lit (bundle_type_text t)) Ha eq_refl) as Hb.
    destruct (map_get "bundle_type" rs) as [x|]; [|done]. unfold s_lit in Hb. rewrite accepts_literal in Hb. by apply strict_equal_literal in Hb as ->.
  - pose proof (accepts_field _ _ "domain_resource_id" false (s_urn (domainKindByBundleType t)) Ha eq_refl) as Hb.
    destruct (map_get "domain_resource_id" rs) as [[| | | |id| |]|]; try done. by exists id.
Qed.

Lemma bindReference_bound shape t k v : accepts (bindReference shape t k) v = true -> bound t k v.
Proof.
  unfold bindReference. rewrite accepts_refine. intros [Ha Hr]%andb_true_iff. destruct (accepts_is_object _ _ Ha) as (ms & -> & _).
  simpl in Hr. destruct (map_get "protected_bundle_ref" ms) as [[| | | | | |rs]|] eqn:Hm; try done.
  apply andb_true_iff in Hr as [Ht Hid]. apply strict_equal_str in Ht.
  assert (accepts protectedBundleRef (JObj rs) = true) as Href.
  { rewrite accepts_object in Ha. apply andb_true_iff in Ha as [_ Ha]. rewrite forallb_app in Ha.
    apply andb_true_iff in Ha as [_ Ha]. simpl in Ha. rewrite Hm, andb_true_r in Ha. exact Ha. }
  unfold protectedBundleRef in Href. rewrite accepts_union in Href. apply existsb_exists in Href as (s & Hs%list_elem_of_In & Href).
  apply list_elem_of_fmap in Hs as (t' & -> & _). pose proof (reference_variant _ _ Href) as (Ht' & id & Hid' & Hu).
  assert (t' = t) as -> by (apply bundle_type_text_eq; congruence).
  rewrite Hid' in Hid. exists ms, rs, id. split_and!; try done.
  destruct (map_get k ms) as [[| | | |id'| |]|]; try done. simpl in Hid. by apply String.eqb_eq in Hid as ->.
Qed.

Lemma payloads_bound :
  Forall2 (fun e b => forall v, accepts e.2 v = true -> bound b.1 b.2 v) domainPayloadSchemas payload_bindings.
Proof.
  repeat constructor; simpl; intros v Ha;
    first [by eapply bindReference_bound|
           unfold disputeSubmissionPayload in Ha; rewrite accepts_refine in Ha; apply andb_true_iff in Ha as [Ha _]; by eapply bindReference_bound].
Qed.
End Registry.

(** The definition of a purpose *)
Module RecordSample.
Local Open Scope string_scope.
Definition formats : ZodFormats := Build_ZodFormats (fun _ => false) (fun _ => false) (fun _ => false).
Definition purpose : json :=
  JObj [("status", JStr "active"); ("schema", JStr "EVLLM_PURPOSE_DEFINITION_V1"); ("purpose_id", JStr (sample_urn "policy"));
    ("purpose_version", JNum 1); ("code", JStr "audit.read"); ("description", JStr "Reading the audit trail.");
    ("effective_at", JNum 0); ("recorded_at", JNum 0)].
End RecordSample.

Lemma record_typing_witness :
  accepts purposeDefinition RecordSample.purpose = true /\ interoperable RecordSample.purpose = true.
Proof.
  split; [vm_compute; reflexivity|].
  apply (@record_typing RecordSample.formats Sample.sample_canonical "purposeDefinition"%string purposeDefinition).
  - apply list_elem_of_lookup_2 with 27%nat. reflexivity.
  - vm_compute. reflexivity.
Defined.
