(* ===== verification/Preparation.v ===== *)
(** * The contract of a preparation request

    [src/src/schemas/preparation.ts]: [validatePrepareProtectedBundleRequest] parses a request
    to protect a payload, decodes the payload in it and compares the bundle the payload names
    with the bundle of the request. [TextDecoder] and [JSON.parse] are those of [Json.v]. *)

From S2P Require Import Prelude Regex Digits Decimal Base64 Schemas Storage Json Hex Protection KeyOperations Zod BundleSchemas BundleRecords IdentityPolicy DomainRecords DomainPayloads RecordSchemas.

Local Open Scope Z_scope.

Inductive PreparationError :=
| PrepareContractMismatchError (mismatched : string)
| request_invalid
| reference_invalid
| payload_not_text
| payload_not_json.

Record PreparedRequest := mkPreparedRequest { pr_payload : json; pr_reference : json; pr_request : json }.

Section Preparation.
Context `{CanonicalJson}.

(** [Buffer.from(value, "base64url")], when it is the only text of its bytes *)
Definition decodeCanonicalBase64Url (value name : string) : result PreparationError bytes :=
  let decoded := from_base64url value in
  if String.eqb (to_base64url decoded) value then Ok decoded else Throw (PrepareContractMismatchError name).

(** The members that are compared, in the order of the object literal *)
Definition compared : list string :=
  ["bundle_id"; "bundle_version"; "bundle_type"; "domain_resource_id"; "domain_resource_version";
   "custody_controller_org_id"; "content_schema_id"; "content_schema_version"; "initial_criticality_class";
   "criticality_profile_id"; "criticality_profile_version"].

Definition members (v : json) : object := match v with JObj ms => ms | _ => [] end.

(** The first member on which the request and the reference differ *)
Definition mismatch (request reference : json) : option string :=
  list_find (fun k => strict_equal (field (members request) k) (field (members reference) k) = false) compared ≫=
    fun p => Some p.2.

Definition validatePrepareProtectedBundleRequest (input : json) : result PreparationError PreparedRequest :=
  _ ← require (accepts prepareProtectedBundleRequest input) request_invalid;
  _ ← decodeCanonicalBase64Url (text_member "content_bytes" input) "content_bytes";
  payloadBytes ← decodeCanonicalBase64Url (text_member "domain_payload_bytes" input) "domain_payload_bytes";
  payloadText ← defined (text_decode payloadBytes) payload_not_text;
  payload ← defined (JSON_parse payloadText) payload_not_json;
  named ← defined (match payload with JObj ms => field ms "protected_bundle_ref" | _ => None end)
            (PrepareContractMismatchError "protected_bundle_ref");
  _ ← require (accepts protectedBundleRef named) reference_invalid;
  match mismatch input named with
  | Some name => Throw (PrepareContractMismatchError name)
  | None => Ok (mkPreparedRequest payload named input)
  end.

(** * Facts *)

Lemma decode_Ok value name b :
  decodeCanonicalBase64Url value name = Ok b <-> to_base64url b = value /\ b = from_base64url value.
Proof.
  unfold decodeCanonicalBase64Url. destruct (String.eqb_spec (to_base64url (from_base64url value)) value) as [He|He].
  - split; [by intros [= <-]|by intros [_ ->]].
  - split; [done|]. by intros [Hb ->].
Qed.

Lemma mismatch_None request reference :
  mismatch request reference = None <->
  Forall (fun k => strict_equal (field (members request) k) (field (members reference) k) = true) compared.
Proof.
  unfold mismatch. rewrite bind_None. setoid_rewrite list_find_None. split.
  - intros [Hf|([i k] & _ & [=])]. eapply Forall_impl; [exact Hf|]. intros k Hk. by apply not_false_iff_true.
  - intros Hf. left. eapply Forall_impl; [exact Hf|]. intros k Hk. by apply not_false_iff_true.
Qed.

(** Texts, integers and booleans *)
Definition leaf_schema (s : zod) : bool :=
  match s with ZString _ | ZInt _ | ZBoolean | ZLiteral _ => true | _ => false end.

Lemma leaf_accepted s x : leaf_schema s = true -> accepts s x = true -> strict_equal (Some x) (Some x) = true.
Proof.
  intros Hs Ha. destruct s; try done; [| | |]; destruct x; try done; simpl;
    try apply eqb_reflx; try apply Z.eqb_refl; try apply String.eqb_refl; by destruct value.
Qed.

Lemma request_members input :
  accepts prepareProtectedBundleRequest input = true ->
  Forall (fun k => exists x, field (members input) k = Some x /\ strict_equal (Some x) (Some x) = true) compared /\
  Forall (fun k => exists s, field (members input) k = Some (JStr s) /\ base64Url s = true) ["content_bytes"; "domain_payload_bytes"]%string.
Proof.
  unfold prepareProtectedBundleRequest. rewrite accepts_union. intros (s & Hs%list_elem_of_In & Ha)%existsb_exists.
  apply list_elem_of_fmap in Hs as (t & -> & _). unfold prepareProtectedBundleRequestVariant in Ha.
  set (fields := (prepareProtectedBundleRequestBase ++ _)%list) in Ha. destruct (accepts_is_object _ _ Ha) as (ms & -> & _). split.
  - apply Forall_forall. intros k Hk.
    assert (exists s, map_get k fields = Some (false, s) /\ leaf_schema s = true) as (s & Hk' & Hs).
    { assert (forallb (fun k => match map_get k fields with Some (false, s) => leaf_schema s | _ => false end) compared = true) as Hall
        by (subst fields; destruct t; vm_compute; reflexivity).
      rewrite forallb_Forall, Forall_forall in Hall. specialize (Hall k Hk). cbv beta in Hall.
      destruct (map_get k fields) as [[[] s]|]; try discriminate Hall. exists s. split; [reflexivity|exact Hall]. }
    pose proof (accepts_field _ _ _ _ _ Ha Hk') as Hx. unfold field. simpl. destruct (map_get k ms) as [x|]; [|done].
    exists x. split; [done|]. by eapply leaf_accepted.
  - assert (forall k, map_get k fields = Some (false, s_base64Url) -> exists s, field ms k = Some (JStr s) /\ base64Url s = true) as Hb.
    { intros k Hk. pose proof (accepts_field _ _ _ _ _ Ha Hk) as Hx. unfold field.
      destruct (map_get k ms) as [[| | | |s| |]|]; try done. by exists s. }
    apply Forall_cons_2; [by apply Hb|]. apply Forall_cons_2; [by apply Hb|done].
Qed.

Lemma canonical_bytes s : base64Url s = true -> to_base64url (from_base64url s) = s.
Proof.
  intros (l & Hl & ->)%base64Url_spec. unfold to_base64url, from_base64url.
  rewrite list_ascii_of_string_of_list_ascii, base64_decode_encode by done. rewrite <- list_fmap_compose.
  f_equal. f_equal. apply fmap_id_Forall. eapply Forall_impl; [exact Hl|]. intros b Hb. simpl. by apply code_of_byte_of_code.
Qed.

Lemma validate_Ok input r :
  validatePrepareProtectedBundleRequest input = Ok r <->
  accepts prepareProtectedBundleRequest input = true /\ pr_request r = input /\
  (exists t, text_decode (from_base64url (text_member "domain_payload_bytes" input)) = Some t /\ JSON_parse t = Some (pr_payload r)) /\
  (exists ms, pr_payload r = JObj ms /\ field ms "protected_bundle_ref" = Some (pr_reference r)) /\
  accepts protectedBundleRef (pr_reference r) = true /\
  Forall (fun k => exists x, field (members input) k = Some x /\ field (members (pr_reference r)) k = Some x) compared.
Proof.
  unfold validatePrepareProtectedBundleRequest. destruct (accepts prepareProtectedBundleRequest input) eqn:Ha;
    [|split; [done|by intros (? & _)]]. destruct (request_members _ Ha) as [Hall Hbytes].
  assert (forall k, k ∈ ["content_bytes"; "domain_payload_bytes"]%string ->
            decodeCanonicalBase64Url (text_member k input) k = Ok (from_base64url (text_member k input))) as Hdec.
  { intros k Hk. rewrite Forall_forall in Hbytes. destruct (Hbytes k Hk) as (s & Hs & Hb). apply decode_Ok. split; [|done].
    assert (text_member k input = s) as ->; [|by apply canonical_bytes]. destruct input; try done. unfold field in Hs. simpl in *. by rewrite Hs. }
  rewrite !Hdec by (apply (bool_decide_unpack _); vm_compute; exact I). simpl. clear Hdec Hbytes.
  set (decoded := text_decode (from_base64url _)).
  split.
  - intros Hv. repeat (apply bind_Ok in Hv as (? & ?%defined_Ok & Hv)).
    apply bind_Ok in Hv as (u & Hacc%require_Ok & Hv). destruct (mismatch _ _) as [k|] eqn:Hm; [done|]. injection Hv as <-. simpl.
    apply mismatch_None in Hm. split_and!; eauto.
    + destruct x0 as [| | | | | |ms]; try done. by exists ms.
    + eapply Forall_impl; [exact (List.Forall_and Hall Hm)|]. intros k [(y & Hy & _) He%strict_equal_eq]. exists y. split; [done|]. by rewrite <- He.
  - intros (_ & <- & (t & -> & Hp) & (ms & Hms & Href) & Hacc & Heq). simpl. rewrite Hp. simpl. rewrite Hms. simpl. rewrite Href. simpl.
    rewrite Hacc. simpl. assert (mismatch (pr_request r) (pr_reference r) = None) as ->.
    { apply mismatch_None. eapply Forall_impl; [exact (List.Forall_and Hall Heq)|].
      intros k [(y & Hy & Hyy) (y' & Hy' & Hr)]. rewrite Hy, Hr. by simplify_eq. }
    rewrite <- Hms. by destruct r.
Qed.

(** Two objects state the same value of a member. *)
Definition same_member (request reference : json) (k : string) : Prop :=
  exists x, field (members request) k = Some x /\ field (members reference) k = Some x.

(** C27. A request is accepted exactly when it satisfies its schema, the bytes in it are the
    text of a document that names a bundle, and that reference agrees with the request in the
    bundle and its version and type, the resource and its version, the controller, the schema
    of the content and its version, the criticality class, and the criticality profile and
    its version. When the payload satisfies the schema of its kind,
    the request is then for the kind of bundle, and for the very resource, that the payload
    itself is about. *)
Theorem preparation_correct `{ZodFormats} input r :
  (validatePrepareProtectedBundleRequest input = Ok r <->
   accepts prepareProtectedBundleRequest input = true /\ pr_request r = input /\
   (exists t, text_decode (from_base64url (text_member "domain_payload_bytes" input)) = Some t /\ JSON_parse t = Some (pr_payload r)) /\
   (exists ms, pr_payload r = JObj ms /\ field ms "protected_bundle_ref" = Some (pr_reference r)) /\
   accepts protectedBundleRef (pr_reference r) = true /\
   let same := same_member input (pr_reference r) in
   same "bundle_id"%string /\ same "bundle_version"%string /\ same "bundle_type"%string /\
   same "domain_resource_id"%string /\ same "domain_resource_version"%string /\ same "custody_controller_org_id"%string /\
   same "content_schema_id"%string /\ same "content_schema_version"%string /\ same "initial_criticality_class"%string /\
   same "criticality_profile_id"%string /\ same "criticality_profile_version"%string) /\
  (forall i e t k, validatePrepareProtectedBundleRequest input = Ok r ->
     domainPayloadSchemas !! i = Some e -> payload_bindings !! i = Some (t, k) -> accepts e.2 (pr_payload r) = true ->
     exists id, field (members input) "bundle_type" = Some (JStr (bundle_type_text t)) /\
       field (members input) "domain_resource_id" = Some (JStr id) /\ field (members (pr_payload r)) k = Some (JStr id)).
Proof.
  split.
  { rewrite validate_Ok. unfold compared. rewrite !Forall_cons, Forall_nil. cbv zeta. tauto. }
  intros i e t k (Ha & Hr & _ & (ms & Hp & Href) & Hacc & Hall)%validate_Ok Hi Hb Hs.
  destruct (Forall2_lookup_lr _ _ _ _ _ _ payloads_bound Hi Hb _ Hs) as (ms' & rs & id & Hp' & Href' & _ & Ht & Hid & Hk & _).
  rewrite Hp in Hp'. injection Hp' as <-. unfold field in *. rewrite Href' in Href. injection Href as Href.
  rewrite <- Href in Hall. change (members (JObj rs)) with rs in Hall. rewrite Forall_forall in Hall. exists id. rewrite Hp. change (members (JObj ms)) with ms. cbv [fst snd] in *.
  assert (forall name, name ∈ compared -> map_get name (members input) = map_get name rs) as Heq.
  { intros name Hn. destruct (Hall name Hn) as (x & -> & ->). done. }
  split_and!; [rewrite <- Ht; apply Heq|rewrite <- Hid; apply Heq|done]; apply (bool_decide_unpack _); vm_compute; exact I.
Qed.
End Preparation.

(** A request to protect a claim *)
Module PreparationSample.
Local Open Scope string_scope.
Definition u (kind : string) : json := JStr (sample_urn kind).
Definition shared_members : object :=
  [("bundle_id", u "bundle"); ("bundle_version", JNum 1); ("bundle_type", JStr "evidence"); ("domain_resource_id", u "evidence");
   ("domain_resource_version", JNum 1); ("custody_controller_org_id", u "org"); ("content_schema_id", u "schema");
   ("content_schema_version", JStr "1.0.0"); ("initial_criticality_class", JStr "supplementary");
   ("criticality_profile_id", u "profile"); ("criticality_profile_version", JNum 1)].
Definition reference : json := JObj (("schema", JStr "EVLLM_PROTECTED_BUNDLE_REF_V1") :: shared_members).
Definition payload : json :=
  JObj [("schema", JStr "EVLLM_EVIDENCE_CLAIM_PAYLOAD_V1"); ("evidence_id", u "evidence"); ("evidence_version", JNum 1);
    ("claim_id", u "claim"); ("claim_version", JNum 1); ("claim_type", JStr "soh"); ("subject_id", u "battery");
    ("subject_granularity", JStr "pack"); ("issuer_organization_id", u "org"); ("issuer_role_id", u "role");
    ("observed_at", JNum 0); ("submitted_at", JNum 0); ("capture_method", JObj [("id", JStr "m"); ("version", JNum 1)]);
    ("value", JObj [("type", JStr "boolean"); ("value", JBool true)]); ("uncertainty", JObj [("type", JStr "none")]);
    ("source_class", JStr "primary"); ("provenance", JArr []); ("protected_bundle_ref", reference)].
Definition replica_policy : json :=
  JObj [("schema", JStr "EVLLM_REPLICA_POLICY_V1"); ("replica_policy_id", u "profile"); ("replica_policy_version", JNum 1);
    ("required_when_decision_critical", JBool true); ("replica_count", JNum 1); ("replica_custodian_org_id", u "org");
    ("replica_repository_id", u "repository"); ("retention_profile_id", u "profile"); ("retention_profile_version", JNum 1)].
Definition address : json := JStr "0x0000000000000000000000000000000000000001".
Definition request (bytes_ : string) : json :=
  JObj (shared_members ++
    [("schema", JStr "EVLLM_PREPARE_PROTECTED_BUNDLE_REQUEST_V1"); ("content_media_type", JStr "text/plain");
     ("content_bytes", JStr "AAAA"); ("domain_payload_bytes", JStr bytes_); ("custody_controller_actor_id", u "actor");
     ("custody_controller_credential_id", u "credential"); ("custody_controller_address", address);
     ("intended_author_actor_id", u "actor"); ("intended_author_org_id", u "org"); ("intended_author_credential_id", u "credential");
     ("intended_author_address", address); ("author_binding_profile_id", u "profile"); ("author_binding_profile_version", JNum 1);
     ("primary_repository_id", u "repository"); ("access_class", JStr "restricted"); ("encryption_profile_id", u "profile");
     ("encryption_profile_version", JNum 1); ("controller_encryption_key_id", u "key"); ("controller_envelope_profile_id", u "profile");
     ("controller_envelope_profile_version", JNum 1); ("replica_policy", replica_policy)])%list.
#[local] Existing Instance Sample.sample_canonical.
Definition payload_bytes : string := Eval vm_compute in to_base64url (canonicalJsonBytes payload).
Definition prepared : PreparedRequest :=
  Eval vm_compute in mkPreparedRequest (norm payload) (norm reference) (request payload_bytes).
Definition formats : ZodFormats := Build_ZodFormats (fun _ => false) (fun _ => false) (fun _ => false).
End PreparationSample.

Lemma preparation_correct_witness :
  exists id, field (members (PreparationSample.request PreparationSample.payload_bytes)) "bundle_type" = Some (JStr "evidence"%string) /\
    field (members (PreparationSample.request PreparationSample.payload_bytes)) "domain_resource_id" = Some (JStr id) /\
    field (members (pr_payload PreparationSample.prepared)) "evidence_id" = Some (JStr id).
Proof.
  apply (proj2 (@preparation_correct Sample.sample_canonical PreparationSample.formats
                  (PreparationSample.request PreparationSample.payload_bytes) PreparationSample.prepared)
           0%nat ("evidenceClaimPayload"%string, evidenceClaimPayload) bt_evidence "evidence_id"%string).
  - vm_compute. reflexivity.
  - reflexivity.
  - reflexivity.
  - vm_compute. reflexivity.
Defined.
