(* ===== verification/RecordModels.v ===== *)
(** * Records and their documents

    The evidence ledger and the bundle service are modelled over [Record]s of the fields of
    their payloads. This file relates them to the JSON documents that the schemas of
    [src/src/schemas] parse: the document of a record, the record of a document, and that both
    schemas say the same. *)

From S2P Require Import Prelude Regex Digits Decimal Base64 Schemas Json Protection KeyOperations Zod BundleSchemas DomainRecords DomainPayloads RecordSchemas.

Local Open Scope Z_scope.
Local Open Scope zod_scope.

(** ** Documents *)

(** The members of an object literal; a member that is [undefined] is left out. *)
Definition present (l : list (string * option json)) : object := omap (fun p => pair p.1 <$> p.2) l.

Definition ref_json (r : Reference) : json := JObj [("id", JStr (ref_id r)); ("version", JNum (ref_version r))]%string.

Definition quantity_json (q : DecimalQuantity) : json :=
  JObj [("value", JStr (dq_value q)); ("unit_id", JStr (dq_unit_id q)); ("unit_version", JNum (dq_unit_version q))]%string.

Definition range_json (r : DecimalRange) : json := JObj [("lower", JStr (dr_lower r)); ("upper", JStr (dr_upper r))]%string.

Definition typed_value_json (v : TypedValue) : json :=
  match v with
  | tv_quantity q => JObj [("type", JStr "quantity"); ("quantity", quantity_json q)]
  | tv_text s => JObj [("type", JStr "text"); ("value", JStr s)]
  | tv_boolean b => JObj [("type", JStr "boolean"); ("value", JBool b)]
  end%string.

Definition uncertainty_json (u : Uncertainty) : json :=
  match u with
  | un_none => JObj [("type", JStr "none")]
  | un_range r => JObj [("type", JStr "range"); ("range", range_json r)]
  end%string.

Definition bundle_ref_json (r : ProtectedBundleRef) : json :=
  JObj [("schema", JStr (pb_schema r)); ("bundle_id", JStr (pb_bundle_id r)); ("bundle_version", JNum (pb_bundle_version r));
    ("domain_resource_version", JNum (pb_domain_resource_version r)); ("custody_controller_org_id", JStr (pb_custody_controller_org_id r));
    ("content_schema_id", JStr (pb_content_schema_id r)); ("content_schema_version", JStr (pb_content_schema_version r));
    ("initial_criticality_class", JStr (pb_initial_criticality_class r)); ("criticality_profile_id", JStr (pb_criticality_profile_id r));
    ("criticality_profile_version", JNum (pb_criticality_profile_version r));
    ("bundle_type", JStr (bundle_type_text (pb_bundle_type r))); ("domain_resource_id", JStr (pb_domain_resource_id r))]%string.

Definition evidence_json (p : EvidencePayload) : json :=
  JObj (present
    [("schema", Some (JStr (ep_schema p))); ("evidence_id", Some (JStr (ep_evidence_id p)));
     ("evidence_version", Some (JNum (ep_evidence_version p))); ("claim_id", Some (JStr (ep_claim_id p)));
     ("claim_version", Some (JNum (ep_claim_version p))); ("claim_type", Some (JStr (ep_claim_type p)));
     ("subject_id", Some (JStr (ep_subject_id p))); ("subject_granularity", Some (JStr (ep_subject_granularity p)));
     ("issuer_organization_id", Some (JStr (ep_issuer_organization_id p))); ("issuer_role_id", Some (JStr (ep_issuer_role_id p)));
     ("observed_at", Some (JNum (ep_observed_at p))); ("submitted_at", Some (JNum (ep_submitted_at p)));
     ("capture_method", Some (ref_json (ep_capture_method p))); ("value", Some (typed_value_json (ep_value p)));
     ("uncertainty", Some (uncertainty_json (ep_uncertainty p))); ("source_class", Some (JStr (ep_source_class p)));
     ("provenance", Some (JArr (ref_json <$> ep_provenance p)));
     ("protected_bundle_ref", Some (bundle_ref_json (ep_protected_bundle_ref p)))]%string).

Definition verification_json (p : VerificationPayload) : json :=
  JObj (present
    [("schema", Some (JStr (vp_schema p))); ("verification_id", Some (JStr (vp_verification_id p)));
     ("verification_version", Some (JNum (vp_verification_version p))); ("assertion_type", Some (JStr (vp_assertion_type p)));
     ("claim_id", Some (JStr (vp_claim_id p))); ("claim_version", Some (JNum (vp_claim_version p)));
     ("verifier_organization_id", Some (JStr (vp_verifier_organization_id p))); ("verifier_role_id", Some (JStr (vp_verifier_role_id p)));
     ("verifier_credential_id", Some (JStr (vp_verifier_credential_id p)));
     ("basis_evidence", Some (JArr (ref_json <$> vp_basis_evidence p))); ("method", Some (ref_json (vp_method p)));
     ("reason", Some (JStr (vp_reason p))); ("verified_at", Some (JNum (vp_verified_at p)));
     ("valid_until", JNum <$> vp_valid_until p);
     ("protected_bundle_ref", Some (bundle_ref_json (vp_protected_bundle_ref p)))]%string).

(** ** Records of documents *)

Definition member (k : string) (v : json) : json := match v with JObj ms => default JNull (map_get k ms) | _ => JNull end.
Definition items (v : json) : list json := match v with JArr l => l | _ => [] end.

Definition ref_of (v : json) : Reference := mkReference (text_member "id" v) (number_member "version" v).
Definition quantity_of (v : json) : DecimalQuantity :=
  mkDecimalQuantity (text_member "value" v) (text_member "unit_id" v) (number_member "unit_version" v).
Definition range_of (v : json) : DecimalRange := mkDecimalRange (text_member "lower" v) (text_member "upper" v).

Definition typed_value_of (v : json) : TypedValue :=
  if String.eqb (text_member "type" v) "quantity" then tv_quantity (quantity_of (member "quantity" v))
  else if String.eqb (text_member "type" v) "text" then tv_text (text_member "value" v)
  else tv_boolean (match member "value" v with JBool b => b | _ => false end).

Definition uncertainty_of (v : json) : Uncertainty :=
  if String.eqb (text_member "type" v) "none" then un_none else un_range (range_of (member "range" v)).

Definition bundle_type_of (s : string) : BundleType :=
  default bt_evidence (list_find (fun t => bundle_type_text t = s) bundleTypes ≫= fun p => Some p.2).

Definition bundle_ref_of (v : json) : ProtectedBundleRef :=
  mkProtectedBundleRef (text_member "schema" v) (text_member "bundle_id" v) (number_member "bundle_version" v)
    (number_member "domain_resource_version" v) (text_member "custody_controller_org_id" v) (text_member "content_schema_id" v)
    (text_member "content_schema_version" v) (text_member "initial_criticality_class" v) (text_member "criticality_profile_id" v)
    (number_member "criticality_profile_version" v) (bundle_type_of (text_member "bundle_type" v)) (text_member "domain_resource_id" v).

Definition evidence_of (v : json) : EvidencePayload :=
  mkEvidencePayload (text_member "schema" v) (text_member "evidence_id" v) (number_member "evidence_version" v)
    (text_member "claim_id" v) (number_member "claim_version" v) (text_member "claim_type" v) (text_member "subject_id" v)
    (text_member "subject_granularity" v) (text_member "issuer_organization_id" v) (text_member "issuer_role_id" v)
    (number_member "observed_at" v) (number_member "submitted_at" v) (ref_of (member "capture_method" v))
    (typed_value_of (member "value" v)) (uncertainty_of (member "uncertainty" v)) (text_member "source_class" v)
    (ref_of <$> items (member "provenance" v)) (bundle_ref_of (member "protected_bundle_ref" v)).

Definition verification_of (v : json) : VerificationPayload :=
  mkVerificationPayload (text_member "schema" v) (text_member "verification_id" v) (number_member "verification_version" v)
    (text_member "assertion_type" v) (text_member "claim_id" v) (number_member "claim_version" v)
    (text_member "verifier_organization_id" v) (text_member "verifier_role_id" v) (text_member "verifier_credential_id" v)
    (ref_of <$> items (member "basis_evidence" v)) (ref_of (member "method" v)) (text_member "reason" v)
    (number_member "verified_at" v)
    (match member "valid_until" v with JNum n => Some n | _ => None end)
    (bundle_ref_of (member "protected_bundle_ref" v)).

(** * Facts *)

(** ** The document of a record *)

(** A schema and an object literal that list the same members in the same order *)
Lemma map_get_present l k :
  NoDup l.*1 -> map_get k (present l) = map_get k l ≫= id.
Proof.
  intros Hnd. induction l as [|[k' o] l IH]; [done|]. csimpl in Hnd. inversion_clear Hnd as [|?? Hk Hl].
  specialize (IH Hl). unfold present in *. csimpl. destruct o as [v|]; csimpl; case_decide as Hkk; try done.
  subst k'. rewrite IH. by rewrite (proj2 (map_get_None k l) Hk).
Qed.

Lemma present_keys l k : k ∈ (present l).*1 -> k ∈ l.*1.
Proof.
  intros ([k' v] & -> & Hp)%list_elem_of_fmap. unfold present in Hp. apply list_elem_of_omap in Hp as ([k o] & Hp & Ho).
  simpl in Ho. destruct o; [|done]. injection Ho as <- <-. apply list_elem_of_fmap. by exists (k, Some j).
Qed.

Lemma present_NoDup l : NoDup l.*1 -> NoDup (present l).*1.
Proof.
  induction l as [|[k o] l IH]; [done|]. csimpl. intros [Hk Hl]%NoDup_cons. unfold present in *. csimpl.
  destruct o; csimpl; [|auto]. apply NoDup_cons. split; [|auto]. intros Hin. by apply present_keys in Hin.
Qed.

Definition aligned_accepts (f : string * (bool * zod)) (m : string * option json) : bool :=
  match m.2 with Some x => accepts f.2.2 x | None => f.2.1 end.

Lemma accepts_present fields l :
  fields.*1 = l.*1 -> NoDup l.*1 ->
  accepts (ZObject fields) (JObj (present l)) = forallb id (zip_with aligned_accepts fields l).
Proof.
  intros Hk Hnd. rewrite accepts_object. rewrite bool_decide_true by (by apply present_NoDup).
  assert (forallb (fun m => includes m.1 fields.*1) (present l) = true) as ->.
  { apply forallb_Forall, Forall_forall. intros m Hm. apply includes_true. rewrite Hk. apply present_keys, list_elem_of_fmap. by exists m. }
  simpl. assert (Forall (fun f => map_get f.1 (present l) = map_get f.1 l ≫= id) fields) as Hget
    by (apply Forall_forall; intros f _; by apply map_get_present).
  transitivity (forallb (fun f => match map_get f.1 l ≫= id with Some x => accepts f.2.2 x | None => f.2.1 end) fields).
  { apply forallb_ext_Forall. eapply Forall_impl; [exact Hget|]. by intros f ->. }
  clear Hget. revert l Hk Hnd. induction fields as [|f fields IH]; intros [|[k o] l] Hk Hnd; try done.
  csimpl in *. injection Hk as Hf Hk. apply NoDup_cons in Hnd as [Hkl Hnd]. rewrite Hf, decide_True by done. apply (f_equal2 andb); [done|].
  rewrite <- IH by done. apply forallb_ext_Forall, Forall_forall. intros f' Hf'.
  case_decide as He; [|done]. destruct Hkl. rewrite <- Hk, <- He. apply list_elem_of_fmap. by exists f'.
Qed.

(** ** The schemas agree *)

Lemma positive_accepts n : accepts s_positive (JNum n) = positiveSafeInteger n.
Proof. unfold s_positive. rewrite accepts_int. simpl. unfold safe_integer, positiveSafeInteger. lia. Qed.

Lemma timestamp_accepts n : accepts s_timestamp (JNum n) = timestamp n.
Proof. unfold s_timestamp. rewrite accepts_int. simpl. unfold safe_integer, timestamp. lia. Qed.

(** What an object literal needs when it lists exactly the members of a schema *)
Lemma accepts_aligned fields ms :
  fields.*1 = ms.*1 -> NoDup ms.*1 ->
  accepts (ZObject fields) (JObj ms) = forallb id (zip_with (fun f m => accepts f.2.2 m.2) fields ms).
Proof.
  intros Hk Hnd. set (l := (fun m => (m.1, Some m.2)) <$> ms). assert (l.*1 = ms.*1) as Hl by (subst l; by rewrite <- list_fmap_compose).
  assert (ms = present l) as Hms.
  { subst l. clear. induction ms as [|[k x] ms IH]; [done|]. unfold present in *. csimpl. by rewrite <- IH. }
  rewrite Hms at 1. rewrite accepts_present by congruence. f_equal. subst l. clear.
  revert ms. induction fields as [|f fields IH]; intros [|m ms]; try done. csimpl. by rewrite IH.
Qed.

Lemma lit_accepts t s : accepts (s_lit t) (JStr s) = String.eqb s t.
Proof. apply String.eqb_sym. Qed.

Ltac keys_distinct := apply (bool_decide_unpack _); reflexivity.

(** Compares the two schemas member by member. *)
Ltac aligned :=
  first [rewrite accepts_aligned; [|reflexivity|keys_distinct] | rewrite accepts_present; [|reflexivity|keys_distinct]];
  cbn [zip_with forallb id aligned_accepts fst snd fmap option_fmap option_map];
  rewrite ?lit_accepts, ?positive_accepts, ?timestamp_accepts, ?andb_true_r.

Lemma ref_accepts r : accepts s_ref (ref_json r) = reference r.
Proof. unfold s_ref, ref_json. aligned. done. Qed.

Lemma quantity_accepts q : accepts decimalQuantity (quantity_json q) = Schemas.decimalQuantity q.
Proof. unfold decimalQuantity, quantity_json. aligned. unfold Schemas.decimalQuantity. by rewrite <- andb_assoc. Qed.

Lemma range_accepts r : accepts decimalRange (range_json r) = decimal_range r.
Proof.
  unfold decimalRange, range_json. rewrite accepts_refine. aligned. done.
Qed.

Lemma array_accepts {A} (s : zod) (f : A -> json) (g : A -> bool) lower upper l :
  (forall x, accepts s (f x) = g x) -> accepts (ZArray s lower (Some upper)) (JArr (f <$> l)) = array g lower upper l.
Proof.
  intros Hfg. rewrite accepts_array. unfold array, z_bounded. rewrite length_fmap, forallb_fmap, <- andb_assoc. f_equal.
  apply forallb_ext_Forall, Forall_true. done.
Qed.

(** A document with another discriminator is not of a variant. *)
Lemma other_variant k fields ms t t' :
  map_get k fields = Some (false, s_lit t) -> map_get k ms = Some (JStr t') -> t <> t' -> accepts (ZObject fields) (JObj ms) = false.
Proof.
  intros Hf Hm Ht. apply not_true_iff_false. intros Ha. pose proof (accepts_field _ _ _ _ _ Ha Hf) as Hx. rewrite Hm in Hx.
  unfold s_lit in Hx. rewrite accepts_literal in Hx. apply strict_equal_literal in Hx. congruence.
Qed.

Ltac not_variant :=
  erewrite (other_variant "type"%string); [| reflexivity | reflexivity | discriminate].

Lemma typed_value_accepts v : accepts typedValue (typed_value_json v) = Schemas.typedValue v.
Proof.
  unfold typedValue. rewrite accepts_union. destruct v as [q|s|b]; cbn [existsb typed_value_json].
  - aligned. rewrite quantity_accepts. do 2 not_variant. by rewrite !orb_false_r.
  - not_variant. aligned. not_variant. by rewrite orb_false_r.
  - do 2 not_variant. aligned. done.
Qed.

Lemma uncertainty_accepts u : accepts uncertainty (uncertainty_json u) = Schemas.uncertainty u.
Proof.
  unfold uncertainty. rewrite accepts_union. destruct u as [|r]; cbn [existsb uncertainty_json].
  - aligned. done.
  - not_variant. aligned. rewrite range_accepts. by rewrite orb_false_r.
Qed.

Lemma variant_accepts t r :
  accepts (protectedBundleRefVariant t) (bundle_ref_json r) =
  bool_decide (pb_bundle_type r = t) && Schemas.protectedBundleRef r.
Proof.
  unfold protectedBundleRefVariant, bundle_ref_json. case_bool_decide as Ht.
  - rewrite Ht. unfold protectedBundleRefBase. cbn [app]. aligned. unfold Schemas.protectedBundleRef. rewrite Ht, String.eqb_refl.
    cbn [andb]. by rewrite <- !andb_assoc.
  - rewrite (other_variant "bundle_type"%string _ _ (bundle_type_text t) (bundle_type_text (pb_bundle_type r))); [done|reflexivity|reflexivity|].
    intros He. apply Ht. by destruct t, (pb_bundle_type r).
Qed.

Lemma bundle_ref_accepts r : accepts protectedBundleRef (bundle_ref_json r) = Schemas.protectedBundleRef r.
Proof.
  unfold protectedBundleRef. rewrite accepts_union. apply eq_true_iff_eq. rewrite existsb_exists. split.
  - intros (s & Hs%list_elem_of_In & Ha). apply list_elem_of_fmap in Hs as (t & -> & _). rewrite variant_accepts in Ha.
    by apply andb_true_iff in Ha as [_ Ha].
  - intros Hr. exists (protectedBundleRefVariant (pb_bundle_type r)). split; [|by rewrite variant_accepts, bool_decide_true].
    apply list_elem_of_In, list_elem_of_fmap_2. destruct (pb_bundle_type r); unfold bundleTypes; set_solver.
Qed.

Lemma bindReference_accepts fields l t k id_ r :
  fields.*1 = l.*1 -> NoDup (l ++ [("protected_bundle_ref"%string, Some (bundle_ref_json r))]).*1 -> map_get k l = Some (Some (JStr id_)) ->
  accepts (bindReference fields t k) (JObj (present (l ++ [("protected_bundle_ref"%string, Some (bundle_ref_json r))]))) =
  forallb id (zip_with aligned_accepts fields l) && Schemas.bindReference r t id_.
Proof.
  intros Hk Hnd Hid. unfold bindReference. rewrite accepts_refine, accepts_present; [|by rewrite !fmap_app, Hk|done].
  rewrite zip_with_app by (rewrite <- (length_fmap fst), Hk, length_fmap; done). rewrite forallb_app. cbn [zip_with forallb id].
  unfold aligned_accepts at 2. cbn [fst snd]. rewrite bundle_ref_accepts, andb_true_r, <- andb_assoc. unfold Schemas.bindReference. f_equal. f_equal.
  unfold names_own_bundle. rewrite !map_get_present by done. rewrite fmap_app in Hnd.
  assert (map_get "protected_bundle_ref" (l ++ [("protected_bundle_ref"%string, Some (bundle_ref_json r))]) = Some (Some (bundle_ref_json r))) as ->.
  { apply elem_of_map_get; [unfold map_ok; by rewrite fmap_app|set_solver]. }
  assert (map_get k (l ++ [("protected_bundle_ref"%string, Some (bundle_ref_json r))]) = Some (Some (JStr id_))) as ->.
  { apply elem_of_map_get; [unfold map_ok; by rewrite fmap_app|]. apply map_get_elem_of in Hid. set_solver. }
  simpl. rewrite negb_orb, !negb_involutive. f_equal.
  apply eq_true_iff_eq. rewrite String.eqb_eq, bool_decide_eq_true. split; [|by intros ->]. by destruct (pb_bundle_type r), t.
Qed.

(** The members of a document but its last *)
Definition but_last (l : list (string * option json)) : list (string * option json) := take (length l - 1) l.

(** Splits the reference off and compares the other members one by one. *)
Ltac payload_aligned r id_ :=
  match goal with
  | |- context [present ?l] =>
      change (present l) with (present (but_last l ++ [("protected_bundle_ref"%string, Some (bundle_ref_json r))]));
      rewrite (bindReference_accepts _ (but_last l) _ _ id_ r); [|reflexivity|keys_distinct|reflexivity]
  end;
  cbn [but_last length Nat.sub take zip_with forallb id];
  unfold aligned_accepts; cbn [fst snd fmap option_fmap option_map];
  rewrite ?lit_accepts, ?positive_accepts, ?timestamp_accepts, ?ref_accepts, ?typed_value_accepts, ?uncertainty_accepts, ?andb_true_r.

Lemma evidence_accepts p : accepts evidenceClaimPayload (evidence_json p) = Schemas.evidenceClaimPayload p.
Proof.
  unfold evidenceClaimPayload, evidence_json. payload_aligned (ep_protected_bundle_ref p) (ep_evidence_id p).
  unfold s_array. rewrite (array_accepts _ _ reference) by apply ref_accepts. rewrite accepts_union. cbn [existsb]. rewrite orb_false_r.
  unfold Schemas.evidenceClaimPayload. by rewrite <- !andb_assoc.
Qed.

Lemma verification_accepts p : accepts verificationPayload (verification_json p) = Schemas.verificationPayload p.
Proof.
  unfold verificationPayload, verification_json. payload_aligned (vp_protected_bundle_ref p) (vp_verification_id p).
  rewrite (array_accepts _ _ reference) by apply ref_accepts. unfold Schemas.verificationPayload. rewrite <- !andb_assoc.
  destruct (vp_valid_until p); cbn [fmap option_fmap option_map optional]; rewrite ?timestamp_accepts; reflexivity.
Qed.

(** ** The record of a document *)

(** Objects with the same members, up to order, have the same canonical form. *)
Lemma norm_ext ms ms' :
  NoDup ms.*1 -> NoDup ms'.*1 -> (forall k, norm <$> map_get k ms = norm <$> map_get k ms') -> norm (JObj ms) = norm (JObj ms').
Proof.
  intros Hm Hm' Heq. rewrite !norm_object. f_equal.
  assert (forall l, NoDup l.*1 -> NoDup (norm_fields l).*1) as Hnd by (intros l Hl; by rewrite norm_fields_keys).
  assert (norm_fields ms ≡ₚ norm_fields ms') as Hp.
  { apply NoDup_Permutation; [by apply (NoDup_fmap_1 fst), Hnd..|]. intros [k x].
    assert (forall l, NoDup l.*1 -> (k, x) ∈ norm_fields l <-> norm <$> map_get k l = Some x) as Hin.
    { intros l Hl. rewrite <- norm_fields_get by done. split; [apply elem_of_map_get; by apply Hnd|apply map_get_elem_of]. }
    rewrite !Hin by done. by rewrite Heq. }
  eapply (StronglySorted_unique_strong (cmp_le (fun p q => string_cmp p.1 q.1))); [|apply js_sort_sorted; apply _..|done].
  intros [k x] [k' y] Hx Hy H1 H2. unfold cmp_le in *. simpl in *.
  assert (k = k') as <- by (by apply string_cmp_antisym). rewrite <- Hp in Hy.
  f_equal. apply (elem_of_map_get k) in Hx; [|by apply Hnd]. apply (elem_of_map_get k) in Hy; [|by apply Hnd]. congruence.
Qed.

Lemma norm_present ms l :
  NoDup ms.*1 -> NoDup l.*1 -> (forall k, k ∈ ms.*1 -> k ∈ l.*1) ->
  Forall (fun m => norm <$> map_get m.1 ms = norm <$> m.2) l -> norm (JObj ms) = norm (JObj (present l)).
Proof.
  intros Hm Hl Hk Hf. apply norm_ext; [done|by apply present_NoDup|]. intros k. rewrite map_get_present by done.
  destruct (map_get k l) as [o|] eqn:Hg.
  - apply map_get_elem_of in Hg. rewrite Forall_forall in Hf. apply (Hf _ Hg).
  - apply map_get_None in Hg. by rewrite (proj2 (map_get_None k ms)) by auto.
Qed.

(** A document is that of its record when each of its members is. *)
Lemma norm_members fields ms ms' :
  accepts (ZObject fields) (JObj ms) = true -> fields.*1 = ms'.*1 -> NoDup ms'.*1 ->
  Forall (fun m => norm <$> map_get m.1 ms = Some (norm m.2)) ms' -> norm (JObj ms) = norm (JObj ms').
Proof.
  intros Ha Hk Hnd Hf. apply norm_ext; [|done|].
  - destruct (accepts_is_object _ _ Ha) as (? & [= <-] & ?). done.
  - intros k. destruct (map_get k ms') as [x|] eqn:Hg.
    + apply map_get_elem_of in Hg. rewrite Forall_forall in Hf. apply (Hf _ Hg).
    + apply map_get_None in Hg. rewrite <- Hk in Hg. rewrite (proj2 (map_get_None k ms)); [done|].
      intros Hin. by apply Hg, (accepts_known _ _ _ Ha).
Qed.

Section Members.
Context (fields : fields_of) (ms : object) (k : string).
Context (Ha : accepts (ZObject fields) (JObj ms) = true).

Lemma text_read p : map_get k fields = Some (false, ZString p) -> norm <$> map_get k ms = Some (norm (JStr (text_member k (JObj ms)))).
Proof.
  intros Hk. pose proof (accepts_field _ _ _ _ _ Ha Hk) as Hx. simpl. destruct (map_get k ms) as [x|]; [|done].
  by destruct x.
Qed.

Lemma lit_read t : map_get k fields = Some (false, s_lit t) -> norm <$> map_get k ms = Some (norm (JStr (text_member k (JObj ms)))).
Proof.
  intros Hk. pose proof (accepts_field _ _ _ _ _ Ha Hk) as Hx. simpl. destruct (map_get k ms) as [x|]; [|done].
  unfold s_lit in Hx. rewrite accepts_literal in Hx. by apply strict_equal_literal in Hx as ->.
Qed.

Lemma texts_read s :
  (forall x, accepts s x = true -> exists t, x = JStr t) -> map_get k fields = Some (false, s) ->
  norm <$> map_get k ms = Some (norm (JStr (text_member k (JObj ms)))).
Proof.
  intros Hs Hk. pose proof (accepts_field _ _ _ _ _ Ha Hk) as Hx. simpl. destruct (map_get k ms) as [x|]; [|done].
  by apply Hs in Hx as [t ->].
Qed.

Lemma number_read p : map_get k fields = Some (false, ZInt p) -> norm <$> map_get k ms = Some (norm (JNum (number_member k (JObj ms)))).
Proof.
  intros Hk. pose proof (accepts_field _ _ _ _ _ Ha Hk) as Hx. simpl. destruct (map_get k ms) as [x|]; [|done].
  by destruct x.
Qed.

Lemma document_read s (f : json -> json) :
  (forall x, accepts s x = true -> norm x = norm (f x)) -> map_get k fields = Some (false, s) ->
  norm <$> map_get k ms = Some (norm (f (member k (JObj ms)))).
Proof.
  intros Hf Hk. pose proof (accepts_field _ _ _ _ _ Ha Hk) as Hx. simpl. destruct (map_get k ms) as [x|]; [|done].
  simpl. f_equal. by apply Hf.
Qed.

Lemma optional_number_read p :
  map_get k fields = Some (true, ZInt p) ->
  norm <$> map_get k ms = norm <$> (JNum <$> match member k (JObj ms) with JNum n => Some n | _ => None end).
Proof.
  intros Hk. pose proof (accepts_field _ _ _ _ _ Ha Hk) as Hx. simpl. destruct (map_get k ms) as [x|]; [|done]. by destruct x.
Qed.
End Members.

(** Reads one member. *)
Ltac read_member Ha :=
  first
    [ eapply (lit_read _ _ _ Ha); reflexivity
    | eapply (text_read _ _ _ Ha); reflexivity
    | eapply (number_read _ _ _ Ha); reflexivity
    | eapply (optional_number_read _ _ _ Ha); reflexivity ].

Ltac read_members Ha :=
  repeat (apply Forall_cons_2; [cbn [fst snd]; try read_member Ha|]); try apply Forall_nil_2.

Lemma ref_reads x : accepts s_ref x = true -> norm x = norm (ref_json (ref_of x)).
Proof.
  intros Ha. destruct (accepts_is_object _ _ Ha) as (ms & -> & _). unfold ref_json.
  eapply (norm_members _ _ _ Ha); [reflexivity|keys_distinct|]. read_members Ha.
Qed.

Lemma quantity_reads x : accepts decimalQuantity x = true -> norm x = norm (quantity_json (quantity_of x)).
Proof.
  intros Ha. destruct (accepts_is_object _ _ Ha) as (ms & -> & _). unfold quantity_json.
  eapply (norm_members _ _ _ Ha); [reflexivity|keys_distinct|]. read_members Ha.
Qed.

Lemma range_reads x : accepts decimalRange x = true -> norm x = norm (range_json (range_of x)).
Proof.
  unfold decimalRange. rewrite accepts_refine. intros [Ha _]%andb_true_iff. destruct (accepts_is_object _ _ Ha) as (ms & -> & _).
  unfold range_json. eapply (norm_members _ _ _ Ha); [reflexivity|keys_distinct|]. read_members Ha.
Qed.

Lemma array_reads {A} s (doc : A -> json) (rec : json -> A) lower upper x :
  (forall x, accepts s x = true -> norm x = norm (doc (rec x))) -> accepts (ZArray s lower upper) x = true ->
  norm x = norm (JArr (doc <$> (rec <$> items x))).
Proof.
  intros Hs Ha. rewrite accepts_array in Ha. destruct x as [| | | | |l|]; try done. apply andb_true_iff in Ha as [Ha _].
  simpl. f_equal. rewrite <- !list_fmap_compose. apply forallb_Forall in Ha. induction Ha as [|x l Hx _ IH]; csimpl; [done|].
  f_equal; [by apply Hs|done].
Qed.

(** The discriminator of a variant *)
Lemma tag_read fields ms t :
  accepts (ZObject fields) (JObj ms) = true -> map_get "type" fields = Some (false, s_lit t) ->
  map_get "type" ms = Some (JStr t) /\ text_member "type" (JObj ms) = t.
Proof.
  intros Ha Hk. pose proof (accepts_field _ _ _ _ _ Ha Hk) as Hx. simpl. destruct (map_get "type" ms) as [x|]; [|done].
  unfold s_lit in Hx. rewrite accepts_literal in Hx. by apply strict_equal_literal in Hx as ->.
Qed.

Ltac variant_members Ha Hx :=
  eapply (norm_members _ _ _ Ha); [reflexivity|keys_distinct|]; read_members Ha; [by rewrite Hx|..].

Lemma typed_value_reads x : accepts typedValue x = true -> norm x = norm (typed_value_json (typed_value_of x)).
Proof.
  unfold typedValue. rewrite accepts_union. cbn [existsb]. rewrite orb_false_r, !orb_true_iff.
  intros [Ha|[Ha|Ha]]; destruct (accepts_is_object _ _ Ha) as (ms & -> & _);
    destruct (tag_read _ _ _ Ha eq_refl) as [Hx Ht]; unfold typed_value_of; rewrite Ht.
  - change (typed_value_json _) with (JObj [("type", JStr "quantity"); ("quantity", quantity_json (quantity_of (member "quantity" (JObj ms))))]%string).
    variant_members Ha Hx. eapply (document_read _ _ _ Ha _ (fun x => quantity_json (quantity_of x))); [apply quantity_reads|reflexivity].
  - change (typed_value_json _) with (JObj [("type", JStr "text"); ("value", JStr (text_member "value" (JObj ms)))]%string).
    variant_members Ha Hx.
  - change (typed_value_json _) with
      (JObj [("type", JStr "boolean"); ("value", JBool (match member "value" (JObj ms) with JBool b => b | _ => false end))]%string).
    variant_members Ha Hx. eapply (document_read _ _ _ Ha ZBoolean (fun x => JBool (match x with JBool b => b | _ => false end))); [intros [] Hb; try discriminate Hb; reflexivity|reflexivity].
Qed.

Lemma uncertainty_reads x : accepts uncertainty x = true -> norm x = norm (uncertainty_json (uncertainty_of x)).
Proof.
  unfold uncertainty. rewrite accepts_union. cbn [existsb]. rewrite orb_false_r, !orb_true_iff.
  intros [Ha|Ha]; destruct (accepts_is_object _ _ Ha) as (ms & -> & _);
    destruct (tag_read _ _ _ Ha eq_refl) as [Hx Ht]; unfold uncertainty_of; rewrite Ht.
  - change (uncertainty_json _) with (JObj [("type", JStr "none")]%string). variant_members Ha Hx.
  - change (uncertainty_json _) with (JObj [("type", JStr "range"); ("range", range_json (range_of (member "range" (JObj ms))))]%string).
    variant_members Ha Hx. eapply (document_read _ _ _ Ha _ (fun x => range_json (range_of x))); [apply range_reads|reflexivity].
Qed.

Lemma bundle_type_of_text t : bundle_type_of (bundle_type_text t) = t.
Proof. by destruct t. Qed.

Lemma bundle_ref_reads x : accepts protectedBundleRef x = true -> norm x = norm (bundle_ref_json (bundle_ref_of x)).
Proof.
  unfold protectedBundleRef. rewrite accepts_union. intros (s & Hs%list_elem_of_In & Ha)%existsb_exists.
  apply list_elem_of_fmap in Hs as (t & -> & _). unfold protectedBundleRefVariant in Ha.
  destruct (accepts_is_object _ _ Ha) as (ms & -> & _).
  pose proof (accepts_field _ _ "bundle_type" false _ Ha eq_refl) as Ht. unfold bundle_ref_json.
  eapply (norm_members _ _ _ Ha); [reflexivity|keys_distinct|]. read_members Ha.
  unfold s_lit in Ht. cbn [bundle_ref_of pb_bundle_type]. simpl text_member. destruct (map_get "bundle_type" ms) as [x|]; [|done].
  rewrite accepts_literal in Ht. apply strict_equal_literal in Ht as ->. by rewrite bundle_type_of_text.
Qed.

Lemma present_members fields ms l :
  accepts (ZObject fields) (JObj ms) = true -> fields.*1 = l.*1 -> NoDup l.*1 ->
  Forall (fun m => norm <$> map_get m.1 ms = norm <$> m.2) l -> norm (JObj ms) = norm (JObj (present l)).
Proof.
  intros Ha Hk Hnd Hf. destruct (accepts_is_object _ _ Ha) as (? & [= <-] & Hms). apply norm_present; [done..| |done].
  intros k Hin. rewrite <- Hk. by apply (accepts_known _ _ _ Ha).
Qed.

Ltac read_document Ha lemma to of_ :=
  eapply (document_read _ _ _ Ha _ (fun x => to (of_ x))); [apply lemma|reflexivity].

Lemma evidence_reads v : accepts evidenceClaimPayload v = true -> norm v = norm (evidence_json (evidence_of v)).
Proof.
  unfold evidenceClaimPayload, bindReference. rewrite accepts_refine. intros [Ha _]%andb_true_iff.
  destruct (accepts_is_object _ _ Ha) as (ms & -> & _). eapply (present_members _ _ _ Ha); [reflexivity|keys_distinct|]. read_members Ha.
  - eapply (texts_read _ _ _ Ha (ZUnion [s_urn "battery"; s_urn "claim"])); [|reflexivity].
    intros [| | | |t| |] Hx; try discriminate Hx. by exists t.
  - read_document Ha ref_reads ref_json ref_of.
  - read_document Ha typed_value_reads typed_value_json typed_value_of.
  - read_document Ha uncertainty_reads uncertainty_json uncertainty_of.
  - eapply (document_read _ _ _ Ha _ (fun x => JArr (ref_json <$> (ref_of <$> items x)))); [|reflexivity].
    intros x. apply array_reads, ref_reads.
  - read_document Ha bundle_ref_reads bundle_ref_json bundle_ref_of.
Qed.

Lemma verification_reads v : accepts verificationPayload v = true -> norm v = norm (verification_json (verification_of v)).
Proof.
  unfold verificationPayload, bindReference. rewrite accepts_refine. intros [Ha _]%andb_true_iff.
  destruct (accepts_is_object _ _ Ha) as (ms & -> & _). eapply (present_members _ _ _ Ha); [reflexivity|keys_distinct|]. read_members Ha.
  - eapply (document_read _ _ _ Ha _ (fun x => JArr (ref_json <$> (ref_of <$> items x)))); [|reflexivity].
    intros x. apply array_reads, ref_reads.
  - read_document Ha ref_reads ref_json ref_of.
  - read_document Ha bundle_ref_reads bundle_ref_json bundle_ref_of.
Qed.

(** A record says the same as its document. *)
Lemma same_document (s : zod) {A} (doc : A -> json) (rec : json -> A) (ok : A -> bool) :
  schema_ok s -> (forall p, accepts s (doc p) = ok p) -> (forall v, accepts s v = true -> norm v = norm (doc (rec v))) ->
  forall v, accepts s v = true <-> interoperable v = true /\ norm v = norm (doc (rec v)) /\ ok (rec v) = true.
Proof.
  intros Hs Hdoc Hrec v.
  assert (interoperable v = true -> norm v = norm (doc (rec v)) -> accepts s v = ok (rec v)) as Heq.
  { intros Hv Hn. rewrite <- Hdoc, <- accepts_norm, Hn by done. apply accepts_norm; [done|]. by rewrite <- interoperable_norm, <- Hn, interoperable_norm. }
  split.
  - intros Ha. pose proof (accepts_interoperable _ _ Hs Ha) as Hv. specialize (Hrec _ Ha). by rewrite <- Heq.
  - intros (Hv & Hn & Ho). by rewrite Heq.
Qed.

Lemma reference_of_document r : ref_of (ref_json r) = r.
Proof. by destruct r. Qed.

Lemma references_of_documents (l : list Reference) : ref_of <$> (ref_json <$> l) = l.
Proof. rewrite <- list_fmap_compose. apply fmap_id_Forall, Forall_true, reference_of_document. Qed.

Lemma typed_value_of_document v : typed_value_of (typed_value_json v) = v.
Proof. by destruct v as [[]| |]. Qed.

Lemma uncertainty_of_document u : uncertainty_of (uncertainty_json u) = u.
Proof. by destruct u as [|[]]. Qed.

Lemma bundle_ref_of_document r : bundle_ref_of (bundle_ref_json r) = r.
Proof. destruct r. unfold bundle_ref_of. simpl. by rewrite bundle_type_of_text. Qed.

(** The records of the evidence ledger are exactly the documents its schemas accept. A
    document is an accepted payload if and only if it is, up to the order of members, the
    document of the record read from it and that record satisfies the schema on records; and
    reading the document of a record gives the record back. *)
Theorem record_documents :
  (forall v, accepts evidenceClaimPayload v = true <->
     interoperable v = true /\ norm v = norm (evidence_json (evidence_of v)) /\ Schemas.evidenceClaimPayload (evidence_of v) = true) /\
  (forall p, evidence_of (evidence_json p) = p) /\
  (forall v, accepts verificationPayload v = true <->
     interoperable v = true /\ norm v = norm (verification_json (verification_of v)) /\
     Schemas.verificationPayload (verification_of v) = true) /\
  (forall p, verification_of (verification_json p) = p).
Proof.
  split_and!.
  - apply (same_document _ evidence_json evidence_of); [apply evidence_schema_ok|apply evidence_accepts|apply evidence_reads].
  - intros p. unfold evidence_of. simpl. rewrite references_of_documents, typed_value_of_document, uncertainty_of_document, bundle_ref_of_document.
    by destruct p as [? ? ? ? ? ? ? ? ? ? ? ? []].
  - apply (same_document _ verification_json verification_of); [apply verification_schema_ok|apply verification_accepts|apply verification_reads].
  - intros p. unfold verification_of. destruct p as [? ? ? ? ? ? ? ? ? l [] ? ? [n|] r]; simpl;
      by rewrite references_of_documents, bundle_ref_of_document.
Qed.
