(* ===== verification/EvaluationRecords.v ===== *)
(** * Evaluation and deployment manifests

    [src/src/schemas/evaluation.ts] and [src/src/schemas/deployment.ts]: the manifests of
    fixtures, configurations and runs of the evaluation, and the receipt of a deployment. The
    two times of a run are compared by [Date.parse], which is modelled on the texts that the
    datetime format lets through. *)

From S2P Require Import Prelude Regex Digits Base64 Schemas Json Protection KeyOperations Zod BundleSchemas DomainPayloads RecordSchemas.

Local Open Scope Z_scope.
Local Open Scope zod_scope.

(** ** [Date.parse] *)

(** Days from 1970-01-01 to a day of the proleptic Gregorian calendar; years start in March. *)
Definition days_from_civil (year month day : Z) : Z :=
  let y := if month <=? 2 then year - 1 else year in
  let era := y / 400 in
  let yoe := y - era * 400 in
  let doy := (153 * (month + (if 2 <? month then -3 else 9)) + 2) / 5 + day - 1 in
  era * 146097 + (yoe * 365 + yoe / 4 - yoe / 100 + doy) - 719468.

Definition digit_of (c : ascii) : option Z := if bool_decide (is_digit c) then Some (digits_value [c]) else None.

(** [n] digits and the rest *)
Fixpoint take_digits (n : nat) (acc : Z) (l : list ascii) : option (Z * list ascii) :=
  match n, l with
  | O, _ => Some (acc, l)
  | S n, c :: l => d ← digit_of c; take_digits n (acc * 10 + d) l
  | S _, [] => None
  end.

Definition expect (c : ascii) (l : list ascii) : option (list ascii) :=
  match l with c' :: l => if bool_decide (c = c') then Some l else None | [] => None end.

(** The digits after the point: milliseconds, finer digits are dropped. *)
Fixpoint fraction (unit_ : Z) (acc : Z) (l : list ascii) : Z * list ascii :=
  match l with
  | c :: l' => match digit_of c with Some d => fraction (unit_ / 10) (acc + d * unit_) l' | None => (acc, l) end
  | [] => (acc, l)
  end.

(** [Z], or an offset; the end of the text *)
Definition zone (l : list ascii) : option Z :=
  match l with
  | ["Z"%char] => Some 0
  | c :: l =>
      sign ← (if bool_decide (c = "+"%char) then Some 1 else if bool_decide (c = "-"%char) then Some (-1) else None);
      '(h, l) ← take_digits 2 0 l; l ← expect ":" l; '(m, l) ← take_digits 2 0 l;
      if bool_decide (l = []) then Some (sign * (h * 60 + m)) else None
  | [] => None
  end.

(** Milliseconds since 1970; [None] is [NaN]. *)
Definition Date_parse (s : string) : option Z :=
  '(year, l) ← take_digits 4 0 (list_ascii_of_string s); l ← expect "-" l;
  '(month, l) ← take_digits 2 0 l; l ← expect "-" l; '(day, l) ← take_digits 2 0 l; l ← expect "T" l;
  '(hour, l) ← take_digits 2 0 l; l ← expect ":" l; '(minute, l) ← take_digits 2 0 l;
  '(second, l) ← match expect ":" l with Some l => take_digits 2 0 l | None => Some (0, l) end;
  let '(ms, l) := match expect "." l with Some l => fraction 100 0 l | None => (0, l) end in
  offset ← zone l;
  Some ((((days_from_civil year month day * 24 + hour) * 60 + minute - offset) * 60 + second) * 1000 + ms).

(** ** The manifests *)

Section Manifests.
Context `{ZodFormats}.

Definition fixtureSourceClass : zod := s_enum ["public-data-replay"; "synthetic-generator"; "scripted-report"].

(** [!!value[k]]: the member is there and is no empty text. *)
Definition truthy_text (k : string) (v : json) : bool := negb (String.eqb (text_member k v) "").

Definition sourced_fixture (v : json) : bool :=
  if String.eqb (text_member "source_class" v) "public-data-replay"
  then truthy_text "source_uri" v && truthy_text "licence_id" v
  else truthy_text "generator_id" v && truthy_text "generator_version" v.

Definition fixtureManifest : zod :=
  ZRefine
    (ZObject
      ["schema" ⇒ s_lit "EVLLM_FIXTURE_MANIFEST_V1"; "fixture_id" ⇒ s_urn "source"; "fixture_version" ⇒ s_positive;
       "source_class" ⇒ fixtureSourceClass; "source_uri" ⇒? ZString z_url; "licence_id" ⇒? s_nonempty;
       "generator_id" ⇒? s_nonempty; "generator_version" ⇒? s_nonempty; "content_sha256" ⇒ ZString bytes32Hex;
       "derived_from" ⇒? ZArray (s_urn "source") 0 None])
    sourced_fixture.

(** [fixtureManifest.parse(v)]: the only schema with a default value. *)
Definition parse_fixture (v : json) : option json :=
  match v with
  | JObj ms =>
      if accepts fixtureManifest v
      then Some (JObj (if map_has "derived_from" ms then ms else map_set "derived_from" (JArr []) ms))
      else None
  | _ => None
  end.

Definition flag (k : string) (v : json) : bool :=
  match v with JObj ms => strict_equal (map_get k ms) (Some (JBool true)) | _ => false end.

Definition frozen_when_formal (v : json) : bool :=
  negb (String.eqb (text_member "mode" v) "formal" && (negb (flag "frozen" v) || flag "dirty_generated_artifacts" v)).

Definition evaluationConfigManifest : zod :=
  ZRefine
    (ZObject
      ["schema" ⇒ s_lit "EVLLM_EVALUATION_CONFIG_V1"; "evaluation_id" ⇒ s_urn "case"; "evaluation_version" ⇒ s_positive;
       "mode" ⇒ s_enum ["development"; "formal"]; "frozen" ⇒ ZBoolean; "dirty_generated_artifacts" ⇒ ZBoolean;
       "source_commit" ⇒ ZString (rtest (rx "^[0-9a-f]{40}$")); "generated_contracts_sha256" ⇒ ZString bytes32Hex;
       "fixtures" ⇒ ZArray (s_urn "source") 1 None])
    frozen_when_formal.

(** [Date.parse(value.completed_at) >= Date.parse(value.started_at)]; a comparison with [NaN] is false. *)
Definition completed_after_start (v : json) : bool :=
  match Date_parse (text_member "completed_at" v), Date_parse (text_member "started_at" v) with
  | Some c, Some s => s <=? c
  | _, _ => false
  end.

Definition metric : zod :=
  ZObject
    ["metric_id" ⇒ ZString (rtest (rx "^[a-z][a-z0-9_.-]*$"));
     "value" ⇒ ZString (rtest (rx "^-?(?:0|[1-9][0-9]*)(?:\.[0-9]+)?$"))].

Definition evaluationRunManifest : zod :=
  ZRefine
    (ZObject
      ["schema" ⇒ s_lit "EVLLM_EVALUATION_RUN_V1"; "run_id" ⇒ s_urn "event"; "config_id" ⇒ s_urn "case";
       "config_version" ⇒ s_positive; "config_sha256" ⇒ ZString bytes32Hex; "started_at" ⇒ ZString z_datetime;
       "completed_at" ⇒ ZString z_datetime;
       "result_directory" ⇒ ZString (rtest (rx "^(?:evaluation\/development|evaluation\/formal)\/[a-z0-9][a-z0-9_-]*$"));
       "secrets_included" ⇒ ZLiteral (JBool false); "metrics" ⇒ ZArray metric 0 None])
    completed_after_start.

Definition deployedContracts : zod :=
  ZObject
    ["AuthorityProfileRegistry" ⇒ s_address; "ProtectedBundleRegistry" ⇒ s_address; "BatteryOwnershipRegistry" ⇒ s_address;
     "DeploymentRegistry" ⇒ s_address; "EvidenceRegistry" ⇒ s_address; "Marketplace" ⇒ s_address; "AuditAnchor" ⇒ s_address].

Definition deploymentReceipt : zod :=
  ZObject
    ["schema" ⇒ s_lit "EVLLM_DEPLOYMENT_RECEIPT_V1"; "network" ⇒ ZString (rtest (rx "^[a-z][a-z0-9_-]*$"));
     "chain_id" ⇒ ZString (rtest (rx "^[1-9][0-9]*$")); "deployed_at" ⇒ ZString z_datetime;
     "artifact_manifest_sha256" ⇒ ZString bytes32Hex; "deployer" ⇒ s_address; "governance" ⇒ s_address;
     "review_delay_seconds" ⇒ s_timestamp; "contracts" ⇒ deployedContracts].
End Manifests.

(** * Facts *)

(** The calendar, on the days around a leap day, a century and the epoch *)
Example dates_read :
  Date_parse <$> ["1970-01-01T00:00:00Z"; "2000-02-29T23:59:59.999Z"; "2000-03-01T00:00Z"; "2026-04-13T02:00:00.5+02:00";
    "1999-12-31T23:30:00-00:30"; "tomorrow"]%string =
  [Some 0; Some 951868799999; Some 951868800000; Some 1776038400500; Some 946684800000; None].
Proof. vm_compute. reflexivity. Qed.

Section Facts.
Context `{ZodFormats}.

(** The manifests look at the values of members alone, so that they are accepted again after
    they were stored in canonical form. *)
Lemma flag_norm k v : interoperable v = true -> flag k (norm v) = flag k v.
Proof.
  destruct v as [| | | | | |ms]; intros Hv; try done. rewrite norm_object. simpl. rewrite members_norm by done.
  by destruct (map_get k ms) as [[]|].
Qed.

Lemma sourced_order_free : order_free sourced_fixture.
Proof. intros v Hv. unfold sourced_fixture, truthy_text. by rewrite !text_member_norm. Qed.

Lemma frozen_order_free : order_free frozen_when_formal.
Proof. intros v Hv. unfold frozen_when_formal. by rewrite text_member_norm, !flag_norm. Qed.

Lemma completed_order_free : order_free completed_after_start.
Proof. intros v Hv. unfold completed_after_start. by rewrite !text_member_norm. Qed.

Lemma manifests_ok :
  schema_ok fixtureManifest /\ schema_ok evaluationConfigManifest /\ schema_ok evaluationRunManifest /\ schema_ok deploymentReceipt.
Proof.
  split_and!; repeat first
    [ exact I | apply sourced_order_free | apply frozen_order_free | apply completed_order_free
    | match goal with |- NoDup _ => apply (bool_decide_unpack _); vm_compute; exact I end | split ].
Qed.

(** A formal evaluation is frozen and clean, and no manifest of a run ends before it starts. *)
Lemma formal_frozen v :
  accepts evaluationConfigManifest v = true -> text_member "mode" v = "formal"%string ->
  flag "frozen" v = true /\ flag "dirty_generated_artifacts" v = false.
Proof.
  unfold evaluationConfigManifest. rewrite accepts_refine. intros [_ Hf]%andb_true_iff Hm. unfold frozen_when_formal in Hf.
  rewrite Hm in Hf. simpl in Hf. apply negb_true_iff, orb_false_iff in Hf as [Hz ?]. by apply negb_false_iff in Hz.
Qed.

Lemma run_ordered v :
  accepts evaluationRunManifest v = true ->
  exists s c, Date_parse (text_member "started_at" v) = Some s /\ Date_parse (text_member "completed_at" v) = Some c /\ s <= c.
Proof.
  unfold evaluationRunManifest. rewrite accepts_refine. intros [_ Hf]%andb_true_iff. unfold completed_after_start in Hf.
  destruct (Date_parse _) as [c|]; [|done]. destruct (Date_parse _) as [s|]; [|done]. exists s, c. split_and!; [done..|lia].
Qed.
End Facts.
