(* ===== verification/EvidenceManifest.v ===== *)
(** * The manifest of an evidence bundle

    [EvidenceBundleService.evidenceManifest] of [src/src/evidence/evidence-bundle-service.ts]: a
    view of a bundle's record, of the payload it keeps and of its finalization, which the
    [evidenceManifest] schema of [src/src/schemas/bundle-records.ts] parses. The bytes of a
    payload are canonical JSON, which is UTF-8; on other bytes [TextDecoder] would put
    replacement characters, which is not modelled. *)

From S2P Require Import Prelude Regex Digits Decimal Base64 Schemas EvidenceLedger KeyLifecycle Storage Json Hex Signatures Protection KeyOperations EcmaRegExp Text Bundle BundleService BundleSafety BundleSample BundleProperties Zod BundleSchemas BundleRecords DomainPayloads RecordSchemas RecordModels.

Local Open Scope Z_scope.
Local Open Scope list_scope.

Inductive ManifestError := manifest_not_found | manifest_not_json | manifest_schema.

Section Manifest.
Context {HC : CanonicalJson} {HSha : Sha256} {HKeccak : Keccak256} {HJose : Jose} {HTyped : TypedData} {HZ : ZodFormats}.

Definition lifecycle_text (l : EvidenceLifecycle) : string :=
  match l with ev_active => "active" | ev_revoked => "revoked" | ev_superseded => "superseded" end.

(** The manifest before it is parsed; [payload] is the parsed domain payload. *)
Definition manifest_json (payload : json) (signatureRecordId : string) (attestation : SignedProof) (lifecycle : EvidenceLifecycle) : json :=
  let ref := RecordModels.member "protected_bundle_ref" payload in
  JObj [("schema", JStr "EVLLM_EVIDENCE_MANIFEST_V1"); ("evidence_id", member "evidence_id" payload);
        ("evidence_version", member "evidence_version" payload);
        ("evidence_claim_payload_ref", JObj [("id", member "evidence_id" payload); ("version", member "evidence_version" payload)]);
        ("protected_bundle_ref", ref); ("claim_id", member "claim_id" payload); ("subject_id", member "subject_id" payload);
        ("issuer_organization_id", member "issuer_organization_id" payload);
        ("content_schema_id", member "content_schema_id" ref); ("content_schema_version", member "content_schema_version" ref);
        ("method", member "capture_method" payload); ("source_class", member "source_class" payload);
        ("provenance", member "provenance" payload); ("domain_signature_record_id", JStr signatureRecordId);
        ("signed_domain_envelope_digest", digest_json (digestObject (canonicalJsonBytes (proof_json attestation))));
        ("signature_digest", digest_json (digestObject (from_hex (slice_from 2 (sp_signature attestation)))));
        ("lifecycle", JStr (lifecycle_text lifecycle)); ("support_links", JArr [])]%string.

(** [evidenceManifest(bundleId, lifecycle)] *)
Definition evidenceManifest_of (s : State) (bundleId : string) (lifecycle : EvidenceLifecycle) : result ManifestError json :=
  match Bundle.record s bundleId with
  | Throw _ => Throw manifest_not_found
  | Ok (_, r) =>
      match finalizedRecord s bundleId with
      | Throw _ => Throw manifest_not_found
      | Ok fr =>
          payload ← defined (text_decode (f_domainPayload (fields r)) ≫= JSON_parse) manifest_not_json;
          _ ← require (accepts evidenceClaimPayload payload) manifest_schema;
          let m := manifest_json payload (f_signatureRecordId (fields r)) (fr_attestation fr) lifecycle in
          _ ← require (accepts BundleRecords.evidenceManifest m) manifest_schema;
          Ok m
      end
  end.

(** * Facts *)

(** ** The letters that every match of an expression starts with *)

Fixpoint leading (r : regex) : list ascii * bool :=
  match r with
  | REps => ([], true)
  | RCls false [(a, b)] => if bool_decide (a = b) then ([a], true) else ([], false)
  | RSeq r s => let '(l, whole) := leading r in if whole then let '(l', whole') := leading s in (l ++ l', whole') else (l, false)
  | _ => ([], false)
  end.

Lemma leading_match r w : rmatch r w -> exists rest, w = (leading r).1 ++ rest /\ ((leading r).2 = true -> rest = []).
Proof.
  induction 1 as [|neg rs c Hc|r s w1 w2 _ IH1 _ IH2|r s w _ _|r s w _ _|r|r w1 w2 _ _ _ _];
    [by exists []| | |by exists w|by exists w|by exists []|by exists (w1 ++ w2)].
  - destruct neg; [by exists [c]|]. destruct rs as [|[a b] [|]]; [by exists [c]| |by exists [c]]. simpl.
    case_bool_decide as Hab; [|by exists [c]]. subst b. exists []. split; [|done]. simpl. f_equal.
    unfold cls_test, in_range in Hc. simpl in Hc. rewrite orb_false_r in Hc. apply andb_true_iff in Hc as [H1%Nat.leb_le H2%Nat.leb_le].
    rewrite <- (ascii_nat_embedding c), <- (ascii_nat_embedding a). f_equal. lia.
  - destruct IH1 as (r1 & -> & H1), IH2 as (r2 & -> & H2). simpl. destruct (leading r) as [l [|]]; simpl in *.
    + rewrite H1 by done. rewrite app_nil_r. destruct (leading s) as [l' b']. simpl in *. exists r2. by rewrite app_assoc.
    + exists (r1 ++ (leading s).1 ++ r2). split; [by rewrite <- app_assoc|done].
Qed.

Lemma leading_prefix r s p :
  rtest r s = true -> take (String.length p) (leading r).1 = list_ascii_of_string p -> String.prefix p s = true.
Proof.
  intros (rest & Hs & _)%rtest_spec%leading_match Hp. apply Text.prefix_spec.
  exists (string_of_list_ascii (drop (String.length p) (leading r).1 ++ rest)). apply list_ascii_of_string_inj.
  rewrite list_ascii_of_string_app, list_ascii_of_string_of_list_ascii, <- Hp, app_assoc, take_drop. done.
Qed.

Lemma urn_prefix kind s : kind ∈ ["battery"; "claim"]%string -> urn kind s = true -> String.prefix "urn:evllm:" s = true.
Proof.
  intros Hk Hu. unfold urn in Hu. eapply leading_prefix; [exact Hu|].
  apply elem_of_cons in Hk as [->|Hk]; [vm_compute; reflexivity|]. apply list_elem_of_singleton in Hk as ->. vm_compute. reflexivity.
Qed.

(** ** The members of an accepted payload *)

Lemma member_accepts fields v k s :
  accepts (ZObject fields) v = true -> map_get k fields = Some (false, s) -> accepts s (member k v) = true.
Proof.
  intros Ha Hk. destruct (accepts_is_object _ _ Ha) as (ms & -> & _). pose proof (accepts_field _ _ _ _ _ Ha Hk) as Hx.
  simpl. by destruct (map_get k ms).
Qed.

Lemma map_get_app_l {V} (k : string) (v : V) l l' : map_get k l = Some v -> map_get k (l ++ l') = Some v.
Proof. induction l as [|[k' v'] l IH]; [done|]. csimpl. by case_decide. Qed.

(** A reference, whatever the type of its bundle *)
Lemma reference_member ref k s :
  accepts protectedBundleRef ref = true -> map_get k protectedBundleRefBase = Some (false, s) -> accepts s (member k ref) = true.
Proof.
  unfold protectedBundleRef. rewrite accepts_union. intros (x & Hx%list_elem_of_In & Ha)%existsb_exists Hk.
  apply list_elem_of_fmap in Hx as (t & -> & _). eapply member_accepts; [exact Ha|]. by apply map_get_app_l.
Qed.

Lemma short_source_class x : accepts (s_enum ["primary"; "secondary"; "derived"]) x = true -> accepts s_short x = true.
Proof.
  destruct x as [| | | |s| |]; try done. unfold s_enum, s_short. rewrite !accepts_string. simpl. intros Hs%includes_true.
  rewrite !elem_of_cons in Hs. destruct Hs as [->|[->|[->|Hs]]]; [done..|]. by apply not_elem_of_nil in Hs.
Qed.

Lemma named_subject x : accepts (ZUnion [s_urn "battery"; s_urn "claim"]) x = true -> accepts (s_prefix "urn:evllm:") x = true.
Proof.
  rewrite accepts_union. intros (s & Hs%list_elem_of_In & Ha)%existsb_exists.
  assert (exists kind, kind ∈ ["battery"; "claim"]%string /\ s = s_urn kind) as (kind & Hk & ->).
  { rewrite !elem_of_cons in Hs. destruct Hs as [->|[->|Hs]]; [by exists "battery"%string; split; [left|]|by exists "claim"%string; split; [right; left|]|].
    by apply not_elem_of_nil in Hs. }
  destruct x as [| | | |x| |]; try done. unfold s_urn, s_prefix in *. rewrite accepts_string in *. simpl in *. by eapply urn_prefix.
Qed.

Lemma digest_accepts d : digest d = true -> accepts s_digest (digest_json d) = true.
Proof. intros Hd. unfold s_digest, digest_json. aligned. exact Hd. Qed.

Definition payload_fields : fields_of :=
  Eval cbv [evidenceClaimPayload bindReference] in
    match evidenceClaimPayload with ZRefine (ZObject fields) _ => fields | _ => [] end.

Lemma payload_member v k s :
  accepts evidenceClaimPayload v = true -> map_get k payload_fields = Some (false, s) -> accepts s (member k v) = true.
Proof.
  unfold evidenceClaimPayload, bindReference. rewrite accepts_refine. intros [Ha _]%andb_true_iff Hk.
  eapply member_accepts; [exact Ha|exact Hk].
Qed.

Lemma manifest_accepted v record_id attestation lifecycle :
  accepts evidenceClaimPayload v = true -> urn "assertion" record_id = true ->
  accepts BundleRecords.evidenceManifest (manifest_json v record_id attestation lifecycle) = true.
Proof.
  intros Hv Hid. assert (Hm := fun k s => payload_member v k s Hv).
  assert (Href : accepts protectedBundleRef (member "protected_bundle_ref" v) = true) by (by apply Hm).
  assert (Hr := fun k s => reference_member _ k s Href).
  unfold BundleRecords.evidenceManifest, manifest_json. aligned. rewrite !andb_true_iff.
  split_and!; try done; try (by apply Hm); try (by apply Hr); try (by apply digest_accepts, digestOf_valid).
  - unfold s_ref. aligned. rewrite andb_true_iff. split; [|by apply (Hm "evidence_version"%string)].
    specialize (Hm "evidence_id"%string _ eq_refl). destruct (member "evidence_id" v) as [| | | |s| |]; try done.
    unfold s_urn, s_nonempty in *. rewrite accepts_string in *. simpl in *. destruct s; [done|]. done.
  - apply named_subject. by apply Hm.
  - apply short_source_class. by apply Hm.
  - by destruct lifecycle.
Qed.

(** ** The manifest of a prepared payload *)

Lemma payload_document p : payload_json p = evidence_json p.
Proof. done. Qed.

Lemma payload_parses p :
  Schemas.evidenceClaimPayload p = true ->
  text_decode (canonicalJsonBytes (payload_json p)) ≫= JSON_parse = Some (norm (payload_json p)) /\
  accepts evidenceClaimPayload (norm (payload_json p)) = true.
Proof.
  intros Hp. split; [unfold canonicalJsonBytes; rewrite text_decode_encode; apply JSON_parse_canonical|].
  assert (accepts evidenceClaimPayload (payload_json p) = true) as Ha by (rewrite payload_document; by rewrite evidence_accepts).
  rewrite accepts_norm; [done|apply evidence_schema_ok|]. eapply accepts_interoperable; [apply evidence_schema_ok|done].
Qed.

Lemma member_norm k ms : NoDup ms.*1 -> member k (norm (JObj ms)) = norm (member k (JObj ms)).
Proof. intros Hnd. rewrite norm_object. simpl. rewrite norm_fields_get by done. by destruct (map_get k ms). Qed.
Lemma norm_members_eq ms ms' :
  (fun m => (m.1, norm m.2)) <$> ms = (fun m => (m.1, norm m.2)) <$> ms' -> norm (JObj ms) = norm (JObj ms').
Proof. intros Hm. simpl. by rewrite Hm. Qed.

(** Storing a payload in canonical form changes the order of members alone. *)
Lemma manifest_norm p record_id attestation lifecycle :
  norm (manifest_json (norm (payload_json p)) record_id attestation lifecycle) =
  norm (manifest_json (payload_json p) record_id attestation lifecycle).
Proof.
  unfold manifest_json. apply norm_members_eq.
  assert (Hm : forall k, member k (norm (payload_json p)) = norm (member k (payload_json p))) by (intros k; apply member_norm; keys_distinct).
  assert (Hr : forall k, member k (norm (bundle_ref_json (ep_protected_bundle_ref p))) = norm (member k (bundle_ref_json (ep_protected_bundle_ref p))))
    by (intros k; apply member_norm; keys_distinct).
  rewrite !Hm. change (member "protected_bundle_ref" (payload_json p)) with (bundle_ref_json (ep_protected_bundle_ref p)). rewrite !Hr.
  cbn [fmap list_fmap fst snd]. by rewrite !norm_norm.
Qed.

(** ** What a manifest has to tell *)

(** SHA-256 of some bytes, as the schemas write it. *)
Definition sha256_json (b : bytes) : json :=
  JObj [("alg", JStr "SHA-256"); ("value", JStr (to_base64url (sha256 b)))]%string.

(** The members of the manifest of a payload [p], one by one, and no others. Objects are
    compared up to the order of their members. *)
Definition manifest_members (p : EvidencePayload) (record_id : string) (attestation : SignedProof) (lifecycle : EvidenceLifecycle) :
    list (string * json) :=
  let ref := ep_protected_bundle_ref p in
  [("schema", JStr "EVLLM_EVIDENCE_MANIFEST_V1");
   ("evidence_id", JStr (ep_evidence_id p)); ("evidence_version", JNum (ep_evidence_version p));
   ("evidence_claim_payload_ref", JObj [("id", JStr (ep_evidence_id p)); ("version", JNum (ep_evidence_version p))]);
   ("protected_bundle_ref", bundle_ref_json ref); ("claim_id", JStr (ep_claim_id p)); ("subject_id", JStr (ep_subject_id p));
   ("issuer_organization_id", JStr (ep_issuer_organization_id p));
   ("content_schema_id", JStr (pb_content_schema_id ref)); ("content_schema_version", JStr (pb_content_schema_version ref));
   ("method", reference_json (ep_capture_method p)); ("source_class", JStr (ep_source_class p));
   ("provenance", JArr (reference_json <$> ep_provenance p)); ("domain_signature_record_id", JStr record_id);
   ("signed_domain_envelope_digest", sha256_json (canonicalJsonBytes (proof_json attestation)));
   ("signature_digest", sha256_json (from_hex (slice_from 2 (sp_signature attestation))));
   ("lifecycle", JStr (match lifecycle with ev_active => "active" | ev_revoked => "revoked" | ev_superseded => "superseded" end));
   ("support_links", JArr [])]%string.

Definition tells (m : json) (members : list (string * json)) : Prop :=
  exists ms, m = JObj ms /\ ms.*1 ≡ₚ members.*1 /\
    forall k v, (k, v) ∈ members -> exists x, (k, x) ∈ ms /\ norm x = norm v.

Lemma norm_tells ms members :
  NoDup ms.*1 -> NoDup members.*1 -> norm (JObj ms) = norm (JObj members) -> tells (JObj ms) members.
Proof.
  intros Hd Hd' Hn. assert (Hk := norm_same_fields ms members).
  exists ms. split; [done|].
  assert (forall k, norm <$> map_get k ms = norm <$> map_get k members) as Hg by (intros k; by apply (Hk k)).
  split.
  - apply NoDup_Permutation; [done..|]. intros k.
    pose proof (map_get_None k ms). pose proof (map_get_None k members). specialize (Hg k).
    destruct (map_get k ms), (map_get k members), (decide (k ∈ ms.*1)), (decide (k ∈ members.*1)); naive_solver.
  - intros k v Hin. apply elem_of_map_get in Hin; [|done]. specialize (Hg k). rewrite Hin in Hg.
    destruct (map_get k ms) as [x|] eqn:Hx; [|done]. injection Hg as Hg. exists x.
    split; [by apply map_get_elem_of|done].
Qed.

Context (config : EvidenceBundleServiceConfig).

(** C28. The manifest of a finalized bundle. In every reachable state of the service, for a bundle with
    a record and a finalization, [evidenceManifest] answers: the payload it reads back parses, the
    manifest satisfies its schema, and its members are those listed, no more and no fewer: the
    identifiers, subject, issuer, method, source and provenance of the payload that a call of
    [prepare] for this very bundle was given, the signature record of the bundle, the SHA-256 of the
    attestation of the finalization and, apart from it, that of its signature, and the lifecycle
    asked for. Without a record or a finalization it fails with not-found. The identifier of the
    signature record is a random uuid. *)
Theorem manifest_of_bundle (sys : System) (b : string) (lifecycle : EvidenceLifecycle) :
  reachable config sys ->
  match Bundle.record (shared sys) b, finalizedRecord (shared sys) b with
  | Ok (_, r), Ok fr =>
      urn "assertion" (f_signatureRecordId (fields r)) = true ->
      exists p fresh m, prepared_in sys p fresh /\ pb_bundle_id (ep_protected_bundle_ref (in_evidencePayload p)) = b /\
        evidenceManifest_of (shared sys) b lifecycle = Ok m /\ accepts BundleRecords.evidenceManifest m = true /\
        tells m (manifest_members (in_evidencePayload p) (f_signatureRecordId (fields r)) (fr_attestation fr) lifecycle)
  | _, _ => evidenceManifest_of (shared sys) b lifecycle = Throw manifest_not_found
  end.
Proof.
  intros Hreach. unfold evidenceManifest_of. destruct (Bundle.record _ b) as [[a r]|e] eqn:Hrec; [|done].
  destruct (finalizedRecord _ b) as [fr|e]; [|done]. intros Hid.
  destruct (reachable_accounted config (prepared_in sys) sys Hreach) as [owns_ [Hinv _ _ _ _]].
  { intros j p fresh t Hj. by exists j, t. }
  apply record_Ok in Hrec as [Hb Ha]. destruct (inv_bundle _ _ _ Hinv _ _ Hb) as (r' & Ha' & Hbid).
  rewrite Ha in Ha'. injection Ha' as <-. destruct (inv_genuine _ _ _ Hinv _ _ Ha) as (p & fresh & x & w & d & Hp & Hvalid & _ & Hf).
  destruct (payload_parses _ Hvalid) as [Hparse Hacc].
  assert (f_domainPayload (fields r) = canonicalJsonBytes (payload_json (in_evidencePayload p))) as -> by (by rewrite Hf).
  rewrite Hparse. cbn [defined mbind result_bind]. rewrite Hacc. cbn [require mbind result_bind]. rewrite manifest_accepted by done.
  eexists p, fresh, _. split; [done|]. split; [by rewrite <- Hbid, Hf|]. split; [reflexivity|]. split; [by apply manifest_accepted|].
  apply norm_tells; [keys_distinct..|]. etrans; [exact (manifest_norm _ _ _ _)|reflexivity].
Qed.
End Manifest.

(** ** The manifest of the concrete bundle *)

Module ManifestSample.
Import Json.Sample Signatures.Sample Protection.Sample.

Definition formats : ZodFormats := Build_ZodFormats (fun _ => false) (fun _ => false) (fun _ => false).
#[local] Existing Instance formats.

Lemma sample_finalization : exists a r fr,
  Bundle.record (shared sample_system) (sample_urn "bundle") = Ok (a, r) /\
  finalizedRecord (shared sample_system) (sample_urn "bundle") = Ok fr /\ urn "assertion" (f_signatureRecordId (fields r)) = true.
Proof.
  assert (match Bundle.record (shared sample_system) (sample_urn "bundle"), finalizedRecord (shared sample_system) (sample_urn "bundle") with
          | Ok (_, r), Ok _ => urn "assertion" (f_signatureRecordId (fields r)) | _, _ => false end = true) as H by (vm_compute; reflexivity).
  destruct (Bundle.record _ _) as [[a r]|]; [|done]. destruct (finalizedRecord _ _) as [fr|]; [|done]. by exists a, r, fr.
Qed.

Lemma manifest_of_bundle_witness :
  exists p fresh m, prepared_in sample_system p fresh /\ evidenceManifest_of (shared sample_system) (sample_urn "bundle") ev_active = Ok m /\
    accepts BundleRecords.evidenceManifest m = true.
Proof.
  pose proof (manifest_of_bundle sample_config sample_system (sample_urn "bundle") ev_active sample_reachable) as H.
  destruct sample_finalization as (a & r & fr & Hr & Hf & Hid). rewrite Hr, Hf in H.
  destruct (H Hid) as (p & fresh & m & Hp & _ & Hm & Ha & _). exists p, fresh, m. split; [exact Hp|]. split; [exact Hm|exact Ha].
Defined.
End ManifestSample.
