(* ===== verification/JsNumber.v ===== *)
(** * Numbers read from texts

    [Number(text)] of ECMAScript, as far as [Number.isSafeInteger] tells its results apart: the
    text is trimmed and read as a numeral, and its exact value is rounded to the nearest
    double, ties to the even one. The program reads the [as_of] of a rule query with it. *)

From S2P Require Import Prelude Digits EcmaRegExp Text.

Local Open Scope Z_scope.

(** The digits a text starts with, and the rest *)
Fixpoint span_digits (l : list ascii) : list ascii * list ascii :=
  match l with
  | c :: l' => if bool_decide (is_digit c) then let '(ds, r) := span_digits l' in (c :: ds, r) else ([], l)
  | [] => ([], [])
  end.

(** The exponent part of a decimal literal; [None] when the text goes on. *)
Definition exponent (l : list ascii) : option Z :=
  match l with
  | [] => Some 0
  | e :: l =>
      if bool_decide (e = "e"%char) || bool_decide (e = "E"%char) then
        let '(sign, l) := match l with "+"%char :: l => (1, l) | "-"%char :: l => (-1, l) | l => (1, l) end in
        match span_digits l with
        | ((_ :: _) as ds, []) => Some (sign * digits_value ds)
        | _ => None
        end
      else None
  end.

(** An unsigned decimal literal: its value is the first number times ten to the second. *)
Definition decimal_literal (l : list ascii) : option (Z * Z) :=
  let '(whole, r) := span_digits l in
  let '(fraction, r) := match r with "."%char :: r => span_digits r | r => ([], r) end in
  if bool_decide (whole = []) && bool_decide (fraction = []) then None
  else e ← exponent r; Some (digits_value (whole ++ fraction), e - Z.of_nat (length fraction)).

Definition hex_digit (c : ascii) : option Z :=
  let n := Z.of_nat (nat_of_ascii c) in
  if (48 <=? n) && (n <=? 57) then Some (n - 48)
  else if (97 <=? n) && (n <=? 102) then Some (n - 87)
  else if (65 <=? n) && (n <=? 70) then Some (n - 55)
  else None.

(** The digits after [0x], [0o] or [0b] *)
Definition radix_digits (radix : Z) (l : list ascii) : option Z :=
  match l with
  | [] => None
  | l => foldl (fun acc c => v ← acc; d ← hex_digit c; if d <? radix then Some (radix * v + d) else None) (Some 0) l
  end.

(** The integer that [m * 10 ^ e], at least zero, rounds to as a double, when that is a safe
    integer. Between 1 and [2 ^ 53] a double has 52 - log2 bits after the point. *)
Definition safe_double (m e : Z) : option Z :=
  let d := 10 ^ (- e) in
  let n := m * 10 ^ e in
  let rounded :=
    if 0 <=? e then Some n
    else if m mod d =? 0 then Some (m / d)
    else
      let f := m / d in
      if f =? 0 then
        if m * 2 ^ 1075 <=? d then Some 0
        else if (2 ^ 54 - 1) * d <=? m * 2 ^ 54 then Some 1
        else None
      else
        let u := 2 ^ Z.max 0 (52 - Z.log2 f) in
        let q := m * u / d in
        let twice := 2 * (m * u - q * d) in
        let r := if (twice <? d) || ((twice =? d) && Z.even q) then q else q + 1 in
        if r mod u =? 0 then Some (r / u) else None in
  v ← rounded; if v <=? MAX_SAFE_INTEGER then Some v else None.

(** [Number(text)], when that is a safe integer *)
Definition safe_number (text : string) : option Z :=
  match list_ascii_of_string (trim text) with
  | [] => Some 0
  | "0"%char :: "x"%char :: l | "0"%char :: "X"%char :: l => v ← radix_digits 16 l; safe_double v 0
  | "0"%char :: "o"%char :: l | "0"%char :: "O"%char :: l => v ← radix_digits 8 l; safe_double v 0
  | "0"%char :: "b"%char :: l | "0"%char :: "B"%char :: l => v ← radix_digits 2 l; safe_double v 0
  | "-"%char :: l => '(m, e) ← decimal_literal l; Z.opp <$> safe_double m e
  | "+"%char :: l | l => '(m, e) ← decimal_literal l; safe_double m e
  end.

Example safe_number_ex :
  safe_number " 42 " = Some 42 /\ safe_number "1e3" = Some 1000 /\ safe_number "0x1F" = Some 31 /\ safe_number "1.5" = None /\
  safe_number "-7" = Some (-7) /\ safe_number "   " = Some 0 /\ safe_number "1_000" = None /\ safe_number "9007199254740992" = None /\
  safe_number "4503599627370496.5" = Some 4503599627370496 /\ safe_number "4503599627370497.5" = Some 4503599627370498 /\
  safe_number "1e-400" = Some 0 /\ safe_number ".5e1" = Some 5 /\ safe_number "5." = Some 5 /\ safe_number "." = None.
Proof. vm_compute. repeat split; reflexivity. Qed.

(** ** Facts *)

Lemma span_digits_all l : Forall is_digit l -> span_digits l = (l, []).
Proof. induction 1 as [|c l Hc _ IH]; simpl; [done|]. rewrite bool_decide_true by done. by rewrite IH. Qed.

(** The text of a safe integer is read as that integer. *)
Lemma decimal_literal_digits l : Forall is_digit l -> l <> [] -> decimal_literal l = Some (digits_value l, 0).
Proof.
  intros Hl Hne. unfold decimal_literal. rewrite span_digits_all by done. rewrite (bool_decide_false (l = [])) by done.
  simpl. by rewrite app_nil_r.
Qed.
