(* ===== verification/HttpRoutes.v ===== *)
(** * The HTTP interface

    [src/src/app.ts] and the routers of [src/src/evidence/http.ts], [src/src/decision/http.ts],
    [src/src/marketplace/http.ts], [src/src/assistant/http.ts] and [src/src/interface/http.ts],
    over the components they call. Express matches a request to its route, parses its body and
    its query, and is not modelled: a request names its [Endpoint]. A handler runs until it
    answers, passes the request on, throws or awaits; what follows an await is a function of
    its own. The clock and the random identifiers are arguments. *)

From S2P Require Import Prelude Regex Digits Decimal Base64 Schemas Rules Assessment Support EvidenceLedger Storage Json Hex Signatures Protection KeyOperations Session AuditLedger EcmaRegExp Text SemanticTokens SemanticSupport AssistantTypes AssistantTools AssistantDecisions AssistantProse AssistantValidation AssistantService Gateway InterfaceCases InterfaceAssessment Observability JsNumber Zod BundleSchemas DomainPayloads RecordModels.

Local Open Scope Z_scope.
Local Open Scope list_scope.

(** ** Requests and answers *)

Inductive Endpoint :=
| get_page | get_styles | get_client
| post_interface_assistant | get_interface_assessment (scenario : string) | get_interface_status
| get_evidence | post_commands | get_assessments | get_rules | get_marketplace | get_command (id : string)
| post_auth | post_assistant | get_audit
| get_live | get_ready | get_metrics | other_route.

(** [request.body] is a value; without a body it is [undefined], which, like [null], no
    schema takes. *)
Record Request := mkRequest {
  endpoint : Endpoint;
  authorization : option string;
  query_of : object;
  body : json;
  correlationId : string
}.

Inductive Body :=
| error_body (code : string)
| static_body
| metrics_body
| evidence_body (current_ : EvidenceRecord) (history_ : list EvidenceRecord)
| assessment_body (current_ : AssessmentRecord) (history_ : list AssessmentRecord)
| rule_body (rule_ : ExecutableRuleProfile)
| record_body (record : EvidenceRecord)
| command_body (r : MarketplaceCommandResult)
| market_body (found : json)
| challenge_body (id message_ : string) (expires : Z)
| token_body (token_ : string) (session : ActorSession)
| session_body (session : ActorSession)
| logged_out_body
| answer_body (r : AssistantResponse)
| presentation_body (caseId : option ControlledCaseId) (caseLabel question : string) (r : AssistantResponse)
| audit_body (events : list AssistantAuditEvent)
| scenario_body (p : AssessmentPresentation)
| readiness_body (r : ReadinessResult).

(** What a suspended handler waits for *)
Inductive Awaited :=
| awaits_verify (c : Session.Challenge)
| awaits_answer (call : nat)
| awaits_presentation (call : nat) (resolved : ResolvedControlledQuestion) (question : string)
| awaits_submit (call : nat)
| awaits_market (record_kind id : string)
| awaits_readiness.

Inductive Outcome :=
| replied (status_ : Z) (b : Body)
| passed_on
| raised
| awaiting (w : Awaited).

Definition denied : Outcome := replied 403 (error_body "ACCESS_DENIED").
Definition invalid_request : Outcome := replied 400 (error_body "INVALID_REQUEST").

(** ** The server *)

(** Its routers are optional; [research] is the session of the research interface, when that
    is configured. *)
Record Options := mkOptions {
  authorize : Request -> string -> bool;
  with_evidence : bool;
  with_decision : bool;
  with_marketplace : bool;
  with_assistant : bool;
  research : option ActorSession
}.

(** What an environment gives a handler: the time and random identifiers *)
Record Environment := mkEnvironment { env_now : Z; env_uuid : string; env_nonce : string }.

Section Server.
Context `{CanonicalJson, Sha256} {Error_ : Type} {HI : CanonicalHash (list RouteAssessmentInput)} {HR : CanonicalHash Reproduction}.
Context (digest : string -> string) (is_uuid : string -> bool).
(** Whether zod takes an object without a member of schema [z.unknown()] *)
Context (absent_unknown : bool).
Context (o : Options).

Record Server := mkServer {
  sv_sessions : WalletSessionManager;
  sv_evidence : EvidenceLedger;
  sv_assessments : AssessmentLedger;
  sv_rules : DatedRuleRegistry;
  sv_gateway : Gateway.Gateway Error_;
  sv_assistant : AssistantService.Service
}.

Definition with_sessions (m : WalletSessionManager) (s : Server) : Server :=
  mkServer m (sv_evidence s) (sv_assessments s) (sv_rules s) (sv_gateway s) (sv_assistant s).
Definition with_ledger (l : EvidenceLedger) (s : Server) : Server :=
  mkServer (sv_sessions s) l (sv_assessments s) (sv_rules s) (sv_gateway s) (sv_assistant s).
Definition with_gateway (g : Gateway.Gateway Error_) (s : Server) : Server :=
  mkServer (sv_sessions s) (sv_evidence s) (sv_assessments s) (sv_rules s) g (sv_assistant s).
Definition with_service (a : AssistantService.Service) (s : Server) : Server :=
  mkServer (sv_sessions s) (sv_evidence s) (sv_assessments s) (sv_rules s) (sv_gateway s) a.

(** ** Evidence *)

Definition get_evidence_handler (r : Request) (s : Server) : Outcome :=
  if negb (authorize o r "evidence.read") then denied
  else
    match field (query_of r) "claim_id" with
    | Some (JStr id) =>
        match EvidenceLedger.current (sv_evidence s) id with
        | Ok c => replied 200 (evidence_body c (claim_history (sv_evidence s) id))
        | Throw EvidenceLedger.not_found => replied 404 (error_body "EVIDENCE_NOT_FOUND")
        | Throw _ => raised
        end
    | _ => invalid_request
    end.

Definition isEvidenceCommand (v : json) : bool :=
  match v with
  | JObj ms =>
      strict_equal (field ms "kind") (Some (JStr "activate-evidence")) || strict_equal (field ms "kind") (Some (JStr "revoke-evidence"))
  | _ => false
  end.

Inductive EvidenceCommand :=
| activate_evidence (expected_prior_version : Z) (payload : option json)
| revoke_evidence (claim_id : string) (claim_version : Z).

(** A member whose schema is [z.unknown()] *)
Definition unknown_member (ms : object) (k : string) : bool := bool_decide (is_Some (field ms k)) || absent_unknown.

Definition evidence_command (v : json) : option EvidenceCommand :=
  match v with
  | JObj ms =>
      match get_string ms "kind" with
      | Some kind =>
          if String.eqb kind "activate-evidence" then
            _ ← guard (strict_keys ["kind"; "expected_prior_version"; "payload"]%string ms && unknown_member ms "payload");
            match field ms "expected_prior_version" with
            | Some (JNum n) => _ ← guard (timestamp n); Some (activate_evidence n (field ms "payload"))
            | _ => None
            end
          else if String.eqb kind "revoke-evidence" then
            _ ← guard (strict_keys ["kind"; "claim_id"; "claim_version"]%string ms);
            id ← get_string ms "claim_id"; _ ← guard (negb (String.eqb id ""));
            match field ms "claim_version" with
            | Some (JNum n) => _ ← guard (positiveSafeInteger n); Some (revoke_evidence id n)
            | _ => None
            end
          else None
      | None => None
      end
  | _ => None
  end.

(** [ledger.activate], which parses the payload it is given *)
Definition activate_document (l : EvidenceLedger) (payload : option json) (expectedPriorVersion at_ : Z) :
    result EvidenceError (EvidenceLedger * EvidenceRecord) :=
  match payload with
  | Some v =>
      if accepts evidenceClaimPayload v then EvidenceLedger.activate l (evidence_of v) expectedPriorVersion at_
      else Throw invalid_payload
  | None => Throw invalid_payload
  end.

(** [EVIDENCE_...] of the code of an [EvidenceLedgerError]; another error is no such. *)
Definition evidence_error (e : EvidenceError) : Outcome :=
  match e with
  | EvidenceLedger.conflict => replied 409 (error_body "EVIDENCE_CONFLICT")
  | EvidenceLedger.invalid_prior => replied 409 (error_body "EVIDENCE_INVALID_PRIOR")
  | EvidenceLedger.invalid_state => replied 409 (error_body "EVIDENCE_INVALID_STATE")
  | EvidenceLedger.not_found => replied 409 (error_body "EVIDENCE_NOT_FOUND")
  | EvidenceLedger.self_verification => replied 409 (error_body "EVIDENCE_SELF_VERIFICATION")
  | EvidenceLedger.invalid_payload => raised
  end.

Definition post_evidence_handler (env : Environment) (r : Request) (s : Server) : Server * Outcome :=
  if negb (isEvidenceCommand (body r)) then (s, passed_on)
  else
    match evidence_command (body r) with
    | None => (s, replied 400 (error_body "INVALID_COMMAND"))
    | Some c =>
        if negb (authorize o r "evidence.command") then (s, denied)
        else
          let done := match c with
                      | activate_evidence prior payload => activate_document (sv_evidence s) payload prior (env_now env)
                      | revoke_evidence id v => EvidenceLedger.revoke (sv_evidence s) id v
                      end in
          match done with
          | Ok (l, record) => (with_ledger l s, replied 202 (record_body record))
          | Throw e => (s, evidence_error e)
          end
    end.
(** ** Decisions *)

Definition get_assessments_handler (r : Request) (s : Server) : Outcome :=
  if negb (authorize o r "assessment.read") then denied
  else
    match query_text (field (query_of r) "assessment_input_id") with
    | None => invalid_request
    | Some id =>
        match current_assessment (sv_assessments s) id with
        | Ok c => replied 200 (assessment_body c (Support.history (sv_assessments s) id))
        | Throw _ => replied 404 (error_body "ASSESSMENT_NOT_FOUND")
        end
    end.

Definition get_rules_handler (r : Request) (s : Server) : Outcome :=
  if negb (authorize o r "rule.read") then denied
  else
    match query_text (field (query_of r) "rule_id"), query_text (field (query_of r) "jurisdiction"),
          query_text (field (query_of r) "subject_scope"), query_text (field (query_of r) "as_of") ≫= safe_number with
    | Some ruleId, Some where_, Some subjectScope, Some asOf =>
        match selectRule (sv_rules s) asOf where_ ruleId subjectScope with
        | Ok rule => replied 200 (rule_body rule)
        | Throw _ => replied 404 (error_body "RULE_NOT_APPLICABLE")
        end
    | _, _, _, _ => invalid_request
    end.

(** ** The marketplace *)

(** The identifiers given, of which there must be one; the answer of [query] is awaited. *)
Definition get_marketplace_handler (r : Request) : Outcome :=
  if negb (authorize o r "marketplace.read") then denied
  else
    match omap (fun name => pair name <$> query_text (field (query_of r) name)) ["agreement_id"; "listing_id"; "offer_id"]%string with
    | [(kind, id)] => awaiting (awaits_market kind id)
    | _ => invalid_request
    end.

Definition post_marketplace_handler (env : Environment) (r : Request) (s : Server) : Server * Outcome :=
  if negb (authorize o r "marketplace.command") then (s, denied)
  else
    (with_gateway (Gateway.step (sv_gateway s) (Gateway.submit (body r) (env_now env))) s,
     awaiting (awaits_submit (length (Gateway.calls (sv_gateway s))))).

Definition get_command_handler (r : Request) (id : string) (s : Server) : Outcome :=
  if negb (authorize o r "marketplace.command.read") then denied
  else
    match result_of (Gateway.commands (sv_gateway s)) id with
    | Ok c => replied 200 (command_body c)
    | Throw _ => replied 404 (error_body "COMMAND_NOT_FOUND")
    end.

(** ** The assistant *)

Inductive AuthRequest :=
| auth_challenge (who : option json)
| auth_verify (challenge_id signature : string)
| auth_current
| auth_logout.

Definition authRequest (v : json) : option AuthRequest :=
  match v with
  | JObj ms =>
      match get_string ms "action" with
      | Some act =>
          if String.eqb act "challenge" then
            _ ← guard (strict_keys ["action"; "identity"]%string ms && unknown_member ms "identity");
            Some (auth_challenge (field ms "identity"))
          else if String.eqb act "verify" then
            _ ← guard (strict_keys ["action"; "challenge_id"; "signature"]%string ms);
            id ← get_string ms "challenge_id"; _ ← guard (is_uuid id);
            signature ← get_string ms "signature"; _ ← guard (bounded_text 512 signature);
            Some (auth_verify id signature)
          else if String.eqb act "current" then _ ← guard (strict_keys ["action"]%string ms); Some auth_current
          else if String.eqb act "logout" then _ ← guard (strict_keys ["action"]%string ms); Some auth_logout
          else None
      | None => None
      end
  | _ => None
  end.

(** The value that [challenge] parses; another one is no identity. *)
Definition identity_of (v : option json) : option Identity :=
  match v with
  | Some (JObj ms) =>
      _ ← guard (strict_keys ["actorId"; "organizationId"; "credentialId"; "address"]%string ms);
      actor ← get_string ms "actorId"; org ← get_string ms "organizationId"; credential ← get_string ms "credentialId";
      address_ ← get_string ms "address"; Some (mkIdentity actor org credential address_)
  | _ => None
  end.

Definition bearer (r : Request) : option string :=
  a ← authorization r; if startsWith "Bearer " a then Some (substring 7 (String.length a - 7) a) else None.

Definition requireSession (env : Environment) (r : Request) (s : Server) : Server * result SessionError ActorSession :=
  match bearer r with
  | None => (s, Throw Session.invalid)
  | Some token => let '(m, session) := require_session digest (sv_sessions s) token (env_now env) in (with_sessions m s, session)
  end.

Definition auth_handler (env : Environment) (r : Request) (s : Server) : Server * Outcome :=
  match authRequest (body r) with
  | None => (s, invalid_request)
  | Some (auth_challenge who) =>
      match identity_of who with
      | None => (s, invalid_request)
      | Some i =>
          let '(m, c) := challenge (sv_sessions s) i (env_uuid env) (env_nonce env) (env_now env) in
          (with_sessions m s,
           match c with
           | Ok c => replied 200 (challenge_body (challengeId c) (message c) (ch_expiresAt c))
           | Throw (session_error _) => denied
           | Throw zod_error => invalid_request
           end)
      end
  | Some (auth_verify id _) =>
      let '(m, c) := start_verify (sv_sessions s) id (env_now env) in
      (with_sessions m s, match c with Ok c => awaiting (awaits_verify c) | Throw _ => denied end)
  | Some auth_logout =>
      match bearer r with
      | None => (s, denied)
      | Some token => (with_sessions (logout digest (sv_sessions s) token (env_now env)) s, replied 200 logged_out_body)
      end
  | Some auth_current =>
      match bearer r with
      | None => (s, denied)
      | Some token =>
          let '(m, session) := require_session digest (sv_sessions s) token (env_now env) in
          (with_sessions m s, match session with Ok session => replied 200 (session_body session) | Throw _ => denied end)
      end
  end.

(** The answer is awaited under the number of its call. *)
Definition ask (query : json) (session : ActorSession) (correlation : string) (uuid : string) (s : Server) : Server :=
  with_service (answer is_uuid query session correlation uuid (sv_assistant s)) s.

Definition post_assistant_handler (env : Environment) (r : Request) (s : Server) : Server * Outcome :=
  let '(s, session) := requireSession env r s in
  match session with
  | Throw _ => (s, denied)
  | Ok session =>
      match assistantQuery is_uuid (body r) with
      | None => (s, invalid_request)
      | Some query =>
          (ask (query_json query) session (correlationId r) (env_uuid env) s,
           awaiting (awaits_answer (length (AssistantService.calls (sv_assistant s)))))
      end
  end.

Definition get_audit_handler (env : Environment) (r : Request) (s : Server) : Server * Outcome :=
  let '(s, session) := requireSession env r s in
  (s, match session with
      | Throw _ => denied
      | Ok session =>
          let requestId := match field (query_of r) "request_id" with Some (JStr id) => id | _ => "" end%string in
          if negb (startsWith "urn:evllm:assistant:" requestId) then invalid_request
          else replied 200 (audit_body (forRequest (AssistantService.audit (AssistantService.shared (sv_assistant s))) requestId session))
      end).

(** ** The research interface *)

Definition unavailable : Outcome := replied 503 (error_body "INTERFACE_RUNTIME_UNAVAILABLE").
Definition invalid_scenario : Outcome := replied 400 (error_body "INVALID_INTERFACE_SCENARIO").

(** [assistantRequest.safeParse(request.body)]: the question as trimmed, and the key *)
Definition interface_request (v : json) : option (string * option string) :=
  match v with
  | JObj ms =>
      _ ← guard (strict_keys ["question"; "idempotency_key"]%string ms);
      question ← trim <$> get_string ms "question"; _ ← guard (bounded_text 4000 question);
      match field ms "idempotency_key" with
      | None => Some (question, None)
      | Some (JStr key) => _ ← guard (is_uuid key); Some (question, Some key)
      | Some _ => None
      end
  | _ => None
  end.

Definition assessmentScenario (s : string) : option AssessmentScenario :=
  map_get s [("nominal", nominal); ("missing", scenario_missing); ("conflicting", scenario_conflicting)]%string.

(** The service gives [answer] a correlation identifier of its own, [env_nonce]. *)
Definition post_interface_handler (env : Environment) (r : Request) (s : Server) : Server * Outcome :=
  match research o with
  | None => (s, unavailable)
  | Some session =>
      match interface_request (body r) with
      | None => (s, invalid_scenario)
      | Some (question, key) =>
          (ask (query_json (interface_query question key (env_now env))) session (env_nonce env) (env_uuid env) s,
           awaiting (awaits_presentation (length (AssistantService.calls (sv_assistant s)))
             (resolve (trim question) (env_now env)) (trim question)))
      end
  end.

Definition get_scenario_handler (scenario : string) : Outcome :=
  match research o with
  | None => unavailable
  | Some _ =>
      match assessmentScenario scenario with
      | None => invalid_scenario
      | Some sc => match runAssessment sc with Ok p => replied 200 (scenario_body p) | Throw _ => raised end
      end
  end.

Definition get_status_handler : Outcome :=
  match research o with None => unavailable | Some _ => replied 200 static_body end.

(** ** The application *)

Definition not_found_route : Outcome := replied 404 (error_body "ROUTE_NOT_FOUND").

(** A router that is not configured has no routes. *)
Definition routed (present : bool) (h : Server -> Server * Outcome) (s : Server) : Server * Outcome :=
  if present then h s else (s, passed_on).

(** [next()] reaches the routes that are used later. *)
Definition or_next (h h' : Server -> Server * Outcome) (s : Server) : Server * Outcome :=
  match h s with (s, passed_on) => h' s | answered => answered end.

Definition reads (h : Server -> Outcome) (s : Server) : Server * Outcome := (s, h s).

(** The routes, in the order in which [createApp] uses the routers *)
Definition routes_of (env : Environment) (r : Request) : Server -> Server * Outcome :=
  match endpoint r with
  | get_page | get_styles | get_client => reads (fun _ => replied 200 static_body)
  | post_interface_assistant => post_interface_handler env r
  | get_interface_assessment scenario => reads (fun _ => get_scenario_handler scenario)
  | get_interface_status => reads (fun _ => get_status_handler)
  | get_evidence => routed (with_evidence o) (reads (get_evidence_handler r))
  | post_commands =>
      or_next (routed (with_evidence o) (post_evidence_handler env r)) (routed (with_marketplace o) (post_marketplace_handler env r))
  | get_assessments => routed (with_decision o) (reads (get_assessments_handler r))
  | get_rules => routed (with_decision o) (reads (get_rules_handler r))
  | get_marketplace => routed (with_marketplace o) (reads (fun _ => get_marketplace_handler r))
  | get_command id => routed (with_marketplace o) (reads (get_command_handler r id))
  | post_auth => routed (with_assistant o) (auth_handler env r)
  | post_assistant => routed (with_assistant o) (post_assistant_handler env r)
  | get_audit => routed (with_assistant o) (get_audit_handler env r)
  | get_live => reads (fun _ => replied 200 static_body)
  | get_ready => reads (fun _ => awaiting awaits_readiness)
  | get_metrics => reads (fun _ => replied 200 metrics_body)
  | other_route => reads (fun _ => passed_on)
  end.

(** [handleError] *)
Definition handleError (malformed_json : bool) : Outcome :=
  if malformed_json then replied 400 (error_body "INVALID_JSON") else replied 500 (error_body "INTERNAL_ERROR").

Definition handled (out : Outcome) : Outcome := match out with raised => handleError false | _ => out end.

(** A request whose body express has parsed; without a route for it, 404. *)
Definition serve (env : Environment) (r : Request) (s : Server) : Server * Outcome :=
  let '(s, out) := or_next (routes_of env r) (reads (fun _ => not_found_route)) s in (s, handled out).

(** ** After an await *)

Definition resume_verify (c : Session.Challenge) (a : Answers) (s : Server) : Server * Outcome :=
  let '(m, granted) := finish_verify digest (sv_sessions s) c a in
  (with_sessions m s, match granted with Ok (tok, session) => replied 200 (token_body tok session) | Throw _ => denied end).

(** The result of the call of [answer] that the handler awaits *)
Definition answered (call : nat) (s : Server) : option (result AssistantError AssistantResponse) :=
  match AssistantService.calls (sv_assistant s) !! call with Some (AssistantService.finished r) => Some r | _ => None end.

Definition idempotency_conflict : Outcome := replied 409 (error_body "IDEMPOTENCY_CONFLICT").

Definition resume_answer (call : nat) (s : Server) : Outcome :=
  match answered call s with
  | Some (Ok r) => replied 200 (answer_body r)
  | Some (Throw AssistantIdempotencyError) => idempotency_conflict
  | Some (Throw _) => invalid_request
  | None => awaiting (awaits_answer call)
  end.

Definition resume_presentation (call : nat) (resolved : ResolvedControlledQuestion) (question : string) (s : Server) : Outcome :=
  match answered call s with
  | Some (Ok r) => replied 200 (presentation_body (rs_caseId resolved) (rs_caseLabel resolved) question r)
  | Some (Throw AssistantIdempotencyError) => idempotency_conflict
  | Some (Throw _) => handled raised
  | None => awaiting (awaits_presentation call resolved question)
  end.

Definition gateway_error (code : GatewayCode) : string :=
  match code with
  | gw_conflict => "MARKETPLACE_CONFLICT" | gw_expired => "MARKETPLACE_EXPIRED" | gw_invalid => "MARKETPLACE_INVALID"
  | gw_signature => "MARKETPLACE_SIGNATURE" | gw_unknown => "MARKETPLACE_UNKNOWN"
  end.

Definition resume_submit (call : nat) (s : Server) : Outcome :=
  match Gateway.calls (sv_gateway s) !! call with
  | Some (Gateway.returned (Ok r)) => replied 202 (command_body r)
  | Some (Gateway.returned (Throw (MarketplaceGatewayError code))) => replied (http_status code) (error_body (gateway_error code))
  | Some (Gateway.returned (Throw (callback_error _))) => handled raised
  | _ => awaiting (awaits_submit call)
  end.

(** The [query] of the options has settled. *)
Definition resume_market (found : result unit json) : Outcome :=
  match found with Ok v => replied 200 (market_body v) | Throw _ => handled raised end.

Definition resume_readiness (checks : list ReadinessCheck) : Outcome :=
  let r := evaluateReadiness checks in replied (readiness_status r) (readiness_body r).
End Server.
