(* ===== verification/HttpProperties.v ===== *)
(** * What the HTTP interface lets a caller do

    Theorems over the routes of HttpRoutes.v: which requests a server answers with what, and
    that a server, whatever requests, answers of its collaborators and resumptions it sees in
    whatever order, drives its components only by their own operations and only for callers
    it has authorized. *)

From S2P Require Import Prelude Regex Digits Decimal Base64 Schemas Rules Assessment Support EvidenceLedger Storage Json Hex Signatures Protection KeyOperations Session AuditLedger EcmaRegExp Text SemanticTokens SemanticSupport AssistantTypes AssistantTools AssistantDecisions AssistantProse AssistantValidation AssistantService AssistantRuns Gateway InterfaceCases InterfaceAssessment Observability JsNumber Zod BundleSchemas DomainPayloads RecordModels HttpRoutes.

Local Open Scope Z_scope.
Local Open Scope list_scope.

Section Server.
Context `{CanonicalJson, Sha256} `{HL : LocaleCompare} {Error_ : Type}.
Context {HI : CanonicalHash (list RouteAssessmentInput)} {HR : CanonicalHash Reproduction}.
Context (digest : string -> string) (is_uuid : string -> bool) (absent_unknown : bool).
Context (hash_event : UnsignedAuditEvent -> string) (maxContextCharacters : Z).
Context (o : Options).

Notation Server := (@HttpRoutes.Server Error_).
Notation serve := (@HttpRoutes.serve _ _ Error_ _ _ digest is_uuid absent_unknown o).

(** ** What a server sees *)

Inductive Stimulus :=
| a_request (env : Environment) (r : Request)
| a_verdict (c : Session.Challenge) (a : Answers)
| of_assistant (e : AssistantService.event)
| of_gateway (e : Gateway.Event Error_).

Definition is_answer (e : AssistantService.event) : bool :=
  match e with AssistantService.ev_answer _ _ _ _ => true | _ => false end.
Definition is_submit (e : Gateway.Event Error_) : bool :=
  match e with Gateway.submit _ _ => true | _ => false end.

(** The challenge whose verification a request leaves awaited *)
Definition left_pending (out : Outcome) : list Session.Challenge :=
  match out with awaiting (awaits_verify c) => [c] | _ => [] end.

(** What the callbacks, the tools and the model do to the server; the calls of [answer] and of
    [submit] come from requests alone. *)
Inductive serves (s : Server) : list Session.Challenge -> Stimulus -> Server -> list Session.Challenge -> Prop :=
| serves_request ps env r :
    serves s ps (a_request env r) (serve env r s).1 (left_pending (serve env r s).2 ++ ps)
| serves_verdict ps qs c a :
    serves s (ps ++ c :: qs) (a_verdict c a) (resume_verify digest c a s).1 (ps ++ qs)
| serves_assistant ps e :
    is_answer e = false ->
    serves s ps (of_assistant e)
      (with_service (step_service hash_event is_uuid maxContextCharacters e (sv_assistant s)) s) ps
| serves_gateway ps e :
    is_submit e = false -> Gateway.awaited (sv_gateway s) e ->
    serves s ps (of_gateway e) (with_gateway (Gateway.step (sv_gateway s) e) s) ps.

Definition new_server (m : WalletSessionManager) (l : EvidenceLedger) (a : AssessmentLedger) (rules : DatedRuleRegistry) : Server :=
  mkServer m l a rules Gateway.new_gateway new_service.

(** A run of a server, latest first *)
Inductive served (s0 : Server) : list Stimulus -> Server -> list Session.Challenge -> Prop :=
| served_new : served s0 [] s0 []
| served_more xs s ps x s' ps' : served s0 xs s ps -> serves s ps x s' ps' -> served s0 (x :: xs) s' ps'.

(** ** What stands behind what the components did *)

(** A request in the run that [authorize] lets through for [operation] *)
Definition authorized_request (xs : list Stimulus) (operation : string) (P : Environment -> Request -> Prop) : Prop :=
  exists env r, a_request env r ∈ xs /\ authorize o r operation = true /\ P env r.

(** The commands of the ledger that requests carry *)
Definition ledger_call_of (env : Environment) (r : Request) (c : LedgerCall) : Prop :=
  match evidence_command absent_unknown (body r), c with
  | Some (activate_evidence prior (Some v)), call_activate p prior' at_ =>
      accepts evidenceClaimPayload v = true /\ p = evidence_of v /\ prior' = prior /\ at_ = env_now env
  | Some (revoke_evidence id v), call_revoke id' v' => id' = id /\ v' = v
  | _, _ => False
  end.

(** A session the assistant answers: the configured one of the research interface, or one that
    a [verify] stored after both verifiers agreed *)
Definition authentic (m0 : WalletSessionManager) (calls : list Session.Call) (session : ActorSession) : Prop :=
  research o = Some session \/ exists key, Session.earned digest m0 calls key session.

Record accounted (s0 : Server) (xs : list Stimulus) (s : Server) (ps : list Session.Challenge) (calls : list Session.Call)
    (commands : list LedgerCall) (submissions : list (Gateway.Event Error_))
    (events : list AssistantService.event) : Prop := {
  ac_sessions : Session.run digest (sv_sessions s0) calls (sv_sessions s) ps;
  ac_ledger : sv_evidence s = fold_left EvidenceLedger.run commands (sv_evidence s0);
  ac_commands : Forall (fun c => authorized_request xs "evidence.command" (fun env r => ledger_call_of env r c)) commands;
  ac_gateway : Gateway.reach submissions (sv_gateway s);
  ac_submissions : forall input at_, Gateway.submit input at_ ∈ submissions ->
    authorized_request xs "marketplace.command" (fun env r => input = body r /\ at_ = env_now env);
  ac_assistant : sv_assistant s = run_service hash_event is_uuid maxContextCharacters events;
  ac_answers : forall raw session correlation uuid, AssistantService.ev_answer raw session correlation uuid ∈ events ->
    authentic (sv_sessions s0) calls session;
  ac_kept : sv_rules s = sv_rules s0 /\ sv_assessments s = sv_assessments s0
}.

(** ** The effect of a request *)

Inductive effect (env : Environment) (r : Request) (s : Server) : Server -> list Session.Challenge -> Prop :=
| no_effect : effect env r s s []
| on_sessions m call new :
    (forall ps, Session.step digest (sv_sessions s) ps call m (new ++ ps)) -> effect env r s (with_sessions m s) new
| on_ledger c :
    authorize o r "evidence.command" = true -> ledger_call_of env r c ->
    effect env r s (with_ledger (EvidenceLedger.run (sv_evidence s) c) s) []
| on_gateway :
    authorize o r "marketplace.command" = true ->
    effect env r s (with_gateway (Gateway.step (sv_gateway s) (Gateway.submit (body r) (env_now env))) s) []
| on_interface query session correlation uuid :
    research o = Some session -> effect env r s (ask is_uuid query session correlation uuid s) []
| on_assistant query m tok session correlation uuid :
    require_session digest (sv_sessions s) tok (env_now env) = (m, Ok session) ->
    effect env r s (ask is_uuid query session correlation uuid (with_sessions m s)) [].
#[local] Hint Constructors effect : http.

(** A handler has an effect of these; one that passes the request on has none. *)
Definition behaves (env : Environment) (r : Request) (h : Server -> Server * Outcome) : Prop :=
  forall s, effect env r s (h s).1 (left_pending (h s).2) /\ ((h s).2 = passed_on -> (h s).1 = s).

Lemma reads_behaves env r h : (forall s, left_pending (h s) = []) -> behaves env r (reads h).
Proof. intros Hh s. simpl. rewrite Hh. split; [constructor|done]. Qed.

Lemma routed_behaves env r present h : behaves env r h -> behaves env r (routed present h).
Proof. intros Hh. destruct present; [exact Hh|]. split; [constructor|done]. Qed.

Lemma or_next_behaves env r h h' : behaves env r h -> behaves env r h' -> behaves env r (or_next h h').
Proof.
  intros Hh Hh' s. specialize (Hh s) as [He Hp]. unfold or_next. destruct (h s) as [s' []]; simpl in *; try by split.
  rewrite Hp by done. apply Hh'.
Qed.

Lemma activate_document_run l v prior at_ l' record :
  activate_document l (Some v) prior at_ = Ok (l', record) ->
  accepts evidenceClaimPayload v = true /\ l' = EvidenceLedger.run l (call_activate (evidence_of v) prior at_).
Proof. unfold activate_document. intros. case_match; simplify_eq. split; [done|]. unfold EvidenceLedger.run, keep. by case_match; simplify_eq. Qed.

Lemma evidence_behaves env r : behaves env r (post_evidence_handler absent_unknown o env r).
Proof.
  intros s. unfold post_evidence_handler. case_match; [split; [constructor|done]|].
  destruct (evidence_command absent_unknown (body r)) as [c|] eqn:Hc; [|split; [constructor|done]].
  destruct (authorize o r "evidence.command") eqn:Ha; [|split; [constructor|done]].
  cbv beta iota zeta delta [negb]. destruct (match c with activate_evidence _ _ => _ | _ => _ end) as [[l record]|e] eqn:Hl;
    [|split; [by destruct e; constructor|by destruct e]].
  split; [|done]. destruct c as [prior [v|]|id v]; [|done|].
  - apply activate_document_run in Hl as [Hv ->]. apply on_ledger; [done|]. unfold ledger_call_of. by rewrite Hc.
  - replace l with (EvidenceLedger.run (sv_evidence s) (call_revoke id v)) by (simpl; by rewrite Hl).
    apply on_ledger; [done|]. unfold ledger_call_of. by rewrite Hc.
Qed.

Lemma marketplace_behaves env r : behaves env r (post_marketplace_handler o env r).
Proof.
  intros s. unfold post_marketplace_handler. destruct (authorize o r _) eqn:Ha; simpl; (split; [|done]); by constructor.
Qed.

Lemma auth_behaves env r : behaves env r (auth_handler digest is_uuid absent_unknown env r).
Proof.
  intros s. unfold auth_handler. destruct (authRequest _ _ _) as [[who|id sig| |]|]; [| | | |split; [constructor|done]].
  - destruct (identity_of who) as [i|]; [|split; [constructor|done]].
    destruct (challenge _ _ _ _ _) as [m c] eqn:Hc. split; [|by destruct c as [|[]]].
    replace (left_pending _) with (@nil Session.Challenge) by (by destruct c as [|[]]).
    eapply (on_sessions _ _ _ m (call_challenge i (env_uuid env) (env_nonce env) (env_now env))). intros ps. simpl.
    replace m with (challenge (sv_sessions s) i (env_uuid env) (env_nonce env) (env_now env)).1 by (by rewrite Hc). constructor.
  - destruct (start_verify _ _ _) as [m c] eqn:Hc. split; [|by destruct c].
    eapply (on_sessions _ _ _ m (call_start id (env_now env))). intros ps. pose proof (Session.step_start digest (sv_sessions s) ps id (env_now env)) as Hs.
    rewrite Hc in Hs. by destruct c.
  - destruct (bearer r) as [tok|]; [|split; [constructor|done]].
    destruct (require_session _ _ _ _) as [m c] eqn:Hc. split; [|by destruct c].
    replace (left_pending _) with (@nil Session.Challenge) by (by destruct c).
    eapply (on_sessions _ _ _ m (call_require tok (env_now env))). intros ps. simpl.
    replace m with (require_session digest (sv_sessions s) tok (env_now env)).1 by (by rewrite Hc). constructor.
  - destruct (bearer r) as [tok|]; [|split; [constructor|done]]. split; [|done].
    eapply (on_sessions _ _ _ _ (call_logout tok (env_now env))). intros ps. constructor.
Qed.

(** [require] leaves a state of the session manager that it can reach. *)
Lemma require_step m tok now m' session ps :
  require_session digest m tok now = (m', session) -> Session.step digest m ps (call_require tok now) m' ps.
Proof. intros Hr. replace m' with (require_session digest m tok now).1 by (by rewrite Hr). constructor. Qed.

Lemma requireSession_cases env r (s : Server) :
  (exists e, requireSession digest env r s = (s, Throw e)) \/
  exists tok m session, require_session digest (sv_sessions s) tok (env_now env) = (m, session) /\
    requireSession digest env r s = (with_sessions m s, session).
Proof.
  unfold requireSession. destruct (bearer r) as [tok|]; [|left; by eexists]. right.
  destruct (require_session _ _ _ _) as [m session] eqn:Hr. by exists tok, m, session.
Qed.

Lemma session_behaves env r (h : ActorSession -> Server -> Outcome) :
  (forall session s, left_pending (h session s) = [] /\ h session s <> passed_on) ->
  behaves env r (fun s => let '(s, session) := requireSession digest env r s in
    (s, match session with Throw _ => denied | Ok session => h session s end)).
Proof.
  intros Hh s. destruct (requireSession_cases env r s) as [(e & ->)|(tok & m & session & Hr & ->)]; [split; [constructor|done]|].
  simpl. split; [|destruct session as [session|]; [by intros ?%Hh|done]].
  replace (left_pending _) with (@nil Session.Challenge) by (destruct session as [session|]; [by destruct (Hh session (with_sessions m s)) as [-> _]|done]).
  eapply on_sessions. intros ps. by eapply require_step.
Qed.

Lemma assistant_behaves env r : behaves env r (post_assistant_handler digest is_uuid env r).
Proof.
  intros s. unfold post_assistant_handler.
  destruct (requireSession_cases env r s) as [(e & ->)|(tok & m & session & Hr & ->)]; [split; [constructor|done]|].
  destruct session as [session|e]; [|split; [|done]; eapply on_sessions; intros ps; by eapply require_step].
  destruct (assistantQuery _ _); [split; [|done]; by eapply on_assistant|].
  split; [|done]. eapply on_sessions. intros ps. by eapply require_step.
Qed.

Lemma interface_behaves env r : behaves env r (post_interface_handler is_uuid o env r).
Proof.
  intros s. unfold post_interface_handler. destruct (research o) as [session|] eqn:Ho; [|split; [constructor|done]].
  destruct (interface_request is_uuid (body r)) as [[question key]|]; (split; [|done]); by econstructor.
Qed.

#[local] Hint Resolve reads_behaves routed_behaves or_next_behaves evidence_behaves marketplace_behaves auth_behaves
  assistant_behaves interface_behaves : http.

(** What a handler that does not await a verification leaves pending *)
Ltac nothing_pending := repeat (case_match; try done).

Lemma audit_behaves env r : behaves env r (get_audit_handler digest env r).
Proof. apply (session_behaves env r (fun session s => _)). intros session s. by case_match. Qed.

Lemma routes_behave env r : behaves env r (routes_of digest is_uuid absent_unknown o env r).
Proof.
  unfold routes_of. destruct (endpoint r); auto using audit_behaves with http;
    try apply routed_behaves; apply reads_behaves; intros s;
    unfold get_evidence_handler, get_assessments_handler, get_rules_handler, get_marketplace_handler, get_command_handler,
      get_scenario_handler, get_status_handler; nothing_pending.
Qed.

Lemma serve_effect env r s : effect env r s (serve env r s).1 (left_pending (serve env r s).2).
Proof.
  pose proof (or_next_behaves env r _ (reads (fun _ => not_found_route)) (routes_behave env r)
    (reads_behaves env r (fun _ => not_found_route) (fun _ => eq_refl)) s) as [He _].
  unfold HttpRoutes.serve. destruct (or_next _ _ s) as [s' out]. by destruct out.
Qed.

(** ** Runs of a server *)

Lemma authorized_more xs x operation P : authorized_request xs operation P -> authorized_request (x :: xs) operation P.
Proof. intros (env & r & Hin & H'). exists env, r. split; [by right|done]. Qed.

Lemma authentic_more m0 calls call session : authentic m0 calls session -> authentic m0 (call :: calls) session.
Proof. intros [|(key & He)]; [by left|right; exists key]. by apply Session.earned_cons. Qed.

Definition explained (s0 : Server) (xs : list Stimulus) (s : Server) (ps : list Session.Challenge) : Prop :=
  exists calls commands submissions events, accounted s0 xs s ps calls commands submissions events.

Lemma forall_commands_more xs x commands :
  Forall (fun c => authorized_request xs "evidence.command" (fun env r => ledger_call_of env r c)) commands ->
  Forall (fun c => authorized_request (x :: xs) "evidence.command" (fun env r => ledger_call_of env r c)) commands.
Proof. intros Hf. eapply Forall_impl; [exact Hf|]. intros c. apply authorized_more. Qed.

(** The session manager alone changes. *)
Lemma accounted_sessions s0 xs x s ps calls commands submissions events call m ps' :
  accounted s0 xs s ps calls commands submissions events -> Session.step digest (sv_sessions s) ps call m ps' ->
  accounted s0 (x :: xs) (with_sessions m s) ps' (call :: calls) commands submissions events.
Proof.
  intros [] Hs. split; simpl; auto using forall_commands_more; try (intros; apply authorized_more; eauto);
    try (intros; apply authentic_more; eauto). by econstructor.
Qed.

(** The session manager does not change. *)
Lemma accounted_more s0 xs x s ps calls commands submissions events :
  accounted s0 xs s ps calls commands submissions events -> accounted s0 (x :: xs) s ps calls commands submissions events.
Proof. intros []. split; auto using forall_commands_more. intros; apply authorized_more; eauto. Qed.

Lemma accounted_service s0 xs s ps calls commands submissions events e :
  accounted s0 xs s ps calls commands submissions events ->
  (forall raw session correlation uuid, e = AssistantService.ev_answer raw session correlation uuid ->
     authentic (sv_sessions s0) calls session) ->
  accounted s0 xs (with_service (step_service hash_event is_uuid maxContextCharacters e (sv_assistant s)) s) ps calls
    commands submissions (events ++ [e]).
Proof.
  intros [? ? ? ? ? Ha Hans ?] He. split; simpl; auto; [by rewrite run_snoc, Ha|].
  intros raw session correlation uuid [Hin| <-%list_elem_of_singleton]%elem_of_app; eauto.
Qed.

Lemma accounted_gateway s0 xs s ps calls commands submissions events e :
  accounted s0 xs s ps calls commands submissions events -> Gateway.awaited (sv_gateway s) e ->
  (forall input at_, e = Gateway.submit input at_ ->
     authorized_request xs "marketplace.command" (fun env r => input = body r /\ at_ = env_now env)) ->
  accounted s0 xs (with_gateway (Gateway.step (sv_gateway s) e) s) ps calls commands (submissions ++ [e]) events.
Proof.
  intros [? ? ? ? Hsub ? ? ?] Hw He. split; simpl; auto; [by constructor|].
  intros input at_ [Hin| <-%list_elem_of_singleton]%elem_of_app; eauto.
Qed.

(** A session [require] grants is one that a [verify] stored. *)
Lemma granted_earned lifetime limits m0 calls m ps tok now m' session :
  new_manager lifetime limits = Some m0 -> Session.run digest m0 calls m ps ->
  require_session digest m tok now = (m', Ok session) ->
  Session.earned digest m0 calls (digest tok) session /\ now < s_expiresAt session.
Proof.
  intros Hn Hr. unfold require_session. destruct (map_get _ _) as [s|] eqn:Hs; [|done].
  destruct (Z.leb_spec (s_expiresAt s) now); [done|]. intros [= _ <-]. split; [|lia].
  by eapply Session.run_sessions; [eapply Session.run_is_ok|].
Qed.

Lemma ask_step query session correlation uuid (s : Server) :
  ask is_uuid query session correlation uuid s =
  with_service (step_service hash_event is_uuid maxContextCharacters
    (AssistantService.ev_answer query session correlation uuid) (sv_assistant s)) s.
Proof. done. Qed.

Lemma accounted_request lifetime limits s0 xs s ps calls commands submissions events env r s' new :
  new_manager lifetime limits = Some (sv_sessions s0) ->
  accounted s0 xs s ps calls commands submissions events -> effect env r s s' new -> explained s0 (a_request env r :: xs) s' (new ++ ps).
Proof.
  intros Hn Ha He. assert (a_request env r ∈ a_request env r :: xs) as Hin by constructor.
  pose proof (accounted_more s0 xs (a_request env r) s ps _ _ _ _ Ha) as Hm.
  destruct He as [|m call new Hs|c Hc Hcall|Hc|query session correlation uuid Ho|query m tok session correlation uuid Hr].
  - by exists calls, commands, submissions, events.
  - exists (call :: calls), commands, submissions, events. by apply (accounted_sessions s0 xs _ s ps).
  - exists calls, (commands ++ [c]), submissions, events. destruct Hm. split; simpl; auto.
    + rewrite fold_left_app. simpl. congruence.
    + apply Forall_app. split; [done|]. apply Forall_singleton. by exists env, r.
  - exists calls, commands, (submissions ++ [Gateway.submit (body r) (env_now env)]), events. apply accounted_gateway; [done|done|].
    intros ? ? [= <- <-]. by exists env, r.
  - exists calls, commands, submissions, (events ++ [AssistantService.ev_answer query session correlation uuid]).
    rewrite ask_step. apply accounted_service; [done|]. intros ? ? ? ? [= <- <- <- <-]. by left.
  - exists (call_require tok (env_now env) :: calls), commands, submissions,
      (events ++ [AssistantService.ev_answer query session correlation uuid]).
    rewrite ask_step. apply accounted_service.
    { eapply accounted_sessions; [done|]. by eapply require_step. }
    intros ? ? ? ? [= <- <- <- <-]. right. exists (digest tok). apply Session.earned_cons.
    destruct Ha. by eapply granted_earned.
Qed.

(** C6. A server drives its components only by their own operations, and only for callers it has
    authorized. After any run (requests, verifications that resume, answers of tools, model and
    callbacks, in any order) the sessions are those of a run of the session manager; the evidence
    ledger holds exactly the commands that authorized requests carried, with payloads of their
    schema; the gateway is reached by submissions that authorized requests carried; the assistant's
    state is a run of its service in which every query was asked with the configured session of the
    research interface or with one that a verification granted; rules and assessments never change.
    So what is proved of each component holds of the server's. *)
Theorem server_accounted lifetime limits m l a rules xs s ps :
  new_manager lifetime limits = Some m ->
  served (new_server m l a rules) xs s ps -> explained (new_server m l a rules) xs s ps.
Proof.
  intros Hn. induction 1 as [|xs s ps x s' ps' _ (calls & commands & submissions & events & Ha) Hs].
  { exists [], [], [], []. split; simpl; auto using Session.run_nil, Gateway.reach_new.
    - by intros ? ? ?%not_elem_of_nil.
    - by intros ? ? ? ? ?%not_elem_of_nil. }
  destruct Hs as [ps env r|ps qs c an|ps e He|ps e He Hw].
  - by eapply accounted_request; [|exact Ha|apply serve_effect].
  - exists (call_finish c an :: calls), commands, submissions, events. unfold resume_verify.
    pose proof (Session.step_finish digest (sv_sessions s) ps qs c an) as Hs.
    destruct (finish_verify _ _ _ _) as [m' granted]. by eapply accounted_sessions.
  - exists calls, commands, submissions, (events ++ [e]). apply accounted_service; [by apply accounted_more|].
    by intros ? ? ? ? ->.
  - exists calls, commands, (submissions ++ [e]), events. apply accounted_gateway; [by apply accounted_more|done|].
    by intros ? ? ->.
Qed.

(** An activation whose payload its schema refuses is neither refused as a request (400) nor as a
    command (409): the error of the schema is not the ledger's, and the reply is that of an
    unexpected failure. *)
Lemma refused_payload_fails env r s prior v :
  endpoint r = post_commands -> with_evidence o = true -> authorize o r "evidence.command" = true ->
  isEvidenceCommand (body r) = true -> evidence_command absent_unknown (body r) = Some (activate_evidence prior (Some v)) ->
  accepts evidenceClaimPayload v = false -> serve env r s = (s, replied 500 (error_body "INTERNAL_ERROR")).
Proof.
  intros Hr Hw Ha Hk Hc Hv. unfold HttpRoutes.serve, or_next, routes_of, or_next, routed. rewrite Hr, Hw.
  unfold post_evidence_handler. rewrite Hk, Hc, Ha. cbv beta iota zeta delta [negb]. unfold activate_document. by rewrite Hv.
Qed.

(** ** What a reply discloses *)

(** The caller's token is that of an unexpired session of the server. *)
Definition session_of_caller (env : Environment) (r : Request) (s : Server) (session : ActorSession) : Prop :=
  exists tok, bearer r = Some tok /\ map_get (digest tok) (sessions (sv_sessions s)) = Some session /\
    env_now env < s_expiresAt session.

Definition disclosed (env : Environment) (r : Request) (s : Server) (b : Body) : Prop :=
  match b with
  | evidence_body c h =>
      authorize o r "evidence.read" = true /\
      exists id, EvidenceLedger.current (sv_evidence s) id = Ok c /\ h = claim_history (sv_evidence s) id
  | assessment_body c h =>
      authorize o r "assessment.read" = true /\
      exists id, current_assessment (sv_assessments s) id = Ok c /\ h = Support.history (sv_assessments s) id
  | rule_body rule =>
      authorize o r "rule.read" = true /\
      exists asOf where_ ruleId scope, selectRule (sv_rules s) asOf where_ ruleId scope = Ok rule
  | record_body _ => authorize o r "evidence.command" = true
  | command_body c => authorize o r "marketplace.command.read" = true /\ exists id, result_of (Gateway.commands (sv_gateway s)) id = Ok c
  | session_body session => session_of_caller env r s session
  | audit_body events =>
      exists session, session_of_caller env r s session /\
        events ⊆ AssistantService.audit (AssistantService.shared (sv_assistant s)) /\
        Forall (fun e => ae_actor_id (unsigned e) = actorId (s_identity session) /\
                         ae_organization_id (unsigned e) = organizationId (s_identity session)) events
  | scenario_body _ => is_Some (research o)
  | token_body _ _ | answer_body _ | presentation_body _ _ _ _ | market_body _ | readiness_body _ => False
  | error_body _ | static_body | metrics_body | challenge_body _ _ _ | logged_out_body => True
  end.

(** What [out] replies or awaits is disclosed to a caller who may see it. *)
Definition guarded (env : Environment) (r : Request) (s : Server) (out : Outcome) : Prop :=
  match out with
  | replied _ b => disclosed env r s b
  | awaiting (awaits_market _ _) => authorize o r "marketplace.read" = true
  | awaiting (awaits_submit _) => authorize o r "marketplace.command" = true
  | awaiting (awaits_answer _) => exists session, session_of_caller env r s session
  | awaiting (awaits_presentation _ _ _) => is_Some (research o)
  | awaiting _ | passed_on | raised => True
  end.

Definition guards (env : Environment) (r : Request) (h : Server -> Server * Outcome) : Prop := forall s, guarded env r s (h s).2.

Lemma routed_guards env r present h : guards env r h -> guards env r (routed present h).
Proof. by destruct present. Qed.

Lemma or_next_guards env r h h' : behaves env r h -> guards env r h -> guards env r h' -> guards env r (or_next h h').
Proof.
  intros Hb Hg Hg' s. specialize (Hb s) as [_ Hp]. specialize (Hg s). unfold or_next. destruct (h s) as [s' []]; simpl in *; try done.
  rewrite Hp by done. apply Hg'.
Qed.

Lemma reads_guards env r h : (forall s, guarded env r s (h s)) -> guards env r (reads h).
Proof. done. Qed.

(** The branches of a handler that reads: refusals disclose nothing, and the rest is what the
    handler found. *)
Ltac by_branches :=
  intros s;
  repeat match goal with |- context [authorize ?o ?r ?op] => let Ha := fresh "Ha" in destruct (authorize o r op) eqn:Ha end;
  simpl; try done; repeat (case_match; simpl; try done); eauto 10.

Lemma evidence_reading env r : guards env r (reads (get_evidence_handler o r)).
Proof. unfold get_evidence_handler. by_branches. Qed.

Lemma evidence_writes env r : guards env r (post_evidence_handler absent_unknown o env r).
Proof.
  intros s. unfold post_evidence_handler. case_match; [done|]. case_match; [|done].
  destruct (authorize o r "evidence.command") eqn:Ha; [|done]. cbv beta iota zeta delta [negb].
  destruct (match e with activate_evidence _ _ => _ | _ => _ end) as [[l record]|err]; [done|by destruct err].
Qed.

Lemma assessments_read env r : guards env r (reads (get_assessments_handler o r)).
Proof. unfold get_assessments_handler. by_branches. Qed.

Lemma rules_read env r : guards env r (reads (get_rules_handler o r)).
Proof. unfold get_rules_handler. by_branches. Qed.

Lemma market_read env r : guards env r (reads (fun _ => get_marketplace_handler o r)).
Proof. unfold get_marketplace_handler. by_branches. Qed.

Lemma market_writes env r : guards env r (post_marketplace_handler o env r).
Proof. unfold post_marketplace_handler. by_branches. Qed.

Lemma commands_read env r id : guards env r (reads (get_command_handler o r id)).
Proof. unfold get_command_handler. by_branches. Qed.

Lemma interface_posts env r : guards env r (post_interface_handler is_uuid o env r).
Proof. intros s. unfold post_interface_handler. repeat (case_match; simpl; try done). Qed.

Lemma scenarios_read env r scenario : guards env r (reads (fun _ => get_scenario_handler o scenario)).
Proof.
  intros s. unfold reads, get_scenario_handler. destruct (research o) as [session|] eqn:Ho; [|exact Logic.I].
  destruct (assessmentScenario scenario) as [sc|]; [|exact Logic.I]. destruct (runAssessment sc) as [p|e]; [by exists session|exact Logic.I].
Qed.

Lemma status_read env r : guards env r (reads (fun _ => get_status_handler o)).
Proof. intros s. unfold get_status_handler. by case_match. Qed.

(** A session that [require] grants is in the tables. *)
Lemma granted_of_caller env r (s : Server) s' session :
  requireSession digest env r s = (s', Ok session) ->
  session_of_caller env r s session /\ sv_assistant s' = sv_assistant s.
Proof.
  unfold requireSession. intros Hr. destruct (bearer r) as [tok|] eqn:Hb; [|done].
  destruct (require_session _ _ _ _) as [m granted] eqn:Hq. injection Hr as <- ->. split; [|done].
  exists tok. split; [done|]. unfold require_session in Hq. destruct (map_get _ _) as [found|]; [|done].
  destruct (Z.leb_spec (s_expiresAt found) (env_now env)); [done|]. injection Hq as _ <-. split; [done|lia].
Qed.

Lemma auth_guards env r : guards env r (auth_handler digest is_uuid absent_unknown env r).
Proof.
  intros s. unfold auth_handler. destruct (authRequest _ _ _) as [[who|id sig| |]|]; [| | | |done].
  - case_match; [|done]. destruct (challenge _ _ _ _ _) as [m [|[]]]; done.
  - by destruct (start_verify _ _ _) as [m []].
  - pose proof (granted_of_caller env r s) as Hg. unfold requireSession in Hg. destruct (bearer r) as [tok|]; [|done].
    destruct (require_session _ _ _ _) as [m [session|]]; [|done]. simpl. by eapply Hg.
  - by case_match.
Qed.

Lemma assistant_posts env r : guards env r (post_assistant_handler digest is_uuid env r).
Proof.
  intros s. unfold post_assistant_handler. destruct (requireSession _ _ _ _) as [s' [session|]] eqn:Hr; [|done].
  apply granted_of_caller in Hr as [Hs _]. case_match; simpl; eauto.
Qed.

Lemma audit_read env r : guards env r (get_audit_handler digest env r).
Proof.
  intros s. unfold get_audit_handler. destruct (requireSession _ _ _ _) as [s' [session|]] eqn:Hr; [|done].
  apply granted_of_caller in Hr as [Hs Ha]. simpl. case_match; [done|]. simpl. exists session. split; [done|]. rewrite Ha. split.
  - intros e He%list_elem_of_filter. tauto.
  - apply Forall_forall. intros e [(_ & ? & ?) _]%list_elem_of_filter. done.
Qed.

Lemma routes_guard env r : guards env r (routes_of digest is_uuid absent_unknown o env r).
Proof.
  unfold routes_of. destruct (endpoint r); try apply routed_guards;
    try first [apply evidence_reading|apply assessments_read|apply rules_read|apply market_read|apply commands_read|
      apply interface_posts|apply scenarios_read|apply status_read|apply auth_guards|apply assistant_posts|apply audit_read|
      by intros s].
  apply or_next_guards; [apply routed_behaves, evidence_behaves|apply routed_guards, evidence_writes|apply routed_guards, market_writes].
Qed.

(** C7. Nothing is disclosed and nothing is started for a caller who may not: of every request, in
    every state of the server, evidence, assessments, rules and results of commands are replied
    only where [authorize] allows the operation, and they are what the component holds; a session
    and an audit trail are replied only to the bearer of an unexpired session's token, the trail
    with the events of that session's actor and organization alone; queries of the assistant and
    commands of the marketplace are accepted only from such a caller; and no reply carries a
    token, an answer or a market record before its handler has awaited it. *)
Theorem replies_guarded env r s : guarded env r s (serve env r s).2.
Proof.
  assert (Hg : guarded env r s (or_next (routes_of digest is_uuid absent_unknown o env r) (reads (fun _ => not_found_route)) s).2).
  { apply or_next_guards; [apply routes_behave|apply routes_guard|by intros ?]. }
  unfold HttpRoutes.serve. destruct (or_next _ _ s) as [s' []]; done.
Qed.
End Server.

(** ** A concrete run: a caller asks for a challenge, answers it and queries the assistant. *)

Module HttpSample.
#[local] Existing Instance code_unit_locale.
#[local] Instance inputs_hash : CanonicalHash (list RouteAssessmentInput) := fun _ => mkDigest "SHA-256" "d".
#[local] Instance reproduction_hash : CanonicalHash Reproduction := fun _ => mkDigest "SHA-256" "d".

Definition options : Options := mkOptions (fun _ _ => false) true true true true None.
Definition manager_ : WalletSessionManager := mkManager [] [] 300 1024 1024 900.
Definition at_time (now : Z) : Environment := mkEnvironment now "c1" "n".
Definition asks (e : Endpoint) (token_ : option string) (v : json) : Request := mkRequest e token_ [] v "correlation".

Definition challenge_request : Request :=
  asks post_auth None (JObj [("action", JStr "challenge");
    ("identity", JObj [("actorId", JStr "urn:evllm:actor:a"); ("organizationId", JStr "urn:evllm:org:o");
                       ("credentialId", JStr "urn:evllm:credential:c");
                       ("address", JStr "0x00112233445566778899aabbccddeeff00112233")])])%string.
Definition verify_request : Request :=
  asks post_auth None (JObj [("action", JStr "verify"); ("challenge_id", JStr "c1"); ("signature", JStr "0x01")])%string.
Definition query_request : Request :=
  asks post_assistant (Some "Bearer tok") (JObj [("question", JStr "What is it?"); ("purpose_id", JStr "urn:evllm:purpose:00000000-0000-4000-8000-000000000001");
    ("as_of", JNum 1); ("requests", JArr [JObj [("tool", JStr "facts"); ("arguments", JObj [])]])])%string.

Notation serve_ := (@serve _ _ unit _ _ (fun s => s) (fun _ => true) false options).
Notation resume_ := (@resume_verify unit (fun s => s)).

Definition server0 : Server (Error_ := unit) := new_server manager_ EvidenceLedger.empty_ledger [] empty_registry.
Definition server1 : Server (Error_ := unit) := (serve_ (at_time 100) challenge_request server0).1.
Definition server2 : Server (Error_ := unit) := (serve_ (at_time 120) verify_request server1).1.
Definition challenge1 : Session.Challenge :=
  mkChallenge Session.Sample.who "c1" (challenge_message Session.Sample.who "c1" "n" 400) 400.
Definition server3 : Server (Error_ := unit) := (resume_ challenge1 Session.Sample.answers server2).1.
Definition server4 : Server (Error_ := unit) := (serve_ (at_time 200) query_request server3).1.
Definition stimuli : list (Stimulus (Error_ := unit)) :=
  [a_request (at_time 200) query_request; a_verdict challenge1 Session.Sample.answers;
   a_request (at_time 120) verify_request; a_request (at_time 100) challenge_request].

Notation served_ := (served (fun s => s) (fun _ => true) false event_id 12000 options).

Lemma step_request (s : Server (Error_ := unit)) ps new env r :
  left_pending (serve_ env r s).2 = new ->
  serves (fun s => s) (fun _ => true) false event_id 12000 options s ps (a_request env r) (serve_ env r s).1 (new ++ ps).
Proof. intros <-. apply serves_request. Qed.

Lemma sample_served : served_ server0 stimuli server4 [].
Proof.
  eapply served_more; [eapply served_more; [eapply served_more; [eapply served_more; [constructor|]|]|]|].
  - apply (step_request server0 [] []). vm_compute. reflexivity.
  - apply (step_request server1 [] [challenge1]). vm_compute. reflexivity.
  - apply (serves_verdict _ _ _ _ _ _ server2 [] [] challenge1).
  - apply (step_request server3 [] []). vm_compute. reflexivity.
Qed.

(** The query is under way, for the session that the verification granted. *)
Lemma server_accounted_witness :
  run_session <$> runs (sv_assistant server4) = [session_of manager_ challenge1 Session.Sample.answers] /\
  explained (fun s => s) (fun _ => true) false event_id 12000 options server0 stimuli server4 [].
Proof.
  split; [vm_compute; reflexivity|].
  apply (server_accounted (fun s => s) (fun _ => true) false event_id 12000 options 900 Session.Sample.no_limits manager_
           EvidenceLedger.empty_ledger [] empty_registry); [reflexivity|exact sample_served].
Defined.
End HttpSample.
