(* ===== verification/FileStore.v ===== *)
(** * The file store

    [src/src/protected-bundles/storage/filesystem.ts] ([FilesystemObjectStore]): the objects
    of an organization are the files of one directory.

    The file system is the one shared state: directory entries are names of files (two
    names may be of one file, after [link]), and a file stays readable through an open handle
    when its entry is removed. Every operation of the store is a [Call] that goes through
    phases, one for each awaited call of the file system ([advance]); [step] interleaves any
    number of calls of any number of stores. A call of the file system may fail for a reason
    of its own ([fault]), after writing a part of a chunk ([written]); a process that stops is
    a call that is not advanced any more. The module [Alone] runs one call without
    interference, to compare the store with the one in memory.

    Modelled of [node:fs]: [stat], [open] with [wx], [FileHandle.writeFile] (which appends at
    the handle's position), [link], [unlink], [readFile]. Durability after [sync], and
    directories other than the store's own, are not. *)

From S2P Require Import Prelude Regex Digits Base64 Schemas Text Hex Storage.

(** ** Paths *)

(** An absolute path, segment by segment *)
Definition path := list string.

(** [resolve] of [node:path]: one segment, then an argument *)
Definition resolve_segment (base : path) (segment : string) : path :=
  if String.eqb segment "" || String.eqb segment "." then base
  else if String.eqb segment ".." then take (pred (length base)) base
  else base ++ [segment].

Definition slash : ascii := "/"%char.

Definition absolute (p : string) : bool :=
  match p with String c _ => bool_decide (c = slash) | EmptyString => false end.

Definition resolve (base : path) (p : string) : path :=
  fold_left resolve_segment (split slash p) (if absolute p then [] else base).

(** ** The file system *)

(** [entries]: the number of the file a name is of; [files]: what the files hold, in the
    order they were made. A file without an entry keeps its place. *)
Record Disk := mkDisk { entries : gmap path nat; files : list bytes }.

(** What is thrown: an [ObjectStoreError], or the error of a file system call, by its [code] *)
Inductive Failure := StoreError (c : ObjectStoreErrorCode) | Errno (c : string).

#[global] Instance ObjectStoreErrorCode_eq_dec : EqDecision ObjectStoreErrorCode.
Proof. solve_decision. Defined.

#[global] Instance Failure_eq_dec : EqDecision Failure.
Proof. solve_decision. Defined.

Definition error_code (e : Failure) : string :=
  match e with
  | StoreError aborted => "aborted"
  | StoreError invalid_object_id => "invalid-object-id"
  | StoreError object_too_large => "object-too-large"
  | StoreError store_unavailable => "unavailable"
  | Errno c => c
  end.

Definition hasCode (e : Failure) (code : string) : bool := String.eqb (error_code e) code.

Definition content (d : Disk) (p : path) : option bytes := i ← entries d !! p; files d !! i.

Definition stat (d : Disk) (p : path) : result Failure Z :=
  defined (byteLength <$> content d p) (Errno "ENOENT").

(** [open(p, "wx")]: the new file's handle *)
Definition open_new (d : Disk) (p : path) : result Failure (Disk * nat) :=
  _ ← require (bool_decide (entries d !! p = None)) (Errno "EEXIST");
  Ok (mkDisk (<[p := length (files d)]> (entries d)) (files d ++ [[]]), length (files d)).

(** [open(p, "r")] *)
Definition open_read (d : Disk) (p : path) : result Failure nat := defined (entries d !! p) (Errno "ENOENT").

(** [handle.writeFile(b)] *)
Definition append (d : Disk) (handle : nat) (b : bytes) : Disk :=
  mkDisk (entries d) (alter (fun old => old ++ b) handle (files d)).

Definition link (d : Disk) (existing new : path) : result Failure Disk :=
  i ← defined (entries d !! existing) (Errno "ENOENT");
  _ ← require (bool_decide (entries d !! new = None)) (Errno "EEXIST");
  Ok (mkDisk (<[new := i]> (entries d)) (files d)).

Definition unlink (d : Disk) (p : path) : result Failure Disk :=
  _ ← defined (entries d !! p) (Errno "ENOENT");
  Ok (mkDisk (base.delete p (entries d)) (files d)).

(** ** The store *)

Record FilesystemObjectStore := mkStore { directory : path; maxObjectBytes : Z }.

#[global] Instance FilesystemObjectStore_eq_dec : EqDecision FilesystemObjectStore.
Proof. solve_decision. Defined.

(** The constructor; [root] is [rootDirectory] resolved against the working directory. *)
Definition open_store (root : path) (organizationId : string) (maximum : Z) : option FilesystemObjectStore :=
  k ← Memory.namespaceKey organizationId; Some (mkStore (resolve root k) maximum).

(** [private path(objectId)] *)
Definition path_of (s : FilesystemObjectStore) (objectId : string) : result Failure path :=
  o ← lift_err StoreError (Memory.validateObjectId objectId); Ok (resolve (directory s) o).

(** [`.pending-${randomBytes(16).toString("hex")}`] *)
Definition pending (random : bytes) : string := ".pending-" +:+ to_hex random.

Inductive Operation :=
| Delete (objectId : string)
| Get (objectId : string) (aborted_at_call : bool)
| Head (objectId : string)
| Health
| Put (objectId : string) (source : list Memory.chunk) (aborted_at_call : bool).

Record Call := mkCall { store_of : FilesystemObjectStore; operation : Operation }.

#[global] Instance Operation_eq_dec : EqDecision Operation.
Proof. solve_decision. Defined.

#[global] Instance Call_eq_dec : EqDecision Call.
Proof. solve_decision. Defined.

Inductive Answer :=
| Was_deleted (b : bool)
| Chunks (cs : list bytes)
| Head_of (n : option Z)
| Health_is (ready : bool)
| Put_result (r : PutIfAbsentResult).

(** Where a call is: each phase is before one awaited call of the file system. [Starting]:
    [mkdir] of [initialize]. A put: [Heading] and [Stating] ([this.head]), [Opening], [Writing]
    (the handle, the length so far, the chunks to come), [Syncing], [Closing], [Linking],
    [Raced] ([stat] after [EEXIST]), [Cleaning] (the [finally]: closing again changes
    nothing). A get: [Finding], [Reading]. [Acting]: the [unlink] of a delete, the [stat] of a
    head, the [access] of a health check. *)
Inductive Phase :=
| Starting
| Heading (destination : path)
| Stating (destination : path)
| Opening (destination : path)
| Writing (destination temporary : path) (handle : nat) (length : Z) (rest : list Memory.chunk)
| Syncing (destination temporary : path) (handle : nat) (length : Z)
| Closing (destination temporary : path) (handle : nat) (length : Z)
| Linking (destination temporary : path) (length : Z)
| Raced (destination temporary : path)
| Cleaning (temporary : path) (outcome : result Failure Answer)
| Finding (p : path)
| Reading (handle : nat)
| Acting (p : path)
| Done (outcome : result Failure Answer).

(** What the surroundings answer to one call of the file system *)
Record Event := mkEvent { random : bytes; fault : option string; written : nat }.

(** The file system call [r], or the failure of the event *)
Definition attempt {X} (e : Event) (r : result Failure X) : result Failure X :=
  match fault e with Some c => Throw (Errno c) | None => r end.

(** After [initialize]: the path, and the next awaited call *)
Definition begin (c : Call) (e : Event) : Phase :=
  let after id (k : path -> Phase) :=
    match attempt e (path_of (store_of c) id) with Ok p => k p | Throw err => Done (Throw err) end in
  match operation c with
  | Delete id => after id Acting
  | Head id => after id Acting
  | Get id abort => if abort then Done (Throw (StoreError aborted)) else after id Finding
  | Put id _ abort => if abort then Done (Throw (StoreError aborted)) else after id Heading
  | Health => match fault e with Some _ => Done (Ok (Health_is false)) | None => Acting (directory (store_of c)) end
  end.

(** What the [catch] of [get] makes of an error *)
Definition caught_by_get (err : Failure) : result Failure Answer :=
  if hasCode err "ENOENT" then Ok (Chunks [])
  else if hasCode err "ABORT_ERR" then Throw (StoreError aborted)
  else Throw err.

(** The checks of one chunk: the length with it *)
Definition admit_chunk (maximum length : Z) (c : Memory.chunk) : result Failure Z :=
  _ ← require (negb c.2) (StoreError aborted);
  let length := length + byteLength c.1 in
  _ ← require (negb (maximum <? length)) (StoreError object_too_large);
  Ok length.

(** One turn of the loop of [putIfAbsent]. With a fault, either the source threw or
    [writeFile] did, after [written] bytes. *)
Definition write_next (d : Disk) (s : FilesystemObjectStore) (destination temporary : path) (handle : nat) (length : Z)
    (rest : list Memory.chunk) (e : Event) : Disk * Phase :=
  match rest with
  | [] => (d, match fault e with Some c => Cleaning temporary (Throw (Errno c)) | None => Syncing destination temporary handle length end)
  | c :: rest =>
      match admit_chunk (maxObjectBytes s) length c, fault e with
      | Ok length, None => (append d handle c.1, Writing destination temporary handle length rest)
      | Ok _, Some code => (append d handle (take (written e) c.1), Cleaning temporary (Throw (Errno code)))
      | Throw _, Some code => (d, Cleaning temporary (Throw (Errno code)))
      | Throw err, None => (d, Cleaning temporary (Throw err))
      end
  end.

(** One awaited call of the file system, and what the method does with its answer *)
Definition advance (d : Disk) (c : Call) (p : Phase) (e : Event) : Disk * Phase :=
  match p with
  | Starting => (d, begin c e)
  | Heading destination =>
      (d, match attempt e (Ok tt) with Ok _ => Stating destination | Throw err => Done (Throw err) end)
  | Stating destination =>
      (d, match attempt e (stat d destination) with
          | Ok n => Done (Ok (Put_result (Storage.mkPut n exists_)))
          | Throw err => if hasCode err "ENOENT" then Opening destination else Done (Throw err)
          end)
  | Opening destination =>
      let temporary := resolve (directory (store_of c)) (pending (random e)) in
      match operation c, attempt e (open_new d temporary) with
      | Put _ source _, Ok (d', handle) => (d', Writing destination temporary handle 0 source)
      | Put _ _ _, Throw err => (d, Done (Throw err))
      | _, _ => (d, p)
      end
  | Writing destination temporary handle length rest =>
      write_next d (store_of c) destination temporary handle length rest e
  | Syncing destination temporary handle length =>
      (d, match attempt e (Ok tt) with
          | Ok _ => Closing destination temporary handle length
          | Throw err => Cleaning temporary (Throw err)
          end)
  | Closing destination temporary handle length =>
      (d, match attempt e (Ok tt) with
          | Ok _ => Linking destination temporary length
          | Throw err => Cleaning temporary (Throw err)
          end)
  | Linking destination temporary length =>
      match attempt e (link d temporary destination) with
      | Ok d' => (d', Cleaning temporary (Ok (Put_result (Storage.mkPut length created))))
      | Throw err => (d, if hasCode err "EEXIST" then Raced destination temporary else Cleaning temporary (Throw err))
      end
  | Raced destination temporary =>
      (d, Cleaning temporary
            (match attempt e (stat d destination) with
             | Ok n => Ok (Put_result (Storage.mkPut n exists_))
             | Throw err => Throw err
             end))
  | Cleaning temporary outcome =>
      (match attempt e (unlink d temporary) with Ok d' => d' | Throw _ => d end, Done outcome)
  | Finding q =>
      (d, match attempt e (open_read d q) with Ok handle => Reading handle | Throw err => Done (caught_by_get err) end)
  | Reading handle =>
      (d, Done (match attempt e (defined (files d !! handle) (Errno "EBADF")) with
                | Ok b => Ok (Chunks [b])
                | Throw err => caught_by_get err
                end))
  | Acting q =>
      match operation c with
      | Delete _ =>
          match attempt e (unlink d q) with
          | Ok d' => (d', Done (Ok (Was_deleted true)))
          | Throw err => (d, Done (if hasCode err "ENOENT" then Ok (Was_deleted false) else Throw err))
          end
      | Head _ =>
          (d, Done (match attempt e (stat d q) with
                    | Ok n => Ok (Head_of (Some n))
                    | Throw err => if hasCode err "ENOENT" then Ok (Head_of None) else Throw err
                    end))
      | Health => (d, Done (Ok (Health_is (match fault e with Some _ => false | None => true end))))
      | _ => (d, p)
      end
  | Done _ => (d, p)
  end.

(** ** Any number of calls *)

Record System := mkSystem { disk : Disk; calls : list (Call * Phase) }.

(** A fault is not an answer about the directory; nothing is asked of the random bytes. *)
Definition plausible (e : Event) : Prop := fault e <> Some "ENOENT" /\ fault e <> Some "EEXIST".

Definition is_done (p : Phase) : bool := match p with Done _ => true | _ => false end.

Inductive step (s : System) : System -> Prop :=
| step_call c : step s (mkSystem (disk s) (calls s ++ [(c, Starting)]))
| step_advance (i : nat) c p e d' p' :
    calls s !! i = Some (c, p) -> is_done p = false -> plausible e -> advance (disk s) c p e = (d', p') ->
    step s (mkSystem d' (<[i := (c, p')]> (calls s))).

(** Before any call the directories are empty. *)
Definition initial : System := mkSystem (mkDisk ∅ []) [].

Definition reachable (s : System) : Prop := rtc step initial s.

(** ** What the directory shows *)

(** The name of an object, not of a temporary file *)
Definition object_path (p : path) : bool :=
  match last p with Some name => Memory.opaqueObjectId name | None => false end.

(** The objects that can be read *)
Definition objects (d : Disk) : gmap path bytes :=
  omap (fun h => files d !! h) (filter (fun t => object_path t.1 = true) (entries d)).

(** [c] puts [b] at [p]: the bytes its source gives, within the bound. *)
Definition puts (c : Call) (p : path) (b : bytes) : Prop :=
  exists id source, operation c = Put id source false /\ path_of (store_of c) id = Ok p /\
    Memory.collect source (maxObjectBytes (store_of c)) = Ok b.

Definition path_is (c : Call) (p : path) : bool :=
  match operation c with
  | Delete id | Get id _ | Head id | Put id _ _ => match path_of (store_of c) id with Ok q => bool_decide (q = p) | Throw _ => false end
  | Health => false
  end.

(** The put of [p] reports, or is about to report, that it created the object. *)
Definition has_created (p : path) (t : Call * Phase) : bool :=
  path_is t.1 p &&
  match t.2 with
  | Cleaning _ (Ok (Put_result r)) | Done (Ok (Put_result r)) => match put_status r with created => true | exists_ => false end
  | _ => false
  end.

(** *** The store as one map

    What a store of this interface does, an operation at a time, on one map from paths to
    contents *)
Definition perform (c : Call) (m : gmap path bytes) : result Failure (Answer * gmap path bytes) :=
  match operation c with
  | Delete id =>
      p ← path_of (store_of c) id; Ok (Was_deleted (bool_decide (is_Some (m !! p))), base.delete p m)
  | Get id abort =>
      _ ← require (negb abort) (StoreError aborted);
      p ← path_of (store_of c) id; Ok (Chunks (match m !! p with Some b => [b] | None => [] end), m)
  | Head id => p ← path_of (store_of c) id; Ok (Head_of (byteLength <$> m !! p), m)
  | Health => Ok (Health_is true, m)
  | Put id source abort =>
      _ ← require (negb abort) (StoreError aborted);
      p ← path_of (store_of c) id;
      match m !! p with
      | Some b => Ok (Put_result (Storage.mkPut (byteLength b) exists_), m)
      | None =>
          b ← lift_err StoreError (Memory.collect source (maxObjectBytes (store_of c)));
          Ok (Put_result (Storage.mkPut (byteLength b) created), <[p := b]> m)
      end
  end.

(** The map, and the calls with their answers *)
Definition Spec : Type := gmap path bytes * list (Call * option Answer).

(** A call is made; is performed, all at once; a get whose answer was read is cancelled. *)
Inductive spec_step : Spec -> Spec -> Prop :=
| spec_call m l c : spec_step (m, l) (m, l ++ [(c, None)])
| spec_perform m l (i : nat) c a m' :
    l !! i = Some (c, None) -> perform c m = Ok (a, m') -> spec_step (m, l) (m', <[i := (c, Some a)]> l)
| spec_cancel m l (i : nat) st id abort cs :
    l !! i = Some (mkCall st (Get id abort), Some (Chunks cs)) ->
    spec_step (m, l) (m, <[i := (mkCall st (Get id abort), None)]> l).

(** The answer a phase is bound to give; that the directory is unavailable is a failure. *)
Definition answer_of (d : Disk) (p : Phase) : option Answer :=
  match p with
  | Cleaning _ (Ok a) | Done (Ok a) => match a with Health_is false => None | _ => Some a end
  | Reading h => (fun b => Chunks [b]) <$> files d !! h
  | _ => None
  end.

Definition answered (s : System) : list (Call * option Answer) :=
  (fun t => (t.1, answer_of (disk s) t.2)) <$> calls s.

(** The map the files stand for *)
Definition spec_of (s : System) : Spec := (objects (disk s), answered s).

(** A put of [p] answered that it created the object; a delete, that it removed it. *)
Definition created_at (p : path) (t : Call * option Answer) : bool :=
  path_is t.1 p && match t.2 with Some (Put_result r) => match put_status r with created => true | exists_ => false end | _ => false end.
Definition removed_at (p : path) (t : Call * option Answer) : bool :=
  path_is t.1 p && match t.2 with Some (Was_deleted b) => b | _ => false end.

Definition count (f : Call * option Answer -> bool) (l : list (Call * option Answer)) : Z :=
  Z.of_nat (length (filter (fun t => f t = true) l)).

(** *** A call with nothing else going on *)

(** At most [fuel] awaited calls, none of which fails; [bytes_] is what is drawn *)
Fixpoint finish (fuel : nat) (d : Disk) (c : Call) (p : Phase) (bytes_ : bytes) : Disk * Phase :=
  match fuel with
  | O => (d, p)
  | S fuel => if is_done p then (d, p)
      else let '(d', p') := advance d c p (mkEvent bytes_ None 0) in finish fuel d' c p' bytes_
  end.

(** Enough for any call: its awaited calls that do not depend on the source, and the source's *)
Definition rounds (c : Call) : nat :=
  match operation c with Put _ source _ => 10 + length source | _ => 3 end.

(** How many awaited calls are left *)
Definition remaining (c : Call) (p : Phase) : nat :=
  match p with
  | Starting => rounds c
  | Heading _ => rounds c - 1
  | Stating _ => rounds c - 2
  | Opening _ => rounds c - 3
  | Writing _ _ _ _ rest => 6 + length rest
  | Syncing _ _ _ _ => 5
  | Closing _ _ _ _ => 4
  | Linking _ _ _ => 3
  | Raced _ _ | Finding _ => 2
  | Cleaning _ _ | Reading _ | Acting _ => 1
  | Done _ => 0
  end.

(** The same operation of the in-memory store [ms] *)
Definition in_memory (ms : Memory.MemoryObjectStore) (w : Memory.Objects) (o : Operation) :
    result ObjectStoreErrorCode (Answer * Memory.Objects) :=
  match o with
  | Delete id => r ← Memory.delete ms w id; Ok (Was_deleted r.2, r.1)
  | Get id abort => cs ← Memory.get ms w id abort; Ok (Chunks cs, w)
  | Head id => n ← Memory.head ms w id; Ok (Head_of n, w)
  | Health => Ok (Health_is true, w)
  | Put id source _ => r ← Memory.putIfAbsent ms w id source; Ok (Put_result r.2, r.1)
  end.

(** The file store and the in-memory store hold the same objects under the same bound. *)
Record agree (st : FilesystemObjectStore) (d : Disk) (ms : Memory.MemoryObjectStore) (w : Memory.Objects) : Prop := {
  agree_maximum : maxObjectBytes st = Memory.maxObjectBytes ms;
  agree_objects id p k : path_of st id = Ok p -> Memory.key ms id = Ok k -> objects d !! p = map_get k w
}.

(** *** Schedules *)

(** A new call, or one awaited call of the call [i] *)
Inductive Turn := Make (c : Call) | Go (i : nat) (e : Event).

Definition turn (s : System) (t : Turn) : System :=
  match t with
  | Make c => mkSystem (disk s) (calls s ++ [(c, Starting)])
  | Go i e =>
      match calls s !! i with
      | Some (c, p) =>
          if is_done p then s
          else let '(d', p') := advance (disk s) c p e in mkSystem d' (<[i := (c, p')]> (calls s))
      | None => s
      end
  end.

Definition play (ts : list Turn) (s : System) : System := fold_left turn ts s.

(** * Facts *)

(** ** Paths *)

(** A name without a slash is one segment. *)
Lemma resolve_name base name :
  slash ∉ list_ascii_of_string name -> name <> ""%string -> name <> "."%string -> name <> ".."%string ->
  resolve base name = base ++ [name].
Proof.
  intros Hs H0 H1 H2. unfold resolve, split. rewrite split_char_none by done. simpl.
  rewrite string_of_list_ascii_of_string.
  assert (absolute name = false) as ->.
  { destruct name as [|a name]; [done|]. unfold absolute. apply bool_decide_eq_false. intros ->. apply Hs. left. }
  unfold resolve_segment. apply String.eqb_neq in H0, H1, H2. by rewrite H0, H1, H2.
Qed.

Lemma object_id_chars i : Memory.opaqueObjectId i = true ->
  length (list_ascii_of_string i) = 43%nat /\ Forall in_alphabet (list_ascii_of_string i).
Proof.
  unfold Memory.opaqueObjectId, base64Url32. intros [H _]%andb_true_iff.
  by rewrite rtest_spec, base64Url32_re_eq, rmatch_times in H.
Qed.

Lemma object_id_no c i : ~ in_alphabet c -> Memory.opaqueObjectId i = true -> c ∉ list_ascii_of_string i.
Proof. intros Hc [_ H]%object_id_chars Hin. rewrite Forall_forall in H. by apply Hc, H. Qed.

Lemma path_of_Ok s i p :
  path_of s i = Ok p <-> Memory.opaqueObjectId i = true /\ p = directory s ++ [i].
Proof.
  unfold path_of, Memory.validateObjectId. destruct (Memory.opaqueObjectId i) eqn:Hi; simpl; [|by split; [|intros []]].
  destruct (object_id_chars _ Hi) as [Hl _].
  rewrite resolve_name; [| |by intros ->..].
  - split; [by intros [= <-]|by intros [_ ->]].
  - apply object_id_no; [|done]. by vm_compute.
Qed.

Lemma object_path_of s i p : path_of s i = Ok p -> object_path p = true.
Proof. intros [Hi ->]%path_of_Ok. unfold object_path. by rewrite last_snoc. Qed.

Lemma hex_no_slash b : slash ∉ list_ascii_of_string (to_hex b).
Proof.
  unfold to_hex. rewrite list_ascii_of_string_of_list_ascii. intros (y & Hx & _)%list_elem_of_bind.
  unfold byte_hex in Hx. eapply Forall_forall in Hx; [|apply number_hex_is_hex]. by vm_compute in Hx.
Qed.

Lemma pending_path base r : resolve base (pending r) = base ++ [pending r].
Proof.
  apply resolve_name; [|done..]. unfold pending. rewrite list_ascii_of_string_app. intros [H|H]%elem_of_app.
  - by vm_compute in H; repeat (apply elem_of_cons in H as [H|H]; [done|]); apply elem_of_nil in H.
  - by apply (hex_no_slash r).
Qed.

Lemma pending_no_object base r : object_path (resolve base (pending r)) = false.
Proof.
  rewrite pending_path. unfold object_path. rewrite last_snoc. apply not_true_is_false. intros H.
  eapply (object_id_no "."%char) in H; [|by vm_compute]. apply H. unfold pending. simpl. left.
Qed.

(** An object has one path, and a path is of one object of one store directory. *)
Lemma path_of_inj s t i j p : path_of s i = Ok p -> path_of t j = Ok p -> directory s = directory t /\ i = j.
Proof. intros [_ ->]%path_of_Ok [_ H]%path_of_Ok. by apply app_inj_tail in H. Qed.

(** ** The invariant *)

Definition temporary_of (p : Phase) : option path :=
  match p with
  | Writing _ t _ _ _ | Syncing _ t _ _ | Closing _ t _ _ | Linking _ t _ | Raced _ t | Cleaning t _ => Some t
  | _ => None
  end.

(** The temporary file that is being written, and its handle *)
Definition draft_of (p : Phase) : option (path * nat) :=
  match p with Writing _ t h _ _ => Some (t, h) | _ => None end.

(** A put of [q] reported that it created the object, with the bytes [b]. *)
Definition made (ts : list (Call * Phase)) (q : path) (b : bytes) : Prop :=
  exists i t, ts !! i = Some t /\ has_created q t = true /\ puts t.1 q b.

(** What a call may answer *)
Definition outcome_ok (ts : list (Call * Phase)) (c : Call) (o : result Failure Answer) : Prop :=
  match o with
  | Throw _ => True
  | Ok a =>
      match operation c, a with
      | Put _ _ _, Put_result r =>
          exists q b, path_is c q = true /\ put_length r = byteLength b /\
            match put_status r with created => puts c q b | exists_ => made ts q b end
      | Get _ _, Chunks cs => cs = [] \/ exists q b, path_is c q = true /\ made ts q b /\ cs = [b]
      | Head _, Head_of n => n = None \/ exists q b, path_is c q = true /\ made ts q b /\ n = Some (byteLength b)
      | Delete _, Was_deleted _ | Health, Health_is _ => True
      | _, _ => False
      end
  end.

(** The call puts at [q] and has not been aborted. *)
Definition putting (c : Call) (q : path) (source : list Memory.chunk) : Prop :=
  exists id, operation c = Put id source false /\ path_of (store_of c) id = Ok q.

Definition call_ok (ts : list (Call * Phase)) (d : Disk) (t : Call * Phase) : Prop :=
  let c := t.1 in
  let whole q tmp len := exists h b, puts c q b /\ len = byteLength b /\ entries d !! tmp = Some h /\ files d !! h = Some b in
  match t.2 with
  | Starting => True
  | Heading q | Stating q | Opening q => exists source, putting c q source
  | Writing q tmp h len rest =>
      exists consumed b, putting c q (consumed ++ rest) /\
        Memory.collect consumed (maxObjectBytes (store_of c)) = Ok b /\ len = byteLength b /\
        entries d !! tmp = Some h /\ files d !! h = Some b
  | Syncing q tmp _ len | Closing q tmp _ len | Linking q tmp len => whole q tmp len
  | Raced q _ => exists b, puts c q b
  | Cleaning _ o => (exists id source, operation c = Put id source false) /\ outcome_ok ts c o
  | Finding q => exists id, operation c = Get id false /\ path_of (store_of c) id = Ok q
  | Reading h => exists id q b, operation c = Get id false /\ path_of (store_of c) id = Ok q /\
      files d !! h = Some b /\ made ts q b
  | Acting q =>
      match operation c with
      | Delete id | Head id => path_of (store_of c) id = Ok q
      | Health => True
      | _ => False
      end
  | Done o => outcome_ok ts c o
  end.

Record inv (s : System) : Prop := {
  inv_entries q h : entries (disk s) !! q = Some h -> (h < length (files (disk s)))%nat;
  inv_calls i t : calls s !! i = Some t -> call_ok (calls s) (disk s) t;
  inv_hidden i c p tmp : calls s !! i = Some (c, p) -> temporary_of p = Some tmp ->
    object_path tmp = false /\ is_Some (entries (disk s) !! tmp);
  inv_apart i j c c' p p' tmp : calls s !! i = Some (c, p) -> calls s !! j = Some (c', p') ->
    temporary_of p = Some tmp -> temporary_of p' = Some tmp -> i = j;
  inv_objects q h : object_path q = true -> entries (disk s) !! q = Some h ->
    exists b, files (disk s) !! h = Some b /\ made (calls s) q b;
  inv_drafts i c p tmp h : calls s !! i = Some (c, p) -> draft_of p = Some (tmp, h) ->
    (forall q, entries (disk s) !! q = Some h -> q = tmp) /\ (forall j c', calls s !! j <> Some (c', Reading h))
}.

Lemma path_is_put c q source : putting c q source -> path_is c q = true.
Proof. intros (id & Ho & Hp). unfold path_is. rewrite Ho, Hp. by apply bool_decide_eq_true. Qed.

Lemma putting_puts c q source b : putting c q source ->
  Memory.collect source (maxObjectBytes (store_of c)) = Ok b -> puts c q b.
Proof. intros (id & Ho & Hp) Hb. by exists id, source. Qed.

Lemma puts_path c q b : puts c q b -> path_is c q = true /\ object_path q = true.
Proof.
  intros (id & source & Ho & Hp & _). split; [|by eapply object_path_of].
  eapply path_is_put. by exists id.
Qed.

(** Nothing a call reported is taken back by a step. *)
Lemma made_update ts i c p p' q b :
  ts !! i = Some (c, p) -> (forall q, has_created q (c, p) = true -> has_created q (c, p') = true) ->
  made ts q b -> made (<[i := (c, p')]> ts) q b.
Proof.
  intros Hi Hc (j & t & Hj & Ht & Hb). destruct (decide (i = j)) as [->|Hne].
  - rewrite Hi in Hj. injection Hj as <-. exists j, (c, p'). split_and!; [|by apply Hc|done].
    apply list_lookup_insert_eq. by eapply lookup_lt_Some.
  - exists j, t. by rewrite list_lookup_insert_ne.
Qed.

Lemma outcome_update ts ts' c o :
  (forall q b, made ts q b -> made ts' q b) -> outcome_ok ts c o -> outcome_ok ts' c o.
Proof.
  intros Hm. destruct o as [a|]; [|done]. unfold outcome_ok.
  destruct (operation c), a as [?|?|?|?|r]; try done; try (intros [->|(q & b & ? & ? & ->)]; eauto 8).
  intros (q & b & ? & ? & Hr). exists q, b. destruct (put_status r); eauto.
Qed.

(** What the other calls have keeps its meaning when the temporary files they own, and the
    files they read, are left alone. *)
Lemma call_frame ts ts' d d' t :
  (forall q b, made ts q b -> made ts' q b) ->
  (forall tmp, temporary_of t.2 = Some tmp -> entries d' !! tmp = entries d !! tmp) ->
  (forall h b, files d !! h = Some b ->
    (exists tmp, temporary_of t.2 = Some tmp /\ entries d !! tmp = Some h) \/ t.2 = Reading h -> files d' !! h = Some b) ->
  call_ok ts d t -> call_ok ts' d' t.
Proof.
  intros Hm He Hf. destruct t as [c []]; unfold call_ok; simpl in *; try done.
  - intros (consumed & b & ? & ? & ? & ? & ?). exists consumed, b. split_and!; [done..| |].
    + by rewrite He.
    + apply Hf; [done|]. left. eauto.
  - intros (h & b & ? & ? & ? & ?). exists h, b. split_and!; [done..|by rewrite He|]. apply Hf; [done|]. left. eauto.
  - intros (h & b & ? & ? & ? & ?). exists h, b. split_and!; [done..|by rewrite He|]. apply Hf; [done|]. left. eauto.
  - intros (h & b & ? & ? & ? & ?). exists h, b. split_and!; [done..|by rewrite He|]. apply Hf; [done|]. left. eauto.
  - intros [? ?]. split; [done|]. by eapply outcome_update.
  - intros (id & q & b & ? & ? & ? & ?). exists id, q, b. split_and!; [done..| |by apply Hm]. apply Hf; [done|]. by right.
  - by apply outcome_update.
Qed.

(** A step of the call [i] keeps the invariant if it leaves what the others own alone and
    establishes its own part. *)
Record safe_update (s : System) (i : nat) (c : Call) (p : Phase) (d' : Disk) (p' : Phase) : Prop := {
  up_reports q : has_created q (c, p) = true -> has_created q (c, p') = true;
  up_files h b : files (disk s) !! h = Some b -> (forall tmp, draft_of p <> Some (tmp, h)) -> files d' !! h = Some b;
  up_entries j c2 p2 tmp : j <> i -> calls s !! j = Some (c2, p2) -> temporary_of p2 = Some tmp ->
    entries d' !! tmp = entries (disk s) !! tmp;
  up_call : call_ok (<[i := (c, p')]> (calls s)) d' (c, p');
  up_hidden tmp : temporary_of p' = Some tmp -> object_path tmp = false /\ is_Some (entries d' !! tmp);
  up_apart tmp j c2 p2 : temporary_of p' = Some tmp -> j <> i -> calls s !! j = Some (c2, p2) -> temporary_of p2 <> Some tmp;
  up_bound q h : entries d' !! q = Some h -> (h < length (files d'))%nat;
  up_objects q h : object_path q = true -> entries d' !! q = Some h ->
    exists b, files d' !! h = Some b /\ made (<[i := (c, p')]> (calls s)) q b;
  up_draft tmp h : draft_of p' = Some (tmp, h) ->
    (forall q, entries d' !! q = Some h -> q = tmp) /\ (forall j c2, calls s !! j <> Some (c2, Reading h));
  up_drafts j c2 p2 tmp h : j <> i -> calls s !! j = Some (c2, p2) -> draft_of p2 = Some (tmp, h) ->
    (forall q, entries d' !! q = Some h -> q = tmp) /\ p' <> Reading h
}.

Lemma draft_temporary p tmp h : draft_of p = Some (tmp, h) -> temporary_of p = Some tmp.
Proof. destruct p; simpl; congruence. Qed.

Lemma update_inv s i c p d' p' :
  inv s -> calls s !! i = Some (c, p) -> safe_update s i c p d' p' ->
  inv (mkSystem d' (<[i := (c, p')]> (calls s))).
Proof.
  intros [Ie Ic Ih Ia Io Id] Hi [Ur Uf Ue Uc Uh Ua Ub Uo Ud Us].
  assert (Hlt := lookup_lt_Some _ _ _ Hi).
  assert (Hnew : forall j t, <[i := (c, p')]> (calls s) !! j = Some t -> j = i /\ t = (c, p') \/ j <> i /\ calls s !! j = Some t).
  { intros j t. destruct (decide (j = i)) as [->|Hne].
    - rewrite list_lookup_insert_eq by done. intros [= <-]. by left.
    - rewrite list_lookup_insert_ne by done. by right. }
  assert (Hother : forall j t, j <> i -> calls s !! j = Some t -> call_ok (<[i := (c, p')]> (calls s)) d' t).
  { intros j [c2 p2] Hne Hj. eapply (call_frame (calls s) _ (disk s)); [|intros tmp; by eapply Ue| |by apply (Ic j)].
    - intros q b. by apply (made_update _ _ _ p).
    - intros h b Hb Hown. apply Uf; [done|]. intros tmp Hd. destruct (Id i c p tmp h Hi Hd) as [Hq Hr].
      destruct Hown as [(tmp2 & Ht & He)|Hread]; simpl in *.
      + apply Hq in He as ->. apply Hne. symmetry. eapply (Ia i j); [done..| |done]. by eapply draft_temporary.
      + subst p2. by apply (Hr j c2). }
  constructor; simpl.
  - exact Ub.
  - intros j t [[-> ->]|[Hne Hj]]%Hnew; [done|]. by eapply Hother.
  - intros j c2 p2 tmp [[-> [= -> ->]]|[Hne Hj]]%Hnew Ht; [by eapply Uh|].
    rewrite (Ue j c2 p2 tmp Hne Hj Ht). by eapply Ih.
  - intros j k c2 c3 p2 p3 tmp [[-> [= -> ->]]|[Hne Hj]]%Hnew [[-> [= -> ->]]|[Hne' Hk]]%Hnew H2 H3; [done|..].
    + by destruct (Ua tmp k c3 p3 H2).
    + by destruct (Ua tmp j c2 p2 H3).
    + by eapply Ia.
  - exact Uo.
  - intros j c2 p2 tmp h [[-> [= -> ->]]|[Hne Hj]]%Hnew Hd.
    + destruct (Ud tmp h Hd) as [Hq Hr]. split; [done|]. intros k c3 [[-> [= -> <-]]|[_ Hk]]%Hnew; [done|by eapply Hr].
    + destruct (Us j c2 p2 tmp h Hne Hj Hd) as [Hq Hr]. split; [done|].
      intros k c3 [[-> [= -> <-]]|[_ Hk]]%Hnew; [done|]. by destruct (Id j c2 p2 tmp h Hj Hd) as [_ H]; eapply H.
Qed.

Lemma not_created q (c : Call) p : (match p with Cleaning _ _ | Done _ => False | _ => True end) -> has_created q (c, p) = false.
Proof. intros H. unfold has_created. simpl. destruct p; try done; apply andb_false_r. Qed.

Section Steps.
Context (s : System) (Hinv : inv s) (i : nat) (c : Call) (p : Phase) (Hi : calls s !! i = Some (c, p)).

Notation d := (disk s).
Notation after p' := (<[i := (c, p')]> (calls s)).

Lemma objects_after p' q h :
  (forall q, has_created q (c, p) = true -> has_created q (c, p') = true) ->
  object_path q = true -> entries d !! q = Some h -> exists b, files d !! h = Some b /\ made (after p') q b.
Proof.
  intros Hr Hq Hh. destruct (inv_objects _ Hinv q h Hq Hh) as (b & Hb & Hm).
  exists b. split; [done|]. by apply (made_update _ _ _ p).
Qed.

(** A phase that leaves the file system alone and opens no file *)
Lemma safe_quiet p' :
  (forall q, has_created q (c, p) = true -> has_created q (c, p') = true) ->
  (temporary_of p' = None \/ temporary_of p' = temporary_of p) -> (draft_of p' = None \/ draft_of p' = draft_of p) ->
  (forall h, p' <> Reading h) -> call_ok (after p') d (c, p') -> safe_update s i c p d p'.
Proof.
  intros Hr Ht Hd Hnr Hc. constructor; try done.
  - intros tmp H. destruct Ht as [Ht|Ht]; [congruence|]. rewrite Ht in H. by eapply inv_hidden.
  - intros tmp j c2 p2 H Hne Hj H2. destruct Ht as [Ht|Ht]; [congruence|]. rewrite Ht in H.
    apply Hne. symmetry. by eapply (inv_apart _ Hinv i j).
  - apply (inv_entries _ Hinv).
  - intros q h. by apply objects_after.
  - intros tmp h H. destruct Hd as [Hd|Hd]; [congruence|]. rewrite Hd in H. by eapply inv_drafts.
  - intros j c2 p2 tmp h Hne Hj H. split; [|done]. by eapply inv_drafts.
Qed.

(** The end of a call *)
Lemma safe_done o : (match p with Cleaning _ _ | Done _ => False | _ => True end) ->
  outcome_ok (after (Done o)) c o -> safe_update s i c p d (Done o).
Proof. intros Hp Ho. apply safe_quiet; auto. intros q. by rewrite (not_created q c p Hp). Qed.

(** A failure inside the [try] of a put *)
Lemma safe_abandon tmp err : temporary_of p = Some tmp -> (forall q, has_created q (c, p) = false) ->
  (exists id source, operation c = Put id source false) -> safe_update s i c p d (Cleaning tmp (Throw err)).
Proof.
  intros Ht Hr Hp. apply safe_quiet; simpl; auto; [|by split]. intros q. by rewrite Hr.
Qed.

(** [open(temporary, "wx")] *)
Lemma safe_open q source r d' h :
  p = Opening q -> putting c q source -> open_new d (resolve (directory (store_of c)) (pending r)) = Ok (d', h) ->
  safe_update s i c p d' (Writing q (resolve (directory (store_of c)) (pending r)) h 0 source).
Proof.
  intros Hph Hp Ho. unfold open_new in Ho. set (tmp := resolve _ _) in *.
  apply bind_Ok in Ho as (u & H0%require_Ok%bool_decide_eq_true & [= <- <-]). clear u.
  assert (Hnew : forall q h, <[tmp := length (files d)]> (entries d) !! q = Some h ->
    q = tmp /\ h = length (files d) \/ q <> tmp /\ entries d !! q = Some h).
  { intros q' h' H. apply lookup_insert_Some in H as [[<- <-]|[? ?]]; [left|right]; done. }
  assert (Hold : forall h b, files d !! h = Some b -> (files d ++ [[]]) !! h = Some b).
  { intros h' b H. by apply lookup_app_l_Some. }
  assert (Hfree : forall j c2 p2, calls s !! j = Some (c2, p2) -> temporary_of p2 <> Some tmp).
  { intros j c2 p2 Hj Ht. destruct (inv_hidden _ Hinv _ _ _ _ Hj Ht) as [_ [h Hh]]. congruence. }
  assert (Hhid : object_path tmp = false) by apply pending_no_object.
  constructor; simpl; try done.
  - intros q'. by rewrite Hph.
  - intros h b H _. by apply Hold.
  - intros j c2 p2 t2 Hne Hj Ht. apply lookup_insert_ne. intros ->. by eapply Hfree.
  - exists [], []. simpl. split_and!; [done..| |].
    + by rewrite lookup_insert_eq.
    + rewrite lookup_app_r, Nat.sub_diag by lia. done.
  - intros t [= <-]. rewrite lookup_insert_eq. eauto.
  - intros t j c2 p2 [= <-] _. by apply Hfree.
  - intros q' h' [[_ ->]|[_ H]]%Hnew; [|apply (inv_entries _ Hinv) in H]; rewrite length_app; simpl; lia.
  - intros q' h' Hq [[-> ->]|[_ H]]%Hnew; [congruence|].
    destruct (objects_after (Writing q tmp (length (files d)) 0 source) q' h') as (b & Hb & Hm); [by rewrite Hph|done..|]. eauto.
  - intros t h [= <- <-]. split.
    + intros q' [[-> _]|[_ H]]%Hnew; [done|]. apply (inv_entries _ Hinv) in H. lia.
    + intros j c2 Hj. apply inv_calls in Hj as (_ & _ & b & _ & _ & Hb%lookup_lt_Some & _); [|done]. lia.
  - intros j c2 p2 t2 h Hne Hj Hd. split; [|done]. intros q' [[-> ->]|[_ H]]%Hnew.
    + apply inv_calls in Hj as Hc; [|done]. destruct p2; try done. injection Hd as -> Hh.
      destruct Hc as (_ & _ & _ & _ & _ & _ & Hb%lookup_lt_Some). lia.
    + by eapply inv_drafts in H.
Qed.

(** [handle.writeFile(b)] *)
Lemma safe_append q tmp h len rest b p' :
  p = Writing q tmp h len rest -> temporary_of p' = Some tmp -> (draft_of p' = None \/ draft_of p' = Some (tmp, h)) ->
  (forall q, has_created q (c, p) = true -> has_created q (c, p') = true) -> (forall h, p' <> Reading h) ->
  call_ok (after p') (append d h b) (c, p') -> safe_update s i c p (append d h b) p'.
Proof.
  intros Hph Ht Hd Hr Hnr Hc.
  assert (Hdraft : draft_of p = Some (tmp, h)) by by rewrite Hph.
  assert (Htmp : temporary_of p = Some tmp) by by rewrite Hph.
  destruct (inv_drafts _ Hinv _ _ _ _ _ Hi Hdraft) as [Hown Hread].
  destruct (inv_hidden _ Hinv _ _ _ _ Hi Htmp) as [Hhid Hin].
  constructor; simpl; try done.
  - intros h' b' H Hne. rewrite list_lookup_alter_ne; [done|]. intros <-. by eapply Hne.
  - intros t. rewrite Ht. by intros [= <-].
  - intros t j c2 p2. rewrite Ht. intros [= <-] Hne Hj H2. apply Hne. symmetry. by eapply (inv_apart _ Hinv i j).
  - intros q' h' H. rewrite length_alter. by eapply inv_entries.
  - intros q' h' Hq H. destruct (objects_after p' q' h') as (b' & Hb & Hm); [done..|]. exists b'. split; [|done].
    rewrite list_lookup_alter_ne; [done|]. intros <-. apply Hown in H as ->. congruence.
  - intros t h'. destruct Hd as [->| ->]; [done|]. by intros [= <- <-].
  - intros j c2 p2 t2 h' Hne Hj H2. split; [|done]. by eapply inv_drafts.
Qed.

(** [link(temporary, destination)] *)
Lemma safe_link q tmp len d' :
  p = Linking q tmp len -> link d tmp q = Ok d' ->
  safe_update s i c p d' (Cleaning tmp (Ok (Put_result (Storage.mkPut len created)))).
Proof.
  intros Hph Hl. unfold link in Hl.
  apply bind_Ok in Hl as (h & Hh%defined_Ok & (u & H0%require_Ok%bool_decide_eq_true & [= <-])%bind_Ok). clear u.
  assert (Htmp : temporary_of p = Some tmp) by by rewrite Hph.
  destruct (inv_hidden _ Hinv _ _ _ _ Hi Htmp) as [Hhid _].
  assert (Hc := inv_calls _ Hinv _ _ Hi). rewrite Hph in Hc. destruct Hc as (h1 & b & Hp & -> & H1 & Hb). simpl in Hp, Hb, H1.
  rewrite Hh in H1. injection H1 as <-. destruct (puts_path _ _ _ Hp) as [Hpath Hq].
  assert (Hneq : forall t, is_Some (entries d !! t) -> t <> q) by (intros t [? ?] ->; congruence).
  assert (Hr : forall q', has_created q' (c, p) = true -> has_created q' (c, Cleaning tmp (Ok (Put_result (Storage.mkPut (byteLength b) created)))) = true).
  { intros q' H. unfold has_created in H. rewrite Hph in H. by apply andb_true_iff in H as [_ H]. }
  constructor; simpl; try done.
  - intros j c2 p2 t Hne Hj Ht. apply lookup_insert_ne. symmetry. apply Hneq. by eapply inv_hidden.
  - unfold call_ok. simpl. destruct Hp as (id & source & Ho & ?). simpl in *. split; [eauto|]. rewrite Ho.
    exists q, b. split_and!; [done..|]. by exists id, source.
  - intros t [= <-]. split; [done|]. rewrite lookup_insert_ne by (symmetry; apply Hneq; by exists h). by exists h.
  - intros t j c2 p2 [= <-] Hne Hj H2. apply Hne. symmetry. by eapply (inv_apart _ Hinv i j).
  - intros q' h' [[_ <-]|[_ H]]%lookup_insert_Some; by eapply inv_entries.
  - intros q' h' Hq' [[<- <-]|[_ H]]%lookup_insert_Some; [|by apply objects_after].
    exists b. split; [done|]. exists i, (c, Cleaning tmp (Ok (Put_result (Storage.mkPut (byteLength b) created)))).
    split_and!; [apply list_lookup_insert_eq; by eapply lookup_lt_Some| |done].
    unfold has_created. simpl. by rewrite Hpath.
  - intros j c2 p2 t h' Hne Hj Hd. split; [|done]. intros q' [[-> ->]|[_ H]]%lookup_insert_Some; [|by eapply inv_drafts].
    exfalso. apply Hne. assert (t = tmp) as -> by (symmetry; by eapply (inv_drafts _ Hinv j)).
    eapply (inv_apart _ Hinv j i); [done..| |done]. by eapply draft_temporary.
Qed.

(** Removing an entry that no other call owns *)
Lemma safe_unlink q d' o :
  unlink d q = Ok d' -> (forall j c2 p2, j <> i -> calls s !! j = Some (c2, p2) -> temporary_of p2 <> Some q) ->
  (forall q, has_created q (c, p) = true -> has_created q (c, Done o) = true) ->
  outcome_ok (after (Done o)) c o -> safe_update s i c p d' (Done o).
Proof.
  intros Hu Hothers Hr Hc. unfold unlink in Hu. apply bind_Ok in Hu as (h & _ & [= <-]).
  constructor; simpl; try done.
  - intros j c2 p2 t Hne Hj Ht. apply lookup_delete_ne. intros <-. by eapply Hothers.
  - intros q' h' [_ H]%lookup_delete_Some. by eapply inv_entries.
  - intros q' h' Hq [_ H]%lookup_delete_Some. by apply objects_after.
  - intros j c2 p2 t h' Hne Hj Hd. split; [|done]. intros q' [_ H]%lookup_delete_Some. by eapply inv_drafts.
Qed.

(** [open(p, "r")] of an object *)
Lemma safe_read q h : p = Finding q -> open_read d q = Ok h -> safe_update s i c p d (Reading h).
Proof.
  intros Hph Hh%defined_Ok. assert (Hc := inv_calls _ Hinv _ _ Hi). rewrite Hph in Hc. destruct Hc as (id & Ho & Hq).
  assert (Hobj := object_path_of _ _ _ Hq).
  destruct (objects_after (Reading h) q h) as (b & Hb & Hm); [by rewrite Hph|done..|].
  constructor; simpl; try done.
  - intros q'. by rewrite Hph.
  - by exists id, q, b.
  - apply (inv_entries _ Hinv).
  - intros q' h'. apply objects_after. by rewrite Hph.
  - intros j c2 p2 t h' Hne Hj Hd. split; [by eapply inv_drafts|]. intros [= <-].
    assert (q = t) as -> by by eapply (inv_drafts _ Hinv j).
    destruct (inv_hidden _ Hinv j c2 p2 t Hj) as [? _]; [by eapply draft_temporary|]. congruence.
Qed.
End Steps.

Lemma byteLength_app (a b : bytes) : byteLength (a ++ b) = byteLength a + byteLength b.
Proof. unfold byteLength. rewrite length_app. lia. Qed.

(** The loop of the put, one chunk at a time, is the loop of [collect]. *)
Lemma collect_from_cons maximum acc (k : Memory.chunk) rest :
  Memory.collect_from maximum (byteLength acc) acc (k :: rest) =
  match admit_chunk maximum (byteLength acc) k with
  | Ok _ => Memory.collect_from maximum (byteLength (acc ++ k.1)) (acc ++ k.1) rest
  | Throw (StoreError err) => Throw err
  | Throw (Errno _) => Throw store_unavailable
  end.
Proof.
  destruct k as [b a]. unfold admit_chunk. simpl. destruct a; simpl; [done|].
  destruct (_ <? _); simpl; [done|]. by rewrite byteLength_app.
Qed.

Lemma admit_chunk_Ok maximum (length : Z) k n : admit_chunk maximum length k = Ok n -> n = length + byteLength k.1.
Proof. unfold admit_chunk. intros H. by inv_result. Qed.

Lemma collect_from_snoc maximum acc source b (k : Memory.chunk) n :
  Memory.collect_from maximum (byteLength acc) acc source = Ok b -> admit_chunk maximum (byteLength b) k = Ok n ->
  Memory.collect_from maximum (byteLength acc) acc (source ++ [k]) = Ok (b ++ k.1).
Proof.
  revert acc. induction source as [|k' source IH]; intros acc H Hk.
  - injection H as <-. simpl app. rewrite collect_from_cons, Hk. done.
  - change ((k' :: source) ++ [k]) with (k' :: (source ++ [k])). rewrite collect_from_cons in *.
    destruct (admit_chunk _ _ k') as [|[|]]; [by apply IH|done..].
Qed.

(** One turn of the loop of a put *)
Lemma safe_write s i c q tmp h len rest e d' p' :
  inv s -> calls s !! i = Some (c, Writing q tmp h len rest) ->
  write_next (disk s) (store_of c) q tmp h len rest e = (d', p') ->
  safe_update s i c (Writing q tmp h len rest) d' p'.
Proof.
  intros Hinv Hi Hw. assert (Hc := inv_calls _ Hinv _ _ Hi).
  destruct Hc as (consumed & b & Hput & Hb & Hlen & Hent & Hfile). simpl in *.
  assert (Hop : exists id source, operation c = Put id source false) by (destruct Hput as (id & ? & _); eauto).
  assert (Hnc : forall q', has_created q' (c, Writing q tmp h len rest) = false) by (intros; by apply not_created).
  assert (Hstop : forall err, safe_update s i c (Writing q tmp h len rest) (disk s) (Cleaning tmp (Throw err)))
    by (intros err; by apply safe_abandon).
  destruct rest as [|k rest]; simpl in Hw.
  - rewrite app_nil_r in Hput. destruct (fault e); injection Hw as <- <-; [done|].
    apply safe_quiet; auto. exists h, b. split_and!; [|done..]. by eapply putting_puts.
  - destruct (admit_chunk _ _ _) as [n|] eqn:Hk; [|destruct (fault e); by injection Hw as <- <-].
    subst len. destruct (fault e); injection Hw as <- <-; (eapply safe_append; [done|done|done|done|by auto|done|done|]).
    + by split.
    + exists (consumed ++ [k]), (b ++ k.1). split_and!.
      * by rewrite <- app_assoc.
      * by eapply (collect_from_snoc _ []).
      * apply admit_chunk_Ok in Hk as ->. by rewrite byteLength_app.
      * done.
      * simpl. by rewrite list_lookup_alter_eq, Hfile.
Qed.

Lemma stat_made s q n : inv s -> object_path q = true -> stat (disk s) q = Ok n ->
  exists b, content (disk s) q = Some b /\ made (calls s) q b /\ n = byteLength b.
Proof.
  intros Hinv Hq Hn. apply defined_Ok, fmap_Some in Hn as (b & Hb & ->). exists b. split; [done|].
  apply bind_Some in Hb as (h & Hh & Hb). destruct (inv_objects _ Hinv q h Hq Hh) as (b' & Hb' & Hm).
  split; [congruence|done].
Qed.

Lemma attempt_Ok {X} e (r : result Failure X) x : attempt e r = Ok x -> r = Ok x /\ fault e = None.
Proof. unfold attempt. by destruct (fault e). Qed.

Lemma begin_after s i c id e (k : path -> Phase) :
  inv s -> calls s !! i = Some (c, Starting) -> (forall q, temporary_of (k q) = None) -> (forall q, draft_of (k q) = None) ->
  (forall q h, k q <> Reading h) ->
  (forall q, path_of (store_of c) id = Ok q -> forall ts, call_ok ts (disk s) (c, k q)) ->
  safe_update s i c Starting (disk s)
    match attempt e (path_of (store_of c) id) with Ok q => k q | Throw err => Done (Throw err) end.
Proof.
  intros Hinv Hi Ht Hd Hr Hc. destruct (attempt _ _) as [q|err] eqn:Ha.
  - apply attempt_Ok in Ha as [Hq _]. apply safe_quiet; auto. intros q'. by rewrite not_created.
  - by apply safe_done.
Qed.

Lemma safe_begin s i c e : inv s -> calls s !! i = Some (c, Starting) -> safe_update s i c Starting (disk s) (begin c e).
Proof.
  intros Hinv Hi. unfold begin. destruct (operation c) as [id|id ab|id| |id source ab] eqn:Hop.
  - apply begin_after; try done. intros q Hq ts. unfold call_ok. simpl. by rewrite Hop.
  - destruct ab; [by apply safe_done|]. apply begin_after; try done. intros q Hq ts. by exists id.
  - apply begin_after; try done. intros q Hq ts. unfold call_ok. simpl. by rewrite Hop.
  - destruct (fault e); [apply safe_done; try done; unfold outcome_ok; by rewrite Hop|].
    apply safe_quiet; auto. unfold call_ok. simpl. by rewrite Hop.
  - destruct ab; [by apply safe_done|]. apply begin_after; try done. intros q Hq ts. by exists source, id.
Qed.

(** A put that finds its destination taken *)
Lemma exists_outcome s i c p p' q source n :
  inv s -> calls s !! i = Some (c, p) -> (forall q, has_created q (c, p) = false) -> putting c q source ->
  stat (disk s) q = Ok n -> outcome_ok (<[i := (c, p')]> (calls s)) c (Ok (Put_result (Storage.mkPut n exists_))).
Proof.
  intros Hinv Hi Hr Hp Hn. assert (Hpath := path_is_put _ _ _ Hp). destruct Hp as (id & Hop & Hq).
  destruct (stat_made s q n Hinv (object_path_of _ _ _ Hq) Hn) as (b & _ & Hm & ->).
  unfold outcome_ok. rewrite Hop. exists q, b. split_and!; [done..|].
  apply (made_update _ _ _ p); [done| |done]. intros q'. by rewrite Hr.
Qed.

(** The last awaited call of a delete, a head or a health check *)
Lemma safe_acting s i c q e d' p' :
  inv s -> calls s !! i = Some (c, Acting q) -> advance (disk s) c (Acting q) e = (d', p') ->
  safe_update s i c (Acting q) d' p'.
Proof.
  intros Hinv Hi Ha. assert (Hc := inv_calls _ Hinv _ _ Hi). unfold call_ok in Hc. simpl in Ha, Hc.
  destruct (operation c) as [id|id ab|id| |id source ab] eqn:Hop; try done.
  - destruct (attempt e _) as [d1|err] eqn:Hu; injection Ha as <- <-.
    + apply attempt_Ok in Hu as [Hu _]. eapply safe_unlink; try done; [|unfold outcome_ok; by rewrite Hop].
      intros j c2 p2 _ Hj Ht. destruct (inv_hidden _ Hinv _ _ _ _ Hj Ht) as [H _].
      apply object_path_of in Hc. congruence.
    + apply safe_done; try done. unfold outcome_ok. case_match; [|done]. simplify_eq/=. case_match; simplify_eq. by rewrite Hop.
  - injection Ha as <- <-. apply safe_done; try done.
    assert (forall n, n = None \/ (exists b, made (calls s) q b /\ n = Some (byteLength b)) ->
      outcome_ok (<[i := (c, Done (Ok (Head_of n)))]> (calls s)) c (Ok (Head_of n))) as Hout.
    { intros n Hn. unfold outcome_ok. rewrite Hop. destruct Hn as [->|(b & Hm & ->)]; [by left|]. right.
      exists q, b. split_and!; [|by apply (made_update _ _ _ (Acting q))|done].
      unfold path_is. rewrite Hop, Hc. by apply bool_decide_eq_true. }
    destruct (attempt e _) as [n|err] eqn:Hn; [|case_match; [apply Hout; by left|done]].
    apply attempt_Ok in Hn as [Hn _]. apply Hout. right. apply object_path_of in Hc.
    destruct (stat_made s q n Hinv Hc Hn) as (b & _ & Hm & ->). eauto.
  - injection Ha as <- <-. apply safe_done; try done. unfold outcome_ok. by rewrite Hop.
Qed.

Lemma safe_advance s i c p e d' p' :
  inv s -> calls s !! i = Some (c, p) -> is_done p = false -> advance (disk s) c p e = (d', p') ->
  safe_update s i c p d' p'.
Proof.
  intros Hinv Hi Hnd Ha. assert (Hc := inv_calls _ Hinv _ _ Hi). unfold call_ok in Hc.
  destruct p as [|q|q|q|q tmp h len rest|q tmp h len|q tmp h len|q tmp len|q tmp|tmp o|q|h|q|o]; simpl in Ha, Hc; try done.
  - injection Ha as <- <-. by apply safe_begin.
  - injection Ha as <- <-. destruct (attempt e _); [|by apply safe_done]. by apply safe_quiet; auto.
  - destruct Hc as [source Hp]. injection Ha as <- <-. destruct (attempt e _) as [n|err] eqn:Hn.
    + apply attempt_Ok in Hn as [Hn _]. apply safe_done; try done. eapply exists_outcome; try done.
      intros q'. by apply not_created.
    + case_match; [|by apply safe_done]. apply safe_quiet; auto. by exists source.
  - destruct Hc as [source Hp]. assert (Hop := Hp). destruct Hop as (id & Hop & Hq). rewrite Hop in Ha.
    destruct (attempt e _) as [[d1 h]|err] eqn:Ho; injection Ha as <- <-; [|by apply safe_done].
    apply attempt_Ok in Ho as [Ho _]. by eapply safe_open.
  - by eapply safe_write.
  - injection Ha as <- <-. assert (Hop := Hc). destruct Hop as (_ & b & (id & source & Hop & _) & _).
    destruct (attempt e _); [by apply safe_quiet; auto|]. apply safe_abandon; try done; [|eauto]. intros; by apply not_created.
  - injection Ha as <- <-. assert (Hop := Hc). destruct Hop as (_ & b & (id & source & Hop & _) & _).
    destruct (attempt e _); [by apply safe_quiet; auto|]. apply safe_abandon; try done; [|eauto]. intros; by apply not_created.
  - assert (Hop := Hc). destruct Hop as (_ & b & Hp & _). destruct (attempt e _) as [d1|err] eqn:Hl; injection Ha as <- <-.
    + apply attempt_Ok in Hl as [Hl _]. by eapply safe_link.
    + case_match.
      * apply safe_quiet; auto. by exists b.
      * apply safe_abandon; try done; [intros; by apply not_created|]. destruct Hp as (id & source & ? & _). eauto.
  - destruct Hc as (b & id & source & Hop & Hq & _). injection Ha as <- <-. destruct (attempt e _) as [n|err] eqn:Hn.
    + apply attempt_Ok in Hn as [Hn _]. apply safe_quiet; auto. split; [eauto|].
      eapply (exists_outcome _ _ _ _ _ _ source); try done; [intros; by apply not_created|]. by exists id.
    + apply safe_abandon; try done; [intros; by apply not_created|eauto].
  - destruct Hc as [_ Ho].
    assert (Hout : outcome_ok (<[i := (c, Done o)]> (calls s)) c o)
      by (eapply outcome_update; [|done]; intros q b; by apply (made_update _ _ _ (Cleaning tmp o))).
    destruct (attempt e _) as [d1|err] eqn:Hu; injection Ha as <- <-; [|by apply safe_quiet; auto].
    apply attempt_Ok in Hu as [Hu _]. eapply safe_unlink; try done.
    intros j c2 p2 Hne Hj Ht. apply Hne. by eapply (inv_apart _ Hinv j i).
  - injection Ha as <- <-. destruct (attempt e _) as [h|err] eqn:Hr.
    + apply attempt_Ok in Hr as [Hr _]. by eapply safe_read.
    + destruct Hc as (id & Hop & _). apply safe_done; try done. unfold caught_by_get.
      repeat case_match; try done. unfold outcome_ok. rewrite Hop. by left.
  - injection Ha as <- <-. destruct Hc as (id & q & b & Hop & Hq & Hb & Hm). apply safe_done; try done.
    rewrite Hb. simpl. destruct (attempt e _) as [b'|err] eqn:Hr.
    + apply attempt_Ok in Hr as [[= <-] _]. unfold outcome_ok. rewrite Hop. right. exists q, b.
      split_and!; [|by apply (made_update _ _ _ (Reading h))|done]. unfold path_is. rewrite Hop, Hq. by apply bool_decide_eq_true.
    + unfold caught_by_get. repeat case_match; try done. unfold outcome_ok. rewrite Hop. by left.
  - by eapply safe_acting.
Qed.

Lemma step_inv s s' : inv s -> step s s' -> inv s'.
Proof.
  intros Hinv [c|i c p e d' p' Hi Hnd _ Ha]; [|eapply update_inv; [done..|by eapply safe_advance]].
  assert (Hnew : forall j t, (calls s ++ [(c, Starting)]) !! j = Some t -> calls s !! j = Some t \/ t = (c, Starting)).
  { intros j t [H|[_ H]]%lookup_app_Some; [by left|]. apply list_lookup_singleton_Some in H as [_ <-]. by right. }
  assert (Hm : forall q b, made (calls s) q b -> made (calls s ++ [(c, Starting)]) q b).
  { intros q b (j & t & Hj & H). exists j, t. split; [by apply lookup_app_l_Some|done]. }
  constructor; simpl.
  - apply (inv_entries _ Hinv).
  - intros j t [H| ->]%Hnew; [|done]. eapply call_frame; [exact Hm|done|done|]. by eapply inv_calls.
  - intros j c2 p2 tmp [H|[= -> ->]]%Hnew Ht; [|done]. by eapply inv_hidden.
  - intros j k c2 c3 p2 p3 tmp [Hj|[= -> ->]]%Hnew [Hk|[= -> ->]]%Hnew Ht Ht'; try done. by eapply inv_apart.
  - intros q h Hq Hh. destruct (inv_objects _ Hinv q h Hq Hh) as (b & ? & ?). eauto.
  - intros j c2 p2 tmp h [Hj|[= -> ->]]%Hnew Hd; [|done]. destruct (inv_drafts _ Hinv j c2 p2 tmp h Hj Hd) as [? Hr].
    split; [done|]. intros k c3 [Hk|[=]]%Hnew. by eapply Hr.
Qed.

Lemma initial_inv : inv initial.
Proof. constructor; simpl; try done. Qed.

Lemma reachable_inv s : reachable s -> inv s.
Proof. intros H. eapply (rtc_ind_r inv); [apply initial_inv| |exact H]. intros ??? ? ?. by eapply step_inv. Qed.

(** ** What a step does to the objects *)

Lemma objects_lookup d q : objects d !! q = if object_path q then content d q else None.
Proof.
  unfold objects, content. rewrite lookup_omap, map_lookup_filter.
  destruct (entries d !! q) as [h|]; simpl; [|by destruct (object_path q)].
  destruct (object_path q) eqn:Hq; [by rewrite option_guard_True|by rewrite option_guard_False by (simpl; congruence)].
Qed.

(** Only what is under the paths of objects counts. *)
Lemma objects_eq d d' : (forall q, object_path q = true -> content d' q = content d q) -> objects d' = objects d.
Proof. intros H. apply map_eq. intros q. rewrite !objects_lookup. destruct (object_path q) eqn:Hq; [by apply H|done]. Qed.

Lemma objects_open s q h d' : inv s -> object_path q = false -> open_new (disk s) q = Ok (d', h) -> objects d' = objects (disk s).
Proof.
  intros Hinv Hq Ho. unfold open_new in Ho. apply bind_Ok in Ho as (u & _ & [= <- <-]). apply objects_eq.
  intros q' Hq'. unfold content. simpl. rewrite lookup_insert_ne by congruence.
  destruct (entries (disk s) !! q') as [h|] eqn:Hh; [|done]. simpl. apply lookup_app_l. by eapply inv_entries.
Qed.

Lemma objects_append s i c p tmp h b : inv s -> calls s !! i = Some (c, p) -> draft_of p = Some (tmp, h) ->
  objects (append (disk s) h b) = objects (disk s).
Proof.
  intros Hinv Hi Hd. destruct (inv_drafts _ Hinv _ _ _ _ _ Hi Hd) as [Hown _].
  destruct (inv_hidden _ Hinv _ _ _ _ Hi (draft_temporary _ _ _ Hd)) as [Hhid _].
  apply objects_eq. intros q Hq. unfold content. simpl. destruct (entries (disk s) !! q) as [h'|] eqn:Hh; [|done]. simpl.
  apply list_lookup_alter_ne. intros <-. apply Hown in Hh as ->. congruence.
Qed.

Lemma objects_link d tmp q d' b : object_path q = true -> content d tmp = Some b -> link d tmp q = Ok d' ->
  objects d !! q = None /\ objects d' = <[q := b]> (objects d).
Proof.
  intros Hq Hb Hl. unfold link in Hl.
  apply bind_Ok in Hl as (h & Hh%defined_Ok & (u & H0%require_Ok%bool_decide_eq_true & [= <-])%bind_Ok).
  unfold content in Hb. rewrite Hh in Hb. simpl in Hb. split; [rewrite objects_lookup, Hq; unfold content; by rewrite H0|].
  apply map_eq. intros q'. rewrite objects_lookup. unfold content. simpl. destruct (decide (q' = q)) as [->|Hne].
  - rewrite Hq, !lookup_insert_eq. done.
  - by rewrite !lookup_insert_ne, objects_lookup by done.
Qed.

Lemma objects_unlink d q d' : unlink d q = Ok d' -> objects d' = base.delete q (objects d).
Proof.
  intros Hu. unfold unlink in Hu. apply bind_Ok in Hu as (h & _ & [= <-]). apply map_eq. intros q'.
  rewrite objects_lookup. unfold content. simpl. destruct (decide (q' = q)) as [->|Hne].
  - rewrite !lookup_delete_eq. by destruct (object_path q).
  - by rewrite !lookup_delete_ne, objects_lookup by done.
Qed.

Lemma objects_hidden d q : object_path q = false -> base.delete q (objects d) = objects d.
Proof. intros H. apply delete_id. by rewrite objects_lookup, H. Qed.

Lemma stat_objects d q : object_path q = true -> stat d q = defined (byteLength <$> objects d !! q) (Errno "ENOENT").
Proof. intros H. by rewrite objects_lookup, H. Qed.

(** An object with an entry has a content. *)
Lemma objects_entry s q : inv s -> object_path q = true ->
  objects (disk s) !! q = None <-> entries (disk s) !! q = None.
Proof.
  intros Hinv Hq. rewrite objects_lookup, Hq. unfold content. destruct (entries (disk s) !! q) as [h|] eqn:Hh; [|done].
  destruct (inv_objects _ Hinv q h Hq Hh) as (b & Hb & _). simpl. by rewrite Hb.
Qed.

(** ** A step is one of the map *)

Lemma attempt_code {X} e (r : result Failure X) err code :
  plausible e -> code = "ENOENT"%string \/ code = "EEXIST"%string -> attempt e r = Throw err -> hasCode err code = true -> r = Throw err.
Proof.
  intros [H1 H2] Hc Ha Hcode. unfold attempt in Ha. destruct (fault e) as [f|]; [|done]. injection Ha as <-.
  apply String.eqb_eq in Hcode. simpl in Hcode. subst f. by destruct Hc as [->| ->].
Qed.

Definition follows (c : Call) (d d' : Disk) (before after : option Answer) : Prop :=
  match before with
  | Some a => objects d' = objects d /\
      (after = Some a \/ after = None /\ exists st id abort cs, c = mkCall st (Get id abort) /\ a = Chunks cs)
  | None => match after with Some a => perform c (objects d) = Ok (a, objects d') | None => objects d' = objects d end
  end.

Lemma begin_unanswered d c e : answer_of d (begin c e) = None.
Proof.
  unfold begin. destruct (operation c) as [id|id []|id| |id source []]; try done; try (by destruct (attempt e _)).
  by destruct (fault e).
Qed.

Lemma follows_acting s i c q e d' p' :
  inv s -> calls s !! i = Some (c, Acting q) -> plausible e -> advance (disk s) c (Acting q) e = (d', p') ->
  follows c (disk s) d' None (answer_of d' p').
Proof.
  intros Hinv Hi He Ha. assert (Hc := inv_calls _ Hinv _ _ Hi). unfold call_ok in Hc. simpl in Ha, Hc.
  destruct (operation c) as [id|id ab|id| |id source ab] eqn:Hop; try done.
  - assert (Hq := object_path_of _ _ _ Hc). assert (Hent := objects_entry s q Hinv Hq).
    assert (Hperf : perform c (objects (disk s)) = Ok (Was_deleted (bool_decide (is_Some (objects (disk s) !! q))), base.delete q (objects (disk s))))
      by (unfold perform; by rewrite Hop, Hc).
    destruct (attempt e _) as [d1|err] eqn:Hu; injection Ha as <- <-; simpl.
    + apply attempt_Ok in Hu as [Hu _]. rewrite Hperf, (objects_unlink _ _ _ Hu). do 3 f_equal. apply bool_decide_eq_true.
      apply not_eq_None_Some. intros H%Hent. unfold unlink in Hu. by rewrite H in Hu.
    + destruct (hasCode err "ENOENT") eqn:Hcode; [|done]. eapply attempt_code in Hu; [|done|by left|done].
      simpl. rewrite Hperf. unfold unlink in Hu. destruct (entries (disk s) !! q) eqn:Hn; [done|].
      assert (objects (disk s) !! q = None) as -> by (by apply Hent). by rewrite delete_id by (by apply Hent).
  - injection Ha as <- <-. assert (Hq := object_path_of _ _ _ Hc). rewrite (stat_objects _ _ Hq). simpl.
    assert (Hperf : perform c (objects (disk s)) = Ok (Head_of (byteLength <$> objects (disk s) !! q), objects (disk s)))
      by (unfold perform; by rewrite Hop, Hc).
    destruct (attempt e _) as [n|err] eqn:Hn.
    + apply attempt_Ok in Hn as [Hn%defined_Ok _]. by rewrite Hperf, Hn.
    + destruct (hasCode err "ENOENT") eqn:Hcode; [|done]. eapply attempt_code in Hn; [|done|by left|done].
      apply defined_Throw in Hn as [Hn _]. simpl. by rewrite Hperf, Hn.
  - injection Ha as <- <-. simpl. destruct (fault e); [done|]. unfold perform. by rewrite Hop.
Qed.

(** A put that finds the object there *)
Lemma follows_exists s c q source e n : putting c q source -> attempt e (stat (disk s) q) = Ok n ->
  perform c (objects (disk s)) = Ok (Put_result (Storage.mkPut n exists_), objects (disk s)).
Proof.
  intros (id & Hop & Hq) [Hn _]%attempt_Ok. rewrite stat_objects in Hn by (by eapply object_path_of).
  apply defined_Ok, fmap_Some in Hn as (b & Hb & ->). unfold perform. rewrite Hop, Hq. simpl. by rewrite Hb.
Qed.

Lemma follows_link s i c q tmp len d' :
  inv s -> calls s !! i = Some (c, Linking q tmp len) -> link (disk s) tmp q = Ok d' ->
  perform c (objects (disk s)) = Ok (Put_result (Storage.mkPut len created), objects d').
Proof.
  intros Hinv Hi Hl. destruct (inv_calls _ Hinv _ _ Hi) as (h & b & (id & source & Hop & Hq & Hs) & -> & Hh & Hb).
  simpl in *. apply (objects_link _ _ _ _ b) in Hl as [Hn ->]; [|by eapply object_path_of|by unfold content; rewrite Hh].
  unfold perform. rewrite Hop, Hq. simpl. by rewrite Hn, Hs.
Qed.

Lemma follows_read s i c q h e : inv s -> calls s !! i = Some (c, Finding q) -> plausible e ->
  let p' := match attempt e (open_read (disk s) q) with Ok handle => Reading handle | Throw err => Done (caught_by_get err) end in
  follows c (disk s) (disk s) None (answer_of (disk s) p') /\ (p' = Reading h -> exists b, files (disk s) !! h = Some b).
Proof.
  intros Hinv Hi He. destruct (inv_calls _ Hinv _ _ Hi) as (id & Hop & Hq). simpl in *.
  assert (Hobj := object_path_of _ _ _ Hq).
  assert (Hperf : perform c (objects (disk s)) = Ok (Chunks (match objects (disk s) !! q with Some b => [b] | None => [] end), objects (disk s)))
    by (unfold perform; by rewrite Hop, Hq).
  destruct (attempt e _) as [h'|err] eqn:Hr.
  - apply attempt_Ok in Hr as [Hr%defined_Ok _]. destruct (inv_objects _ Hinv q h' Hobj Hr) as (b & Hb & _).
    split; [|intros [= <-]; by exists b]. simpl. rewrite Hb. simpl. rewrite Hperf, objects_lookup, Hobj. unfold content.
    rewrite Hr. simpl. by rewrite Hb.
  - split; [|done]. unfold caught_by_get. destruct (hasCode err "ENOENT") eqn:Hcode; [|by destruct (hasCode err "ABORT_ERR")].
    eapply attempt_code in Hr; [|done|by left|done]. apply defined_Throw in Hr as [Hr _].
    apply (objects_entry s q Hinv Hobj) in Hr. simpl. by rewrite Hperf, Hr.
Qed.

(** One awaited call is nothing, or all of its operation, on the map. *)
Lemma advance_follows s i c p e d' p' :
  inv s -> calls s !! i = Some (c, p) -> is_done p = false -> plausible e -> advance (disk s) c p e = (d', p') ->
  follows c (disk s) d' (answer_of (disk s) p) (answer_of d' p').
Proof.
  intros Hinv Hi Hnd He Ha. assert (Hc := inv_calls _ Hinv _ _ Hi). unfold call_ok in Hc.
  destruct p as [|q|q|q|q tmp h len rest|q tmp h len|q tmp h len|q tmp len|q tmp|tmp o|q|h|q|o]; simpl in Hc; try done.
  - injection Ha as <- <-. by rewrite begin_unanswered.
  - simpl in Ha. injection Ha as <- <-. by destruct (attempt e _).
  - destruct Hc as [source Hp]. simpl in Ha. injection Ha as <- <-. destruct (attempt e _) as [n|err] eqn:Hn.
    + by eapply follows_exists.
    + by destruct (hasCode err "ENOENT").
  - destruct Hc as [source (id & Hop & Hq)]. simpl in Ha. rewrite Hop in Ha.
    destruct (attempt e _) as [[d1 h]|err] eqn:Ho; injection Ha as <- <-; [|done].
    apply attempt_Ok in Ho as [Ho _]. simpl. eapply objects_open; [done| |done]. apply pending_no_object.
  - simpl in Ha. unfold write_next in Ha. destruct rest as [|k rest]; [injection Ha as <- <-; by destruct (fault e)|].
    destruct (admit_chunk _ _ _), (fault e); injection Ha as <- <-; try done; simpl; by eapply objects_append.
  - simpl in Ha. injection Ha as <- <-. by destruct (attempt e _).
  - simpl in Ha. injection Ha as <- <-. by destruct (attempt e _).
  - simpl in Ha. destruct (attempt e _) as [d1|err] eqn:Hl; injection Ha as <- <-.
    + apply attempt_Ok in Hl as [Hl _]. by eapply follows_link.
    + by destruct (hasCode err "EEXIST").
  - destruct Hc as (b & id & source & Hop & Hq & _). simpl in Ha. injection Ha as <- <-.
    destruct (attempt e _) as [n|err] eqn:Hn; [|done]. eapply (follows_exists _ _ q source); [|done]. by exists id.
  - simpl in Ha. assert (Hob : forall d1, attempt e (unlink (disk s) tmp) = Ok d1 -> objects d1 = objects (disk s)).
    { intros d1 [Hu _]%attempt_Ok. rewrite (objects_unlink _ _ _ Hu). apply objects_hidden.
      by apply (inv_hidden _ Hinv i c (Cleaning tmp o)). }
    assert (Hd : objects d' = objects (disk s)) by (destruct (attempt e _) as [d1|]; injection Ha as <- <-; auto).
    injection Ha as _ <-. destruct o as [a|err]; [|done]. by destruct a as [?|?|?|[]|?]; simpl; auto.
  - simpl in Ha. injection Ha as <- <-. by apply (follows_read s i c q 0).
  - destruct Hc as (id & q & b & Hop & Hq & Hb & _). simpl in Ha. injection Ha as <- <-. rewrite Hb. simpl. rewrite Hb.
    simpl. split; [done|]. destruct (attempt e _) as [b'|err] eqn:Hr; simpl.
    + apply attempt_Ok in Hr as [[= <-] _]. by left.
    + right. split; [|destruct c; simpl in *; subst; eauto 8]. unfold caught_by_get.
      destruct (hasCode err "ENOENT") eqn:Hcode; [|by destruct (hasCode err "ABORT_ERR")].
      by eapply attempt_code in Hr; [|done|by left|done].
  - by eapply follows_acting.
Qed.

Lemma answered_update s i c p d' p' :
  inv s -> calls s !! i = Some (c, p) -> safe_update s i c p d' p' ->
  answered (mkSystem d' (<[i := (c, p')]> (calls s))) = <[i := (c, answer_of d' p')]> (answered s).
Proof.
  intros Hinv Hi Hs. unfold answered. simpl. rewrite list_fmap_insert. simpl.
  apply list_eq. intros j. destruct (decide (j = i)) as [->|Hne].
  - assert (i < length (calls s))%nat by (by eapply lookup_lt_Some). by rewrite !list_lookup_insert_eq by (by rewrite length_fmap).
  - rewrite !list_lookup_insert_ne, !list_lookup_fmap by done. destruct (calls s !! j) as [[c2 p2]|] eqn:Hj; [|done].
    simpl. do 2 f_equal. destruct p2 as [| | | | | | | | | | |h| |]; try done. simpl.
    destruct (inv_calls _ Hinv _ _ Hj) as (_ & _ & b & _ & _ & Hb & _). simpl in Hb. rewrite Hb. f_equal.
    apply (up_files _ _ _ _ _ _ Hs); [done|]. intros tmp Hd. by eapply (inv_drafts _ Hinv i c p tmp h).
Qed.

Lemma step_spec s s' : inv s -> step s s' -> spec_of s' = spec_of s \/ spec_step (spec_of s) (spec_of s').
Proof.
  intros Hinv [c|i c p e d' p' Hi Hnd He Ha].
  - right. unfold spec_of, answered. simpl. rewrite fmap_app. constructor.
  - assert (Hf := advance_follows s i c p e d' p' Hinv Hi Hnd He Ha).
    apply safe_advance with (s := s) (i := i) in Ha as Hs; [|done..].
    assert (Hli : answered s !! i = Some (c, answer_of (disk s) p)) by (unfold answered; by rewrite list_lookup_fmap, Hi).
    unfold spec_of. rewrite (answered_update s i c p d' p') by done. simpl.
    destruct (answer_of (disk s) p) as [a|]; simpl in Hf.
    + destruct Hf as [-> [->|[-> (st & id & ab & cs & -> & ->)]]]; [left; by rewrite list_insert_id|].
      right. by eapply spec_cancel.
    + destruct (answer_of d' p') as [a|]; [right; by eapply spec_perform|]. left. by rewrite Hf, list_insert_id.
Qed.

Lemma reachable_spec s : reachable s -> rtc spec_step (∅, []) (spec_of s).
Proof.
  intros H. cut (inv s /\ rtc spec_step (∅, []) (spec_of s)); [by intros []|].
  revert s H. apply rtc_ind_r.
  - split; [apply initial_inv|]. unfold spec_of, answered. simpl.
    replace (objects (mkDisk ∅ [])) with (∅ : gmap path bytes); [constructor|]. apply map_eq. intros q.
    rewrite objects_lookup. unfold content. simpl. rewrite !lookup_empty. by destruct (object_path q).
  - intros s s' _ Hs [Hinv IH]. split; [by eapply step_inv|].
    destruct (step_spec s s' Hinv Hs) as [->|Hstep]; [done|]. by eapply rtc_r.
Qed.

(** ** Counting *)

Definition present (m : gmap path bytes) (q : path) : Z := if bool_decide (is_Some (m !! q)) then 1 else 0.

Lemma count_app f l k : count f (l ++ k) = count f l + count f k.
Proof. unfold count. rewrite filter_app, length_app. lia. Qed.

Lemma count_cons f t l : count f (t :: l) = Z.b2z (f t) + count f l.
Proof.
  unfold count. rewrite filter_cons. destruct (f t) eqn:H; [rewrite decide_True by done|rewrite decide_False by done]; simpl; lia.
Qed.

Lemma count_single f t : count f [t] = Z.b2z (f t).
Proof. rewrite count_cons. unfold count. rewrite filter_nil. simpl. lia. Qed.

Lemma count_update f l (i : nat) t t' : l !! i = Some t -> count f (<[i := t']> l) = count f l - Z.b2z (f t) + Z.b2z (f t').
Proof.
  intros Hi. rewrite insert_take_drop by (by eapply lookup_lt_Some).
  assert (Hl := f_equal (count f) (take_drop_middle l i t Hi)).
  rewrite count_app, count_cons in *. lia.
Qed.

Lemma unanswered_uncounted q c : created_at q (c, None) = false /\ removed_at q (c, None) = false.
Proof. unfold created_at, removed_at. simpl. by rewrite !andb_false_r. Qed.

Lemma chunks_uncounted q c cs : created_at q (c, Some (Chunks cs)) = false /\ removed_at q (c, Some (Chunks cs)) = false.
Proof. unfold created_at, removed_at. simpl. by rewrite !andb_false_r. Qed.

Lemma present_insert m q p b : m !! p = None -> present (<[p := b]> m) q = present m q + Z.b2z (bool_decide (p = q)).
Proof.
  intros Hp. unfold present. destruct (decide (p = q)) as [->|Hne].
  - rewrite lookup_insert_eq, Hp. by rewrite (bool_decide_true (q = q)).
  - rewrite lookup_insert_ne, (bool_decide_false (p = q)) by done. simpl. lia.
Qed.

Lemma present_delete m q p :
  present (base.delete p m) q = present m q - Z.b2z (bool_decide (p = q) && bool_decide (is_Some (m !! p))).
Proof.
  unfold present. destruct (decide (p = q)) as [->|Hne].
  - rewrite lookup_delete_eq, (bool_decide_true (q = q)), (bool_decide_false (is_Some None)) by (done || by intros []).
    by destruct (bool_decide _).
  - rewrite lookup_delete_ne, (bool_decide_false (p = q)) by done. simpl. lia.
Qed.

(** What an operation adds to the map and takes from it is what its answer says. *)
Lemma perform_counted c m a m' q : perform c m = Ok (a, m') ->
  present m' q = present m q + Z.b2z (created_at q (c, Some a)) - Z.b2z (removed_at q (c, Some a)).
Proof.
  unfold perform, created_at, removed_at, path_is. simpl.
  destruct (operation c) as [id|id ab|id| |id source ab]; intros H; inv_result; simplify_eq/=;
    try (match goal with H : path_of _ _ = Ok _ |- _ => rewrite H end); rewrite ?andb_false_r; simpl; try lia.
  - rewrite present_delete. by rewrite Z.add_0_r.
  - match goal with H : match ?m !! ?p with _ => _ end = _ |- _ => destruct (m !! p) as [b|] eqn:Hp end; inv_result; simplify_eq/=.
    + rewrite andb_false_r. simpl. lia.
    + rewrite andb_true_r, andb_false_r, present_insert by done. simpl. lia.
Qed.

Lemma spec_balanced st q : rtc spec_step (∅, []) st ->
  count (created_at q) st.2 = count (removed_at q) st.2 + present st.1 q.
Proof.
  revert st. apply rtc_ind_r; [simpl; unfold present; by rewrite lookup_empty|].
  intros st st' _ Hs IH. destruct Hs as [m l c|m l i c a m' Hi Hp|m l i st id ab cs Hi]; simpl in *.
  - rewrite !count_app, !count_single. destruct (unanswered_uncounted q c) as [-> ->]. simpl. lia.
  - rewrite !(count_update _ l i (c, None)) by done. destruct (unanswered_uncounted q c) as [-> ->].
    rewrite (perform_counted c m a m' q) by done. simpl. lia.
  - rewrite !(count_update _ l i _ _ Hi). destruct (unanswered_uncounted q (mkCall st (Get id ab))) as [-> ->].
    destruct (chunks_uncounted q (mkCall st (Get id ab)) cs) as [-> ->]. simpl. lia.
Qed.

(** ** Every call ends *)

Lemma begin_remaining c e : (remaining c (begin c e) < rounds c)%nat.
Proof.
  unfold begin, rounds. destruct (operation c) as [id|id ab|id| |id source ab] eqn:Hop;
    try destruct ab; try (destruct (attempt e _)); try (destruct (fault e)); simpl; unfold rounds; rewrite ?Hop; lia.
Qed.

(** However the others and the faults go, one awaited call less is left. *)
Lemma advance_remaining s i c p e d' p' :
  inv s -> calls s !! i = Some (c, p) -> is_done p = false -> advance (disk s) c p e = (d', p') ->
  (remaining c p' < remaining c p)%nat.
Proof.
  intros Hinv Hi Hnd Ha. assert (Hc := inv_calls _ Hinv _ _ Hi). unfold call_ok in Hc.
  assert (Hput : forall q source, putting c q source -> rounds c = (10 + length source)%nat)
    by (intros q source (id & Hop & _); unfold rounds; by rewrite Hop).
  destruct p as [|q|q|q|q tmp h len rest|q tmp h len|q tmp h len|q tmp len|q tmp|tmp o|q|h|q|o]; simpl in Hc; try done.
  - injection Ha as <- <-. apply begin_remaining.
  - destruct Hc as [source Hp%Hput]. simpl in Ha. injection Ha as <- <-. destruct (attempt e _); simpl; lia.
  - destruct Hc as [source Hp%Hput]. simpl in Ha. injection Ha as <- <-.
    destruct (attempt e _); [|destruct (hasCode _ _)]; simpl; lia.
  - destruct Hc as [source Hp]. assert (Hr := Hput _ _ Hp). destruct Hp as (id & Hop & Hq). simpl in Ha. rewrite Hop in Ha.
    destruct (attempt e _) as [[]|]; injection Ha as <- <-; simpl; lia.
  - simpl in Ha. unfold write_next in Ha. destruct rest as [|k rest]; [destruct (fault e); injection Ha as <- <-; simpl; lia|].
    destruct (admit_chunk _ _ _), (fault e); injection Ha as <- <-; simpl; lia.
  - simpl in Ha. injection Ha as <- <-. destruct (attempt e _); simpl; lia.
  - simpl in Ha. injection Ha as <- <-. destruct (attempt e _); simpl; lia.
  - simpl in Ha. destruct (attempt e _); injection Ha as <- <-; [|destruct (hasCode _ _)]; simpl; lia.
  - simpl in Ha. injection Ha as <- <-. simpl. lia.
  - simpl in Ha. injection Ha as <- <-. simpl. lia.
  - simpl in Ha. injection Ha as <- <-. destruct (attempt e _); simpl; lia.
  - simpl in Ha. injection Ha as <- <-. simpl. lia.
  - simpl in Ha. destruct (operation c); try done; [destruct (attempt e _)| |]; injection Ha as <- <-; simpl; lia.
Qed.

(** ** A call alone *)

Section Alone.
Context (c : Call) (drawn : bytes).
Notation run n d p := (finish n d c p drawn).
Notation tmp := (resolve (directory (store_of c)) (pending drawn)).

Lemma finish_done n d o : run n d (Done o) = (d, Done o).
Proof. by destruct n. Qed.

Lemma finish_next n d p : is_done p = false ->
  run (S n) d p = (let '(d', p') := advance d c p (mkEvent drawn None 0) in run n d' p').
Proof. intros H. simpl. by rewrite H. Qed.

#[local] Opaque finish.

(** The loop of a put writes what [collect] collects, or stops with its error. *)
Lemma finish_writing n E F q t rest acc :
  match Memory.collect_from (maxObjectBytes (store_of c)) (byteLength acc) acc rest with
  | Ok b => run (length rest + S n) (mkDisk E (F ++ [acc])) (Writing q t (length F) (byteLength acc) rest) =
      run n (mkDisk E (F ++ [b])) (Syncing q t (length F) (byteLength b))
  | Throw err => exists k b, run (length rest + S n) (mkDisk E (F ++ [acc])) (Writing q t (length F) (byteLength acc) rest) =
      run (k + n) (mkDisk E (F ++ [b])) (Cleaning t (Throw (StoreError err)))
  end.
Proof.
  revert acc. induction rest as [|k rest IH]; intros acc; [done|].
  rewrite collect_from_cons. change (length (k :: rest) + S n)%nat with (S (length rest + S n)).
  rewrite finish_next by done. simpl. destruct (admit_chunk _ _ _) as [m|err] eqn:Hk.
  - apply admit_chunk_Ok in Hk as ->. unfold append. simpl. rewrite alter_app_r_alt, Nat.sub_diag by done. simpl.
    rewrite <- byteLength_app. apply IH.
  - destruct err as [err|code]; [|by unfold admit_chunk in Hk; destruct k as [? []]; simpl in Hk; [|destruct (_ <? _)]].
    exists (S (length rest)), acc. f_equal. simpl. lia.
Qed.

Lemma objects_files E F F' : (forall q h, E !! q = Some h -> (h < length F)%nat) ->
  objects (mkDisk E (F ++ F')) = objects (mkDisk E F).
Proof.
  intros Hb. apply objects_eq. intros q _. unfold content. simpl. destruct (E !! q) as [h|] eqn:Hq; [|done]. simpl.
  apply lookup_app_l. by eapply Hb.
Qed.

Lemma finish_cleaning n E F t h o : E !! t = Some h -> run (S n) (mkDisk E F) (Cleaning t o) = (mkDisk (base.delete t E) F, Done o).
Proof. intros Ht. rewrite finish_next by done. simpl. unfold unlink. simpl. rewrite Ht. simpl. apply finish_done. Qed.

(** What [finish] should come to: the operation on the map, and nothing left over *)
Definition comes_to (d : Disk) (r : Disk * Phase) : Prop :=
  (forall q, object_path q = false -> entries r.1 !! q = entries d !! q) /\
  match perform c (objects d) with
  | Ok (a, m') => r.2 = Done (Ok a) /\ objects r.1 = m'
  | Throw err => r.2 = Done (Throw err) /\ objects r.1 = objects d
  end.

Lemma alone_put n d id source q :
  operation c = Put id source false -> path_of (store_of c) id = Ok q ->
  (forall q h, entries d !! q = Some h -> (h < length (files d))%nat) -> entries d !! tmp = None -> entries d !! q = None ->
  comes_to d (run (7 + length source + n) d (Opening q)).
Proof.
  destruct d as [E F]. intros Hop Hq Hb Htmp Hfree. simpl in Hb, Htmp, Hfree. assert (Hobj := object_path_of _ _ _ Hq).
  assert (Hne : tmp <> q) by (intros Heq; pose proof (pending_no_object (directory (store_of c)) drawn); congruence).
  assert (Hm : objects (mkDisk E F) !! q = None) by (rewrite objects_lookup, Hobj; unfold content; simpl; by rewrite Hfree).
  unfold comes_to, perform. rewrite Hop, Hq. simpl mbind. rewrite Hm.
  replace (7 + length source + n)%nat with (S (length source + S (S (S (S (S (S n)))))))%nat by lia.
  rewrite finish_next by done. simpl advance. rewrite Hop. unfold open_new, attempt. simpl. rewrite bool_decide_true by done. simpl.
  pose proof (finish_writing (S (S (S (S (S n))))) (<[tmp := length F]> E) F q tmp source []) as Hw.
  unfold Memory.collect. change (byteLength []) with 0 in Hw.
  destruct (Memory.collect_from _ _ _ _) as [b|err]; simpl; unfold bytes in *.
  - rewrite Hw. do 2 (rewrite finish_next by done; simpl). rewrite finish_next by done. simpl. unfold link. simpl.
    rewrite lookup_insert_eq, lookup_insert_ne by done. simpl. rewrite bool_decide_true by done. simpl.
    rewrite (finish_cleaning _ _ _ _ (length F)) by (by rewrite lookup_insert_ne, lookup_insert_eq).
    rewrite (delete_insert_ne _ tmp q) by done. rewrite delete_insert_id by done. simpl. split_and!; [|done|].
    + intros q' Hq'. apply lookup_insert_ne. congruence.
    + apply map_eq. intros q'. destruct (decide (q' = q)) as [->|Hq'].
      * rewrite lookup_insert_eq, objects_lookup, Hobj. unfold content. simpl. rewrite lookup_insert_eq. simpl.
        by rewrite list_lookup_middle.
      * rewrite lookup_insert_ne by done. rewrite <- (objects_files E F [b]) by done. rewrite !objects_lookup.
        unfold content. simpl. by rewrite lookup_insert_ne.
  - destruct Hw as (k & b & ->). replace (k + S (S (S (S (S n)))))%nat with (S (k + S (S (S (S n)))))%nat by lia.
    rewrite (finish_cleaning _ _ _ _ (length F)) by (by rewrite lookup_insert_eq).
    rewrite delete_insert_id by done. simpl. split_and!; [done|done|]. by apply objects_files.
Qed.

Lemma path_of_fails st id : Memory.opaqueObjectId id = false -> path_of st id = Throw (StoreError invalid_object_id).
Proof. intros H. unfold path_of, Memory.validateObjectId. by rewrite H. Qed.

Lemma entry_cases s q : inv s -> object_path q = true ->
  (entries (disk s) !! q = None /\ objects (disk s) !! q = None) \/
  (exists h b, entries (disk s) !! q = Some h /\ files (disk s) !! h = Some b /\ objects (disk s) !! q = Some b).
Proof.
  intros Hinv Hq. rewrite objects_lookup, Hq. unfold content. destruct (entries (disk s) !! q) as [h|] eqn:Hh; [right|by left].
  destruct (inv_objects _ Hinv q h Hq Hh) as (b & Hb & _). by exists h, b.
Qed.

Lemma alone_acting s id q : inv s -> operation c = Delete id \/ operation c = Head id -> path_of (store_of c) id = Ok q ->
  comes_to (disk s) (run 2 (disk s) (Acting q)).
Proof.
  intros Hinv Hop Hq. assert (Hobj := object_path_of _ _ _ Hq). rewrite finish_next by done. simpl. unfold attempt. simpl.
  unfold comes_to, perform. destruct (entry_cases s q Hinv Hobj) as [[Hh Hm]|(h & b & Hh & Hb & Hm)], Hop as [Hop|Hop];
    rewrite Hop, Hq; simpl; rewrite ?stat_objects by done; unfold unlink; rewrite ?Hh, Hm; simpl; rewrite finish_done; simpl;
    split_and!; try done.
  - by rewrite delete_id.
  - intros q' Hq'. apply lookup_delete_ne. congruence.
  - apply (objects_unlink (disk s) q). unfold unlink. by rewrite Hh.
Qed.

Lemma alone_get s id q : inv s -> operation c = Get id false -> path_of (store_of c) id = Ok q ->
  comes_to (disk s) (run 2 (disk s) (Finding q)).
Proof.
  intros Hinv Hop Hq. assert (Hobj := object_path_of _ _ _ Hq). rewrite finish_next by done. simpl. unfold attempt. simpl.
  unfold comes_to, perform. rewrite Hop, Hq. simpl. unfold open_read.
  destruct (entry_cases s q Hinv Hobj) as [[-> ->]|(h & b & -> & Hb & ->)]; simpl; [by rewrite finish_done|].
  rewrite finish_next by done. simpl. rewrite Hb. simpl. by rewrite finish_done.
Qed.

(** Without faults a call comes to its operation on the map. *)
Lemma alone_comes_to s : inv s -> entries (disk s) !! tmp = None -> comes_to (disk s) (run (rounds c) (disk s) Starting).
Proof.
  intros Hinv Htmp. unfold rounds. destruct (operation c) as [id|id ab|id| |id source ab] eqn:Hop.
  all: try change (10 + length source)%nat with (S (S (S (7 + length source)))).
  all: rewrite finish_next by done; simpl; unfold begin; rewrite Hop; unfold attempt; simpl.
  - destruct (path_of _ _) as [q|err] eqn:Hq; [apply (alone_acting s id q); auto|]. rewrite finish_done.
    unfold comes_to, perform. by rewrite Hop, Hq.
  - destruct ab; [rewrite finish_done; unfold comes_to, perform; by rewrite Hop|].
    destruct (path_of _ _) as [q|err] eqn:Hq; [by apply (alone_get s id q)|]. rewrite finish_done.
    unfold comes_to, perform. by rewrite Hop, Hq.
  - destruct (path_of _ _) as [q|err] eqn:Hq; [apply (alone_acting s id q); auto|]. rewrite finish_done.
    unfold comes_to, perform. by rewrite Hop, Hq.
  - rewrite finish_next by done. simpl. rewrite Hop, finish_done. unfold comes_to, perform. by rewrite Hop.
  - destruct ab; [rewrite finish_done; unfold comes_to, perform; by rewrite Hop|].
    destruct (path_of _ _) as [q|err] eqn:Hq; [|rewrite finish_done; unfold comes_to, perform; by rewrite Hop, Hq].
    assert (Hobj := object_path_of _ _ _ Hq). do 2 (rewrite finish_next by done; simpl). unfold attempt. simpl.
    rewrite stat_objects by done. destruct (entry_cases s q Hinv Hobj) as [[Hh Hm]|(h & b & Hh & Hb & Hm)]; rewrite Hm; simpl.
    + replace (S (S (S (S (S (S (S (length source))))))))%nat with (7 + length source + 0)%nat by lia.
      eapply alone_put; try done. apply (inv_entries _ Hinv).
    + rewrite finish_done. unfold comes_to, perform. by rewrite Hop, Hq; simpl; rewrite Hm.
Qed.
End Alone.

(** ** The in-memory store is the same map *)

Section InMemory.
Context (st : FilesystemObjectStore) (ms : Memory.MemoryObjectStore) (Hmax : maxObjectBytes st = Memory.maxObjectBytes ms).

Definition same (m : gmap path bytes) (w : Memory.Objects) : Prop :=
  forall id p k, path_of st id = Ok p -> Memory.key ms id = Ok k -> m !! p = map_get k w.

(** An identifier has a path and a key, or neither. *)
Lemma names id :
  (exists p k, path_of st id = Ok p /\ Memory.key ms id = Ok k) \/
  (path_of st id = Throw (StoreError invalid_object_id) /\ Memory.key ms id = Throw invalid_object_id).
Proof.
  destruct (Memory.opaqueObjectId id) eqn:Hid; [left|right].
  - exists (directory st ++ [id]), (Memory.prefix ms +:+ id)%string. by rewrite path_of_Ok, Memory.store_key_Ok.
  - split; [by apply path_of_fails|]. unfold Memory.key, Memory.validateObjectId. by rewrite Hid.
Qed.

Lemma names_inj id id' p p' k k' : path_of st id = Ok p -> path_of st id' = Ok p' ->
  Memory.key ms id = Ok k -> Memory.key ms id' = Ok k' -> (p = p' <-> k = k').
Proof.
  intros Hp Hp' [_ ->]%Memory.store_key_Ok [_ ->]%Memory.store_key_Ok. split.
  - intros <-. by destruct (path_of_inj _ _ _ _ _ Hp Hp') as [_ ->].
  - intros <-%String.app_inj. congruence.
Qed.

Lemma same_insert m w id p k b : path_of st id = Ok p -> Memory.key ms id = Ok k -> same m w ->
  same (<[p := b]> m) (map_set k b w).
Proof.
  intros Hp Hk Hs id' p' k' Hp' Hk'. destruct (names_inj id id' p p' k k') as [H1 H2]; [done..|]. rewrite map_get_set.
  destruct (decide (k' = k)) as [->|Hne]; [rewrite H2 by done; by rewrite lookup_insert_eq|].
  rewrite lookup_insert_ne by naive_solver. by eapply Hs.
Qed.

Lemma same_delete m w id p k : path_of st id = Ok p -> Memory.key ms id = Ok k -> same m w ->
  same (base.delete p m) (map_delete k w).
Proof.
  intros Hp Hk Hs id' p' k' Hp' Hk'. destruct (names_inj id id' p p' k k') as [H1 H2]; [done..|]. rewrite map_delete_get.
  destruct (decide (k' = k)) as [->|Hne]; [rewrite H2 by done; by rewrite lookup_delete_eq|].
  rewrite lookup_delete_ne by naive_solver. by eapply Hs.
Qed.

Definition unaborted_put (o : Operation) : Prop := match o with Put _ _ abort => abort = false | _ => True end.

Lemma perform_in_memory m w o : same m w -> unaborted_put o ->
  match perform (mkCall st o) m, in_memory ms w o with
  | Ok (a, m'), Ok (a', w') => a = a' /\ same m' w'
  | Throw err, Throw err' => err = StoreError err'
  | _, _ => False
  end.
Proof.
  intros Hs Ho. unfold perform. destruct o as [id|id ab|id| |id source ab]; simpl in *; try subst ab.
  - destruct (names id) as [(p & k & Hp & Hk)|[Hp Hk]]; unfold Memory.delete; rewrite Hp, Hk; simpl; [|done].
    split; [|by eapply same_delete]. unfold map_has. by rewrite (Hs id p k).
  - destruct ab; [done|]. unfold Memory.get. simpl.
    destruct (names id) as [(p & k & Hp & Hk)|[Hp Hk]]; rewrite Hp, Hk; simpl; [|done]. by rewrite (Hs id p k).
  - unfold Memory.head. destruct (names id) as [(p & k & Hp & Hk)|[Hp Hk]]; rewrite Hp, Hk; simpl; [|done]. by rewrite (Hs id p k).
  - done.
  - unfold Memory.putIfAbsent, Memory.start_put.
    destruct (names id) as [(p & k & Hp & Hk)|[Hp Hk]]; rewrite Hp, Hk; simpl; [|done]. rewrite (Hs id p k) by done.
    destruct (map_get k w) as [b|] eqn:Hb; simpl; [done|]. rewrite Hmax. destruct (Memory.collect _ _) as [b|err]; simpl; [|done].
    unfold Memory.finish_put. rewrite Hb. simpl. split; [done|]. by eapply same_insert.
Qed.
End InMemory.

(** * Theorems *)

(** C10. The directory is one map under concurrency: however the calls of any number of stores
    interleave at their awaited file system calls, fail there or are left unfinished, what can
    be read is the result of performing some of the calls one after the other, each at once and
    between its start and its end; a call that answers has been performed with that answer, and
    one that fails has changed nothing. Every object was put whole, with bytes its put's
    source gave within the bound, and reads and existing objects are of such bytes. Between two
    removals of an object at most one put is told that it created it. No call waits for
    another: each awaited call of its own brings its end nearer. *)
Theorem file_store_refines (s : System) :
  reachable s ->
  rtc spec_step (∅, []) (objects (disk s), answered s) /\
  (forall i c a, calls s !! i = Some (c, Done (Ok a)) -> a <> Health_is false -> answered s !! i = Some (c, Some a)) /\
  (forall i c err, calls s !! i = Some (c, Done (Throw err)) -> answered s !! i = Some (c, None)) /\
  (forall q b, objects (disk s) !! q = Some b -> made (calls s) q b) /\
  (forall i c o, calls s !! i = Some (c, Done o) -> outcome_ok (calls s) c o) /\
  (forall q, count (created_at q) (answered s) = count (removed_at q) (answered s) + present (objects (disk s)) q) /\
  (forall i c p e, calls s !! i = Some (c, p) -> is_done p = false ->
    (remaining c (advance (disk s) c p e).2 < remaining c p)%nat).
Proof.
  intros Hr. assert (Hinv := reachable_inv s Hr). assert (Hs := reachable_spec s Hr). split_and!.
  - exact Hs.
  - intros i c a Hi Ha. unfold answered. rewrite list_lookup_fmap, Hi. simpl. by destruct a as [?|?|?|[]|?].
  - intros i c err Hi. unfold answered. by rewrite list_lookup_fmap, Hi.
  - intros q b Hq. rewrite objects_lookup in Hq. destruct (object_path q) eqn:Hobj; [|done].
    apply bind_Some in Hq as (h & Hh & Hb). destruct (inv_objects _ Hinv q h Hobj Hh) as (b' & Hb' & Hm). congruence.
  - intros i c o Hi. apply (inv_calls _ Hinv i (c, Done o) Hi).
  - intros q. apply (spec_balanced _ q Hs).
  - intros i c p e Hi Hnd. destruct (advance (disk s) c p e) as [d' p'] eqn:Ha. by eapply advance_remaining.
Qed.

(** C32. With nothing else going on, a call on the files gives the answer and has the effect of
    the same operation of the in-memory store that holds the same objects: it ends within
    [rounds], with the same result or the same error (the bound on the length, the abort
    between chunks and the identifier's form included), and leaves no temporary file. *)
Theorem file_store_as_memory (s : System) st o ms w drawn :
  reachable s -> agree st (disk s) ms w -> unaborted_put o ->
  entries (disk s) !! resolve (directory st) (pending drawn) = None ->
  let c := mkCall st o in
  let r := finish (rounds c) (disk s) c Starting drawn in
  (forall q, object_path q = false -> entries r.1 !! q = entries (disk s) !! q) /\
  match in_memory ms w o with
  | Ok (a, w') => r.2 = Done (Ok a) /\ agree st r.1 ms w'
  | Throw err => r.2 = Done (Throw (StoreError err)) /\ agree st r.1 ms w
  end.
Proof.
  intros Hr [Hmax Hs] Ho Hfree c r. apply reachable_inv in Hr.
  destruct (alone_comes_to c drawn s Hr Hfree) as [Hq Hc]. fold r in Hq, Hc. split; [done|].
  pose proof (perform_in_memory st ms Hmax (objects (disk s)) w o Hs Ho) as Hm. fold c in Hm.
  destruct (perform c _) as [[a m']|err], (in_memory ms w o) as [[a' w']|err']; try done.
  - destruct Hm as [-> Hw], Hc as [-> <-]. split; [done|]. by constructor.
  - subst err. destruct Hc as [-> Heq]. split; [done|]. constructor; [done|]. by rewrite Heq.
Qed.

(** ** Sample *)

Module Sample.

Lemma turn_step s t : (match t with Go _ e => plausible e | Make _ => True end) -> rtc step s (turn s t).
Proof.
  intros Ht. destruct t as [c|i e]; simpl; [apply rtc_once; constructor|].
  destruct (calls s !! i) as [[c p]|] eqn:Hi; [|constructor]. destruct (is_done p) eqn:Hd; [constructor|].
  destruct (advance _ _ _ _) as [d' p'] eqn:Ha. apply rtc_once. by econstructor.
Qed.

Lemma play_reachable ts s : reachable s ->
  Forall (fun t => match t with Go _ e => plausible e | Make _ => True end) ts -> reachable (play ts s).
Proof.
  intros Hs Ht. revert s Hs. induction Ht as [|t ts H _ IH]; intros s Hs; [done|]. apply IH.
  unfold reachable. etrans; [exact Hs|]. by apply turn_step.
Qed.

Definition id : string := Storage.Sample.destination.
Definition store : FilesystemObjectStore := mkStore ["objects"; "o"]%string 3.
Definition quiet (r : Byte.byte) : Event := mkEvent [r] None 0.
Definition first : Call := mkCall store (Put id [([Byte.x00], false); ([Byte.x01; Byte.x02], false)] false).
Definition second : Call := mkCall store (Put id [([Byte.x07], false)] false).
Definition large : Call := mkCall store (Put id [([Byte.x07], false); ([Byte.x00; Byte.x01; Byte.x02], false)] false).
Definition times (n i : nat) (r : Byte.byte) : list Turn := repeat (Go i (quiet r)) n.

(** Two puts of one object, both before either links; the first wins, the second is told so,
    a third finds the object, and a get reads it while it is deleted. *)
Definition race : list Turn :=
  [Make first; Make second] ++ times 5 0 Byte.x00 ++ times 8 1 Byte.x01 ++ times 6 0 Byte.x00 ++ times 3 1 Byte.x01 ++
  [Make large] ++ times 3 2 Byte.x02 ++
  [Make (mkCall store (Get id false)); Make (mkCall store (Delete id))] ++ times 2 3 Byte.x03 ++ times 2 4 Byte.x03 ++ times 1 3 Byte.x03.

Definition raced : System := play race initial.

Lemma raced_reachable : reachable raced.
Proof.
  apply play_reachable; [constructor|]. unfold race, times. simpl. repeat (constructor; [done|]). constructor.
Qed.

Lemma file_store_refines_witness :
  reachable raced /\
  snd <$> answered raced = [Some (Put_result (Storage.mkPut 3 created)); Some (Put_result (Storage.mkPut 3 exists_));
    Some (Put_result (Storage.mkPut 3 exists_)); Some (Chunks [[Byte.x00; Byte.x01; Byte.x02]]); Some (Was_deleted true)] /\
  rtc spec_step (∅, []) (objects (disk raced), answered raced).
Proof.
  split; [exact raced_reachable|]. split; [vm_compute; reflexivity|]. exact (proj1 (file_store_refines raced raced_reachable)).
Defined.

Definition memory : Memory.MemoryObjectStore := Memory.mkStore "urn:evllm:org:o" "o:" 3.

Lemma nothing_agrees : agree store (disk initial) memory [].
Proof.
  constructor; [done|]. intros i p k _ _. rewrite objects_lookup. unfold content. simpl. rewrite lookup_empty. by destruct (object_path p).
Qed.

(** A put of four bytes where three are allowed fails with the store's error and leaves
    nothing; a put of three creates the object. *)
Lemma file_store_as_memory_witness :
  (finish (rounds large) (disk initial) large Starting [Byte.x05]).2 = Done (Throw (StoreError object_too_large)) /\
  (finish (rounds first) (disk initial) first Starting [Byte.x05]).2 = Done (Ok (Put_result (Storage.mkPut 3 created))).
Proof.
  split.
  - destruct (file_store_as_memory initial store (operation large) memory [] [Byte.x05]) as [_ H];
      [constructor|exact nothing_agrees|reflexivity|reflexivity|]. exact (proj1 H).
  - destruct (file_store_as_memory initial store (operation first) memory [] [Byte.x05]) as [_ H];
      [constructor|exact nothing_agrees|reflexivity|reflexivity|]. exact (proj1 H).
Defined.
End Sample.
