(* ===== verification/FinalIntegrity.v ===== *)
(** * Freezes and integrity of the final evaluation

    [src/src/evaluation/final-integrity.ts], [final-freeze.ts] and
    [final-freeze-validation.ts], and the frozen diagnostics of [complementary-metrics.ts].

    What the files hold is [unknown] to this code: their JSON values are [json], with the
    members of an object in the order JavaScript enumerates them, and a property that may be
    missing is an [option]. Reading a property of [null] throws ([type_error]). Node's
    [Buffer.toString("utf8")] is the parameter [utf8], of which nothing is assumed;
    [JSON.parse] and SHA-256 are the classes of Json.v and Signatures.v. Error messages are
    kept without the values they quote. The pretty-printed [jsonFileBytes] is not modelled. *)

From S2P Require Import Prelude Regex Digits Base64 Schemas Storage Json Hex Signatures Text Conditions Formal.

Local Open Scope Z_scope.

(** ** [JSON.stringify] *)

(** On integers below 10^21; other numbers are kept by their decimal form. *)
Fixpoint stringify (v : json) : string :=
  match v with
  | JNull => "null"
  | JBool b => if b then "true" else "false"
  | JNum n => number_to_string n
  | JFloat digits => digits
  | JStr s => quote s
  | JArr l => json_array (stringify <$> l)
  | JObj fs => json_object ((fun p => (p.1, stringify p.2)) <$> fs)
  end%string.

(** ** Errors and properties *)

Inductive IntegrityError := integrity_error (message : string) | mismatch (message : string) | type_error | syntax_error.

#[global] Instance IntegrityError_eq_dec : EqDecision IntegrityError.
Proof. solve_decision. Defined.

(** [value.name], for a name that only objects have *)
Definition prop (v : json) (name : string) : result IntegrityError (option json) :=
  match v with
  | JNull => Throw type_error
  | JObj fs => Ok (field fs name)
  | _ => Ok None
  end.

(** [value?.name] *)
Definition optional_prop (v : option json) (name : string) : result IntegrityError (option json) :=
  match v with None | Some JNull => Ok None | Some v => prop v name end.

(** [`${value}`], of an object without members called [toString] or [valueOf] *)
Fixpoint template (v : json) : string :=
  match v with
  | JNull => "null"
  | JBool b => if b then "true" else "false"
  | JNum n => number_to_string n
  | JFloat digits => digits
  | JStr s => s
  | JArr l => join "," ((fun v => match v with JNull => "" | _ => template v end) <$> l)
  | JObj _ => "[object Object]"
  end%string.

(** [equal(message, actual, expected)] *)
Definition equal (message : string) (actual expected : option json) : result IntegrityError unit :=
  require (strict_equal actual expected) (mismatch message).

(** ** The plan of the observations *)

Record EvaluationObservationCell := mkCell {
  observation_id : string;
  case_id : string;
  repetition : Z;
  configuration_id : option string
}.

#[global] Instance EvaluationObservationCell_eq_dec : EqDecision EvaluationObservationCell.
Proof. solve_decision. Defined.

Definition uniqueCells (label : string) (cells : list EvaluationObservationCell) :
    result IntegrityError (list (string * EvaluationObservationCell)) :=
  fold_result (fun output cell =>
    _ ← require (negb (map_has (observation_id cell) output))
      (integrity_error (label +:+ " contains duplicate observation ID " +:+ observation_id cell));
    Ok (map_set (observation_id cell) cell output)) [] cells.

Definition same_cell (label : string) (observed expected : EvaluationObservationCell) : result IntegrityError unit :=
  let differs key := mismatch (label +:+ " observation " +:+ observation_id expected +:+ " has a mismatched " +:+ key) in
  _ ← require (String.eqb (case_id observed) (case_id expected)) (differs "case_id"%string);
  _ ← require (repetition observed =? repetition expected) (differs "repetition"%string);
  require (bool_decide (configuration_id observed = configuration_id expected)) (differs "configuration_id"%string).

Definition assertExactObservationPlan (label : string) (observations plan : list EvaluationObservationCell) :
    result IntegrityError unit :=
  expectedById ← uniqueCells (label +:+ " plan") plan;
  observedById ← uniqueCells (label +:+ " observations") observations;
  let missing := filter (fun id => map_has id observedById = false) (map_keys expectedById) in
  let unexpected := filter (fun id => map_has id expectedById = false) (map_keys observedById) in
  _ ← require (bool_decide (missing = []) && bool_decide (unexpected = []))
    (integrity_error (label +:+ " observation IDs do not match the frozen plan"));
  for_each (fun p =>
    observed ← defined (map_get p.1 observedById) type_error;
    same_cell label observed p.2) expectedById.

(** ** The files of a branch *)

Section Integrity.
Context `{CJ : CanonicalJson} `{SH : Sha256} (utf8 : bytes -> string).

Definition sha256Bytes (b : bytes) : string := "0x" +:+ to_hex (sha256 b).
Definition sha256Json (v : json) : string := sha256Bytes (text_encode (stringify v)).

Definition parseJson (b : bytes) : result IntegrityError json := defined (JSON_parse (utf8 b)) syntax_error.

Definition finalEvaluationSetId (primaryCorpus synthesisCorpus regulatorySources : json) : string :=
  let digest := sha256Json (JObj [("schema", JStr "EVLLM_FINAL_EVALUATION_SET_V2"); ("primary", primaryCorpus);
    ("synthesis", synthesisCorpus); ("regulatorySources", regulatorySources)]%string) in
  "evllm-final-evaluation-v2-" +:+ slice 2 18 digest.

Inductive BranchLabel := primary_branch | synthesis_branch.
Definition label_text (l : BranchLabel) : string :=
  match l with primary_branch => "primary" | synthesis_branch => "synthesis" end.

(** The manifest, the run summary and [analysis.integrity] are the objects of JSON files. *)
Record FinalEvaluationBranchInput := mkBranchInput {
  label : BranchLabel;
  freezeBytes : bytes;
  corpusBytes : bytes;
  observationBytes : bytes;
  transportJournalBytes : bytes;
  regulatorySourceFiles : list (string * bytes);
  configManifest : object;
  runSummary : object;
  analysis_integrity : object
}.

Record BranchIntegrity := mkBranch {
  bi_evaluation_set_id : json;
  bi_source_commit : option json;
  bi_freeze_sha256 : string;
  bi_corpus_file_sha256 : string;
  bi_logical_corpus_sha256 : string;
  bi_observations_sha256 : string;
  bi_transport_attempt_journal_sha256 : string
}.

(** The five properties of an [EvaluationBinding] *)
Definition binding_of (b : BranchIntegrity) : list (string * option json) :=
  [("evaluation_set_id", Some (bi_evaluation_set_id b)); ("source_commit", bi_source_commit b);
   ("freeze_sha256", Some (JStr (bi_freeze_sha256 b))); ("corpus_file_sha256", Some (JStr (bi_corpus_file_sha256 b)));
   ("logical_corpus_sha256", Some (JStr (bi_logical_corpus_sha256 b)))]%string.

Definition assertBinding (what : string) (binding : object) (expected : BranchIntegrity) : result IntegrityError unit :=
  for_each (fun p => equal (what +:+ " has a mismatched " +:+ p.1) (field binding p.1) p.2) (binding_of expected).

Definition assertObservationEvaluationBinding (observationId : string) (observation : json) (expected : BranchIntegrity) :
    result IntegrityError unit :=
  for_each (fun p =>
    actual ← prop observation p.1;
    equal ("Observation " +:+ observationId +:+ " has a mismatched " +:+ p.1) actual p.2) (binding_of expected).

(** [text.split(/\r?\n/u)]: a piece loses the carriage return that is before its line feed. *)
Definition drop_cr (l : list ascii) : list ascii :=
  match last l with Some c => if code_of_char c =? 13 then take (length l - 1) l else l | None => l end.

Fixpoint drop_crs (pieces : list (list ascii)) : list (list ascii) :=
  match pieces with
  | [] => []
  | [x] => [x]
  | x :: pieces => drop_cr x :: drop_crs pieces
  end.

Definition split_lines (s : string) : list string :=
  string_of_list_ascii <$> drop_crs (split_char (ascii_of_nat 10) (list_ascii_of_string s)).

Definition observation_lines (b : bytes) : list string := filter (fun l => blank l = false) (split_lines (utf8 b)).

(** [observation.observation_id ?? `${label}-line-${index + 1}`], in a message *)
Definition observation_name (lbl : string) (index : nat) (id : option json) : string :=
  match id with
  | Some JNull | None => lbl +:+ "-line-" +:+ number_to_string (Z.of_nat index + 1)
  | Some v => template v
  end.

Definition assert_line (lbl : string) (expected : BranchIntegrity) (p : nat * string) : result IntegrityError unit :=
  v ← defined (JSON_parse p.2) (integrity_error (lbl +:+ " observation line " +:+ number_to_string (Z.of_nat p.1 + 1) +:+ " is not valid JSON"));
  id ← prop v "observation_id";
  assertObservationEvaluationBinding (observation_name lbl p.1 id) v expected.

Definition assertObservationFileBindings (lbl : string) (b : bytes) (expected : BranchIntegrity) : result IntegrityError unit :=
  let lines := observation_lines b in
  _ ← require (negb (bool_decide (lines = []))) (integrity_error (lbl +:+ " observation file is empty"));
  for_each (assert_line lbl expected) (imap pair lines).

(** [value.length] *)
Definition length_prop (v : json) : result IntegrityError (option json) :=
  match v with
  | JArr l => Ok (Some (JNum (Z.of_nat (length l))))
  | JStr s => Ok (Some (JNum (Z.of_nat (String.length s))))
  | v => prop v "length"
  end.

(** What [for (const x of value)] goes through *)
Definition iterate (v : json) : result IntegrityError (list json) :=
  match v with
  | JArr l => Ok l
  | JStr s => Ok ((fun c => JStr (String c EmptyString)) <$> list_ascii_of_string s)
  | _ => Throw type_error
  end.

Definition assert_source (files : list (string * bytes)) (binding : json) : result IntegrityError unit :=
  p ← prop binding "path";
  b ← defined (match p with Some (JStr p) => map_get p files | _ => None end)
    (integrity_error "primary regulatory-source file is missing");
  h ← prop binding "fixtureFileSha256";
  _ ← equal "primary regulatory-source file has a mismatched digest" (Some (JStr (sha256Bytes b))) h;
  fixture ← parseJson b;
  id ← prop fixture "fixture_id"; id' ← prop binding "fixtureId";
  _ ← equal "primary regulatory fixture ID differs from its freeze" id id';
  source ← prop fixture "source";
  celex ← optional_prop source "celex_identifier"; celex' ← prop binding "sourceIdentifier";
  _ ← equal "primary regulatory source identifier differs from its freeze"
    (match celex with None => None | Some v => Some (JStr ("CELEX:" +:+ template v)) end) celex';
  eli ← optional_prop source "eli_uri"; eli' ← prop binding "eliUri";
  _ ← equal "primary regulatory ELI URI differs from its freeze" eli eli';
  lex ← optional_prop source "official_eur_lex_uri"; lex' ← prop binding "officialEurLexUri";
  _ ← equal "primary regulatory EUR-Lex URI differs from its freeze" lex lex';
  j ← optional_prop source "jurisdiction"; j' ← prop binding "jurisdiction";
  _ ← equal "primary regulatory jurisdiction differs from its freeze" j j';
  clauses ← prop fixture "clauses";
  n ← match clauses with None | Some JNull => Ok None | Some v => length_prop v end;
  n' ← prop binding "clauseCount";
  equal "primary regulatory clause count differs from its freeze" n n'.

Definition assertRegulatorySourceBindings (bindings : json) (files : list (string * bytes)) : result IntegrityError unit :=
  n ← length_prop bindings;
  _ ← require (strict_equal n (Some (JNum (Z.of_nat (length files)))))
    (integrity_error "primary regulatory-source file set does not match its freeze");
  _ ← require (bool_decide (NoDup files.*1)) (integrity_error "primary regulatory-source file paths are not unique");
  l ← iterate bindings;
  for_each (assert_source files) l.

(** The primary branch has sources. *)
Definition regulatory_sources (sources : option json) (files : list (string * bytes)) : result IntegrityError unit :=
  let lacks := integrity_error "primary freeze lacks its regulatory-source bindings" in
  bindings ← defined sources lacks;
  n ← length_prop bindings;
  _ ← require (negb (strict_equal n (Some (JNum 0)))) lacks;
  assertRegulatorySourceBindings bindings files.

(** [a ?? b] *)
Definition coalesce (a b : option json) : option json := match a with None | Some JNull => b | _ => a end.

Definition actual_branch (input : FinalEvaluationBranchInput) (setId : json) (unsignedCorpus : object) : BranchIntegrity :=
  {| bi_evaluation_set_id := setId;
     bi_source_commit := field (configManifest input) "source_commit";
     bi_freeze_sha256 := sha256Bytes (freezeBytes input);
     bi_corpus_file_sha256 := sha256Bytes (corpusBytes input);
     bi_logical_corpus_sha256 := sha256Json (JObj unsignedCorpus);
     bi_observations_sha256 := sha256Bytes (observationBytes input);
     bi_transport_attempt_journal_sha256 := sha256Bytes (transportJournalBytes input) |}.

(** The comparisons at the end of [assertBranchIntegrity] *)
Definition compare_branch (input : FinalEvaluationBranchInput) (binding : json) (recorded : string) (actual : BranchIntegrity) :
    result IntegrityError unit :=
  let l := label_text (label input) in
  _ ← equal (l +:+ " corpus records a different logical digest") (Some (JStr recorded)) (Some (JStr (bi_logical_corpus_sha256 actual)));
  logical ← prop binding "logicalCorpusSha256";
  _ ← equal (l +:+ " freeze has a different logical corpus digest") logical (Some (JStr (bi_logical_corpus_sha256 actual)));
  file ← prop binding "corpusFileSha256";
  _ ← equal (l +:+ " freeze has a different corpus file digest") file (Some (JStr (bi_corpus_file_sha256 actual)));
  _ ← assertBinding (l +:+ " configuration manifest") (configManifest input) actual;
  _ ← assertBinding (l +:+ " run summary") (runSummary input) actual;
  _ ← assertBinding (l +:+ " analysis") (analysis_integrity input) actual;
  _ ← equal (l +:+ " analysis was generated by a different source commit")
    (field (analysis_integrity input) "analysis_source_commit") (bi_source_commit actual);
  _ ← equal (l +:+ " analysis has a different observation digest")
    (field (analysis_integrity input) "observations_sha256") (Some (JStr (bi_observations_sha256 actual)));
  _ ← equal (l +:+ " run summary has a different transport-attempt journal digest")
    (field (runSummary input) "transport_attempt_journal_sha256") (Some (JStr (bi_transport_attempt_journal_sha256 actual)));
  equal (l +:+ " analysis has a different transport-attempt journal digest")
    (field (analysis_integrity input) "transport_attempt_journal_sha256") (Some (JStr (bi_transport_attempt_journal_sha256 actual))).

Definition assertBranchIntegrity (input : FinalEvaluationBranchInput) : result IntegrityError BranchIntegrity :=
  let l := label_text (label input) in
  freeze ← parseJson (freezeBytes input);
  corpus ← parseJson (corpusBytes input);
  taskCorpus ← prop freeze "taskCorpus";
  otherCorpus ← prop freeze "corpus";
  evaluationSetId ← prop freeze "evaluation_set_id";
  let lacks := integrity_error (l +:+ " freeze lacks its V2 provenance binding") in
  setId ← defined evaluationSetId lacks;
  binding ← defined (coalesce taskCorpus otherCorpus) lacks;
  sources ← prop freeze "regulatorySources";
  _ ← (match label input with
       | primary_branch => regulatory_sources sources (regulatorySourceFiles input)
       | synthesis_branch => Ok tt
       end);
  recorded ← prop corpus "corpus_sha256";
  match corpus, recorded with
  | JObj fields, Some (JStr recorded) =>
      let actual := actual_branch input setId (map_delete "corpus_sha256"%string fields) in
      _ ← assertObservationFileBindings l (observationBytes input) actual;
      _ ← compare_branch input binding recorded actual;
      Ok actual
  | _, _ => Throw (integrity_error (l +:+ " corpus lacks its logical digest"))
  end.

Record FinalEvaluationIntegrity := mkIntegrity {
  fi_evaluation_set_id : json;
  fi_source_commit : option json;
  fi_primary : BranchIntegrity;
  fi_synthesis : BranchIntegrity
}.

Definition assertFinalEvaluationIntegrity (primaryInput synthesisInput : FinalEvaluationBranchInput) :
    result IntegrityError FinalEvaluationIntegrity :=
  primaryFreeze ← parseJson (freezeBytes primaryInput);
  synthesisFreeze ← parseJson (freezeBytes synthesisInput);
  let lacks := integrity_error "Final freezes lack the inputs needed to reproduce their evaluation set ID" in
  taskCorpus ← (o ← prop primaryFreeze "taskCorpus"; defined o lacks);
  corpus ← (o ← prop synthesisFreeze "corpus"; defined o lacks);
  sources ← (o ← prop primaryFreeze "regulatorySources"; defined o lacks);
  let expected := finalEvaluationSetId taskCorpus corpus sources in
  primarySet ← prop primaryFreeze "evaluation_set_id";
  _ ← equal "primary freeze has a non-reproducible evaluation set ID" primarySet (Some (JStr expected));
  synthesisSet ← prop synthesisFreeze "evaluation_set_id";
  _ ← equal "synthesis freeze has a non-reproducible evaluation set ID" synthesisSet (Some (JStr expected));
  primary ← assertBranchIntegrity primaryInput;
  synthesis ← assertBranchIntegrity synthesisInput;
  _ ← equal "evaluation branches use different evaluation set IDs" (Some (bi_evaluation_set_id primary)) (Some (bi_evaluation_set_id synthesis));
  _ ← equal "evaluation branches use different source commits" (bi_source_commit primary) (bi_source_commit synthesis);
  Ok (mkIntegrity (bi_evaluation_set_id primary) (bi_source_commit primary) primary synthesis).
End Integrity.

(** ** The frozen protocol ([final-freeze.ts], [final-freeze-validation.ts]) *)

Definition FINAL_TRANSPORT_RETRIES : Z := 2.
Definition OPENAI_ASSISTANT_PROVIDER_MAX_RETRIES : Z := 0.

Definition FINAL_PRIMARY_CONDITIONS : list string := configuration_text <$> MODEL_CONDITION_IDS.

Definition FINAL_PRIMARY_OUTCOMES : list string :=
  ["required_record_coverage"; "citation_validity"; "unsupported_claim_rate"; "unsupported_claim_response_rate";
   "released_response_validation_failure_event"; "appropriate_abstention_f1"; "authorization_accuracy";
   "prohibited_disclosure_event"; "released_typed_decision_fidelity"; "task_success"]%string.

Definition FINAL_PRIMARY_PAIRED_CONTRAST_OUTCOMES : list string :=
  ["task_success"; "required_record_coverage"; "unsupported_claim_response_rate";
   "released_response_validation_failure_event"; "appropriate_abstention_f1"; "authorization_accuracy";
   "prohibited_disclosure_event"; "released_typed_decision_fidelity"]%string.

Definition FINAL_PRIMARY_DESCRIPTIVE_OUTCOMES : list string := ["citation_validity"; "unsupported_claim_rate"]%string.

Definition strings_value (l : list string) : json := JArr (JStr <$> l).

Definition FINAL_PRIMARY_TASK_SUCCESS_REASON_PROTOCOL : json :=
  JObj [("expectedValidationCodeToReleasedEvidenceReasonCodes",
         JObj ((fun p => (p.1, strings_value p.2)) <$> FORMAL_EXPECTED_VALIDATION_TO_RELEASED_REASON_CODES));
        ("comparison", JStr "exact-set"); ("internalValidationCodes", JStr "diagnostic-only")]%string.

Definition FINAL_SYNTHESIS_CONDITIONS : list string :=
  ["raw-structured-record-access"; "sequential-deterministic-query"; "governed-evllm-synthesis"]%string.

Definition FINAL_SYNTHESIS_PRIMARY_METRICS : list string :=
  ["user_visible_operation_count"; "required_record_coverage"; "recorded_decision_and_outcome_accuracy";
   "citation_validity"; "unsupported_claim_rate"; "missing_information_detection"; "conflicting_information_detection";
   "single_response_supported_synthesis_success"]%string.

Inductive ProtocolError := not_prespecified (label : string) | retry_mismatch (label : string).

(** [PrimaryFreezeProtocol], with the properties of [analysis] and [model] in place *)
Record PrimaryFreezeProtocol := mkPrimaryFreeze {
  pf_conditions : option json;
  pf_primaryOutcomes : option json;
  pf_taskSuccessReasonSemantics : option json;
  pf_pairedContrastOutcomes : option json;
  pf_descriptiveOutcomes : option json;
  pf_maximumTransportRetriesPerInvocation : option json;
  pf_providerMaxRetries : option json
}.

Record SynthesisFreezeProtocol := mkSynthesisFreeze {
  sf_conditions : option json;
  sf_primaryMetrics : option json;
  sf_transportRetries : option json;
  sf_providerMaxRetries : option json
}.

Definition assertExactFrozenSequence (label : string) (actual : option json) (expected : list string) :
    result ProtocolError unit :=
  require (match actual with
           | Some (JArr l) => String.eqb (stringify (JArr l)) (stringify (strings_value expected))
           | _ => false
           end) (not_prespecified label).

(** [JSON.stringify(undefined)] is [undefined], which no text equals. *)
Definition assertExactFrozenValue (label : string) (actual : option json) (expected : json) : result ProtocolError unit :=
  require (match actual with Some v => String.eqb (stringify v) (stringify expected) | None => false end) (not_prespecified label).

Definition assertRetryPolicy (label : string) (actual : option json) (expected : Z) : result ProtocolError unit :=
  require (strict_equal actual (Some (JNum expected))) (retry_mismatch label).

Definition assertProviderRetryPolicy (label : string) (actual : option json) : result ProtocolError unit :=
  require (strict_equal actual (Some (JNum OPENAI_ASSISTANT_PROVIDER_MAX_RETRIES))) (retry_mismatch label).

Definition assertPrimaryFreezeProtocol (freeze : PrimaryFreezeProtocol) : result ProtocolError unit :=
  _ ← assertExactFrozenSequence "Primary condition list" (pf_conditions freeze) FINAL_PRIMARY_CONDITIONS;
  _ ← assertExactFrozenSequence "Primary outcome list" (pf_primaryOutcomes freeze) FINAL_PRIMARY_OUTCOMES;
  _ ← assertExactFrozenValue "Primary task-success reason semantics" (pf_taskSuccessReasonSemantics freeze)
    FINAL_PRIMARY_TASK_SUCCESS_REASON_PROTOCOL;
  _ ← assertExactFrozenSequence "Primary paired-contrast outcome list" (pf_pairedContrastOutcomes freeze)
    FINAL_PRIMARY_PAIRED_CONTRAST_OUTCOMES;
  _ ← assertExactFrozenSequence "Primary descriptive outcome list" (pf_descriptiveOutcomes freeze)
    FINAL_PRIMARY_DESCRIPTIVE_OUTCOMES;
  _ ← assertRetryPolicy "Primary" (pf_maximumTransportRetriesPerInvocation freeze) FINAL_TRANSPORT_RETRIES;
  assertProviderRetryPolicy "Primary" (pf_providerMaxRetries freeze).

Definition assertSynthesisFreezeProtocol (freeze : SynthesisFreezeProtocol) : result ProtocolError unit :=
  _ ← assertExactFrozenSequence "Synthesis condition list" (sf_conditions freeze) FINAL_SYNTHESIS_CONDITIONS;
  _ ← assertExactFrozenSequence "Synthesis primary metric list" (sf_primaryMetrics freeze) FINAL_SYNTHESIS_PRIMARY_METRICS;
  _ ← assertRetryPolicy "Synthesis" (sf_transportRetries freeze) FINAL_TRANSPORT_RETRIES;
  assertProviderRetryPolicy "Synthesis" (sf_providerMaxRetries freeze).

(** ** The raw diagnostics ([complementary-metrics.ts]) *)

Definition COMPLEMENTARY_RAW_GENERATION_DIAGNOSTICS : list string :=
  ["raw_required_record_coverage"; "raw_all_required_records_covered"; "raw_decision_metadata_fidelity";
   "raw_decision_code_fidelity"; "raw_outcome_fidelity"; "raw_reason_code_fidelity"; "raw_explanation_validation";
   "raw_complete_explanatory_synthesis"]%string.

Definition COMPLEMENTARY_RAW_DIAGNOSTIC_FIELD_MAP : list (string * string) :=
  [("raw_required_record_coverage", "required_record_coverage");
   ("raw_all_required_records_covered", "all_required_records_covered");
   ("raw_decision_metadata_fidelity", "deterministic_record_binding");
   ("raw_decision_code_fidelity", "decision_code_accuracy");
   ("raw_outcome_fidelity", "structured_outcome_accuracy");
   ("raw_reason_code_fidelity", "required_reason_accuracy");
   ("raw_explanation_validation", "raw_candidate_validation_accuracy");
   ("raw_complete_explanatory_synthesis", "generation_success")]%string.

Definition field_map_value : json := JObj ((fun p => (p.1, JStr p.2)) <$> COMPLEMENTARY_RAW_DIAGNOSTIC_FIELD_MAP).

Definition assertComplementaryRawDiagnosticFreeze (diagnostics fieldMap : option json) : result ProtocolError unit :=
  _ ← assertExactFrozenSequence "Complementary raw-generation diagnostic labels" diagnostics COMPLEMENTARY_RAW_GENERATION_DIAGNOSTICS;
  require (match fieldMap with
           | Some (JObj fs) => String.eqb (stringify (JObj fs)) (stringify field_map_value)
           | _ => false
           end) (not_prespecified "Complementary raw-generation diagnostic field mapping").

(** ** Building the freezes *)

Record CorpusBinding := mkCorpusBinding {
  co_path : string; co_caseCount : Z; co_strataCount : Z; co_casesPerStratum : Z;
  co_logicalCorpusSha256 : string; co_corpusFileSha256 : string
}.

Definition corpus_value (c : CorpusBinding) : json :=
  JObj [("path", JStr (co_path c)); ("caseCount", JNum (co_caseCount c)); ("strataCount", JNum (co_strataCount c));
    ("casesPerStratum", JNum (co_casesPerStratum c)); ("logicalCorpusSha256", JStr (co_logicalCorpusSha256 c));
    ("corpusFileSha256", JStr (co_corpusFileSha256 c))]%string.

Record RegulatorySourceBinding := mkSourceBinding {
  rs_fixtureId : string; rs_path : string; rs_fixtureFileSha256 : string; rs_sourceIdentifier : string;
  rs_eliUri : string; rs_officialEurLexUri : string; rs_jurisdiction : string; rs_clauseCount : Z
}.

Definition source_value (r : RegulatorySourceBinding) : json :=
  JObj [("fixtureId", JStr (rs_fixtureId r)); ("path", JStr (rs_path r)); ("fixtureFileSha256", JStr (rs_fixtureFileSha256 r));
    ("sourceIdentifier", JStr (rs_sourceIdentifier r)); ("eliUri", JStr (rs_eliUri r));
    ("officialEurLexUri", JStr (rs_officialEurLexUri r)); ("jurisdiction", JStr (rs_jurisdiction r));
    ("clauseCount", JNum (rs_clauseCount r))]%string.

Record PrimarySampleDesign := mkSampleDesign {
  sd_plannedModelBearingObservations : Z; sd_plannedModelInvocations : Z;
  sd_plannedModelInvocationsByCondition : list (string * Z);
  sd_plannedTransportAttemptsMinimum : Z; sd_plannedTransportAttemptsMaximum : Z; sd_totalObservationsPlanned : Z
}.

Definition sample_design_value (d : PrimarySampleDesign) : json :=
  JObj [("plannedModelBearingObservations", JNum (sd_plannedModelBearingObservations d));
    ("plannedModelInvocations", JNum (sd_plannedModelInvocations d));
    ("plannedModelInvocationsByCondition", JObj ((fun p => (p.1, JNum p.2)) <$> sd_plannedModelInvocationsByCondition d));
    ("plannedTransportAttemptsMinimum", JNum (sd_plannedTransportAttemptsMinimum d));
    ("plannedTransportAttemptsMaximum", JNum (sd_plannedTransportAttemptsMaximum d));
    ("totalObservationsPlanned", JNum (sd_totalObservationsPlanned d))]%string.

(** [OPENAI_ASSISTANT_CONFIG] of assistant/model.ts *)
Definition OPENAI_ASSISTANT_CONFIG : object :=
  [("model", JStr "gpt-4o-mini-2024-07-18"); ("temperature", JNum 0); ("maxOutputTokens", JNum 1200); ("store", JBool false);
   ("providerMaxRetries", JNum OPENAI_ASSISTANT_PROVIDER_MAX_RETRIES)]%string.

Definition model_value (rest : object) : json :=
  JObj ([("provider", JStr "openai"); ("api", JStr "responses")]%string ++ OPENAI_ASSISTANT_CONFIG ++ rest).

Definition primary_analysis : json :=
  JObj [("confidenceLevel", JFloat "0.95"); ("resamplingUnit", JStr "case_id");
    ("pairedContrastOutcomes", strings_value FINAL_PRIMARY_PAIRED_CONTRAST_OUTCOMES);
    ("descriptiveOutcomes", strings_value FINAL_PRIMARY_DESCRIPTIVE_OUTCOMES);
    ("binaryIntervals", JStr "Case-cluster percentile bootstrap; boundary intervals use Wilson score bounds over eligible cases.");
    ("pairedIntervals", JStr "Paired 10000-resample case-cluster bootstrap confidence intervals retaining all repetitions within each sampled case.");
    ("pairedPValues", JStr "Paired case-cluster randomization p values using within-case sign swaps, with exact enumeration when feasible and deterministic Monte Carlo sampling otherwise.");
    ("multipleComparisons", JStr "Holm correction within each outcome family");
    ("zeroFailureRule", JStr "Report numerator, denominator, and a 95% upper confidence bound rather than claiming zero risk.")]%string.

Definition synthesis_analysis : json :=
  JObj [("confidenceLevel", JFloat "0.95"); ("resamplingUnit", JStr "case_id");
    ("binaryIntervals", JStr "Case-cluster percentile bootstrap; boundary intervals use Wilson score bounds over eligible cases.");
    ("analyticReferenceComparison", JStr "Prescribed operation counts are reported descriptively; response-quality metrics are not applicable to reference interfaces that generate no response.");
    ("zeroFailureRule", JStr "Report numerator, denominator, and a 95% upper confidence bound rather than claiming zero risk.")]%string.

Record FinalEvaluationFreezes := mkFreezes { ff_evaluationSetId : string; ff_primary : object; ff_synthesis : object }.

Section Freezes.
Context `{SH : Sha256}.

Definition evaluation_set_of (primaryCorpus synthesisCorpus : CorpusBinding) (sources : list RegulatorySourceBinding) : string :=
  finalEvaluationSetId (corpus_value primaryCorpus) (corpus_value synthesisCorpus) (JArr (source_value <$> sources)).

Definition primary_freeze (id : string) (corpus : CorpusBinding) (sources : list RegulatorySourceBinding) (design : PrimarySampleDesign) : object :=
  [("schema", JStr "EVLLM_FINAL_PRIMARY_EVALUATION_FREEZE_V2"); ("evaluation_set_id", JStr id);
   ("formalOutputsCollected", JBool false);
   ("design", JStr "Primary reliability and safety evaluation using 96 synthetic cases, eight model conditions, and five repetitions for every case-condition cell.");
   ("taskCorpus", corpus_value corpus); ("regulatorySources", JArr (source_value <$> sources));
   ("model", model_value [("repetitionsPerStochasticCondition", JNum 5);
     ("maximumTransportRetriesPerInvocation", JNum FINAL_TRANSPORT_RETRIES)]);
   ("conditions", strings_value FINAL_PRIMARY_CONDITIONS); ("sampleDesign", sample_design_value design);
   ("primaryOutcomes", strings_value FINAL_PRIMARY_OUTCOMES);
   ("taskSuccessReasonSemantics", FINAL_PRIMARY_TASK_SUCCESS_REASON_PROTOCOL); ("analysis", primary_analysis);
   ("designation", JStr "Only observations matching this evaluation set, source commit, freeze digest, and both corpus digests belong to the primary evidence set.")]%string.

Definition synthesis_freeze (id : string) (corpus : CorpusBinding) : object :=
  [("schema", JStr "EVLLM_FINAL_SYNTHESIS_EVALUATION_FREEZE_V2"); ("evaluation_set_id", JStr id); ("outputsCollected", JBool false);
   ("researchQuestion", JStr "Can governed conversational synthesis combine several permitted records in one supported response while preserving decision outcomes, traceability, and missing or conflicting information?");
   ("corpus", corpus_value corpus);
   ("model", model_value [("repetitionsPerCase", JNum 5); ("plannedMaximumModelResponses", JNum 150);
     ("transportRetries", JNum FINAL_TRANSPORT_RETRIES)]);
   ("conditions", strings_value FINAL_SYNTHESIS_CONDITIONS); ("primaryMetrics", strings_value FINAL_SYNTHESIS_PRIMARY_METRICS);
   ("rawGenerationDiagnostics", strings_value COMPLEMENTARY_RAW_GENERATION_DIAGNOSTICS);
   ("rawGenerationDiagnosticFieldMap", field_map_value); ("analysis", synthesis_analysis);
   ("interpretationBoundary", JStr "The evaluation measures machine-observed response behavior and interaction structure rather than subjective usefulness or usability.");
   ("designation", JStr "Only observations matching this evaluation set, source commit, freeze digest, and both corpus digests belong to the synthesis evidence set.")]%string.

Definition buildFinalEvaluationFreezes (primaryCorpus synthesisCorpus : CorpusBinding) (sources : list RegulatorySourceBinding)
    (design : PrimarySampleDesign) : FinalEvaluationFreezes :=
  let id := evaluation_set_of primaryCorpus synthesisCorpus sources in
  mkFreezes id (primary_freeze id primaryCorpus sources design) (synthesis_freeze id synthesisCorpus).
End Freezes.

(** The protocol of a freeze as the scripts read it: [freeze.analysis] and [freeze.model]
    of an object *)
Definition inner (o : object) (name key : string) : option json :=
  match field o name with Some (JObj fs) => field fs key | _ => None end.

Definition primary_protocol (o : object) : PrimaryFreezeProtocol :=
  mkPrimaryFreeze (field o "conditions") (field o "primaryOutcomes") (field o "taskSuccessReasonSemantics")
    (inner o "analysis" "pairedContrastOutcomes") (inner o "analysis" "descriptiveOutcomes")
    (inner o "model" "maximumTransportRetriesPerInvocation") (inner o "model" "providerMaxRetries").

Definition synthesis_protocol (o : object) : SynthesisFreezeProtocol :=
  mkSynthesisFreeze (field o "conditions") (field o "primaryMetrics") (inner o "model" "transportRetries")
    (inner o "model" "providerMaxRetries").

(** * Facts *)

Lemma equal_Ok m a b u : equal m a b = Ok u -> a = b.
Proof. by intros H%require_Ok%strict_equal_eq. Qed.

Lemma prop_object v name o : prop v name = Ok o -> o = field (match v with JObj fs => fs | _ => [] end) name.
Proof. destruct v; simpl; by intros [= <-]. Qed.

Lemma prop_some v name x : prop v name = Ok (Some x) -> exists fs, v = JObj fs /\ field fs name = Some x.
Proof. destruct v; simpl; try done. intros [= H]. eauto. Qed.
(** ** The plan *)

Definition keyed (cells : list EvaluationObservationCell) : list (string * EvaluationObservationCell) :=
  (fun c => (observation_id c, c)) <$> cells.

Lemma uniqueCells_spec lbl cells m :
  uniqueCells lbl cells = Ok m <-> NoDup (observation_id <$> cells) /\ m = keyed cells.
Proof.
  unfold uniqueCells. set (f := fun output cell => _).
  cut (forall acc, NoDup acc.*1 ->
    fold_result f acc cells = Ok m <-> NoDup (acc.*1 ++ (observation_id <$> cells)) /\ m = acc ++ keyed cells).
  { intros H. apply (H []). constructor. }
  induction cells as [|c cells IH]; intros acc Ha; simpl.
  - rewrite !app_nil_r. split; [by intros [= ->]|by intros [_ ->]].
  - assert (f acc c = if map_has (observation_id c) acc then f acc c else Ok (map_set (observation_id c) c acc)) as Hf
      by (unfold f; by destruct (map_has _ _)).
    destruct (map_has (observation_id c) acc) eqn:Hh.
    + assert (exists e, f acc c = Throw e) as [e ->] by (unfold f; rewrite Hh; simpl; eauto).
      split; [done|]. intros [H _]. apply map_has_true in Hh as [v Hv%map_get_elem_of].
      apply NoDup_app in H as (_ & H & _). exfalso. apply (H (observation_id c)); [|left].
      apply list_elem_of_fmap. by exists (observation_id c, v).
    + rewrite Hf. simpl. apply map_has_false in Hh. rewrite map_set_fresh by done. rewrite IH, fmap_app, <- !app_assoc; [done|].
      rewrite fmap_app. apply NoDup_app. split_and!; [done| |apply NoDup_singleton].
      intros k Hk ->%list_elem_of_singleton. by apply map_get_None in Hh.
Qed.

Lemma keyed_get cells c : NoDup (observation_id <$> cells) -> c ∈ cells -> map_get (observation_id c) (keyed cells) = Some c.
Proof.
  induction cells as [|c' cells IH]; [by intros _ ?%not_elem_of_nil|]. intros [Hn Hd]%NoDup_cons [->|Hc]%elem_of_cons; simpl.
  - by rewrite decide_True.
  - rewrite decide_False; [by apply IH|]. intros Heq. apply Hn. rewrite <- Heq. apply list_elem_of_fmap. by exists c.
Qed.

Lemma keyed_has cells id : map_has id (keyed cells) = true <-> id ∈ observation_id <$> cells.
Proof.
  rewrite map_has_true. split.
  - intros [c (c' & [= -> ->] & Hc)%map_get_elem_of%list_elem_of_fmap]. apply list_elem_of_fmap. by exists c'.
  - intros H. destruct (map_get id (keyed cells)) as [c|] eqn:Hg; [by exists c|]. exfalso. apply map_get_None in Hg.
    apply Hg. unfold keyed. by rewrite <- list_fmap_compose.
Qed.

Lemma keyed_keys cells : map_keys (keyed cells) = observation_id <$> cells.
Proof. unfold map_keys, keyed. by rewrite <- list_fmap_compose. Qed.

Lemma none_missing (l : list string) (m : list (string * EvaluationObservationCell)) :
  filter (fun id => map_has id m = false) l = [] <-> Forall (fun id => map_has id m = true) l.
Proof.
  rewrite Forall_forall. split.
  - intros H id Hid. destruct (map_has id m) eqn:Hh; [done|]. exfalso.
    assert (Hin : id ∈ filter (fun id => map_has id m = false) l) by (by apply list_elem_of_filter). rewrite H in Hin.
    by apply not_elem_of_nil in Hin.
  - intros H. apply elem_of_nil_inv. intros id [Hh Hid]%list_elem_of_filter. apply H in Hid. congruence.
Qed.

Lemma same_cell_Ok lbl o e : observation_id o = observation_id e -> same_cell lbl o e = Ok tt <-> o = e.
Proof.
  intros Hid. unfold same_cell. split.
  - intros H. inv_result. destruct o, e; simpl in *. 
    repeat match goal with H : String.eqb _ _ = true |- _ => apply String.eqb_eq in H | H : (_ =? _) = true |- _ => apply Z.eqb_eq in H end.
    by subst.
  - intros ->. by rewrite String.eqb_refl, Z.eqb_refl, bool_decide_true.
Qed.

(** The observations are those of the plan, each once, in any order. *)
Lemma exact_plan lbl observations plan :
  assertExactObservationPlan lbl observations plan = Ok tt <->
  NoDup (observation_id <$> plan) /\ observations ≡ₚ plan.
Proof.
  unfold assertExactObservationPlan. rewrite bind_Ok. setoid_rewrite uniqueCells_spec. split.
  - intros (m & [Hp ->] & H). apply bind_Ok in H as (m & [Ho ->]%uniqueCells_spec & H).
    apply bind_Ok in H as ([] & [H1 H2]%require_Ok%andb_true_iff & H). apply bool_decide_eq_true in H1, H2.
    rewrite none_missing, keyed_keys, Forall_forall in H1, H2. setoid_rewrite keyed_has in H1. setoid_rewrite keyed_has in H2.
    apply for_each_Ok in H. split; [done|]. apply NoDup_Permutation; [by eapply NoDup_fmap_1|by eapply NoDup_fmap_1|].
    assert (Hin : forall c, c ∈ plan -> c ∈ observations).
    { intros c Hc. rewrite Forall_forall in H. specialize (H (observation_id c, c)). simpl in H.
      apply bind_Ok in H as (o & Hg%defined_Ok%map_get_elem_of & Hs).
      - apply list_elem_of_fmap in Hg as (o' & [= Hid ->] & Ho'). symmetry in Hid. by apply same_cell_Ok in Hs as <-.
      - apply list_elem_of_fmap. by exists c. }
    intros c. split; [|by apply Hin]. intros Hc. 
    assert (observation_id c ∈ observation_id <$> plan) as (e & He & Hpe)%list_elem_of_fmap
      by (apply H2, list_elem_of_fmap; by exists c).
    pose proof (keyed_get _ c Ho Hc) as Hg. rewrite He, (keyed_get _ e Ho (Hin e Hpe)) in Hg. by injection Hg as <-.
  - intros [Hp Hperm]. exists (keyed plan). split; [done|].
    assert (Ho : NoDup (observation_id <$> observations)) by by rewrite Hperm.
    apply bind_Ok. exists (keyed observations). split; [by apply uniqueCells_spec|].
    apply bind_Ok. exists tt. split.
    + apply require_Ok, andb_true_iff. rewrite !bool_decide_eq_true, !none_missing, !keyed_keys, !Forall_forall.
      setoid_rewrite keyed_has. split; intros id; by rewrite Hperm.
    + apply for_each_Ok, Forall_forall. intros [id c] (c' & [= -> ->] & Hc)%list_elem_of_fmap. simpl.
      rewrite (keyed_get observations c') by (done || by rewrite Hperm). simpl. by apply same_cell_Ok.
Qed.

(** ** Accepted evaluations *)

Section Accepted.
Context `{CJ : CanonicalJson} `{SH : Sha256} (utf8 : bytes -> string).

(** The digest of a file as the records write it *)
Definition digest (b : bytes) : json := JStr ("0x" +:+ to_hex (sha256 b)).

(** Of two files with one digest written in a record: they are the same, or SHA-256 collides on
    these very two. *)
Definition pinned (a b : bytes) : Prop := a = b \/ collides a b.

(** [o] is a record of the evaluation [set], made at [commit], of these files. *)
Definition belongs (set : json) (commit : option json) (freeze corpus logical : json) (o : object) : Prop :=
  field o "evaluation_set_id" = Some set /\ field o "source_commit" = commit /\ field o "freeze_sha256" = Some freeze /\
  field o "corpus_file_sha256" = Some corpus /\ field o "logical_corpus_sha256" = Some logical.

Definition is_line (b : bytes) (l : string) : Prop := l ∈ split_lines (utf8 b) /\ blank l = false.

Definition object_of (v : option json) : object := match v with Some (JObj fs) => fs | _ => [] end.

(** The source a freeze names is one of the files, unchanged, and is what the freeze says of it. *)
Definition sourced (files : list (string * bytes)) (source : json) : Prop :=
  exists ms path file fixture,
    source = JObj ms /\ field ms "path" = Some (JStr path) /\ (path, file) ∈ files /\
    field ms "fixtureFileSha256" = Some (digest file) /\ JSON_parse (utf8 file) = Some fixture /\
    let of_fixture := field (object_of (Some fixture)) in
    let of_source := field (object_of (of_fixture "source"%string)) in
    of_fixture "fixture_id"%string = field ms "fixtureId" /\ of_source "eli_uri"%string = field ms "eliUri" /\
    of_source "official_eur_lex_uri"%string = field ms "officialEurLexUri" /\
    of_source "jurisdiction"%string = field ms "jurisdiction" /\
    (fun v => JStr ("CELEX:" +:+ template v)) <$> of_source "celex_identifier"%string = field ms "sourceIdentifier" /\
    (forall l, of_fixture "clauses"%string = Some (JArr l) -> field ms "clauseCount" = Some (JNum (Z.of_nat (length l)))).

(** The files of a branch are of one evaluation, and [b] reports them. *)
Definition coherent (input : FinalEvaluationBranchInput) (freeze : object) (b : BranchIntegrity) : Prop :=
  exists corpus binding,
    let set := bi_evaluation_set_id b in
    let commit := bi_source_commit b in
    let logical := digest (text_encode (stringify (JObj (map_delete "corpus_sha256"%string corpus)))) in
    let member := belongs set commit (digest (freezeBytes input)) (digest (corpusBytes input)) logical in
    JSON_parse (utf8 (freezeBytes input)) = Some (JObj freeze) /\ field freeze "evaluation_set_id" = Some set /\
    JSON_parse (utf8 (corpusBytes input)) = Some (JObj corpus) /\ field corpus "corpus_sha256" = Some logical /\
    match field freeze "taskCorpus" with None | Some JNull => field freeze "corpus" | c => c end = Some (JObj binding) /\
    field binding "logicalCorpusSha256" = Some logical /\ field binding "corpusFileSha256" = Some (digest (corpusBytes input)) /\
    (exists l, is_line (observationBytes input) l) /\
    (forall l, is_line (observationBytes input) l -> exists o, JSON_parse l = Some (JObj o) /\ member o) /\
    Forall member [configManifest input; runSummary input; analysis_integrity input] /\
    field (analysis_integrity input) "analysis_source_commit" = commit /\
    field (analysis_integrity input) "observations_sha256" = Some (digest (observationBytes input)) /\
    field (runSummary input) "transport_attempt_journal_sha256" = Some (digest (transportJournalBytes input)) /\
    field (analysis_integrity input) "transport_attempt_journal_sha256" = Some (digest (transportJournalBytes input)) /\
    (label input = primary_branch -> exists sources,
       field freeze "regulatorySources" = Some (JArr sources) /\ sources <> [] /\
       length sources = length (regulatorySourceFiles input) /\ NoDup (regulatorySourceFiles input).*1 /\
       Forall (sourced (regulatorySourceFiles input)) sources) /\
    [JStr (bi_freeze_sha256 b); JStr (bi_corpus_file_sha256 b); JStr (bi_logical_corpus_sha256 b); JStr (bi_observations_sha256 b);
     JStr (bi_transport_attempt_journal_sha256 b)] =
    [digest (freezeBytes input); digest (corpusBytes input); logical; digest (observationBytes input);
     digest (transportJournalBytes input)].

Lemma digest_pinned a b : digest a = digest b -> pinned a b.
Proof.
  unfold digest. intros H. assert (to_hex (sha256 a) = to_hex (sha256 b)) as Hx by (by injection H). clear H. unfold pinned, collides. destruct (decide (a = b)) as [|Hn]; [by left|]. right. split; [done|].
  rewrite <- (from_to_hex (sha256 a)), <- (from_to_hex (sha256 b)). by rewrite Hx.
Qed.

Lemma binding_Ok what o b :
  assertBinding what o b = Ok tt -> Forall (fun p => field o p.1 = p.2) (binding_of b).
Proof. intros H%for_each_Ok. eapply Forall_impl; [exact H|]. by intros p ?%equal_Ok. Qed.

Lemma line_Ok lbl b p :
  assert_line lbl b p = Ok tt -> exists o, JSON_parse p.2 = Some (JObj o) /\ Forall (fun q => field o q.1 = q.2) (binding_of b).
Proof.
  intros H. unfold assert_line in H. inv_result. apply for_each_Ok in H.
  assert (exists o, a = JObj o) as [o ->].
  { unfold binding_of in H. apply Forall_cons in H as [H _]. apply bind_Ok in H as (x & Hx & H). simpl in H.
    apply equal_Ok in H as ->. apply prop_some in Hx as (o & -> & _). eauto. }
  exists o. split; [done|]. eapply Forall_impl; [exact H|]. intros q (x & Hx & He)%bind_Ok. simpl in Hx. injection Hx as <-.
  by apply equal_Ok in He.
Qed.

Lemma observation_lines_spec b l : l ∈ observation_lines utf8 b <-> is_line b l.
Proof. unfold observation_lines, is_line. rewrite list_elem_of_filter. tauto. Qed.

Lemma file_bindings_Ok lbl b e :
  assertObservationFileBindings utf8 lbl b e = Ok tt ->
  (exists l, is_line b l) /\
  (forall l, is_line b l -> exists o, JSON_parse l = Some (JObj o) /\ Forall (fun q => field o q.1 = q.2) (binding_of e)).
Proof.
  intros H. unfold assertObservationFileBindings in H. inv_result. apply for_each_Ok in H. setoid_rewrite <- observation_lines_spec.
  split.
  - destruct (observation_lines utf8 b) as [|l ls]; [done|]. exists l. left.
  - intros l [i Hi]%list_elem_of_lookup. rewrite Forall_forall in H. apply (line_Ok lbl e (i, l)), H.
    apply list_elem_of_lookup. exists i. rewrite list_lookup_imap, Hi. done.
Qed.

Lemma optional_prop_object v name o : optional_prop v name = Ok o -> o = field (object_of v) name.
Proof. destruct v as [[]|]; simpl; by intros [= <-]. Qed.

Lemma prop_object_of v name o : prop v name = Ok o -> o = field (object_of (Some v)) name.
Proof. apply prop_object. Qed.

Lemma bound_source_Ok files s : NoDup files.*1 -> assert_source utf8 files s = Ok tt -> sourced files s.
Proof.
  intros Hnd H. unfold assert_source, parseJson in H. inv_result.
  repeat match goal with
    | H : equal _ _ _ = Ok _ |- _ => apply equal_Ok in H
    | H : optional_prop _ _ = Ok _ |- _ => apply optional_prop_object in H
    end.
  destruct a as [[| | | |path| |]|]; try done. apply prop_some in Ha as (ms & -> & Hp).
  repeat match goal with H : prop _ _ = Ok _ |- _ => apply prop_object_of in H end. simpl object_of in *.
  subst. exists ms, path, a0, a3. cbv zeta. split_and!; try done.
  - by apply map_get_elem_of.
  - simpl. intros l Hl. rewrite Hl in Ha21. simpl in Ha21. by injection Ha21 as <-.
Qed.

Lemma sources_Ok s files :
  regulatory_sources utf8 s files = Ok tt ->
  exists sources, s = Some (JArr sources) /\ sources <> [] /\ length sources = length files /\ NoDup files.*1 /\
    Forall (sourced files) sources.
Proof.
  intros H. unfold regulatory_sources, assertRegulatorySourceBindings in H. inv_result.
  match goal with H : strict_equal _ _ = true |- _ => apply strict_equal_eq in H end. subst.
  apply for_each_Ok in H. destruct a as [| | | |t|l|]; try done; simpl in *; injection Ha5 as <-.
  - injection Ha0 as <-. destruct t as [|c t]; [done|]. simpl in H. apply Forall_cons in H as [H _]. done.
  - injection Ha0 as <-. injection Ha2 as Hl. exists l. split_and!; try done.
    + by intros ->.
    + lia.
    + eapply Forall_impl; [exact H|]. intros x. by apply bound_source_Ok.
Qed.

Lemma belongs_of b o freeze corpus logical :
  [JStr (bi_freeze_sha256 b); JStr (bi_corpus_file_sha256 b); JStr (bi_logical_corpus_sha256 b)] = [freeze; corpus; logical] ->
  Forall (fun p => field o p.1 = p.2) (binding_of b) ->
  belongs (bi_evaluation_set_id b) (bi_source_commit b) freeze corpus logical o.
Proof.
  intros [= <- <- <-] H. unfold binding_of in H. rewrite !Forall_cons in H. destruct H as (? & ? & ? & ? & ? & _). done.
Qed.

Lemma branch_Ok input b :
  assertBranchIntegrity utf8 input = Ok b -> exists freeze, coherent input freeze b.
Proof.
  intros H. unfold assertBranchIntegrity, parseJson in H. inv_result.
  destruct a0 as [| | | | | |corpus]; try done. destruct a8 as [[| | | |recorded| |]|]; try done. inv_result.
  match goal with H : compare_branch _ _ _ _ = Ok _ |- _ => unfold compare_branch in H; inv_result end.
  set (actual := actual_branch input a4 _) in *.
  repeat match goal with
    | H : equal _ _ _ = Ok _ |- _ => apply equal_Ok in H
    | H : assertBinding _ _ _ = Ok ?u |- _ => destruct u; apply binding_Ok in H
    | H : assertObservationFileBindings _ _ _ _ = Ok ?u |- _ => destruct u; apply file_bindings_Ok in H as [? ?]
    end.
  subst a9 a11. apply prop_some in Ha3 as (freeze & -> & Hset). apply prop_some in Ha11 as (binding & -> & Hlogical).
  apply prop_object_of in Ha1, Ha2, Ha6, Ha8, Ha13. simpl object_of in *. subst a1 a2 a6.
  exists freeze, corpus, binding. cbv zeta. rewrite !Forall_cons, Forall_nil.
  assert (Hb : forall o, Forall (fun p => field o p.1 = p.2) (binding_of actual) ->
    belongs a4 (bi_source_commit actual) (digest (freezeBytes input)) (digest (corpusBytes input))
      (digest (text_encode (stringify (JObj (map_delete "corpus_sha256"%string corpus))))) o)
    by (intros o; by apply (belongs_of actual)).
  split_and!; try done; try (by apply Hb); try (by rewrite <- Ha8, Ha4).
  - rewrite <- Ha5. by destruct (field freeze "taskCorpus") as [[]|].
  - intros l Hl. match goal with H : forall l, is_line _ l -> _ |- _ => destruct (H l Hl) as (o & Ho & Hm) end.
    exists o. split; [done|by apply Hb].
  - intros Hp. rewrite Hp in Ha7. destruct a7. by apply sources_Ok in Ha7.
Qed.

(** What a branch's records write of its files determines the files. *)
Lemma coherent_pinned i i' freeze freeze' b b' :
  coherent i freeze b -> coherent i' freeze' b' -> analysis_integrity i = analysis_integrity i' ->
  pinned (freezeBytes i) (freezeBytes i') /\ pinned (corpusBytes i) (corpusBytes i') /\
  pinned (observationBytes i) (observationBytes i') /\ pinned (transportJournalBytes i) (transportJournalBytes i').
Proof.
  intros (c & bd & H) (c' & bd' & H') Hr. cbv zeta in H, H'. rewrite !Forall_cons in H, H'.
  destruct H as (_ & _ & _ & _ & _ & _ & _ & _ & _ & (_ & _ & (_ & _ & Hf & Hc & _) & _) & _ & Ho & _ & Hj & _).
  destruct H' as (_ & _ & _ & _ & _ & _ & _ & _ & _ & (_ & _ & (_ & _ & Hf' & Hc' & _) & _) & _ & Ho' & _ & Hj' & _).
  rewrite Hr in *. split_and!; apply digest_pinned; congruence.
Qed.

(** C40. [assertFinalEvaluationIntegrity] accepts nothing but coherent files. The set
    identifier of both freezes is the digest of the corpora and the sources the freezes
    themselves name. In each branch the freeze names the digest of the corpus file and of its
    content, which the corpus records of itself too; every line of the observation file, of
    which there is at least one, is a record of this set, of one source commit and of these
    very files, and so are the manifest, the summary and the analysis, which also have the
    digests of the observations and of the journal; both branches have one commit; every
    regulatory source of a primary freeze is one of the given files, unchanged, and is what
    the freeze says. So the analysis pins the files: another accepted evaluation with the same
    analysis of a branch has the same freeze, corpus, observations and journal there, unless
    SHA-256 collides on two of these very files. *)
Theorem evaluation_coherent (P S : FinalEvaluationBranchInput) (r : FinalEvaluationIntegrity) :
  assertFinalEvaluationIntegrity utf8 P S = Ok r ->
  (exists primary synthesis taskCorpus corpus sources,
     coherent P primary (fi_primary r) /\ coherent S synthesis (fi_synthesis r) /\
     field primary "taskCorpus" = Some taskCorpus /\ field synthesis "corpus" = Some corpus /\
     field primary "regulatorySources" = Some sources /\
     let set_text := stringify (JObj [("schema", JStr "EVLLM_FINAL_EVALUATION_SET_V2"); ("primary", taskCorpus);
       ("synthesis", corpus); ("regulatorySources", sources)]%string) in
     fi_evaluation_set_id r =
       JStr ("evllm-final-evaluation-v2-" +:+ substring 0 16 (to_hex (sha256 (text_encode set_text)))) /\
     bi_evaluation_set_id (fi_primary r) = fi_evaluation_set_id r /\ bi_evaluation_set_id (fi_synthesis r) = fi_evaluation_set_id r /\
     bi_source_commit (fi_primary r) = fi_source_commit r /\ bi_source_commit (fi_synthesis r) = fi_source_commit r) /\
     (forall P' S' r' i i', assertFinalEvaluationIntegrity utf8 P' S' = Ok r' -> (i, i') ∈ [(P, P'); (S, S')] ->
     analysis_integrity i = analysis_integrity i' ->
     pinned (freezeBytes i) (freezeBytes i') /\ pinned (corpusBytes i) (corpusBytes i') /\
     pinned (observationBytes i) (observationBytes i') /\ pinned (transportJournalBytes i) (transportJournalBytes i')).
Proof.
  intros H. assert (forall P S r, assertFinalEvaluationIntegrity utf8 P S = Ok r ->
    assertBranchIntegrity utf8 P = Ok (fi_primary r) /\ assertBranchIntegrity utf8 S = Ok (fi_synthesis r)) as Hbr.
  { clear. intros P S r H. unfold assertFinalEvaluationIntegrity in H. by inv_result. }
  split.
  - destruct (Hbr _ _ _ H) as [[primary HP]%branch_Ok [synthesis HS]%branch_Ok].
    exists primary, synthesis. pose proof HP as (? & ? & HP1 & HP2 & _). pose proof HS as (? & ? & HS1 & HS2 & _).
    unfold assertFinalEvaluationIntegrity, parseJson in H. rewrite HP1, HS1 in H. inv_result.
    repeat match goal with
      | H : equal _ _ _ = Ok _ |- _ => apply equal_Ok in H
      | H : Some _ = Some _ |- _ => injection H as <-
      end.
    simpl prop in *. simpl fi_primary in *. simpl fi_synthesis in *. exists a1, a2, a3. simpl fi_evaluation_set_id. simpl fi_source_commit.
    repeat match goal with H : Ok _ = Ok _ |- _ => injection H as H end. assert (bi_evaluation_set_id a8 = JStr (finalEvaluationSetId a1 a2 a3)) as Hs by congruence.
    cbv zeta. split_and!; try done; congruence.
  - intros P' S' r' i i' H' Hi Hr. destruct (Hbr _ _ _ H) as [[p HP]%branch_Ok [s HS]%branch_Ok].
    destruct (Hbr _ _ _ H') as [[p' HP']%branch_Ok [s' HS']%branch_Ok]. rewrite !elem_of_cons in Hi.
    destruct Hi as [[= -> ->]|[[= -> ->]|[]%not_elem_of_nil]]; by eapply coherent_pinned.
Qed.
End Accepted.

(** ** The freezes the program builds *)

(** They pass the checks of the scripts, and name one evaluation set. *)
Lemma built_freezes_valid `{Sha256} primaryCorpus synthesisCorpus sources design :
  let freezes := buildFinalEvaluationFreezes primaryCorpus synthesisCorpus sources design in
  assertPrimaryFreezeProtocol (primary_protocol (ff_primary freezes)) = Ok tt /\
  assertSynthesisFreezeProtocol (synthesis_protocol (ff_synthesis freezes)) = Ok tt /\
  assertComplementaryRawDiagnosticFreeze (field (ff_synthesis freezes) "rawGenerationDiagnostics")
    (field (ff_synthesis freezes) "rawGenerationDiagnosticFieldMap") = Ok tt /\
  Forall (fun freeze => field freeze "evaluation_set_id" = Some (JStr (ff_evaluationSetId freezes)))
    [ff_primary freezes; ff_synthesis freezes].
Proof. split_and!; [reflexivity..|]. by repeat constructor. Qed.

(** ** A concrete evaluation *)

Module IntegritySample.
Import Json.Sample Signatures.Sample.
Local Open Scope string_scope.

Definition utf8 (b : bytes) : string := default "" (text_decode b).
Definition hex_of (b : bytes) : string := "0x" +:+ to_hex (sha256 b).
Definition cases : object := [("cases", JArr [JNum 1; JNum 2])].
Definition logical : string := Eval vm_compute in hex_of (text_encode (stringify (JObj cases))).
Definition corpus_file : bytes := Eval vm_compute in canonicalJsonBytes (JObj (("corpus_sha256", JStr logical) :: cases)).
Definition source_file : bytes :=
  Eval vm_compute in canonicalJsonBytes (JObj [("fixture_id", JStr "regulation");
    ("source", JObj [("celex_identifier", JStr "32023R1542"); ("eli_uri", JStr "eli"); ("official_eur_lex_uri", JStr "lex"); ("jurisdiction", JStr "EU")]);
    ("clauses", JArr [JNull])]).
Definition corpus_binding : CorpusBinding := mkCorpusBinding "corpus.json" 2 1 2 logical (hex_of corpus_file).
Definition source : RegulatorySourceBinding :=
  mkSourceBinding "regulation" "source.json" (hex_of source_file) "CELEX:32023R1542" "eli" "lex" "EU" 1.

(** The files hold their members in the order the sample's parser gives them. *)
Definition evaluation_set : string :=
  Eval vm_compute in finalEvaluationSetId (norm (corpus_value corpus_binding)) (norm (corpus_value corpus_binding)) (norm (JArr [source_value source])).
Definition primary_file : bytes :=
  Eval vm_compute in canonicalJsonBytes (JObj [("evaluation_set_id", JStr evaluation_set); ("taskCorpus", corpus_value corpus_binding);
    ("regulatorySources", JArr [source_value source])]).
Definition synthesis_file : bytes :=
  Eval vm_compute in canonicalJsonBytes (JObj [("evaluation_set_id", JStr evaluation_set); ("corpus", corpus_value corpus_binding)]).

Definition record_of (freeze : bytes) : object :=
  [("evaluation_set_id", JStr evaluation_set); ("source_commit", JStr "c0ffee"); ("freeze_sha256", JStr (hex_of freeze));
   ("corpus_file_sha256", JStr (hex_of corpus_file)); ("logical_corpus_sha256", JStr logical)].

Definition newline : bytes := [Byte.x0d; Byte.x0a].
Definition observations (freeze : bytes) : bytes :=
  Eval vm_compute in (canonicalJsonBytes (JObj (("observation_id", JStr "o-1") :: record_of freeze)) ++ newline ++ newline)%list.

Definition branch_of (l : BranchLabel) (freeze : bytes) : FinalEvaluationBranchInput :=
  {| label := l; freezeBytes := freeze; corpusBytes := corpus_file; observationBytes := observations freeze;
     transportJournalBytes := []; regulatorySourceFiles := [("source.json", source_file)];
     configManifest := record_of freeze;
     runSummary := (record_of freeze ++ [("transport_attempt_journal_sha256", JStr (hex_of []))])%list;
     analysis_integrity := (record_of freeze ++ [("analysis_source_commit", JStr "c0ffee");
       ("observations_sha256", JStr (hex_of (observations freeze))); ("transport_attempt_journal_sha256", JStr (hex_of []))])%list |}.

Definition evaluation : result IntegrityError FinalEvaluationIntegrity :=
  assertFinalEvaluationIntegrity utf8 (branch_of primary_branch primary_file) (branch_of synthesis_branch synthesis_file).
End IntegritySample.

Lemma evaluation_coherent_witness :
  exists r primary, IntegritySample.evaluation = Ok r /\ field primary "evaluation_set_id" = Some (JStr IntegritySample.evaluation_set) /\
    @coherent Json.Sample.sample_canonical Signatures.Sample.sample_sha256 IntegritySample.utf8
      (IntegritySample.branch_of primary_branch IntegritySample.primary_file) primary (fi_primary r).
Proof.
  destruct IntegritySample.evaluation as [r|e] eqn:He.
  - exists r. destruct (proj1 (@evaluation_coherent Json.Sample.sample_canonical Signatures.Sample.sample_sha256 IntegritySample.utf8
      (IntegritySample.branch_of primary_branch IntegritySample.primary_file)
      (IntegritySample.branch_of synthesis_branch IntegritySample.synthesis_file) r He)) as (primary & _ & _ & _ & _ & Hp & _).
    exists primary. split; [reflexivity|]. split; [|exact Hp].
    destruct Hp as (c & b & Hparse & Hset & _). rewrite Hset. f_equal.
    assert (match IntegritySample.evaluation with Ok r => bi_evaluation_set_id (fi_primary r) | _ => JNull end = JStr IntegritySample.evaluation_set) as H
      by (vm_compute; reflexivity).
    rewrite He in H. exact H.
  - exfalso. assert (match IntegritySample.evaluation with Ok _ => true | _ => false end = true) as H by (vm_compute; reflexivity).
    rewrite He in H. discriminate H.
Defined.
